(* ===== verification/_CoqProject ===== *)
-Q . S2P
Prelude.v
RustStr.v
Ip.v
GeoIp.v
Waf.v
Bot.v
Captcha.v
Security.v
Edge.v
EdgeAuth.v
ProxyConfig.v
Router.v
Forward.v
Apply.v
Http.v
Grpc.v
Registry.v
Respond.v
Telemetry.v
Logging.v
CertStore.v
CertValidate.v
Handshake.v
Gateway.v
GatewayProps.v
H3.v
H3Props.v
H3Quiche.v
H3Serve.v
Controller.v
ControllerProps.v
Database.v
Schema.v
Admin.v
AdminProps.v
SchemaProps.v
Settings.v
SettingsProps.v
Startup.v
StartupProps.v
Policies.v
PoliciesProps.v
Notify.v
NotifyProps.v
Backup.v
BackupProps.v
AutoSsl.v
AutoSslProps.v
Dns01.v
Dns01Props.v
DnsForm.v
AcmeOrder.v
OrderFlow.v
Running.v
KubeSites.v
KubeSitesProps.v
Readout.v
ReadoutProps.v
Leader.v
IngressStart.v
IngressStartProps.v
Watch.v
KubeView.v
KubeViewProps.v
Live.v
LiveProps.v
Tunnel.v
TunnelRelay.v
TunnelSession.v
Background.v
TestsRouting.v
TestsTraffic.v
TestsSecurity.v
