(* ===== verification/Prelude.v ===== *)
(** * pertisk-proxy: a verification development

    pertisk-proxy is a reverse proxy and Kubernetes Ingress controller built on
    the Pingora framework.  This library models its data plane (what happens to
    a request over HTTP/1, HTTP/2 and HTTP/3, and the tables that decide it), the
    configuration, controllers and management interface that fill those tables,
    the certificates it orders for itself, and two protocols beside it, leader
    election and the reverse tunnel.  Paths below are relative to [src/src/]
    unless they start with [tunnel/] (then to [src/]).

    ** The program and the files that model it

    A stored configuration ([proxy_config.rs]) or a set of Ingress objects is
    turned into a route table ([proxy/apply.rs], [router.rs]).  For each request
    Pingora calls the gateway's callbacks ([proxy/mod.rs]): they find the route,
    apply its policies in order (edge limits, authentication, static files,
    response cache, GeoIP, captcha endpoint, WAF and bot score, redirect, deny),
    choose the upstream, rewrite the request and the response, and account for
    both.  The policies are the components below the gateway; they share
    process-wide tables (rate windows, cache, Consul endpoints, bot counters).
    The HTTP/3 servers ([h3/]) run the same policies over QUIC streams.  Two
    writers fill the tables: the controller ([ingress/controller.rs]) from the
    cluster's Ingress and Gateway objects, and the management interface ([api/])
    from the stored configuration ([db/]), which also edits sites in the
    cluster, merges named policies and starts certificate orders ([tls/]).

    - [Prelude]: bytes, machine widths, [result] with its bind, generic lemmas on
      lists, maps and searches, the hint database and the tactics.
    - [RustStr]: the methods of Rust's [str], integer parsing and printing,
      UTF-8 validity and lossy decoding that the sources use.
    - [Ip]: [std::net::IpAddr] (parsing, printing, range predicates) and the
      client-address choice of [proxy/forward.rs].
    - [GeoIp] ([geoip.rs]); [Waf], [Bot], [Captcha], [Security]
      ([security/waf.rs], [bot.rs], [captcha.rs], [mod.rs]): policies, their normal forms,
      evaluation and Kubernetes annotations.
    - [Edge], [EdgeAuth] ([edge/mod.rs]): response cache, rate windows, Consul
      and TLS probe tables; JWT, basic and forward authentication, static files.
    - [ProxyConfig] ([proxy_config.rs]), [Router] ([router.rs]), [Forward]
      ([proxy/forward.rs]), [Apply] ([proxy/apply.rs], [routes_config.rs]):
      configuration types and parsing, host and path matching, forwarding plans,
      the table built from a configuration.
    - [Http]: the message types of the [http] and [pingora_http] crates; [Grpc],
      [Registry], [Respond] ([proxy/grpc.rs], [proxy/registry.rs], [deny.rs] and
      [health.rs]): what the gateway does with them.
    - [Telemetry] ([log.rs], the counters of [metrics.rs]), [Logging]
      ([logging.rs]): the filter and the copy of events into the log; [CertStore]
      ([tls/store.rs], SNI selection, the HTTP-01 token store of [tls/acme.rs]),
      [CertValidate] ([tls/validate.rs]): the checks the store relies on;
      [Handshake] ([tls/sni.rs], [tls/resolver.rs]): what a handshake does with the
      selected certificate, and what is read from one.
    - [Gateway]: every callback of the [ProxyHttp] implementation of
      [proxy/mod.rs]; [GatewayProps]: the theorems about a whole request.
    - [H3] ([h3/quinn_server.rs], [h3/bind.rs], [h3/upstream_client.rs]) with
      [H3Props], [H3Quiche] ([h3/server.rs], [h3/headers.rs]): the second request
      path, on the same tables as [Gateway]; [H3Serve]: how both servers come up, with
      which certificates and sockets, and their loops.
    - [Controller] ([ingress/controller.rs], [ingress/mod.rs],
      [ingress/gateway_api.rs]) with [ControllerProps]: the objects of the
      cluster, the routes and certificates one pass derives from them, the
      status it writes back.
    - [Database] ([db/]): users, sessions, settings and stored proxies; [Schema]
      ([db/schema.rs]) with [SchemaProps]: the file as SQL tables and the statements
      that bring one of any version up to date; [Admin]
      ([api/mod.rs]) with [AdminProps]: login, protected paths, reading and
      replacing the configuration; [Settings] ([runtime_env.rs], [runtime.rs],
      [config/]) with [SettingsProps]: stored environment overrides and what is read
      from the environment; [Startup] ([main.rs], [server.rs], [proxy/routes.rs],
      [routes_config.rs]) with [StartupProps]: from the database to router,
      certificates and listeners; [Policies] ([api/policies.rs],
      [api/backup.rs]) with [PoliciesProps]: named policies, their expansion into
      routes, backup and restore.
    - [Notify] ([api/notifications.rs], [email/]) with [NotifyProps]: alerts and the
      mail settings; [Backup] ([api/backup.rs], [storage/s3.rs]) with [BackupProps]:
      the backup of cluster objects and the object storage; [Readout] ([metrics.rs],
      [api/mod.rs]) with [ReadoutProps]: the scraper's text and the answers that only
      read; [DnsForm] ([api/mod.rs]): the form of a DNS provider; [Live]
      ([api/ws.rs]) with [LiveProps]: web sockets and event streams.
    - [AutoSsl] ([api/acme.rs]) with [AutoSslProps]: which hosts get an order and
      the lock and back-off around it; [AcmeOrder] ([tls/acme.rs]): one order;
      [Dns01] ([tls/dns_01.rs]) with [Dns01Props]: the TXT record at twelve DNS
      providers, each a program of HTTP calls; [OrderFlow] ([api/acme.rs], [tls/]):
      the task of an order, which composes these three with the database and the store;
      [Running] ([main.rs], [api/]): the process after its start, in which management
      requests, passes of Auto-SSL and orders interleave on one state.
    - [KubeSites] ([api/kubernetes.rs]) with [KubeSitesProps]: creating, showing,
      changing and deleting a site as an Ingress or an HTTPRoute; [KubeView] with
      [KubeViewProps]: the cluster's dashboard.
    - [Leader] ([ingress/leader_election.rs]): replicas competing for a Lease;
      [IngressStart] ([ingress/mod.rs]) with [IngressStartProps]: the start in ingress
      mode; [Watch] ([ingress/controller.rs], [ingress/mod.rs]): the two loops that run
      passes of the controller, as steps that interleave with the cluster's changes.
    - [Tunnel] ([tunnel/proto], [tunnel/server], [tunnel/client]): frames, hellos and
      the listeners they authorise; [TunnelRelay]: the byte pumps of one connection,
      reconnects; [TunnelSession]: the QUIC endpoints of both programs and a client's
      session from the lookup of its server to its end.
    - [Background]: the loop that polls Consul ([edge/mod.rs]) with what requests get
      from it, and the loop of [controller.rs], which the library does not include.
    - [TestsRouting], [TestsTraffic], [TestsSecurity]: the repository's own unit tests,
      each a boolean that the definitions above make true.

    ** How the code is represented

    A Rust string or byte vector is a list of bytes; an unsigned integer is an
    [N] with its wrap-around, saturation or checked failure written out where
    the source has it; [Option] and [Result] are [option] and [result]; a
    [HashMap] is a [gmap], a [HashSet] a [gset], a [Vec] a list.  Mutable state
    (a [Mutex<HashMap>], an atomic, the request context) is a record passed in
    and returned.  Where the source iterates over a hash map, the order is an
    argument and the theorems hold for every order.  Clocks are arguments.  The
    gateway's stages return a value of a small early-return monad, [Flow], so
    that the sequence of checks in [request_filter] reads as in the source.  One
    callback sees one snapshot of the configuration and one reading of each
    clock; concurrent requests interleave between callbacks, which share
    the tables of [GwState].  In [Running] and [Watch] one request, one pass of Auto-SSL
    and one change of the cluster with its notification are single steps, although the
    source can be interrupted inside them; [Watch.overlapping_passes_go_back] shows what
    two overlapping passes of the controller can do.  An [Instant] has no upper end:
    the lifetime at which [cache_put] would panic is named in [Edge].

    Code outside the repository is a parameter with its documented laws:
    HMAC-SHA256 and hex ([Captcha.Crypto]), the constant-time MAC check
    ([EdgeAuth]), header maps and URI parsing ([Http.HeaderMap],
    [Http.UriParser]), JSON encoding ([JsonCodec]), [Url::parse], Unicode
    [to_lowercase], reading PEM files, network probes and subrequests, random
    draws, the range of timestamps and what the Kubernetes API keeps of a time,
    the Kubernetes API server itself ([KubeSites.KubeServer]), the ACME client
    ([AcmeOrder.AcmeClient]), the text formats of a stored configuration
    ([Database.Formats]), the PEM and X.509 parsers ([CertValidate.CertParser],
    [Handshake.PemReader]), OpenSSL ([Handshake.OpenSsl]), the cluster as a backup sees
    it and the texts of a backup ([Backup.ClusterServer], [Backup.BackupTexts]), the
    mail library, floating-point numbers ([KubeView.Float64]), the JSON of live
    snapshots ([Live.LiveJson]) and the answers of a DNS provider, which a [Dns01]
    program receives from an arbitrary handler.
    A theorem that relies on such laws has a witness at a concrete instance.

    ** What the theorems show

    - The request ([GatewayProps]): exactly which requests the filter lets through to
      an upstream ([forwarded_iff]); at most one response is written, whole when the
      filter reports an answer, none when it lets the request through, and on an error
      none or a header whose body failed ([answered_once]); a response collected in
      chunks is cached whole or not at all; which address the upstream is told, on
      registry paths, under middleware headers and otherwise.  Four theorems
      record behaviour that differs from what the code means to do: policies
      skipped on plain HTTP under [auto_https], routes that are never cached, a gauge that
      is not released, a query lost with a stripped prefix.
    - Policies: exact admission for the security pipeline, the WAF's first match
      and its independence of percent-encoding for traversal, the bot counter as
      a per-address specification, GeoIP decisions on every branch, the ASN
      binary search against a linear reference, captcha and pass cookie
      round trip and soundness, an inert challenge page, annotation round trips.
    - Edge: the cache's byte accounting and budget over any run, storing and
      serving until expiry, exact rate windows, Consul rotation, JWT and basic
      authentication, containment of static file paths; a polled service is reached at
      the endpoints Consul reported.
    - Routing and configuration: host lookup equals a reference search in any map
      order, the longest path wins, the edge policy belongs to the same host, the
      forwarding plan carries the route's policies, the built table holds exactly
      what its sites contribute, TLS entries keep every requested host.
    - Certificates: SNI selection equals the longest-suffix search; an installed
      certificate is the one presented.
    - Telemetry: the log is exactly the last admitted entries.
    - HTTP/3: exactly which streams are forwarded, on both stacks, each stream
      answered once, and agreement with the gateway on every policy but the address
      that is limited (the socket's over HTTP/3, the resolved client's in the gateway).
    - Controller: when every selected path has a Service, a pass installs a route for
      each, in the namespace of the first Ingress of that name that uses the Service,
      and otherwise changes no route; what becomes of each name of the certificate
      store, by the spellings the secrets list; the table's parts stay consistent; when
      the written status settles.
    - Management: exactly which paths and methods reach a protected handler, how long a
      session lives and that its token reads back; every outcome of replacing the
      configuration, with what is stored and what runs after it; what was
      saved is what a later reload and the next start serve; stored environment
      overrides are well typed and take effect exactly where the environment leaves
      room; an edit of an access list reaches the routes that
      name it; merging policies leaves no name unresolved.
    - Sites in the cluster: when and where to a created site is routed by the
      controller; what a form shows of what it saved, and exactly which policies it
      shows as they were saved; only objects the proxy manages are changed or deleted.
    - Certificate orders: at most one order per host at a time, one only when a
      certificate is missing or near expiry; which record a solver that reports
      success has set, and exactly when it is the one it was asked for; how an order
      ends after any number of rounds, when its certificate is stored and presented
      for its hosts and when it is lost.
    - The findings of these parts are theorems too: a named service port and a
      service's namespace that are ignored, a refused deletion reported as done,
      a form that shows another listener, a refused write reported as done,
      records placed outside the zone, a refused configuration that keeps the proxy
      from starting, settings without effect.
    - Read-outs: the scraper's text determines every counter and label it was
      printed from.  Live updates: at every point of every interleaving at most 64 connections
      hold a slot, and the counter is the connections under way and the slots that failed
      upgrades have lost; a stream's client is up to date after each tick it reads.  Backups: what an exported cluster backup restores, and why it
      restores unchanged objects only.  Handshakes, alerts, the dashboard and the
      logging filter have theorems on every branch in their files.
    - Leader election: in every interleaving the lease changes hands only after
      the stored expiry.  Ingress start: which answers of the cluster and the database
      lead to a serving process, and what it then serves.  Watch loops: once the
      cluster is quiet, at most five steps of the watching task lead to what a pass makes
      of it.
    - The running proxy: in every interleaving of requests, passes and orders the
      router has one applicable configuration, and the orders under way are those whose
      locks are held.  The database file: one of any version, also after an opening
      that failed at any statement, opens and keeps what it held.  HTTP/3 servers: when
      they start and which certificate they present.
    - Unit tests: 179 of the repository's tests, evaluated on the model.  They are
      no theorems about the program; they show that the definitions agree with its
      authors on the inputs they chose.
    - Tunnel: frames read back; the server relays to the authorised client only; what
      arrives at the other end is a prefix of the bytes sent; a relay ends once its ends
      do, and its counts leave out what a failed write put out.

    ** Bounds and fuel

    The loops that are not structural recurse on fuel, each with at least what it
    can use: cache eviction has one unit more than there are entries and removes
    one per round ([Edge.cache_evict_room]); UTF-8 decoding has the length of its
    input and consumes at least a byte per step; the binary searches have one
    unit more than the table has rows and shrink the interval in every step
    ([partition_point_go_spec]); hexadecimal printing has a unit per digit.
    [Dns01]'s repeated trimming has the length of its input.  The polling of an order
    ([AcmeOrder.answer_rounds]) has no bound in the source: its fuel is an argument,
    a run that is not over is a value of its own ([Polling]), and the theorems say when
    that is so and that a run that has ended stays as it is with more fuel.
    [Bot]'s window, [Edge]'s budgets and the 1 MiB cache and 64 KiB frame limits
    are the source's constants.

    ** Not modelled

    What third-party libraries do: sockets, threads, QUIC, TLS and the clients of
    Kubernetes, ACME, mail and object storage (parameters where the code depends on
    their answers); the unit tests of such libraries (serde's texts, PEM parsing).
    [bin/ingress.rs], which calls what [IngressStart] models.  The other languages of the repository (the admin
    interface, the Terraform provider, packaging). *)

From stdpp Require Export prelude gmap list sorting strings.
From Stdlib Require Export Strings.Byte NArith Lia.

Declare Scope pertisk_scope.
Delimit Scope pertisk_scope with pertisk.
#[global] Open Scope pertisk_scope.
#[global] Open Scope string_scope.
#[global] Open Scope list_scope.
#[global] Open Scope N_scope.

(** ** Bytes and Rust strings

    A Rust [str], a [String], a [Vec<u8>] and a [&[u8]] are all lists of bytes;
    literals are Rocq strings read as bytes through a coercion. *)

Abbreviation byte := Init.Byte.byte.
Abbreviation str := (list byte).

Definition bs (s : string) : list byte := String.list_byte_of_string s.
Coercion bs : string >-> list.

#[export] Instance byte_eq_dec : EqDecision byte := Strings.Byte.byte_eq_dec.
#[export] Program Instance byte_countable : Countable byte :=
  inj_countable Strings.Byte.to_N Strings.Byte.of_N Strings.Byte.of_to_N.

Definition b2n (b : byte) : N := Strings.Byte.to_N b.
Definition n2b (n : N) : byte := default x00 (Strings.Byte.of_N (n mod 256)).

(** ** Machine integers: unsigned, kept in [N] with the width's maximum *)

Definition u8_max : N := 255.
Definition u16_max : N := 65535.
Definition u32_max : N := 4294967295.
Definition u64_max : N := 18446744073709551615.

(** [as u16]: truncation of a wider integer. *)
Definition as_u16 (n : N) : N := n mod 65536.

Definition saturating_add (max a b : N) : N := N.min max (a + b).
Definition saturating_sub (a b : N) : N := a - b.
Definition saturating_mul (max a b : N) : N := N.min max (a * b).

(** ** Fallible code: [Result<T, E>] *)

Inductive result (E A : Type) : Type :=
| Ok (a : A)
| Err (e : E).
Arguments Ok {E A} _.
Arguments Err {E A} _.

#[export] Instance result_ret E : MRet (result E) := fun _ a => Ok a.
#[export] Instance result_bind E : MBind (result E) := fun _ _ f r =>
  match r with Ok a => f a | Err e => Err e end.

(** [opt.ok_or(e)] / [opt.with_context(e)]. *)
Definition ok_or {E A} (o : option A) (e : E) : result E A :=
  match o with Some a => Ok a | None => Err e end.

Definition is_ok {E A} (r : result E A) : bool :=
  match r with Ok _ => true | Err _ => false end.

(** [opt.filter(p)]. *)
Definition opt_filter {A} (p : A -> bool) (o : option A) : option A :=
  match o with Some a => if p a then Some a else None | None => None end.

(** [a.or(b)]. *)
Definition or_else {A} (a b : option A) : option A := match a with Some _ => a | None => b end.

Definition is_some {A} (o : option A) : bool :=
  match o with Some _ => true | None => false end.

Definition is_empty {A} (l : list A) : bool :=
  match l with [] => true | _ => false end.

(** ** [slice::sort_by]: the stable sort, as insertion sort

    A stable sort of a list by a total preorder is unique, so the algorithm
    does not matter; insertion sort is the shortest one to reason about. *)

Section stable_sort.
Context {A : Type} (leb : A -> A -> bool).

Fixpoint insert_sorted (x : A) (l : list A) : list A :=
  match l with
  | [] => [x]
  | y :: l' => if leb x y then x :: l else y :: insert_sorted x l'
  end.

Fixpoint sort_by (l : list A) : list A :=
  match l with
  | [] => []
  | x :: l' => insert_sorted x (sort_by l')
  end.

End stable_sort.

(** [Vec::dedup]: removes consecutive repeated elements. *)
Fixpoint dedup `{EqDecision A} (l : list A) : list A :=
  match l with
  | [] => []
  | x :: l' =>
    match dedup l' with
    | [] => [x]
    | (y :: _) as r => if decide (x = y) then r else x :: r
    end
  end.

(** ** The "strictly better score wins" loop

    [let mut best = None; for .. { if best.map(|(s, _)| s).unwrap_or(0) < score
    { best = Some((score, x)) } }], as the router and the certificate store
    write it over the entries of a [HashMap]. *)

Definition keep_best {A} (best : option (nat * A)) (c : nat * A) : option (nat * A) :=
  if (default 0%nat (fst <$> best) <? fst c)%nat then Some c else best.

Definition best_of {A} (l : list (nat * A)) : option (nat * A) :=
  foldl keep_best None l.

(** ** [slice::partition_point]: binary search for the first element that fails
    the predicate (the loop of the standard library, on index bounds). *)

Fixpoint partition_point_go {A} (p : A -> bool) (l : list A) (fuel left size : nat) : nat :=
  match fuel with
  | O => left
  | S fuel' =>
    if (size =? 0)%nat then left else
    let half := (size / 2)%nat in
    let mid := (left + half)%nat in
    match l !! mid with
    | Some x =>
      if p x then partition_point_go p l fuel' (mid + 1) (size - half - 1)
      else partition_point_go p l fuel' left half
    | None => left
    end
  end.

Definition partition_point {A} (p : A -> bool) (l : list A) : nat :=
  partition_point_go p l (S (length l)) 0 (length l).

(** ** Automation *)

Create HintDb pertisk discriminated.

(** Turn boolean tests in the context and the goal into propositions. *)
Ltac bsimp :=
  repeat match goal with
  | H : context [negb (negb _)] |- _ => rewrite negb_involutive in H
  | H : andb _ _ = true |- _ => apply andb_true_iff in H as [? ?]
  | H : orb _ _ = false |- _ => apply orb_false_iff in H as [? ?]
  | H : negb _ = true |- _ => apply negb_true_iff in H
  | H : negb _ = false |- _ => apply negb_false_iff in H
  | H : bool_decide _ = true |- _ => apply bool_decide_eq_true in H
  | H : bool_decide _ = false |- _ => apply bool_decide_eq_false in H
  | H : (_ =? _)%N = true |- _ => apply N.eqb_eq in H
  | H : (_ =? _)%N = false |- _ => apply N.eqb_neq in H
  | H : (_ <=? _)%N = true |- _ => apply N.leb_le in H
  | H : (_ <=? _)%N = false |- _ => apply N.leb_gt in H
  | H : (_ <? _)%N = true |- _ => apply N.ltb_lt in H
  | H : (_ <? _)%N = false |- _ => apply N.ltb_ge in H
  | H : (_ =? _)%nat = true |- _ => apply Nat.eqb_eq in H
  | H : (_ =? _)%nat = false |- _ => apply Nat.eqb_neq in H
  | H : (_ <=? _)%nat = true |- _ => apply Nat.leb_le in H
  | H : (_ <=? _)%nat = false |- _ => apply Nat.leb_gt in H
  | H : (_ <? _)%nat = true |- _ => apply Nat.ltb_lt in H
  | H : (_ <? _)%nat = false |- _ => apply Nat.ltb_ge in H
  | |- andb _ _ = true => apply andb_true_iff
  | |- negb _ = true => apply negb_true_iff
  | |- negb _ = false => apply negb_false_iff
  | |- bool_decide _ = true => apply bool_decide_eq_true
  | |- bool_decide _ = false => apply bool_decide_eq_false
  end.

(** Case analysis on the innermost test or scrutinee of the goal. *)
Ltac case_if :=
  match goal with
  | |- context [if ?b then _ else _] =>
    lazymatch b with
    | context [if _ then _ else _] => fail
    | context [match _ with _ => _ end] => fail
    | _ => let E := fresh "E" in destruct b eqn:E
    end
  end.

(** ** Generic lemmas *)

Lemma b2n_bound b : b2n b < 256.
Proof.
  unfold b2n. pose proof (Strings.Byte.to_N_bounded b). lia.
Qed.

Lemma n2b_b2n b : n2b (b2n b) = b.
Proof. destruct b; reflexivity. Qed.

Lemma b2n_n2b n : n < 256 -> b2n (n2b n) = n.
Proof.
  intros Hn. unfold n2b, b2n. rewrite N.mod_small by done.
  destruct (Strings.Byte.of_N n) as [b|] eqn:E; simpl.
  - by apply Strings.Byte.to_of_N.
  - apply Strings.Byte.of_N_None_iff in E. lia.
Qed.

#[export] Instance b2n_inj : Inj (=) (=) b2n.
Proof. intros a b E. by rewrite <- (n2b_b2n a), E, n2b_b2n. Qed.

Lemma is_empty_nil {A} (l : list A) : is_empty l = true <-> l = [].
Proof. by destruct l. Qed.

Lemma is_empty_false {A} (l : list A) : is_empty l = false <-> l <> [].
Proof. by destruct l. Qed.

Lemma is_some_true {A} (o : option A) : is_some o = true <-> is_Some o.
Proof. destruct o; simpl; split; intros H; eauto; [done|by destruct H]. Qed.

Lemma opt_filter_Some {A} (p : A -> bool) o x :
  opt_filter p o = Some x <-> o = Some x /\ p x = true.
Proof.
  destruct o as [y|]; simpl; [|split; [done|by intros [? _]]].
  destruct (p y) eqn:E; split; [intros [= <-]|intros [[= <-] _]|done|intros [[= <-] ?]]; by auto || congruence.
Qed.

Lemma ok_or_Ok {E A} (o : option A) (e : E) a : ok_or o e = Ok a <-> o = Some a.
Proof. destruct o; simpl; split; congruence. Qed.

(** Induction on the length of a list. *)
Lemma list_length_ind {A} (P : list A -> Prop) :
  (forall l, (forall l', (length l' < length l)%nat -> P l') -> P l) -> forall l, P l.
Proof.
  intros H l. remember (length l) as n eqn:Hn. revert l Hn.
  induction n as [n IH] using lt_wf_ind. intros l ->. apply H.
  intros l' Hl'. by apply (IH (length l')).
Qed.

(** *** Stable sort *)

Section stable_sort_lemmas.
Context {A : Type} (leb : A -> A -> bool).
Local Abbreviation le := (fun a b => leb a b = true).
Context (leb_total : forall a b, leb a b = true \/ leb b a = true)
        (leb_trans : Transitive le).

Lemma insert_sorted_perm x l : insert_sorted leb x l ≡ₚ x :: l.
Proof.
  induction l as [|y l IH]; simpl; [done|].
  destruct (leb x y); [done|]. rewrite IH. apply Permutation_swap.
Qed.

Lemma sort_by_perm l : sort_by leb l ≡ₚ l.
Proof.
  induction l as [|x l IH]; simpl; [done|].
  rewrite insert_sorted_perm. by apply Permutation_skip.
Qed.

Lemma elem_of_sort_by x l : x ∈ sort_by leb l <-> x ∈ l.
Proof. by rewrite (sort_by_perm l). Qed.

Lemma insert_sorted_sorted x l :
  StronglySorted le l -> StronglySorted le (insert_sorted leb x l).
Proof using leb_total leb_trans.
  induction 1 as [|y l HS IH HF]; simpl.
  - repeat constructor.
  - destruct (leb x y) eqn:E.
    + constructor; [by constructor|]. constructor; [done|].
      eapply Forall_impl; [exact HF|]. intros z Hz. simpl in *. by apply (leb_trans x y z).
    + constructor; [done|]. rewrite insert_sorted_perm. constructor; [|done].
      destruct (leb_total x y) as [H|H]; [congruence|done].
Qed.

Lemma sort_by_sorted l : StronglySorted le (sort_by leb l).
Proof using leb_total leb_trans.
  induction l as [|x l IH]; simpl; [constructor|by apply insert_sorted_sorted].
Qed.

(** Equal keys keep their input order: filtering one equivalence class out of
    the sorted list gives what filtering the input gives. *)
Lemma insert_sorted_filter (P : A -> bool) x l :
  StronglySorted le l ->
  (forall a b, P a = true -> P b = true -> leb a b = true) ->
  filter P (insert_sorted leb x l) = filter P (x :: l).
Proof using leb_trans.
  intros HS HP. induction HS as [|y l HS IH HF]; [done|]. simpl insert_sorted.
  destruct (leb x y) eqn:E; [done|].
  rewrite (filter_cons _ y). rewrite !filter_cons in IH. rewrite !filter_cons.
  destruct (decide (P y)) as [Hy|Hy], (decide (P x)) as [Hx|Hx]; rewrite IH; try done.
  apply Is_true_true in Hx, Hy. rewrite HP in E by done. done.
Qed.

Lemma sort_by_stable (P : A -> bool) l :
  (forall a b, P a = true -> P b = true -> leb a b = true) ->
  filter P (sort_by leb l) = filter P l.
Proof using leb_total leb_trans.
  intros HP. induction l as [|x l IH]; [done|]. simpl sort_by.
  rewrite insert_sorted_filter by (done || apply sort_by_sorted).
  rewrite !filter_cons. by rewrite IH.
Qed.

End stable_sort_lemmas.

(** *** [dedup] *)

Section dedup_lemmas.
Context `{EqDecision A}.
Implicit Types l : list A.

Lemma dedup_head x l : exists r, dedup (x :: l) = x :: r.
Proof.
  simpl. destruct (dedup l) as [|y r]; [eexists; reflexivity|].
  case_decide as E; [subst|]; eexists; reflexivity.
Qed.

Lemma elem_of_dedup x l : x ∈ dedup l <-> x ∈ l.
Proof.
  induction l as [|y l IH]; [done|]. simpl.
  rewrite (elem_of_cons l), <- IH.
  destruct (dedup l) as [|z r] eqn:E; [by rewrite elem_of_cons|].
  case_decide as D; rewrite !elem_of_cons; [subst|]; tauto.
Qed.

Lemma dedup_Forall (P : A -> Prop) l : Forall P l -> Forall P (dedup l).
Proof. rewrite !Forall_forall. intros H x Hx. apply H. by apply elem_of_dedup. Qed.

(** On a sorted list [dedup] leaves a strictly sorted one. *)
Lemma dedup_strict (leb : A -> A -> bool) l :
  (forall a b, leb a b = true -> leb b a = true -> a = b) ->
  Transitive (fun a b => leb a b = true) ->
  StronglySorted (fun a b => leb a b = true) l ->
  StronglySorted (fun a b => leb a b = true /\ a <> b) (dedup l).
Proof.
  intros Has Htr. induction 1 as [|x l HS IH HF]; [constructor|]. simpl.
  apply dedup_Forall in HF.
  destruct (dedup l) as [|y r] eqn:E; [by repeat constructor|].
  case_decide as D; [done|]. constructor; [done|].
  apply Forall_cons in HF as [Hxy HFr]. constructor; [done|].
  apply StronglySorted_cons in IH as [HFy _].
  rewrite Forall_forall in HFr, HFy |- *. intros z Hz. split; [by apply HFr|].
  intros ->. destruct (HFy _ Hz) as [Hyz Hne]. apply Hne. by apply Has.
Qed.

Lemma strict_dedup_id (R : A -> A -> Prop) l :
  (forall a b, R a b -> a <> b) -> StronglySorted R l -> dedup l = l.
Proof.
  intros HR. induction 1 as [|x l HS IH HF]; [done|]. simpl. rewrite IH.
  destruct l as [|y l]; [done|]. apply Forall_cons in HF as [Hxy _].
  case_decide; [by apply HR in Hxy|done].
Qed.

End dedup_lemmas.

Lemma sort_by_sorted_id {A} (leb : A -> A -> bool) l :
  StronglySorted (fun a b => leb a b = true) l -> sort_by leb l = l.
Proof.
  induction 1 as [|x l HS IH HF]; [done|]. simpl. rewrite IH.
  destruct l as [|y l]; [done|]. apply Forall_cons in HF as [Hxy _]. simpl. by rewrite Hxy.
Qed.

(** *** [best_of] *)

Lemma best_of_cons_acc {A} (l : list (nat * A)) b :
  foldl keep_best b l = b \/ exists c, c ∈ l /\ foldl keep_best b l = Some c /\
    (default 0%nat (fst <$> b) < fst c)%nat.
Proof.
  revert b. induction l as [|c l IH]; intros b; simpl; [by left|].
  destruct (IH (keep_best b c)) as [->|(c' & Hin & -> & Hlt)].
  - unfold keep_best. case_if; bsimp; [right|by left]. exists c. set_solver.
  - right. exists c'. split_and!; [set_solver|done|].
    unfold keep_best in Hlt. destruct (_ <? _)%nat eqn:E; bsimp; simpl in *; lia.
Qed.

Lemma best_of_elem {A} (l : list (nat * A)) c : best_of l = Some c -> c ∈ l /\ (0 < fst c)%nat.
Proof.
  unfold best_of. intros H.
  destruct (best_of_cons_acc l None) as [E|(c' & ? & E & ?)]; rewrite E in H; [done|].
  simplify_eq. by split.
Qed.

Lemma best_of_acc_ge {A} (l : list (nat * A)) b c :
  c ∈ l -> (0 < fst c)%nat ->
  exists d, foldl keep_best b l = Some d /\ (fst c <= fst d)%nat.
Proof.
  revert b. induction l as [|x l IH]; intros b; simpl; [set_solver|].
  intros [->|Hin]%elem_of_cons Hc; [|by apply IH].
  destruct (best_of_cons_acc l (keep_best b x)) as [->|(c' & ? & -> & Hlt)];
    unfold keep_best in *; destruct (_ <? _)%nat eqn:E; bsimp; simpl in *.
  - by exists x.
  - destruct b as [d|]; simpl in *; [by exists d|lia].
  - exists c'. split; [done|lia].
  - exists c'. split; [done|]. destruct b; simpl in *; lia.
Qed.

Lemma best_of_None {A} (l : list (nat * A)) :
  best_of l = None <-> forall c, c ∈ l -> fst c = 0%nat.
Proof.
  split.
  - intros H c Hc. destruct (decide (0 < fst c)%nat) as [Hpos|]; [|lia].
    destruct (best_of_acc_ge l None c Hc Hpos) as (d & Hd & _). unfold best_of in H. congruence.
  - intros H. destruct (best_of l) as [c|] eqn:E; [|done].
    apply best_of_elem in E as [Hc Hpos]. rewrite (H c Hc) in Hpos. lia.
Qed.

(** When the positive scores identify the candidates, the winner does not
    depend on the order in which they are visited. *)
Lemma best_of_perm {A} (l1 l2 : list (nat * A)) :
  l1 ≡ₚ l2 ->
  (forall c d, c ∈ l1 -> d ∈ l1 -> (0 < fst c)%nat -> fst c = fst d -> c = d) ->
  best_of l1 = best_of l2.
Proof.
  intros HP Huniq. destruct (best_of l1) as [c|] eqn:E1.
  - apply best_of_elem in E1 as Hc; destruct Hc as [Hc Hpos].
    assert (Hc2 : c ∈ l2) by (by rewrite <- HP).
    destruct (best_of_acc_ge l2 None c Hc2 Hpos) as (d & Hd & Hle).
    change (best_of l2 = Some d) in Hd. apply best_of_elem in Hd as Hd'; destruct Hd' as [Hd2 Hdpos].
    assert (Hd1 : d ∈ l1) by (by rewrite HP).
    destruct (best_of_acc_ge l1 None d Hd1 Hdpos) as (c' & Hc' & Hle').
    change (best_of l1 = Some c') in Hc'. rewrite E1 in Hc'. simplify_eq.
    rewrite Hd. f_equal. apply Huniq; try done. lia.
  - symmetry. apply best_of_None. intros c Hc. rewrite best_of_None in E1. apply E1. by rewrite HP.
Qed.

(** *** [partition_point] *)

(** The reference: how many leading elements satisfy the predicate. *)
Fixpoint count_while {A} (p : A -> bool) (l : list A) : nat :=
  match l with
  | [] => 0%nat
  | x :: l' => if p x then S (count_while p l') else 0%nat
  end.

(** A slice is partitioned when no element satisfying [p] follows one that does not. *)
Definition partitioned {A} (p : A -> bool) (l : list A) : Prop :=
  forall i j x y, (i <= j)%nat -> l !! i = Some x -> l !! j = Some y -> p y = true -> p x = true.

Lemma count_while_le {A} (p : A -> bool) l : (count_while p l <= length l)%nat.
Proof. induction l; simpl; [lia|]. destruct (p _); lia. Qed.

Lemma count_while_before {A} (p : A -> bool) l i x :
  (i < count_while p l)%nat -> l !! i = Some x -> p x = true.
Proof.
  revert i. induction l as [|y l IH]; intros [|i]; simpl; try done;
    destruct (p y) eqn:E; try lia; intros Hi Hx; simplify_eq; eauto with lia.
  by apply (IH i); [lia|].
Qed.

Lemma count_while_at {A} (p : A -> bool) l x :
  l !! count_while p l = Some x -> p x = false.
Proof.
  induction l as [|y l IH]; simpl; [done|].
  destruct (p y) eqn:E; simpl; [done|]. by intros [= <-].
Qed.

Lemma partition_point_go_spec {A} (p : A -> bool) l fuel left size :
  partitioned p l -> (size < fuel)%nat -> (left + size <= length l)%nat ->
  (left <= count_while p l <= left + size)%nat ->
  partition_point_go p l fuel left size = count_while p l.
Proof.
  intros Hp. revert left size. induction fuel as [|fuel IH]; intros left size Hf Hlen Hin; [lia|].
  cbn [partition_point_go]. destruct (size =? 0)%nat eqn:E; bsimp; [lia|]. cbv zeta.
  assert (Hhalf : (size / 2 < size)%nat) by (apply Nat.div_lt; lia).
  destruct (lookup_lt_is_Some_2 l (left + size / 2)) as [x Hx]; [lia|]. rewrite Hx.
  destruct (p x) eqn:Epx.
  - apply IH; try lia. split; [|lia].
    destruct (decide (left + size / 2 + 1 <= count_while p l)%nat) as [|Hn]; [lia|exfalso].
    destruct (lookup_lt_is_Some_2 l (count_while p l)) as [y Hy]; [lia|].
    pose proof (count_while_at p l y Hy) as Hf'.
    assert (p y = true) by (eapply (Hp _ _ y x); [|exact Hy|exact Hx|done]; lia). congruence.
  - apply IH; try lia. split; [lia|].
    destruct (decide (count_while p l <= left + size / 2)%nat) as [|Hn]; [lia|exfalso].
    rewrite (count_while_before p l (left + size / 2) x) in Epx; [done|lia|done].
Qed.

Lemma partition_point_spec {A} (p : A -> bool) l :
  partitioned p l -> partition_point p l = count_while p l.
Proof.
  intros Hp. apply partition_point_go_spec; [done|lia|lia|].
  pose proof (count_while_le p l). lia.
Qed.
