(* ===== verification/RustStr.v ===== *)
(** * The string operations of the Rust standard library the proxy uses

    Strings are UTF-8 byte lists.  Every pattern the code searches for is ASCII
    (or a literal), so byte-wise search agrees with the character-wise search of
    [str]; [trim] strips the Unicode [White_Space] characters, written out as
    their UTF-8 encodings. *)

From S2P Require Import Prelude.
From Stdlib Require Import DecimalN.

(** ** ASCII case *)

Definition lower_byte (b : byte) : byte :=
  if (65 <=? b2n b) && (b2n b <=? 90) then n2b (b2n b + 32) else b.
Definition upper_byte (b : byte) : byte :=
  if (97 <=? b2n b) && (b2n b <=? 122) then n2b (b2n b - 32) else b.

Definition to_ascii_lowercase (s : str) : str := lower_byte <$> s.
Definition to_ascii_uppercase (s : str) : str := upper_byte <$> s.

Definition eq_ignore_ascii_case (s t : str) : bool :=
  bool_decide (to_ascii_lowercase s = to_ascii_lowercase t).

Definition str_eqb (s t : str) : bool := bool_decide (s = t).
Notation "s =s t" := (str_eqb s t) (at level 70) : pertisk_scope.

Definition is_ascii_digit (b : byte) : bool := (48 <=? b2n b) && (b2n b <=? 57).

(** ** Prefixes, suffixes, search *)

Fixpoint strip_prefix (p s : str) : option str :=
  match p, s with
  | [], _ => Some s
  | _, [] => None
  | a :: p', b :: s' => if decide (a = b) then strip_prefix p' s' else None
  end.

Definition starts_with (p s : str) : bool := is_some (strip_prefix p s).

Definition strip_suffix (p s : str) : option str :=
  reverse <$> strip_prefix (reverse p) (reverse s).

Definition ends_with (p s : str) : bool := is_some (strip_suffix p s).

Fixpoint contains (needle s : str) : bool :=
  starts_with needle s ||
  match s with [] => false | _ :: s' => contains needle s' end.

Definition contains_byte (c : byte) (s : str) : bool := bool_decide (c ∈ s).

(** ** Splitting *)

Fixpoint split (p : byte -> bool) (s : str) : list str :=
  match s with
  | [] => [[]]
  | c :: s' =>
    if p c then [] :: split p s'
    else match split p s' with
         | w :: ws => (c :: w) :: ws
         | [] => [[c]]
         end
  end.

Definition is_byte (c b : byte) : bool := bool_decide (b = c).
Definition split_on (c : byte) : str -> list str := split (is_byte c).

(** [s.split(c).next().unwrap_or(s)]. *)
Definition split_first (c : byte) (s : str) : str := default s (head (split_on c s)).

Fixpoint split_once (c : byte) (s : str) : option (str * str) :=
  match s with
  | [] => None
  | x :: s' =>
    if decide (x = c) then Some ([], s')
    else match split_once c s' with
         | Some (a, b) => Some (x :: a, b)
         | None => None
         end
  end.

Fixpoint rsplit_once (c : byte) (s : str) : option (str * str) :=
  match s with
  | [] => None
  | x :: s' =>
    match rsplit_once c s' with
    | Some (a, b) => Some (x :: a, b)
    | None => if decide (x = c) then Some ([], s') else None
    end
  end.

(** [s.split(pat)] for a non-empty literal pattern: what precedes the first
    occurrence and, when there is one, what follows it. *)
Fixpoint split_str_once (pat s : str) : str * option str :=
  match strip_prefix pat s with
  | Some r => ([], Some r)
  | None =>
    match s with
    | [] => ([], None)
    | c :: s' => let '(a, r) := split_str_once pat s' in (c :: a, r)
    end
  end.

(** [s.split(pat).nth(1)]. *)
Definition split_str_nth1 (pat s : str) : option str :=
  match split_str_once pat s with
  | (_, None) => None
  | (_, Some r) => Some (fst (split_str_once pat r))
  end.

Fixpoint join (sep : str) (ws : list str) : str :=
  match ws with
  | [] => []
  | [w] => w
  | w :: ws' => w ++ sep ++ join sep ws'
  end.

(** [s.replace(c, r)] for a character pattern. *)
Definition replace_byte (c : byte) (r : str) (s : str) : str :=
  mjoin ((fun b => if decide (b = c) then r else [b]) <$> s).

(** ** Trimming *)

Definition ws1 (b : byte) : bool :=
  ((9 <=? b2n b) && (b2n b <=? 13)) || (b2n b =? 32).
(** U+0085, U+00A0. *)
Definition ws2 (a b : byte) : bool :=
  (b2n a =? 0xC2) && ((b2n b =? 0x85) || (b2n b =? 0xA0)).
(** U+1680, U+2000..200A, U+2028, U+2029, U+202F, U+205F, U+3000. *)
Definition ws3 (a b c : byte) : bool :=
  ((b2n a =? 0xE1) && (b2n b =? 0x9A) && (b2n c =? 0x80)) ||
  ((b2n a =? 0xE2) && (b2n b =? 0x80) &&
    (((0x80 <=? b2n c) && (b2n c <=? 0x8A)) || (b2n c =? 0xA8) || (b2n c =? 0xA9) || (b2n c =? 0xAF))) ||
  ((b2n a =? 0xE2) && (b2n b =? 0x81) && (b2n c =? 0x9F)) ||
  ((b2n a =? 0xE3) && (b2n b =? 0x80) && (b2n c =? 0x80)).

Fixpoint trim_with (w1 : byte -> bool) (w2 : byte -> byte -> bool)
    (w3 : byte -> byte -> byte -> bool) (s : str) : str :=
  match s with
  | [] => []
  | a :: s1 =>
    if w1 a then trim_with w1 w2 w3 s1 else
    match s1 with
    | [] => s
    | b :: s2 =>
      if w2 a b then trim_with w1 w2 w3 s2 else
      match s2 with
      | [] => s
      | c :: s3 => if w3 a b c then trim_with w1 w2 w3 s3 else s
      end
    end
  end.

Definition trim_start (s : str) : str := trim_with ws1 ws2 ws3 s.
Definition trim_end (s : str) : str :=
  reverse (trim_with ws1 (fun a b => ws2 b a) (fun a b c => ws3 c b a) (reverse s)).
Definition trim (s : str) : str := trim_end (trim_start s).

(** [trim_start_matches] / [trim_end_matches] / [trim_matches] for a set of ASCII characters. *)
Fixpoint trim_start_matches (p : byte -> bool) (s : str) : str :=
  match s with
  | [] => []
  | c :: s' => if p c then trim_start_matches p s' else s
  end.
Definition trim_end_matches (p : byte -> bool) (s : str) : str :=
  reverse (trim_start_matches p (reverse s)).
Definition trim_matches (p : byte -> bool) (s : str) : str :=
  trim_end_matches p (trim_start_matches p s).

(** ** Integers: [str::parse::<uN>] and [Display] *)

Fixpoint parse_digits (acc : N) (s : str) : option N :=
  match s with
  | [] => Some acc
  | c :: s' => if is_ascii_digit c then parse_digits (10 * acc + (b2n c - 48)) s' else None
  end.

(** One optional [+], at least one digit, no overflow of the type's maximum. *)
Definition parse_uint (max : N) (s : str) : option N :=
  let digits := match s with
                | c :: s' => if bool_decide (c = x2b) then s' else s
                | [] => []
                end in
  match digits with
  | [] => None
  | _ => opt_filter (fun n => n <=? max) (parse_digits 0 digits)
  end.

Definition parse_u16 : str -> option N := parse_uint u16_max.
Definition parse_u32 : str -> option N := parse_uint u32_max.
Definition parse_u64 : str -> option N := parse_uint u64_max.

Fixpoint uint_str (d : Decimal.uint) : str :=
  match d with
  | Decimal.Nil => []
  | Decimal.D0 d => x30 :: uint_str d
  | Decimal.D1 d => x31 :: uint_str d
  | Decimal.D2 d => x32 :: uint_str d
  | Decimal.D3 d => x33 :: uint_str d
  | Decimal.D4 d => x34 :: uint_str d
  | Decimal.D5 d => x35 :: uint_str d
  | Decimal.D6 d => x36 :: uint_str d
  | Decimal.D7 d => x37 :: uint_str d
  | Decimal.D8 d => x38 :: uint_str d
  | Decimal.D9 d => x39 :: uint_str d
  end.

(** [n.to_string()]. *)
Definition show_N (n : N) : str := uint_str (N.to_uint n).

(** ** UTF-8: [String::from_utf8] and [String::from_utf8_lossy] *)

Definition in_range (lo hi : N) (b : byte) : bool := (lo <=? b2n b) && (b2n b <=? hi).
Definition is_cont : byte -> bool := in_range 0x80 0xBF.

(** The first chunk of a byte string: whether it is a well-formed character and
    how many bytes it has (a maximal ill-formed prefix otherwise). *)
Definition utf8_chunk (s : str) : bool * nat :=
  let second lo hi rest k :=
    match rest with
    | b1 :: rest' => if in_range lo hi b1 then k rest' else (false, 1%nat)
    | [] => (false, 1%nat)
    end in
  let third bad rest k :=
    match rest with
    | b :: rest' => if is_cont b then k rest' else (false, bad)
    | [] => (false, bad)
    end in
  match s with
  | [] => (true, 0%nat)
  | b0 :: r =>
    let n := b2n b0 in
    if n <? 0x80 then (true, 1%nat)
    else if (0xC2 <=? n) && (n <=? 0xDF) then second 0x80 0xBF r (fun _ => (true, 2%nat))
    else if (0xE0 <=? n) && (n <=? 0xEF) then
      second (if n =? 0xE0 then 0xA0 else 0x80) (if n =? 0xED then 0x9F else 0xBF) r
        (fun r => third 2%nat r (fun _ => (true, 3%nat)))
    else if (0xF0 <=? n) && (n <=? 0xF4) then
      second (if n =? 0xF0 then 0x90 else 0x80) (if n =? 0xF4 then 0x8F else 0xBF) r
        (fun r => third 2%nat r (fun r => third 3%nat r (fun _ => (true, 4%nat))))
    else (false, 1%nat)
  end.

Fixpoint utf8_valid_go (fuel : nat) (s : str) : bool :=
  match fuel, s with
  | _, [] => true
  | O, _ => false
  | S fuel', _ => let '(ok, n) := utf8_chunk s in ok && utf8_valid_go fuel' (drop n s)
  end.
Definition utf8_valid (s : str) : bool := utf8_valid_go (length s) s.

Definition from_utf8 (s : str) : option str := if utf8_valid s then Some s else None.

(** U+FFFD. *)
Definition replacement : str := [xef; xbf; xbd].

Fixpoint utf8_lossy_go (fuel : nat) (s : str) : str :=
  match fuel, s with
  | _, [] => []
  | O, _ => []
  | S fuel', _ =>
    let '(ok, n) := utf8_chunk s in
    (if ok then take n s else replacement) ++ utf8_lossy_go fuel' (drop n s)
  end.
Definition from_utf8_lossy (s : str) : str := utf8_lossy_go (length s) s.

(** ** Lemmas *)

Lemma str_eqb_eq s t : (s =s t) = true <-> s = t.
Proof. unfold str_eqb. apply bool_decide_eq_true. Qed.

Lemma str_eqb_neq s t : (s =s t) = false <-> s <> t.
Proof. unfold str_eqb. apply bool_decide_eq_false. Qed.

Lemma str_eqb_refl s : (s =s s) = true.
Proof. by apply str_eqb_eq. Qed.

Lemma lower_byte_idemp b : lower_byte (lower_byte b) = lower_byte b.
Proof. destruct b; reflexivity. Qed.

Lemma upper_byte_idemp b : upper_byte (upper_byte b) = upper_byte b.
Proof. destruct b; reflexivity. Qed.

Lemma to_ascii_lowercase_idemp s : to_ascii_lowercase (to_ascii_lowercase s) = to_ascii_lowercase s.
Proof.
  unfold to_ascii_lowercase. rewrite <- list_fmap_compose. apply list_fmap_ext.
  intros i x _. apply lower_byte_idemp.
Qed.

Lemma to_ascii_uppercase_idemp s : to_ascii_uppercase (to_ascii_uppercase s) = to_ascii_uppercase s.
Proof.
  unfold to_ascii_uppercase. rewrite <- list_fmap_compose. apply list_fmap_ext.
  intros i x _. apply upper_byte_idemp.
Qed.

Lemma to_ascii_lowercase_app s t :
  to_ascii_lowercase (s ++ t) = to_ascii_lowercase s ++ to_ascii_lowercase t.
Proof. apply fmap_app. Qed.

Lemma length_lowercase s : length (to_ascii_lowercase s) = length s.
Proof. apply length_fmap. Qed.

Lemma eq_ignore_ascii_case_refl s : eq_ignore_ascii_case s s = true.
Proof. by apply bool_decide_eq_true. Qed.

(** A byte that lowercasing never produces nor consumes. *)
Lemma elem_of_lowercase c s :
  lower_byte c = c -> (forall b, lower_byte b = c -> b = c) ->
  c ∈ to_ascii_lowercase s <-> c ∈ s.
Proof.
  intros H1 H2. unfold to_ascii_lowercase. rewrite list_elem_of_fmap. split.
  - intros (b & Hc & Hb). by rewrite <- (H2 b).
  - intros Hc. by exists c.
Qed.

(** *** Prefixes and suffixes *)

Lemma strip_prefix_Some p s r : strip_prefix p s = Some r <-> s = p ++ r.
Proof.
  revert s. induction p as [|a p IH]; intros s; simpl.
  - split; [by intros [= <-]|by intros ->].
  - destruct s as [|b s]; [done|]. case_decide as E.
    + subst. rewrite IH. split; congruence.
    + split; [done|]. congruence.
Qed.

Lemma strip_prefix_None p s : strip_prefix p s = None <-> forall r, s <> p ++ r.
Proof.
  split.
  - intros H r Hr. apply strip_prefix_Some in Hr. congruence.
  - intros H. destruct (strip_prefix p s) as [r|] eqn:E; [|done].
    apply strip_prefix_Some in E. by apply H in E.
Qed.

Lemma strip_prefix_app p r : strip_prefix p (p ++ r) = Some r.
Proof. by apply strip_prefix_Some. Qed.

Lemma starts_with_true p s : starts_with p s = true <-> exists r, s = p ++ r.
Proof.
  unfold starts_with. rewrite is_some_true. unfold is_Some.
  by setoid_rewrite strip_prefix_Some.
Qed.

Lemma starts_with_app p r : starts_with p (p ++ r) = true.
Proof. apply starts_with_true. by exists r. Qed.

Lemma strip_suffix_Some p s r : strip_suffix p s = Some r <-> s = r ++ p.
Proof.
  unfold strip_suffix. rewrite fmap_Some. setoid_rewrite strip_prefix_Some. split.
  - intros (x & Hs & ->). apply (f_equal reverse) in Hs.
    by rewrite reverse_app, !reverse_involutive in Hs.
  - intros ->. exists (reverse r). by rewrite reverse_app, reverse_involutive.
Qed.

Lemma ends_with_true p s : ends_with p s = true <-> exists r, s = r ++ p.
Proof.
  unfold ends_with. rewrite is_some_true. unfold is_Some.
  by setoid_rewrite strip_suffix_Some.
Qed.

Lemma contains_true needle s : contains needle s = true <-> exists a b, s = a ++ needle ++ b.
Proof.
  induction s as [|c s IH]; simpl; rewrite orb_true_iff, starts_with_true.
  - split.
    + intros [[r Hr]|]; [|done]. exists [], r. done.
    + intros ([|x a] & b & H); [|done]. left. by exists b.
  - rewrite IH. split.
    + intros [[r ->]|(a & b & ->)]; [by exists [], r|by exists (c :: a), b].
    + intros ([|x a] & b & H); [left; by exists b|right]. simplify_eq/=. by exists a, b.
Qed.

Lemma contains_byte_true c s : contains_byte c s = true <-> c ∈ s.
Proof. apply bool_decide_eq_true. Qed.

Lemma contains_byte_false c s : contains_byte c s = false <-> c ∉ s.
Proof. apply bool_decide_eq_false. Qed.

(** *** Splitting *)

Lemma split_nonempty p s : exists w ws, split p s = w :: ws.
Proof.
  destruct s as [|c s]; simpl; [by eexists _, _|]. destruct (p c); [by eexists _, _|].
  destruct (split p s); by eexists _, _.
Qed.

Lemma split_no_sep p s : Forall (fun b => p b = false) s -> split p s = [s].
Proof. induction 1 as [|c s Hc HF IH]; simpl; [done|]. by rewrite Hc, IH. Qed.

Lemma split_app_sep p w c s :
  Forall (fun b => p b = false) w -> p c = true ->
  split p (w ++ c :: s) = w :: split p s.
Proof.
  intros Hw Hc. induction Hw as [|b w Hb Hw IH]; simpl; [by rewrite Hc|]. by rewrite Hb, IH.
Qed.

Lemma split_words p s : Forall (Forall (fun b => p b = false)) (split p s).
Proof.
  induction s as [|c s IH]; simpl; [by repeat constructor|].
  destruct (p c) eqn:E; [by constructor|].
  destruct (split p s) as [|w ws]; [by repeat constructor|].
  apply Forall_cons in IH as [? ?]. by repeat constructor.
Qed.

Lemma join_cons sep w w' ws : join sep (w :: w' :: ws) = w ++ sep ++ join sep (w' :: ws).
Proof. done. Qed.

(** Splitting a join gives the words back when no word holds a separator. *)
Lemma split_join p c ws :
  p c = true -> ws <> [] -> Forall (Forall (fun b => p b = false)) ws ->
  split p (join [c] ws) = ws.
Proof.
  intros Hc Hne HF. induction HF as [|w ws Hw HF IH]; [done|].
  destruct ws as [|w' ws]; [by apply split_no_sep|].
  rewrite join_cons. cbn [app]. rewrite split_app_sep by done. by rewrite IH.
Qed.

Lemma is_byte_true c b : is_byte c b = true <-> b = c.
Proof. apply bool_decide_eq_true. Qed.

Lemma is_byte_self c : is_byte c c = true.
Proof. by apply is_byte_true. Qed.

Lemma not_elem_is_byte c s : c ∉ s <-> Forall (fun b => is_byte c b = false) s.
Proof.
  rewrite Forall_forall. unfold is_byte. split.
  - intros H x Hx. apply bool_decide_eq_false. by intros ->.
  - intros H Hc. apply H in Hc. by rewrite bool_decide_eq_true_2 in Hc.
Qed.

Lemma split_first_no c s : c ∉ s -> split_first c s = s.
Proof.
  intros H%not_elem_is_byte. unfold split_first, split_on. by rewrite split_no_sep.
Qed.

Lemma split_first_app c w s : c ∉ w -> split_first c (w ++ c :: s) = w.
Proof.
  intros H%not_elem_is_byte. unfold split_first, split_on.
  rewrite split_app_sep by (done || apply is_byte_self). done.
Qed.

Lemma split_first_cons c x s :
  split_first c (x :: s) = if decide (x = c) then [] else x :: split_first c s.
Proof.
  unfold split_first, split_on. simpl. unfold is_byte at 1.
  case_decide; [by rewrite bool_decide_true|]. rewrite bool_decide_false by done.
  destruct (split_nonempty (is_byte c) s) as (w & ws & E). by rewrite E.
Qed.

Lemma split_first_no_sep c s : c ∉ split_first c s.
Proof.
  induction s as [|x s IH]; [by apply not_elem_of_nil|]. rewrite split_first_cons.
  case_decide; [by apply not_elem_of_nil|]. apply not_elem_of_cons. by split.
Qed.

Lemma split_first_idemp c s : split_first c (split_first c s) = split_first c s.
Proof. apply split_first_no, split_first_no_sep. Qed.

Lemma split_once_Some c s a b :
  split_once c s = Some (a, b) <-> s = a ++ c :: b /\ c ∉ a.
Proof.
  revert a b. induction s as [|x s IH]; intros a b; simpl.
  - split; [done|]. intros [H _]. by destruct a.
  - case_decide as E.
    + subst. split.
      * intros [= <- <-]. split; [done|by apply not_elem_of_nil].
      * intros [H Hc]. destruct a as [|y a]; simplify_eq/=; [done|].
        by apply not_elem_of_cons in Hc as [? _].
    + destruct (split_once c s) as [[a' b']|] eqn:Es.
      * split.
        -- intros [= <- <-]. destruct (proj1 (IH a' b') eq_refl) as [-> Hc].
           split; [done|]. apply not_elem_of_cons. by split.
        -- intros [H Hc]. destruct a as [|y a]; simplify_eq/=.
           apply not_elem_of_cons in Hc as [_ Hc].
           assert (Some (a', b') = Some (a, b)) as [= -> ->]; [|done]. by apply IH.
      * split; [done|]. intros [H Hc]. destruct a as [|y a]; simplify_eq/=.
        apply not_elem_of_cons in Hc as [_ Hc].
        assert (None = Some (a, b)); [|done]. by apply IH.
Qed.

Lemma split_once_None c s : split_once c s = None <-> c ∉ s.
Proof.
  split.
  - intros H Hc. apply list_elem_of_split_l in Hc as (a & b & -> & Ha).
    assert (split_once c (a ++ c :: b) = Some (a, b)) by (by apply split_once_Some). congruence.
  - intros H. destruct (split_once c s) as [[a b]|] eqn:E; [|done].
    apply split_once_Some in E as [-> _]. exfalso. apply H. set_solver.
Qed.

Lemma rsplit_once_None c s : rsplit_once c s = None <-> c ∉ s.
Proof.
  induction s as [|x s IH]; simpl; [split; [intros _; by apply not_elem_of_nil|done]|].
  rewrite not_elem_of_cons, <- IH.
  destruct (rsplit_once c s) as [[a b]|]; [split; [done|by intros [_ ?]]|].
  case_decide; split; [done| |done|done]. by intros [? _].
Qed.

Lemma rsplit_once_Some c s a b :
  rsplit_once c s = Some (a, b) <-> s = a ++ c :: b /\ c ∉ b.
Proof.
  revert a b. induction s as [|x s IH]; intros a b; simpl.
  - split; [done|]. intros [H _]. by destruct a.
  - destruct (rsplit_once c s) as [[a' b']|] eqn:Es.
    + destruct (proj1 (IH a' b') eq_refl) as [Hs Hc]. split.
      * intros [= <- <-]. by rewrite Hs.
      * intros [H Hcb]. destruct a as [|y a]; simplify_eq/=.
        -- exfalso. apply Hcb. apply elem_of_app. right. left.
        -- assert (Some (a', b') = Some (a, b)) as [= -> ->]; [|done]. by apply IH.
    + apply rsplit_once_None in Es. case_decide as E.
      * subst. split; [by intros [= <- <-]|]. intros [H Hcb].
        destruct a as [|y a]; simplify_eq/=; [done|]. exfalso. apply Es. apply elem_of_app. right. left.
      * split; [done|]. intros [H Hcb]. destruct a as [|y a]; simplify_eq/=.
        exfalso. apply Es. apply elem_of_app. right. left.
Qed.

Lemma rsplit_once_app c a b : c ∉ b -> rsplit_once c (a ++ c :: b) = Some (a, b).
Proof. intros. by apply rsplit_once_Some. Qed.

(** *** Trimming *)

Section trim_with_lemmas.
Context (w1 : byte -> bool) (w2 : byte -> byte -> bool) (w3 : byte -> byte -> byte -> bool).
Local Abbreviation trimw := (trim_with w1 w2 w3).

(** Either nothing is trimmed, or one to three leading bytes are and the rest is trimmed. *)
Lemma trim_with_unfold s :
  trimw s = s \/
  (exists p t, s = p ++ t /\ (length t < length s)%nat /\ trimw s = trimw t /\
     forall t', trimw (p ++ t') = trimw t').
Proof.
  destruct s as [|a s]; [by left|]. cbn [trim_with]. destruct (w1 a) eqn:E1.
  { right. exists [a], s. split_and!; [done|simpl; lia|done|]. intros t'. simpl. by rewrite E1. }
  destruct s as [|b s]; [by left|]. destruct (w2 a b) eqn:E2.
  { right. exists [a; b], s. split_and!; [done|simpl; lia|done|]. intros t'. simpl. by rewrite E1, E2. }
  destruct s as [|c s]; [by left|]. destruct (w3 a b c) eqn:E3; [|by left].
  right. exists [a; b; c], s. split_and!; [done|simpl; lia|done|]. intros t'. simpl. by rewrite E1, E2, E3.
Qed.

Lemma trim_with_suffix s : exists p, s = p ++ trimw s.
Proof.
  induction s as [s IH] using list_length_ind.
  destruct (trim_with_unfold s) as [->|(p & t & Hs & Hlt & -> & _)]; [by exists []|].
  destruct (IH t Hlt) as [p' Ht]. exists (p ++ p'). by rewrite <- app_assoc, <- Ht.
Qed.

Lemma trim_with_idemp s : trimw (trimw s) = trimw s.
Proof.
  induction s as [s IH] using list_length_ind.
  destruct (trim_with_unfold s) as [E|(p & t & Hs & Hlt & -> & _)]; [by rewrite !E|by apply IH].
Qed.

(** A prefix of a string with nothing to trim has nothing to trim. *)
Lemma trim_with_prefix s t : trimw (s ++ t) = s ++ t -> trimw s = s.
Proof.
  intros H. destruct (trim_with_unfold s) as [E|(p & t' & -> & Hlt & E & Hp)]; [done|].
  rewrite <- app_assoc, Hp in H.
  destruct (trim_with_suffix (t' ++ t)) as [q Hq]. rewrite H in Hq.
  apply (f_equal length) in Hq. rewrite !length_app in Hq. rewrite !length_app in Hlt. lia.
Qed.

Lemma trim_with_fmap (f : byte -> byte) s :
  (forall a, w1 (f a) = w1 a) -> (forall a b, w2 (f a) (f b) = w2 a b) ->
  (forall a b c, w3 (f a) (f b) (f c) = w3 a b c) ->
  trimw (f <$> s) = f <$> trimw s.
Proof.
  intros H1 H2 H3. induction s as [s IH] using list_length_ind.
  destruct s as [|a s]; [done|]. rewrite fmap_cons. cbn [trim_with]. rewrite H1.
  destruct (w1 a); [apply IH; simpl; lia|]. destruct s as [|b s]; [done|].
  rewrite fmap_cons, H2. destruct (w2 a b); [apply IH; simpl; lia|].
  destruct s as [|c s]; [done|]. rewrite fmap_cons, H3. destruct (w3 a b c); [|done].
  apply IH. simpl. lia.
Qed.

End trim_with_lemmas.

Lemma trim_start_prefix s : trim_start (trim s) = trim s.
Proof.
  unfold trim, trim_end. set (t := trim_start s).
  destruct (trim_with_suffix ws1 (fun a b => ws2 b a) (fun a b c => ws3 c b a) (reverse t)) as [p Hp].
  apply (f_equal reverse) in Hp. rewrite reverse_involutive, reverse_app in Hp.
  apply (trim_with_prefix ws1 ws2 ws3 _ (reverse p)). rewrite <- Hp. apply trim_with_idemp.
Qed.

Lemma trim_idemp s : trim (trim s) = trim s.
Proof.
  unfold trim at 1. rewrite trim_start_prefix. unfold trim, trim_end.
  by rewrite reverse_involutive, trim_with_idemp.
Qed.

Lemma trim_fmap (f : byte -> byte) s :
  (forall a, ws1 (f a) = ws1 a) -> (forall a b, ws2 (f a) (f b) = ws2 a b) ->
  (forall a b c, ws3 (f a) (f b) (f c) = ws3 a b c) ->
  trim (f <$> s) = f <$> trim s.
Proof.
  intros H1 H2 H3. unfold trim, trim_end, trim_start.
  rewrite trim_with_fmap by done. rewrite <- fmap_reverse, trim_with_fmap by done.
  by rewrite fmap_reverse.
Qed.

(** ASCII letters are neither white space nor part of its encodings. *)
Lemma b2n_letter_eqb (f : byte -> byte) k :
  (forall b, f b = b \/ (65 <= b2n b <= 122 /\ 65 <= b2n (f b) <= 122)) ->
  (k < 65 \/ 122 < k) -> forall b, (b2n (f b) =? k) = (b2n b =? k).
Proof.
  intros Hf Hk b. destruct (Hf b) as [->|[H1 H2]]; [done|].
  rewrite !(proj2 (N.eqb_neq _ _)) by lia. done.
Qed.

Lemma upper_byte_range b :
  upper_byte b = b \/ (65 <= b2n b <= 122 /\ 65 <= b2n (upper_byte b) <= 122).
Proof.
  unfold upper_byte. case_if; [right|by left]. bsimp. rewrite b2n_n2b by lia. lia.
Qed.

Lemma lower_byte_range b :
  lower_byte b = b \/ (65 <= b2n b <= 122 /\ 65 <= b2n (lower_byte b) <= 122).
Proof.
  unfold lower_byte. case_if; [right|by left]. bsimp. rewrite b2n_n2b by lia. lia.
Qed.

Section case_trim.
Context (f : byte -> byte)
  (Hf : forall b, f b = b \/ (65 <= b2n b <= 122 /\ 65 <= b2n (f b) <= 122)).

Lemma case_ws1 b : ws1 (f b) = ws1 b.
Proof using Hf.
  unfold ws1. rewrite b2n_letter_eqb by (done || lia). f_equal.
  destruct (Hf b) as [->|[H1 H2]]; [done|].
  destruct (b2n (f b) <=? 13) eqn:E1; bsimp; [lia|].
  destruct (b2n b <=? 13) eqn:E2; bsimp; [lia|]. by rewrite !andb_false_r.
Qed.

Lemma case_ws2 a b : ws2 (f a) (f b) = ws2 a b.
Proof using Hf. unfold ws2. by rewrite !(b2n_letter_eqb f) by (done || lia). Qed.

Lemma case_ws3 a b c : ws3 (f a) (f b) (f c) = ws3 a b c.
Proof using Hf.
  unfold ws3. rewrite !(b2n_letter_eqb f) by (done || lia).
  destruct (Hf c) as [->|[H1 H2]]; [done|].
  rewrite !(proj2 (N.leb_gt 0x80 _)) by lia. done.
Qed.

Lemma case_trim s : trim (f <$> s) = f <$> trim s.
Proof using Hf. apply trim_fmap; [exact case_ws1|exact case_ws2|exact case_ws3]. Qed.

End case_trim.

Lemma trim_uppercase s : trim (to_ascii_uppercase s) = to_ascii_uppercase (trim s).
Proof. apply case_trim, upper_byte_range. Qed.

Lemma trim_lowercase s : trim (to_ascii_lowercase s) = to_ascii_lowercase (trim s).
Proof. apply case_trim, lower_byte_range. Qed.

(** Printable ASCII other than the space: never trimmed. *)
Definition graphic (b : byte) : bool := (33 <=? b2n b) && (b2n b <=? 126).

Lemma graphic_trim_with w2 w3 a s :
  graphic a = true -> (forall b, w2 a b = false) -> (forall b c, w3 a b c = false) ->
  trim_with ws1 w2 w3 (a :: s) = a :: s.
Proof.
  intros Ha H2 H3. simpl. assert (ws1 a = false) as ->.
  { unfold graphic in Ha. unfold ws1. bsimp. destruct (b2n a <=? 13) eqn:E; bsimp; [lia|].
    rewrite andb_false_r. simpl. apply N.eqb_neq. lia. }
  destruct s as [|b s]; [done|]. rewrite H2. destruct s as [|c s]; [done|]. by rewrite H3.
Qed.

Lemma graphic_not_lead a : graphic a = true ->
  (forall b, ws2 a b = false) /\ (forall b, ws2 b a = false) /\
  (forall b c, ws3 a b c = false) /\ (forall b c, ws3 b c a = false).
Proof.
  unfold graphic. intros H. bsimp.
  assert (Hk : forall k, 126 < k -> (b2n a =? k) = false) by (intros k Hk; apply N.eqb_neq; lia).
  split_and!; intros; unfold ws2, ws3; rewrite !Hk by lia; rewrite ?andb_false_r; try done.
  destruct (0x80 <=? b2n a) eqn:E; bsimp; [lia|]. simpl. by rewrite ?andb_false_r.
Qed.

(** A string that begins and ends with a graphic byte is not trimmed. *)
Lemma trim_graphic a b s t :
  graphic a = true -> graphic b = true -> a :: s = t ++ [b] -> trim (a :: s) = a :: s.
Proof.
  intros Ha Hb E. destruct (graphic_not_lead a Ha) as (? & _ & ? & _).
  destruct (graphic_not_lead b Hb) as (_ & ? & _ & ?).
  unfold trim, trim_end, trim_start. rewrite graphic_trim_with by done.
  rewrite E, reverse_app. change (reverse [b]) with [b]. cbn [app].
  rewrite graphic_trim_with by done. by rewrite reverse_cons, reverse_involutive.
Qed.

Lemma trim_all_graphic s : Forall (fun b => graphic b = true) s -> trim s = s.
Proof.
  intros H. destruct s as [|a s]; [done|]. apply Forall_cons in H as Ha; destruct Ha as [Ha _].
  destruct (exists_last (l := a :: s)) as (t & b & E); [done|].
  rewrite E in H. apply Forall_app in H as [_ Hb]. apply Forall_cons in Hb as [Hb _].
  by apply (trim_graphic a b s t).
Qed.

(** *** Integers *)

(** What parses as a number is digits only. *)
Lemma parse_digits_all acc s n : parse_digits acc s = Some n -> Forall (fun b => is_ascii_digit b = true) s.
Proof.
  revert acc. induction s as [|b s IH]; intros acc; [by constructor|]. cbn.
  destruct (is_ascii_digit b) eqn:E; [|done]. intros H. constructor; [done|]. by eapply IH.
Qed.

Lemma parse_digits_uint d p :
  parse_digits (Npos p) (uint_str d) = Some (Npos (Pos.of_uint_acc d p)).
Proof.
  revert p. induction d; intros p; cbn [uint_str parse_digits Pos.of_uint_acc]; [done|..];
    (rewrite <- IHd; f_equal; simpl; lia).
Qed.

Lemma parse_digits_uint0 d : parse_digits 0 (uint_str d) = Some (N.of_uint d).
Proof.
  induction d; cbn [uint_str parse_digits]; [done|exact IHd|..]; apply parse_digits_uint.
Qed.

Lemma parse_digits_show n : parse_digits 0 (show_N n) = Some n.
Proof. unfold show_N. by rewrite parse_digits_uint0, DecimalN.Unsigned.of_to. Qed.

Lemma uint_str_digits d : Forall (fun b => is_ascii_digit b = true) (uint_str d).
Proof. induction d; constructor; done. Qed.

Lemma show_N_digits n : Forall (fun b => is_ascii_digit b = true) (show_N n).
Proof. apply uint_str_digits. Qed.

Lemma show_N_nonempty n : show_N n <> [].
Proof.
  intros H. pose proof (parse_digits_show n) as Hp. rewrite H in Hp. simplify_eq/=.
Qed.

Lemma digit_graphic b : is_ascii_digit b = true -> graphic b = true.
Proof. unfold is_ascii_digit, graphic. intros H. bsimp. split; apply N.leb_le; lia. Qed.

Lemma digits_not_elem c s :
  is_ascii_digit c = false -> Forall (fun b => is_ascii_digit b = true) s -> c ∉ s.
Proof. intros Hc HF Hin. rewrite Forall_forall in HF. apply HF in Hin. congruence. Qed.

Lemma show_N_no c n : is_ascii_digit c = false -> c ∉ show_N n.
Proof. intros. eapply digits_not_elem; [done|apply show_N_digits]. Qed.

Lemma trim_show_N n : trim (show_N n) = show_N n.
Proof.
  apply trim_all_graphic. eapply Forall_impl; [apply show_N_digits|]. intros b. apply digit_graphic.
Qed.

(** [n.to_string().parse() == Ok(n)] for every value of the type. *)
Lemma parse_show_N max n : n <= max -> parse_uint max (show_N n) = Some n.
Proof.
  intros Hn. unfold parse_uint. pose proof (show_N_nonempty n) as Hne.
  pose proof (show_N_digits n) as Hd. pose proof (parse_digits_show n) as Hp.
  destruct (show_N n) as [|c s]; [done|]. apply Forall_cons in Hd as [Hc _].
  rewrite bool_decide_false by (intros ->; done). rewrite Hp. simpl.
  by rewrite (proj2 (N.leb_le _ _)).
Qed.

Lemma parse_uint_bound max s n : parse_uint max s = Some n -> n <= max.
Proof.
  unfold parse_uint. destruct (match s with [] => _ | _ => _ end); [done|].
  intros [_ H]%opt_filter_Some. by apply N.leb_le.
Qed.

(** *** Signed integers *)

Definition show_Z (z : Z) : str := if (z <? 0)%Z then bs "-" ++ show_N (Z.to_N (- z)) else show_N (Z.to_N z).

(** [str::parse::<i64>]. *)
Definition parse_i64 (s : str) : option Z :=
  match s with
  | c :: rest =>
    if bool_decide (c = "-"%byte) then
      match rest with
      | [] => None
      | _ => (fun n => (- Z.of_N n)%Z) <$> opt_filter (fun n => n <=? 2 ^ 63) (parse_digits 0 rest)
      end
    else Z.of_N <$> parse_uint (2 ^ 63 - 1) s
  | [] => None
  end.

(** [u64 as i64], and the wrap-around of [i64] arithmetic. *)
Definition as_i64 (z : Z) : Z := ((z + 2 ^ 63) mod 2 ^ 64 - 2 ^ 63)%Z.

Lemma parse_show_Z z : (- 2 ^ 63 <= z < 2 ^ 63)%Z -> parse_i64 (show_Z z) = Some z.
Proof.
  intros Hz. unfold show_Z. destruct (z <? 0)%Z eqn:E.
  - apply Z.ltb_lt in E. cbn [app bs]. unfold parse_i64. change (bs "-" ++ ?x) with ("-"%byte :: x). cbn iota.
    rewrite bool_decide_true by done. pose proof (show_N_nonempty (Z.to_N (- z))) as Hne.
    destruct (show_N (Z.to_N (- z))) as [|c r] eqn:Es; [done|]. rewrite <- Es, parse_digits_show. cbn [opt_filter].
    rewrite (proj2 (N.leb_le _ _)) by lia. cbn. f_equal. lia.
  - apply Z.ltb_ge in E. pose proof (parse_show_N (2 ^ 63 - 1) (Z.to_N z) ltac:(lia)) as Hp.
    pose proof (show_N_no "-" (Z.to_N z) eq_refl) as Hn. unfold parse_i64.
    destruct (show_N (Z.to_N z)) as [|c r]; [done|].
    rewrite bool_decide_false by (intros ->; apply Hn; by left). rewrite Hp. cbn. f_equal. lia.
Qed.

Lemma show_Z_no c z : is_ascii_digit c = false -> c <> "-"%byte -> c ∉ show_Z z.
Proof.
  intros Hc Hm. unfold show_Z. destruct (z <? 0)%Z; [|by apply show_N_no].
  rewrite not_elem_of_app. split; [|by apply show_N_no]. by intros ->%list_elem_of_singleton.
Qed.

Lemma as_i64_small z : (- 2 ^ 63 <= z < 2 ^ 63)%Z -> as_i64 z = z.
Proof. intros Hz. unfold as_i64. rewrite Z.mod_small; lia. Qed.

Lemma show_N_inj m n : show_N m = show_N n -> m = n.
Proof.
  intros H. pose proof (parse_digits_show m) as Hm. rewrite H, parse_digits_show in Hm. congruence.
Qed.

(** *** The order of [str]: lexicographic on bytes *)

Fixpoint str_leb (s t : str) : bool :=
  match s, t with
  | [], _ => true
  | _ :: _, [] => false
  | a :: s', b :: t' => (b2n a <? b2n b) || ((b2n a =? b2n b) && str_leb s' t')
  end.

Lemma str_leb_total s t : str_leb s t = true \/ str_leb t s = true.
Proof.
  revert t. induction s as [|a s IH]; intros [|b t]; simpl; auto.
  rewrite !orb_true_iff, !andb_true_iff, !N.ltb_lt, !N.eqb_eq.
  destruct (N.lt_total (b2n a) (b2n b)) as [?|[?|?]]; [tauto| |tauto].
  destruct (IH t); [left|right]; right; auto.
Qed.

#[export] Instance str_leb_trans : Transitive (fun s t => str_leb s t = true).
Proof.
  intros s. induction s as [|a s IH]; intros [|b t] [|c u]; simpl; try done.
  rewrite !orb_true_iff, !andb_true_iff, !N.ltb_lt, !N.eqb_eq.
  intros [?|[? ?]] [?|[? ?]]; [left; lia..|]. right. split; [congruence|by apply (IH t)].
Qed.

Lemma str_leb_antisymm s t : str_leb s t = true -> str_leb t s = true -> s = t.
Proof.
  revert t. induction s as [|a s IH]; intros [|b t]; simpl; try done.
  rewrite !orb_true_iff, !andb_true_iff, !N.ltb_lt, !N.eqb_eq.
  intros [?|[? ?]] [?|[? ?]]; try lia. f_equal; [by apply b2n_inj|by apply IH].
Qed.

(** [Vec<String>::sort_unstable(); dedup()] and the same on [Vec<u32>]. *)
Definition sort_dedup_str (l : list str) : list str := dedup (sort_by str_leb l).
Definition sort_dedup_N (l : list N) : list N := dedup (sort_by N.leb l).

#[export] Instance N_leb_trans : Transitive (fun a b => (a <=? b) = true).
Proof. intros a b c. rewrite !N.leb_le. lia. Qed.

Lemma N_leb_total a b : (a <=? b) = true \/ (b <=? a) = true.
Proof. rewrite !N.leb_le. lia. Qed.

Lemma N_leb_antisymm a b : (a <=? b) = true -> (b <=? a) = true -> a = b.
Proof. rewrite !N.leb_le. lia. Qed.

Section sort_dedup.
Context {A : Type} `{EqDecision A} (leb : A -> A -> bool)
  (Htot : forall a b, leb a b = true \/ leb b a = true)
  (Htr : Transitive (fun a b => leb a b = true))
  (Has : forall a b, leb a b = true -> leb b a = true -> a = b).
Local Abbreviation sd l := (dedup (sort_by leb l)).

Lemma sort_dedup_strict l : StronglySorted (fun a b => leb a b = true /\ a <> b) (sd l).
Proof using Htot Htr Has. apply dedup_strict; [done|done|]. by apply sort_by_sorted. Qed.

Lemma strict_sort_dedup l :
  StronglySorted (fun a b => leb a b = true /\ a <> b) l -> sd l = l.
Proof.
  intros H. rewrite sort_by_sorted_id.
  - by apply (strict_dedup_id (fun a b => leb a b = true /\ a <> b)); [intros a b []|].
  - induction H as [|x l HS IH HF]; constructor; [done|].
    eapply Forall_impl; [exact HF|]. by intros y [].
Qed.

Lemma sort_dedup_idemp l : sd (sd l) = sd l.
Proof using Htot Htr Has. apply strict_sort_dedup, sort_dedup_strict. Qed.

Lemma elem_of_sort_dedup x l : x ∈ sd l <-> x ∈ l.
Proof. by rewrite elem_of_dedup, elem_of_sort_by. Qed.

End sort_dedup.

Lemma sort_dedup_str_idemp l : sort_dedup_str (sort_dedup_str l) = sort_dedup_str l.
Proof. apply sort_dedup_idemp; [apply str_leb_total|apply _|apply str_leb_antisymm]. Qed.

Lemma sort_dedup_N_idemp l : sort_dedup_N (sort_dedup_N l) = sort_dedup_N l.
Proof. apply sort_dedup_idemp; [apply N_leb_total|apply _|apply N_leb_antisymm]. Qed.

Lemma elem_of_sort_dedup_str x l : x ∈ sort_dedup_str l <-> x ∈ l.
Proof. apply elem_of_sort_dedup. Qed.

Lemma elem_of_sort_dedup_N x l : x ∈ sort_dedup_N l <-> x ∈ l.
Proof. apply elem_of_sort_dedup. Qed.

(** ** Lemmas: UTF-8 *)

Definition is_ascii (b : byte) : bool := b2n b <? 0x80.

Lemma ascii_not_in_range lo hi c : is_ascii c = true -> 0x80 <= lo -> in_range lo hi c = false.
Proof. unfold is_ascii, in_range. intros Hc Hlo. bsimp. apply andb_false_iff. left. apply N.leb_gt. lia. Qed.

Lemma utf8_chunk_bounds b s : (1 <= snd (utf8_chunk (b :: s)) <= S (length s))%nat.
Proof.
  unfold utf8_chunk.
  repeat (case_if; simpl; [lia|]); repeat (case_match; simpl; try lia).
Qed.

(** An ASCII byte ends whatever character was under way. *)
Lemma utf8_chunk_app_ascii b s c t :
  is_ascii c = true -> utf8_chunk ((b :: s) ++ c :: t) = utf8_chunk (b :: s).
Proof.
  intros Hc.
  assert (Hr : forall lo hi, 0x80 <= lo -> in_range lo hi c = false) by (intros; by apply ascii_not_in_range).
  assert (Hk : is_cont c = false) by (apply Hr; lia).
  unfold utf8_chunk. rewrite <- app_comm_cons.
  destruct s as [|b1 [|b2 [|b3 s]]]; cbn [app]; rewrite ?Hk;
    repeat case_if; try done;
    match goal with H : in_range _ _ c = true |- _ => rewrite Hr in H by lia; discriminate H end.
Qed.

Lemma utf8_lossy_go_fuel f1 f2 s :
  (length s <= f1)%nat -> (length s <= f2)%nat -> utf8_lossy_go f1 s = utf8_lossy_go f2 s.
Proof.
  revert f2 s. induction f1 as [|f1 IH]; intros [|f2] [|b s] H1 H2; simpl in H1, H2; try done; try lia.
  cbn [utf8_lossy_go]. destruct (utf8_chunk (b :: s)) as [ok n] eqn:E.
  pose proof (utf8_chunk_bounds b s) as Hn. rewrite E in Hn. simpl in Hn.
  f_equal. apply IH; rewrite length_drop; simpl; lia.
Qed.

Lemma from_utf8_lossy_cons b s :
  from_utf8_lossy (b :: s) =
    (let '(ok, n) := utf8_chunk (b :: s) in if ok then take n (b :: s) else replacement)
    ++ from_utf8_lossy (drop (snd (utf8_chunk (b :: s))) (b :: s)).
Proof.
  pose proof (utf8_chunk_bounds b s) as Hn.
  unfold from_utf8_lossy at 1. cbn [length utf8_lossy_go].
  destruct (utf8_chunk (b :: s)) as [ok n] eqn:E. simpl in Hn. cbn [snd]. f_equal.
  apply utf8_lossy_go_fuel; rewrite ?length_drop; simpl; lia.
Qed.

Lemma from_utf8_lossy_ascii c t :
  is_ascii c = true -> from_utf8_lossy (c :: t) = c :: from_utf8_lossy t.
Proof.
  intros Hc. rewrite from_utf8_lossy_cons. unfold is_ascii in Hc.
  unfold utf8_chunk. rewrite Hc. reflexivity.
Qed.

Lemma from_utf8_lossy_app_ascii s c t :
  is_ascii c = true -> from_utf8_lossy (s ++ c :: t) = from_utf8_lossy s ++ c :: from_utf8_lossy t.
Proof.
  intros Hc. induction s as [[|b s] IH] using list_length_ind.
  { apply from_utf8_lossy_ascii, Hc. }
  pose proof (utf8_chunk_bounds b s) as Hn.
  pose proof (utf8_chunk_app_ascii b s c t Hc) as He.
  rewrite (from_utf8_lossy_cons b s). rewrite <- app_comm_cons in He |- *.
  rewrite from_utf8_lossy_cons, He. destruct (utf8_chunk (b :: s)) as [ok n]. cbn [snd] in *.
  rewrite <- app_assoc. rewrite !app_comm_cons, drop_app_le by (simpl; lia).
  rewrite IH by (rewrite length_drop; simpl; lia).
  rewrite take_app_le by (simpl; lia). done.
Qed.

(** ASCII text survives the lossy conversion. *)
Lemma from_utf8_lossy_contains a t b :
  Forall (fun c => is_ascii c = true) t -> t <> [] ->
  exists a' b', from_utf8_lossy (a ++ t ++ b) = a' ++ t ++ b'.
Proof.
  intros HF Hne. destruct t as [|c t]; [done|]. apply Forall_cons_1 in HF as [Hc HF].
  exists (from_utf8_lossy a), (from_utf8_lossy b). rewrite <- app_comm_cons.
  rewrite from_utf8_lossy_app_ascii by done. f_equal. rewrite <- app_comm_cons. f_equal.
  clear Hne. induction HF as [|c' t Hc' _ IH]; [done|].
  rewrite <- !app_comm_cons, from_utf8_lossy_ascii by done. by rewrite IH.
Qed.

Lemma utf8_valid_go_fuel f1 f2 s :
  (length s <= f1)%nat -> (length s <= f2)%nat -> utf8_valid_go f1 s = utf8_valid_go f2 s.
Proof.
  revert f2 s. induction f1 as [|f1 IH]; intros [|f2] [|b s] H1 H2; simpl in H1, H2; try done; try lia.
  cbn [utf8_valid_go]. destruct (utf8_chunk (b :: s)) as [ok n] eqn:E.
  pose proof (utf8_chunk_bounds b s) as Hn. rewrite E in Hn. simpl in Hn.
  f_equal. apply IH; rewrite length_drop; simpl; lia.
Qed.

Lemma utf8_valid_cons b s :
  utf8_valid (b :: s) = fst (utf8_chunk (b :: s)) && utf8_valid (drop (snd (utf8_chunk (b :: s))) (b :: s)).
Proof.
  pose proof (utf8_chunk_bounds b s) as Hn. unfold utf8_valid at 1. cbn [length utf8_valid_go].
  destruct (utf8_chunk (b :: s)) as [ok n] eqn:E. simpl in Hn. cbn [fst snd]. f_equal.
  apply utf8_valid_go_fuel; rewrite ?length_drop; simpl; lia.
Qed.

Lemma utf8_valid_ascii c t : is_ascii c = true -> utf8_valid (c :: t) = utf8_valid t.
Proof.
  intros Hc. rewrite utf8_valid_cons. unfold is_ascii in Hc. unfold utf8_chunk. rewrite Hc. reflexivity.
Qed.

Lemma utf8_valid_app_ascii s c t :
  is_ascii c = true -> utf8_valid (s ++ c :: t) = utf8_valid s && utf8_valid t.
Proof.
  intros Hc. induction s as [[|b s] IH] using list_length_ind.
  { apply utf8_valid_ascii, Hc. }
  pose proof (utf8_chunk_bounds b s) as Hn.
  pose proof (utf8_chunk_app_ascii b s c t Hc) as He.
  rewrite (utf8_valid_cons b s). rewrite <- app_comm_cons in He |- *.
  rewrite utf8_valid_cons, He. destruct (utf8_chunk (b :: s)) as [ok n]. cbn [fst snd] in *.
  rewrite !app_comm_cons, drop_app_le by (simpl; lia).
  rewrite IH by (rewrite length_drop; simpl; lia). apply andb_assoc.
Qed.

Lemma utf8_valid_all_ascii s : Forall (fun c => is_ascii c = true) s -> utf8_valid s = true.
Proof. induction 1 as [|c s Hc _ IH]; [done|]. by rewrite utf8_valid_ascii. Qed.

(** *** Searching for a literal *)

Lemma split_str_once_skip p pat c s :
  c <> p -> snd (split_str_once (p :: pat) (c :: s)) = snd (split_str_once (p :: pat) s).
Proof.
  intros Hc. cbn [split_str_once strip_prefix]. rewrite decide_False by done.
  by destruct (split_str_once (p :: pat) s).
Qed.

Lemma split_str_once_skips p pat w s :
  p ∉ w -> snd (split_str_once (p :: pat) (w ++ s)) = snd (split_str_once (p :: pat) s).
Proof.
  induction w as [|c w IH]; [done|]. intros [Hc Hw]%not_elem_of_cons. rewrite <- app_comm_cons.
  rewrite split_str_once_skip by done. by apply IH.
Qed.

Lemma split_str_once_miss pat c s :
  strip_prefix pat (c :: s) = None -> snd (split_str_once pat (c :: s)) = snd (split_str_once pat s).
Proof. intros Hm. cbn [split_str_once]. rewrite Hm. by destruct (split_str_once pat s). Qed.

Lemma split_str_once_hit pat s : split_str_once pat (pat ++ s) = ([], Some s).
Proof. destruct (pat ++ s) eqn:E; simpl; rewrite <- E, strip_prefix_app; done. Qed.

Lemma split_str_once_none p pat s : p ∉ s -> split_str_once (p :: pat) s = (s, None).
Proof.
  induction s as [|c s IH]; [done|]. intros [Hc Hs]%not_elem_of_cons.
  cbn [split_str_once strip_prefix]. rewrite decide_False by done. by rewrite IH.
Qed.
