(* ===== verification/Ip.v ===== *)
(** * Client addresses

    [std::net::IpAddr] as the proxy uses it (parsing, printing, the range
    predicates) and the address handling of [src/src/proxy/forward.rs]:
    normalisation, the public-address test, and the choice of the client
    address among the socket and the forwarding headers. *)

From S2P Require Import Prelude RustStr.

(** ** [IpAddr]: an IPv4 address is four octets, an IPv6 address eight groups *)

Inductive IpAddr : Type :=
| V4 (a b c d : N)
| V6 (groups : list N).

#[export] Instance IpAddr_eq_dec : EqDecision IpAddr.
Proof. solve_decision. Defined.

(** ** The parser of [core::net::parser]: a failed reader consumes nothing *)

Definition reader (A : Type) : Type := str -> option (A * str).

Definition to_digit (radix : N) (b : byte) : option N :=
  let n := b2n b in
  let d := if (48 <=? n) && (n <=? 57) then Some (n - 48)
           else if (97 <=? n) && (n <=? 122) then Some (n - 97 + 10)
           else if (65 <=? n) && (n <=? 90) then Some (n - 65 + 10)
           else None in
  opt_filter (fun v => v <? radix) d.

(** The digit loop of [read_number]: the value, the number of digits, the rest. *)
Fixpoint read_digits (radix : N) (acc : N) (count : nat) (s : str) : N * nat * str :=
  match s with
  | [] => (acc, count, [])
  | c :: s' =>
    match to_digit radix c with
    | Some d => read_digits radix (radix * acc + d) (S count) s'
    | None => (acc, count, s)
    end
  end.

Definition read_number (radix max : N) (max_digits : nat) (allow_zero_prefix : bool) : reader N :=
  fun s =>
    let '(v, count, rest) := read_digits radix 0 0 s in
    let has_leading_zero := match s with c :: _ => bool_decide (c = "0"%byte) | [] => false end in
    if (max_digits <? count)%nat then None
    else if (count =? 0)%nat then None
    else if negb allow_zero_prefix && has_leading_zero && (1 <? count)%nat then None
    else if v <=? max then Some (v, rest) else None.

Definition read_given_char (c : byte) : reader unit := fun s =>
  match s with
  | x :: s' => if decide (x = c) then Some (tt, s') else None
  | [] => None
  end.

Definition read_separator {A} (sep : byte) (index : nat) (inner : reader A) : reader A := fun s =>
  match index with
  | O => inner s
  | S _ => match read_given_char sep s with Some (_, s') => inner s' | None => None end
  end.

Definition read_octet (index : nat) : reader N :=
  read_separator "."%byte index (read_number 10 u8_max 3 false).

Definition read_ipv4_addr : reader (N * N * N * N) := fun s =>
  '(a, s) ← read_octet 0 s;
  '(b, s) ← read_octet 1 s;
  '(c, s) ← read_octet 2 s;
  '(d, s) ← read_octet 3 s;
  Some ((a, b, c, d), s).

(** [read_groups]: groups read (in order), whether an IPv4 tail was read, the rest. *)
Fixpoint read_groups (limit i : nat) (s : str) : list N * bool * str :=
  match limit with
  | O => ([], false, s)
  | S limit' =>
    let group (_ : unit) :=
      match read_separator ":"%byte i (read_number 16 u16_max 4 true) s with
      | Some (g, s') => let '(gs, v4, r) := read_groups limit' (S i) s' in (g :: gs, v4, r)
      | None => ([], false, s)
      end in
    if (0 <? limit')%nat then
      match read_separator ":"%byte i read_ipv4_addr s with
      | Some ((a, b, c, d), s') => ([a * 256 + b; c * 256 + d], true, s')
      | None => group tt
      end
    else group tt
  end.

Definition read_ipv6_addr : reader (list N) := fun s =>
  let '(headg, head_v4, s1) := read_groups 8 0 s in
  if (length headg =? 8)%nat then Some (headg, s1)
  else if head_v4 then None
  else
    '(_, s2) ← read_given_char ":"%byte s1;
    '(_, s3) ← read_given_char ":"%byte s2;
    let '(tailg, _, s4) := read_groups (8 - (length headg + 1)) 0 s3 in
    Some (headg ++ replicate (8 - length headg - length tailg) 0 ++ tailg, s4).

(** [s.parse::<IpAddr>().ok()]. *)
Definition parse_ip (s : str) : option IpAddr :=
  let v := match read_ipv4_addr s with
           | Some ((a, b, c, d), r) => Some (V4 a b c d, r)
           | None => match read_ipv6_addr s with
                     | Some (g, r) => Some (V6 g, r)
                     | None => None
                     end
           end in
  match v with
  | Some (ip, []) => Some ip
  | _ => None
  end.

(** ** Display *)

Definition hex_digit (n : N) : byte := if n <? 10 then n2b (48 + n) else n2b (87 + n).

Fixpoint show_hex_go (fuel : nat) (n : N) (acc : str) : str :=
  match fuel with
  | O => acc
  | S fuel' =>
    let acc' := hex_digit (n mod 16) :: acc in
    if n / 16 =? 0 then acc' else show_hex_go fuel' (n / 16) acc'
  end.
(** A [u16] group has at most four hexadecimal digits. *)
Definition show_hex (n : N) : str := show_hex_go 4 n [].

Definition show_ipv4 (a b c d : N) : str :=
  show_N a ++ "." ++ show_N b ++ "." ++ show_N c ++ "." ++ show_N d.

Definition to_ipv4_mapped (g : list N) : option (N * N * N * N) :=
  match g with
  | [0; 0; 0; 0; 0; 0xffff; ab; cd] => Some (ab / 256, ab mod 256, cd / 256, cd mod 256)
  | _ => None
  end.

(** The first longest run of zero groups: [(start, len)]. *)
Fixpoint zero_run (i : nat) (cur best : nat * nat) (g : list N) : nat * nat :=
  match g with
  | [] => best
  | x :: g' =>
    if x =? 0 then
      let cur := if (snd cur =? 0)%nat then (i, 1%nat) else (fst cur, S (snd cur)) in
      let best := if (snd best <? snd cur)%nat then cur else best in
      zero_run (S i) cur best g'
    else zero_run (S i) (0%nat, 0%nat) best g'
  end.

Definition show_groups (g : list N) : str := join ":" (show_hex <$> g).

Definition show_ipv6 (g : list N) : str :=
  match to_ipv4_mapped g with
  | Some (a, b, c, d) => "::ffff:" ++ show_ipv4 a b c d
  | None =>
    let '(start, len) := zero_run 0 (0%nat, 0%nat) (0%nat, 0%nat) g in
    if (1 <? len)%nat then
      show_groups (take start g) ++ "::" ++ show_groups (drop (start + len) g)
    else show_groups g
  end.

Definition show_ip (ip : IpAddr) : str :=
  match ip with V4 a b c d => show_ipv4 a b c d | V6 g => show_ipv6 g end.

(** [u32::from(Ipv4Addr)], [u128::from(Ipv6Addr)]. *)
Definition ipv4_bits (a b c d : N) : N := ((a * 256 + b) * 256 + c) * 256 + d.
Definition ipv6_bits (g : list N) : N := foldl (fun acc x => acc * 65536 + x) 0 g.

(** ** Range predicates *)

Definition v4_is_private (a b : N) : bool :=
  (a =? 10) || ((a =? 172) && (16 <=? b) && (b <=? 31)) || ((a =? 192) && (b =? 168)).
Definition v4_is_loopback (a : N) : bool := a =? 127.
Definition v4_is_link_local (a b : N) : bool := (a =? 169) && (b =? 254).
Definition v4_is_unspecified (a b c d : N) : bool := ipv4_bits a b c d =? 0.
Definition v4_is_broadcast (a b c d : N) : bool := ipv4_bits a b c d =? u32_max.
Definition v6_is_loopback (g : list N) : bool := bool_decide (g = [0; 0; 0; 0; 0; 0; 0; 1]).
Definition v6_is_unspecified (g : list N) : bool := bool_decide (g = replicate 8 0).
Definition v6_is_unique_local (g : list N) : bool := N.land (hd 0 g) 0xfe00 =? 0xfc00.
Definition v6_is_unicast_link_local (g : list N) : bool := N.land (hd 0 g) 0xffc0 =? 0xfe80.

(** ** [src/src/proxy/forward.rs] *)

Definition is_bracket (c : byte) : bool := bool_decide (c = "["%byte) || bool_decide (c = "]"%byte).

Definition normalize_ip_str (ip : str) : option str :=
  let ip := trim_matches is_bracket (trim ip) in
  let ip := trim (split_first "%"%byte ip) in
  if is_empty ip then None
  else match parse_ip ip with
       | Some (V6 v6) =>
         match to_ipv4_mapped v6 with
         | Some (a, b, c, d) => Some (show_ipv4 a b c d)
         | None => Some (show_ipv6 v6)
         end
       | Some (V4 a b c d) => Some (show_ipv4 a b c d)
       | None => None
       end.

Definition is_public_routable_ip (ip : str) : bool :=
  match normalize_ip_str ip with
  | None => false
  | Some normalized =>
    match parse_ip normalized with
    | Some (V4 a b c d) =>
      negb (v4_is_private a b || v4_is_loopback a || v4_is_link_local a b
            || v4_is_unspecified a b c d || v4_is_broadcast a b c d)
    | Some (V6 g) =>
      negb (v6_is_loopback g || v6_is_unique_local g || v6_is_unicast_link_local g
            || v6_is_unspecified g)
    | None => false
    end
  end.

(** [first_hop_from_xff]. *)
Definition first_hop_from_xff (xff : option str) : option str :=
  x ← xff;
  let ip := trim_matches (is_byte x22) (trim (split_first ","%byte x)) in
  if is_empty ip then None else Some ip.

(** [resolve_client_ip]: a public socket peer, then a public [X-Real-IP], then
    the first [X-Forwarded-For] hop, then any [X-Real-IP], then the socket. *)
Definition resolve_client_ip (socket_ip xff x_real_ip : option str) : option str :=
  let public (o : option str) := opt_filter is_public_routable_ip (o ≫= normalize_ip_str) in
  match public socket_ip with
  | Some ip => Some ip
  | None =>
    match public x_real_ip with
    | Some ip => Some ip
    | None =>
      match first_hop_from_xff xff ≫= normalize_ip_str with
      | Some ip => Some ip
      | None =>
        match x_real_ip ≫= normalize_ip_str with
        | Some ip => Some ip
        | None => socket_ip ≫= normalize_ip_str
        end
      end
    end
  end.

(** [client_ip_from_http_headers]: [hdr name] is the header's text, when it has
    one ([headers.get(name).and_then(|v| v.to_str().ok())]). *)
Definition client_ip_from_http_headers (hdr : str -> option str) : option str :=
  let plain (name : str) := opt_filter (fun v => negb (is_empty v)) (trim <$> hdr name) in
  match plain "cf-connecting-ip" with Some ip => Some ip | None =>
  match plain "true-client-ip" with Some ip => Some ip | None =>
  match plain "x-client-ip" with Some ip => Some ip | None =>
  match plain "x-real-ip" with Some ip => Some ip | None =>
  match hdr "x-forwarded-for" with Some v => first_hop_from_xff (Some v) | None => None
  end end end end end.

(** [forwarded_client_ip_header_pairs]. *)
Definition forwarded_client_ip_header_pairs (client_ip : str) (existing_xff : option str)
    : list (str * str) :=
  let xff := match opt_filter (fun v => negb (is_empty v)) (trim <$> existing_xff) with
             | Some existing => existing ++ ", " ++ client_ip
             | None => client_ip
             end in
  [(bs "X-Real-IP", client_ip); (bs "X-Forwarded-For", xff)].

(** ** Well-formed addresses *)

Definition ip_wf (ip : IpAddr) : Prop :=
  match ip with
  | V4 a b c d => a < 256 /\ b < 256 /\ c < 256 /\ d < 256
  | V6 g => length g = 8%nat /\ Forall (fun x => x < 65536) g
  end.

(** ** Lemmas: the number reader *)

Lemma read_digits_app radix acc n s v c rest :
  read_digits radix acc n s = (v, c, []) ->
  match rest with x :: _ => to_digit radix x = None | [] => True end ->
  read_digits radix acc n (s ++ rest) = (v, c, rest).
Proof.
  revert acc n. induction s as [|x s IH]; intros acc n; simpl.
  - intros [= <- <-]. destruct rest as [|y rest]; simpl; [done|]. by intros ->.
  - destruct (to_digit radix x); [apply IH|done].
Qed.

Lemma read_number_app radix max md az s v rest :
  read_number radix max md az s = Some (v, []) -> s <> [] ->
  match rest with x :: _ => to_digit radix x = None | [] => True end ->
  read_number radix max md az (s ++ rest) = Some (v, rest).
Proof.
  unfold read_number. intros H Hne Hr.
  destruct (read_digits radix 0 0 s) as [[v' c] r] eqn:E.
  assert (Hr' : r = []) by (repeat (case_match; simplify_eq; try done)). subst r.
  rewrite (read_digits_app _ _ _ _ _ _ _ E Hr). destruct s as [|x s]; [done|]. cbn [app].
  repeat (case_match; simplify_eq; try done).
Qed.

Lemma read_number_bound radix max md az s v rest :
  read_number radix max md az s = Some (v, rest) -> v <= max.
Proof.
  unfold read_number. destruct (read_digits _ _ _ _) as [[v' c] r].
  repeat (case_match; try done); intros ?; simplify_eq; by apply N.leb_le.
Qed.

(** Every octet prints to text its reader reads back, and so does every group. *)
Definition octet_ok (n : N) : bool :=
  bool_decide (read_number 10 u8_max 3 false (show_N n) = Some (n, [])).
Definition hex_digit_ok_b (d : N) : bool := bool_decide (to_digit 16 (hex_digit d) = Some d).

Lemma forall_N_below (P : N -> bool) k :
  forallb P (N.of_nat <$> seq 0 k) = true -> forall n, n < N.of_nat k -> P n = true.
Proof.
  intros H n Hn. apply forallb_forall with (x := n) in H; [done|].
  apply list_elem_of_In, list_elem_of_fmap. exists (N.to_nat n). split; [lia|].
  apply list_elem_of_In, in_seq. lia.
Qed.

Lemma octets_ok n : n < 256 -> octet_ok n = true.
Proof. apply (forall_N_below octet_ok 256). vm_compute. reflexivity. Qed.

Lemma hex_digit_ok d : d < 16 -> to_digit 16 (hex_digit d) = Some d.
Proof.
  intros H. apply (bool_decide_eq_true_1 _).
  apply (forall_N_below hex_digit_ok_b 16); [vm_compute; reflexivity|done].
Qed.

Ltac div_lia := zify; Z.to_euclidean_division_equations; lia.

(** The text of a group is one to four hexadecimal digits of the group's value. *)
Lemma show_hex_digits n : n < 65536 ->
  exists ds, show_hex n = hex_digit <$> ds /\ (1 <= length ds <= 4)%nat /\
    Forall (fun d => d < 16) ds /\ foldl (fun acc d => 16 * acc + d) 0 ds = n.
Proof.
  intros Hn. unfold show_hex. cbn [show_hex_go].
  destruct (n / 16 =? 0) eqn:E1; bsimp.
  { exists [n mod 16]. split_and!; [done|simpl; lia..| |simpl; div_lia].
    repeat constructor. div_lia. }
  destruct (n / 16 / 16 =? 0) eqn:E2; bsimp.
  { exists [n / 16 mod 16; n mod 16]. split_and!; [done|simpl; lia..| |simpl; div_lia].
    repeat constructor; div_lia. }
  destruct (n / 16 / 16 / 16 =? 0) eqn:E3; bsimp.
  { exists [n / 16 / 16 mod 16; n / 16 mod 16; n mod 16].
    split_and!; [done|simpl; lia..| |simpl; div_lia]. repeat constructor; div_lia. }
  exists [n / 16 / 16 / 16 mod 16; n / 16 / 16 mod 16; n / 16 mod 16; n mod 16].
  split_and!; [by case_if|simpl; lia..| |simpl; div_lia]. repeat constructor; div_lia.
Qed.

Lemma read_digits_hex ds acc n :
  Forall (fun d => d < 16) ds ->
  read_digits 16 acc n (hex_digit <$> ds) =
    (foldl (fun acc d => 16 * acc + d) acc ds, (n + length ds)%nat, []).
Proof.
  intros HF. revert acc n. induction HF as [|d ds Hd HF IH]; intros acc n.
  - simpl. by rewrite Nat.add_0_r.
  - rewrite fmap_cons. cbn [read_digits]. rewrite hex_digit_ok by done. rewrite IH. simpl.
    by rewrite Nat.add_succ_r.
Qed.

Lemma read_show_hex n : n < 65536 -> read_number 16 u16_max 4 true (show_hex n) = Some (n, []).
Proof.
  intros Hn. destruct (show_hex_digits n Hn) as (ds & -> & Hl & HF & Hv).
  unfold read_number. rewrite read_digits_hex by done. rewrite Hv, Nat.add_0_l.
  rewrite (proj2 (Nat.ltb_ge _ _)) by lia. rewrite (proj2 (Nat.eqb_neq _ _)) by lia.
  cbn [negb andb]. rewrite (proj2 (N.leb_le _ _)); [done|]. unfold u16_max. lia.
Qed.

Lemma hex_byte_digit d : d < 16 -> is_some (to_digit 16 (hex_digit d)) = true.
Proof. intros. by rewrite hex_digit_ok. Qed.

Lemma show_hex_bytes n : n < 65536 ->
  show_hex n <> [] /\ Forall (fun c => is_some (to_digit 16 c) = true) (show_hex n).
Proof.
  intros Hn. destruct (show_hex_digits n Hn) as (ds & -> & Hl & HF & _). split.
  - destruct ds; simpl in *; [lia|done].
  - apply Forall_fmap. eapply Forall_impl; [exact HF|]. intros d Hd. by apply hex_byte_digit.
Qed.

(** ** Lemmas: IPv4 text *)

Lemma read_show_octet n rest : n < 256 ->
  match rest with x :: _ => to_digit 10 x = None | [] => True end ->
  read_number 10 u8_max 3 false (show_N n ++ rest) = Some (n, rest).
Proof.
  intros Hn Hr. apply octets_ok, bool_decide_eq_true in Hn.
  apply read_number_app; [done|apply show_N_nonempty|done].
Qed.

Lemma read_show_ipv4 a b c d : ip_wf (V4 a b c d) ->
  read_ipv4_addr (show_ipv4 a b c d) = Some ((a, b, c, d), []).
Proof.
  intros (Ha & Hb & Hc & Hd). unfold read_ipv4_addr, read_octet, show_ipv4. cbn [read_separator].
  rewrite read_show_octet by done. cbn [mbind option_bind].
  change (bs "." ++ show_N b ++ bs "." ++ show_N c ++ bs "." ++ show_N d)
    with ("."%byte :: show_N b ++ bs "." ++ show_N c ++ bs "." ++ show_N d).
  cbn [read_given_char]. rewrite decide_True by done. rewrite read_show_octet by done. cbn [mbind option_bind].
  change (bs "." ++ show_N c ++ bs "." ++ show_N d) with ("."%byte :: show_N c ++ bs "." ++ show_N d).
  cbn [read_given_char]. rewrite decide_True by done. rewrite read_show_octet by done. cbn [mbind option_bind].
  change (bs "." ++ show_N d) with ("."%byte :: show_N d).
  cbn [read_given_char]. rewrite decide_True by done.
  rewrite <- (app_nil_r (show_N d)), read_show_octet by done. done.
Qed.

Lemma parse_show_ipv4 a b c d :
  ip_wf (V4 a b c d) -> parse_ip (show_ipv4 a b c d) = Some (V4 a b c d).
Proof. intros H. unfold parse_ip. by rewrite read_show_ipv4. Qed.

(** The IPv4 reader needs a dot. *)
Lemma read_digits_rest radix acc n s v c r :
  read_digits radix acc n s = (v, c, r) -> exists p, s = p ++ r.
Proof.
  revert acc n. induction s as [|x s IH]; intros acc n; simpl; [intros [= <- <- <-]; by exists []|].
  destruct (to_digit radix x); [|intros [= <- <- <-]; by exists []].
  intros [p ->]%IH. by exists (x :: p).
Qed.

Lemma read_number_rest radix max md az s v r :
  read_number radix max md az s = Some (v, r) -> exists p, s = p ++ r.
Proof.
  unfold read_number. destruct (read_digits radix 0 0 s) as [[v' c] r'] eqn:E.
  apply read_digits_rest in E as [p Hp].
  repeat (case_match; try done); intros ?; simplify_eq; by exists p.
Qed.

Lemma read_ipv4_dot s v : read_ipv4_addr s = Some v -> "."%byte ∈ s.
Proof.
  unfold read_ipv4_addr, read_octet. cbn [read_separator].
  destruct (read_number 10 u8_max 3 false s) as [[a s1]|] eqn:E; [|done]. cbn [mbind option_bind].
  apply read_number_rest in E as [p ->].
  destruct s1 as [|x s1]; [done|]. cbn [read_given_char]. case_decide as D; [|done]. subst x.
  intros _. apply elem_of_app. right. left.
Qed.

Lemma read_ipv4_no_dot s : "."%byte ∉ s -> read_ipv4_addr s = None.
Proof.
  intros H. destruct (read_ipv4_addr s) eqn:E; [|done]. by apply read_ipv4_dot in E.
Qed.

Lemma read_sep_ipv4_no_dot i s : "."%byte ∉ s -> read_separator ":"%byte i read_ipv4_addr s = None.
Proof.
  intros H. destruct i as [|i]; [by apply read_ipv4_no_dot|]. simpl.
  destruct s as [|x s]; [done|]. simpl. case_decide; [|done].
  apply read_ipv4_no_dot. by apply not_elem_of_cons in H as [_ ?].
Qed.

(** ** Lemmas: IPv6 text *)

(** Text at which the group reader stops: the end, or a double colon. *)
Definition group_stop (rest : str) : Prop := rest = [] \/ exists t, rest = ":"%byte :: ":"%byte :: t.

Lemma group_stop_None i rest : group_stop rest ->
  read_separator ":"%byte i (read_number 16 u16_max 4 true) rest = None.
Proof. intros [->|[t ->]]; destruct i; done. Qed.

(** The text of the remaining groups as the reader meets it at index [i]. *)
Definition groups_text (i : nat) (g : list N) : str :=
  match g, i with
  | [], _ => []
  | _, O => show_groups g
  | _, S _ => ":"%byte :: show_groups g
  end.

Lemma show_groups_cons x g : show_groups (x :: g) = show_hex x ++ groups_text 1 g.
Proof. destruct g; [simpl; by rewrite app_nil_r|done]. Qed.

Lemma groups_text_cons i x g :
  groups_text i (x :: g) = (match i with O => [] | _ => [":"%byte] end) ++ show_hex x ++ groups_text 1 g.
Proof. destruct i; simpl groups_text; by rewrite show_groups_cons. Qed.

Lemma read_groups_show g limit i rest :
  Forall (fun x => x < 65536) g -> (length g <= limit)%nat ->
  "."%byte ∉ groups_text i g ++ rest ->
  group_stop rest ->
  read_groups limit i (groups_text i g ++ rest) = (g, false, rest).
Proof.
  intros HF. revert limit i. induction HF as [|x g Hx HF IH]; intros limit i Hl Hdot Hstop.
  - destruct limit as [|limit]; [done|]. cbn [groups_text app read_groups].
    rewrite group_stop_None by done.
    rewrite read_sep_ipv4_no_dot by done. by case_if.
  - destruct limit as [|limit]; [simpl in Hl; lia|]. cbn [read_groups].
    rewrite read_sep_ipv4_no_dot by done.
    assert (Hg : read_separator ":"%byte i (read_number 16 u16_max 4 true) (groups_text i (x :: g) ++ rest)
                 = Some (x, groups_text 1 g ++ rest)).
    { rewrite groups_text_cons.
      assert (Hr : read_number 16 u16_max 4 true (show_hex x ++ groups_text 1 g ++ rest)
                   = Some (x, groups_text 1 g ++ rest)).
      { apply read_number_app; [by apply read_show_hex|by apply show_hex_bytes|].
        destruct g; [|done]. simpl. destruct Hstop as [->|[t ->]]; done. }
      destruct i; cbn [app read_separator read_given_char]; rewrite <- ?app_assoc; [done|].
      by rewrite decide_True. }
    assert (Hd' : "."%byte ∉ groups_text 1 g ++ rest).
    { rewrite groups_text_cons in Hdot. rewrite <- !app_assoc in Hdot.
      rewrite !not_elem_of_app in Hdot. rewrite not_elem_of_app. tauto. }
    rewrite Hg. assert (E1 : groups_text 1 g = groups_text (S i) g) by (by destruct g).
    rewrite E1 in Hd' |- *. rewrite IH; [by case_if|simpl in Hl; lia|done|done].
Qed.

Definition zeros_at (g : list N) (r : nat * nat) : Prop :=
  forall j, (fst r <= j < fst r + snd r)%nat -> g !! j = Some 0.

Lemma zero_run_zeros pre g cur best :
  zeros_at (pre ++ g) cur -> (snd cur = 0%nat \/ (fst cur + snd cur)%nat = length pre) ->
  zeros_at (pre ++ g) best ->
  zeros_at (pre ++ g) (zero_run (length pre) cur best g).
Proof.
  revert pre cur best. induction g as [|x g IH]; intros pre cur best Hc Hp Hb; [done|]. cbn [zero_run].
  rewrite (cons_middle x pre g), app_assoc in *.
  replace (S (length pre)) with (length (pre ++ [x])) by (rewrite length_app; simpl; lia).
  destruct (x =? 0) eqn:E; bsimp.
  - subst x. set (cur' := if (snd cur =? 0)%nat then _ else _).
    assert (Hlast : ((pre ++ [0]) ++ g) !! length pre = Some 0).
    { rewrite lookup_app_l by (rewrite length_app; simpl; lia).
      by rewrite lookup_app_r, Nat.sub_diag by lia. }
    assert (Hend : (fst cur' + snd cur')%nat = length (pre ++ [0])).
    { rewrite length_app. unfold cur'. case_if; bsimp; simpl; lia. }
    assert (Hc' : zeros_at ((pre ++ [0]) ++ g) cur').
    { intros j Hj. unfold cur' in Hj. destruct (snd cur =? 0)%nat eqn:Es; bsimp; simpl in Hj.
      - assert (j = length pre) as -> by lia. done.
      - destruct (decide (j = length pre)) as [->|]; [done|]. apply Hc. lia. }
    apply IH; [done|by right|]. by case_if.
  - apply IH; [|by left|done]. intros j Hj. simpl in Hj. lia.
Qed.

(** Cutting a run of zeros out of a list. *)
Lemma zeros_at_split g start len :
  zeros_at g (start, len) -> (0 < len)%nat ->
  (start + len <= length g)%nat /\ g = take start g ++ replicate len 0 ++ drop (start + len) g.
Proof.
  intros Hz Hl. assert (Hle : (start + len <= length g)%nat).
  { assert (start + len - 1 < length g)%nat; [|lia]. apply lookup_lt_Some with 0. apply Hz. simpl. lia. }
  split; [done|]. rewrite <- (take_drop start g) at 1. f_equal.
  rewrite <- (take_drop len (drop start g)) at 1. rewrite drop_drop. f_equal.
  apply list_eq. intros j. destruct (decide (j < len)%nat) as [Hj|Hj].
  - rewrite lookup_take_lt by done. rewrite lookup_drop, lookup_replicate_2 by done.
    apply Hz. simpl. lia.
  - rewrite lookup_take_ge by lia. symmetry. apply lookup_replicate_None. lia.
Qed.

Definition addr_byte (c : byte) : bool := bool_decide (c = ":"%byte) || is_some (to_digit 16 c).

Lemma show_groups_bytes g : Forall (fun x => x < 65536) g ->
  Forall (fun c => addr_byte c = true) (show_groups g).
Proof.
  induction 1 as [|x g Hx HF IH]; [constructor|]. rewrite show_groups_cons.
  apply Forall_app. split.
  - eapply Forall_impl; [by apply show_hex_bytes|]. intros c Hc. unfold addr_byte. by rewrite Hc, orb_true_r.
  - destruct g; [constructor|]. constructor; done.
Qed.

Lemma show_ipv6_bytes g : Forall (fun x => x < 65536) g -> to_ipv4_mapped g = None ->
  Forall (fun c => addr_byte c = true) (show_ipv6 g).
Proof.
  intros HF Hm. unfold show_ipv6. rewrite Hm. destruct (zero_run _ _ _ _) as [start len].
  case_if; [|by apply show_groups_bytes].
  rewrite !Forall_app. split_and!; [|by repeat constructor|];
    apply show_groups_bytes; [by apply Forall_take|by apply Forall_drop].
Qed.

Lemma addr_bytes_no_dot s : Forall (fun c => addr_byte c = true) s -> "."%byte ∉ s.
Proof. intros HF Hd. rewrite Forall_forall in HF. by apply HF in Hd. Qed.

Lemma groups_text_0 g : groups_text 0 g = show_groups g.
Proof. by destruct g. Qed.

Lemma read_show_ipv6 g : ip_wf (V6 g) -> to_ipv4_mapped g = None ->
  read_ipv6_addr (show_ipv6 g) = Some (g, []).
Proof.
  intros [Hlen HF] Hm. pose proof (addr_bytes_no_dot _ (show_ipv6_bytes g HF Hm)) as Hdot.
  unfold show_ipv6 in *. rewrite Hm in *. destruct (zero_run _ _ _ _) as [start len] eqn:Ez.
  assert (Hz : zeros_at g (start, len)).
  { rewrite <- Ez. apply (zero_run_zeros [] g); [intros j; simpl; lia|by left|intros j; simpl; lia]. }
  unfold read_ipv6_addr. destruct (1 <? len)%nat eqn:El; bsimp.
  - destruct (zeros_at_split g start len Hz ltac:(lia)) as [Hle Hg].
    rewrite <- (groups_text_0 (take start g)) in Hdot |- *.
    rewrite read_groups_show; [|by apply Forall_take|rewrite length_take; lia|done|].
    2: { right. by eexists. }
    rewrite length_take, Nat.min_l by lia.
    rewrite (proj2 (Nat.eqb_neq _ _)) by lia.
    change (bs "::" ++ ?t) with (":"%byte :: ":"%byte :: t).
    cbn [read_given_char]. rewrite !decide_True by done. cbn [mbind option_bind read_given_char].
    rewrite !decide_True by done. cbn [mbind option_bind].
    rewrite <- (groups_text_0 (drop _ g)), <- (app_nil_r (groups_text _ _)).
    rewrite read_groups_show; [|by apply Forall_drop|rewrite length_drop; lia| |by left].
    + do 2 f_equal. rewrite length_drop. replace (8 - start - (length g - (start + len)))%nat with len by lia.
      done.
    + rewrite app_nil_r, groups_text_0. rewrite !not_elem_of_app in Hdot. tauto.
  - rewrite <- (groups_text_0 g), <- (app_nil_r (groups_text _ _)) in Hdot |- *.
    rewrite read_groups_show; [|done|lia|done|by left]. by rewrite Hlen.
Qed.

Lemma parse_show_ipv6 g : ip_wf (V6 g) -> to_ipv4_mapped g = None ->
  parse_ip (show_ipv6 g) = Some (V6 g).
Proof.
  intros Hwf Hm. unfold parse_ip. rewrite read_ipv4_no_dot.
  - by rewrite read_show_ipv6.
  - apply addr_bytes_no_dot, show_ipv6_bytes; [by destruct Hwf|done].
Qed.

(** ** Lemmas: what the parser accepts is well formed *)

Lemma read_octet_bound i s v r : read_octet i s = Some (v, r) -> v < 256.
Proof.
  unfold read_octet. destruct i; simpl.
  - intros H%read_number_bound. unfold u8_max in H. lia.
  - destruct (read_given_char _ _) as [[? ?]|]; [|done].
    intros H%read_number_bound. unfold u8_max in H. lia.
Qed.

Lemma read_ipv4_wf s a b c d r : read_ipv4_addr s = Some ((a, b, c, d), r) -> ip_wf (V4 a b c d).
Proof.
  unfold read_ipv4_addr.
  destruct (read_octet 0 s) as [[? ?]|] eqn:E0; [|done]. cbn [mbind option_bind].
  destruct (read_octet 1 _) as [[? ?]|] eqn:E1; [|done]. cbn [mbind option_bind].
  destruct (read_octet 2 _) as [[? ?]|] eqn:E2; [|done]. cbn [mbind option_bind].
  destruct (read_octet 3 _) as [[? ?]|] eqn:E3; [|done]. cbn [mbind option_bind].
  intros ?; simplify_eq. apply read_octet_bound in E0, E1, E2, E3. done.
Qed.

Lemma read_sep_ipv4_wf i s a b c d r :
  read_separator ":"%byte i read_ipv4_addr s = Some ((a, b, c, d), r) -> ip_wf (V4 a b c d).
Proof.
  destruct i; simpl; [apply read_ipv4_wf|].
  destruct (read_given_char _ _) as [[? ?]|]; [apply read_ipv4_wf|done].
Qed.

Lemma read_sep_group_bound i s v r :
  read_separator ":"%byte i (read_number 16 u16_max 4 true) s = Some (v, r) -> v < 65536.
Proof.
  destruct i; simpl.
  - intros H%read_number_bound. unfold u16_max in H. lia.
  - destruct (read_given_char _ _) as [[? ?]|]; [|done].
    intros H%read_number_bound. unfold u16_max in H. lia.
Qed.

Lemma read_groups_wf limit i s g v4 r :
  read_groups limit i s = (g, v4, r) -> (length g <= limit)%nat /\ Forall (fun x => x < 65536) g.
Proof.
  revert i s g v4 r. induction limit as [|limit IH]; intros i s g v4 r; [by intros [= <- <- <-]|].
  cbn [read_groups].
  assert (Hg : match read_separator ":"%byte i (read_number 16 u16_max 4 true) s with
               | Some (x, s') => let '(gs, v, r') := read_groups limit (S i) s' in (x :: gs, v, r')
               | None => ([], false, s)
               end = (g, v4, r) -> (length g <= S limit)%nat /\ Forall (fun x => x < 65536) g).
  { destruct (read_separator _ _ (read_number _ _ _ _) _) as [[x s']|] eqn:E.
    - destruct (read_groups limit (S i) s') as [[gs v] r'] eqn:E'. intros ?; simplify_eq.
      apply IH in E' as [? ?]. apply read_sep_group_bound in E. split; [simpl; lia|by constructor].
    - intros ?; simplify_eq. split; [simpl; lia|constructor]. }
  destruct (0 <? limit)%nat eqn:El; [|done].
  destruct (read_separator _ _ read_ipv4_addr _) as [[[[[a b] c] d] s']|] eqn:E; [|done].
  intros ?; simplify_eq. apply read_sep_ipv4_wf in E as (? & ? & ? & ?). bsimp.
  split; [simpl; lia|]. repeat constructor; lia.
Qed.

Lemma parse_ip_wf s ip : parse_ip s = Some ip -> ip_wf ip.
Proof.
  unfold parse_ip. destruct (read_ipv4_addr s) as [[[[[a b] c] d] r]|] eqn:E4.
  - apply read_ipv4_wf in E4. destruct r; [|done]. by intros [= <-].
  - unfold read_ipv6_addr. destruct (read_groups 8 0 s) as [[hg v4] s1] eqn:Eh.
    apply read_groups_wf in Eh as [Hl HF].
    destruct (length hg =? 8)%nat eqn:E8; bsimp; [destruct s1; [by intros [= <-]|done]|].
    destruct v4; [done|].
    destruct (read_given_char _ s1) as [[? s2]|]; [|done]. cbn [mbind option_bind].
    destruct (read_given_char _ s2) as [[? s3]|]; [|done]. cbn [mbind option_bind].
    destruct (read_groups _ 0 s3) as [[tg v] s4] eqn:Et.
    apply read_groups_wf in Et as [Hl' HF']. destruct s4; [|done]. intros [= <-]. split.
    + rewrite !length_app, length_replicate. lia.
    + rewrite !Forall_app. split_and!; [done| |done]. apply Forall_replicate. lia.
Qed.

Lemma to_ipv4_mapped_wf g a b c d :
  Forall (fun x => x < 65536) g -> to_ipv4_mapped g = Some (a, b, c, d) -> ip_wf (V4 a b c d).
Proof.
  intros HF H. unfold to_ipv4_mapped in H. repeat (case_match; try done). simplify_eq.
  rewrite !Forall_cons in HF. destruct_and!. repeat split; div_lia.
Qed.

(** ** Lemmas: normal forms *)

(** The canonical texts: of an IPv4 address, or of an IPv6 address that is not IPv4-mapped. *)
Definition canonical (ip : IpAddr) : Prop :=
  ip_wf ip /\ match ip with V4 _ _ _ _ => True | V6 g => to_ipv4_mapped g = None end.

Definition text_byte (c : byte) : bool := addr_byte c || bool_decide (c = "."%byte).

Lemma text_byte_graphic c : text_byte c = true ->
  graphic c = true /\ is_bracket c = false /\ c <> "%"%byte.
Proof. destruct c; vm_compute; intros H; try discriminate H; repeat split; discriminate. Qed.

Lemma digit_text_byte c : is_ascii_digit c = true -> text_byte c = true.
Proof. destruct c; vm_compute; done. Qed.

Lemma show_ip_text ip : canonical ip -> show_ip ip <> [] /\ Forall (fun c => text_byte c = true) (show_ip ip).
Proof.
  intros [Hwf Hm]. destruct ip as [a b c d|g]; simpl.
  - assert (Hd : forall n, Forall (fun c => text_byte c = true) (show_N n)).
    { intros n. eapply Forall_impl; [apply show_N_digits|]. intros x. apply digit_text_byte. }
    unfold show_ipv4. split.
    + pose proof (show_N_nonempty a). by destruct (show_N a).
    + rewrite !Forall_app. by split_and!; try apply Hd; repeat constructor.
  - split.
    + intros E. pose proof (parse_show_ipv6 g Hwf Hm) as Hp. rewrite E in Hp. done.
    + eapply Forall_impl; [apply show_ipv6_bytes; [by destruct Hwf|done]|].
      intros x Hx. unfold text_byte. by rewrite Hx.
Qed.

Lemma parse_show_ip ip : canonical ip -> parse_ip (show_ip ip) = Some ip.
Proof.
  intros [Hwf Hm]. destruct ip; simpl; [by apply parse_show_ipv4|by apply parse_show_ipv6].
Qed.

Lemma trim_start_matches_none p s : Forall (fun c => p c = false) s -> trim_start_matches p s = s.
Proof. destruct 1 as [|c s Hc _]; [done|]. simpl. by rewrite Hc. Qed.

Lemma trim_matches_none p s : Forall (fun c => p c = false) s -> trim_matches p s = s.
Proof.
  intros H. unfold trim_matches, trim_end_matches.
  rewrite (trim_start_matches_none p s) by done.
  rewrite trim_start_matches_none by (by apply Forall_reverse). apply reverse_involutive.
Qed.

Lemma text_bytes_normal s : Forall (fun c => text_byte c = true) s ->
  trim (split_first "%"%byte (trim_matches is_bracket (trim s))) = s.
Proof.
  intros HF.
  assert (Hg : Forall (fun c => graphic c = true) s) by (eapply Forall_impl; [exact HF|]; apply text_byte_graphic).
  assert (Hb : Forall (fun c => is_bracket c = false) s) by (eapply Forall_impl; [exact HF|]; apply text_byte_graphic).
  assert (Hp : "%"%byte ∉ s).
  { intros Hin. rewrite Forall_forall in HF. apply HF in Hin. done. }
  rewrite (trim_all_graphic s), trim_matches_none, split_first_no by done. by apply trim_all_graphic.
Qed.

Lemma normalize_canonical ip : canonical ip -> normalize_ip_str (show_ip ip) = Some (show_ip ip).
Proof.
  intros Hc. destruct (show_ip_text ip Hc) as [Hne HF]. unfold normalize_ip_str.
  rewrite text_bytes_normal by done. rewrite (proj2 (is_empty_false _)) by done.
  rewrite parse_show_ip by done. destruct ip as [a b c d|g]; [done|].
  destruct Hc as [_ Hm]. simpl in *. by rewrite Hm.
Qed.

(** What [normalize_ip_str] returns is the text of a canonical address. *)
Lemma normalize_ip_canonical s t :
  normalize_ip_str s = Some t -> exists ip, canonical ip /\ t = show_ip ip.
Proof.
  unfold normalize_ip_str. case_if; [done|].
  destruct (parse_ip _) as [[a b c d|g]|] eqn:Ep; [| |done]; apply parse_ip_wf in Ep as Hwf.
  - intros [= <-]. exists (V4 a b c d). by split.
  - destruct (to_ipv4_mapped g) as [[[[a b] c] d]|] eqn:Em; intros [= <-].
    + exists (V4 a b c d). split; [split; [|done]|done]. destruct Hwf as [_ HF].
      by apply (to_ipv4_mapped_wf g).
    + exists (V6 g). by split.
Qed.

Lemma normalize_ip_again s t : normalize_ip_str s = Some t -> normalize_ip_str t = Some t.
Proof. intros (ip & Hc & ->)%normalize_ip_canonical. by apply normalize_canonical. Qed.

Lemma is_public_normalized s t :
  normalize_ip_str s = Some t -> is_public_routable_ip t = is_public_routable_ip s.
Proof.
  intros H. unfold is_public_routable_ip. by rewrite H, (normalize_ip_again s t).
Qed.

(** ** Properties *)

(** [normalize_ip_str] is idempotent: the text it returns, for an IPv4, an
    IPv4-mapped or any other IPv6 address, parses back to the same address and
    normalises to itself, so the layers that normalise an address again (the
    GeoIP lookup, the public-address test) see the same client. *)
Theorem normalize_ip_idempotent s t :
  normalize_ip_str s = Some t ->
  normalize_ip_str t = Some t /\ is_public_routable_ip t = is_public_routable_ip s /\
  exists ip, ip_wf ip /\ parse_ip t = Some ip /\ show_ip ip = t.
Proof.
  intros H. split_and!; [by eapply normalize_ip_again|by apply is_public_normalized|].
  apply normalize_ip_canonical in H as (ip & Hc & ->). exists ip. split_and!; [by destruct Hc| |done].
  by apply parse_show_ip.
Qed.

Lemma normalize_ip_idempotent_witness :
  normalize_ip_str " [2001:DB8:0:0:1:0:0:1%eth0] " = Some (bs "2001:db8::1:0:0:1") /\
  normalize_ip_str "2001:db8::1:0:0:1" = Some (bs "2001:db8::1:0:0:1").
Proof.
  assert (H : normalize_ip_str " [2001:DB8:0:0:1:0:0:1%eth0] " = Some (bs "2001:db8::1:0:0:1"))
    by (vm_compute; reflexivity).
  split; [exact H|]. exact (proj1 (normalize_ip_idempotent _ _ H)).
Defined.

(** A client that reaches the proxy directly from a public address cannot
    choose its own address: whatever the forwarding headers say,
    [resolve_client_ip] returns the socket's address. *)
Theorem resolve_client_ip_public_socket socket xff x_real_ip :
  is_public_routable_ip socket = true ->
  resolve_client_ip (Some socket) xff x_real_ip = normalize_ip_str socket /\
  is_Some (normalize_ip_str socket).
Proof.
  intros Hp. unfold resolve_client_ip. cbn [mbind option_bind].
  destruct (normalize_ip_str socket) as [ip|] eqn:En.
  - rewrite (proj2 (opt_filter_Some _ _ ip)); [by split|]. split; [done|].
    by rewrite (is_public_normalized socket).
  - unfold is_public_routable_ip in Hp. rewrite En in Hp. done.
Qed.

Lemma resolve_client_ip_public_socket_witness :
  is_public_routable_ip "203.0.113.9" = true /\
  resolve_client_ip (Some (bs "203.0.113.9")) (Some (bs "1.2.3.4")) (Some (bs "5.6.7.8"))
    = normalize_ip_str "203.0.113.9".
Proof.
  assert (H : is_public_routable_ip "203.0.113.9" = true) by (vm_compute; reflexivity).
  split; [exact H|].
  exact (proj1 (resolve_client_ip_public_socket _ (Some (bs "1.2.3.4")) (Some (bs "5.6.7.8")) H)).
Defined.
