(* ===== verification/GeoIp.v ===== *)
(** * GeoIP policy ([src/src/geoip.rs])

    The per-site country/ASN policy, its normal form, its evaluation against a
    lookup, the ASN range table loaded from a TSV file with its binary search,
    and the Kubernetes annotations that carry the policy. *)

From S2P Require Import Prelude RustStr Ip.

(** ** Data *)

Record GeoIpPolicy := mkGeoIpPolicy {
  geo_enabled : bool;
  allow_countries : list str;
  deny_countries : list str;
  allow_asns : list N;
  deny_asns : list N;
}.

Definition geoip_default : GeoIpPolicy := mkGeoIpPolicy false [] [] [] [].

#[export] Instance GeoIpPolicy_eq_dec : EqDecision GeoIpPolicy.
Proof. solve_decision. Defined.

Record GeoInfo := mkGeoInfo { country : option str; asn : option N }.

Inductive Decision : Type := Allow | BlockCountry | BlockAsn.

(** Ranges [(start, end, asn)] over [u32] and [u128] addresses. *)
Record AsnTsvDb := mkAsnTsvDb { tsv_v4 : list (N * N * N); tsv_v6 : list (N * N * N) }.

(** A MaxMind database is a parameter: what looking an address up in it yields
    ([None] when the lookup or the decoding fails or the field is missing). *)
Inductive AsnDb : Type :=
| Mmdb (reader : IpAddr -> option N)
| Tsv (db : AsnTsvDb).

Record GeoIpEngine := mkGeoIpEngine {
  country_db : option (IpAddr -> option str);
  asn_db : option AsnDb;
}.

(** ** The policy *)

Definition geo_lists_empty (p : GeoIpPolicy) : bool :=
  is_empty (allow_countries p) && is_empty (deny_countries p)
  && is_empty (allow_asns p) && is_empty (deny_asns p).

Definition geo_is_active (p : GeoIpPolicy) : bool :=
  geo_enabled p
  && (negb (is_empty (allow_countries p)) || negb (is_empty (deny_countries p))
      || negb (is_empty (allow_asns p)) || negb (is_empty (deny_asns p))).

Definition geo_is_default (p : GeoIpPolicy) : bool :=
  negb (geo_enabled p) && geo_lists_empty p.

Definition normalize_countries (l : list str) : list str :=
  sort_dedup_str (filter (fun c => negb (is_empty c)) ((fun c => to_ascii_uppercase (trim c)) <$> l)).

Definition geo_normalized (p : GeoIpPolicy) : GeoIpPolicy :=
  mkGeoIpPolicy (geo_enabled p)
    (normalize_countries (allow_countries p)) (normalize_countries (deny_countries p))
    (sort_dedup_N (allow_asns p)) (sort_dedup_N (deny_asns p)).

(** ** The ASN range table *)

Inductive TsvError : Type := MissingEnd (line : nat) | BadStart (line : nat) | BadEnd (line : nat).

(** [raw.lines()]: split at newlines, a trailing carriage return dropped, no
    empty line after a final newline. *)
Definition strip_cr (l : str) : str := default l (strip_suffix [x0d] l).
Definition lines (raw : str) : list str :=
  let ls := split_on x0a raw in
  strip_cr <$> (if bool_decide (last ls = Some []) then removelast ls else ls).

(** One line of the table: skipped, or a range of one of the two families. *)
Definition tsv_line (line_no : nat) (line : str) : result TsvError (option (IpAddr * IpAddr * N)) :=
  let line := trim line in
  if is_empty line || starts_with "#" line then Ok None
  else
    match split_on x09 line with
    | start_s :: end_s :: rest =>
      let asn := default 0 (parse_u32 (default (bs "0") (head rest))) in
      if asn =? 0 then Ok None
      else match parse_ip start_s with
           | None => Err (BadStart (S line_no))
           | Some start =>
             match parse_ip end_s with
             | None => Err (BadEnd (S line_no))
             | Some stop => Ok (Some (start, stop, asn))
             end
           end
    | _ => Err (MissingEnd (S line_no))
    end.

Fixpoint tsv_rows (line_no : nat) (ls : list str) : result TsvError AsnTsvDb :=
  match ls with
  | [] => Ok (mkAsnTsvDb [] [])
  | l :: ls' =>
    row ← tsv_line line_no l;
    db ← tsv_rows (S line_no) ls';
    mret match row with
         | Some (V4 a b c d, V4 a' b' c' d', n) =>
           mkAsnTsvDb ((ipv4_bits a b c d, ipv4_bits a' b' c' d', n) :: tsv_v4 db) (tsv_v6 db)
         | Some (V6 g, V6 g', n) => mkAsnTsvDb (tsv_v4 db) ((ipv6_bits g, ipv6_bits g', n) :: tsv_v6 db)
         | _ => db
         end
  end.

Definition range_start (r : N * N * N) : N := r.1.1.
Definition range_stop (r : N * N * N) : N := r.1.2.
Definition range_asn (r : N * N * N) : N := r.2.

Definition range_leb (a b : N * N * N) : bool := range_start a <=? range_start b.

(** [AsnTsvDb::load] on the file's text. *)
Definition tsv_load (raw : str) : result TsvError AsnTsvDb :=
  db ← tsv_rows 0 (lines raw);
  mret (mkAsnTsvDb (sort_by range_leb (tsv_v4 db)) (sort_by range_leb (tsv_v6 db))).

(** The search [AsnTsvDb::lookup] writes once per address family. *)
Definition lookup_ranges (rs : list (N * N * N)) (key : N) : option N :=
  let idx := partition_point (fun r => range_start r <=? key) rs in
  match idx with
  | O => None
  | S i =>
    match rs !! i with
    | Some r => if (range_start r <=? key) && (key <=? range_stop r) then Some (range_asn r) else None
    | None => None
    end
  end.

Definition tsv_lookup (db : AsnTsvDb) (addr : IpAddr) : option N :=
  match addr with
  | V4 a b c d => lookup_ranges (tsv_v4 db) (ipv4_bits a b c d)
  | V6 g => lookup_ranges (tsv_v6 db) (ipv6_bits g)
  end.

Definition asn_lookup (db : AsnDb) (addr : IpAddr) : option N :=
  match db with
  | Mmdb reader => reader addr
  | Tsv db => tsv_lookup db addr
  end.

(** ** The engine *)

Definition country_loaded (e : GeoIpEngine) : bool := is_some (country_db e).
Definition asn_loaded (e : GeoIpEngine) : bool := is_some (asn_db e).

Definition engine_lookup (e : GeoIpEngine) (ip : str) : option GeoInfo :=
  addr ← parse_ip (trim ip);
  let c := reader ← country_db e; to_ascii_uppercase <$> reader addr in
  let n := db ← asn_db e; asn_lookup db addr in
  match c, n with
  | None, None => None
  | _, _ => Some (mkGeoInfo c n)
  end.

Definition geo_lookup (e : GeoIpEngine) (ip : str) : option GeoInfo :=
  ip ← normalize_ip_str ip; engine_lookup e ip.

(** [evaluate]; the process-wide engine is an argument. *)
Definition geo_evaluate (e : GeoIpEngine) (p : GeoIpPolicy) (info : option GeoInfo) : Decision :=
  if negb (geo_is_active p) then Allow
  else
    let ctry := info ≫= country in
    let num := info ≫= asn in
    let denied_country :=
      negb (is_empty (deny_countries p)) &&
      match ctry with Some code => bool_decide (code ∈ deny_countries p) | None => false end in
    let outside_countries :=
      negb (is_empty (allow_countries p)) &&
      match ctry with
      | Some code => negb (bool_decide (code ∈ allow_countries p))
      | None => country_loaded e
      end in
    let denied_asn :=
      negb (is_empty (deny_asns p)) &&
      match num with Some n => bool_decide (n ∈ deny_asns p) | None => false end in
    let outside_asns :=
      negb (is_empty (allow_asns p)) &&
      match num with
      | Some n => negb (bool_decide (n ∈ allow_asns p))
      | None => asn_loaded e
      end in
    if denied_country then BlockCountry
    else if outside_countries then BlockCountry
    else if denied_asn then BlockAsn
    else if outside_asns then BlockAsn
    else Allow.

Definition evaluate_ip (e : GeoIpEngine) (p : GeoIpPolicy) (ip : option str) : Decision :=
  if negb (geo_is_active p) then Allow
  else
    let normalized := ip ≫= normalize_ip_str in
    match normalized with
    | Some ip =>
      if negb (is_public_routable_ip ip) then Allow
      else geo_evaluate e p (geo_lookup e ip)
    | None => geo_evaluate e p None
    end.

(** ** Annotations (a [BTreeMap<String, String>]) *)

Definition ann_geo_enabled : str := "proxy.pertisk.tech/geoip-enabled".
Definition ann_geo_allow_countries : str := "proxy.pertisk.tech/geoip-allow-countries".
Definition ann_geo_deny_countries : str := "proxy.pertisk.tech/geoip-deny-countries".
Definition ann_geo_allow_asns : str := "proxy.pertisk.tech/geoip-allow-asns".
Definition ann_geo_deny_asns : str := "proxy.pertisk.tech/geoip-deny-asns".
Definition ann_security_exempt : str := "proxy.pertisk.tech/security-exempt".
Definition ann_geoip_exempt : str := "proxy.pertisk.tech/geoip-exempt".

Definition geo_annotation_keys : list str :=
  [ann_geo_enabled; ann_geo_allow_countries; ann_geo_deny_countries; ann_geo_allow_asns; ann_geo_deny_asns].

Definition truthy (v : str) : bool :=
  let v := to_ascii_lowercase (trim v) in
  (v =s "1") || (v =s "true") || (v =s "yes") || (v =s "on").

Definition flag_true (m : gmap str str) (key : str) : bool := default false (truthy <$> m !! key).

Definition is_list_sep (c : byte) : bool :=
  bool_decide (c = ","%byte) || bool_decide (c = " "%byte) || bool_decide (c = ";"%byte).

Definition parse_countries (raw : str) : list str := normalize_countries (split is_list_sep raw).

Definition is_as_letter (c : byte) : bool :=
  bool_decide (c = "A"%byte) || bool_decide (c = "S"%byte)
  || bool_decide (c = "a"%byte) || bool_decide (c = "s"%byte).

Definition parse_asns (raw : str) : list N :=
  sort_dedup_N (omap (fun part => parse_u32 (trim_start_matches is_as_letter (trim part)))
                  (split is_list_sep raw)).

Definition geo_policy_from_annotations (annotations : option (gmap str str)) : GeoIpPolicy :=
  match annotations with
  | None => geoip_default
  | Some m =>
    if flag_true m ann_security_exempt || flag_true m ann_geoip_exempt then geoip_default
    else
      let ac := default [] (parse_countries <$> m !! ann_geo_allow_countries) in
      let dc := default [] (parse_countries <$> m !! ann_geo_deny_countries) in
      let aa := default [] (parse_asns <$> m !! ann_geo_allow_asns) in
      let da := default [] (parse_asns <$> m !! ann_geo_deny_asns) in
      geo_normalized
        (mkGeoIpPolicy
           (flag_true m ann_geo_enabled || negb (is_empty ac) || negb (is_empty dc)
            || negb (is_empty aa) || negb (is_empty da))
           ac dc aa da)
  end.

Definition insert_nonempty {A} (key : str) (l : list A) (v : str) (m : gmap str str) : gmap str str :=
  if is_empty l then m else <[key := v]> m.

Definition geo_apply_annotations (m : gmap str str) (policy : GeoIpPolicy) : gmap str str :=
  let m := foldr delete m geo_annotation_keys in
  let p := geo_normalized policy in
  if geo_is_default p then m
  else
    let m := if geo_enabled p then <[ann_geo_enabled := bs "true"]> m else m in
    let m := insert_nonempty ann_geo_allow_countries (allow_countries p) (join "," (allow_countries p)) m in
    let m := insert_nonempty ann_geo_deny_countries (deny_countries p) (join "," (deny_countries p)) m in
    let m := insert_nonempty ann_geo_allow_asns (allow_asns p) (join "," (show_N <$> allow_asns p)) m in
    insert_nonempty ann_geo_deny_asns (deny_asns p) (join "," (show_N <$> deny_asns p)) m.

(** ** Lemmas: normal forms *)

Lemma normalize_code_idemp c :
  to_ascii_uppercase (trim (to_ascii_uppercase (trim c))) = to_ascii_uppercase (trim c).
Proof. by rewrite trim_uppercase, to_ascii_uppercase_idemp, trim_idemp. Qed.

(** A country code in normal form. *)
Definition code_normal (c : str) : Prop := c <> [] /\ to_ascii_uppercase (trim c) = c.

Lemma elem_of_normalize_countries c l :
  c ∈ normalize_countries l <-> c <> [] /\ exists c', c' ∈ l /\ c = to_ascii_uppercase (trim c').
Proof.
  unfold normalize_countries. rewrite elem_of_sort_dedup_str, list_elem_of_filter, list_elem_of_fmap.
  rewrite Is_true_true, negb_true_iff, is_empty_false. by setoid_rewrite (and_comm (_ = _)).
Qed.

Lemma normalize_countries_normal l : Forall code_normal (normalize_countries l).
Proof.
  rewrite Forall_forall. intros c (Hne & c' & _ & ->)%elem_of_normalize_countries.
  split; [done|]. apply normalize_code_idemp.
Qed.

Lemma normal_filter_map l : Forall code_normal l ->
  filter (fun c => negb (is_empty c)) ((fun c => to_ascii_uppercase (trim c)) <$> l) = l.
Proof.
  induction 1 as [|c l [Hne Hc] HF IH]; [done|]. rewrite fmap_cons, Hc, filter_cons_True.
  - by rewrite IH.
  - rewrite Is_true_true, negb_true_iff. by apply is_empty_false.
Qed.

Lemma normalize_countries_idemp l : normalize_countries (normalize_countries l) = normalize_countries l.
Proof.
  unfold normalize_countries at 1. rewrite normal_filter_map by apply normalize_countries_normal.
  apply sort_dedup_str_idemp.
Qed.

Lemma geo_normalized_idemp p : geo_normalized (geo_normalized p) = geo_normalized p.
Proof.
  unfold geo_normalized. simpl. by rewrite !normalize_countries_idemp, !sort_dedup_N_idemp.
Qed.

(** ** Lemmas: the annotation lists round-trip *)

Definition code_plain (c : str) : Prop := Forall (fun b => is_list_sep b = false) c.

Lemma digit_not_sep b : is_ascii_digit b = true -> is_list_sep b = false /\ is_as_letter b = false.
Proof. destruct b; vm_compute; intros H; try discriminate H; done. Qed.

Lemma upper_sep b : is_list_sep (upper_byte b) = is_list_sep b.
Proof. destruct b; reflexivity. Qed.

Lemma trim_sub_elem b s : b ∈ trim s -> b ∈ s.
Proof.
  unfold trim, trim_end, trim_start. set (t := trim_with ws1 ws2 ws3 s).
  destruct (trim_with_suffix ws1 ws2 ws3 s) as [p Hp].
  destruct (trim_with_suffix ws1 (fun a b => ws2 b a) (fun a b c => ws3 c b a) (reverse t)) as [q Hq].
  rewrite elem_of_reverse. intros Hb. rewrite Hp. apply elem_of_app. right. fold t.
  rewrite <- (reverse_involutive t), Hq, elem_of_reverse. apply elem_of_app. by right.
Qed.

Lemma normalize_countries_plain l : Forall code_plain l -> Forall code_plain (normalize_countries l).
Proof.
  unfold code_plain. rewrite !Forall_forall. intros H c (_ & c' & Hc' & ->)%elem_of_normalize_countries.
  rewrite Forall_forall. intros b (b' & -> & Hb')%list_elem_of_fmap. rewrite upper_sep.
  specialize (H c' Hc'). rewrite Forall_forall in H. apply H. by apply trim_sub_elem.
Qed.

Lemma parse_countries_join l :
  normalize_countries l = l -> l <> [] -> Forall code_plain l -> parse_countries (join "," l) = l.
Proof.
  intros Hn Hne HF. unfold parse_countries.
  rewrite (split_join is_list_sep ","%byte) by done. done.
Qed.

Lemma parse_asn_show n : n <= u32_max ->
  parse_u32 (trim_start_matches is_as_letter (trim (show_N n))) = Some n.
Proof.
  intros Hn. rewrite trim_show_N, trim_start_matches_none; [by apply parse_show_N|].
  eapply Forall_impl; [apply show_N_digits|]. intros b. apply digit_not_sep.
Qed.

Lemma omap_parse_show l : Forall (fun n => n <= u32_max) l ->
  omap (fun part => parse_u32 (trim_start_matches is_as_letter (trim part))) (show_N <$> l) = l.
Proof.
  induction 1 as [|n l Hn HF IH]; [done|]. rewrite fmap_cons. simpl. rewrite parse_asn_show by done.
  by f_equal.
Qed.

Lemma parse_asns_join l :
  sort_dedup_N l = l -> l <> [] -> Forall (fun n => n <= u32_max) l ->
  parse_asns (join "," (show_N <$> l)) = l.
Proof.
  intros Hs Hne HF. unfold parse_asns. rewrite (split_join is_list_sep ","%byte).
  - by rewrite omap_parse_show.
  - done.
  - by destruct l.
  - apply Forall_fmap, Forall_true. intros n. eapply Forall_impl; [apply show_N_digits|].
    intros b. apply digit_not_sep.
Qed.

(** What a policy that crosses the annotations must satisfy: codes without a
    separator inside, ASNs of the type's width. *)
Definition geo_printable (p : GeoIpPolicy) : Prop :=
  Forall code_plain (allow_countries p) /\ Forall code_plain (deny_countries p) /\
  Forall (fun n => n <= u32_max) (allow_asns p) /\ Forall (fun n => n <= u32_max) (deny_asns p).

Lemma geo_normalized_printable p : geo_printable p -> geo_printable (geo_normalized p).
Proof.
  intros (H1 & H2 & H3 & H4). split_and!; simpl; try by apply normalize_countries_plain.
  - rewrite Forall_forall in H3 |- *. intros n Hn. apply H3. by apply elem_of_sort_dedup_N.
  - rewrite Forall_forall in H4 |- *. intros n Hn. apply H4. by apply elem_of_sort_dedup_N.
Qed.

(** Reading one list annotation back, present or absent. *)
Lemma lookup_insert_nonempty {A B} (parse : str -> list B) key (l : list A) (l' : list B) v m :
  m !! key = None -> (l <> [] -> parse v = l') -> (l = [] -> l' = []) ->
  default [] (parse <$> insert_nonempty key l v m !! key) = l'.
Proof.
  intros Hm Hp He. unfold insert_nonempty. destruct l as [|x l]; simpl.
  - rewrite Hm. symmetry. by apply He.
  - rewrite lookup_insert_eq. by apply Hp.
Qed.

Lemma lookup_insert_nonempty_ne {A} key k (l : list A) v m :
  key <> k -> insert_nonempty key l v m !! k = m !! k.
Proof. intros H. unfold insert_nonempty. case_if; [done|by rewrite lookup_insert_ne]. Qed.

(** The five deletions leave every other key as it was. *)
Lemma foldr_delete_other (m : gmap str str) ks k : k ∉ ks -> foldr delete m ks !! k = m !! k.
Proof.
  induction ks as [|k' ks IH]; [done|]. intros [Hne Hk]%not_elem_of_cons. simpl.
  rewrite lookup_delete_ne by done. by apply IH.
Qed.

Lemma foldr_delete_in (m : gmap str str) ks k : k ∈ ks -> foldr delete m ks !! k = None.
Proof.
  induction ks as [|k' ks IH]; [by intros ?%elem_of_nil|]. intros Hk. simpl.
  destruct (decide (k = k')) as [->|Hne]; [by rewrite lookup_delete_eq|].
  rewrite lookup_delete_ne by done. apply IH. by apply elem_of_cons in Hk as [?|?].
Qed.

(** Two annotation keys are different strings. *)
Ltac key_ne := let H := fresh in intros H; vm_compute in H; discriminate H.

Lemma geo_apply_other m p k : k ∉ geo_annotation_keys -> geo_apply_annotations m p !! k = m !! k.
Proof.
  intros Hk. unfold geo_apply_annotations. pose proof (foldr_delete_other m _ k Hk) as Hm.
  unfold geo_annotation_keys in Hk. rewrite !not_elem_of_cons in Hk. destruct_and!.
  case_if; [done|]. rewrite !lookup_insert_nonempty_ne by congruence.
  case_if; [rewrite lookup_insert_ne by congruence|]; done.
Qed.

(** The five keys after [apply_annotations]. *)
Lemma geo_apply_read m p : let q := geo_normalized p in let m' := geo_apply_annotations m p in
  geo_printable p ->
  flag_true m' ann_geo_enabled = geo_enabled q /\
  default [] (parse_countries <$> m' !! ann_geo_allow_countries) = allow_countries q /\
  default [] (parse_countries <$> m' !! ann_geo_deny_countries) = deny_countries q /\
  default [] (parse_asns <$> m' !! ann_geo_allow_asns) = allow_asns q /\
  default [] (parse_asns <$> m' !! ann_geo_deny_asns) = deny_asns q.
Proof.
  intros q m' (H1 & H2 & H3 & H4)%geo_normalized_printable. unfold m', geo_apply_annotations.
  pose proof (fun k => foldr_delete_in m geo_annotation_keys k) as Hdel. fold q.
  pose proof (geo_normalized_idemp p) as Hid. fold q in Hid, H1, H2, H3, H4.
  assert (Hc : normalize_countries (allow_countries q) = allow_countries q) by (by rewrite <- Hid at 2).
  assert (Hd : normalize_countries (deny_countries q) = deny_countries q) by (by rewrite <- Hid at 2).
  assert (Ha : sort_dedup_N (allow_asns q) = allow_asns q) by (by rewrite <- Hid at 2).
  assert (Hb : sort_dedup_N (deny_asns q) = deny_asns q) by (by rewrite <- Hid at 2).
  destruct (geo_is_default q) eqn:Edef.
  - unfold geo_is_default, geo_lists_empty in Edef. bsimp. unfold flag_true.
    rewrite !Hdel by set_solver. rewrite !is_empty_nil in *. repeat split; by symmetry.
  - unfold flag_true. split_and!.
    + rewrite !lookup_insert_nonempty_ne by key_ne.
      destruct (geo_enabled q); [by rewrite lookup_insert_eq|by rewrite Hdel by set_solver].
    + rewrite !(lookup_insert_nonempty_ne _ ann_geo_allow_countries) by key_ne.
      apply lookup_insert_nonempty; [| |done].
      * case_if; [rewrite lookup_insert_ne by key_ne|]; apply Hdel; set_solver.
      * intros. by apply parse_countries_join.
    + rewrite !(lookup_insert_nonempty_ne _ ann_geo_deny_countries) by key_ne.
      apply lookup_insert_nonempty; [| |done].
      * rewrite lookup_insert_nonempty_ne by key_ne.
        case_if; [rewrite lookup_insert_ne by key_ne|]; apply Hdel; set_solver.
      * intros. by apply parse_countries_join.
    + rewrite !(lookup_insert_nonempty_ne _ ann_geo_allow_asns) by key_ne.
      apply lookup_insert_nonempty; [| |done].
      * rewrite !lookup_insert_nonempty_ne by key_ne.
        case_if; [rewrite lookup_insert_ne by key_ne|]; apply Hdel; set_solver.
      * intros. by apply parse_asns_join.
    + apply lookup_insert_nonempty; [| |done].
      * rewrite !lookup_insert_nonempty_ne by key_ne.
        case_if; [rewrite lookup_insert_ne by key_ne|]; apply Hdel; set_solver.
      * intros. by apply parse_asns_join.
Qed.

(** ** Lemmas: the range table *)

Definition range_contains (r : N * N * N) (key : N) : Prop := range_start r <= key <= range_stop r.

(** The table an ip2asn file describes: no inverted range, no two ranges that overlap. *)
Definition ranges_disjoint (rs : list (N * N * N)) : Prop :=
  (forall r, r ∈ rs -> range_start r <= range_stop r) /\
  (forall r1 r2, r1 ∈ rs -> r2 ∈ rs -> r1 = r2 \/ range_stop r1 < range_start r2 \/ range_stop r2 < range_start r1).

Definition ranges_sorted (rs : list (N * N * N)) : Prop :=
  StronglySorted (fun a b => range_leb a b = true) rs.

Lemma ranges_sorted_lookup rs i j a b :
  ranges_sorted rs -> (i <= j)%nat -> rs !! i = Some a -> rs !! j = Some b ->
  range_start a <= range_start b.
Proof.
  intros HS. revert i j. induction HS as [|x l HS IH HF]; intros [|i] [|j] Hij; simpl; try done; try lia.
  - intros [= <-] [= <-]. lia.
  - intros [= <-] Hb. rewrite Forall_forall in HF. apply N.leb_le. apply HF.
    apply list_elem_of_lookup. by exists j.
  - intros Ha Hb. by apply (IH i j); [lia|..].
Qed.

Lemma ranges_partitioned rs key : ranges_sorted rs ->
  partitioned (fun r => range_start r <=? key) rs.
Proof.
  intros HS i j x y Hij Hx Hy Hpy. apply N.leb_le in Hpy. apply N.leb_le.
  pose proof (ranges_sorted_lookup rs i j x y HS Hij Hx Hy). lia.
Qed.

Lemma lookup_ranges_sound rs key n :
  lookup_ranges rs key = Some n -> exists r, r ∈ rs /\ range_contains r key /\ range_asn r = n.
Proof.
  unfold lookup_ranges. destruct (partition_point _ _) as [|i]; [done|].
  destruct (rs !! i) as [r|] eqn:E; [|done]. case_if; [|done]. bsimp. intros [= <-].
  exists r. split_and!; [|done..]. by apply list_elem_of_lookup_2 in E.
Qed.

Lemma lookup_ranges_complete rs key r :
  ranges_sorted rs -> ranges_disjoint rs -> r ∈ rs -> range_contains r key ->
  lookup_ranges rs key = Some (range_asn r).
Proof.
  intros HS [Hwf Hdis] Hr [Hlo Hhi]. unfold lookup_ranges.
  rewrite partition_point_spec by (by apply ranges_partitioned).
  apply list_elem_of_lookup in Hr as Hr'. destruct Hr' as [j Hj].
  set (p := fun r => range_start r <=? key). set (k := count_while p rs).
  assert (Hjk : (j < k)%nat).
  { destruct (decide (j < k)%nat) as [|Hn]; [done|exfalso].
    destruct (lookup_lt_is_Some_2 rs k) as [y Hy]; [apply lookup_lt_Some in Hj; lia|].
    pose proof (count_while_at p rs y Hy) as Hf.
    pose proof (ranges_partitioned rs key HS k j y r ltac:(lia) Hy Hj) as Ht.
    unfold p in Hf. simpl in Ht. rewrite Ht in Hf; [done|]. by apply N.leb_le. }
  destruct k as [|i] eqn:Ek; [lia|].
  pose proof (count_while_le p rs). fold k in H. rewrite Ek in H.
  destruct (lookup_lt_is_Some_2 rs i) as [r' Hr']; [lia|]. rewrite Hr'.
  assert (Hp' : p r' = true) by (apply (count_while_before p rs i); [fold k; lia|done]).
  unfold p in Hp'. apply N.leb_le in Hp'.
  pose proof (ranges_sorted_lookup rs j i r r' HS ltac:(lia) Hj Hr') as Hle.
  apply list_elem_of_lookup_2 in Hr' as Hin. specialize (Hwf r' Hin).
  destruct (Hdis r r' Hr Hin) as [<-|[?|?]]; [|lia|lia].
  rewrite (proj2 (N.leb_le _ _)), (proj2 (N.leb_le _ _)) by lia. done.
Qed.

Lemma range_leb_total a b : range_leb a b = true \/ range_leb b a = true.
Proof. apply N_leb_total. Qed.

Lemma range_leb_trans : Transitive (fun a b => range_leb a b = true).
Proof. intros a b c. unfold range_leb. rewrite !N.leb_le. lia. Qed.

Lemma tsv_load_sorted raw db :
  tsv_load raw = Ok db -> ranges_sorted (tsv_v4 db) /\ ranges_sorted (tsv_v6 db).
Proof.
  unfold tsv_load. destruct (tsv_rows 0 (lines raw)) as [rows|]; [|done]. intros [= <-].
  split; apply sort_by_sorted; (apply range_leb_total || apply range_leb_trans).
Qed.

(** ** Properties *)

(** Whether the country (the ASN) part of a policy rejects a lookup result. *)
Definition country_blocked (e : GeoIpEngine) (p : GeoIpPolicy) (c : option str) : Prop :=
  match c with
  | Some code => code ∈ deny_countries p \/ (allow_countries p <> [] /\ code ∉ allow_countries p)
  | None => allow_countries p <> [] /\ is_Some (country_db e)
  end.
Definition asn_blocked (e : GeoIpEngine) (p : GeoIpPolicy) (n : option N) : Prop :=
  match n with
  | Some n => n ∈ deny_asns p \/ (allow_asns p <> [] /\ n ∉ allow_asns p)
  | None => allow_asns p <> [] /\ is_Some (asn_db e)
  end.

(** The GeoIP decision, in full: with an active policy a request is blocked
    by country exactly when its country is denied, or is outside a non-empty
    allow list, or is unknown while an allow list and a country database exist;
    by ASN under the same conditions when the country did not block; and
    allowed otherwise.  An unknown country or ASN passes when the database that
    would know it is not loaded (fail-open). *)
Theorem geo_evaluate_spec e p info :
  geo_is_active p = true ->
  let c := info ≫= country in let n := info ≫= asn in
  (geo_evaluate e p info = BlockCountry <-> country_blocked e p c) /\
  (geo_evaluate e p info = BlockAsn <-> ~ country_blocked e p c /\ asn_blocked e p n) /\
  (geo_evaluate e p info = Allow <-> ~ country_blocked e p c /\ ~ asn_blocked e p n).
Proof.
  intros Ha c n. unfold geo_evaluate. rewrite Ha. cbn [negb]. fold c n.
  assert (Hne : forall A (l : list A) (x : A), x ∈ l -> l <> []) by (intros A l x Hx ->; by apply elem_of_nil in Hx).
  set (b1 := _ && match c with Some _ => bool_decide _ | None => _ end).
  set (b2 := _ && match c with Some _ => negb _ | None => _ end).
  set (b3 := _ && match n with Some _ => bool_decide _ | None => _ end).
  set (b4 := _ && match n with Some _ => negb _ | None => _ end).
  assert (Hc : b1 || b2 = true <-> country_blocked e p c).
  { unfold b1, b2, country_blocked, country_loaded. rewrite orb_true_iff, !andb_true_iff, !negb_true_iff, !is_empty_false.
    destruct c as [code|]; rewrite ?bool_decide_eq_true, ?negb_true_iff, ?bool_decide_eq_false, ?is_some_true.
    - split; [tauto|]. intros [H|?]; [left|tauto]. split; [by eapply Hne|done].
    - split; [intros [[_ ?]|?]; done|tauto]. }
  assert (Hn : b3 || b4 = true <-> asn_blocked e p n).
  { unfold b3, b4, asn_blocked, asn_loaded. rewrite orb_true_iff, !andb_true_iff, !negb_true_iff, !is_empty_false.
    destruct n as [num|]; rewrite ?bool_decide_eq_true, ?negb_true_iff, ?bool_decide_eq_false, ?is_some_true.
    - split; [tauto|]. intros [H|?]; [left|tauto]. split; [by eapply Hne|done].
    - split; [intros [[_ ?]|?]; done|tauto]. }
  rewrite <- Hc, <- Hn. clearbody b1 b2 b3 b4. clear.
  destruct b1, b2, b3, b4; simpl; repeat split; intros; destruct_and?; try done; tauto.
Qed.

Lemma geo_evaluate_spec_witness :
  let p := mkGeoIpPolicy true [bs "TH"; bs "US"] [] [] [13335] in
  geo_evaluate (mkGeoIpEngine None None) p (Some (mkGeoInfo (Some (bs "TH")) (Some 13335))) = BlockAsn.
Proof.
  intros p.
  refine (proj2 (proj1 (proj2 (geo_evaluate_spec (mkGeoIpEngine None None) p
    (Some (mkGeoInfo (Some (bs "TH")) (Some 13335))) eq_refl))) _).
  split; simpl; [|left; set_solver].
  intros [H|[_ H]]; [by apply elem_of_nil in H|]. apply H. set_solver.
Defined.

(** The policy survives its Kubernetes annotations: reading back what
    [apply_annotations] wrote gives the policy's normal form (sorted upper-case
    codes, sorted ASNs), with [enabled] forced on when any list is non-empty,
    and every foreign annotation is left alone. *)
Theorem geo_annotations_roundtrip m p :
  geo_printable p ->
  flag_true m ann_security_exempt = false -> flag_true m ann_geoip_exempt = false ->
  let q := geo_normalized p in
  geo_policy_from_annotations (Some (geo_apply_annotations m p)) =
    mkGeoIpPolicy (geo_enabled q || negb (geo_lists_empty q))
      (allow_countries q) (deny_countries q) (allow_asns q) (deny_asns q) /\
  (forall k, k ∉ geo_annotation_keys -> geo_apply_annotations m p !! k = m !! k).
Proof.
  intros Hp He1 He2 q. split; [|apply geo_apply_other].
  unfold geo_policy_from_annotations, flag_true.
  rewrite (geo_apply_other m p ann_security_exempt), (geo_apply_other m p ann_geoip_exempt)
    by (apply (bool_decide_eq_false_1 _); vm_compute; reflexivity).
  fold (flag_true m ann_security_exempt) (flag_true m ann_geoip_exempt). rewrite He1, He2. cbn [orb].
  destruct (geo_apply_read m p Hp) as (E0 & E1 & E2 & E3 & E4). fold q in E0, E1, E2, E3, E4.
  unfold flag_true in E0. rewrite E0, E1, E2, E3, E4.
  transitivity (geo_normalized (mkGeoIpPolicy (geo_enabled q || negb (geo_lists_empty q))
    (allow_countries q) (deny_countries q) (allow_asns q) (deny_asns q))).
  - f_equal. f_equal. unfold geo_lists_empty. rewrite !negb_andb. by rewrite !orb_assoc.
  - pose proof (geo_normalized_idemp p) as Hid. fold q in Hid. unfold geo_normalized in *. simpl.
    injection Hid as Hc Hd Ha Hb. unfold q in *. simpl in *. by rewrite Hc, Hd, Ha, Hb.
Qed.

Lemma geo_annotations_roundtrip_witness :
  let p := mkGeoIpPolicy true [bs "us"; bs "th"] [] [13335; 7] [] in
  geo_policy_from_annotations (Some (geo_apply_annotations ∅ p)) =
    mkGeoIpPolicy true [bs "TH"; bs "US"] [] [7; 13335] [].
Proof.
  intros p.
  assert (H : geo_printable p).
  { unfold geo_printable, code_plain. repeat split; simpl; repeat apply Forall_cons_2;
      repeat apply Forall_nil_2; try reflexivity; vm_compute; try discriminate; auto. }
  exact (proj1 (geo_annotations_roundtrip ∅ p H eq_refl eq_refl)).
Defined.

(** Finding: a disabled policy that still has lists does not stay disabled.
    [apply_annotations] writes its lists without the [geoip-enabled] key, and
    [policy_from_annotations] turns the policy on because a list is present, so
    switching GeoIP off in the console blocks the listed countries again. *)
Theorem geo_disabled_policy_reenabled :
  let p := mkGeoIpPolicy false [] [bs "CN"] [] [] in
  let p' := geo_policy_from_annotations (Some (geo_apply_annotations ∅ p)) in
  let info := Some (mkGeoInfo (Some (bs "CN")) None) in
  let e := mkGeoIpEngine (Some (fun _ => None)) None in
  geo_evaluate e p info = Allow /\ geo_evaluate e p' info = BlockCountry.
Proof. vm_compute. split; reflexivity. Qed.

(** The ASN table is searched correctly: for a table loaded from a file whose
    ranges are well formed and do not overlap, the binary search returns the
    ASN of the range that contains the address, and nothing when no range does. *)
Theorem tsv_lookup_correct raw db key n :
  tsv_load raw = Ok db -> ranges_disjoint (tsv_v4 db) -> ranges_disjoint (tsv_v6 db) ->
  (lookup_ranges (tsv_v4 db) key = Some n <->
     exists r, r ∈ tsv_v4 db /\ range_contains r key /\ range_asn r = n) /\
  (lookup_ranges (tsv_v6 db) key = Some n <->
     exists r, r ∈ tsv_v6 db /\ range_contains r key /\ range_asn r = n).
Proof.
  intros Hl Hd4 Hd6. destruct (tsv_load_sorted raw db Hl) as [H4 H6].
  split; (split; [apply lookup_ranges_sound|]); intros (r & Hr & Hc & <-); by apply lookup_ranges_complete.
Qed.

Definition tsv_sample : str :=
  bs "8.8.8.0" ++ [x09] ++ bs "8.8.8.255" ++ [x09] ++ bs "15169" ++ [x0a] ++
  bs "1.0.0.0" ++ [x09] ++ bs "1.0.0.255" ++ [x09] ++ bs "13335" ++ [x09] ++ bs "US" ++ [x0a].
Definition tsv_sample_db : AsnTsvDb :=
  mkAsnTsvDb [(16777216, 16777471, 13335); (134744064, 134744319, 15169)] [].

Lemma tsv_lookup_correct_witness :
  tsv_load tsv_sample = Ok tsv_sample_db /\ lookup_ranges (tsv_v4 tsv_sample_db) 134744072 = Some 15169.
Proof.
  assert (H : tsv_load tsv_sample = Ok tsv_sample_db) by (vm_compute; reflexivity).
  split; [exact H|].
  refine (proj2 (proj1 (tsv_lookup_correct tsv_sample tsv_sample_db 134744072 15169 H _ _)) _).
  - split.
    + intros r Hr. unfold tsv_sample_db in Hr. simpl in Hr.
      repeat (apply elem_of_cons in Hr as [->|Hr]; [vm_compute; discriminate|]). by apply elem_of_nil in Hr.
    + intros r1 r2 H1 H2. simpl in H1, H2.
      repeat (apply elem_of_cons in H1 as [->|H1]);
        repeat (apply elem_of_cons in H2 as [->|H2]);
        try (by apply elem_of_nil in H1); try (by apply elem_of_nil in H2); vm_compute; auto.
  - split; [intros r Hr|intros r1 r2 Hr _]; by apply elem_of_nil in Hr.
  - exists (134744064, 134744319, 15169). split_and!; [set_solver|vm_compute; split; discriminate|reflexivity].
Defined.
