(* ===== verification/Waf.v ===== *)
(** * WAF rules ([src/src/security/waf.rs])

    The request view shared by the security components, the rule and policy
    types with their normal form, percent decoding, rule matching and the
    first-match evaluation over custom and built-in rules. *)

From S2P Require Import Prelude RustStr.

(** ** Data *)

(** [RequestView] of [security/mod.rs]. *)
Record RequestView := mkRequestView {
  rv_method : str;
  rv_path : str;
  rv_query : str;
  rv_user_agent : option str;
  rv_accept : option str;
  rv_accept_language : option str;
  rv_cookie : option str;
  rv_client_ip : option str;
}.

Inductive WafAction : Type := WafBlock | WafLog | WafChallenge.

#[export] Instance WafAction_eq_dec : EqDecision WafAction.
Proof. solve_decision. Defined.

Record WafRule := mkWafRule {
  rule_id : str;
  rule_enabled : bool;
  rule_action : WafAction;
  rule_methods : list str;
  path_contains : option str;
  query_contains : option str;
  ua_contains : option str;
}.

#[export] Instance WafRule_eq_dec : EqDecision WafRule.
Proof. solve_decision. Defined.

Record WafPolicy := mkWafPolicy {
  waf_enabled : bool;
  use_builtin_rules : bool;
  waf_rules : list WafRule;
}.

Definition waf_default : WafPolicy := mkWafPolicy false false [].

Record WafHit := mkWafHit { hit_rule_id : str; hit_action : WafAction }.

(** ** The policy *)

Definition waf_is_active (p : WafPolicy) : bool :=
  waf_enabled p && (use_builtin_rules p || existsb rule_enabled (waf_rules p)).

Definition waf_is_default (p : WafPolicy) : bool :=
  negb (waf_enabled p) && negb (use_builtin_rules p) && is_empty (waf_rules p).

Definition normalize_rule (r : WafRule) : WafRule :=
  mkWafRule (trim (rule_id r)) (rule_enabled r) (rule_action r)
    (filter (fun m => negb (is_empty m)) ((fun m => to_ascii_uppercase (trim m)) <$> rule_methods r))
    (trim <$> path_contains r) (trim <$> query_contains r) (trim <$> ua_contains r).

Definition waf_normalized (p : WafPolicy) : WafPolicy :=
  mkWafPolicy (waf_enabled p) (use_builtin_rules p)
    (filter (fun r => negb (is_empty (rule_id r))) (normalize_rule <$> waf_rules p)).

(** ** Built-in rules *)

Definition builtin_rules : list WafRule :=
  [ mkWafRule "builtin-path-traversal" true WafBlock [] (Some (bs "../")) None None;
    mkWafRule "builtin-path-traversal-encoded" true WafBlock [] (Some (bs "..%2f")) None None;
    mkWafRule "builtin-null-byte-path" true WafBlock [] (Some (bs "%00")) None None;
    mkWafRule "builtin-null-byte-query" true WafBlock [] None (Some (bs "%00")) None;
    mkWafRule "builtin-sqli-union" true WafBlock [] None (Some (bs "union select")) None;
    mkWafRule "builtin-sqli-or" true WafBlock [] None (Some (bs "' or ")) None;
    mkWafRule "builtin-xss-script" true WafBlock [] None (Some (bs "<script")) None ].

(** ** Matching *)

Definition contains_ci (haystack needle : str) : bool :=
  negb (is_empty needle) && contains (to_ascii_lowercase needle) (to_ascii_lowercase haystack).

Definition from_hex (b : byte) : option N :=
  let n := b2n b in
  if (48 <=? n) && (n <=? 57) then Some (n - 48)
  else if (97 <=? n) && (n <=? 102) then Some (n - 97 + 10)
  else if (65 <=? n) && (n <=? 70) then Some (n - 65 + 10)
  else None.

(** The loop of [percent_decode_lossy] over the bytes of the input. *)
Fixpoint percent_decode_bytes (s : str) : str :=
  match s with
  | [] => []
  | c :: s1 =>
    if decide (c = "+"%byte) then " "%byte :: percent_decode_bytes s1
    else if decide (c = "%"%byte) then
      match s1 with
      | h1 :: h2 :: rest =>
        match from_hex h1, from_hex h2 with
        | Some a, Some b => n2b (N.lor (N.shiftl a 4) b) :: percent_decode_bytes rest
        | _, _ => c :: percent_decode_bytes s1
        end
      | _ => c :: percent_decode_bytes s1
      end
    else c :: percent_decode_bytes s1
  end.

Definition percent_decode_lossy (s : str) : str := from_utf8_lossy (percent_decode_bytes s).

Definition nonempty_needle (o : option str) : option str := opt_filter (fun s => negb (is_empty s)) o.

Definition rule_matches (rule : WafRule) (req : RequestView) : bool :=
  let method := to_ascii_uppercase (rv_method req) in
  if negb (is_empty (rule_methods rule)) && negb (existsb (fun m => m =s method) (rule_methods rule))
  then false
  else
    let p :=
      match nonempty_needle (path_contains rule) with
      | Some needle =>
        (true, contains_ci (rv_path req) needle || contains_ci (percent_decode_lossy (rv_path req)) needle)
      | None => (false, false)
      end in
    let q :=
      match nonempty_needle (query_contains rule) with
      | Some needle =>
        (true, contains_ci (rv_query req) needle || contains_ci (percent_decode_lossy (rv_query req)) needle)
      | None => (false, false)
      end in
    let u :=
      match nonempty_needle (ua_contains rule) with
      | Some needle => (true, contains_ci (default [] (rv_user_agent req)) needle)
      | None => (false, false)
      end in
    (p.1 || q.1 || u.1) && (p.2 || q.2 || u.2).

Fixpoint first_hit (rules : list WafRule) (req : RequestView) : option WafHit :=
  match rules with
  | [] => None
  | r :: rs =>
    if rule_enabled r && rule_matches r req then Some (mkWafHit (rule_id r) (rule_action r))
    else first_hit rs req
  end.

Definition evaluate_waf (policy : WafPolicy) (req : RequestView) : option WafHit :=
  if negb (waf_is_active policy) then None
  else
    match first_hit (waf_rules policy) req with
    | Some h => Some h
    | None => if use_builtin_rules policy then first_hit builtin_rules req else None
    end.

(** ** Lemmas *)

Lemma first_hit_app l1 l2 req :
  first_hit (l1 ++ l2) req =
    match first_hit l1 req with Some h => Some h | None => first_hit l2 req end.
Proof. induction l1 as [|r l1 IH]; [done|]. simpl. case_if; [done|apply IH]. Qed.

Definition rule_fires (req : RequestView) (r : WafRule) : Prop :=
  rule_enabled r = true /\ rule_matches r req = true.

Lemma first_hit_None rules req : first_hit rules req = None <-> forall r, r ∈ rules -> ~ rule_fires req r.
Proof.
  unfold rule_fires. induction rules as [|r rs IH]; simpl.
  - split; [|done]. intros _ r Hr. by apply elem_of_nil in Hr.
  - setoid_rewrite elem_of_cons. case_if.
    + bsimp. split; [done|]. intros H'. by destruct (H' r (or_introl eq_refl)).
    + rewrite IH. split; [|intros H' r' Hr'; apply H'; auto].
      intros H' r' [->|Hr'] [H1 H2]; [by rewrite H1, H2 in E|by apply (H' r' Hr')].
Qed.

Lemma first_hit_Some rules req h :
  first_hit rules req = Some h <->
  exists pre r post, rules = pre ++ r :: post /\ rule_fires req r /\
    h = mkWafHit (rule_id r) (rule_action r) /\ (forall r', r' ∈ pre -> ~ rule_fires req r').
Proof.
  split.
  - induction rules as [|r rs IH]; simpl; [done|]. case_if.
    + intros [= <-]. bsimp. exists [], r, rs. split_and!; try done.
      intros r' Hr'. by apply elem_of_nil in Hr'.
    + intros H. destruct (IH H) as (pre & r0 & post & -> & Hf & -> & Hpre).
      exists (r :: pre), r0, post. split_and!; try done. intros r' [->|Hr']%elem_of_cons; [|by apply Hpre].
      intros [H1 H2]. by rewrite H1, H2 in E.
  - intros (pre & r & post & -> & [H1 H2] & -> & Hpre). rewrite first_hit_app.
    rewrite (proj2 (first_hit_None pre req) Hpre). simpl. by rewrite H1, H2.
Qed.

Lemma from_hex_special : from_hex "%"%byte = None /\ from_hex "."%byte = None /\ from_hex "/"%byte = None.
Proof. done. Qed.

(** A byte that is no hex digit is never swallowed by an escape to its left. *)
Lemma percent_decode_app s c t :
  from_hex c = None -> percent_decode_bytes (s ++ c :: t) = percent_decode_bytes s ++ percent_decode_bytes (c :: t).
Proof.
  intros Hc. induction s as [[|b s] IH] using list_length_ind; [done|].
  assert (Hs : percent_decode_bytes (s ++ c :: t) = percent_decode_bytes s ++ percent_decode_bytes (c :: t))
    by (apply IH; simpl; lia).
  rewrite <- app_comm_cons. cbn [percent_decode_bytes].
  destruct (decide (b = "+"%byte)); [by rewrite Hs|]. destruct (decide (b = "%"%byte)); [|by rewrite Hs].
  destruct s as [|h1 [|h2 s]]; cbn [app] in *.
  - destruct t as [|h2 t]; [done|]. rewrite Hc. done.
  - rewrite Hc. destruct (from_hex h1); by rewrite Hs.
  - destruct (from_hex h1) as [x|]; [|by rewrite Hs]. destruct (from_hex h2) as [y|]; [|by rewrite Hs].
    rewrite IH by (simpl; lia). done.
Qed.

(** [enc] is the byte [c] itself or one of its [%XX] escapes. *)
Definition encodes (c : byte) (enc : str) : Prop :=
  enc = [c] \/
  exists h1 h2 a b, enc = ["%"%byte; h1; h2] /\ from_hex h1 = Some a /\ from_hex h2 = Some b /\
                    n2b (N.lor (N.shiftl a 4) b) = c.

Lemma percent_decode_encoded c enc t :
  c <> "%"%byte -> c <> "+"%byte -> encodes c enc ->
  percent_decode_bytes (enc ++ t) = c :: percent_decode_bytes t.
Proof.
  intros Hp Hq [->|(h1 & h2 & a & b & -> & H1 & H2 & H3)]; cbn [app percent_decode_bytes].
  - destruct (decide (c = "+"%byte)); [done|]. by destruct (decide (c = "%"%byte)).
  - rewrite decide_False by done. rewrite decide_True by done. by rewrite H1, H2, H3.
Qed.

Lemma encodes_head c enc : from_hex c = None -> encodes c enc -> exists h t, enc = h :: t /\ from_hex h = None.
Proof. intros Hc [->|(h1 & h2 & _ & _ & -> & _)]; eauto. Qed.

Lemma percent_decode_escaped_dotdot a e1 e2 e3 b :
  encodes "."%byte e1 -> encodes "."%byte e2 -> encodes "/"%byte e3 ->
  exists a' b', percent_decode_bytes (a ++ e1 ++ e2 ++ e3 ++ b) = a' ++ bs "../" ++ b'.
Proof.
  intros H1 H2 H3. exists (percent_decode_bytes a), (percent_decode_bytes b).
  pose proof (percent_decode_encoded "."%byte e1 (e2 ++ e3 ++ b) ltac:(done) ltac:(done) H1) as E1.
  rewrite (percent_decode_encoded "."%byte e2 (e3 ++ b) ltac:(done) ltac:(done) H2) in E1.
  rewrite (percent_decode_encoded "/"%byte e3 b ltac:(done) ltac:(done) H3) in E1.
  destruct (encodes_head "."%byte e1 eq_refl H1) as (h & t & -> & Hh). rewrite <- app_comm_cons in E1 |- *.
  rewrite percent_decode_app by done. by rewrite E1.
Qed.

Lemma contains_ci_intro h n a b : n <> [] -> h = a ++ n ++ b -> contains_ci h n = true.
Proof.
  intros Hn ->. unfold contains_ci. bsimp. split; [by apply negb_true_iff, is_empty_false|].
  apply contains_true. rewrite !to_ascii_lowercase_app. eauto.
Qed.

Lemma normalize_rule_idemp r : normalize_rule (normalize_rule r) = normalize_rule r.
Proof.
  unfold normalize_rule. simpl. rewrite trim_idemp. f_equal.
  - induction (rule_methods r) as [|m ms IH]; [done|]. rewrite fmap_cons, filter_cons.
    destruct (decide _) as [Hd|]; [|done]. rewrite fmap_cons, trim_uppercase, to_ascii_uppercase_idemp, trim_idemp.
    rewrite filter_cons_True by done. by rewrite IH.
  - destruct (path_contains r); simpl; [by rewrite trim_idemp|done].
  - destruct (query_contains r); simpl; [by rewrite trim_idemp|done].
  - destruct (ua_contains r); simpl; [by rewrite trim_idemp|done].
Qed.

Lemma waf_normalized_idemp p : waf_normalized (waf_normalized p) = waf_normalized p.
Proof.
  unfold waf_normalized. simpl. f_equal. induction (waf_rules p) as [|r rs IH]; [done|].
  rewrite fmap_cons, filter_cons. destruct (decide _) as [Hd|]; [|done].
  rewrite fmap_cons, normalize_rule_idemp, filter_cons_True by done. by rewrite IH.
Qed.

(** ** Properties *)

(** WAF evaluation is first match: an active policy reports exactly the
    first rule that is enabled and matches, custom rules in their order before
    the built-in ones (which count only when [use_builtin_rules] is set), and
    reports nothing exactly when no such rule fires or the policy is inactive. *)
Theorem evaluate_waf_first_match p req :
  let rules := waf_rules p ++ (if use_builtin_rules p then builtin_rules else []) in
  (forall h, evaluate_waf p req = Some h <->
     waf_is_active p = true /\
     exists pre r post, rules = pre ++ r :: post /\ rule_fires req r /\
       h = mkWafHit (rule_id r) (rule_action r) /\ (forall r', r' ∈ pre -> ~ rule_fires req r')) /\
  (evaluate_waf p req = None <->
     waf_is_active p = false \/ (forall r, r ∈ rules -> ~ rule_fires req r)).
Proof.
  intros rules.
  assert (He : evaluate_waf p req = if waf_is_active p then first_hit rules req else None).
  { unfold evaluate_waf, rules. destruct (waf_is_active p); [|done]. simpl. rewrite first_hit_app.
    destruct (first_hit (waf_rules p) req); [done|]. by destruct (use_builtin_rules p). }
  rewrite He. destruct (waf_is_active p).
  - split; [intros h; rewrite first_hit_Some; tauto|]. rewrite first_hit_None. split; [tauto|].
    by intros [?|?].
  - split; [intros h; split; [done|by intros [? _]]|]. split; [tauto|done].
Qed.

(** C30: Path traversal cannot be hidden by percent encoding: whatever surrounds
    it, any spelling of [../] in the request path (each byte raw or escaped, in
    either hex case) is blocked by the built-in rules of an active policy unless
    one of the site's own rules fires first. *)
Theorem waf_traversal_blocked p req a e1 e2 e3 b :
  waf_enabled p = true -> use_builtin_rules p = true ->
  (forall r, r ∈ waf_rules p -> ~ rule_fires req r) ->
  encodes "."%byte e1 -> encodes "."%byte e2 -> encodes "/"%byte e3 ->
  rv_path req = a ++ e1 ++ e2 ++ e3 ++ b ->
  evaluate_waf p req = Some (mkWafHit "builtin-path-traversal" WafBlock).
Proof.
  intros He Hb Hno H1 H2 H3 Hpath. unfold evaluate_waf, waf_is_active. rewrite He, Hb. cbn [andb orb negb].
  rewrite (proj2 (first_hit_None _ _) Hno). unfold builtin_rules. cbn [first_hit].
  assert (Hm : rule_matches (mkWafRule "builtin-path-traversal" true WafBlock [] (Some (bs "../")) None None) req = true).
  { destruct (percent_decode_escaped_dotdot a e1 e2 e3 b H1 H2 H3) as (a' & b' & E).
    destruct (from_utf8_lossy_contains a' (bs "../") b') as (a'' & b'' & E'); [by repeat constructor|done|].
    assert (Hci : contains_ci (percent_decode_lossy (rv_path req)) (bs "../") = true)
      by (eapply contains_ci_intro; [done|]; unfold percent_decode_lossy; by rewrite Hpath, E).
    unfold rule_matches. simpl. rewrite Hci. by rewrite orb_true_r. }
  cbn [rule_enabled]. rewrite Hm. reflexivity.
Qed.

Lemma waf_traversal_blocked_witness :
  let req := mkRequestView "GET" "/a%2/%2E.%2fetc" [] None None None None None in
  evaluate_waf (mkWafPolicy true true []) req = Some (mkWafHit "builtin-path-traversal" WafBlock).
Proof.
  intros req. apply (waf_traversal_blocked (mkWafPolicy true true []) req "/a%2/" "%2E" "." "%2f" "etc").
  - reflexivity.
  - reflexivity.
  - intros r Hr. by apply elem_of_nil in Hr.
  - right. exists "2"%byte, "E"%byte, 2, 14. split_and!; reflexivity.
  - left. reflexivity.
  - right. exists "2"%byte, "f"%byte, 2, 15. split_and!; reflexivity.
  - reflexivity.
Defined.
