(* ===== verification/Bot.v ===== *)
(** * Bot scoring ([src/src/security/bot.rs])

    The score policy and its normal form, the per-address request counter with
    its one-minute window and its opportunistic pruning, and the score with its
    verdict.  The process-wide counter map is explicit state; an [Instant] is a
    number of nanoseconds. *)

From S2P Require Import Prelude RustStr Waf.

(** ** The policy *)

Record BotPolicy := mkBotPolicy {
  bot_enabled : bool;
  challenge_score : N;
  block_score : N;
  rate_limit_per_min : N;
}.

Definition default_challenge_score : N := 40.
Definition default_block_score : N := 80.
Definition default_rate_limit : N := 120.

Definition bot_default : BotPolicy :=
  mkBotPolicy false default_challenge_score default_block_score default_rate_limit.

Definition bot_is_active (p : BotPolicy) : bool := bot_enabled p.

Definition bot_is_default (p : BotPolicy) : bool :=
  negb (bot_enabled p) && (challenge_score p =? default_challenge_score)
  && (block_score p =? default_block_score) && (rate_limit_per_min p =? default_rate_limit).

Definition bot_normalized (p : BotPolicy) : BotPolicy :=
  let c := if challenge_score p =? 0 then default_challenge_score else challenge_score p in
  let b := if block_score p =? 0 then default_block_score else block_score p in
  let b := if b <? c then c else b in
  let r := if rate_limit_per_min p =? 0 then default_rate_limit else rate_limit_per_min p in
  mkBotPolicy (bot_enabled p) c b r.

(** ** The per-address counter *)

Definition secs (n : N) : N := n * 1000000000.
Arguments secs : simpl never.
Definition duration_since (now earlier : N) : N := saturating_sub now earlier.

Record RateBucket := mkRateBucket { window_start : N; bucket_count : N }.

Abbreviation RateMap := (gmap str RateBucket).

Definition prune_rates (now : N) (m : RateMap) : RateMap :=
  if (10000 <? N.of_nat (size m))
  then filter (fun kb => duration_since now (window_start kb.2) < secs 120) m
  else m.

Definition record_rate (now : N) (m : RateMap) (ip : str) (limit : N) : N * RateMap :=
  let m := prune_rates now m in
  let entry := default (mkRateBucket now 0) (m !! ip) in
  let entry := if secs 60 <=? duration_since now (window_start entry) then mkRateBucket now 0 else entry in
  let entry := mkRateBucket (window_start entry) (saturating_add u32_max (bucket_count entry) 1) in
  (if limit <? bucket_count entry then saturating_sub (bucket_count entry) limit else 0,
   <[ip := entry]> m).

(** ** The score *)

Inductive BotVerdict : Type := BotAllow | BotChallenge | BotBlock.

#[export] Instance BotVerdict_eq_dec : EqDecision BotVerdict.
Proof. solve_decision. Defined.

Record BotScore := mkBotScore { score : N; verdict : BotVerdict; reasons : list str }.

Definition AUTOMATION_UA : list str :=
  [bs "curl/"; bs "wget/"; bs "python-requests"; bs "python-urllib"; bs "go-http-client"; bs "scrapy";
   bs "httpclient"; bs "libwww-perl"; bs "java/"; bs "okhttp"; bs "headlesschrome"; bs "phantomjs"].

Definition trimmed_nonempty (o : option str) : option str :=
  opt_filter (fun s => negb (is_empty s)) (trim <$> o).

(** The contribution of one signal: points and the reason that names them. *)
Definition signal (b : bool) (points : N) (reason : str) : N * list str :=
  if b then (points, [reason]) else (0, []).
Definition add_signal (a b : N * list str) : N * list str := (a.1 + b.1, a.2 ++ b.2).

Definition ua_signals (ua : option str) : N * list str :=
  match trimmed_nonempty ua with
  | None => (45, [bs "missing-ua"])
  | Some ua =>
    let ua_l := to_ascii_lowercase ua in
    add_signal (signal (existsb (fun p => contains p ua_l) AUTOMATION_UA) 30 "automation-ua")
               (signal (N.of_nat (length ua_l) <? 12) 15 "short-ua")
  end.

Definition rate_points (over : N) : N := saturating_add u32_max 25 (N.min (over / 10) 40).

Definition verdict_of (p : BotPolicy) (s : N) : BotVerdict :=
  if block_score p <=? s then BotBlock else if challenge_score p <=? s then BotChallenge else BotAllow.

Definition score_bot (now : N) (m : RateMap) (p : BotPolicy) (req : RequestView) : BotScore * RateMap :=
  let acc := ua_signals (rv_user_agent req) in
  let acc := add_signal acc (signal (negb (is_some (trimmed_nonempty (rv_accept req)))) 15 "missing-accept") in
  let acc := add_signal acc (signal (negb (is_some (trimmed_nonempty (rv_accept_language req)))) 10
                               "missing-accept-language") in
  let '(acc, m) :=
    match trimmed_nonempty (rv_client_ip req) with
    | Some ip =>
      let '(over, m) := record_rate now m ip (rate_limit_per_min p) in
      (add_signal acc (signal (0 <? over) (rate_points over) "rate"), m)
    | None => (acc, m)
    end in
  (mkBotScore acc.1 (verdict_of p acc.1) acc.2, m).

(** ** Lemmas: the counter *)

(** What one request does to one address's bucket, other addresses and pruning aside. *)
Definition bucket_step (now : N) (b : option RateBucket) : RateBucket :=
  let e := default (mkRateBucket now 0) b in
  let e := if secs 60 <=? duration_since now (window_start e) then mkRateBucket now 0 else e in
  mkRateBucket (window_start e) (saturating_add u32_max (bucket_count e) 1).

Definition over_limit (limit count : N) : N := count - limit.

Lemma record_rate_step now m ip limit :
  record_rate now m ip limit =
    (over_limit limit (bucket_count (bucket_step now (prune_rates now m !! ip))),
     <[ip := bucket_step now (prune_rates now m !! ip)]> (prune_rates now m)).
Proof.
  unfold record_rate. fold (bucket_step now (prune_rates now m !! ip)).
  set (b := bucket_step _ _). f_equal. unfold over_limit, saturating_sub. case_if; bsimp; lia.
Qed.

(** A stored bucket stands for the address's own history: it is that history's
    bucket, or was pruned at a time when the window had long run out. *)
Definition bucket_rel (now : N) (stored own : option RateBucket) : Prop :=
  stored = own \/ (stored = None /\ exists b, own = Some b /\ secs 60 <= duration_since now (window_start b)).

Lemma bucket_rel_mono t t' stored own : t <= t' -> bucket_rel t stored own -> bucket_rel t' stored own.
Proof.
  intros Ht [->|(-> & b & -> & Hb)]; [by left|right]. split; [done|]. exists b. split; [done|].
  unfold duration_since, saturating_sub in *. lia.
Qed.

Lemma bucket_rel_prune now m ip own : bucket_rel now (m !! ip) own -> bucket_rel now (prune_rates now m !! ip) own.
Proof.
  unfold prune_rates. case_if; [|done]. intros H. rewrite map_lookup_filter.
  destruct (m !! ip) as [b|] eqn:Eb; [|exact H]. simpl.
  destruct H as [<-|[? _]]; [|done]. case_guard as Hn; simpl; [by left|right].
  split; [done|]. exists b. split; [done|]. simpl in Hn. unfold secs in *. lia.
Qed.

Lemma bucket_rel_step now stored own : bucket_rel now stored own -> bucket_step now stored = bucket_step now own.
Proof.
  intros [->|(-> & b & -> & Hb)]; [done|]. unfold bucket_step. simpl.
  rewrite (proj2 (N.leb_le _ _) Hb). unfold duration_since, saturating_sub. rewrite N.sub_diag. done.
Qed.

(** A trace of calls: each with its time, its address and its limit. *)
Fixpoint run_rates (m : RateMap) (trace : list (N * str * N)) : RateMap :=
  match trace with
  | [] => m
  | (now, ip, limit) :: tr => run_rates (record_rate now m ip limit).2 tr
  end.

(** The bucket of [ip] computed from its own calls alone. *)
Fixpoint own_bucket (ip : str) (b : option RateBucket) (trace : list (N * str * N)) : option RateBucket :=
  match trace with
  | [] => b
  | (now, ip', _) :: tr =>
    own_bucket ip (if decide (ip' = ip) then Some (bucket_step now b) else b) tr
  end.

Definition call_time (c : N * str * N) : N := c.1.1.

(** Times never decrease along the trace and are at least [t]. *)
Fixpoint monotone_from (t : N) (trace : list (N * str * N)) : Prop :=
  match trace with [] => True | c :: tr => t <= call_time c /\ monotone_from (call_time c) tr end.

Definition last_time (t : N) (trace : list (N * str * N)) : N := foldl (fun _ c => call_time c) t trace.

Lemma run_rates_rel ip trace t m own :
  monotone_from t trace -> bucket_rel t (m !! ip) own ->
  bucket_rel (last_time t trace) (run_rates m trace !! ip) (own_bucket ip own trace).
Proof.
  revert t m own. induction trace as [|[[now ip'] limit] tr IH]; intros t m own Hm Hr; [exact Hr|].
  destruct Hm as [Ht Hm]. simpl in Ht, Hm. cbn [run_rates own_bucket]. apply IH; [exact Hm|].
  apply (bucket_rel_mono t now) in Hr; [|done]. apply bucket_rel_prune in Hr.
  rewrite record_rate_step. simpl. destruct (decide (ip' = ip)) as [->|Hne].
  - rewrite lookup_insert_eq. left. f_equal. by apply bucket_rel_step.
  - by rewrite lookup_insert_ne.
Qed.

(** The requests of one minute, all from the same address, starting a window. *)
Lemma own_bucket_minute ip t0 c0 times limit :
  Forall (fun t => t0 <= t /\ t < t0 + secs 60) times ->
  own_bucket ip (Some (mkRateBucket t0 c0)) ((fun t => (t, ip, limit)) <$> times) =
    Some (mkRateBucket t0 (if is_empty times then c0 else N.min u32_max (c0 + N.of_nat (length times)))).
Proof.
  revert c0. induction times as [|t ts IH]; intros c0 HF; [done|].
  apply Forall_cons_1 in HF as [[H1 H2] HF]. rewrite fmap_cons. cbn [own_bucket].
  rewrite decide_True by done.
  assert (Hb : bucket_step t (Some (mkRateBucket t0 c0)) = mkRateBucket t0 (saturating_add u32_max c0 1)).
  { unfold bucket_step. simpl. unfold duration_since, saturating_sub.
    by rewrite (proj2 (N.leb_gt _ _)) by lia. }
  rewrite Hb, IH by done. f_equal. f_equal. unfold saturating_add. cbn [is_empty length].
  destruct ts; cbn [is_empty length]; lia.
Qed.

(** ** Lemmas: the score *)

Lemma signal_points b n r : (signal b n r).1 <= n.
Proof. unfold signal. case_if; simpl; lia. Qed.

Lemma ua_signals_bound ua : (ua_signals ua).1 <= 45.
Proof.
  unfold ua_signals. destruct (trimmed_nonempty ua); [|cbn [fst]; lia].
  unfold add_signal. cbn [fst].
  pose proof (signal_points (existsb (fun p => contains p (to_ascii_lowercase l)) AUTOMATION_UA) 30 "automation-ua").
  pose proof (signal_points (N.of_nat (length (to_ascii_lowercase l)) <? 12) 15 "short-ua"). lia.
Qed.

Lemma rate_points_bound over : rate_points over <= 65.
Proof. unfold rate_points, saturating_add. lia. Qed.

Lemma score_bot_bound now m p req : score (score_bot now m p req).1 <= 135.
Proof.
  unfold score_bot. pose proof (ua_signals_bound (rv_user_agent req)).
  pose proof (signal_points (negb (is_some (trimmed_nonempty (rv_accept req)))) 15 "missing-accept").
  pose proof (signal_points (negb (is_some (trimmed_nonempty (rv_accept_language req)))) 10 "missing-accept-language").
  destruct (trimmed_nonempty (rv_client_ip req)) as [ip|]; [|simpl; lia].
  destruct (record_rate now m ip (rate_limit_per_min p)) as [over m'].
  pose proof (signal_points (0 <? over) (rate_points over) "rate"). pose proof (rate_points_bound over).
  simpl. lia.
Qed.

Lemma bot_normalized_idemp p : bot_normalized (bot_normalized p) = bot_normalized p.
Proof.
  unfold bot_normalized, default_challenge_score, default_block_score, default_rate_limit. simpl.
  repeat (case_if; bsimp; simplify_eq; try lia; try done).
Qed.

Lemma bot_normalized_ordered p :
  let q := bot_normalized p in
  0 < challenge_score q /\ challenge_score q <= block_score q /\ 0 < rate_limit_per_min q.
Proof.
  unfold bot_normalized, default_challenge_score, default_block_score, default_rate_limit. simpl.
  repeat case_if; bsimp; lia.
Qed.

(** ** Properties *)

(** The request counter isolates clients: after any history of calls at
    non-decreasing times (any mix of addresses and limits, with the pruning
    that a large map triggers) the excess reported for an address is the one
    its own calls alone give; and [n] calls of an address in the minute after
    its window opened exceed the limit by exactly [n - limit]. *)
Theorem record_rate_isolated trace t now ip limit :
  monotone_from t trace -> last_time t trace <= now ->
  (record_rate now (run_rates ∅ trace) ip limit).1 =
    over_limit limit (bucket_count (bucket_step now (own_bucket ip None trace))) /\
  (forall t0 times, Forall (fun t => t0 <= t /\ t < t0 + secs 60) times ->
     N.of_nat (length times) < u32_max ->
     own_bucket ip None ((fun t => (t, ip, limit)) <$> (t0 :: times)) =
       Some (mkRateBucket t0 (1 + N.of_nat (length times)))).
Proof.
  intros Hm Hl. split.
  - rewrite record_rate_step. cbn [fst]. rewrite (bucket_rel_step now _ (own_bucket ip None trace)); [done|].
    apply bucket_rel_prune. eapply bucket_rel_mono; [exact Hl|]. apply run_rates_rel; [done|]. left. apply lookup_empty.
  - intros t0 times HF Hlen. rewrite fmap_cons. cbn [own_bucket]. rewrite decide_True by done.
    assert (Hb : bucket_step t0 None = mkRateBucket t0 1).
    { unfold bucket_step. simpl. unfold duration_since, saturating_sub. by rewrite N.sub_diag. }
    rewrite Hb, own_bucket_minute by done. f_equal. f_equal. destruct times; cbn [is_empty length] in *; lia.
Qed.

Lemma record_rate_isolated_witness :
  let tr := [(secs 1, bs "9.9.9.9", 1); (secs 2, bs "8.8.8.8", 1); (secs 3, bs "9.9.9.9", 1)] in
  (record_rate (secs 5) (run_rates ∅ tr) "9.9.9.9" 1).1 = 2.
Proof.
  intros tr. rewrite (proj1 (record_rate_isolated tr 0 (secs 5) "9.9.9.9" 1 ltac:(vm_compute; repeat split; discriminate)
    ltac:(vm_compute; discriminate))). vm_compute. reflexivity.
Defined.

(** The score never overflows and the verdict is sound: every score is at
    most 135, so the [u32] additions cannot wrap, and for a normalised policy the thresholds are positive and ordered, so the verdict is Block at or
    above [block_score], Challenge between the two, Allow below both. *)
Theorem score_bot_sound now m p req :
  let q := bot_normalized p in
  let s := (score_bot now m q req).1 in
  score s <= 135 /\ 0 < challenge_score q <= block_score q /\
  (verdict s = BotBlock <-> block_score q <= score s) /\
  (verdict s = BotChallenge <-> challenge_score q <= score s < block_score q) /\
  (verdict s = BotAllow <-> score s < challenge_score q).
Proof.
  intros q s. pose proof (bot_normalized_ordered p) as (H1 & H2 & _). fold q in H1, H2.
  split; [apply score_bot_bound|]. split; [done|].
  assert (Hv : verdict s = verdict_of q (score s)).
  { unfold s, score_bot. destruct (trimmed_nonempty _); [|done]. by destruct (record_rate _ _ _ _). }
  rewrite Hv. unfold verdict_of. repeat case_if; bsimp; repeat split; intros; try done; lia.
Qed.
