(* ===== verification/Captcha.v ===== *)
(** * Captcha challenges ([src/src/security/captcha.rs])

    The captcha policy, HMAC-signed challenge tokens and pass cookies, the
    challenge page and the verification endpoint.  HMAC-SHA256 and the
    hexadecimal encoder are third-party crates: they are the class [Crypto],
    and the theorems hold for every instance.  The clock, the secret and the
    random draws are arguments. *)

From S2P Require Import Prelude RustStr.

(** ** The cryptographic crates *)

Definition is_lower_hex (b : byte) : bool :=
  is_ascii_digit b || ((97 <=? b2n b) && (b2n b <=? 102)).

(** [hmac], [sha2] and [hex]: the encoder prints lower-case hexadecimal digits. *)
Class Crypto := {
  hmac_sha256 : str -> str -> str;
  hex_encode : str -> str;
  hex_encode_digits : forall s, Forall (fun b => is_lower_hex b = true) (hex_encode s);
}.

(** ** Policy and secret *)

Definition CAPTCHA_PATH : str := "/.pertisk/captcha".
Definition CAPTCHA_VERIFY_PATH : str := "/.pertisk/captcha/verify".
Definition COOKIE_NAME : str := "pertisk_captcha".
Definition CHALLENGE_TTL_SECS : N := 600.

Record CaptchaPolicy := mkCaptchaPolicy { captcha_enabled : bool; cookie_ttl_secs : N }.

Definition default_cookie_ttl : N := 86400.
Definition captcha_default : CaptchaPolicy := mkCaptchaPolicy false default_cookie_ttl.

Definition captcha_is_default (p : CaptchaPolicy) : bool :=
  negb (captcha_enabled p) && (cookie_ttl_secs p =? default_cookie_ttl).

Definition captcha_normalized (p : CaptchaPolicy) : CaptchaPolicy :=
  if cookie_ttl_secs p =? 0 then mkCaptchaPolicy (captcha_enabled p) default_cookie_ttl else p.

(** [SECRET]: the first non-blank of two environment variables, else 32 random bytes. *)
Definition captcha_secret (env : str -> option str) (random32 : str) : str :=
  match opt_filter (fun t => negb (is_empty t)) (trim <$> env "PERTISK_CAPTCHA_SECRET") with
  | Some t => t
  | None =>
    match opt_filter (fun t => negb (is_empty t)) (trim <$> env "PERTISK_AUTH_SIGNING_SECRET") with
    | Some t => t
    | None => random32
    end
  end.

Definition is_captcha_path (path : str) : bool :=
  let path := split_first "?" path in (path =s CAPTCHA_PATH) || (path =s CAPTCHA_VERIFY_PATH).

Fixpoint find_cookie (parts : list str) (name : str) : option str :=
  match parts with
  | [] => None
  | part :: rest =>
    match split_once "=" (trim part) with
    | Some (k, v) => if trim k =s name then Some (trim v) else find_cookie rest name
    | None => find_cookie rest name
    end
  end.

Definition parse_cookie_value (cookie_header name : str) : option str :=
  find_cookie (split_on ";" cookie_header) name.

(** ** Signatures, cookies and challenges *)

Section captcha.
Context `{Crypto}.
Variable SECRET : str.

Definition sign (payload : str) : str := hex_encode (hmac_sha256 SECRET payload).

Definition verify_sig (payload sig : str) : bool := eq_ignore_ascii_case (sign payload) (trim sig).

Definition short_ip_tag (ip : str) : str := hex_encode (take 8 (hmac_sha256 SECRET ip)).

Definition has_valid_pass_cookie (now_secs : N) (cookie_header client_ip : option str) : bool :=
  match cookie_header with
  | None => false
  | Some header =>
    match parse_cookie_value header COOKIE_NAME with
    | None => false
    | Some raw =>
      match split_on "." raw with
      | [p0; p1; p2; p3] =>
        if negb (p0 =s "v1") then false
        else
          match parse_u64 p1 with
          | None => false
          | Some exp =>
            if exp <? now_secs then false
            else
              let payload := bs "v1." ++ p1 ++ bs "." ++ p2 in
              if negb (verify_sig payload p3) then false
              else if negb (p2 =s "-") then
                match client_ip with
                | Some ip => if negb (p2 =s short_ip_tag ip) then false else true
                | None => true
                end
              else true
          end
      | _ => false
      end
    end
  end.

(** The [name=value] pair of the [Set-Cookie] line. *)
Definition pass_cookie_exp (now_secs ttl_secs : N) : N := saturating_add u64_max now_secs (N.max ttl_secs 60).
Definition pass_cookie_tag (client_ip : option str) : str := default (bs "-") (short_ip_tag <$> client_ip).
Definition pass_cookie_payload (now_secs : N) (client_ip : option str) (ttl_secs : N) : str :=
  bs "v1." ++ show_N (pass_cookie_exp now_secs ttl_secs) ++ bs "." ++ pass_cookie_tag client_ip.

Definition mint_pass_cookie (now_secs : N) (client_ip : option str) (ttl_secs : N) : str :=
  let payload := pass_cookie_payload now_secs client_ip ttl_secs in
  let sig := sign payload in
  let value := payload ++ bs "." ++ sig in
  COOKIE_NAME ++ bs "=" ++ value ++ bs "; Path=/; HttpOnly; SameSite=Lax; Max-Age=" ++ show_N ttl_secs.

Record Challenge := mkChallenge { ch_a : N; ch_b : N; ch_token : str }.

Definition challenge_payload (a b exp : N) : str :=
  bs "c1." ++ show_N a ++ bs "." ++ show_N b ++ bs "." ++ show_N exp.

(** [a] and [b] are the two draws of [rand::random_range(1..20)]. *)
Definition mint_challenge (a b now_secs : N) : Challenge :=
  let exp := saturating_add u64_max now_secs CHALLENGE_TTL_SECS in
  let payload := challenge_payload a b exp in
  mkChallenge a b (payload ++ bs "." ++ sign payload).

Definition verify_challenge_token (now_secs : N) (token answer : str) : bool :=
  match split_on "." token with
  | [p0; p1; p2; p3; p4] =>
    if negb (p0 =s "c1") then false
    else
      match parse_u32 p1, parse_u32 p2, parse_u64 p3 with
      | Some a, Some b, Some exp =>
        if exp <? now_secs then false
        else if negb (verify_sig (challenge_payload a b exp) p4) then false
        else
          match parse_u32 (trim answer) with
          | Some ans => ans =? saturating_add u32_max a b
          | None => false
          end
      | _, _, _ => false
      end
  | _ => false
  end.

(** ** The page *)

Definition html_escape (s : str) : str :=
  replace_byte x22 (bs "&quot;") (replace_byte ">" (bs "&gt;") (replace_byte "<" (bs "&lt;")
    (replace_byte "&" (bs "&amp;") s))).

(** Template text, with [`] for the double quote and one list entry per line. *)
Definition tmpl (s : string) : str := replace_byte "`" [x22] (bs s).
Definition page_lines (ls : list str) : str := join [x0a] ls.

Definition page_head : str := page_lines
  [tmpl "<!DOCTYPE html>";
   tmpl "<html lang=`en`>";
   tmpl "<head>";
   tmpl "<meta charset=`utf-8`/>";
   tmpl "<meta name=`viewport` content=`width=device-width, initial-scale=1`/>";
   tmpl "<title>Security check</title>";
   tmpl "<style>";
   tmpl "body{font-family:ui-sans-serif,system-ui,sans-serif;background:#0f1115;color:#e8eaed;display:flex;min-height:100vh;align-items:center;justify-content:center;margin:0}";
   tmpl ".card{background:#1a1d24;border:1px solid #2a2f3a;border-radius:12px;padding:2rem;max-width:420px;width:90%}";
   tmpl "h1{font-size:1.25rem;margin:0 0 .5rem}";
   tmpl "p{color:#9aa0a6;font-size:.9rem;margin:0 0 1.25rem}";
   tmpl "label{display:block;font-size:.85rem;margin-bottom:.35rem}";
   tmpl "input{width:100%;box-sizing:border-box;padding:.65rem .75rem;border-radius:8px;border:1px solid #2a2f3a;background:#0f1115;color:#e8eaed}";
   tmpl "button{margin-top:1rem;width:100%;padding:.7rem;border:0;border-radius:8px;background:#7c59f0;color:white;font-weight:600;cursor:pointer}";
   tmpl ".q{font-size:1.4rem;font-weight:700;margin:1rem 0}";
   tmpl "</style>";
   tmpl "</head>";
   tmpl "<body>";
   tmpl "<div class=`card`>";
   tmpl "<h1>Security check</h1>";
   tmpl "<p>Confirm you are human to continue ("].

Definition page_tail : str := page_lines
  [tmpl "`/>";
   tmpl "<label for=`answer`>Answer</label>";
   tmpl "<input id=`answer` name=`answer` inputmode=`numeric` autocomplete=`off` required autofocus/>";
   tmpl "<button type=`submit`>Continue</button>";
   tmpl "</form>";
   tmpl "</div>";
   tmpl "</body>";
   tmpl "</html>"].

Definition challenge_page (a b now_secs : N) (next_path reason : str) : str * str :=
  let challenge := mint_challenge a b now_secs in
  let next := html_escape (if is_empty next_path then bs "/" else next_path) in
  let reason := html_escape reason in
  let body :=
    page_head ++ reason ++ page_lines [tmpl ").</p>"; tmpl "<div class=`q`>"]
    ++ show_N (ch_a challenge) ++ tmpl " + " ++ show_N (ch_b challenge)
    ++ page_lines [tmpl " = ?</div>"; tmpl "<form method=`get` action=`"]
    ++ CAPTCHA_VERIFY_PATH
    ++ page_lines [tmpl "`>"; tmpl "<input type=`hidden` name=`token` value=`"]
    ++ html_escape (ch_token challenge)
    ++ page_lines [tmpl "`/>"; tmpl "<input type=`hidden` name=`next` value=`"]
    ++ next ++ page_tail in
  (body, bs "text/html; charset=utf-8").

(** ** The verification endpoint *)

Definition verify_and_pass_cookie (now_secs : N) (token answer next client_ip : option str) (ttl_secs : N)
  : result str (str * str) :=
  token ← ok_or token (bs "missing token");
  answer ← ok_or answer (bs "missing answer");
  if negb (verify_challenge_token now_secs token answer) then Err (bs "incorrect answer")
  else
    let next := default (bs "/") next in
    let next := if starts_with "/" next && negb (starts_with "//" next) then next else bs "/" in
    Ok (mint_pass_cookie now_secs client_ip ttl_secs, next).

End captcha.

(** ** Lemmas *)

Lemma lower_hex_plain b :
  is_lower_hex b = true -> graphic b = true /\ b <> "."%byte /\ b <> ";"%byte /\ b <> "-"%byte.
Proof. destruct b; vm_compute; intros H; try discriminate H; repeat split; discriminate. Qed.

Lemma find_cookie_app l1 l2 name :
  Forall (fun p => find_cookie [p] name = None) l1 -> find_cookie (l1 ++ l2) name = find_cookie l2 name.
Proof.
  induction 1 as [|p l1 Hp _ IH]; [done|]. simpl in *. destruct (split_once _ _) as [[k v]|]; [|done].
  by destruct (_ =s _).
Qed.

(** A byte that [html_escape] must not let through. *)
Definition markup (c : byte) : Prop := c = "<"%byte \/ c = ">"%byte \/ c = x22.

Lemma elem_of_replace_byte c r x s :
  x ∈ replace_byte c r s <-> (x ∈ r /\ c ∈ s) \/ (x ∈ s /\ x <> c).
Proof.
  unfold replace_byte. rewrite list_elem_of_join. split.
  - intros (l & Hx & Hl). apply list_elem_of_fmap in Hl as (b & -> & Hb).
    case_decide; subst; [by left|]. apply list_elem_of_singleton in Hx as ->. by right.
  - intros [[Hx Hc]|[Hx Hne]].
    + exists r. split; [done|]. apply list_elem_of_fmap. exists c. by rewrite decide_True.
    + exists [x]. split; [set_solver|]. apply list_elem_of_fmap. exists x. by rewrite decide_False.
Qed.

Lemma html_escape_no_markup c s : markup c -> c ∉ html_escape s.
Proof.
  unfold html_escape. intros Hm. rewrite !elem_of_replace_byte.
  assert (Hn : forall l : str, bool_decide (c ∈ l) = false -> c ∉ l) by (intros l; apply bool_decide_eq_false_1).
  assert (Hq : (c ∉ bs "&quot;") /\ (c ∉ bs "&gt;") /\ (c ∉ bs "&lt;") /\ (c ∉ bs "&amp;"))
    by (destruct Hm as [->|[->| ->]]; split_and!; apply Hn; vm_compute; reflexivity).
  destruct Hm as [->|[->| ->]]; tauto.
Qed.

Definition count (c : byte) (s : str) : nat := length (filter (fun b => b = c) s).

Lemma count_app c s t : count c (s ++ t) = (count c s + count c t)%nat.
Proof. unfold count. by rewrite filter_app, length_app. Qed.

Lemma count_not_elem c s : c ∉ s -> count c s = 0%nat.
Proof.
  induction s as [|b s IH]; [done|]. intros [Hb Hs]%not_elem_of_cons. unfold count.
  rewrite filter_cons_False by congruence. by apply IH.
Qed.

Section captcha_lemmas.
Context `{Crypto}.
Variable SECRET : str.

Lemma sign_no c payload : is_lower_hex c = false -> c ∉ sign SECRET payload.
Proof.
  intros Hc Hin. pose proof (hex_encode_digits (hmac_sha256 SECRET payload)) as HF.
  rewrite Forall_forall in HF. apply HF in Hin. congruence.
Qed.

Lemma tag_no c ip : is_lower_hex c = false -> c ∉ short_ip_tag SECRET ip.
Proof.
  intros Hc Hin. pose proof (hex_encode_digits (take 8 (hmac_sha256 SECRET ip))) as HF.
  rewrite Forall_forall in HF. apply HF in Hin. congruence.
Qed.

Lemma cookie_tag_no c ip : is_lower_hex c = false -> c <> "-"%byte -> c ∉ pass_cookie_tag SECRET ip.
Proof.
  intros Hc Hd. destruct ip as [ip|]; simpl; [by apply tag_no|]. intros Hin%list_elem_of_singleton. done.
Qed.

Lemma verify_sign payload : verify_sig SECRET payload (sign SECRET payload) = true.
Proof.
  unfold verify_sig. rewrite trim_all_graphic; [apply eq_ignore_ascii_case_refl|].
  eapply Forall_impl; [apply hex_encode_digits|]. intros b Hb. by apply lower_hex_plain.
Qed.

Definition pass_cookie_value (now : N) (ip : option str) (ttl : N) : str :=
  let payload := pass_cookie_payload SECRET now ip ttl in payload ++ bs "." ++ sign SECRET payload.

Lemma pass_cookie_parts now ip ttl :
  split_on "." (pass_cookie_value now ip ttl) =
    [bs "v1"; show_N (pass_cookie_exp now ttl); pass_cookie_tag SECRET ip;
     sign SECRET (pass_cookie_payload SECRET now ip ttl)].
Proof.
  set (l := [_; _; _; _]).
  replace (pass_cookie_value now ip ttl) with (join ["."%byte] l).
  - apply split_join; [done..|]. repeat constructor; apply not_elem_is_byte.
    + by apply show_N_no.
    + by apply cookie_tag_no.
    + by apply sign_no.
  - unfold pass_cookie_value, l, pass_cookie_payload. simpl. by rewrite <- !app_assoc.
Qed.

Lemma pass_cookie_pair_no_semi now ip ttl : ";"%byte ∉ COOKIE_NAME ++ bs "=" ++ pass_cookie_value now ip ttl.
Proof.
  unfold pass_cookie_value, pass_cookie_payload. rewrite !not_elem_of_app.
  repeat split; try (by apply show_N_no); try (by apply cookie_tag_no); try (by apply sign_no);
    apply (bool_decide_eq_false_1 _); vm_compute; reflexivity.
Qed.

Lemma mint_pass_cookie_pair now ip ttl :
  split_first ";" (mint_pass_cookie SECRET now ip ttl) = COOKIE_NAME ++ bs "=" ++ pass_cookie_value now ip ttl.
Proof.
  unfold mint_pass_cookie. fold (pass_cookie_value now ip ttl).
  replace (COOKIE_NAME ++ _) with
    ((COOKIE_NAME ++ bs "=" ++ pass_cookie_value now ip ttl) ++ ";"%byte ::
      bs " Path=/; HttpOnly; SameSite=Lax; Max-Age=" ++ show_N ttl).
  - apply split_first_app, pass_cookie_pair_no_semi.
  - rewrite <- !app_assoc. reflexivity.
Qed.

Lemma pass_cookie_value_graphic now ip ttl : Forall (fun b => graphic b = true) (pass_cookie_value now ip ttl).
Proof.
  assert (Hhex : forall s, Forall (fun b => graphic b = true) (hex_encode s)).
  { intros s. eapply Forall_impl; [apply hex_encode_digits|]. intros b Hb. by apply lower_hex_plain. }
  unfold pass_cookie_value, pass_cookie_payload, sign. rewrite !Forall_app. split_and!; try (by repeat constructor).
  - eapply Forall_impl; [apply show_N_digits|]. intros b. apply digit_graphic.
  - destruct ip; simpl; [apply Hhex|by repeat constructor].
Qed.

Lemma find_pass_cookie part l now ip ttl :
  trim part = COOKIE_NAME ++ bs "=" ++ pass_cookie_value now ip ttl ->
  find_cookie (part :: l) COOKIE_NAME = Some (pass_cookie_value now ip ttl).
Proof.
  intros Hp. cbn [find_cookie]. rewrite Hp.
  assert (Hs : split_once "=" (COOKIE_NAME ++ bs "=" ++ pass_cookie_value now ip ttl)
               = Some (COOKIE_NAME, pass_cookie_value now ip ttl)).
  { apply split_once_Some. split; [done|]. apply (bool_decide_eq_false_1 _); vm_compute; reflexivity. }
  rewrite Hs. change (trim COOKIE_NAME =s COOKIE_NAME) with true. cbn match.
  by rewrite trim_all_graphic by apply pass_cookie_value_graphic.
Qed.

Lemma pass_cookie_exp_u64 now ttl : pass_cookie_exp now ttl <= u64_max.
Proof. unfold pass_cookie_exp, saturating_add. lia. Qed.

Lemma challenge_token_parts a b exp sig :
  "."%byte ∉ sig ->
  split_on "." (challenge_payload a b exp ++ bs "." ++ sig) = [bs "c1"; show_N a; show_N b; show_N exp; sig].
Proof.
  intros Hs. set (l := [_; _; _; _; _]).
  replace (challenge_payload a b exp ++ bs "." ++ sig) with (join ["."%byte] l).
  - apply split_join; [done..|]. repeat constructor; apply not_elem_is_byte; try by apply show_N_no. done.
  - unfold challenge_payload, l. cbn [join]. rewrite <- !app_assoc. reflexivity.
Qed.

Lemma verify_minted a b t0 now answer :
  a < 20 -> b < 20 ->
  verify_challenge_token SECRET now (ch_token (mint_challenge SECRET a b t0)) answer =
    (now <=? saturating_add u64_max t0 CHALLENGE_TTL_SECS) &&
    bool_decide (parse_u32 (trim answer) = Some (a + b)).
Proof.
  intros Ha Hb. unfold verify_challenge_token, mint_challenge. cbn [ch_token].
  set (exp := saturating_add u64_max t0 CHALLENGE_TTL_SECS).
  rewrite challenge_token_parts by (by apply sign_no). cbn [negb].
  change (bs "c1" =s "c1") with true. cbn [negb].
  unfold parse_u32, parse_u64. rewrite !parse_show_N by (unfold exp, saturating_add, u32_max; lia).
  rewrite verify_sign. cbn [negb]. rewrite N.ltb_antisym. destruct (now <=? exp); [|done]. cbn [negb andb].
  destruct (parse_uint u32_max (trim answer)) as [ans|]; [|done].
  assert (Hs : saturating_add u32_max a b = a + b) by (unfold saturating_add, u32_max; lia). rewrite Hs.
  apply eq_true_iff_eq. rewrite N.eqb_eq, bool_decide_eq_true. split; congruence.
Qed.

(** ** Properties *)

(** The pass cookie works: the pair a browser keeps from [Set-Cookie] and
    sends back among other cookies is accepted exactly until it expires (at
    least a minute after it was minted) and, when it was bound to a client
    address, only from an address with the same tag. *)
Theorem pass_cookie_roundtrip t0 ip ttl now ip' before part after :
  Forall (fun p => ";"%byte ∉ p) (before ++ part :: after) ->
  Forall (fun p => find_cookie [p] COOKIE_NAME = None) before ->
  trim part = split_first ";" (mint_pass_cookie SECRET t0 ip ttl) ->
  has_valid_pass_cookie SECRET now (Some (join ";" (before ++ part :: after))) ip' = true <->
  now <= saturating_add u64_max t0 (N.max ttl 60) /\
  match ip, ip' with
  | Some i, Some i' => short_ip_tag SECRET i' = short_ip_tag SECRET i
  | _, _ => True
  end.
Proof.
  intros Hsemi Hbefore Hpart. rewrite mint_pass_cookie_pair in Hpart.
  unfold has_valid_pass_cookie, parse_cookie_value, split_on.
  change (bs ";") with [";"%byte]. rewrite split_join; [|done|by destruct before|by eapply Forall_impl; [exact Hsemi|]; intros p; apply not_elem_is_byte].
  rewrite find_cookie_app by done. rewrite (find_pass_cookie part after t0 ip ttl Hpart).
  fold (split_on "."). rewrite pass_cookie_parts. change (bs "v1" =s "v1") with true. cbn [negb].
  unfold parse_u64. rewrite parse_show_N by apply pass_cookie_exp_u64. rewrite N.ltb_antisym.
  fold (pass_cookie_exp t0 ttl).
  fold (pass_cookie_payload SECRET t0 ip ttl). rewrite verify_sign. cbn [negb].
  destruct (N.leb_spec now (pass_cookie_exp t0 ttl)) as [Hle|Hgt]; cbn [negb]; [|split; [done|lia]].
  destruct ip as [i|]; cbn [pass_cookie_tag from_option id fmap option_fmap option_map].
  - destruct (short_ip_tag SECRET i =s "-") eqn:Ed.
    { apply str_eqb_eq in Ed. exfalso. apply (tag_no "-"%byte i); [done|]. rewrite Ed. by apply list_elem_of_singleton. }
    cbn [negb]. destruct ip' as [i'|]; [|tauto].
    destruct (short_ip_tag SECRET i =s short_ip_tag SECRET i') eqn:E; cbn [negb].
    + apply str_eqb_eq in E. split; [intros _; by split|done].
    + apply str_eqb_neq in E. split; [intros ?; discriminate|]. intros [_ ?]. congruence.
  - change (bs "-" =s "-") with true. cbn [negb]. destruct ip'; tauto.
Qed.

(** A challenge is answered by the sum and by nothing else: the token
    minted for [a + b] is accepted exactly when it has not expired and the
    answer is a decimal number (spaces around it allowed) equal to the sum. *)
Theorem challenge_roundtrip a b t0 now answer :
  1 <= a < 20 -> 1 <= b < 20 ->
  verify_challenge_token SECRET now (ch_token (mint_challenge SECRET a b t0)) answer = true <->
  now <= saturating_add u64_max t0 CHALLENGE_TTL_SECS /\ parse_u32 (trim answer) = Some (a + b).
Proof.
  intros Ha Hb. rewrite verify_minted by lia. rewrite andb_true_iff, N.leb_le, bool_decide_eq_true. done.
Qed.

(** The verification endpoint hands out a cookie only for a signed,
    unexpired challenge answered correctly: success implies the token is
    [c1.a.b.exp.sig] with [sig] (up to case and spaces) the HMAC of the
    canonical payload, [now <= exp] and the answer [a + b]; and it redirects
    only to a path of this site (one leading slash, never two). *)
Theorem verify_and_pass_cookie_sound now token answer next ip ttl cookie loc :
  verify_and_pass_cookie SECRET now token answer next ip ttl = Ok (cookie, loc) ->
  (exists t ans p1 p2 p3 sig a b exp,
     token = Some t /\ answer = Some ans /\ split_on "." t = [bs "c1"; p1; p2; p3; sig] /\
     parse_u32 p1 = Some a /\ parse_u32 p2 = Some b /\ parse_u64 p3 = Some exp /\ now <= exp /\
     eq_ignore_ascii_case (sign SECRET (challenge_payload a b exp)) (trim sig) = true /\
     parse_u32 (trim ans) = Some (saturating_add u32_max a b)) /\
  cookie = mint_pass_cookie SECRET now ip ttl /\
  starts_with "/" loc = true /\ starts_with "//" loc = false.
Proof.
  unfold verify_and_pass_cookie. destruct token as [t|]; [|done]. destruct answer as [ans|]; [|done].
  cbn [ok_or mbind result_bind]. destruct (verify_challenge_token SECRET now t ans) eqn:Hv; [|done].
  cbn [negb]. intros [= <- <-]. split.
  - unfold verify_challenge_token in Hv.
    destruct (split_on "." t) as [|p0 [|p1 [|p2 [|p3 [|sig [|]]]]]] eqn:Es; try discriminate Hv.
    destruct (p0 =s "c1") eqn:E0; [|discriminate Hv]. apply str_eqb_eq in E0. cbn [negb] in Hv.
    destruct (parse_u32 p1) as [a|] eqn:E1; [|discriminate Hv].
    destruct (parse_u32 p2) as [b|] eqn:E2; [|discriminate Hv].
    destruct (parse_u64 p3) as [exp|] eqn:E3; [|discriminate Hv].
    destruct (exp <? now) eqn:E4; [discriminate Hv|]. destruct (verify_sig _ _ _) eqn:E5; [|discriminate Hv].
    cbn [negb] in Hv. destruct (parse_u32 (trim ans)) as [n|] eqn:E6; [|discriminate Hv]. bsimp. subst.
    exists t, ans, p1, p2, p3, sig, a, b, exp. split_and!; done.
  - split; [done|]. destruct (starts_with "/" _ && _) eqn:E; [|done]. by bsimp.
Qed.

(** The challenge page cannot be broken out of: the numbers of markup bytes
    (angle brackets and double quotes) in it do not depend on the requested
    path nor on the reason, whatever bytes they hold. *)
Theorem challenge_page_inert a b now next reason c :
  markup c ->
  count c (challenge_page SECRET a b now next reason).1 = count c (challenge_page SECRET a b now [] []).1.
Proof.
  intros Hm. unfold challenge_page. cbn [fst]. rewrite !count_app.
  rewrite !(count_not_elem c (html_escape _)) by (by apply html_escape_no_markup). done.
Qed.

End captcha_lemmas.

(** ** Concrete instance for the witnesses *)

Definition hex_digit (n : N) : byte := n2b (if n <? 10 then 48 + n else 87 + n).
Definition hex_pairs (s : str) : str :=
  mjoin ((fun b => [hex_digit (b2n b / 16); hex_digit (b2n b mod 16)]) <$> s).

Lemma hex_pairs_digits s : Forall (fun b => is_lower_hex b = true) (hex_pairs s).
Proof.
  unfold hex_pairs. induction s as [|b s IH]; [constructor|]. cbn [fmap list_fmap mjoin list_join].
  apply Forall_app. split; [|exact IH]. destruct b; repeat constructor.
Qed.

(** A stand-in for the MAC: key and message, so that it is injective on both. *)
Definition toy_crypto : Crypto :=
  {| hmac_sha256 := fun k m => m ++ k; hex_encode := hex_pairs; hex_encode_digits := hex_pairs_digits |}.

Lemma pass_cookie_roundtrip_witness :
  let c := @mint_pass_cookie toy_crypto "k" 1000 (Some (bs "1.2.3.4")) 3600 in
  @has_valid_pass_cookie toy_crypto "k" 4600
    (Some (join ";" [bs "lang=en"; bs " " ++ split_first ";" c])) (Some (bs "1.2.3.4")) = true.
Proof.
  intros c.
  refine (proj2 (@pass_cookie_roundtrip toy_crypto "k" 1000 (Some (bs "1.2.3.4")) 3600 4600 (Some (bs "1.2.3.4"))
    [bs "lang=en"] (bs " " ++ split_first ";" c) [] _ _ _) _).
  - repeat apply Forall_cons_2; try apply Forall_nil_2; apply (bool_decide_eq_false_1 _); vm_compute; reflexivity.
  - repeat apply Forall_cons_2; try apply Forall_nil_2. reflexivity.
  - vm_compute. reflexivity.
  - split; [vm_compute; discriminate|reflexivity].
Defined.

Lemma challenge_roundtrip_witness :
  @verify_challenge_token toy_crypto "k" 1500 (ch_token (@mint_challenge toy_crypto "k" 7 5 1000)) " 12" = true.
Proof.
  refine (proj2 (@challenge_roundtrip toy_crypto "k" 7 5 1000 1500 (bs " 12") _ _) _); try lia.
  split; [vm_compute; discriminate|vm_compute; reflexivity].
Defined.

Lemma verify_and_pass_cookie_sound_witness :
  let tok := ch_token (@mint_challenge toy_crypto "k" 7 5 1000) in
  let r := @verify_and_pass_cookie toy_crypto "k" 1500 (Some tok) (Some (bs "12")) (Some (bs "//evil")) None 60 in
  r = Ok (@mint_pass_cookie toy_crypto "k" 1500 None 60, bs "/") /\ starts_with "//" (bs "/") = false.
Proof.
  intros tok r. assert (Hr : r = Ok (@mint_pass_cookie toy_crypto "k" 1500 None 60, bs "/"))
    by (vm_compute; reflexivity).
  split; [exact Hr|].
  exact (proj2 (proj2 (proj2 (@verify_and_pass_cookie_sound toy_crypto "k" _ _ _ _ _ _ _ _ Hr)))).
Defined.

Lemma challenge_page_inert_witness :
  count x22 (@challenge_page toy_crypto "k" 7 5 1000 [x22; ">"%byte; "<"%byte] "bot").1 =
  count x22 (@challenge_page toy_crypto "k" 7 5 1000 [] []).1.
Proof. apply (@challenge_page_inert toy_crypto). right. right. reflexivity. Defined.
