(* ===== verification/Security.v ===== *)
(** * The security pipeline ([src/src/security/mod.rs])

    The combined WAF / bot / captcha policy, its evaluation on a request, and
    the Kubernetes annotations that carry it. *)

From S2P Require Import Prelude RustStr Ip GeoIp Waf Bot Captcha.

(** ** The policy *)

Record SecurityPolicy := mkSecurityPolicy { waf : WafPolicy; bot : BotPolicy; captcha : CaptchaPolicy }.

Definition security_default : SecurityPolicy := mkSecurityPolicy waf_default bot_default captcha_default.

Definition security_is_active (p : SecurityPolicy) : bool :=
  waf_is_active (waf p) || bot_is_active (bot p) || captcha_enabled (captcha p).

Definition security_is_default (p : SecurityPolicy) : bool :=
  waf_is_default (waf p) && bot_is_default (bot p) && captcha_is_default (captcha p).

Definition security_normalized (p : SecurityPolicy) : SecurityPolicy :=
  mkSecurityPolicy (waf_normalized (waf p)) (bot_normalized (bot p)) (captcha_normalized (captcha p)).

(** ** Decisions *)

Inductive SecurityAction : Type := SecAllow | SecLog | SecChallenge | SecBlock.

#[export] Instance SecurityAction_eq_dec : EqDecision SecurityAction.
Proof. solve_decision. Defined.

Record SecurityDecision := mkSecurityDecision {
  sec_action : SecurityAction;
  sec_reason : str;
  sec_detail : str;
  sec_bot_score : option N;
  sec_waf_rule : option str;
}.

Section evaluate.
Context `{Crypto}.
Variable SECRET : str.
(** Wall-clock seconds, for the pass cookie. *)
Variable now_secs : N.

Definition resolve_challenge (p : SecurityPolicy) (req : RequestView) : SecurityAction :=
  if captcha_enabled (captcha p) && has_valid_pass_cookie SECRET now_secs (rv_cookie req) (rv_client_ip req)
  then SecAllow
  else if captcha_enabled (captcha p) then SecChallenge
  else SecBlock.

Definition from_bot (p : SecurityPolicy) (req : RequestView) (sc : BotScore) (waf_rule : option str)
    (prefer_log : bool) : SecurityDecision :=
  mkSecurityDecision
    match verdict sc with
    | BotAllow => if prefer_log then SecLog else SecAllow
    | BotChallenge => resolve_challenge p req
    | BotBlock => SecBlock
    end
    match verdict sc with
    | BotAllow => if prefer_log then bs "waf-log" else bs "bot-allow"
    | BotChallenge => bs "bot-challenge"
    | BotBlock => bs "bot-block"
    end
    (if prefer_log then default (join "," (reasons sc)) waf_rule else join "," (reasons sc))
    (Some (score sc)) waf_rule.

(** [evaluate]; [now] is the monotonic clock of the rate counter, whose map is threaded through. *)
Definition evaluate (now : N) (m : RateMap) (p : SecurityPolicy) (req : RequestView)
  : SecurityDecision * RateMap :=
  if negb (security_is_active p) then (mkSecurityDecision SecAllow "off" [] None None, m)
  else
    let after_waf :=
      if bot_is_active (bot p) then
        let '(sc, m) := score_bot now m (bot p) req in (from_bot p req sc None false, m)
      else (mkSecurityDecision SecAllow "allow" [] None None, m) in
    match evaluate_waf (waf p) req with
    | Some hit =>
      match hit_action hit with
      | WafLog =>
        if bot_is_active (bot p) then
          let '(sc, m) := score_bot now m (bot p) req in (from_bot p req sc (Some (hit_rule_id hit)) true, m)
        else (mkSecurityDecision SecLog "waf-log" (hit_rule_id hit) None (Some (hit_rule_id hit)), m)
      | WafChallenge =>
        (mkSecurityDecision (resolve_challenge p req) "waf-challenge" (hit_rule_id hit) None
           (Some (hit_rule_id hit)), m)
      | WafBlock =>
        (mkSecurityDecision SecBlock "waf-block" (hit_rule_id hit) None (Some (hit_rule_id hit)), m)
      end
    | None => after_waf
    end.

End evaluate.

(** ** Annotations *)

Definition ann_waf_enabled : str := "proxy.pertisk.tech/waf-enabled".
Definition ann_waf_builtin : str := "proxy.pertisk.tech/waf-builtin".
Definition ann_bot_enabled : str := "proxy.pertisk.tech/bot-enabled".
Definition ann_bot_challenge : str := "proxy.pertisk.tech/bot-challenge-score".
Definition ann_bot_block : str := "proxy.pertisk.tech/bot-block-score".
Definition ann_bot_rate : str := "proxy.pertisk.tech/bot-rate-limit".
Definition ann_captcha_enabled : str := "proxy.pertisk.tech/captcha-enabled".
Definition ann_captcha_ttl : str := "proxy.pertisk.tech/captcha-ttl-secs".

Definition ANNOTATION_KEYS : list str :=
  [ann_waf_enabled; ann_waf_builtin; ann_bot_enabled; ann_bot_challenge; ann_bot_block; ann_bot_rate;
   ann_captcha_enabled; ann_captcha_ttl].

Definition ann_u32 (m : gmap str str) (key : str) (dflt : N) : N :=
  default dflt (v ← m !! key; parse_u32 (trim v)).

Definition sec_policy_from_annotations (annotations : option (gmap str str)) : SecurityPolicy :=
  match annotations with
  | None => security_default
  | Some m =>
    if flag_true m ann_security_exempt then security_default
    else
      let waf_en := flag_true m ann_waf_enabled in
      let bot_en := flag_true m ann_bot_enabled in
      let captcha_en := flag_true m ann_captcha_enabled in
      security_normalized
        (mkSecurityPolicy
           (mkWafPolicy waf_en (waf_en || flag_true m ann_waf_builtin) [])
           (mkBotPolicy bot_en (ann_u32 m ann_bot_challenge 40) (ann_u32 m ann_bot_block 80)
              (ann_u32 m ann_bot_rate 120))
           (mkCaptchaPolicy captcha_en (ann_u32 m ann_captcha_ttl 86400)))
  end.

Definition show_bool (b : bool) : str := if b then bs "true" else bs "false".

Definition sec_apply_annotations (m : gmap str str) (policy : SecurityPolicy) : gmap str str :=
  let m := foldr delete m ANNOTATION_KEYS in
  let p := security_normalized policy in
  if security_is_default p then m
  else
    let m :=
      if waf_enabled (waf p) then
        <[ann_waf_builtin := show_bool (use_builtin_rules (waf p))]> (<[ann_waf_enabled := bs "true"]> m)
      else m in
    let m :=
      if bot_enabled (bot p) then
        <[ann_bot_rate := show_N (rate_limit_per_min (bot p))]>
          (<[ann_bot_block := show_N (block_score (bot p))]>
             (<[ann_bot_challenge := show_N (challenge_score (bot p))]>
                (<[ann_bot_enabled := bs "true"]> m)))
      else m in
    if captcha_enabled (captcha p) then
      <[ann_captcha_ttl := show_N (cookie_ttl_secs (captcha p))]> (<[ann_captcha_enabled := bs "true"]> m)
    else m.

(** ** Lemmas *)

Lemma captcha_normalized_idemp p : captcha_normalized (captcha_normalized p) = captcha_normalized p.
Proof. unfold captcha_normalized. case_if; simpl; [done|by rewrite E]. Qed.

Lemma security_normalized_idemp p : security_normalized (security_normalized p) = security_normalized p.
Proof.
  unfold security_normalized. simpl.
  by rewrite waf_normalized_idemp, bot_normalized_idemp, captcha_normalized_idemp.
Qed.

(** The scores of a policy are [u32] values, its cookie lifetime a [u64]. *)
Definition security_typed (p : SecurityPolicy) : Prop :=
  challenge_score (bot p) <= u32_max /\ block_score (bot p) <= u32_max /\
  rate_limit_per_min (bot p) <= u32_max /\ cookie_ttl_secs (captcha p) <= u64_max.

Lemma security_normalized_typed p : security_typed p -> security_typed (security_normalized p).
Proof.
  unfold security_typed, security_normalized, bot_normalized, captcha_normalized,
    default_challenge_score, default_block_score, default_rate_limit, default_cookie_ttl, u32_max, u64_max.
  simpl. intros (H1 & H2 & H3 & H4). repeat case_if; simpl; bsimp; lia.
Qed.

(** What the written annotations say, key by key. *)
Definition sec_written (p : SecurityPolicy) (k : str) : option str :=
  if security_is_default p then None
  else if waf_enabled (waf p) && (k =s ann_waf_enabled) then Some (bs "true")
  else if waf_enabled (waf p) && (k =s ann_waf_builtin) then Some (show_bool (use_builtin_rules (waf p)))
  else if bot_enabled (bot p) && (k =s ann_bot_enabled) then Some (bs "true")
  else if bot_enabled (bot p) && (k =s ann_bot_challenge) then Some (show_N (challenge_score (bot p)))
  else if bot_enabled (bot p) && (k =s ann_bot_block) then Some (show_N (block_score (bot p)))
  else if bot_enabled (bot p) && (k =s ann_bot_rate) then Some (show_N (rate_limit_per_min (bot p)))
  else if captcha_enabled (captcha p) && (k =s ann_captcha_enabled) then Some (bs "true")
  else if captcha_enabled (captcha p) && (k =s ann_captcha_ttl) then Some (show_N (cookie_ttl_secs (captcha p)))
  else None.

Ltac other_key := rewrite lookup_insert_ne by key_ne.

Lemma foldr_delete_ne m ks (k : str) : k ∉ ks -> foldr delete m ks !! k = (m : gmap str str) !! k.
Proof.
  induction ks as [|k' ks IH]; [done|]. intros [Hne Hk]%not_elem_of_cons. simpl.
  rewrite lookup_delete_ne by done. by apply IH.
Qed.

Lemma sec_apply_lookup m p k :
  k ∈ ANNOTATION_KEYS -> sec_apply_annotations m p !! k = sec_written (security_normalized p) k.
Proof.
  intros Hk. unfold sec_apply_annotations, sec_written.
  assert (Hdel : foldr delete m ANNOTATION_KEYS !! k = None) by (by apply foldr_delete_in).
  set (q := security_normalized p). destruct (security_is_default q); [exact Hdel|].
  unfold ANNOTATION_KEYS in Hk. rewrite !elem_of_cons, elem_of_nil in Hk.
  repeat destruct Hk as [->|Hk]; try done;
    destruct (waf_enabled (waf q)), (bot_enabled (bot q)), (captcha_enabled (captcha q));
    cbn [andb]; repeat (rewrite lookup_insert_eq || other_key); exact Hdel || reflexivity.
Qed.

Lemma sec_apply_other m p k : k ∉ ANNOTATION_KEYS -> sec_apply_annotations m p !! k = m !! k.
Proof.
  intros Hk. unfold sec_apply_annotations.
  assert (Hdel : foldr delete m ANNOTATION_KEYS !! k = m !! k) by (by apply foldr_delete_ne).
  unfold ANNOTATION_KEYS in Hk. rewrite !not_elem_of_cons in Hk. destruct_and!.
  set (q := security_normalized p).
  destruct (security_is_default q); [done|].
  destruct (waf_enabled (waf q)), (bot_enabled (bot q)), (captcha_enabled (captcha q));
    rewrite ?lookup_insert_ne by congruence; exact Hdel.
Qed.

(** The admission test the pipeline makes for a challenged request. *)
Definition passed_captcha `{Crypto} SECRET now_secs (p : SecurityPolicy) (req : RequestView) : Prop :=
  captcha_enabled (captcha p) = true /\
  has_valid_pass_cookie SECRET now_secs (rv_cookie req) (rv_client_ip req) = true.

Definition admits (a : SecurityAction) : Prop := a = SecAllow \/ a = SecLog.

Lemma resolve_challenge_admits `{Crypto} SECRET now_secs p req :
  admits (resolve_challenge SECRET now_secs p req) <-> passed_captcha SECRET now_secs p req.
Proof.
  unfold resolve_challenge, passed_captcha, admits.
  destruct (captcha_enabled _), (has_valid_pass_cookie _ _ _ _); simpl; split; intros; destruct_or?; destruct_and?;
    try done; by left.
Qed.

Lemma from_bot_admits `{Crypto} SECRET now_secs p req sc w l :
  admits (sec_action (from_bot SECRET now_secs p req sc w l)) <->
  verdict sc = BotAllow \/ (verdict sc = BotChallenge /\ passed_captcha SECRET now_secs p req).
Proof.
  unfold from_bot. cbn [sec_action]. destruct (verdict sc).
  - split; [by left|]. intros _. destruct l; [by right|by left].
  - rewrite resolve_challenge_admits. split; [by right|]. by intros [?|[_ ?]].
  - unfold admits. split; [by intros [?|?]|]. by intros [?|[? _]].
Qed.

(** Reading the written annotations back, flag by flag and number by number. *)
Lemma sec_default_flags p :
  security_is_default p = true ->
  waf_enabled (waf p) = false /\ bot_enabled (bot p) = false /\ captcha_enabled (captcha p) = false.
Proof.
  unfold security_is_default, waf_is_default, bot_is_default, captcha_is_default. intros Hd. bsimp. done.
Qed.

Lemma sec_written_flag m p k (en : bool) :
  k ∈ ANNOTATION_KEYS -> sec_written (security_normalized p) k = (if en then Some (bs "true") else None) ->
  flag_true (sec_apply_annotations m p) k = en.
Proof. intros Hk Hw. unfold flag_true. rewrite sec_apply_lookup, Hw by done. by destruct en. Qed.

Lemma sec_written_u32 m p k (en : bool) n d :
  k ∈ ANNOTATION_KEYS -> sec_written (security_normalized p) k = (if en then Some (show_N n) else None) ->
  ann_u32 (sec_apply_annotations m p) k d = if en then default d (parse_u32 (show_N n)) else d.
Proof.
  intros Hk Hw. unfold ann_u32. rewrite sec_apply_lookup, Hw by done. destruct en; [|done].
  cbn [mbind option_bind]. by rewrite trim_show_N.
Qed.

Ltac read_key :=
  first [apply (bool_decide_eq_true_1 _); vm_compute; reflexivity
        | unfold sec_written;
          match goal with |- context [security_is_default ?q] =>
            destruct (security_is_default q) eqn:Ed;
            [apply sec_default_flags in Ed as (Ew & Eb & Ec); rewrite ?Ew, ?Eb, ?Ec; reflexivity|];
            destruct (waf_enabled (waf q)), (bot_enabled (bot q)), (captcha_enabled (captcha q)); reflexivity
          end].

Lemma sec_apply_read m p (q := security_normalized p) (m' := sec_apply_annotations m p) :
  flag_true m' ann_waf_enabled = waf_enabled (waf q) /\
  flag_true m' ann_bot_enabled = bot_enabled (bot q) /\
  flag_true m' ann_captcha_enabled = captcha_enabled (captcha q) /\
  ann_u32 m' ann_bot_challenge 40 = (if bot_enabled (bot q) then default 40 (parse_u32 (show_N (challenge_score (bot q)))) else 40) /\
  ann_u32 m' ann_bot_block 80 = (if bot_enabled (bot q) then default 80 (parse_u32 (show_N (block_score (bot q)))) else 80) /\
  ann_u32 m' ann_bot_rate 120 = (if bot_enabled (bot q) then default 120 (parse_u32 (show_N (rate_limit_per_min (bot q)))) else 120) /\
  ann_u32 m' ann_captcha_ttl 86400 = (if captcha_enabled (captcha q) then default 86400 (parse_u32 (show_N (cookie_ttl_secs (captcha q)))) else 86400).
Proof.
  unfold m', q. split_and!; first [apply sec_written_flag; read_key | apply sec_written_u32; read_key].
Qed.

Lemma parse_show_u32_big n : u32_max < n -> parse_u32 (show_N n) = None.
Proof.
  intros Hn. unfold parse_u32, parse_uint. pose proof (show_N_nonempty n). pose proof (show_N_digits n) as Hd.
  pose proof (parse_digits_show n) as Hp. destruct (show_N n) as [|c s] eqn:E; [done|].
  apply Forall_cons in Hd as [Hc _]. rewrite bool_decide_false by (intros ->; done). rewrite Hp. simpl.
  by rewrite (proj2 (N.leb_gt _ _)).
Qed.

(** ** Properties *)

(** C5: Who gets through the security pipeline.  A request is admitted exactly
    when the policy is off, or no WAF rule blocks it, a rule that challenges it
    is answered by a valid pass cookie, and otherwise the bot score (when bot
    checks are on) is below the challenge threshold, or below the block
    threshold with a valid pass cookie.  A pass cookie never overrides a block. *)
Theorem evaluate_admits_iff `{Crypto} SECRET now_secs now m p req :
  admits (sec_action (evaluate SECRET now_secs now m p req).1) <->
  security_is_active p = false \/
  match hit_action <$> evaluate_waf (waf p) req with
  | Some WafBlock => False
  | Some WafChallenge => passed_captcha SECRET now_secs p req
  | Some WafLog | None =>
    bot_is_active (bot p) = false \/
    let v := verdict (score_bot now m (bot p) req).1 in
    v = BotAllow \/ (v = BotChallenge /\ passed_captcha SECRET now_secs p req)
  end.
Proof.
  unfold evaluate. destruct (security_is_active p); cbn [negb].
  2: { split; [by left|]. by left. }
  destruct (evaluate_waf (waf p) req) as [[rid []]|]; cbn [hit_action hit_rule_id fmap option_fmap option_map].
  - unfold admits. simpl. split; [by intros [?|?]|by intros [?|?]].
  - destruct (bot_is_active (bot p)); [|split; [by right; left|by right]].
    destruct (score_bot now m (bot p) req) as [sc m']. cbn [fst]. rewrite from_bot_admits.
    split; [by right; right|]. intros [?|[?|?]]; done.
  - cbn [fst sec_action]. rewrite resolve_challenge_admits. split; [by right|]. by intros [?|?].
  - destruct (bot_is_active (bot p)); [|split; [by right; left|by left]].
    destruct (score_bot now m (bot p) req) as [sc m']. cbn [fst]. rewrite from_bot_admits.
    split; [by right; right|]. intros [?|[?|?]]; done.
Qed.

Lemma evaluate_admits_iff_witness :
  let p := mkSecurityPolicy (mkWafPolicy false false []) (mkBotPolicy true 40 80 120) (mkCaptchaPolicy true 60) in
  let cookie := split_first ";" (@mint_pass_cookie toy_crypto "k" 1000 None 60) in
  let req := mkRequestView "GET" "/" [] None None None (Some cookie) None in
  admits (sec_action (@evaluate toy_crypto "k" 1010 0 ∅ p req).1).
Proof.
  intros p cookie req. refine (proj2 (@evaluate_admits_iff toy_crypto "k" 1010 0 ∅ p req) _).
  right. right. right. split; [vm_compute; reflexivity|]. split; [reflexivity|vm_compute; reflexivity].
Defined.

(** A policy part that annotations can say in full: custom rules cannot be said, the
    built-in rules follow the switch, the settings of a part that is off are not
    written, and a cookie lifetime is read with 32 bits. *)
Definition waf_expressible (w : WafPolicy) : Prop := waf_rules w = [] /\ use_builtin_rules w = waf_enabled w.
Definition bot_expressible (b : BotPolicy) : Prop := bot_enabled b = true \/ b = bot_default.
Definition captcha_expressible (c : CaptchaPolicy) : Prop :=
  (captcha_enabled c = true /\ cookie_ttl_secs c <= u32_max) \/ c = captcha_default.

(** [q'] is what is read of the policy [q]: every switch as it was, and each part the
    same exactly when annotations can say it. *)
Record sec_read_of (q q' : SecurityPolicy) : Prop := {
  read_waf_switch : waf_enabled (waf q') = waf_enabled (waf q);
  read_bot_switch : bot_enabled (bot q') = bot_enabled (bot q);
  read_captcha_switch : captcha_enabled (captcha q') = captcha_enabled (captcha q);
  read_waf : waf q' = waf q <-> waf_expressible (waf q);
  read_bot : bot q' = bot q <-> bot_expressible (bot q);
  read_captcha : captcha q' = captcha q <-> captcha_expressible (captcha q);
}.

Lemma bot_part b : bot_normalized b = b ->
  bot_normalized (if bot_enabled b then b else mkBotPolicy false 40 80 120) = (if bot_enabled b then b else bot_default).
Proof. intros Hn. by destruct (bot_enabled b). Qed.

(** The switches and settings the written annotations hold. *)
Lemma sec_read_exact m p (q := security_normalized p) :
  security_typed p -> flag_true m ann_security_exempt = false ->
  sec_policy_from_annotations (Some (sec_apply_annotations m p)) =
  mkSecurityPolicy (mkWafPolicy (waf_enabled (waf q)) (waf_enabled (waf q)) [])
    (if bot_enabled (bot q) then bot q else bot_default)
    (if captcha_enabled (captcha q)
     then if cookie_ttl_secs (captcha q) <=? u32_max then captcha q else mkCaptchaPolicy true default_cookie_ttl
     else captcha_default).
Proof.
  intros Ht He. destruct (security_normalized_typed p Ht) as (H1 & H2 & H3 & _).
  destruct (sec_apply_read m p) as (Ew & Eb & Ec & E1 & E2 & E3 & E4).
  assert (Ex : flag_true (sec_apply_annotations m p) ann_security_exempt = false).
  { unfold flag_true in *. by rewrite sec_apply_other by (apply (bool_decide_eq_false_1 _); vm_compute; reflexivity). }
  assert (Eq : waf_enabled (waf q) || flag_true (sec_apply_annotations m p) ann_waf_builtin = waf_enabled (waf q)).
  { destruct (waf_enabled (waf q)) eqn:Ewq; [done|]. cbn.
    apply sec_written_flag with (en := false); [apply (bool_decide_eq_true_1 _); vm_compute; reflexivity|].
    unfold sec_written. fold q. rewrite Ewq. destruct (security_is_default q); [done|].
    by destruct (bot_enabled (bot q)), (captcha_enabled (captcha q)). }
  unfold sec_policy_from_annotations. rewrite Ex, Ew, Eb, Ec, E1, E2, E3, E4. fold q. fold q in H1, H2, H3. rewrite Eq.
  unfold parse_u32 at 1 2 3. rewrite !parse_show_N by done. cbn [from_option id]. unfold security_normalized. cbn [waf bot captcha].
  f_equal.
  - rewrite <- (bot_part (bot q)) by apply bot_normalized_idemp. f_equal. by destruct (bot q) as [[] c b r].
  - pose proof (captcha_normalized_idemp (captcha p)) as Hc. fold (captcha q) in Hc. change (captcha_normalized (captcha p)) with (captcha q) in Hc.
    destruct (captcha q) as [[] ttl]; [|reflexivity]. cbn [captcha_enabled cookie_ttl_secs] in *. case_if; bsimp.
    + unfold parse_u32. by rewrite parse_show_N.
    + by rewrite parse_show_u32_big.
Qed.

(** What survives the Kubernetes annotations of the security policy: reading what
    [apply_annotations] wrote gives every switch of the normal form, and each part of it
    exactly when annotations can say it.  Annotations of others are kept. *)
Theorem sec_annotations_roundtrip m p :
  security_typed p -> flag_true m ann_security_exempt = false ->
  sec_read_of (security_normalized p) (sec_policy_from_annotations (Some (sec_apply_annotations m p))) /\
  (forall k, k ∉ ANNOTATION_KEYS -> sec_apply_annotations m p !! k = m !! k).
Proof.
  intros Ht He. split; [|apply sec_apply_other]. rewrite sec_read_exact by done. set (q := security_normalized p).
  split; cbn [waf bot captcha waf_enabled].
  - done.
  - by destruct (bot_enabled (bot q)) eqn:Eb.
  - destruct (captcha_enabled (captcha q)) eqn:Ec; [|done]. by destruct (_ <=? _).
  - unfold waf_expressible. destruct (waf q) as [en bi rs]. cbn. split; [by intros [= <- <-]|by intros [-> ->]].
  - unfold bot_expressible. destruct (bot_enabled (bot q)) eqn:Eb; [split; [by left|done]|].
    split; [by right|]. by intros [?|?].
  - unfold captcha_expressible. destruct (captcha_enabled (captcha q)) eqn:Ec.
    + destruct (_ <=? _) eqn:El; bsimp; [split; [by left|done]|].
      split; [intros Hq; rewrite <- Hq in El; by vm_compute in El|].
      intros [[_ ?]|Hq]; [lia|]. by rewrite Hq in Ec.
    + split; [by right|]. by intros [[? _]|?].
Qed.

Lemma sec_annotations_roundtrip_witness :
  let p := mkSecurityPolicy (mkWafPolicy true true []) (mkBotPolicy true 0 30 9) (mkCaptchaPolicy true 60) in
  bot (sec_policy_from_annotations (Some (sec_apply_annotations ∅ p))) = mkBotPolicy true 40 40 9.
Proof.
  intros p. refine (proj2 (read_bot _ _ (proj1 (sec_annotations_roundtrip ∅ p _ _))) _); [|reflexivity|by left].
  vm_compute. repeat split; discriminate.
Defined.

(** Finding: the [waf-builtin] annotation has no effect.  A policy with the
    WAF on and the built-in rules off is written as [waf-builtin: "false"], but
    reading it back turns the built-in rules on ([waf_enabled || flag]), so a
    site that relies on its own rules gets requests blocked by built-in ones. *)
Theorem waf_builtin_annotation_ignored :
  let p := mkSecurityPolicy (mkWafPolicy true false []) bot_default captcha_default in
  let m := sec_apply_annotations ∅ p in
  m !! ann_waf_builtin = Some (bs "false") /\
  use_builtin_rules (waf p) = false /\
  use_builtin_rules (waf (sec_policy_from_annotations (Some m))) = true.
Proof. vm_compute. repeat split. Qed.
