(* ===== verification/Edge.v ===== *)
(** * Edge state ([src/src/edge/mod.rs]: cache, rate windows, Consul, TLS probes)

    The process-wide tables of the edge features and every operation on them.
    A [Mutex<HashMap>] is a [gmap] threaded through; an [Instant] is a number of
    nanoseconds, [now_second()] an argument.  A poisoned lock (a panic while it
    is held) is not modelled: the one operation that can panic is [cache_put], on a
    lifetime so long (from some 2^63 seconds on, which nothing in the configuration
    forbids) that the instant of its end overflows; lifetimes are below that here. *)

From S2P Require Import Prelude RustStr Bot.

(** ** Configuration data *)

Inductive TlsGrade : Type := High | Medium | Unsafe.

Definition grade_as_str (g : TlsGrade) : str :=
  match g with High => bs "high" | Medium => bs "medium" | Unsafe => bs "unsafe" end.

Record ConsulConfig := mkConsulConfig {
  consul_address : str;
  consul_token : option str;
  consul_datacenter : option str;
}.

Record EdgeGlobals := mkEdgeGlobals {
  tls_grade : TlsGrade;
  cache_size_mb : N;
  cache_ttl_secs : N;
  consul : option ConsulConfig;
  jwt_secret : option str;
}.

Definition default_cache_ttl : N := 60.
Definition edge_globals_default : EdgeGlobals := mkEdgeGlobals Medium 0 default_cache_ttl None None.

Inductive RouteAuth : Type :=
| Basic (username password : str)
| ApiKey (key : str)
| Jwt (secret : str)
| ForwardAuth (url : str).

#[export] Instance RouteAuth_eq_dec : EqDecision RouteAuth.
Proof. solve_decision. Defined.

Record EdgePolicy := mkEdgePolicy {
  auth : option RouteAuth;
  rate_limit_rps : N;
  x4xx_limit_rps : N;
  policy_cache : option bool;
}.

Definition edge_policy_default : EdgePolicy := mkEdgePolicy None 0 0 None.

#[export] Instance EdgePolicy_eq_dec : EqDecision EdgePolicy.
Proof. solve_decision. Defined.

(** The cipher list and the TLS 1.3 suites [apply_tls_grade] sets, if any. *)
Definition apply_tls_grade (g : TlsGrade) : option str * option str :=
  match g with
  | Medium => (None, None)
  | High =>
    (Some (bs "ECDHE-ECDSA-AES128-GCM-SHA256:ECDHE-RSA-AES128-GCM-SHA256:" ++
           bs "ECDHE-ECDSA-AES256-GCM-SHA384:ECDHE-RSA-AES256-GCM-SHA384:" ++
           bs "ECDHE-ECDSA-CHACHA20-POLY1305:ECDHE-RSA-CHACHA20-POLY1305"),
     Some (bs "TLS_AES_128_GCM_SHA256:TLS_AES_256_GCM_SHA384:TLS_CHACHA20_POLY1305_SHA256"))
  | Unsafe => (Some (bs "ALL:@SECLEVEL=0"), None)
  end.

(** ** Response cache *)

Record CachedResponse := mkCachedResponse {
  resp_status : N;
  resp_headers : list (str * str);
  resp_body : str;
}.

Record CacheEntry := mkCacheEntry { entry_response : CachedResponse; expires : N; entry_bytes : N }.

Record CacheInner := mkCacheInner { entries : gmap str CacheEntry; cache_bytes : N }.

Definition cache_empty : CacheInner := mkCacheInner ∅ 0.

(** [remove] with its accounting, as both operations write it. *)
Definition cache_remove (c : CacheInner) (key : str) : CacheInner :=
  match entries c !! key with
  | Some old => mkCacheInner (delete key (entries c)) (saturating_sub (cache_bytes c) (entry_bytes old))
  | None => c
  end.

Definition cache_get (now : N) (key : str) (c : CacheInner) : option CachedResponse * CacheInner :=
  let expired := default false ((fun e => expires e <=? now) <$> entries c !! key) in
  if expired then (None, cache_remove c key)
  else (entry_response <$> entries c !! key, c).

Definition response_size (key : str) (r : CachedResponse) : N :=
  N.of_nat (length (resp_body r))
  + foldr (fun kv acc => N.of_nat (length kv.1) + N.of_nat (length kv.2) + acc) 0 (resp_headers r)
  + N.of_nat (length key).

Section cache.
(** [keys().next()]: the key a [HashMap] happens to yield first. *)
Variable first_key : gmap str CacheEntry -> option str.

(** The eviction loop, with one unit of fuel per entry. *)
Fixpoint cache_evict (fuel : nat) (sz max_bytes : N) (c : CacheInner) : CacheInner :=
  match fuel with
  | O => c
  | S fuel' =>
    if (max_bytes <? cache_bytes c + sz) && negb (bool_decide (entries c = ∅)) then
      match first_key (entries c) with
      | Some drop_key => cache_evict fuel' sz max_bytes (cache_remove c drop_key)
      | None => c
      end
    else c
  end.

(** [now + ttl] is an instant: see above for the lifetimes it exists for. *)
Definition cache_put (now : N) (key : str) (r : CachedResponse) (ttl max_bytes : N) (c : CacheInner) : CacheInner :=
  if (max_bytes =? 0) || (ttl =? 0) then c
  else
    let sz := response_size key r in
    if (max_bytes <? sz) || (1024 * 1024 <? sz) then c
    else
      let c := cache_remove c key in
      let c := cache_evict (S (size (entries c))) sz max_bytes c in
      mkCacheInner (<[key := mkCacheEntry r (now + ttl) sz]> (entries c)) (saturating_add u64_max (cache_bytes c) sz).

(** The calls the proxy makes on the cache. *)
Inductive cache_op : Type :=
| CacheGet (now : N) (key : str)
| CachePut (now : N) (key : str) (r : CachedResponse) (ttl max_bytes : N).

Definition cache_step (c : CacheInner) (op : cache_op) : CacheInner :=
  match op with
  | CacheGet now key => (cache_get now key c).2
  | CachePut now key r ttl max_bytes => cache_put now key r ttl max_bytes c
  end.

End cache.

Definition cache_enabled (g : EdgeGlobals) (p : EdgePolicy) : bool :=
  if cache_size_mb g =? 0 then false else default true (policy_cache p).

(** ** Per-second windows *)

Record Window := mkWindow { win_second : N; win_count : N }.
Abbreviation Windows := (gmap str Window).

Definition rate_limited (sec : N) (key : str) (limit : N) (ws : Windows) : bool * Windows :=
  if limit =? 0 then (false, ws)
  else
    let entry := default (mkWindow sec 0) (ws !! key) in
    let entry := if negb (win_second entry =? sec) then mkWindow sec 0 else entry in
    if limit <=? win_count entry then (true, <[key := entry]> ws)
    else (false, <[key := mkWindow (win_second entry) (saturating_add u32_max (win_count entry) 1)]> ws).

Definition key_4xx (client_ip host : str) : str := bs "4xx|" ++ client_ip ++ bs "|" ++ host.

Definition note_4xx (sec : N) (client_ip host : str) (ws : Windows) : Windows :=
  (rate_limited sec (key_4xx client_ip host) u32_max ws).2.

Definition x4xx_blocked (sec : N) (client_ip host : str) (limit : N) (ws : Windows) : bool :=
  if limit =? 0 then false
  else
    match ws !! key_4xx client_ip host with
    | Some entry => (win_second entry =? sec) && (limit <=? win_count entry)
    | None => false
    end.

(** ** Consul discovery *)

Record ConsulState := mkConsulState { endpoints : gmap str (list (str * N)); rr : N }.

Definition usize_mod : N := 2 ^ 64.

Definition consul_pick (service : str) (st : ConsulState) : option (str * N) * ConsulState :=
  match endpoints st !! service with
  | None => (None, st)
  | Some l =>
    if is_empty l then (None, st)
    else
      let idx := rr st mod N.of_nat (length l) in
      (l !! N.to_nat idx, mkConsulState (endpoints st) ((rr st + 1) mod usize_mod))
  end.

Definition consul_set (service : str) (eps : list (str * N)) (st : ConsulState) : ConsulState :=
  mkConsulState (<[service := eps]> (endpoints st)) (rr st).

(** What the code reads of one item of the service's health response. *)
Record ConsulItem := mkConsulItem {
  service_port : option N;
  service_address : option str;
  node_address : option str;
}.

Definition nonempty_opt (o : option str) : option str := opt_filter (fun s => negb (is_empty s)) o.

Definition item_endpoint (it : ConsulItem) : option (str * N) :=
  let port := as_u16 (default 0 (service_port it)) in
  if port =? 0 then None
  else
    match nonempty_opt (service_address it) with
    | Some a => Some (a, port)
    | None => (fun a => (a, port)) <$> nonempty_opt (node_address it)
    end.

Definition is_slash (b : byte) : bool := bool_decide (b = "/"%byte).

Definition consul_url (cfg : ConsulConfig) (service : str) : str :=
  let url := trim_end_matches is_slash (consul_address cfg) ++ bs "/v1/health/service/" ++ service
             ++ bs "?passing=true" in
  match nonempty_opt (consul_datacenter cfg) with
  | Some dc => url ++ bs "&dc=" ++ dc
  | None => url
  end.

(** [consul_refresh]; [fetch url token] is the response body when the request
    succeeds and is a JSON array. *)
Definition consul_refresh (fetch : str -> option str -> option (list ConsulItem)) (cfg : ConsulConfig)
    (services : list str) (st : ConsulState) : ConsulState :=
  foldl (fun st service =>
    match fetch (consul_url cfg service) (nonempty_opt (consul_token cfg)) with
    | None => st
    | Some items =>
      let eps := omap item_endpoint items in
      if is_empty eps then st else consul_set service eps st
    end) st services.

(** ** Upstream TLS probes *)

Record TlsProbe := mkTlsProbe { use_tls : bool; probed_at : N }.

(** What the network does during a probe: whether the name resolves, the
    connection opens and the hello is written, and the first byte read back. *)
Record ProbeIo := mkProbeIo {
  io_resolves : bool;
  io_connects : bool;
  io_writes : bool;
  io_reads : option byte;
}.

Definition tcp_looks_like_tls (io : ProbeIo) (port : N) : bool :=
  if negb (io_resolves io) then port =? 443
  else if negb (io_connects io) then port =? 443
  else if negb (io_writes io) then false
  else match io_reads io with Some b => bool_decide (b = x16) | None => false end.

Definition probe_upstream_tls (now : N) (io : ProbeIo) (host : str) (port : N)
    (ps : gmap str TlsProbe) : bool * gmap str TlsProbe :=
  let key := host ++ bs ":" ++ show_N port in
  match opt_filter (fun hit => duration_since now (probed_at hit) <? secs 300) (ps !! key) with
  | Some hit => (use_tls hit, ps)
  | None => let b := tcp_looks_like_tls io port in (b, <[key := mkTlsProbe b now]> ps)
  end.

(** ** Lemmas: cache accounting *)

Definition total_bytes (m : gmap str CacheEntry) : N := map_fold (fun _ e acc => entry_bytes e + acc) 0 m.

Lemma total_bytes_delete m k e :
  m !! k = Some e -> total_bytes m = entry_bytes e + total_bytes (delete k m).
Proof.
  intros Hk. unfold total_bytes.
  apply (map_fold_delete_L (fun _ e acc => entry_bytes e + acc) 0 k e m); [intros; lia|done].
Qed.

Lemma total_bytes_insert m k e :
  m !! k = None -> total_bytes (<[k := e]> m) = entry_bytes e + total_bytes m.
Proof.
  intros Hk. unfold total_bytes.
  apply (map_fold_insert_L (fun _ e acc => entry_bytes e + acc) 0 k e m); [intros; lia|done].
Qed.

(** The cache's invariant: the byte count is the sum over the entries, and each
    entry is charged the size of its key and response, at most one mebibyte. *)
Definition cache_ok (c : CacheInner) : Prop :=
  cache_bytes c = total_bytes (entries c) /\
  forall k e, entries c !! k = Some e ->
    entry_bytes e = response_size k (entry_response e) /\ entry_bytes e <= 1024 * 1024.

Lemma cache_ok_empty : cache_ok cache_empty.
Proof. split; [done|]. intros k e Hk. simpl in Hk. by rewrite lookup_empty in Hk. Qed.

Lemma cache_remove_ok c k : cache_ok c -> cache_ok (cache_remove c k).
Proof.
  intros [Hb He]. unfold cache_remove. destruct (entries c !! k) as [e|] eqn:Ek; [|by split].
  split; simpl.
  - unfold saturating_sub. rewrite Hb, (total_bytes_delete _ _ _ Ek). lia.
  - intros k' e' Hk'. apply lookup_delete_Some in Hk' as [_ Hk']. by apply He.
Qed.

Lemma cache_remove_le c k : cache_bytes (cache_remove c k) <= cache_bytes c.
Proof. unfold cache_remove. destruct (entries c !! k); simpl; unfold saturating_sub; lia. Qed.

Lemma cache_remove_entries c k : entries (cache_remove c k) = delete k (entries c).
Proof.
  unfold cache_remove. destruct (entries c !! k) eqn:E; [done|]. by rewrite delete_id.
Qed.

Section cache_lemmas.
Variable first_key : gmap str CacheEntry -> option str.
(** Iterating over a non-empty map yields one of its keys first. *)
Hypothesis first_key_in : forall m, m <> ∅ -> exists k, first_key m = Some k /\ is_Some (m !! k).

Lemma cache_evict_ok fuel sz mx c : cache_ok c -> cache_ok (cache_evict first_key fuel sz mx c).
Proof.
  revert c. induction fuel as [|fuel IH]; intros c Hc; [done|]. simpl. case_if; [|done].
  destruct (first_key (entries c)); [|done]. by apply IH, cache_remove_ok.
Qed.

Lemma cache_evict_le fuel sz mx c : cache_bytes (cache_evict first_key fuel sz mx c) <= cache_bytes c.
Proof.
  revert c. induction fuel as [|fuel IH]; intros c; [simpl; lia|]. simpl. case_if; [|lia].
  destruct (first_key (entries c)) as [k|]; [|lia].
  pose proof (IH (cache_remove c k)). pose proof (cache_remove_le c k). lia.
Qed.

Lemma cache_evict_sub fuel sz mx c : entries (cache_evict first_key fuel sz mx c) ⊆ entries c.
Proof.
  revert c. induction fuel as [|fuel IH]; intros c; [done|]. simpl. case_if; [|done].
  destruct (first_key (entries c)) as [k|]; [|done]. etrans; [apply IH|].
  rewrite cache_remove_entries. apply delete_subseteq.
Qed.

(** The loop ends with room for the new entry: one unit of fuel per entry suffices. *)
Lemma cache_evict_room fuel sz mx c :
  cache_ok c -> sz <= mx -> (size (entries c) < fuel)%nat ->
  cache_bytes (cache_evict first_key fuel sz mx c) + sz <= mx.
Proof.
  revert c. induction fuel as [|fuel IH]; intros c Hok Hsz Hf; [lia|]. simpl.
  destruct (N.ltb_spec mx (cache_bytes c + sz)) as [Hlt|Hge]; [|simpl; lia].
  destruct (bool_decide (entries c = ∅)) eqn:Ee; cbn [andb negb].
  - bsimp. destruct Hok as [Hb _]. rewrite Ee in Hb. unfold total_bytes in Hb.
    rewrite map_fold_empty in Hb. lia.
  - bsimp. destruct (first_key_in (entries c) Ee) as (k & -> & [e Hk]).
    apply IH; [by apply cache_remove_ok|done|]. rewrite cache_remove_entries.
    pose proof (map_size_delete_Some k (entries c)) as Hs. rewrite Hs by eauto.
    assert (size (entries c) <> 0%nat) by (rewrite map_size_non_empty_iff; done). lia.
Qed.

Lemma cache_put_cases now key r ttl mx c :
  cache_ok c ->
  cache_put first_key now key r ttl mx c = c \/
  (let sz := response_size key r in
   0 < ttl /\ sz <= mx /\ sz <= 1024 * 1024 /\
   exists m, m ⊆ delete key (entries c) /\
     entries (cache_put first_key now key r ttl mx c) = <[key := mkCacheEntry r (now + ttl) sz]> m /\
     (mx <= u64_max -> cache_bytes (cache_put first_key now key r ttl mx c) = total_bytes m + sz /\
                       total_bytes m + sz <= mx)).
Proof.
  intros Hok. unfold cache_put. set (sz := response_size key r).
  destruct ((mx =? 0) || (ttl =? 0)) eqn:E1; [by left|].
  destruct ((mx <? sz) || (1024 * 1024 <? sz)) eqn:E2; [by left|]. right.
  bsimp. set (c1 := cache_remove c key). set (c2 := cache_evict _ _ _ _ _).
  assert (Hok1 : cache_ok c1) by (by apply cache_remove_ok).
  assert (Hok2 : cache_ok c2) by (by apply cache_evict_ok).
  assert (Hroom : cache_bytes c2 + sz <= mx) by (apply cache_evict_room; [done|done|lia]).
  split_and!; [lia|done|done|]. exists (entries c2). split_and!.
  - etrans; [apply cache_evict_sub|]. unfold c1. by rewrite cache_remove_entries.
  - done.
  - intros Hu. simpl. destruct Hok2 as [<- _]. unfold saturating_add. lia.
Qed.

Lemma cache_put_ok now key r ttl mx c :
  mx <= u64_max -> cache_ok c -> cache_ok (cache_put first_key now key r ttl mx c).
Proof.
  intros Hu Hok. destruct (cache_put_cases now key r ttl mx c Hok) as [->|(Ht & H1 & H2 & m & Hm & He & Hb)]; [done|].
  destruct (Hb Hu) as [Hb1 Hb2]. split.
  - rewrite Hb1, He, total_bytes_insert; [simpl; lia|]. apply lookup_weaken_None with (delete key (entries c)); [|done].
    apply lookup_delete_eq.
  - intros k e. rewrite He. intros [[<- <-]|[Hne Hk]]%lookup_insert_Some; [by split|].
    apply (lookup_weaken _ _ _ _ Hk) in Hm. apply lookup_delete_Some in Hm as [_ Hm]. by apply Hok.
Qed.

(** Calls made with one memory budget. *)
Definition op_within (budget : N) (op : cache_op) : Prop :=
  match op with CacheGet _ _ => True | CachePut _ _ _ _ mx => mx <= budget end.

Lemma cache_step_ok budget c op :
  budget <= u64_max -> op_within budget op -> cache_ok c -> cache_bytes c <= budget ->
  cache_ok (cache_step first_key c op) /\ cache_bytes (cache_step first_key c op) <= budget.
Proof.
  intros Hu Hop Hok Hb. destruct op as [now key|now key r ttl mx]; simpl in *.
  - unfold cache_get. destruct (default false _); simpl; [|done].
    split; [by apply cache_remove_ok|]. pose proof (cache_remove_le c key). lia.
  - split; [apply cache_put_ok; [lia|done]|].
    destruct (cache_put_cases now key r ttl mx c Hok) as [->|(_ & _ & _ & m & _ & _ & H)]; [done|].
    destruct H; lia.
Qed.

(** ** Properties: the cache *)

(** C6: The response cache stays within its budget: after any sequence of
    lookups and stores whose budgets are at most [budget], whatever order the
    hash map yields its keys in for eviction, the byte counter is exactly the
    sum of the sizes of the stored entries, each entry is charged its own size
    (at most one mebibyte), and the total never exceeds the budget. *)
Theorem cache_budget_invariant budget ops :
  budget <= u64_max -> Forall (op_within budget) ops ->
  let c := foldl (cache_step first_key) cache_empty ops in
  cache_ok c /\ cache_bytes c <= budget.
Proof.
  intros Hu HF. cut (forall c, cache_ok c -> cache_bytes c <= budget ->
    cache_ok (foldl (cache_step first_key) c ops) /\ cache_bytes (foldl (cache_step first_key) c ops) <= budget).
  { intros H. apply H; [apply cache_ok_empty|simpl; lia]. }
  induction HF as [|op ops Hop HF IH]; intros c Hok Hb; [done|]. simpl.
  destruct (cache_step_ok budget c op) as [Hok' Hb']; try done. by apply IH.
Qed.

(** A stored response is served until it expires and never after: a store
    that the limits allow is returned by every lookup of the key before
    [now + ttl] and by none from then on; and it leaves any other key either
    as it was or evicted. *)
Theorem cache_put_get now key r ttl mx c t :
  cache_ok c -> 0 < ttl -> response_size key r <= mx -> response_size key r <= 1024 * 1024 -> 0 < mx ->
  let c' := cache_put first_key now key r ttl mx c in
  (cache_get t key c').1 = (if t <? now + ttl then Some r else None) /\
  (forall k, k <> key -> entries c' !! k = entries c !! k \/ entries c' !! k = None).
Proof.
  intros Hok Ht H1 H2 H3 c'. unfold c'.
  assert (Hc : exists m, m ⊆ delete key (entries c) /\
    entries (cache_put first_key now key r ttl mx c) = <[key := mkCacheEntry r (now + ttl) (response_size key r)]> m).
  { unfold cache_put. rewrite (proj2 (N.eqb_neq mx 0)), (proj2 (N.eqb_neq ttl 0)) by lia.
    rewrite (proj2 (N.ltb_ge mx _)), (proj2 (N.ltb_ge (1024 * 1024) _)) by done. cbn [orb].
    eexists. split; [|reflexivity]. etrans; [apply cache_evict_sub|]. by rewrite cache_remove_entries. }
  destruct Hc as (m & Hm & He). split.
  - unfold cache_get. rewrite He, lookup_insert_eq. cbn [fmap option_fmap option_map from_option id expires].
    rewrite N.leb_antisym. by destruct (t <? now + ttl).
  - intros k Hk. rewrite He, lookup_insert_ne by done. destruct (m !! k) as [e|] eqn:Ek; [|by right].
    left. apply (lookup_weaken _ _ _ _ Ek) in Hm. by apply lookup_delete_Some in Hm as [_ ->].
Qed.

End cache_lemmas.

(** One order of iteration, for the witnesses. *)
Definition some_first_key (m : gmap str CacheEntry) : option str := fst <$> head (map_to_list m).

Lemma some_first_key_in m : m <> ∅ -> exists k, some_first_key m = Some k /\ is_Some (m !! k).
Proof.
  intros Hm. unfold some_first_key. destruct (map_to_list m) as [|[k e] l] eqn:E.
  - by apply map_to_list_empty_iff in E.
  - exists k. split; [done|]. exists e. apply elem_of_map_to_list. rewrite E. by left.
Qed.

Lemma cache_budget_invariant_witness :
  let r := mkCachedResponse 200 [] (bs "hello") in
  let ops := [CachePut 0 "a" r 10 8; CachePut 1 "b" r 10 8; CacheGet 2 "a"; CacheGet 2 "b"] in
  cache_bytes (foldl (cache_step some_first_key) cache_empty ops) = 6 /\
  cache_bytes (foldl (cache_step some_first_key) cache_empty ops) <= 8.
Proof.
  intros r ops. split; [vm_compute; reflexivity|].
  apply (cache_budget_invariant some_first_key some_first_key_in 8 ops); [vm_compute; discriminate|].
  repeat apply Forall_cons_2; try apply Forall_nil_2; vm_compute; try discriminate; exact I.
Defined.

Lemma cache_put_get_witness :
  let r := mkCachedResponse 200 [] (bs "hello") in
  let c' := cache_put some_first_key 100 "a" r 10 8 cache_empty in
  (cache_get 109 "a" c').1 = Some r /\ (cache_get 110 "a" c').1 = None.
Proof.
  intros r c'. split.
  - refine (proj1 (cache_put_get some_first_key 100 "a" r 10 8 cache_empty 109 cache_ok_empty _ _ _ _));
      vm_compute; reflexivity || discriminate.
  - refine (proj1 (cache_put_get some_first_key 100 "a" r 10 8 cache_empty 110 cache_ok_empty _ _ _ _));
      vm_compute; reflexivity || discriminate.
Defined.

(** ** Lemmas: windows *)

(** A call of [rate_limited]: second, key, limit. *)
Definition win_call : Type := N * str * N.
Definition wc_sec (c : win_call) : N := c.1.1.
Definition wc_key (c : win_call) : str := c.1.2.
Definition wc_limit (c : win_call) : N := c.2.

Fixpoint run_windows (ws : Windows) (calls : list win_call) : Windows :=
  match calls with
  | [] => ws
  | c :: cs => run_windows (rate_limited (wc_sec c) (wc_key c) (wc_limit c) ws).2 cs
  end.

(** How many calls on [key] in second [sec] were counted: they had a limit and
    were not rejected. *)
Fixpoint counted (key : str) (sec : N) (ws : Windows) (calls : list win_call) : N :=
  match calls with
  | [] => 0
  | c :: cs =>
    let '(rejected, ws') := rate_limited (wc_sec c) (wc_key c) (wc_limit c) ws in
    (if bool_decide (wc_key c = key) && (wc_sec c =? sec) && negb (wc_limit c =? 0) && negb rejected then 1 else 0)
    + counted key sec ws' cs
  end.

Fixpoint secs_monotone (t : N) (calls : list win_call) : Prop :=
  match calls with [] => True | c :: cs => t <= wc_sec c /\ secs_monotone (wc_sec c) cs end.

(** The count a table holds for a key in a given second. *)
Definition window_count (ws : Windows) (key : str) (sec : N) : N :=
  match ws !! key with Some w => if win_second w =? sec then win_count w else 0 | None => 0 end.

Definition windows_upto (t : N) (ws : Windows) : Prop := forall k w, ws !! k = Some w -> win_second w <= t.

Lemma rate_limited_same sec key limit ws :
  limit <= u32_max ->
  (rate_limited sec key limit ws).1 = negb (limit =? 0) && (limit <=? window_count ws key sec) /\
  window_count (rate_limited sec key limit ws).2 key sec =
    window_count ws key sec + (if negb (limit =? 0) && negb (rate_limited sec key limit ws).1 then 1 else 0).
Proof.
  intros Hl. unfold rate_limited. destruct (N.eqb_spec limit 0) as [->|Hl0]; [simpl; split; [done|lia]|]. cbn [negb andb].
  set (e := if negb (win_second (default (mkWindow sec 0) (ws !! key)) =? sec) then mkWindow sec 0
            else default (mkWindow sec 0) (ws !! key)).
  assert (He : win_second e = sec /\ win_count e = window_count ws key sec).
  { unfold e, window_count. destruct (ws !! key) as [w|]; simpl.
    - destruct (N.eqb_spec (win_second w) sec); done.
    - by rewrite N.eqb_refl. }
  destruct He as [Hs Hc]. rewrite Hc. destruct (N.leb_spec limit (window_count ws key sec)) as [Hle|Hgt]; simpl.
  - split; [done|]. unfold window_count at 1. rewrite lookup_insert_eq, Hs, N.eqb_refl. lia.
  - split; [done|]. unfold window_count at 1. rewrite lookup_insert_eq. simpl. rewrite Hs, N.eqb_refl.
    unfold saturating_add. lia.
Qed.

Lemma rate_limited_other sec key limit ws key' sec' :
  key <> key' \/ (sec < sec' /\ windows_upto sec ws) ->
  window_count (rate_limited sec key limit ws).2 key' sec' = window_count ws key' sec'.
Proof.
  intros Hk. unfold rate_limited. destruct (limit =? 0); [done|].
  set (e := if negb _ then _ else _).
  assert (Hs : win_second e = sec).
  { unfold e. destruct (N.eqb_spec (win_second (default (mkWindow sec 0) (ws !! key))) sec); done. }
  assert (Hin : forall w, win_second w = sec -> window_count (<[key := w]> ws) key' sec' = window_count ws key' sec').
  { intros w Hw. unfold window_count. destruct (decide (key = key')) as [<-|Hne]; [|by rewrite lookup_insert_ne].
    destruct Hk as [?|[Hlt Hup]]; [done|]. rewrite lookup_insert_eq, Hw, (proj2 (N.eqb_neq _ _)) by lia.
    destruct (ws !! key) as [w0|] eqn:E; [|done]. apply Hup in E. by rewrite (proj2 (N.eqb_neq _ _)) by lia. }
  destruct (limit <=? win_count e); apply Hin; [done|]. simpl. done.
Qed.

Lemma rate_limited_upto sec key limit ws t :
  t <= sec -> windows_upto t ws -> windows_upto sec (rate_limited sec key limit ws).2.
Proof.
  intros Ht Hup. assert (Hup' : windows_upto sec ws) by (intros k w Hw; apply Hup in Hw; lia).
  unfold rate_limited. destruct (limit =? 0); [done|]. set (e := if negb _ then _ else _).
  assert (Hs : win_second e = sec).
  { unfold e. destruct (N.eqb_spec (win_second (default (mkWindow sec 0) (ws !! key))) sec); done. }
  destruct (limit <=? win_count e); intros k w; cbn [snd]; intros [[_ <-]|[_ Hw]]%lookup_insert_Some; simpl; try lia; by eapply Hup'.
Qed.

Lemma run_windows_count key sec calls ws t :
  Forall (fun c => wc_limit c <= u32_max) calls ->
  secs_monotone t calls -> windows_upto t ws -> Forall (fun c => wc_sec c <= sec) calls ->
  window_count (run_windows ws calls) key sec = window_count ws key sec + counted key sec ws calls.
Proof.
  intros HF. revert ws t. induction HF as [|c cs Hl HF IH]; intros ws t Hm Hup Hs; [simpl; lia|].
  destruct Hm as [Ht Hm]. apply Forall_cons_1 in Hs as [Hcs Hs]. cbn [run_windows counted].
  pose proof (rate_limited_upto (wc_sec c) (wc_key c) (wc_limit c) ws t Ht Hup) as Hup'.
  pose proof (rate_limited_same (wc_sec c) (wc_key c) (wc_limit c) ws Hl) as [_ Hsame].
  pose proof (rate_limited_other (wc_sec c) (wc_key c) (wc_limit c) ws key sec) as Hother.
  destruct (rate_limited (wc_sec c) (wc_key c) (wc_limit c) ws) as [rej ws'] eqn:E. cbn [fst snd] in *.
  rewrite (IH ws' (wc_sec c)) by done.
  destruct (decide (wc_key c = key)) as [<-|Hne].
  - destruct (N.eqb_spec (wc_sec c) sec) as [<-|Hsec].
    + rewrite Hsame, bool_decide_true by done. cbn [andb]. lia.
    + rewrite Hother, andb_false_r by (right; split; [lia|intros k w Hw; apply Hup in Hw; lia]). simpl. lia.
  - rewrite Hother, bool_decide_false by (done || by left). simpl. lia.
Qed.

(** Seconds that have passed count no more calls. *)
Lemma counted_past key sec cs ws t : secs_monotone t cs -> sec < t -> counted key sec ws cs = 0.
Proof.
  revert ws t. induction cs as [|c cs IH]; intros ws t Hm Ht; [done|]. destruct Hm as [H1 Hm]. cbn [counted].
  destruct (rate_limited _ _ _ _) as [r w]. rewrite (proj2 (N.eqb_neq (wc_sec c) sec)) by lia.
  rewrite andb_false_r. cbn [andb]. rewrite (IH w (wc_sec c)); [done|done|lia].
Qed.

Lemma counted_bound key sec limit calls ws t :
  Forall (fun c => wc_key c = key -> wc_limit c = limit) calls -> limit <= u32_max ->
  window_count ws key sec <= limit -> secs_monotone t calls -> windows_upto t ws ->
  window_count ws key sec + counted key sec ws calls <= limit.
Proof.
  intros HF Hl. revert ws t. induction HF as [|c cs Hc HF IH]; intros ws t Hw Hm Hup; [simpl; lia|].
  destruct Hm as [Ht Hm]. cbn [counted].
  pose proof (rate_limited_upto (wc_sec c) (wc_key c) (wc_limit c) ws t Ht Hup) as Hup'.
  pose proof (rate_limited_same (wc_sec c) (wc_key c) (wc_limit c) ws) as Hsame.
  pose proof (rate_limited_other (wc_sec c) (wc_key c) (wc_limit c) ws key sec) as Hother.
  destruct (rate_limited (wc_sec c) (wc_key c) (wc_limit c) ws) as [rej ws'] eqn:E. cbn [fst snd] in *.
  destruct (decide (wc_key c = key)) as [Hk|Hne].
  - rewrite (Hc Hk) in *. destruct (Hsame Hl) as [Hrej Hcount]. rewrite Hk in *.
    rewrite bool_decide_true by done. destruct (N.eqb_spec (wc_sec c) sec) as [Hsec|Hsec]; cbn [andb].
    + rewrite Hsec in *. specialize (IH ws' sec). rewrite Hcount in IH.
      assert (Hle : window_count ws key sec + (if negb (limit =? 0) && negb rej then 1 else 0) <= limit).
      { rewrite Hrej. destruct (N.eqb_spec limit 0); simpl; [lia|].
        destruct (N.leb_spec limit (window_count ws key sec)); simpl; lia. }
      specialize (IH Hle Hm Hup'). lia.
    + destruct (N.lt_ge_cases (wc_sec c) sec) as [Hlt|Hge].
      * specialize (IH ws' (wc_sec c)). rewrite Hother in IH
          by (right; split; [lia|intros k w Hw'; apply Hup in Hw'; lia]). specialize (IH Hw Hm Hup'). lia.
      * rewrite (counted_past key sec cs ws' (wc_sec c)); [lia|done|lia].
  - rewrite bool_decide_false by done. cbn [andb]. specialize (IH ws' (wc_sec c)).
    rewrite Hother in IH by (by left). specialize (IH Hw Hm Hup'). lia.
Qed.

Lemma windows_upto_empty t : windows_upto t ∅.
Proof. intros k w Hw. by rewrite lookup_empty in Hw. Qed.

(** ** Lemmas: round robin *)

Fixpoint consul_picks (n : nat) (service : str) (st : ConsulState) : list (option (str * N)) * ConsulState :=
  match n with
  | O => ([], st)
  | S n' =>
    let '(e, st') := consul_pick service st in
    let '(es, st'') := consul_picks n' service st' in (e :: es, st'')
  end.

Lemma consul_pick_eq service l st :
  endpoints st !! service = Some l -> l <> [] -> rr st + 1 < usize_mod ->
  consul_pick service st =
    (l !! N.to_nat (rr st mod N.of_nat (length l)), mkConsulState (endpoints st) (rr st + 1)).
Proof.
  intros Hl Hne Hr. unfold consul_pick. rewrite Hl, (N.mod_small (rr st + 1)) by done.
  by destruct l.
Qed.

Lemma consul_picks_lookup service l n st i :
  endpoints st !! service = Some l -> l <> [] -> rr st + N.of_nat n <= usize_mod -> (i < n)%nat ->
  (consul_picks n service st).1 !! i = Some (l !! N.to_nat ((rr st + N.of_nat i) mod N.of_nat (length l))).
Proof.
  intros Hl Hne. revert st i Hl. induction n as [|n IH]; intros st i Hl Hr Hi; [lia|].
  cbn [consul_picks]. unfold consul_pick. rewrite Hl. destruct l as [|e l]; [done|]. cbn [is_empty].
  set (st' := mkConsulState (endpoints st) ((rr st + 1) mod usize_mod)).
  destruct (consul_picks n service st') as [es st''] eqn:E. cbn [fst].
  destruct i as [|i]; [by rewrite N.add_0_r|]. transitivity (es !! i); [done|].
  specialize (IH st' i Hl). rewrite E in IH. unfold st' in IH. cbn [fst rr] in IH.
  destruct (N.eq_dec (rr st + 1) usize_mod) as [Hw|Hw]; [lia|].
  rewrite N.mod_small in IH by lia. rewrite IH by lia. do 4 f_equal. lia.
Qed.

Lemma consul_picks_length n service st : length (consul_picks n service st).1 = n.
Proof.
  revert st. induction n as [|n IH]; intros st; [done|]. cbn [consul_picks].
  destruct (consul_pick service st) as [e st']. specialize (IH st').
  destruct (consul_picks n service st'). simpl in *. lia.
Qed.

Lemma rotate_lookup {A} (l : list A) k i :
  (k < length l)%nat -> (i < length l)%nat -> (drop k l ++ take k l) !! i = l !! ((k + i) mod length l)%nat.
Proof.
  intros Hk Hi. destruct (decide (k + i < length l)%nat) as [Hlt|Hge].
  - rewrite lookup_app_l by (rewrite length_drop; lia). rewrite lookup_drop. by rewrite Nat.mod_small by lia.
  - rewrite lookup_app_r by (rewrite length_drop; lia). rewrite length_drop.
    rewrite lookup_take_lt by lia. f_equal. apply (Nat.mod_unique _ _ 1); lia.
Qed.

(** ** Properties: windows and discovery *)

(** C7: Rate limiting is exact: after any history of calls in non-decreasing
    seconds, over any keys and limits, a call is rejected exactly when the
    calls already admitted for its key in the current second reach the limit;
    with one limit per key no more than that are ever admitted in a second; and
    the 4xx guard blocks exactly from the [limit]-th client error of the second. *)
Theorem rate_limit_exact calls t sec key limit ip host :
  Forall (fun c => wc_limit c <= u32_max) calls -> secs_monotone t calls ->
  Forall (fun c => wc_sec c <= sec) calls -> limit <= u32_max ->
  let ws := run_windows ∅ calls in
  (rate_limited sec key limit ws).1 = negb (limit =? 0) && (limit <=? counted key sec ∅ calls) /\
  (Forall (fun c => wc_key c = key -> wc_limit c = limit) calls -> counted key sec ∅ calls <= limit) /\
  x4xx_blocked sec ip host limit ws = negb (limit =? 0) && (limit <=? counted (key_4xx ip host) sec ∅ calls).
Proof.
  intros HF Hm Hs Hl ws.
  assert (Hc : forall k, window_count ws k sec = counted k sec ∅ calls).
  { intros k. unfold ws. rewrite (run_windows_count k sec calls ∅ t HF Hm (windows_upto_empty t) Hs).
    unfold window_count. by rewrite lookup_empty. }
  split; [|split].
  - rewrite (proj1 (rate_limited_same sec key limit ws Hl)). by rewrite Hc.
  - intros Hk. pose proof (counted_bound key sec limit calls ∅ t Hk Hl) as Hb.
    unfold window_count in Hb. rewrite lookup_empty in Hb.
    specialize (Hb ltac:(lia) Hm (windows_upto_empty t)). lia.
  - rewrite <- Hc. unfold x4xx_blocked, window_count. destruct (N.eqb_spec limit 0); [done|]. cbn [negb andb].
    destruct (ws !! key_4xx ip host) as [w|]; [destruct (win_second w =? sec)|]; simpl; try done;
      symmetry; apply N.leb_gt; lia.
Qed.

Lemma rate_limit_exact_witness :
  let calls := [(7, bs "rps|a|h", 2); (7, bs "rps|b|h", 2); (7, bs "rps|a|h", 2)] in
  (rate_limited 7 "rps|a|h" 2 (run_windows ∅ calls)).1 = true.
Proof.
  intros calls. rewrite (proj1 (rate_limit_exact calls 7 7 "rps|a|h" 2 "a" "h"
    ltac:(repeat apply Forall_cons_2; try apply Forall_nil_2; vm_compute; discriminate)
    ltac:(vm_compute; repeat split; discriminate)
    ltac:(repeat apply Forall_cons_2; try apply Forall_nil_2; vm_compute; discriminate)
    ltac:(vm_compute; discriminate))).
  vm_compute. reflexivity.
Defined.

(** Discovery balances the load: consecutive picks of a service walk its
    endpoint list in order from the shared counter and wrap around, so any
    [length l] consecutive picks use every endpoint exactly once. *)
Theorem consul_round_robin service l st :
  endpoints st !! service = Some l -> l <> [] -> rr st + N.of_nat (length l) <= usize_mod ->
  let k := N.to_nat (rr st mod N.of_nat (length l)) in
  (consul_picks (length l) service st).1 = Some <$> (drop k l ++ take k l) /\
  (consul_picks (length l) service st).1 ≡ₚ Some <$> l.
Proof.
  intros Hl Hne Hr k.
  assert (Hlen : (0 < length l)%nat) by (destruct l; [done|simpl; lia]).
  assert (Hk : (k < length l)%nat).
  { unfold k. pose proof (N.mod_lt (rr st) (N.of_nat (length l)) ltac:(lia)). lia. }
  assert (He : (consul_picks (length l) service st).1 = Some <$> (drop k l ++ take k l)).
  { apply list_eq. intros i. destruct (decide (i < length l)%nat) as [Hi|Hi].
    - rewrite (consul_picks_lookup service l) by done. rewrite list_lookup_fmap, rotate_lookup by done.
      replace (N.to_nat ((rr st + N.of_nat i) mod N.of_nat (length l))) with ((k + i) mod length l)%nat.
      + destruct (lookup_lt_is_Some_2 l ((k + i) mod length l)%nat) as [x ->]; [apply Nat.mod_upper_bound; lia|done].
      + unfold k. apply Nat2N.inj. by rewrite Nat2N.inj_mod, Nat2N.inj_add, !N2Nat.id, N.Div0.add_mod_idemp_l.
    - rewrite !lookup_ge_None_2; [done|..].
      + rewrite length_fmap, length_app, length_drop, length_take. lia.
      + rewrite consul_picks_length. lia. }
  split; [exact He|]. rewrite He. apply fmap_Permutation. rewrite Permutation_app_comm, take_drop. done.
Qed.

Lemma consul_round_robin_witness :
  let l := [(bs "10.0.0.1", 80); (bs "10.0.0.2", 80); (bs "10.0.0.3", 80)] in
  let st := mkConsulState {[bs "api" := l]} 4 in
  (consul_picks 3 "api" st).1 = [Some (bs "10.0.0.2", 80); Some (bs "10.0.0.3", 80); Some (bs "10.0.0.1", 80)].
Proof.
  intros l st. exact (proj1 (consul_round_robin "api" l st eq_refl ltac:(discriminate) ltac:(vm_compute; discriminate))).
Defined.

(** Finding: the round-robin counter is shared by all services.  When two
    services with two endpoints each are picked in turn, every pick of a
    service yields the same endpoint and the other one never gets traffic. *)
Theorem consul_shared_counter_starves :
  let st := mkConsulState (<[bs "a" := [(bs "a1", 80); (bs "a2", 80)]]> {[bs "b" := [(bs "b1", 80); (bs "b2", 80)]]}) 0 in
  let turn st := let '(x, st) := consul_pick "a" st in let '(y, st) := consul_pick "b" st in ((x, y), st) in
  forall n : nat, N.of_nat n < 2 ^ 62 ->
    (turn (Nat.iter n (fun s => (turn s).2) st)).1 = (Some (bs "a1", 80), Some (bs "b2", 80)).
Proof.
  intros st turn n Hn.
  assert (Ht : forall k, k < 2 ^ 62 -> turn (mkConsulState (endpoints st) (2 * k)) =
    ((Some (bs "a1", 80), Some (bs "b2", 80)), mkConsulState (endpoints st) (2 * (k + 1)))).
  { intros k Hk. unfold turn, usize_mod in *.
    rewrite (consul_pick_eq "a" [(bs "a1", 80); (bs "a2", 80)]); [|reflexivity|done|unfold usize_mod; simpl; lia].
    rewrite (consul_pick_eq "b" [(bs "b1", 80); (bs "b2", 80)]); [|reflexivity|done|unfold usize_mod; simpl; lia].
    cbn [rr endpoints length]. rewrite (N.mul_comm 2 k), N.Div0.mod_mul, N.Div0.add_mod, N.Div0.mod_mul.
    f_equal. f_equal. lia. }
  assert (Hi : Nat.iter n (fun s => (turn s).2) st = mkConsulState (endpoints st) (2 * N.of_nat n)).
  { induction n as [|n IH]; [reflexivity|]. simpl Nat.iter. rewrite IH, Ht by lia. cbn [snd]. f_equal. lia. }
  by rewrite Hi, Ht by lia.
Qed.

Lemma consul_shared_counter_starves_witness :
  let st := mkConsulState (<[bs "a" := [(bs "a1", 80); (bs "a2", 80)]]> {[bs "b" := [(bs "b1", 80); (bs "b2", 80)]]}) 0 in
  let turn st := let '(x, st) := consul_pick "a" st in let '(y, st) := consul_pick "b" st in ((x, y), st) in
  (turn (Nat.iter 3 (fun s => (turn s).2) st)).1 = (Some (bs "a1", 80), Some (bs "b2", 80)).
Proof. exact (consul_shared_counter_starves 3 ltac:(vm_compute; reflexivity)). Defined.
