(* ===== verification/EdgeAuth.v ===== *)
(** * Route authentication and static files ([src/src/edge/mod.rs])

    URL-safe base64, HS256 tokens, HTTP basic credentials, bearer and query
    tokens, the per-route authentication decision, the subrequest of forward
    authentication, and the file a static route serves.  Request headers are a
    lookup from lower-case names to the header's text. *)

From S2P Require Import Prelude RustStr Edge Captcha.

(** ** Base64 *)

Definition B64_TABLE : str := "ABCDEFGHIJKLMNOPQRSTUVWXYZabcdefghijklmnopqrstuvwxyz0123456789-_".

(** [T[i as usize]]; the index is always below 64. *)
Definition b64_char (i : N) : byte := default x00 (B64_TABLE !! N.to_nat i).

Definition sextet (n k : N) : byte := b64_char (N.land (N.shiftr n k) 63).

Fixpoint b64url_encode (data : str) : str :=
  match data with
  | a :: b :: c :: rest =>
    let n := N.lor (N.lor (N.shiftl (b2n a) 16) (N.shiftl (b2n b) 8)) (b2n c) in
    sextet n 18 :: sextet n 12 :: sextet n 6 :: sextet n 0 :: b64url_encode rest
  | [a; b] =>
    let n := N.lor (N.shiftl (b2n a) 16) (N.shiftl (b2n b) 8) in
    [sextet n 18; sextet n 12; sextet n 6]
  | [a] => let n := N.shiftl (b2n a) 16 in [sextet n 18; sextet n 12]
  | [] => []
  end.

Definition b64_val (c : byte) : option N :=
  let n := b2n c in
  if (65 <=? n) && (n <=? 90) then Some (n - 65)
  else if (97 <=? n) && (n <=? 122) then Some (n - 97 + 26)
  else if (48 <=? n) && (n <=? 57) then Some (n - 48 + 52)
  else if (n =? 45) || (n =? 43) then Some 62
  else if (n =? 95) || (n =? 47) then Some 63
  else None.

(** The loop of [b64url_decode]: [buf] holds the [bits] bits not yet emitted. *)
Fixpoint b64_loop (s : str) (buf bits : N) : option str :=
  match s with
  | [] => Some []
  | c :: s' =>
    if decide (c = "="%byte) then Some []
    else
      v ← b64_val c;
      let buf := N.lor (N.shiftl buf 6) v in
      let bits := bits + 6 in
      if 8 <=? bits then
        let bits := bits - 8 in
        out ← b64_loop s' (N.land buf (N.shiftl 1 bits - 1)) bits;
        Some (n2b (N.shiftr buf bits) :: out)
      else b64_loop s' buf bits
  end.

Definition b64url_decode (data : str) : option str := b64_loop data 0 0.

(** [while padded.len() % 4 != 0 { padded.push('=') }]. *)
Definition pad4 (s : str) : str := s ++ replicate ((4 - length s mod 4) mod 4) "="%byte.

Definition b64url_decode_std (data : str) : option str :=
  b64url_decode (pad4 (replace_byte "/" (bs "_") (replace_byte "+" (bs "-") (trim data)))).

(** ** Tokens *)

(** [Mac::verify_slice] accepts the message's tag and nothing else. *)
Class MacVerify `{Crypto} := {
  verify_slice : str -> str -> str -> bool;
  verify_slice_spec : forall key msg tag, verify_slice key msg tag = true <-> tag = hmac_sha256 key msg;
}.

Section jwt.
Context `{MacVerify}.

Definition sign_hs256 (secret msg : str) : str := b64url_encode (hmac_sha256 secret msg).

Definition hmac_eq (secret msg sig : str) : bool :=
  match b64url_decode sig with
  | None => false
  | Some bytes => verify_slice secret msg bytes
  end.

Definition jwt_header : str := tmpl "{`alg`:`HS256`,`typ`:`JWT`}".

Definition jwt_payload (owner : str) (exp : N) : str :=
  tmpl "{`sub`:`" ++ owner ++ tmpl "`,`exp`:" ++ show_N exp ++ bs "}".

Definition jwt_exp (now valid_minutes : N) : N :=
  saturating_add u64_max now (N.max (saturating_mul u64_max valid_minutes 60) 60).

Definition issue_jwt (now : N) (secret owner : str) (valid_minutes : N) : str :=
  let header := b64url_encode jwt_header in
  let exp := jwt_exp now valid_minutes in
  let payload := b64url_encode (jwt_payload owner exp) in
  let signing := header ++ bs "." ++ payload in
  signing ++ bs "." ++ sign_hs256 secret signing.

Definition exp_marker : str := tmpl "`exp`:".
Definition not_digit (b : byte) : bool := negb (is_ascii_digit b).

(** The expiry a decoded payload states: the number after the first ["exp":]. *)
Definition payload_exp (raw : str) : option N :=
  s ← split_str_nth1 exp_marker raw;
  d ← head (split not_digit (trim_start s));
  parse_u64 d.

Definition verify_jwt (now : N) (secret token : str) : bool :=
  match split_on "." token with
  | [header; payload; sig] =>
    let signing := header ++ bs "." ++ payload in
    if negb (hmac_eq secret signing sig) then false
    else
      match from_utf8 (default [] (b64url_decode payload)) with
      | None => false
      | Some raw =>
        match payload_exp raw with
        | None => false
        | Some exp => now <=? exp
        end
      end
  | _ => false
  end.

(** ** Credentials *)

Definition basic_credentials (header : option str) : option (str * str) :=
  h ← header;
  e ← strip_prefix "Basic " (trim h);
  raw ← b64url_decode_std (trim e);
  text ← from_utf8 raw;
  split_once ":" text.

Definition bearer_token (header : option str) : option str :=
  h ← header; trim <$> strip_prefix "Bearer " (trim h).

Fixpoint find_query (pairs : list str) (key : str) : option str :=
  match pairs with
  | [] => None
  | p :: rest =>
    match split_once "=" p with
    | Some (k, v) => if k =s key then Some v else find_query rest key
    | None => if p =s key then Some [] else find_query rest key
    end
  end.

Definition query_param (query key : str) : option str := find_query (split_on "&" query) key.

Definition query_token (query : str) : option str :=
  match opt_filter (fun v => negb (is_empty v)) (query_param query "pertisk_token") with
  | Some v => Some v
  | None => opt_filter (fun v => negb (is_empty v)) (query_param query "araleztoken")
  end.

Definition auth_header_ok (now : N) (a : RouteAuth) (headers : str -> option str) (query : str) : bool :=
  match a with
  | Basic username password =>
    match basic_credentials (headers "authorization") with
    | None => false
    | Some (user, pass) => (user =s username) && (pass =s password)
    end
  | ApiKey key => bool_decide (headers "x-api-key" = Some key)
  | Jwt secret =>
    if default false (verify_jwt now secret <$> bearer_token (headers "authorization")) then true
    else default false (verify_jwt now secret <$> query_token query)
  | ForwardAuth _ => false
  end.

End jwt.

(** ** Forward authentication *)

(** The subrequest; [send] answers with a status, or fails (timeout included). *)
Definition forward_auth_request (host path : str) (headers : str -> option str) : list (str * str) :=
  [(bs "X-Forwarded-Host", host); (bs "X-Forwarded-Uri", path)] ++
  match headers "authorization" with Some v => [(bs "authorization", v)] | None => [] end.

Definition forward_auth_ok (send : str -> list (str * str) -> option N) (url host path : str)
    (headers : str -> option str) : bool :=
  match send url (forward_auth_request host path headers) with
  | Some status => (200 <=? status) && (status <? 300)
  | None => false
  end.

(** ** Static files *)

Inductive Component : Type := CurDir | ParentDir | Normal (s : str).

#[export] Instance Component_eq_dec : EqDecision Component.
Proof. solve_decision. Defined.

(** [Path::components] of a relative path: empty segments vanish, and [.] is
    kept only in front. *)
Definition segment (first : bool) (seg : str) : option Component :=
  if is_empty seg then None
  else if seg =s "." then (if first then Some CurDir else None)
  else if seg =s ".." then Some ParentDir
  else Some (Normal seg).

Definition components (rel : str) : list Component :=
  match split_on "/" rel with
  | [] => []
  | seg :: segs => option_list (segment true seg) ++ omap (segment false) segs
  end.

(** [PathBuf::push] of a relative component. *)
Definition path_push (p s : str) : str :=
  match last p with
  | None => s
  | Some c => if is_slash c then p ++ s else p ++ bs "/" ++ s
  end.

Fixpoint push_components (p : str) (cs : list Component) : option str :=
  match cs with
  | [] => Some p
  | Normal s :: cs' => push_components (path_push p s) cs'
  | CurDir :: cs' => push_components p cs'
  | ParentDir :: _ => None
  end.

Definition safe_file (root url_path : str) : option str :=
  let rel := split_first "?" url_path in
  let rel := trim_start_matches is_slash rel in
  if contains_byte x00 rel then None
  else
    path ← push_components root (components rel);
    Some (if path =s root then path_push path "index.html" else path).

(** [Path::extension] of the last component. *)
Definition path_file_name (path : str) : option str :=
  seg ← last (filter (fun s => negb (is_empty s) && negb (s =s ".")) (split_on "/" path));
  if seg =s ".." then None else Some seg.

Definition path_extension (path : str) : option str :=
  name ← path_file_name path;
  '(before, after) ← rsplit_once "." name;
  if is_empty before then None else Some after.

Definition guess_mime (path : str) : str :=
  let e := to_ascii_lowercase (default [] (path_extension path)) in
  if (e =s "html") || (e =s "htm") then bs "text/html; charset=utf-8"
  else if e =s "css" then bs "text/css; charset=utf-8"
  else if e =s "js" then bs "text/javascript; charset=utf-8"
  else if e =s "json" then bs "application/json"
  else if e =s "svg" then bs "image/svg+xml"
  else if e =s "png" then bs "image/png"
  else if (e =s "jpg") || (e =s "jpeg") then bs "image/jpeg"
  else if (e =s "txt") || (e =s "md") then bs "text/plain; charset=utf-8"
  else if e =s "wasm" then bs "application/wasm"
  else bs "application/octet-stream".

(** ** Lemmas: base64 *)

(** Bit operations on disjoint fields are arithmetic. *)
Lemma land_shiftl_low a b k : b < 2 ^ k -> N.land (N.shiftl a k) b = 0.
Proof.
  intros Hb. apply N.bits_inj. intros i. rewrite N.land_spec, N.bits_0.
  destruct (N.lt_ge_cases i k) as [Hi|Hi]; [by rewrite N.shiftl_spec_low|].
  destruct (N.eq_dec b 0) as [->|Hb0]; [by rewrite N.bits_0, andb_false_r|].
  rewrite (N.bits_above_log2 b); [apply andb_false_r|]. apply N.log2_lt_pow2; [lia|].
  eapply N.lt_le_trans; [exact Hb|]. apply N.pow_le_mono_r; lia.
Qed.

Lemma lor_shiftl_add a b k : b < 2 ^ k -> N.lor (N.shiftl a k) b = a * 2 ^ k + b.
Proof.
  intros Hb. rewrite <- N.lxor_lor, <- N.add_nocarry_lxor by (by apply land_shiftl_low).
  by rewrite N.shiftl_mul_pow2.
Qed.

Lemma land_mask a k : N.land a (N.shiftl 1 k - 1) = a mod 2 ^ k.
Proof.
  replace (N.shiftl 1 k - 1) with (N.ones k); [apply N.land_ones|].
  rewrite N.ones_equiv, N.shiftl_mul_pow2. lia.
Qed.

Lemma sextet_eq n k : sextet n k = b64_char (n / 2 ^ k mod 64).
Proof.
  unfold sextet. rewrite N.shiftr_div_pow2. change 63 with (N.ones 6). by rewrite N.land_ones.
Qed.

Lemma b64_char_table i : i < 64 ->
  b64_val (b64_char i) = Some i /\ b64_char i <> "="%byte /\ b64_char i <> "."%byte /\
  graphic (b64_char i) = true /\ b64_char i <> "+"%byte /\ b64_char i <> "/"%byte.
Proof.
  intros Hi.
  assert (Hall : forallb (fun n => let i := N.of_nat n in
    bool_decide (b64_val (b64_char i) = Some i) && negb (bool_decide (b64_char i = "="%byte))
    && negb (bool_decide (b64_char i = "."%byte)) && graphic (b64_char i)
    && negb (bool_decide (b64_char i = "+"%byte)) && negb (bool_decide (b64_char i = "/"%byte))) (seq 0 64) = true)
    by (vm_compute; reflexivity).
  rewrite forallb_forall in Hall. specialize (Hall (N.to_nat i)). cbv zeta in Hall. rewrite N2Nat.id in Hall.
  assert (Hin : In (N.to_nat i) (seq 0 64)) by (apply in_seq; lia). apply Hall in Hin. by bsimp.
Qed.

(** One step of the decoder on the character of a sextet. *)
Lemma b64_loop_char i s buf bits :
  i < 64 ->
  b64_loop (b64_char i :: s) buf bits =
    (let buf' := buf * 64 + i in
     if 8 <=? bits + 6 then
       out ← b64_loop s (buf' mod 2 ^ (bits + 6 - 8)) (bits + 6 - 8);
       Some (n2b (buf' / 2 ^ (bits + 6 - 8)) :: out)
     else b64_loop s buf' (bits + 6)).
Proof.
  intros Hi. destruct (b64_char_table i Hi) as (Hv & Hne & _). cbn [b64_loop].
  rewrite decide_False by done. rewrite Hv. cbn [mbind option_bind].
  rewrite (lor_shiftl_add buf i 6) by (simpl; lia). rewrite land_mask, N.shiftr_div_pow2. done.
Qed.

Lemma n2b_eq n b : n = b2n b -> n2b n = b.
Proof. intros ->. apply n2b_b2n. Qed.

Ltac div_lia := zify; Z.to_euclidean_division_equations; lia.

(** The sextets of three bytes. *)
Lemma sextets3 a b c (n := a * 65536 + b * 256 + c) :
  a < 256 -> b < 256 -> c < 256 ->
  n / 2 ^ 18 mod 64 = a / 4 /\ n / 2 ^ 12 mod 64 = a mod 4 * 16 + b / 16 /\
  n / 2 ^ 6 mod 64 = b mod 16 * 4 + c / 64 /\ n / 2 ^ 0 mod 64 = c mod 64.
Proof.
  intros Ha Hb Hc. unfold n. change (2 ^ 18) with 262144. change (2 ^ 12) with 4096. change (2 ^ 6) with 64.
  change (2 ^ 0) with 1. split_and!; div_lia.
Qed.

Lemma bytes_lor a b c :
  b < 256 -> c < 256 ->
  N.lor (N.lor (N.shiftl a 16) (N.shiftl b 8)) c = a * 65536 + b * 256 + c /\
  N.lor (N.shiftl a 16) (N.shiftl b 8) = a * 65536 + b * 256.
Proof.
  intros Hb Hc.
  assert (E : N.lor (N.shiftl a 16) (N.shiftl b 8) = a * 65536 + b * 256).
  { assert (Es : N.shiftl b 8 = b * 256) by apply N.shiftl_mul_pow2. rewrite Es.
    rewrite lor_shiftl_add; [reflexivity|]. change (2 ^ 16) with 65536. lia. }
  split; [|exact E]. rewrite E.
  replace (a * 65536 + b * 256) with (N.shiftl (a * 256 + b) 8)
    by (rewrite N.shiftl_mul_pow2; change (2 ^ 8) with 256; lia).
  rewrite lor_shiftl_add by (change (2 ^ 8) with 256; lia).
  by rewrite N.shiftl_mul_pow2.
Qed.

(** The decoder on two, three and four sextets from an empty buffer. *)
Lemma b64_loop_2 i j s :
  i < 64 -> j < 64 ->
  b64_loop (b64_char i :: b64_char j :: s) 0 0 =
    (out ← b64_loop s ((i * 64 + j) mod 16) 4; Some (n2b ((i * 64 + j) / 16) :: out)).
Proof.
  intros. rewrite (b64_loop_char i) by done. change (8 <=? 0 + 6) with false. cbn zeta match.
  rewrite (b64_loop_char j) by done. reflexivity.
Qed.

Lemma b64_loop_3 buf i s :
  i < 64 ->
  b64_loop (b64_char i :: s) buf 4 = (out ← b64_loop s ((buf * 64 + i) mod 4) 2; Some (n2b ((buf * 64 + i) / 4) :: out)).
Proof. intros. by rewrite b64_loop_char. Qed.

Lemma b64_loop_4 buf i s :
  i < 64 -> b64_loop (b64_char i :: s) buf 2 = (out ← b64_loop s 0 0; Some (n2b (buf * 64 + i) :: out)).
Proof.
  intros. rewrite b64_loop_char by done.
  change (8 <=? 2 + 6) with true. cbn zeta match. change (2 + 6 - 8) with 0. change (2 ^ 0) with 1.
  by rewrite N.mod_1_r, N.div_1_r.
Qed.

(** Putting the bits of two neighbouring sextets back together. *)
Lemma pack_first q r t : t < 16 -> (q * 64 + (r * 16 + t)) / 16 = q * 4 + r /\ (q * 64 + (r * 16 + t)) mod 16 = t.
Proof. intros. split; div_lia. Qed.

Lemma pack_second q r t : t < 4 -> (q * 64 + (r * 4 + t)) / 4 = q * 16 + r /\ (q * 64 + (r * 4 + t)) mod 4 = t.
Proof. intros. split; div_lia. Qed.

(** A byte as quotient and remainder. *)
Lemma byte_divmod b d : d <> 0 -> exists q r, b2n b / d = q /\ b2n b mod d = r /\ b2n b = q * d + r /\ r < d.
Proof.
  intros Hd. exists (b2n b / d), (b2n b mod d). pose proof (N.div_mod (b2n b) d Hd).
  pose proof (N.mod_lt (b2n b) d Hd). split_and!; try done. lia.
Qed.

Lemma b64_loop_encode s : b64_loop (b64url_encode s) 0 0 = Some s.
Proof.
  induction s as [s IH] using list_length_ind. destruct s as [|a [|b [|c s]]]; [reflexivity|..];
    pose proof (b2n_bound a) as Ha; destruct (byte_divmod a 4) as (qa & ra & Qa & Ra & Ea & La); try done.
  - destruct (sextets3 (b2n a) 0 0) as (E1 & E2 & _); [done..|]. cbn [b64url_encode].
    rewrite !sextet_eq. rewrite N.shiftl_mul_pow2. change (2 ^ 16) with 65536.
    replace (b2n a * 65536) with (b2n a * 65536 + 0 * 256 + 0) by lia. rewrite E1, E2, Qa, Ra.
    change (0 / 16) with 0. rewrite b64_loop_2 by lia. cbn [b64_loop mbind option_bind].
    rewrite (proj1 (pack_first qa ra 0 ltac:(lia))), (n2b_eq _ a) by lia. done.
  - pose proof (b2n_bound b) as Hb. destruct (byte_divmod b 16) as (qb & rb & Qb & Rb & Eb & Lb); [done|].
    destruct (sextets3 (b2n a) (b2n b) 0) as (E1 & E2 & E3 & _); [done..|].
    destruct (bytes_lor (b2n a) (b2n b) 0) as [_ El]; [done..|]. cbn [b64url_encode]. rewrite El.
    rewrite !sextet_eq. replace (b2n a * 65536 + b2n b * 256) with (b2n a * 65536 + b2n b * 256 + 0) by lia.
    rewrite E1, E2, E3, Qa, Ra, Qb, Rb. change (0 / 64) with 0. rewrite b64_loop_2 by lia.
    destruct (pack_first qa ra qb) as [-> ->]; [lia|]. rewrite b64_loop_3 by lia.
    destruct (pack_second qb rb 0) as [-> _]; [lia|]. cbn [b64_loop mbind option_bind].
    rewrite (n2b_eq _ a), (n2b_eq _ b) by lia. done.
  - pose proof (b2n_bound b) as Hb. pose proof (b2n_bound c) as Hc.
    destruct (byte_divmod b 16) as (qb & rb & Qb & Rb & Eb & Lb); [done|].
    destruct (byte_divmod c 64) as (qc & rc & Qc & Rc & Ec & Lc); [done|].
    destruct (sextets3 (b2n a) (b2n b) (b2n c)) as (E1 & E2 & E3 & E4); [done..|].
    destruct (bytes_lor (b2n a) (b2n b) (b2n c)) as [El _]; [done..|]. cbn [b64url_encode]. rewrite El.
    rewrite !sextet_eq, E1, E2, E3, E4, Qa, Ra, Qb, Rb, Qc, Rc. rewrite b64_loop_2 by lia.
    destruct (pack_first qa ra qb) as [-> ->]; [lia|]. rewrite b64_loop_3 by lia.
    destruct (pack_second qb rb qc) as [-> ->]; [lia|]. rewrite b64_loop_4 by lia.
    rewrite IH by (simpl; lia). cbn [mbind option_bind].
    rewrite (n2b_eq _ a), (n2b_eq _ b), (n2b_eq _ c) by lia. done.
Qed.

(** Every character of an encoding is one of the 64. *)
Definition b64_plain (c : byte) : Prop :=
  is_Some (b64_val c) /\ c <> "="%byte /\ c <> "."%byte /\ graphic c = true /\ c <> "+"%byte /\ c <> "/"%byte.

Lemma sextet_plain n k : b64_plain (sextet n k).
Proof.
  rewrite sextet_eq. destruct (b64_char_table (n / 2 ^ k mod 64)) as (H1 & H2 & H3 & H4 & H5 & H6); [by apply N.mod_lt|].
  unfold b64_plain. split_and!; eauto.
Qed.

Lemma b64url_encode_plain s : Forall b64_plain (b64url_encode s).
Proof.
  induction s as [s IH] using list_length_ind.
  destruct s as [|a [|b [|c s]]]; cbn [b64url_encode]; repeat (constructor; [apply sextet_plain|]); try constructor.
  apply IH. simpl. lia.
Qed.

Lemma b64url_encode_no_dot s : "."%byte ∉ b64url_encode s.
Proof.
  intros Hin. pose proof (b64url_encode_plain s) as HF. rewrite Forall_forall in HF.
  by destruct (HF _ Hin) as (_ & _ & ? & _).
Qed.

(** ** Lemmas: tokens *)

Lemma exp_marker_eq : exp_marker = x22 :: bs "exp" ++ [x22; ":"%byte].
Proof. reflexivity. Qed.

(** The quote that opens the owner does not start the marker when the owner has no quote. *)
Lemma owner_no_marker owner rest :
  x22 ∉ owner -> strip_prefix exp_marker (x22 :: owner ++ x22 :: ","%byte :: rest) = None.
Proof.
  intros Ho. rewrite exp_marker_eq. apply strip_prefix_None. intros r Hr.
  assert (Hr' : owner ++ x22 :: ","%byte :: rest = bs "exp" ++ x22 :: ":"%byte :: r) by (by injection Hr).
  assert (H1 : split_once x22 (owner ++ x22 :: ","%byte :: rest) = Some (owner, ","%byte :: rest))
    by (by apply split_once_Some).
  assert (H2 : split_once x22 (bs "exp" ++ x22 :: ":"%byte :: r) = Some (bs "exp", ":"%byte :: r)).
  { apply split_once_Some. split; [done|]. apply (bool_decide_eq_false_1 _). vm_compute. reflexivity. }
  rewrite Hr', H2 in H1. by injection H1.
Qed.

Lemma payload_exp_issued owner exp :
  x22 ∉ owner -> exp <= u64_max -> payload_exp (jwt_payload owner exp) = Some exp.
Proof.
  intros Ho He. unfold payload_exp, split_str_nth1.
  assert (Hs : snd (split_str_once exp_marker (jwt_payload owner exp)) = Some (show_N exp ++ bs "}")).
  { unfold jwt_payload.
    change (tmpl "{`sub`:`" ++ owner ++ tmpl "`,`exp`:" ++ show_N exp ++ bs "}")
      with ("{"%byte :: x22 :: bs "sub" ++ x22 :: ":"%byte :: x22 :: owner ++ x22 :: ","%byte :: exp_marker ++ show_N exp ++ bs "}").
    change exp_marker with (x22 :: tl exp_marker).
    rewrite split_str_once_skip, split_str_once_miss, split_str_once_skips by
      (done || (apply (bool_decide_eq_false_1 _); vm_compute; reflexivity)).
    rewrite split_str_once_miss, split_str_once_skip by done.
    rewrite split_str_once_miss by (by apply owner_no_marker). rewrite split_str_once_skips by done.
    rewrite split_str_once_miss, split_str_once_skip by done. by rewrite split_str_once_hit. }
  destruct (split_str_once exp_marker (jwt_payload owner exp)) as [p [r|]]; [|done]. cbn [snd] in Hs.
  injection Hs as ->.
  assert (Hn : x22 ∉ show_N exp ++ bs "}").
  { apply not_elem_of_app. split; [by apply show_N_no|]. apply (bool_decide_eq_false_1 _); vm_compute; reflexivity. }
  change exp_marker with (x22 :: tl exp_marker). rewrite (split_str_once_none x22 _ _ Hn). cbn [fst mbind option_bind].
  assert (Ht : trim_start (show_N exp ++ bs "}") = show_N exp ++ bs "}").
  { pose proof (show_N_nonempty exp). pose proof (show_N_digits exp) as Hd.
    destruct (show_N exp) as [|c s]; [done|]. apply Forall_cons_1 in Hd as [Hc _].
    destruct (graphic_not_lead c (digit_graphic c Hc)) as (H1 & _ & H3 & _). rewrite <- app_comm_cons.
    unfold trim_start. apply graphic_trim_with; [by apply digit_graphic|done..]. }
  rewrite Ht. change (bs "}") with ("}"%byte :: []). rewrite split_app_sep; [|..|done].
  - cbn [head mbind option_bind]. by apply parse_show_N.
  - eapply Forall_impl; [apply show_N_digits|]. intros b Hb. unfold not_digit. by rewrite Hb.
Qed.

Lemma jwt_payload_utf8 owner exp : utf8_valid owner = true -> utf8_valid (jwt_payload owner exp) = true.
Proof.
  intros Ho. unfold jwt_payload.
  change (tmpl "{`sub`:`" ++ owner ++ tmpl "`,`exp`:" ++ show_N exp ++ bs "}")
    with (removelast (tmpl "{`sub`:`") ++ x22 :: owner ++ x22 :: bs "," ++ exp_marker ++ show_N exp ++ bs "}").
  rewrite !utf8_valid_app_ascii, Ho by done. apply utf8_valid_all_ascii.
  rewrite !Forall_app. split_and!; try (by repeat constructor).
  eapply Forall_impl; [apply show_N_digits|]. intros b Hb. unfold is_ascii. unfold is_ascii_digit in Hb. bsimp.
  apply N.ltb_lt. lia.
Qed.

Lemma jwt_exp_u64 now minutes : jwt_exp now minutes <= u64_max.
Proof. unfold jwt_exp, saturating_add. lia. Qed.

Section auth_lemmas.
Context `{MacVerify}.

Lemma hmac_eq_signed secret msg secret' :
  hmac_eq secret' msg (sign_hs256 secret msg) = true <-> hmac_sha256 secret msg = hmac_sha256 secret' msg.
Proof. unfold hmac_eq, sign_hs256, b64url_decode. by rewrite b64_loop_encode, verify_slice_spec. Qed.

Lemma issue_jwt_parts now secret owner minutes :
  let payload := b64url_encode (jwt_payload owner (jwt_exp now minutes)) in
  let signing := b64url_encode jwt_header ++ bs "." ++ payload in
  split_on "." (issue_jwt now secret owner minutes) =
    [b64url_encode jwt_header; payload; sign_hs256 secret signing].
Proof.
  intros payload signing. set (l := [_; _; _]).
  replace (issue_jwt now secret owner minutes) with (join ["."%byte] l).
  - apply split_join; [done..|]. do 3 (apply Forall_cons_2; [apply not_elem_is_byte, b64url_encode_no_dot|]).
    apply Forall_nil_2.
  - unfold issue_jwt, l. cbn [join]. fold payload. fold signing. unfold signing. rewrite <- !app_assoc. reflexivity.
Qed.

(** ** Properties *)

(** Tokens the proxy issues are the ones it accepts: an issued token is
    valid under a secret exactly when that secret gives the same HMAC and the
    expiry (at least one minute after issue, saturating at the largest [u64])
    has not passed.  The owner's name must hold no double quote, which would
    end the JSON string it is printed in. *)
Theorem jwt_issue_verify t0 secret owner minutes now secret' :
  utf8_valid owner = true -> x22 ∉ owner ->
  let signing := b64url_encode jwt_header ++ bs "." ++ b64url_encode (jwt_payload owner (jwt_exp t0 minutes)) in
  verify_jwt now secret' (issue_jwt t0 secret owner minutes) = true <->
  hmac_sha256 secret signing = hmac_sha256 secret' signing /\ now <= jwt_exp t0 minutes.
Proof.
  intros Hu Ho signing. unfold verify_jwt. rewrite issue_jwt_parts. fold signing.
  destruct (hmac_eq secret' signing (sign_hs256 secret signing)) eqn:Eh; cbn [negb].
  - apply hmac_eq_signed in Eh. unfold b64url_decode. rewrite b64_loop_encode. cbn [from_option id].
    unfold from_utf8. rewrite jwt_payload_utf8 by done. rewrite payload_exp_issued by (done || apply jwt_exp_u64).
    rewrite N.leb_le. tauto.
  - split; [done|]. intros [Hs _]. apply hmac_eq_signed in Hs. congruence.
Qed.

(** A token is accepted only with a valid signature and an unexpired claim:
    acceptance implies three dot-separated parts, a last part that decodes to
    the HMAC of the first two under the secret, and a payload whose first
    [exp] is not in the past. *)
Theorem verify_jwt_sound now secret token :
  verify_jwt now secret token = true ->
  exists header payload sig raw exp,
    split_on "." token = [header; payload; sig] /\
    b64url_decode sig = Some (hmac_sha256 secret (header ++ bs "." ++ payload)) /\
    default [] (b64url_decode payload) = raw /\ utf8_valid raw = true /\
    payload_exp raw = Some exp /\ now <= exp.
Proof.
  unfold verify_jwt. destruct (split_on "." token) as [|h [|p [|sig [|]]]]; try done.
  destruct (hmac_eq secret _ sig) eqn:Eh; [|done]. cbn [negb].
  unfold from_utf8. destruct (utf8_valid _) eqn:Eu; [|done].
  destruct (payload_exp _) as [exp|] eqn:Ee; [|done]. intros He. bsimp.
  unfold hmac_eq in Eh. destruct (b64url_decode sig) as [bytes|] eqn:Ed; [|done].
  apply verify_slice_spec in Eh. subst bytes. by exists h, p, sig, (default [] (b64url_decode p)), exp.
Qed.

End auth_lemmas.

(** ** Basic credentials *)

(** What a client sends: standard base64 with padding (RFC 4648, section 4). *)
Definition url_to_std (c : byte) : byte :=
  if decide (c = "-"%byte) then "+"%byte else if decide (c = "_"%byte) then "/"%byte else c.
Definition b64std_encode (s : str) : str := pad4 (url_to_std <$> b64url_encode s).

Lemma replace_byte_fmap c d s : replace_byte c [d] s = (fun b => if decide (b = c) then d else b) <$> s.
Proof.
  unfold replace_byte. induction s as [|b s IH]; [done|].
  transitivity ((if decide (b = c) then [d] else [b]) ++ mjoin ((fun b => if decide (b = c) then [d] else [b]) <$> s));
    [done|]. rewrite IH, fmap_cons. by case_decide.
Qed.

Lemma fmap_id_on {A} (f : A -> A) l : Forall (fun x => f x = x) l -> f <$> l = l.
Proof. induction 1 as [|x l Hx _ IH]; [done|]. by rewrite fmap_cons, Hx, IH. Qed.

Lemma pad4_length s : (length (pad4 s) mod 4 = 0)%nat.
Proof.
  unfold pad4. rewrite length_app, length_replicate.
  pose proof (Nat.div_mod_eq (length s) 4). pose proof (Nat.mod_upper_bound (length s) 4 ltac:(lia)).
  set (r := (length s mod 4)%nat) in *. set (q := (length s / 4)%nat) in *.
  rewrite H. apply Nat.Div0.mod_divides. destruct r as [|[|[|[|r]]]]; [..|lia].
  - exists q. change ((4 - 0) mod 4)%nat with 0%nat. lia.
  - exists (S q). change ((4 - 1) mod 4)%nat with 3%nat. lia.
  - exists (S q). change ((4 - 2) mod 4)%nat with 2%nat. lia.
  - exists (S q). change ((4 - 3) mod 4)%nat with 1%nat. lia.
Qed.

Lemma pad4_id s : (length s mod 4 = 0)%nat -> pad4 s = s.
Proof. intros Hs. unfold pad4. rewrite Hs. simpl. apply app_nil_r. Qed.

Lemma b64_loop_padding s n buf bits :
  Forall b64_plain s -> b64_loop (s ++ replicate n "="%byte) buf bits = b64_loop s buf bits.
Proof.
  intros HF. revert buf bits. induction HF as [|c s (_ & Hc & _) _ IH]; intros buf bits.
  - destruct n; [done|]. cbn [replicate app b64_loop]. by rewrite decide_True.
  - rewrite <- app_comm_cons. cbn [b64_loop]. rewrite !decide_False by done.
    destruct (b64_val c) as [v|]; [|reflexivity]. cbn [mbind option_bind]. destruct (8 <=? bits + 6); by rewrite IH.
Qed.

Lemma std_to_url_plain s n :
  Forall b64_plain s ->
  replace_byte "/" (bs "_") (replace_byte "+" (bs "-") ((url_to_std <$> s) ++ replicate n "="%byte))
  = s ++ replicate n "="%byte.
Proof.
  intros HF. change (bs "_") with ["_"%byte]. change (bs "-") with ["-"%byte].
  rewrite !replace_byte_fmap, !fmap_app. f_equal.
  - rewrite <- !list_fmap_compose. apply fmap_id_on. eapply Forall_impl; [exact HF|].
    intros c (_ & _ & _ & _ & Hp & Hs). unfold compose, url_to_std.
    destruct (decide (c = "-"%byte)) as [->|]; [done|]. destruct (decide (c = "_"%byte)) as [->|]; [done|].
    rewrite (decide_False (P := c = "+"%byte)) by done. by rewrite decide_False.
  - rewrite !fmap_replicate. done.
Qed.

Lemma b64std_graphic s : Forall (fun b => graphic b = true) (b64std_encode s).
Proof.
  unfold b64std_encode, pad4. apply Forall_app. split.
  - apply Forall_fmap. eapply Forall_impl; [apply b64url_encode_plain|]. intros c (_ & _ & _ & Hg & _).
    unfold compose, url_to_std. repeat case_decide; done.
  - apply Forall_replicate. done.
Qed.

Lemma b64std_decode s : b64url_decode_std (b64std_encode s) = Some s.
Proof.
  unfold b64url_decode_std, b64url_decode. rewrite trim_all_graphic by apply b64std_graphic.
  assert (E : replace_byte "/" (bs "_") (replace_byte "+" (bs "-") (b64std_encode s)) = pad4 (b64url_encode s)).
  { unfold b64std_encode, pad4. rewrite length_fmap. apply std_to_url_plain, b64url_encode_plain. }
  rewrite E, pad4_id by apply pad4_length. unfold pad4.
  rewrite b64_loop_padding by apply b64url_encode_plain. apply b64_loop_encode.
Qed.

Lemma b64std_nonempty s : s <> [] -> b64std_encode s <> [].
Proof.
  intros Hs. unfold b64std_encode, pad4. destruct s as [|a [|b [|c s]]]; [done|..]; cbn [b64url_encode fmap list_fmap app]; done.
Qed.

Lemma basic_header_trim s : s <> [] -> trim (bs "Basic " ++ b64std_encode s) = bs "Basic " ++ b64std_encode s.
Proof.
  intros Hs. apply b64std_nonempty in Hs. pose proof (b64std_graphic s) as HF.
  destruct (exists_last Hs) as (t & b & E). rewrite E in HF |- *. apply Forall_app in HF as [_ HF].
  apply Forall_cons_1 in HF as [Hb _].
  change (bs "Basic ") with ("B"%byte :: bs "asic "). rewrite <- app_comm_cons.
  apply (trim_graphic "B" b _ (("B"%byte :: bs "asic ") ++ t)); [done|done|]. rewrite <- app_assoc. reflexivity.
Qed.

Section auth_properties.
Context `{MacVerify}.

(** The credentials a browser sends are recovered: for the header it builds
    from a user name without a colon and a password, [basic_credentials]
    returns the pair, and a basic-auth route lets the request in exactly when
    the pair is the configured one. *)
Theorem basic_auth_roundtrip now user pass username password headers query :
  ":"%byte ∉ user -> utf8_valid (user ++ bs ":" ++ pass) = true ->
  headers (bs "authorization") = Some (bs "Basic " ++ b64std_encode (user ++ bs ":" ++ pass)) ->
  basic_credentials (headers (bs "authorization")) = Some (user, pass) /\
  (auth_header_ok now (Basic username password) headers query = true <-> user = username /\ pass = password).
Proof.
  intros Hu Hv Hh.
  assert (Hc : basic_credentials (headers (bs "authorization")) = Some (user, pass)).
  { unfold basic_credentials. rewrite Hh. cbn [mbind option_bind].
    rewrite basic_header_trim by (by destruct user). rewrite strip_prefix_app. cbn [mbind option_bind].
    rewrite trim_all_graphic by apply b64std_graphic. rewrite b64std_decode. cbn [mbind option_bind].
    unfold from_utf8. rewrite Hv. cbn [mbind option_bind]. by apply split_once_Some. }
  split; [exact Hc|]. unfold auth_header_ok. rewrite Hc. rewrite andb_true_iff, !str_eqb_eq. done.
Qed.

End auth_properties.

(** ** Lemmas: static files *)

(** A segment that names a file or a directory below the current one. *)
Definition plain_segment (s : str) : Prop :=
  s <> [] /\ s <> bs "." /\ s <> bs ".." /\ "/"%byte ∉ s.

Definition dir_push (root : str) (segs : list str) : str := foldl path_push root segs.

Fixpoint normals (cs : list Component) : list str :=
  match cs with [] => [] | Normal s :: cs' => s :: normals cs' | _ :: cs' => normals cs' end.

Lemma push_components_spec p cs :
  push_components p cs = if bool_decide (ParentDir ∈ cs) then None else Some (dir_push p (normals cs)).
Proof.
  revert p. induction cs as [|c cs IH]; intros p; [done|].
  assert (Hskip : forall c, c <> ParentDir -> bool_decide (ParentDir ∈ c :: cs) = bool_decide (ParentDir ∈ cs)).
  { intros c' Hc. apply bool_decide_ext. rewrite elem_of_cons. split; [by intros [?|?]|by right]. }
  destruct c; cbn [push_components normals]; rewrite ?IH, ?Hskip by done; [done| |done].
  rewrite bool_decide_true; [done|]. by left.
Qed.

Lemma segment_normal first seg s : segment first seg = Some (Normal s) -> seg = s /\ s <> [] /\ s <> bs "." /\ s <> bs "..".
Proof.
  unfold segment. destruct (is_empty seg) eqn:E1; [done|]. destruct (seg =s ".") eqn:E2; [by destruct first|].
  destruct (seg =s "..") eqn:E3; [done|]. intros [= ->].
  apply is_empty_false in E1. apply str_eqb_neq in E2, E3. done.
Qed.

Lemma segment_parent first seg : segment first seg = Some ParentDir <-> seg = bs "..".
Proof.
  unfold segment. split.
  - destruct (is_empty seg) eqn:E1; [done|]. destruct (seg =s ".") eqn:E2; [by destruct first|].
    destruct (seg =s "..") eqn:E3; [|done]. intros _. by apply str_eqb_eq.
  - intros ->. done.
Qed.

Lemma elem_of_components c rel :
  c ∈ components rel <-> exists first seg, seg ∈ split_on "/" rel /\ segment first seg = Some c /\
    (first = true -> head (split_on "/" rel) = Some seg) /\ (first = false -> seg ∈ tail (split_on "/" rel)).
Proof.
  unfold components. destruct (split_on "/" rel) as [|s segs].
  - split; [by intros ?%elem_of_nil|]. intros (f & seg & Hs & _). by apply elem_of_nil in Hs.
  - assert (Hol : forall o : option Component, c ∈ option_list o <-> o = Some c).
    { intros [x|]; simpl; [rewrite list_elem_of_singleton|rewrite elem_of_nil]; split; congruence || done. }
    rewrite elem_of_app, Hol, list_elem_of_omap. split.
    + intros [Hs|(seg & Hs & Hc)]; [exists true, s|exists false, seg]; split_and!; try done; by (left || right).
    + intros ([] & seg & Hs & Hc & H1 & H2); [left|right; exists seg]; auto.
      specialize (H1 eq_refl). simpl in H1. congruence.
Qed.

Lemma components_normal s rel : Normal s ∈ components rel -> plain_segment s.
Proof.
  rewrite elem_of_components. intros (f & seg & Hs & Hc & _). apply segment_normal in Hc as (-> & H1 & H2 & H3).
  split_and!; try done. pose proof (split_words (is_byte "/") rel) as HF. rewrite Forall_forall in HF.
  by apply not_elem_is_byte, HF.
Qed.

Lemma components_parent rel : ParentDir ∈ components rel <-> bs ".." ∈ split_on "/" rel.
Proof.
  rewrite elem_of_components. split.
  - intros (f & seg & Hs & Hc & _). by apply segment_parent in Hc as ->.
  - intros Hs. destruct (split_on "/" rel) as [|x l] eqn:E; [by apply elem_of_nil in Hs|].
    apply elem_of_cons in Hs as [<-|Hs]; [exists true|exists false]; exists (bs ".."); split_and!; try done; try by right.
    by left.
Qed.

Lemma elem_of_normals s cs : s ∈ normals cs <-> Normal s ∈ cs.
Proof.
  induction cs as [|c cs IH]; cbn [normals]; [by rewrite !elem_of_nil|].
  destruct c; rewrite !elem_of_cons, IH.
  - split; [by right|by intros [?|?]].
  - split; [by right|by intros [?|?]].
  - split; (intros [?|?]; [left; congruence|by right]).
Qed.

Lemma path_push_length p s : (length p + length s <= length (path_push p s))%nat.
Proof. unfold path_push. destruct (last p) eqn:E; [case_if; rewrite !length_app; simpl; lia|]. by apply last_None in E as ->. Qed.

Lemma dir_push_root root segs : Forall plain_segment segs -> dir_push root segs = root -> segs = [].
Proof.
  intros HF Heq. destruct HF as [|s segs [Hs _] HF]; [done|exfalso].
  assert (Hlen : forall p, (length p <= length (dir_push p segs))%nat).
  { clear. induction segs as [|s segs IH]; intros p; [done|]. simpl. pose proof (IH (path_push p s)).
    pose proof (path_push_length p s). unfold dir_push in *. lia. }
  simpl in Heq. pose proof (Hlen (path_push root s)). pose proof (path_push_length root s).
  unfold dir_push in *. rewrite Heq in *. destruct s; [done|]. simpl in *. lia.
Qed.

(** ** Properties: static files *)

(** C28: Static files never escape their root: [safe_file] refuses a path exactly
    when it holds a NUL byte or a [..] segment, and otherwise yields the root
    extended only with plain segments (non-empty, not [.] nor [..], without a
    slash), in the order of the path, or the root's [index.html]. *)
Theorem safe_file_contained root url_path :
  let rel := trim_start_matches is_slash (split_first "?" url_path) in
  (safe_file root url_path = None <-> x00 ∈ rel \/ bs ".." ∈ split_on "/" rel) /\
  (forall path, safe_file root url_path = Some path ->
     exists segs, Forall plain_segment segs /\ segs <> [] /\ path = dir_push root segs /\
       (segs = normals (components rel) \/ (normals (components rel) = [] /\ segs = [bs "index.html"]))).
Proof.
  intros rel. unfold safe_file. fold rel.
  destruct (contains_byte x00 rel) eqn:E0.
  { apply contains_byte_true in E0. split; [tauto|done]. }
  apply contains_byte_false in E0. rewrite push_components_spec.
  destruct (bool_decide (ParentDir ∈ components rel)) eqn:Ep; bsimp.
  { apply components_parent in Ep. split; [tauto|done]. }
  rewrite components_parent in Ep. cbn [mbind option_bind]. split; [split; [done|tauto]|].
  intros path [= <-]. set (segs := normals (components rel)).
  assert (HF : Forall plain_segment segs).
  { apply Forall_forall. intros s Hs. by apply elem_of_normals, components_normal in Hs. }
  destruct (dir_push root segs =s root) eqn:Er.
  - apply str_eqb_eq in Er. rewrite Er. apply dir_push_root in Er; [|done].
    exists [bs "index.html"]. split_and!; [|done|done|by right]. repeat constructor; try done.
    apply (bool_decide_eq_false_1 _). vm_compute. reflexivity.
  - apply str_eqb_neq in Er. exists segs. split_and!; [done| |done|by left].
    intros Hs. apply Er. by rewrite Hs.
Qed.

Lemma safe_file_example :
  safe_file "/var/www" "/css//./app.css?v=1" = Some (bs "/var/www/css/app.css") /\
  safe_file "/var/www" "/../etc/passwd" = None /\ safe_file "/var/www/" "/" = Some (bs "/var/www/index.html").
Proof. vm_compute. repeat split. Qed.

(** ** Witnesses *)

Definition toy_mac : @MacVerify toy_crypto.
Proof.
  refine {| verify_slice := fun k m t => bool_decide (t = @hmac_sha256 toy_crypto k m) |}.
  intros key msg tag. apply bool_decide_eq_true.
Defined.

Lemma jwt_issue_verify_witness :
  @verify_jwt toy_crypto toy_mac 1500 "s" (@issue_jwt toy_crypto 1000 "s" "valod" 10) = true.
Proof.
  apply (@jwt_issue_verify toy_crypto toy_mac 1000 "s" "valod" 10 1500 "s").
  - vm_compute. reflexivity.
  - apply (bool_decide_eq_false_1 _). vm_compute. reflexivity.
  - split; [reflexivity|vm_compute; discriminate].
Defined.

Lemma verify_jwt_sound_witness :
  exists exp, payload_exp (jwt_payload "valod" 1600) = Some exp /\ 1500 <= exp.
Proof.
  destruct (@verify_jwt_sound toy_crypto toy_mac 1500 "s" (@issue_jwt toy_crypto 1000 "s" "valod" 10)
    ltac:(vm_compute; reflexivity)) as (h & p & sig & raw & exp & Hs & _ & Hr & _ & He & Hle).
  exists exp. split; [|exact Hle]. rewrite <- He. f_equal. rewrite <- Hr.
  assert (Hp : Some p = Some (b64url_encode (jwt_payload "valod" 1600))).
  { transitivity ([h; p; sig] !! 1%nat); [reflexivity|]. rewrite <- Hs. vm_compute. reflexivity. }
  injection Hp as ->. vm_compute. reflexivity.
Defined.

Lemma basic_auth_roundtrip_witness :
  @auth_header_ok toy_crypto toy_mac 0 (Basic "aladdin" "open sesame")
    (fun h => if h =s "authorization" then Some (bs "Basic YWxhZGRpbjpvcGVuIHNlc2FtZQ==") else None) [] = true.
Proof.
  apply (@basic_auth_roundtrip toy_crypto toy_mac 0 "aladdin" "open sesame").
  - apply (bool_decide_eq_false_1 _). vm_compute. reflexivity.
  - vm_compute. reflexivity.
  - vm_compute. reflexivity.
  - split; reflexivity.
Defined.
