(* ===== verification/ProxyConfig.v ===== *)
(** * Configuration ([src/src/proxy_config.rs])

    The configuration types, host and upstream parsing, wildcard coverage, the
    merging of TLS entries, the resolution of named policies and the port
    summary of the management UI. *)

From S2P Require Import Prelude RustStr Ip GeoIp Waf Bot Captcha Security Edge.

(** ** Data *)

(** [PathMatchType] of this module (the router has its own). *)
Inductive CfgPathMatchType : Type := CfgExact | CfgPrefix | CfgImplementationSpecific.

Inductive LoadBalancerAlgorithm : Type := RoundRobin | LeastConnections | IpHash.

Record Upstream := mkUpstream { up_addr : str; up_weight : N }.

Record CfgBackend := mkCfgBackend {
  backend_name : str;
  upstreams : list Upstream;
  algorithm : LoadBalancerAlgorithm;
  health_path : option str;
  health_interval_secs : N;
}.

Record PathRewrite := mkPathRewrite {
  pr_path_type : CfgPathMatchType;
  pr_path : str;
  pr_rewrite : option str;
  pr_upstream : option str;
  pr_auth : option RouteAuth;
  pr_rate_limit_rps : N;
  pr_x4xx_limit_rps : N;
  pr_cache : option bool;
}.

Definition path_rewrite_default : PathRewrite := mkPathRewrite CfgPrefix "/" None None None 0 0 None.

Record AccessList := mkAccessList {
  acl_id : str;
  acl_name : str;
  acl_description : option str;
  acl_geoip : GeoIpPolicy;
}.

Record NamedWafPolicy := mkNamedWafPolicy {
  nwp_id : str;
  nwp_name : str;
  nwp_description : option str;
  nwp_security : SecurityPolicy;
}.

Record Site := mkSite {
  site_host : str;
  site_routes : list PathRewrite;
  site_backend : str;
  site_security_headers : option (gmap str str);
  ingress_namespace : option str;
  ingress_name : option str;
  k8s_resource_kind : option str;
  http3_alt_svc_enabled : bool;
  site_forward_client_ip : bool;
  access_list_id : option str;
  waf_policy_id : option str;
  site_geoip : GeoIpPolicy;
  site_security : SecurityPolicy;
}.

Inductive TlsSource : Type :=
| Acme (email : option str) (challenge : str) (dns_provider dns_provider_type : option str)
       (dns_credentials : option (gmap str str))
| File (cert key : str)
| Kubernetes.

Definition default_challenge : str := "http01".

Record TlsConfig := mkTlsConfig { tls_hosts : list str; tls_source : TlsSource; expires_at : option str }.

Record Http3Options := mkHttp3Options {
  max_data : option N;
  max_stream_data : option N;
  max_streams_bidi : option N;
  max_idle_timeout_ms : option N;
  congestion_control : option str;
  enable_0rtt : option bool;
  h3_listeners : option N;
  enable_pacing : option bool;
}.

Definition http3_options_default : Http3Options := mkHttp3Options None None None None None None None None.

(** [std::net::SocketAddr]. *)
Record SocketAddr := mkSocketAddr { sa_ip : IpAddr; sa_port : N }.

Definition show_socket_addr (a : SocketAddr) : str :=
  match sa_ip a with
  | V4 _ _ _ _ => show_ip (sa_ip a) ++ bs ":" ++ show_N (sa_port a)
  | V6 _ => bs "[" ++ show_ip (sa_ip a) ++ bs "]:" ++ show_N (sa_port a)
  end.

Record Config := mkConfig {
  http_addr : SocketAddr;
  https_addr : SocketAddr;
  http3_addr : option SocketAddr;
  management_addr : SocketAddr;
  cfg_backends : list CfgBackend;
  cfg_sites : list Site;
  access_lists : list AccessList;
  waf_policies : list NamedWafPolicy;
  cfg_tls : list TlsConfig;
  cfg_security_headers : gmap str str;
  proxy_log : bool;
  acme_email : option str;
  cfg_http3 : Http3Options;
  cfg_tls_grade : TlsGrade;
  cfg_cache_size_mb : N;
  cfg_cache_ttl_secs : N;
  cfg_consul : option ConsulConfig;
  cfg_jwt_secret : option str;
}.

Definition any_v6 (port : N) : SocketAddr := mkSocketAddr (V6 [0; 0; 0; 0; 0; 0; 0; 0]) port.
Definition default_http_addr : SocketAddr := any_v6 80.
Definition default_https_addr : SocketAddr := any_v6 443.
Definition default_management_addr : SocketAddr := any_v6 9080.

Definition default_security_headers : gmap str str := list_to_map
  [(bs "Strict-Transport-Security", bs "max-age=63072000; includeSubDomains; preload");
   (bs "X-Content-Type-Options", bs "nosniff");
   (bs "X-Frame-Options", bs "SAMEORIGIN");
   (bs "Referrer-Policy", bs "strict-origin-when-cross-origin");
   (bs "Permissions-Policy", bs "geolocation=(), microphone=(), camera=()");
   (bs "Content-Security-Policy", bs "default-src 'self' https: data: blob:; script-src 'self' 'unsafe-inline' 'unsafe-eval' https:; style-src 'self' 'unsafe-inline' https:; font-src 'self' https: data:; img-src 'self' data: https: blob:; connect-src 'self' https: wss:; worker-src 'self' blob:; base-uri 'self'; object-src 'none'; upgrade-insecure-requests")].

Definition config_default : Config :=
  mkConfig default_http_addr default_https_addr None default_management_addr [] [] [] [] []
    default_security_headers true None http3_options_default Medium 0 Edge.default_cache_ttl None None.

(** ** TLS entries *)

Definition tls_hosts_set (hosts : list str) : gset str :=
  list_to_set (filter (fun s => negb (is_empty s)) ((fun s => to_ascii_lowercase (trim s)) <$> hosts)).

Definition acme_wildcard_host (hosts : list str) : option str :=
  to_ascii_lowercase ∘ trim <$> find (fun h => starts_with "*." (trim h)) hosts.

Definition acme_sources_equivalent (a b : TlsSource) : bool :=
  match a, b with
  | Acme e1 c1 d1 t1 _, Acme e2 c2 d2 t2 _ =>
    bool_decide (e1 = e2) && (c1 =s c2) && bool_decide (d1 = d2) && bool_decide (t1 = t2)
  | File c1 k1, File c2 k2 => (c1 =s c2) && (k1 =s k2)
  | _, _ => false
  end.

Definition tls_entries_should_merge (a b : TlsConfig) : bool :=
  if negb (acme_sources_equivalent (tls_source a) (tls_source b)) then false
  else
    match tls_source a, tls_source b with
    | Acme _ _ _ _ _, Acme _ _ _ _ _ =>
      if is_some (acme_wildcard_host (tls_hosts a))
         && bool_decide (acme_wildcard_host (tls_hosts a) = acme_wildcard_host (tls_hosts b))
      then true
      else negb (bool_decide (tls_hosts_set (tls_hosts a) ## tls_hosts_set (tls_hosts b)))
    | File _ _, File _ _ => true
    | _, _ => false
    end.

Definition is_invalid_acme_identifier (host : str) : bool :=
  let h := to_ascii_lowercase (trim host) in
  if is_empty h then true
  else
    let name := default h (strip_prefix "*." h) in
    let labels := filter (fun p => negb (is_empty p)) (split_on "." name) in
    (length labels <? 2)%nat.

Definition add_host (hosts : list str) (h : str) : list str :=
  let h := trim h in
  if is_empty h then hosts
  else if existsb (fun x => eq_ignore_ascii_case x h) hosts then hosts
  else hosts ++ [h].

Definition merge_into (existing entry : TlsConfig) : TlsConfig :=
  mkTlsConfig (foldl add_host (tls_hosts existing) (tls_hosts entry)) (tls_source existing) None.

(** [merged.iter().position(..)] and the update in place, or the push. *)
Fixpoint merge_entry (merged : list TlsConfig) (entry : TlsConfig) : list TlsConfig :=
  match merged with
  | [] => [entry]
  | e :: rest => if tls_entries_should_merge e entry then merge_into e entry :: rest else e :: merge_entry rest entry
  end.

Definition is_acme (s : TlsSource) : bool := match s with Acme _ _ _ _ _ => true | _ => false end.

Definition drop_invalid (e : TlsConfig) : TlsConfig :=
  if is_acme (tls_source e) then
    let kept := filter (fun h => negb (is_invalid_acme_identifier h)) (tls_hosts e) in
    mkTlsConfig kept (tls_source e)
      (if (length kept =? length (tls_hosts e))%nat then expires_at e else None)
  else e.

Definition normalize_tls_config (tls : list TlsConfig) : list TlsConfig :=
  let merged := foldl merge_entry [] tls in
  filter (fun t => negb (is_empty (tls_hosts t))) (drop_invalid <$> merged).

Definition tls_has_acme_config (tls : list TlsConfig) : bool := existsb (fun t => is_acme (tls_source t)) tls.

(** ** Hosts and upstreams *)

Definition wildcard_covers_host (wildcard host : str) : bool :=
  let w := trim wildcard in
  let h := to_ascii_lowercase (trim host) in
  if is_empty w || is_empty h then false
  else if negb (starts_with "*" w) then eq_ignore_ascii_case w h
  else
    let suffix := default w (strip_prefix "*" w) in
    if negb (ends_with suffix h) || (length h <=? length suffix)%nat then false
    else
      let prefix := take (length h - length suffix) h in
      negb (is_empty prefix) && negb (contains_byte "." prefix).

Record ParsedUpstreamEndpoint := mkParsedUpstreamEndpoint { pue_scheme : str; pue_host : str; pue_port : N }.

(** [rest.find(']')] as the text up to and including the bracket, and the rest. *)
Definition cfg_parse_host_port (rest : str) (default_port : N) : str * N :=
  let rest := trim rest in
  if is_empty rest then ([], default_port)
  else
    match (if starts_with "[" rest then split_once "]" rest else None) with
    | Some (inside, after) =>
      (inside ++ bs "]", default default_port (strip_prefix ":" after ≫= parse_u16))
    | None =>
      match rsplit_once ":" rest with
      | Some (host, port_str) =>
        match parse_u16 port_str with
        | Some port =>
          if negb (is_empty host) && negb (contains_byte ":" host) then (host, port) else (rest, default_port)
        | None => (rest, default_port)
        end
      | None => (rest, default_port)
      end
    end.

Definition parse_upstream_endpoint (raw : str) : ParsedUpstreamEndpoint :=
  let trimmed := trim raw in
  let '(scheme, rest) :=
    match strip_prefix "https://" trimmed with
    | Some r => (bs "https", r)
    | None =>
      match strip_prefix "http://" trimmed with
      | Some r => (bs "http", r)
      | None => (bs "http", trimmed)
      end
    end in
  let default_port := if scheme =s "https" then 443 else 80 in
  let '(host, port) := cfg_parse_host_port rest default_port in
  mkParsedUpstreamEndpoint scheme host port.

(** ** Named policies *)

Definition nonblank (o : option str) : option str := opt_filter (fun s => negb (is_empty s)) (trim <$> o).

Definition resolve_site_geoip (c : Config) (s : Site) : GeoIpPolicy :=
  match id ← nonblank (access_list_id s); find (fun l => acl_id l =s id) (access_lists c) with
  | Some l => geo_normalized (acl_geoip l)
  | None => geo_normalized (site_geoip s)
  end.

Definition resolve_site_security (c : Config) (s : Site) : SecurityPolicy :=
  match id ← nonblank (waf_policy_id s); find (fun p => nwp_id p =s id) (waf_policies c) with
  | Some p => security_normalized (nwp_security p)
  | None => security_normalized (site_security s)
  end.

(** ** Port summary *)

Record ListenPortEntry := mkListenPortEntry { lpe_name : str; lpe_addr : str; lpe_port : N }.

Record UpstreamPortEntry := mkUpstreamPortEntry {
  upe_backend : str;
  upe_addr : str;
  upe_scheme : str;
  upe_host : str;
  upe_port : N;
  upe_weight : N;
  upe_sites : list str;
}.

Record UpstreamPortsSummary := mkUpstreamPortsSummary {
  listen_ports : list ListenPortEntry;
  ups_upstreams : list UpstreamPortEntry;
}.

Definition listen_port (name : str) (addr : SocketAddr) : ListenPortEntry :=
  mkListenPortEntry name (show_socket_addr addr) (sa_port addr).

(** [a <= b] for the comparison chain backend, port, host. *)
Definition upe_leb (a b : UpstreamPortEntry) : bool :=
  if upe_backend a =s upe_backend b then
    if upe_port a =? upe_port b then str_leb (upe_host a) (upe_host b) else upe_port a <? upe_port b
  else str_leb (upe_backend a) (upe_backend b).

Definition sites_of_backend (sites : list Site) (name : str) : list str :=
  site_host <$> filter (fun s => site_backend s =s name) sites.

Definition backend_entries (sites : list Site) (b : CfgBackend) : list UpstreamPortEntry :=
  (fun u =>
    let p := parse_upstream_endpoint (up_addr u) in
    mkUpstreamPortEntry (backend_name b) (up_addr u) (pue_scheme p) (pue_host p) (pue_port p)
      (N.max (up_weight u) 1) (sites_of_backend sites (backend_name b))) <$> upstreams b.

Definition upstream_ports_summary (c : Config) : UpstreamPortsSummary :=
  mkUpstreamPortsSummary
    ([listen_port "http" (http_addr c); listen_port "https" (https_addr c);
      listen_port "management" (management_addr c)]
     ++ option_list (listen_port "http3" <$> http3_addr c))
    (sort_by upe_leb (mjoin (backend_entries (cfg_sites c) <$> cfg_backends c))).

(** ** Lemmas: wildcards *)

(** A wildcard covers exactly one more label. *)
Lemma wildcard_covers_spec w h :
  starts_with "*" (trim w) = true ->
  wildcard_covers_host w h = true <->
  exists label, label <> [] /\ ("."%byte ∉ label) /\ to_ascii_lowercase (trim h) = label ++ drop 1 (trim w).
Proof.
  intros Hw. apply starts_with_true in Hw as [suffix Hs].
  assert (Hd : drop 1 (trim w) = suffix) by (by rewrite Hs). rewrite Hd. clear Hd.
  unfold wildcard_covers_host. rewrite Hs. set (hl := to_ascii_lowercase (trim h)).
  change (bs "*" ++ suffix) with ("*"%byte :: suffix). cbn [is_empty orb drop].
  change (starts_with "*" ("*"%byte :: suffix)) with true. cbn [negb].
  change (strip_prefix "*" ("*"%byte :: suffix)) with (Some suffix). cbn [from_option id].
  split.
  - destruct (is_empty hl); [done|]. destruct (ends_with suffix hl) eqn:He; [|done].
    apply ends_with_true in He as [r Hr]. cbn [negb orb].
    destruct (length hl <=? length suffix)%nat eqn:El; [done|]. intros Hp. bsimp.
    rewrite Hr, length_app, Nat.add_sub, take_app_length in H, H0.
    exists r. split_and!; [by apply is_empty_false|by apply contains_byte_false|done].
  - intros (label & Hne & Hdot & Hl).
    assert (is_empty hl = false) as -> by (rewrite Hl; by destruct label).
    rewrite (proj2 (ends_with_true suffix hl)) by eauto. cbn [negb orb].
    assert (El : (length hl <=? length suffix)%nat = false)
      by (rewrite Hl, length_app; apply Nat.leb_gt; destruct label; [done|simpl; lia]).
    rewrite El, Hl, length_app, Nat.add_sub, take_app_length. bsimp.
    rewrite (proj2 (is_empty_false _) Hne), (proj2 (contains_byte_false _ _) Hdot). done.
Qed.

(** ** Lemmas: merging TLS entries *)

Definition host_key (h : str) : str := to_ascii_lowercase (trim h).

Definition same_source (a b : TlsSource) : Prop := a = b \/ acme_sources_equivalent a b = true.

(** Some entry of the list, with the given source, has a host with this key. *)
Definition serves (l : list TlsConfig) (src : TlsSource) (k : str) : Prop :=
  exists e h, e ∈ l /\ same_source (tls_source e) src /\ h ∈ tls_hosts e /\ host_key h = k.

Lemma host_key_trim h : host_key (trim h) = host_key h.
Proof. unfold host_key. by rewrite trim_idemp. Qed.

Lemma eq_ci_host_key x h : eq_ignore_ascii_case x (trim h) = true -> host_key x = host_key h.
Proof.
  unfold eq_ignore_ascii_case, host_key. intros H. apply bool_decide_eq_true in H.
  rewrite <- trim_lowercase, H, trim_lowercase. by rewrite trim_idemp.
Qed.

Lemma add_hosts_keep hs hosts h : h ∈ hosts -> h ∈ foldl add_host hosts hs.
Proof.
  revert hosts. induction hs as [|x hs IH]; intros hosts Hh; [done|]. simpl. apply IH.
  unfold add_host. repeat case_if; try done. apply elem_of_app. by left.
Qed.

Lemma add_hosts_new hs hosts h :
  h ∈ hs -> trim h <> [] -> exists h', h' ∈ foldl add_host hosts hs /\ host_key h' = host_key h.
Proof.
  revert hosts. induction hs as [|x hs IH]; intros hosts Hh Hne; [by apply elem_of_nil in Hh|].
  apply elem_of_cons in Hh as [<-|Hh]; [|by apply IH]. simpl.
  assert (Hx : exists h', h' ∈ add_host hosts h /\ host_key h' = host_key h).
  { unfold add_host. rewrite (proj2 (is_empty_false _) Hne). case_if.
    - apply existsb_exists in E as (x & Hx & Hc). exists x. split; [by apply list_elem_of_In|by apply eq_ci_host_key].
    - exists (trim h). split; [apply elem_of_app; right; by apply list_elem_of_singleton|apply host_key_trim]. }
  destruct Hx as (h' & Hin & Hk). exists h'. split; [by apply add_hosts_keep|done].
Qed.

Lemma add_hosts_old hs hosts h :
  h ∈ foldl add_host hosts hs -> h ∈ hosts \/ exists h0, h0 ∈ hs /\ host_key h0 = host_key h.
Proof.
  revert hosts. induction hs as [|x hs IH]; intros hosts Hh; [by left|]. simpl in Hh.
  apply IH in Hh as [Hh|(h0 & Hh0 & Hk)]; [|right; exists h0; split; [by right|done]].
  unfold add_host in Hh. destruct (is_empty (trim x)); [by left|]. destruct (existsb _ hosts); [by left|].
  apply elem_of_app in Hh as [Hh|Hh]; [by left|].
  apply list_elem_of_singleton in Hh as ->. right. exists x. split; [by left|]. by rewrite host_key_trim.
Qed.

Lemma should_merge_source a b : tls_entries_should_merge a b = true -> same_source (tls_source a) (tls_source b).
Proof. unfold tls_entries_should_merge. destruct (acme_sources_equivalent _ _) eqn:E; [|done]. by right. Qed.

Lemma merge_entry_keep merged entry src k : serves merged src k -> serves (merge_entry merged entry) src k.
Proof.
  intros (e & h & He & Hs & Hh & Hk). induction merged as [|x merged IH]; [by apply elem_of_nil in He|]. simpl.
  apply elem_of_cons in He as [<-|He].
  - case_if; [exists (merge_into e entry), h|exists e, h]; split_and!; try done; try by left.
    by apply add_hosts_keep.
  - case_if; [exists e, h; split_and!; try done; by right|].
    destruct (IH He) as (e' & h' & ? & ? & ? & ?). exists e', h'. split_and!; try done. by right.
Qed.

Lemma merge_entry_new merged entry h :
  h ∈ tls_hosts entry -> trim h <> [] -> serves (merge_entry merged entry) (tls_source entry) (host_key h).
Proof.
  intros Hh Hne. induction merged as [|x merged IH]; simpl.
  - exists entry, h. split_and!; [by left|by left|done|done].
  - case_if.
    + destruct (add_hosts_new (tls_hosts entry) (tls_hosts x) h Hh Hne) as (h' & Hin & Hk).
      exists (merge_into x entry), h'. split_and!; [by left|exact (should_merge_source x entry E)|done|done].
    + destruct IH as (e' & h' & ? & ? & ? & ?). exists e', h'. split_and!; try done. by right.
Qed.

(** Every host of every entry goes back to an input entry with the same source. *)
Definition from_input (tls : list TlsConfig) (e : TlsConfig) : Prop :=
  forall h, h ∈ tls_hosts e -> exists e0 h0, e0 ∈ tls /\ same_source (tls_source e) (tls_source e0) /\
    h0 ∈ tls_hosts e0 /\ host_key h0 = host_key h.

Lemma merge_entry_from tls merged entry :
  entry ∈ tls -> Forall (from_input tls) merged -> Forall (from_input tls) (merge_entry merged entry).
Proof.
  intros He. induction 1 as [|x merged Hx HF IH]; simpl.
  - constructor; [|constructor]. intros h Hh. exists entry, h. split_and!; try done. by left.
  - case_if; constructor; try done. intros h Hh. simpl in Hh.
    apply add_hosts_old in Hh as [Hh|(h0 & Hh0 & Hk)]; [by apply Hx|].
    exists entry, h0. split_and!; try done. exact (should_merge_source x entry E).
Qed.

Lemma merged_spec tls :
  let merged := foldl merge_entry [] tls in
  (forall e h, e ∈ tls -> h ∈ tls_hosts e -> trim h <> [] -> serves merged (tls_source e) (host_key h)) /\
  Forall (from_input tls) merged.
Proof.
  cut (forall l acc, (forall e, e ∈ l -> e ∈ tls) -> Forall (from_input tls) acc ->
    (forall e h, e ∈ l -> h ∈ tls_hosts e -> trim h <> [] -> serves (foldl merge_entry acc l) (tls_source e) (host_key h)) /\
    (forall src k, serves acc src k -> serves (foldl merge_entry acc l) src k) /\
    Forall (from_input tls) (foldl merge_entry acc l)).
  { intros H. destruct (H tls []) as (H1 & _ & H3); [done|constructor|]. by split. }
  induction l as [|x l IH]; intros acc Hl HF.
  - split_and!; try done. intros e h He. by apply elem_of_nil in He.
  - simpl. destruct (IH (merge_entry acc x)) as (H1 & H2 & H3).
    + intros e He. apply Hl. by right.
    + apply merge_entry_from; [|done]. apply Hl. by left.
    + split_and!; [|intros src k Hs; by apply H2, merge_entry_keep|done].
      intros e h He Hh Hne. apply elem_of_cons in He as [->|He]; [|by apply H1].
      by apply H2, merge_entry_new.
Qed.

Lemma invalid_acme_key h h' : host_key h = host_key h' -> is_invalid_acme_identifier h = is_invalid_acme_identifier h'.
Proof. unfold host_key, is_invalid_acme_identifier. by intros ->. Qed.

Lemma elem_of_normalized e tls :
  e ∈ normalize_tls_config tls <-> tls_hosts e <> [] /\ exists e0, e0 ∈ foldl merge_entry [] tls /\ e = drop_invalid e0.
Proof.
  unfold normalize_tls_config. rewrite list_elem_of_filter, list_elem_of_fmap, Is_true_true, negb_true_iff, is_empty_false.
  split; [intros [? (x & -> & ?)]; eauto|intros [? (x & ? & ->)]; eauto].
Qed.

Lemma drop_invalid_hosts e h :
  h ∈ tls_hosts (drop_invalid e) <->
  h ∈ tls_hosts e /\ (is_acme (tls_source e) = true -> is_invalid_acme_identifier h = false).
Proof.
  unfold drop_invalid. destruct (is_acme (tls_source e)); simpl.
  - rewrite list_elem_of_filter, Is_true_true, negb_true_iff.
    split; [intros [? ?]; split; [done|by intros _]|intros [? Hv]; split; [by apply Hv|done]].
  - split; [intros ?; split; [done|discriminate]|by intros [? _]].
Qed.

Lemma drop_invalid_source e : tls_source (drop_invalid e) = tls_source e.
Proof. unfold drop_invalid. by destruct (is_acme _). Qed.

Lemma same_source_acme a b : same_source a b -> is_acme a = is_acme b.
Proof. intros [->|H]; [done|]. by destruct a, b. Qed.

(** ** Properties *)

(** Merging TLS entries neither loses nor invents names: every host of every
    entry (blank ones and ACME names no CA would accept aside) is served, up to
    case and surrounding spaces, by an entry of the result with an equivalent
    source; every host of the result comes from such an input entry; no entry of
    the result is empty and none asks ACME for an invalid name. *)
Theorem normalize_tls_hosts tls :
  (forall e h, e ∈ tls -> h ∈ tls_hosts e -> trim h <> [] ->
     (is_acme (tls_source e) = true -> is_invalid_acme_identifier h = false) ->
     serves (normalize_tls_config tls) (tls_source e) (host_key h)) /\
  Forall (from_input tls) (normalize_tls_config tls) /\
  Forall (fun e => tls_hosts e <> [] /\
    (is_acme (tls_source e) = true -> Forall (fun h => is_invalid_acme_identifier h = false) (tls_hosts e)))
    (normalize_tls_config tls).
Proof.
  destruct (merged_spec tls) as [Hs HF]. rewrite Forall_forall in HF. split_and!.
  - intros e h He Hh Hne Hv. destruct (Hs e h He Hh Hne) as (m & h' & Hm & Hsrc & Hh' & Hk).
    assert (Hh2 : h' ∈ tls_hosts (drop_invalid m)).
    { apply drop_invalid_hosts. split; [done|]. intros Ha. rewrite (invalid_acme_key h' h) by done.
      apply Hv. by rewrite <- (same_source_acme _ _ Hsrc). }
    exists (drop_invalid m), h'. split_and!; [|by rewrite drop_invalid_source|done|done].
    apply elem_of_normalized. split; [by intros E; rewrite E in Hh2; apply elem_of_nil in Hh2|eauto].
  - apply Forall_forall. intros e (Hne & m & Hm & ->)%elem_of_normalized h Hh.
    apply drop_invalid_hosts in Hh as [Hh _]. rewrite drop_invalid_source. by apply (HF m Hm).
  - apply Forall_forall. intros e (Hne & m & Hm & ->)%elem_of_normalized. split; [done|].
    rewrite drop_invalid_source. intros Ha. apply Forall_forall. intros h Hh.
    by apply drop_invalid_hosts in Hh as [_ Hh]; apply Hh.
Qed.
