(* ===== verification/Router.v ===== *)
(** * Routing ([src/src/router.rs])

    Routes and the route table, host and path matching, edge policies, the
    parsing of upstream addresses, and the table built from Kubernetes Ingress
    objects.  A [HashMap] is a [gmap]; where the code iterates over one, the
    order of iteration is a parameter and the results do not depend on it.
    [url::Url::parse] is a parameter too. *)

From S2P Require Import Prelude RustStr Ip GeoIp Waf Bot Captcha Security Edge ProxyConfig.

(** ** Data *)

Inductive PathMatchType : Type := Exact | Prefix | ImplementationSpecific.

#[export] Instance PathMatchType_eq_dec : EqDecision PathMatchType.
Proof. solve_decision. Defined.

Record Backend := mkBackend { address : str; port : N; backend_use_tls : bool }.

#[export] Instance Backend_eq_dec : EqDecision Backend.
Proof. solve_decision. Defined.

Inductive Middleware : Type :=
| StripPrefix (prefix : str)
| RequestHeaders (headers : gmap str str)
| ResponseHeaders (headers : gmap str str).

Record Route := mkRoute {
  route_path : str;
  path_type : PathMatchType;
  route_backend : Backend;
  middlewares : list Middleware;
  forward_client_ip : bool;
  route_geoip : GeoIpPolicy;
  route_security : SecurityPolicy;
}.

Record RouteTable := mkRouteTable {
  routes : gmap str (list Route);
  edge : gmap str (gmap str EdgePolicy);
  globals : EdgeGlobals;
}.

Definition route_table_default : RouteTable := mkRouteTable ∅ ∅ edge_globals_default.

(** ** Matching *)

Definition normalize_host (host : str) : str := to_ascii_lowercase (split_first ":" host).

Definition path_matches (t : PathMatchType) (rule_path request_path : str) : bool :=
  match t with
  | Exact => rule_path =s request_path
  | Prefix =>
    (request_path =s rule_path)
    || (ends_with "/" rule_path && starts_with rule_path request_path)
    || (negb (ends_with "/" rule_path)
        && (starts_with (rule_path ++ bs "/") request_path || (request_path =s rule_path)))
  | ImplementationSpecific => starts_with rule_path request_path
  end.

Fixpoint find_route (rs : list Route) (path : str) : option Route :=
  match rs with
  | [] => None
  | r :: rs' => if path_matches (path_type r) (route_path r) path then Some r else find_route rs' path
  end.

Section table.
(** The orders in which the two hash maps yield their entries. *)
Variable iter_routes : gmap str (list Route) -> list (str * list Route).
Variable iter_edge : gmap str (gmap str EdgePolicy) -> list (str * gmap str EdgePolicy).

Definition covering (host key : str) : bool := starts_with "*." key && wildcard_covers_host key host.

(** The score of a wildcard: the length of what follows the star. *)
Definition suffix_score (key : str) : nat := length (default key (strip_prefix "*" key)).

Definition routes_for_host (t : RouteTable) (host : str) : option (list Route) :=
  let host := normalize_host host in
  if is_empty host then None
  else
    match routes t !! host with
    | Some rs => Some rs
    | None =>
      match best_of ((fun kr => (suffix_score kr.1, kr.2)) <$>
                       filter (fun kr => covering host kr.1) (iter_routes (routes t))) with
      | Some (_, rs) => Some rs
      | None => routes t !! bs "*"
      end
    end.

Definition match_route_entry (t : RouteTable) (host path : str) : option Route :=
  rs ← routes_for_host t host; find_route rs path.

Definition match_route (t : RouteTable) (host path : str) : option Backend :=
  route_backend <$> match_route_entry t host path.

Definition has_host (t : RouteTable) (host : str) : bool :=
  let host := normalize_host host in negb (is_empty host) && is_some (routes_for_host t host).

Definition all_routes (t : RouteTable) : list (str * Route) :=
  mjoin ((fun kr => (fun r => (kr.1, r)) <$> kr.2) <$> iter_routes (routes t)).

Definition route_count (t : RouteTable) : nat :=
  foldr (fun kr acc => (length kr.2 + acc)%nat) 0%nat (iter_routes (routes t)).

(** [b.path.len().cmp(&a.path.len())]: longest path first. *)
Definition longer_first (a b : Route) : bool := (length (route_path b) <=? length (route_path a))%nat.

Definition from_routes (by_host : gmap str (list Route)) : RouteTable :=
  mkRouteTable (sort_by longer_first <$> by_host) ∅ edge_globals_default.

Definition set_globals (t : RouteTable) (g : EdgeGlobals) : RouteTable := mkRouteTable (routes t) (edge t) g.

(** ** Edge policies *)

Definition insert_edge (t : RouteTable) (host path : str) (policy : EdgePolicy) : RouteTable :=
  let h := normalize_host host in
  mkRouteTable (routes t) (<[h := <[path := policy]> (default ∅ (edge t !! h))]> (edge t)) (globals t).

Definition matched_host_key (t : RouteTable) (host : str) : str :=
  let host := normalize_host host in
  if is_some (routes t !! host) || is_some (edge t !! host) then host
  else
    let keys := (fst <$> iter_routes (routes t)) ++ (fst <$> iter_edge (edge t)) in
    match best_of ((fun k => (length k, k)) <$> filter (fun k => covering host k) keys) with
    | Some (_, key) => key
    | None => if is_some (routes t !! bs "*") then bs "*" else host
    end.

Definition edge_for (t : RouteTable) (host route_path : str) : EdgePolicy :=
  let host := matched_host_key t host in
  default edge_policy_default (paths ← edge t !! host; paths !! route_path).

Definition push_new (out : list str) (name : str) : list str :=
  if negb (is_empty name) && negb (existsb (fun s => s =s name) out) then out ++ [name] else out.

Definition consul_services (t : RouteTable) : list str :=
  foldl (fun out r =>
    match strip_prefix "consul:" (address (route_backend r)) with
    | Some name => push_new out name
    | None => out
    end) [] (mjoin (snd <$> iter_routes (routes t))).

Definition is_jwt_with (secret : str) (p : EdgePolicy) : bool :=
  match auth p with Some (Jwt configured) => configured =s secret | _ => false end.

Definition accepts_jwt_secret (t : RouteTable) (secret : str) : bool :=
  if bool_decide (jwt_secret (globals t) = Some secret) then true
  else existsb (fun kp => existsb (fun pp => is_jwt_with secret pp.2) (map_to_list kp.2)) (iter_edge (edge t)).

End table.

(** ** Upstream addresses *)

(** What the code reads of a parsed URL. *)
Record Url := mkUrl {
  url_scheme : str;
  url_host_str : option str;
  url_path : str;
  url_port : option N;
  url_port_or_known_default : option N;
}.

Definition normalize_upstream_host (host : str) : str :=
  if eq_ignore_ascii_case host "localhost" then bs "127.0.0.1" else host.

Definition host_port (host : str) (p : N) : str := host ++ bs ":" ++ show_N p.

Definition parse_host_port (raw : str) : option Backend :=
  let without_path := split_first "/" raw in
  match rsplit_once ":" without_path with
  | Some (host, p) =>
    p ← parse_u16 p;
    Some (mkBackend (host_port (normalize_upstream_host host) p) p false)
  | None => Some (mkBackend (normalize_upstream_host without_path ++ bs ":80") 80 false)
  end.

Definition is_semicolon (b : byte) : bool := bool_decide (b = ";"%byte).

Section upstream.
Variable url_parse : str -> option Url.

Definition backend_of_url (url : Url) : option Backend :=
  if url_scheme url =s "file" then
    if is_empty (url_path url) then None else Some (mkBackend (bs "file:" ++ url_path url) 0 false)
  else if url_scheme url =s "consul" then
    let name := default (trim_matches is_slash (url_path url))
                  (opt_filter (fun s => negb (is_empty s)) (url_host_str url)) in
    if is_empty name then None else Some (mkBackend (bs "consul:" ++ name) 0 false)
  else if url_scheme url =s "auto" then
    host ← url_host_str url;
    let p := default 443 (url_port url) in
    Some (mkBackend (bs "auto:" ++ host_port (normalize_upstream_host host) p) p false)
  else
    host ← url_host_str url;
    let tls := url_scheme url =s "https" in
    let p := default (if tls then 443 else 80) (url_port_or_known_default url) in
    Some (mkBackend (host_port (normalize_upstream_host host) p) p tls).

Definition parse_upstream (raw : str) : option Backend :=
  let trimmed := trim (trim_end_matches is_semicolon (trim raw)) in
  if is_empty trimmed then None
  else if contains "://" trimmed then
    match url_parse trimmed with
    | Some url => backend_of_url url
    | None => parse_host_port trimmed
    end
  else parse_host_port trimmed.

End upstream.

(** ** The router *)

Record Router := mkRouter { table : RouteTable; http3 : Http3Options }.

Definition router_new : Router := mkRouter route_table_default http3_options_default.
Definition router_replace (r : Router) (t : RouteTable) : Router := mkRouter t (http3 r).
Definition router_replace_http3 (r : Router) (o : Http3Options) : Router := mkRouter (table r) o.
Definition router_replace_all (r : Router) (t : RouteTable) (o : Http3Options) : Router :=
  router_replace_http3 (router_replace r t) o.

(** ** Kubernetes Ingress *)

Record IngressServiceBackend := mkIngressServiceBackend {
  svc_name : str;
  (** [Some None]: a port given by name. *)
  svc_port : option (option Z);
}.
Record IngressPath := mkIngressPath {
  ip_path : option str;
  ip_path_type : str;
  ip_backend : option IngressServiceBackend;
}.
Record IngressRule := mkIngressRule { rule_host : option str; rule_http : option (list IngressPath) }.
Record IngressSpec := mkIngressSpec {
  ingress_class_name : option str;
  default_backend : option (option IngressServiceBackend);
  ingress_rules : option (list IngressRule);
}.
Record Ingress := mkIngress { ing_namespace : option str; ing_spec : option IngressSpec }.

Definition i32_as_u16 (z : Z) : N := Z.to_N (z mod 65536).

Definition service_dns (name namespace : str) (p : N) : str :=
  name ++ bs "." ++ namespace ++ bs ".svc.cluster.local:" ++ show_N p.

Definition resolve_service_backend (service : IngressServiceBackend) (namespace : str) : option Backend :=
  p ← svc_port service;
  number ← p;
  Some (mkBackend (service_dns (svc_name service) namespace (i32_as_u16 number)) (i32_as_u16 number) false).

Definition resolve_backend (b : option IngressServiceBackend) (namespace : str) : option Backend :=
  service ← b; resolve_service_backend service namespace.

Abbreviation ByHost := (gmap str (list Route)).

(** [by_host.entry(host).or_default().push(route)]. *)
Definition push_route (m : ByHost) (host : str) (r : Route) : ByHost :=
  <[host := default [] (m !! host) ++ [r]]> m.

Definition plain_route (path : str) (t : PathMatchType) (b : Backend) : Route :=
  mkRoute path t b [] false geoip_default security_default.

Definition collect_http_paths (host namespace : str) (paths : list IngressPath) (by_host : ByHost) : ByHost :=
  foldl (fun m p =>
    match resolve_backend (ip_backend p) namespace with
    | None => m
    | Some b =>
      let t := if ip_path_type p =s "Exact" then Exact
               else if ip_path_type p =s "ImplementationSpecific" then ImplementationSpecific
               else Prefix in
      push_route m host (plain_route (default (bs "/") (ip_path p)) t b)
    end) by_host paths.

Definition add_ingress_to_table (by_host : ByHost) (ingress : Ingress) : ByHost :=
  let namespace := default (bs "default") (ing_namespace ingress) in
  match ing_spec ingress with
  | None => by_host
  | Some spec =>
    let m :=
      match b ← default_backend spec; resolve_backend b namespace with
      | Some b => push_route by_host "*" (plain_route "/" Prefix b)
      | None => by_host
      end in
    foldl (fun m rule =>
      let host := default (bs "*") (normalize_host <$> rule_host rule) in
      match rule_http rule with
      | None => m
      | Some paths => collect_http_paths host namespace paths m
      end) m (default [] (ingress_rules spec))
  end.

Definition build_route_table_from_ingresses (ingresses : list Ingress) : RouteTable :=
  mkRouteTable (sort_by longer_first <$> foldl add_ingress_to_table ∅ ingresses) ∅ edge_globals_default.

Definition ingress_matches_class (ingress : Ingress) (class : option str) : bool :=
  match class with
  | None => true
  | Some expected => bool_decide ((ing_spec ingress ≫= ingress_class_name) = Some expected)
  end.

(** ** Lemmas: hosts *)

(** The only wildcard that can cover a host: the star for its first label. *)
Definition parent_wildcard (h : str) : option str :=
  match split_once "." h with
  | Some (label, rest) => if is_empty label then None else Some (bs "*." ++ rest)
  | None => None
  end.

Lemma normalize_host_lower host : to_ascii_lowercase (normalize_host host) = normalize_host host.
Proof. apply to_ascii_lowercase_idemp. Qed.

Lemma covering_parent h k :
  trim k = k -> trim h = h -> to_ascii_lowercase h = h ->
  covering h k = true <-> parent_wildcard h = Some k.
Proof.
  intros Hk Hh Hl. unfold covering. rewrite andb_true_iff. unfold parent_wildcard. split.
  - intros [Hs Hc]. apply starts_with_true in Hs as [r ->].
    apply wildcard_covers_spec in Hc; [|by rewrite Hk].
    destruct Hc as (label & Hne & Hdot & E). rewrite Hh, Hl, Hk in E.
    assert (Es : split_once "." h = Some (label, r)) by (by apply split_once_Some).
    rewrite Es. by rewrite (proj2 (is_empty_false _) Hne).
  - destruct (split_once "." h) as [[label rest]|] eqn:Es; [|done]. apply split_once_Some in Es as [E Hdot].
    destruct (is_empty label) eqn:Ee; [done|]. intros [= <-]. split; [apply (starts_with_app (bs "*.") rest)|].
    apply wildcard_covers_spec; [by rewrite Hk|]. exists label. rewrite Hk, Hh, Hl.
    split_and!; [by apply is_empty_false|done|done].
Qed.

(** The key of the table a host selects: itself, its wildcard, or the catch-all. *)
Definition host_key_of (t : RouteTable) (h : str) : option str :=
  if is_some (routes t !! h) then Some h
  else
    match opt_filter (fun k => is_some (routes t !! k)) (parent_wildcard h) with
    | Some k => Some k
    | None => if is_some (routes t !! bs "*") then Some (bs "*") else None
    end.

Lemma NoDup_all_same {A} (l : list A) x : NoDup l -> (forall y, y ∈ l -> y = x) -> l = [] \/ l = [x].
Proof.
  intros HN Hall. destruct l as [|a [|b l]]; [by left|right|exfalso].
  - by rewrite (Hall a) by (by left).
  - apply NoDup_cons in HN as [HN _]. apply HN. rewrite (Hall a), (Hall b) by (by repeat constructor). by left.
Qed.

Section table_lemmas.
Variable iter_routes : gmap str (list Route) -> list (str * list Route).
Variable iter_edge : gmap str (gmap str EdgePolicy) -> list (str * gmap str EdgePolicy).
Hypothesis iter_routes_perm : forall m, iter_routes m ≡ₚ map_to_list m.
Hypothesis iter_edge_perm : forall m, iter_edge m ≡ₚ map_to_list m.

(** The hosts of a table are written without surrounding white space. *)
Definition keys_trimmed (t : RouteTable) : Prop :=
  (forall k, is_Some (routes t !! k) -> trim k = k) /\ (forall k, is_Some (edge t !! k) -> is_Some (routes t !! k)).

Lemma elem_of_iter_routes m k rs : (k, rs) ∈ iter_routes m <-> m !! k = Some rs.
Proof. rewrite iter_routes_perm. apply elem_of_map_to_list. Qed.

Lemma elem_of_iter_edge m k ps : (k, ps) ∈ iter_edge m <-> m !! k = Some ps.
Proof. rewrite iter_edge_perm. apply elem_of_map_to_list. Qed.

Lemma covering_filter t h :
  keys_trimmed t -> trim h = h -> to_ascii_lowercase h = h ->
  filter (fun kr : str * list Route => covering h kr.1) (iter_routes (routes t)) =
    match parent_wildcard h with
    | Some k => match routes t !! k with Some rs => [(k, rs)] | None => [] end
    | None => []
    end.
Proof.
  intros [Hk _] Hh Hl. set (l := filter _ _).
  assert (Hin : forall k rs, (k, rs) ∈ l <-> routes t !! k = Some rs /\ parent_wildcard h = Some k).
  { intros k rs. unfold l. rewrite list_elem_of_filter, elem_of_iter_routes, Is_true_true. cbn [fst].
    split; intros [H1 H2].
    - split; [done|]. apply covering_parent in H1; [done| |done..]. apply Hk. eauto.
    - split; [|done]. apply covering_parent; [|done..]. apply Hk. eauto. }
  assert (HN : NoDup l).
  { apply NoDup_filter. rewrite iter_routes_perm. apply NoDup_map_to_list. }
  assert (Hempty : (forall x, x ∉ l) -> l = []) by (destruct l; [done|]; intros H; destruct (H p); by left).
  destruct (parent_wildcard h) as [k|] eqn:Ep.
  2:{ apply Hempty. intros [k rs] H. by apply Hin in H as [_ ?]. }
  destruct (routes t !! k) as [rs|] eqn:Er.
  2:{ apply Hempty. intros [k' rs'] H. apply Hin in H as [H [= <-]]. congruence. }
  destruct (NoDup_all_same l (k, rs) HN) as [E|E]; [|exfalso|exact E].
  - intros [k' rs'] H. apply Hin in H as [H [= <-]]. congruence.
  - assert (H : (k, rs) ∈ l) by (by apply Hin). rewrite E in H. by apply elem_of_nil in H.
Qed.

Lemma parent_wildcard_shape h k : parent_wildcard h = Some k -> exists r, k = bs "*." ++ r.
Proof.
  unfold parent_wildcard. destruct (split_once "." h) as [[label rest]|]; [|done].
  destruct (is_empty label); [done|]. intros [= <-]. eauto.
Qed.

Lemma best_of_single {A} n (x : A) : (0 < n)%nat -> best_of [(n, x)] = Some (n, x).
Proof. intros Hn. unfold best_of, keep_best. simpl. destruct n; [lia|done]. Qed.

Lemma routes_for_host_eq t host :
  keys_trimmed t -> let h := normalize_host host in trim h = h ->
  routes_for_host iter_routes t host = if is_empty h then None else (k ← host_key_of t h; routes t !! k).
Proof.
  intros Hk h Hh. unfold routes_for_host, host_key_of. fold h. destruct (is_empty h); [done|].
  destruct (routes t !! h) as [rs|] eqn:Er; cbn [is_some]; [by cbn [mbind option_bind]; rewrite Er|].
  rewrite covering_filter by (done || apply normalize_host_lower).
  destruct (parent_wildcard h) as [k|] eqn:Ep; cbn [opt_filter].
  - destruct (parent_wildcard_shape h k Ep) as [r Ek].
    destruct (routes t !! k) as [rs|] eqn:Erk; cbn [is_some fmap list_fmap].
    + rewrite best_of_single; [cbn [mbind option_bind]; by rewrite Erk|]. rewrite Ek. vm_compute. lia.
    + change (best_of []) with (@None (nat * list Route)). destruct (routes t !! bs "*") eqn:Es; cbn [is_some mbind option_bind]; by rewrite ?Es.
  - change (best_of _) with (@None (nat * list Route)). destruct (routes t !! bs "*") eqn:Es; cbn [is_some mbind option_bind]; by rewrite ?Es.
Qed.

Lemma elem_of_covering_keys t h k :
  keys_trimmed t -> trim h = h -> to_ascii_lowercase h = h ->
  k ∈ filter (fun k : str => covering h k) ((fst <$> iter_routes (routes t)) ++ (fst <$> iter_edge (edge t))) <->
  is_Some (routes t !! k) /\ parent_wildcard h = Some k.
Proof.
  intros [Hk He] Hh Hl.
  assert (Hdom : k ∈ (fst <$> iter_routes (routes t)) ++ (fst <$> iter_edge (edge t)) <-> is_Some (routes t !! k)).
  { rewrite elem_of_app, !list_elem_of_fmap. split.
    - intros [([k' rs] & -> & H)|([k' ps] & -> & H)].
      + apply elem_of_iter_routes in H. eauto.
      + apply elem_of_iter_edge in H. apply He. eauto.
    - intros [rs H]. left. exists (k, rs). split; [done|]. by apply elem_of_iter_routes. }
  rewrite list_elem_of_filter, Hdom, Is_true_true. split; intros [H1 H2].
  - split; [done|]. apply covering_parent in H1; [done|by apply Hk|done..].
  - split; [|done]. apply covering_parent; [by apply Hk|done..].
Qed.

Lemma matched_host_key_eq t host :
  keys_trimmed t -> let h := normalize_host host in trim h = h ->
  matched_host_key iter_routes iter_edge t host = default h (host_key_of t h).
Proof.
  intros Hkt h Hh. unfold matched_host_key, host_key_of. fold h.
  pose proof (elem_of_covering_keys t h) as Hin.
  assert (Hed : is_some (routes t !! h) || is_some (edge t !! h) = is_some (routes t !! h)).
  { destruct (edge t !! h) eqn:Ee; [|by rewrite orb_false_r]. destruct Hkt as [_ He].
    destruct (He h) as [rs ->]; [eauto|done]. }
  rewrite Hed. destruct (is_some (routes t !! h)); [done|].
  set (l := filter _ _) in Hin |- *.
  destruct (best_of ((fun k => (length k, k)) <$> l)) as [[n k]|] eqn:Eb.
  - apply best_of_elem in Eb as [Hk _]. apply list_elem_of_fmap in Hk as (k' & [= -> ->] & Hk).
    apply Hin in Hk as [[rs Hr] Hp]; [|done|done|apply normalize_host_lower]. rewrite Hp. cbn [opt_filter].
    by rewrite Hr.
  - rewrite best_of_None in Eb. destruct (parent_wildcard h) as [k|] eqn:Ep; cbn [opt_filter].
    + destruct (routes t !! k) as [rs|] eqn:Er; cbn [is_some].
      * exfalso. assert (Hkl : k ∈ l) by (apply Hin; [done|done|apply normalize_host_lower|eauto]).
        assert (Hz : length k = 0%nat) by (apply (Eb (length k, k)), list_elem_of_fmap; eauto).
        destruct (parent_wildcard_shape h k Ep) as [r ->]. done.
      * by destruct (is_some (routes t !! bs "*")).
    + by destruct (is_some (routes t !! bs "*")).
Qed.

(** ** Lemmas: paths *)

Lemma find_route_Some rs path r :
  find_route rs path = Some r <->
  exists pre post, rs = pre ++ r :: post /\ path_matches (path_type r) (route_path r) path = true /\
    Forall (fun r' => path_matches (path_type r') (route_path r') path = false) pre.
Proof.
  split.
  - induction rs as [|x rs IH]; simpl; [done|]. case_if.
    + intros [= <-]. by exists [], rs.
    + intros H. destruct (IH H) as (pre & post & -> & Hm & HF). exists (x :: pre), post. split_and!; [done|done|by constructor].
  - intros (pre & post & -> & Hm & HF). induction HF as [|x pre Hx _ IH]; simpl; [by rewrite Hm|by rewrite Hx].
Qed.

Lemma find_route_None rs path :
  find_route rs path = None <-> Forall (fun r => path_matches (path_type r) (route_path r) path = false) rs.
Proof.
  induction rs as [|x rs IH]; simpl; [done|]. rewrite Forall_cons. case_if; [|by rewrite IH; intuition].
  split; [done|]. by intros [? _].
Qed.

Lemma filter_nil_iff_none {A} (P : A -> bool) (l : list A) : Forall (fun x => ~ P x) l -> filter P l = [].
Proof. induction 1 as [|x l Hx _ IH]; [done|]. by rewrite filter_cons_False. Qed.

Lemma longer_first_total a b : longer_first a b = true \/ longer_first b a = true.
Proof. unfold longer_first. rewrite !Nat.leb_le. lia. Qed.

Lemma longer_first_trans : Transitive (fun a b => longer_first a b = true).
Proof. intros a b c. unfold longer_first. rewrite !Nat.leb_le. lia. Qed.

(** ** Properties *)

(** C31: Host lookup does what three direct lookups would: whatever order the
    hash map yields its entries in, the routes of a request's host are those of
    the exact host if it is configured, otherwise those of the one wildcard
    that replaces its first label, otherwise those of the catch-all [*]. *)
Theorem routes_for_host_reference t host :
  keys_trimmed t -> trim (normalize_host host) = normalize_host host -> normalize_host host <> [] ->
  routes_for_host iter_routes t host =
    match routes t !! normalize_host host with
    | Some rs => Some rs
    | None =>
      match k ← parent_wildcard (normalize_host host); routes t !! k with
      | Some rs => Some rs
      | None => routes t !! bs "*"
      end
    end.
Proof.
  intros Hk Hh Hne. rewrite routes_for_host_eq by done. rewrite (proj2 (is_empty_false _) Hne).
  unfold host_key_of. set (h := normalize_host host). destruct (routes t !! h) as [rs|] eqn:Er; cbn [is_some mbind option_bind]; [exact Er|].
  destruct (parent_wildcard h) as [k|]; cbn [opt_filter mbind option_bind].
  - destruct (routes t !! k) as [rs|] eqn:Ek; cbn [is_some]; [exact Ek|].
    destruct (routes t !! bs "*") as [rs|] eqn:Es; cbn [is_some]; [exact Es|done].
  - destruct (routes t !! bs "*") as [rs|] eqn:Es; cbn [is_some]; [exact Es|done].
Qed.

(** The policy of a route is looked up under the same host as the route:
    when a request's host selects the routes stored under a key, its edge
    policy (authentication, rate limits, caching) is the one stored under that
    very key for the route's path. *)
Theorem edge_for_same_host t host rs path :
  keys_trimmed t -> trim (normalize_host host) = normalize_host host ->
  routes_for_host iter_routes t host = Some rs ->
  exists k, routes t !! k = Some rs /\
    edge_for iter_routes iter_edge t host path = default edge_policy_default (ps ← edge t !! k; ps !! path).
Proof.
  intros Hk Hh Hrs. rewrite routes_for_host_eq in Hrs by done. destruct (is_empty _); [done|].
  destruct (host_key_of t (normalize_host host)) as [k|] eqn:Ek; [|done]. cbn [mbind option_bind] in Hrs.
  exists k. split; [done|]. unfold edge_for. rewrite matched_host_key_eq by done. by rewrite Ek.
Qed.

(** The longest matching path wins: in a table built by [from_routes] a
    request is given a route that matches its path, no matching route of the
    host has a longer path, and among matching routes of equal length the one
    configured first is taken; no route means none matches. *)
Theorem longest_path_wins by_host host path rs :
  routes_for_host iter_routes (from_routes by_host) host = Some (sort_by longer_first rs) ->
  let matching := filter (fun r => path_matches (path_type r) (route_path r) path) rs in
  match match_route_entry iter_routes (from_routes by_host) host path with
  | None => matching = []
  | Some r =>
    r ∈ matching /\ (forall r', r' ∈ matching -> (length (route_path r') <= length (route_path r))%nat) /\
    head (filter (fun r' => length (route_path r') = length (route_path r)) matching) = Some r
  end.
Proof.
  intros Hrs matching. unfold match_route_entry. rewrite Hrs. cbn [mbind option_bind].
  destruct (find_route (sort_by longer_first rs) path) as [r|] eqn:Ef.
  - apply find_route_Some in Ef as (pre & post & Es & Hm & Hpre).
    assert (Hin : forall r', r' ∈ matching <-> r' ∈ pre ++ r :: post /\ path_matches (path_type r') (route_path r') path = true).
    { intros r'. unfold matching. rewrite list_elem_of_filter, Is_true_true, <- Es, elem_of_sort_by. tauto. }
    assert (Hsort : StronglySorted (fun a b => longer_first a b = true) (pre ++ r :: post)).
    { rewrite <- Es. apply sort_by_sorted; [apply longer_first_total|apply longer_first_trans]. }
    split_and!.
    + apply Hin. split; [apply elem_of_app; right; by left|done].
    + intros r' Hr'. apply Hin in Hr' as [Hr' Hm']. apply elem_of_app in Hr' as [Hr'|Hr'].
      { rewrite Forall_forall in Hpre. apply Hpre in Hr'. congruence. }
      apply elem_of_cons in Hr' as [->|Hr']; [lia|]. apply StronglySorted_app_1_r in Hsort.
      apply StronglySorted_inv in Hsort as [_ HF]. rewrite Forall_forall in HF. apply HF in Hr'.
      unfold longer_first in Hr'. by apply Nat.leb_le.
    + set (P := fun r' => bool_decide (length (route_path r') = length (route_path r))
                          && path_matches (path_type r') (route_path r') path).
      assert (HP : filter (fun r' => length (route_path r') = length (route_path r)) matching = filter P rs).
      { unfold matching. rewrite list_filter_filter. apply list_filter_iff. intros x. unfold P.
        rewrite !Is_true_true, andb_true_iff, bool_decide_eq_true. done. }
      rewrite HP, <- (sort_by_stable longer_first longer_first_total longer_first_trans P), Es.
      * rewrite filter_app, filter_cons_True by (apply Is_true_true; unfold P; rewrite Hm, bool_decide_true by done; done).
        assert (filter P pre = []) as ->; [|done]. apply filter_nil_iff_none. eapply Forall_impl; [exact Hpre|].
        intros x Hx. unfold P. rewrite Hx, andb_false_r. exact (fun H => H).
      * intros x y Hx Hy. unfold P in Hx, Hy. bsimp. unfold longer_first. apply Nat.leb_le. lia.
  - apply find_route_None in Ef. unfold matching. apply filter_nil_iff_none. rewrite Forall_forall in Ef.
    apply Forall_forall. intros x Hx. rewrite Ef; [exact (fun H => H)|]. by apply elem_of_sort_by.
Qed.

End table_lemmas.

(** ** Witnesses and the trailing slash *)

(** One order of iteration. *)
Definition iter_r (m : gmap str (list Route)) : list (str * list Route) := map_to_list m.
Definition iter_e (m : gmap str (gmap str EdgePolicy)) : list (str * gmap str EdgePolicy) := map_to_list m.

Definition sample_route (path addr : str) : Route := plain_route path Prefix (mkBackend addr 80 false).
Definition sample_by_host : ByHost :=
  <[bs "*.example.com" := [sample_route "/" "wild:80"; sample_route "/api" "api:80"]]>
    {[bs "*" := [sample_route "/" "catch:80"]]}.
Definition sample_table : RouteTable := from_routes sample_by_host.

Lemma sample_keys_trimmed : keys_trimmed sample_table.
Proof.
  split; intros k [rs Hk].
  - apply lookup_fmap_Some in Hk as (rs' & _ & Hk). unfold sample_by_host in Hk.
    apply lookup_insert_Some in Hk as [[<- _]|[_ Hk]]; [reflexivity|].
    by apply lookup_singleton_Some in Hk as [<- _].
  - exfalso. unfold sample_table, from_routes in Hk. cbn [edge] in Hk. by rewrite lookup_empty in Hk.
Qed.

Lemma routes_for_host_reference_witness :
  length <$> routes_for_host iter_r sample_table "App.Example.com:8443" = Some 2%nat.
Proof.
  rewrite (routes_for_host_reference iter_r (fun m => reflexivity _) sample_table "App.Example.com:8443"
    sample_keys_trimmed); [vm_compute; reflexivity|vm_compute; reflexivity|vm_compute; discriminate].
Defined.

Lemma edge_for_same_host_witness :
  exists k, routes sample_table !! k = routes_for_host iter_r sample_table "app.example.com".
Proof.
  destruct (routes_for_host iter_r sample_table "app.example.com") as [rs|] eqn:E.
  - destruct (edge_for_same_host iter_r iter_e (fun m => reflexivity _) (fun m => reflexivity _)
      sample_table "app.example.com" rs "/" sample_keys_trimmed) as (k & Hk & _);
      [vm_compute; reflexivity|exact E|]. exists k. exact Hk.
  - vm_compute in E. discriminate E.
Defined.

Lemma longest_path_wins_witness :
  exists r, match_route_entry iter_r sample_table "app.example.com" "/api/v1" = Some r /\ route_path r = bs "/api".
Proof.
  pose proof (longest_path_wins iter_r sample_by_host "app.example.com" "/api/v1"
    [sample_route "/" "wild:80"; sample_route "/api" "api:80"] ltac:(vm_compute; reflexivity)) as H.
  destruct (match_route_entry _ _ _ _) as [r|] eqn:E in H.
  - exists r. split; [exact E|]. vm_compute in E. injection E as <-. reflexivity.
  - vm_compute in H. discriminate H.
Defined.

(** Finding: a [Prefix] rule with a trailing slash does not match the path
    without it.  Path matching is documented as Kubernetes-style, where the
    trailing slash of a prefix is ignored ([/foo/] matches [/foo]); here
    [/foo] falls through to another route or to 404. *)
Theorem prefix_trailing_slash base : path_matches Prefix (base ++ bs "/") base = false.
Proof.
  assert (Hne : (base =s (base ++ bs "/")) = false).
  { apply str_eqb_neq. intros E. apply (f_equal length) in E. rewrite length_app in E. simpl in E. lia. }
  assert (Hs : starts_with (base ++ bs "/") base = false).
  { destruct (starts_with (base ++ bs "/") base) eqn:E; [|done]. apply starts_with_true in E as [r E].
    apply (f_equal length) in E. rewrite !length_app in E. simpl in E. lia. }
  unfold path_matches. rewrite Hne, Hs, (proj2 (ends_with_true (bs "/") _)) by eauto. done.
Qed.
