(* ===== verification/Forward.v ===== *)
(** * Forwarding plans ([src/src/proxy/forward.rs])

    From a route table, a host and a request target to the upstream peer, the
    URL and the per-route actions; shared by the HTTP/1-2 and HTTP/3 paths. *)

From S2P Require Import Prelude RustStr Ip GeoIp Waf Bot Captcha Security Edge ProxyConfig Router.

(** ** Data *)

Record MiddlewareAction := mkMiddlewareAction {
  strip_prefix_action : option str;
  request_headers : list (str * str);
  response_headers : list (str * str);
  ma_forward_client_ip : bool;
  ma_geoip : GeoIpPolicy;
  ma_security : SecurityPolicy;
  ma_edge : EdgePolicy;
  file_root : option str;
}.

Definition middleware_action_default : MiddlewareAction :=
  mkMiddlewareAction None [] [] true geoip_default security_default edge_policy_default None.

Record ForwardPlan := mkForwardPlan {
  peer_host : str;
  peer_port : N;
  upstream_url : str;
  plan_use_tls : bool;
  plan_middleware : MiddlewareAction;
}.

(** The errors of [resolve_forward], with the HTTP status or kind they carry. *)
Inductive ForwardError : Type :=
| NoRoute (host path : str)
| NoConsulEndpoint (service : str)
| InvalidPort (address : str).

(** ** Operations *)

Section middlewares.
(** The order in which a header map yields its entries. *)
Variable iter_headers : gmap str str -> list (str * str).

Definition apply_middleware (a : MiddlewareAction) (m : Middleware) : MiddlewareAction :=
  match m with
  | StripPrefix prefix =>
    mkMiddlewareAction (Some prefix) (request_headers a) (response_headers a) (ma_forward_client_ip a)
      (ma_geoip a) (ma_security a) (ma_edge a) (file_root a)
  | RequestHeaders hs =>
    mkMiddlewareAction (strip_prefix_action a) (request_headers a ++ iter_headers hs) (response_headers a)
      (ma_forward_client_ip a) (ma_geoip a) (ma_security a) (ma_edge a) (file_root a)
  | ResponseHeaders hs =>
    mkMiddlewareAction (strip_prefix_action a) (request_headers a) (response_headers a ++ iter_headers hs)
      (ma_forward_client_ip a) (ma_geoip a) (ma_security a) (ma_edge a) (file_root a)
  end.

Definition apply_middlewares (ms : list Middleware) : MiddlewareAction :=
  foldl apply_middleware middleware_action_default ms.

End middlewares.

Definition strip_path_prefix (path_and_query prefix : str) : str :=
  let '(path, query) :=
    match split_once "?" path_and_query with
    | Some (p, q) => (p, Some q)
    | None => (path_and_query, None)
    end in
  let stripped := default path (strip_prefix prefix path) in
  let new_path := if is_empty stripped then bs "/" else stripped in
  match query with
  | Some q => new_path ++ bs "?" ++ q
  | None => new_path
  end.

Definition build_upstream_url (b : Backend) (path_and_query : str) : str :=
  (if backend_use_tls b then bs "https" else bs "http") ++ bs "://" ++ address b ++ path_and_query.

Definition parse_backend_peer (addr : str) (fallback_port : N) : result ForwardError (str * N) :=
  match rsplit_once ":" addr with
  | Some (host, p) =>
    match parse_u16 p with
    | Some p => Ok (host, p)
    | None => Err (InvalidPort addr)
    end
  | None => Ok (addr, fallback_port)
  end.

(** The tables a plan may touch: Consul endpoints and TLS probes. *)
Record PlanState := mkPlanState { ps_consul : ConsulState; ps_probes : gmap str TlsProbe }.

Section resolve.
Variable iter_routes : gmap str (list Route) -> list (str * list Route).
Variable iter_edge : gmap str (gmap str EdgePolicy) -> list (str * gmap str EdgePolicy).
Variable iter_headers : gmap str str -> list (str * str).

(** The actions of the matched route, before the backend is looked at. *)
Definition route_action (t : RouteTable) (host : str) (r : Route) : MiddlewareAction :=
  let a := apply_middlewares iter_headers (middlewares r) in
  mkMiddlewareAction (strip_prefix_action a) (request_headers a) (response_headers a) (forward_client_ip r)
    (route_geoip r) (route_security r) (edge_for iter_routes iter_edge t host (route_path r)) (file_root a).

Definition set_file_root (a : MiddlewareAction) (root : str) : MiddlewareAction :=
  mkMiddlewareAction (strip_prefix_action a) (request_headers a) (response_headers a) (ma_forward_client_ip a)
    (ma_geoip a) (ma_security a) (ma_edge a) (Some root).

Definition resolve_forward (now : N) (io : str -> N -> ProbeIo) (t : RouteTable) (host path_and_query : str)
    (st : PlanState) : result ForwardError ForwardPlan * PlanState :=
  let path := split_first "?" path_and_query in
  match match_route_entry iter_routes t host path with
  | None => (Err (NoRoute host path), st)
  | Some route =>
    let mw := route_action t host route in
    let upstream_path :=
      match strip_prefix_action mw with
      | Some prefix => strip_path_prefix path_and_query prefix
      | None => path_and_query
      end in
    let b := route_backend route in
    match strip_prefix "file:" (address b) with
    | Some root =>
      (Ok (mkForwardPlan "127.0.0.1" 9 (bs "file:" ++ root ++ upstream_path) false (set_file_root mw root)), st)
    | None =>
      match strip_prefix "consul:" (address b) with
      | Some service =>
        let '(ep, cs) := consul_pick service (ps_consul st) in
        let st := mkPlanState cs (ps_probes st) in
        match ep with
        | None => (Err (NoConsulEndpoint service), st)
        | Some (h, p) =>
          let b' := mkBackend (host_port h p) p (backend_use_tls b) in
          (Ok (mkForwardPlan h p (build_upstream_url b' upstream_path) (backend_use_tls b') mw), st)
        end
      | None =>
        match strip_prefix "auto:" (address b) with
        | Some rest =>
          match parse_backend_peer rest (port b) with
          | Err e => (Err e, st)
          | Ok (h, p) =>
            let '(tls, probes) := probe_upstream_tls now (io h p) h p (ps_probes st) in
            let b' := mkBackend (host_port h p) p tls in
            (Ok (mkForwardPlan h p (build_upstream_url b' upstream_path) tls mw),
             mkPlanState (ps_consul st) probes)
          end
        | None =>
          match parse_backend_peer (address b) (port b) with
          | Err e => (Err e, st)
          | Ok (h, p) =>
            (Ok (mkForwardPlan h p (build_upstream_url b upstream_path) (backend_use_tls b) mw), st)
          end
        end
      end
    end
  end.

(** ** Lemmas *)

Lemma parse_backend_peer_host_port h p fallback :
  p <= u16_max -> parse_backend_peer (host_port h p) fallback = Ok (h, p).
Proof.
  intros Hp. unfold parse_backend_peer, host_port.
  change (bs ":" ++ show_N p) with (":"%byte :: show_N p).
  rewrite rsplit_once_app by (by apply show_N_no). unfold parse_u16. by rewrite parse_show_N.
Qed.

(** Stripping keeps the query and never yields an empty path. *)
Lemma strip_path_prefix_spec path q prefix :
  ("?"%byte ∉ path) ->
  let new := match strip_prefix prefix path with
             | Some [] => bs "/" | Some s => s | None => if is_empty path then bs "/" else path end in
  strip_path_prefix path prefix = new /\ strip_path_prefix (path ++ bs "?" ++ q) prefix = new ++ bs "?" ++ q.
Proof.
  intros Hp new. unfold strip_path_prefix.
  rewrite (proj2 (split_once_None _ _) Hp).
  assert (Es : split_once "?" (path ++ bs "?" ++ q) = Some (path, q)) by (by apply split_once_Some).
  rewrite Es. unfold new. destruct (strip_prefix prefix path) as [[|c s]|]; done.
Qed.

(** An address the router builds names no special scheme. *)
Definition plain_address (a : str) : Prop :=
  strip_prefix "file:" a = None /\ strip_prefix "consul:" a = None /\ strip_prefix "auto:" a = None.

(** ** Properties *)

(** A plan enforces the policies of the route it follows.  Planning fails
    with 404 exactly when no route matches; every successful plan, whatever the
    kind of backend, carries the matched route's GeoIP, security, client-address
    and edge policies, serves files exactly when the backend is a directory, and
    for an ordinary backend [host:port] it connects to that peer, with the
    route's TLS flag, and touches neither discovery nor probe state. *)
Theorem resolve_forward_policies now io t host pq st :
  let path := split_first "?" pq in
  match match_route_entry iter_routes t host path with
  | None => resolve_forward now io t host pq st = (Err (NoRoute host path), st)
  | Some r =>
    (forall plan st', resolve_forward now io t host pq st = (Ok plan, st') ->
       let mw := plan_middleware plan in
       ma_geoip mw = route_geoip r /\ ma_security mw = route_security r /\
       ma_forward_client_ip mw = forward_client_ip r /\
       ma_edge mw = edge_for iter_routes iter_edge t host (route_path r) /\
       (is_Some (file_root mw) <-> is_Some (strip_prefix "file:" (address (route_backend r))))) /\
    (forall h p, address (route_backend r) = host_port h p -> p <= u16_max -> plain_address (host_port h p) ->
       exists plan, resolve_forward now io t host pq st = (Ok plan, st) /\
         peer_host plan = h /\ peer_port plan = p /\ plan_use_tls plan = backend_use_tls (route_backend r))
  end.
Proof.
  intros path. unfold resolve_forward. fold path.
  destruct (match_route_entry iter_routes t host path) as [r|]; [|done].
  assert (Hroot : file_root (route_action t host r) = None).
  { unfold route_action. cbn [file_root]. generalize (middlewares r). unfold apply_middlewares.
    assert (Hf : forall ms a, file_root a = None -> file_root (foldl (apply_middleware iter_headers) a ms) = None).
    { induction ms as [|[] ms IH]; intros a Ha; simpl; auto. }
    intros ms. by apply Hf. }
  split.
  - intros plan st'. destruct (strip_prefix "file:" (address (route_backend r))) as [root|].
    { intros [= <- <-]. cbn [plan_middleware]. split_and!; try done. }
    assert (Hno : is_Some (file_root (route_action t host r)) <-> is_Some (@None str)) by (by rewrite Hroot).
    destruct (strip_prefix "consul:" _) as [service|].
    { destruct (consul_pick service (ps_consul st)) as [[[h p]|] cs]; [|done]. intros [= <- <-]. by split_and!. }
    destruct (strip_prefix "auto:" _) as [rest|].
    { destruct (parse_backend_peer rest _) as [[h p]|]; [|done].
      destruct (probe_upstream_tls now (io h p) h p (ps_probes st)) as [tls probes]. intros [= <- <-]. by split_and!. }
    destruct (parse_backend_peer _ _) as [[h p]|]; [|done]. intros [= <- <-]. by split_and!.
  - intros h p Ha Hp (H1 & H2 & H3). rewrite Ha, H1, H2, H3, parse_backend_peer_host_port by done.
    eexists. split; [reflexivity|done].
Qed.

End resolve.

Definition iter_h (m : gmap str str) : list (str * str) := map_to_list m.
Definition no_state : PlanState := mkPlanState (mkConsulState ∅ 0) ∅.

(** Finding: a backend host named like a scheme is misread.  An upstream
    [http://consul:8500] (or a bare [consul:8500]) is stored as the address
    [consul:8500], which planning takes for the Consul service [8500]: the
    request fails with 503 instead of reaching the host [consul].  Hosts named
    [file] and [auto] have the same fate. *)
Theorem consul_host_misrouted url_parse :
  let t b := from_routes {[bs "*" := [plain_route "/" Prefix b]]} in
  let plan b := (resolve_forward iter_r iter_e iter_h 0 (fun _ _ => mkProbeIo true true true None) (t b) "app.io" "/x" no_state).1 in
  parse_upstream url_parse "consul:8500" = Some (mkBackend "consul:8500" 8500 false) /\
  plan (mkBackend "consul:8500" 8500 false) = Err (NoConsulEndpoint "8500") /\
  (exists p, plan (mkBackend "backend:8500" 8500 false) = Ok p /\ peer_host p = bs "backend" /\ peer_port p = 8500) /\
  (exists p, plan (mkBackend "file:8500" 8500 false) = Ok p /\ file_root (plan_middleware p) = Some (bs "8500")).
Proof.
  intros t plan. split_and!.
  - vm_compute. reflexivity.
  - vm_compute. reflexivity.
  - eexists. vm_compute. repeat split.
  - eexists. vm_compute. repeat split.
Qed.
