(* ===== verification/Apply.v ===== *)
(** * From configuration to routing table ([src/src/proxy/apply.rs], [src/src/routes_config.rs])

    Building the route table from the stored configuration and from the legacy
    routes file, applying it to the router, and the migration of the latter to
    the former.  [str::to_lowercase] (Unicode) and [Url::parse] are parameters. *)

From S2P Require Import Prelude RustStr Ip GeoIp Waf Bot Captcha Security Edge ProxyConfig Router Forward.

(** ** Errors *)

Inductive ApplyError : Type :=
| UnknownBackend (host backend : str)
| NoUpstreams (backend : str)
| InvalidUpstream (addr backend : str)
| InvalidRouteUpstream (raw host path : str)
| InvalidRewriteUpstream (raw host path : str).

(** ** Helpers *)

Definition looks_like_upstream_url (value : str) : bool :=
  let lower := to_ascii_lowercase value in
  starts_with "http://" lower || starts_with "https://" lower || starts_with "localhost:" lower
  || starts_with "127.0.0.1:" lower || starts_with "[::1]:" lower.

Definition path_only_rewrite (rewrite : option str) : option str :=
  opt_filter (fun s => negb (looks_like_upstream_url (trim s))) rewrite.

Definition router_path_type (t : CfgPathMatchType) : PathMatchType :=
  match t with
  | CfgExact => Exact
  | CfgPrefix => Prefix
  | CfgImplementationSpecific => ImplementationSpecific
  end.

Definition site_route (path : str) (t : CfgPathMatchType) (rewrite : option str) (target : Backend)
    (fwd : bool) (geo : GeoIpPolicy) (sec : SecurityPolicy) : Route :=
  let mws :=
    match nonblank rewrite with
    | Some rw =>
      if (rw =s "/") && negb (path =s "/") then [StripPrefix (trim_end_matches is_slash path)] else []
    | None => []
    end in
  mkRoute path (router_path_type t) target mws fwd (geo_normalized geo) (security_normalized sec).

(** ** The table *)

Section apply.
Variable to_lowercase : str -> str.
Variable url_parse : str -> option Url.

Definition resolve_route_target (route : PathRewrite) (default_target : Backend) (host : str)
  : result ApplyError Backend :=
  match nonblank (pr_upstream route) with
  | Some raw => ok_or (parse_upstream url_parse raw) (InvalidRouteUpstream raw host (pr_path route))
  | None =>
    match opt_filter looks_like_upstream_url (trim <$> pr_rewrite route) with
    | Some raw => ok_or (parse_upstream url_parse raw) (InvalidRewriteUpstream raw host (pr_path route))
    | None => Ok default_target
    end
  end.

Definition site_key (s : Site) : str := to_lowercase (trim (site_host s)).

(** The backends by name: a later one of the same name replaces an earlier one. *)
Definition backends_by_name (c : Config) : gmap str CfgBackend :=
  foldl (fun m b => <[backend_name b := b]> m) ∅ (cfg_backends c).

Fixpoint build_routes (c : Config) (s : Site) (host : str) (target : Backend) (rs : list PathRewrite)
  : result ApplyError (list Route) :=
  match rs with
  | [] => Ok []
  | r :: rs' =>
    t ← resolve_route_target r target host;
    built ← build_routes c s host target rs';
    mret (site_route (pr_path r) (pr_path_type r) (path_only_rewrite (pr_rewrite r)) t
            (site_forward_client_ip s) (resolve_site_geoip c s) (resolve_site_security c s) :: built)
  end.

(** The body of the first loop of [config_to_route_table] for one site. *)
Definition site_table_routes (c : Config) (s : Site) (host : str) : result ApplyError (list Route) :=
  backend ← ok_or (backends_by_name c !! site_backend s) (UnknownBackend host (site_backend s));
  upstream ← ok_or (head (upstreams backend)) (NoUpstreams (site_backend s));
  target ← ok_or (parse_upstream url_parse (up_addr upstream)) (InvalidUpstream (up_addr upstream) (site_backend s));
  if is_empty (site_routes s) then
    mret [site_route "/" CfgPrefix None target (site_forward_client_ip s)
            (resolve_site_geoip c s) (resolve_site_security c s)]
  else build_routes c s host target (site_routes s).

Definition extend_routes (m : ByHost) (host : str) (rs : list Route) : ByHost :=
  <[host := default [] (m !! host) ++ rs]> m.

Fixpoint sites_by_host (c : Config) (m : ByHost) (sites : list Site) : result ApplyError ByHost :=
  match sites with
  | [] => Ok m
  | s :: rest =>
    let host := site_key s in
    if is_empty host then sites_by_host c m rest
    else
      rs ← site_table_routes c s host;
      sites_by_host c (extend_routes m host rs) rest
  end.

Definition edge_policy_of (r : PathRewrite) : EdgePolicy :=
  mkEdgePolicy (pr_auth r) (pr_rate_limit_rps r) (pr_x4xx_limit_rps r) (pr_cache r).

Definition insert_site_edges (t : RouteTable) (s : Site) : RouteTable :=
  let host := site_key s in
  if is_empty host then t
  else
    let rs := if is_empty (site_routes s) then [path_rewrite_default] else site_routes s in
    foldl (fun t r => insert_edge t host (pr_path r) (edge_policy_of r)) t rs.

Definition config_to_route_table (c : Config) : result ApplyError RouteTable :=
  by_host ← sites_by_host c ∅ (cfg_sites c);
  let t := from_routes by_host in
  let t := foldl insert_site_edges t (cfg_sites c) in
  mret (set_globals t
    (mkEdgeGlobals (cfg_tls_grade c) (cfg_cache_size_mb c) (cfg_cache_ttl_secs c) (cfg_consul c) (cfg_jwt_secret c))).

Definition apply_config (r : Router) (c : Config) : result ApplyError unit * Router :=
  match config_to_route_table c with
  | Ok t => (Ok tt, router_replace_all r t (cfg_http3 c))
  | Err e => (Err e, r)
  end.

(** ** The legacy routes file *)

Record RouteSpec := mkRouteSpec {
  spec_host : option str;
  spec_hosts : list str;
  spec_path : str;
  spec_path_type : str;
  spec_upstream : str;
  spec_middlewares : list Middleware;
}.

Definition spec_match_type (s : str) : PathMatchType :=
  let l := to_ascii_lowercase s in
  if l =s "exact" then Exact
  else if (l =s "implementation_specific") || (l =s "implementationspecific") then ImplementationSpecific
  else Prefix.

Fixpoint build_by_host (m : ByHost) (specs : list RouteSpec) : result str ByHost :=
  match specs with
  | [] => Ok m
  | s :: rest =>
    b ← ok_or (parse_upstream url_parse (spec_upstream s)) (spec_upstream s);
    let hosts := spec_hosts s ++ option_list (spec_host s) in
    let hosts := if is_empty hosts then [bs "*"] else hosts in
    let route := mkRoute (spec_path s) (spec_match_type (spec_path_type s)) b (spec_middlewares s) false
                   geoip_default security_default in
    build_by_host (foldl (fun m h => push_route m (to_ascii_lowercase h) route) m hosts) rest
  end.

Definition build_table (specs : list RouteSpec) : result str RouteTable :=
  by_host ← build_by_host ∅ specs; mret (from_routes by_host).

(** The backend a migrated route refers to: its name and its upstream address. *)
Definition migrated_backend (r : Route) : str * str :=
  let b := route_backend r in
  (bs "backend-" ++ replace_byte ":" (bs "-") (address b),
   bs "http://" ++ address b ++ bs ":" ++ show_N (port b)).

Definition config_path_type (t : PathMatchType) : CfgPathMatchType :=
  match t with
  | Exact => CfgExact
  | Prefix => CfgPrefix
  | ImplementationSpecific => CfgImplementationSpecific
  end.

Definition migrated_site (hr : str * Route) : Site :=
  mkSite hr.1
    [mkPathRewrite (config_path_type (path_type hr.2)) (route_path hr.2) None None None 0 0 None]
    (migrated_backend hr.2).1 None None None None true false None None geoip_default security_default.

(** [migrate_from_routes_yaml] on the loaded routes; the first upstream seen
    under a backend name stays. *)
Definition migrate_from_routes (iter_routes : gmap str (list Route) -> list (str * list Route))
    (iter_backends : gmap str str -> list (str * str)) (t : RouteTable) (tls : list TlsConfig) (o : Http3Options) : Config :=
  let rs := all_routes iter_routes t in
  let backends := foldl (fun m hr =>
    let '(name, up) := migrated_backend hr.2 in
    match m !! name with Some _ => m | None => <[name := up]> m end) (∅ : gmap str str) rs in
  mkConfig (http_addr config_default) (https_addr config_default) (http3_addr config_default)
    (management_addr config_default)
    ((fun na => mkCfgBackend na.1 [mkUpstream na.2 1] RoundRobin None 0) <$> iter_backends backends)
    (migrated_site <$> rs)
    [] [] tls (cfg_security_headers config_default) true None o Medium 0 Edge.default_cache_ttl None None.

End apply.

(** ** Lemmas *)

Lemma resolve_site_geoip_normal c s : geo_normalized (resolve_site_geoip c s) = resolve_site_geoip c s.
Proof. unfold resolve_site_geoip. destruct (_ ≫= _); apply geo_normalized_idemp. Qed.

Lemma resolve_site_security_normal c s : security_normalized (resolve_site_security c s) = resolve_site_security c s.
Proof. unfold resolve_site_security. destruct (_ ≫= _); apply security_normalized_idemp. Qed.

Lemma result_bind_Ok {E A B} (r : result E A) (f : A -> result E B) b :
  (x ← r; f x) = Ok b -> exists a, r = Ok a /\ f a = Ok b.
Proof. destruct r as [a|e]; [|done]. intros Hb. by exists a. Qed.

(** The policies of a site are on each of its routes. *)
Definition carries_policies (c : Config) (s : Site) (r : Route) : Prop :=
  route_geoip r = resolve_site_geoip c s /\ route_security r = resolve_site_security c s /\
  forward_client_ip r = site_forward_client_ip s.

Lemma site_route_policies c s path t rw target :
  carries_policies c s (site_route path t rw target (site_forward_client_ip s)
    (resolve_site_geoip c s) (resolve_site_security c s)).
Proof.
  unfold carries_policies, site_route. cbn [route_geoip route_security forward_client_ip].
  by rewrite resolve_site_geoip_normal, resolve_site_security_normal.
Qed.

Lemma insert_edge_routes t h p pol : routes (insert_edge t h p pol) = routes t.
Proof. done. Qed.

Section apply_lemmas.
Variable to_lowercase : str -> str.
Variable url_parse : str -> option Url.

Lemma build_routes_policies c s host target prs rs :
  build_routes url_parse c s host target prs = Ok rs -> Forall (carries_policies c s) rs.
Proof.
  revert rs. induction prs as [|p prs IH]; intros rs Hb; simpl in Hb; [injection Hb as <-; constructor|].
  apply result_bind_Ok in Hb as (t & _ & Hb). apply result_bind_Ok in Hb as (built & Hbuilt & Hb).
  injection Hb as <-. constructor; [apply site_route_policies|by apply IH].
Qed.

Lemma site_table_routes_policies c s host rs :
  site_table_routes url_parse c s host = Ok rs -> Forall (carries_policies c s) rs.
Proof.
  unfold site_table_routes. intros Hb. apply result_bind_Ok in Hb as (b & _ & Hb).
  apply result_bind_Ok in Hb as (u & _ & Hb). apply result_bind_Ok in Hb as (t & _ & Hb).
  destruct (is_empty (site_routes s)); [|by eapply build_routes_policies].
  injection Hb as <-. constructor; [apply site_route_policies|constructor].
Qed.

Lemma insert_site_edges_routes t sites : routes (foldl (insert_site_edges to_lowercase) t sites) = routes t.
Proof.
  revert t. induction sites as [|s sites IH]; intros t; [done|]. simpl. rewrite IH. unfold insert_site_edges.
  destruct (is_empty _); [done|]. generalize (if is_empty (site_routes s) then [path_rewrite_default] else site_routes s).
  intros l. revert t. induction l as [|r l IHl]; intros t; [done|]. simpl. by rewrite IHl.
Qed.

(** The routes one site contributes to a key. *)
Definition contributes (c : Config) (sites : list Site) (k : str) (r : Route) : Prop :=
  exists s rs, s ∈ sites /\ site_key to_lowercase s = k /\ k <> [] /\
    site_table_routes url_parse c s k = Ok rs /\ r ∈ rs.

Lemma contributes_cons c s sites k r :
  contributes c (s :: sites) k r <->
  (site_key to_lowercase s = k /\ k <> [] /\ exists rs, site_table_routes url_parse c s k = Ok rs /\ r ∈ rs) \/
  contributes c sites k r.
Proof.
  unfold contributes. split.
  - intros (s' & rs & [->|Hs]%elem_of_cons & H1 & H2 & H3 & H4); [left; eauto|right; eauto 10].
  - intros [(H1 & H2 & rs & H3 & H4)|(s' & rs & Hs & H)]; [exists s, rs|exists s', rs]; (split; [|done]); by constructor.
Qed.

Lemma sites_by_host_spec c m sites m' :
  sites_by_host to_lowercase url_parse c m sites = Ok m' ->
  forall k r, r ∈ default [] (m' !! k) <-> r ∈ default [] (m !! k) \/ contributes c sites k r.
Proof.
  revert m. induction sites as [|s sites IH]; intros m Hm k r; simpl in Hm.
  - injection Hm as <-. split; [by left|]. intros [?|(? & ? & Hs & _)]; [done|]. by apply elem_of_nil in Hs.
  - rewrite contributes_cons. destruct (is_empty (site_key to_lowercase s)) eqn:Ee.
    + apply is_empty_nil in Ee. rewrite (IH m Hm). split; [tauto|]. intros [?|[(H1 & H2 & _)|?]]; [tauto| |tauto].
      congruence.
    + apply is_empty_false in Ee. apply result_bind_Ok in Hm as (rs & Hrs & Hm). rewrite (IH _ Hm).
      unfold extend_routes. destruct (decide (site_key to_lowercase s = k)) as [<-|Hne].
      * rewrite lookup_insert_eq. cbn [from_option id]. rewrite elem_of_app. split.
        -- intros [[?|?]|?]; [by left| |by right; right]. right; left. eauto.
        -- intros [?|[(_ & _ & rs' & Hrs' & ?)|?]]; [by left; left| |by right]. left; right. congruence.
      * rewrite lookup_insert_ne by done. split; [tauto|]. intros [?|[(? & _)|?]]; tauto.
Qed.

Lemma sites_by_host_error c m sites e :
  sites_by_host to_lowercase url_parse c m sites = Err e ->
  exists s, s ∈ sites /\ site_key to_lowercase s <> [] /\
    site_table_routes url_parse c s (site_key to_lowercase s) = Err e.
Proof.
  revert m. induction sites as [|s sites IH]; intros m Hm; simpl in Hm; [done|].
  destruct (is_empty (site_key to_lowercase s)) eqn:Ee.
  - destruct (IH m Hm) as (s' & ? & ? & ?). exists s'. split_and!; try done. by right.
  - apply is_empty_false in Ee. destruct (site_table_routes _ _ _ _) as [rs|e'] eqn:Er.
    + destruct (IH _ Hm) as (s' & ? & ? & ?). exists s'. split_and!; try done. by right.
    + injection Hm as <-. exists s. split_and!; try done. by left.
Qed.

Lemma elem_of_sorted_routes by_host k r :
  (exists rs, routes (from_routes by_host) !! k = Some rs /\ r ∈ rs) <-> r ∈ default [] (by_host !! k).
Proof.
  unfold from_routes. cbn [routes]. rewrite lookup_fmap. destruct (by_host !! k) as [rs|]; simpl.
  - split; [intros (? & [= <-] & Hr); by apply elem_of_sort_by in Hr|]. intros Hr. eexists. split; [done|].
    by apply elem_of_sort_by.
  - split; [by intros (? & ? & _)|]. by intros Hr%elem_of_nil.
Qed.

Lemma sites_by_host_ok c m sites m' : sites_by_host to_lowercase url_parse c m sites = Ok m' ->
  forall s, s ∈ sites -> site_key to_lowercase s <> [] ->
  exists rs, site_table_routes url_parse c s (site_key to_lowercase s) = Ok rs.
Proof.
  revert m. induction sites as [|x sites IH]; intros m Hm s Hs Hk; [by apply not_elem_of_nil in Hs|]. simpl in Hm.
  destruct (is_empty (site_key to_lowercase x)) eqn:Ee.
  - apply elem_of_cons in Hs as [->|Hs]; [by destruct (site_key to_lowercase x)|by eapply IH].
  - apply result_bind_Ok in Hm as (rs & Hrs & Hm). apply elem_of_cons in Hs as [->|Hs]; [by exists rs|by eapply IH].
Qed.

Lemma config_sites_ok c t s : config_to_route_table to_lowercase url_parse c = Ok t ->
  s ∈ cfg_sites c -> site_key to_lowercase s <> [] ->
  exists rs, site_table_routes url_parse c s (site_key to_lowercase s) = Ok rs.
Proof.
  unfold config_to_route_table. intros Ht. apply result_bind_Ok in Ht as (m & Em & _). by eapply sites_by_host_ok.
Qed.

Lemma config_routes_spec c t : config_to_route_table to_lowercase url_parse c = Ok t ->
  forall k r, (exists rs, routes t !! k = Some rs /\ r ∈ rs) <-> contributes c (cfg_sites c) k r.
Proof.
  unfold config_to_route_table. intros Ht. apply result_bind_Ok in Ht as (m & Em & [= <-]). intros k r.
  unfold set_globals. cbn [routes]. rewrite insert_site_edges_routes, elem_of_sorted_routes.
  rewrite (sites_by_host_spec c ∅ (cfg_sites c) m Em), lookup_empty. simpl. rewrite elem_of_nil. tauto.
Qed.

(** ** Properties *)

(** C32: The table is exactly what the configuration says: when it can be built,
    the routes stored under a host are those of the sites with that (trimmed,
    lower-case, non-blank) host and no others, and every one of them carries
    the GeoIP, security and client-address policies the configuration resolves
    for its site; when it cannot, the error is that of one of the sites. *)
Theorem config_routes_exact c :
  match config_to_route_table to_lowercase url_parse c with
  | Ok t =>
    (forall k r, (exists rs, routes t !! k = Some rs /\ r ∈ rs) <-> contributes c (cfg_sites c) k r) /\
    (forall s k rs r, s ∈ cfg_sites c -> site_table_routes url_parse c s k = Ok rs -> r ∈ rs -> carries_policies c s r) /\
    globals t = mkEdgeGlobals (cfg_tls_grade c) (cfg_cache_size_mb c) (cfg_cache_ttl_secs c) (cfg_consul c) (cfg_jwt_secret c)
  | Err e =>
    exists s, s ∈ cfg_sites c /\ site_key to_lowercase s <> [] /\
      site_table_routes url_parse c s (site_key to_lowercase s) = Err e
  end.
Proof.
  pose proof (config_routes_spec c) as Hspec. unfold config_to_route_table in *.
  destruct (sites_by_host to_lowercase url_parse c ∅ (cfg_sites c)) as [m|e] eqn:Em.
  - cbn [mbind result_bind mret result_ret] in *. split_and!.
    + by apply Hspec.
    + intros s k rs r _ Hrs Hr. apply site_table_routes_policies in Hrs. rewrite Forall_forall in Hrs. by apply Hrs.
    + done.
  - cbn [mbind result_bind]. by apply sites_by_host_error in Em.
Qed.

End apply_lemmas.

(** ** Findings *)

Definition sample_site (host : str) (rs : list PathRewrite) : Site :=
  mkSite host rs "web" None None None None true true None None geoip_default security_default.
Definition sample_config (sites : list Site) : Config :=
  mkConfig default_http_addr default_https_addr None default_management_addr
    [mkCfgBackend "web" [mkUpstream "10.0.0.1:80" 1] RoundRobin None 0] sites [] [] []
    ∅ true None http3_options_default Medium 0 60 None None.
Definition no_url : str -> option Url := fun _ => None.

(** Finding: edge policies are keyed by path alone.  A site that protects
    [/admin] exactly with a password and leaves the prefix [/admin] open stores
    one policy for both: the later, open one.  The exact route still matches
    [/admin] first, but asks for no password. *)
Theorem edge_policy_overwritten :
  let pw := Basic "root" "secret" in
  let rs := [mkPathRewrite CfgExact "/admin" None None (Some pw) 0 0 None;
             mkPathRewrite CfgPrefix "/admin" None None None 0 0 None] in
  exists t r, config_to_route_table to_ascii_lowercase no_url (sample_config [sample_site "app.io" rs]) = Ok t /\
    match_route_entry iter_r t "app.io" "/admin" = Some r /\ path_type r = Exact /\
    auth (edge_for iter_r iter_e t "app.io" (route_path r)) = None.
Proof. eexists _, _. split; [vm_compute; reflexivity|]. vm_compute. repeat split. Qed.

Definition port_table : RouteTable :=
  match config_to_route_table to_ascii_lowercase no_url (sample_config [sample_site "app.io:8080" []]) with
  | Ok t => t
  | Err _ => route_table_default
  end.

(** Finding: a site whose host is written with a port is never reached.  Its
    routes are stored under [app.io:8080], while lookups strip the port of the
    request's host, so every request for the site gets 404. *)
Theorem site_with_port_unreachable path :
  exists t, config_to_route_table to_ascii_lowercase no_url (sample_config [sample_site "app.io:8080" []]) = Ok t /\
    is_Some (routes t !! bs "app.io:8080") /\
    match_route_entry iter_r t "app.io:8080" path = None /\ match_route_entry iter_r t "app.io" path = None.
Proof.
  exists port_table. split; [vm_compute; reflexivity|]. split; [eexists; vm_compute; reflexivity|].
  assert (H : routes_for_host iter_r port_table "app.io:8080" = None /\ routes_for_host iter_r port_table "app.io" = None)
    by (split; vm_compute; reflexivity).
  unfold match_route_entry. destruct H as [-> ->]. done.
Qed.

(** A routes file with one route to [backend:8080], its table and its migration. *)
Definition legacy_spec : RouteSpec := mkRouteSpec (Some (bs "app.io")) [] "/" "prefix" "backend:8080" [].
Definition legacy_route : Route := plain_route "/" Prefix (mkBackend "backend:8080" 8080 false).
Definition legacy_table : RouteTable := from_routes (push_route ∅ "app.io" legacy_route).
Definition legacy_config : Config := migrate_from_routes iter_r iter_h legacy_table [] http3_options_default.

Lemma double_port_unparsable url_parse :
  url_parse (bs "http://backend:8080:8080") = None ->
  parse_upstream url_parse "http://backend:8080:8080" = None.
Proof.
  intros Hu. unfold parse_upstream.
  replace (trim (trim_end_matches is_semicolon (trim (bs "http://backend:8080:8080"))))
    with (bs "http://backend:8080:8080") by (vm_compute; reflexivity).
  rewrite Hu. vm_compute. reflexivity.
Qed.

(** Finding: migrating the legacy routes file yields a configuration that
    cannot be applied.  The migration appends the port to an address that
    already ends in it, so the upstream becomes [http://backend:8080:8080]; a URL
    parser that rejects it leaves a string no rule can parse, and building the
    table fails with an invalid upstream. *)
Theorem migrated_config_rejected url_parse :
  url_parse (bs "http://backend:8080:8080") = None ->
  build_table url_parse [legacy_spec] = Ok legacy_table /\
  config_to_route_table to_ascii_lowercase url_parse legacy_config =
    Err (InvalidUpstream "http://backend:8080:8080" "backend-backend-8080").
Proof.
  intros Hu. split; [vm_compute; reflexivity|]. apply double_port_unparsable in Hu.
  assert (Hs : cfg_sites legacy_config = [migrated_site (bs "app.io", legacy_route)]) by (vm_compute; reflexivity).
  assert (Hb : backends_by_name legacy_config !! bs "backend-backend-8080" =
    Some (mkCfgBackend "backend-backend-8080" [mkUpstream "http://backend:8080:8080" 1] RoundRobin None 0))
    by (vm_compute; reflexivity).
  assert (Ht : site_table_routes url_parse legacy_config (migrated_site (bs "app.io", legacy_route)) (bs "app.io") =
    Err (InvalidUpstream "http://backend:8080:8080" "backend-backend-8080")).
  { unfold site_table_routes.
    replace (site_backend (migrated_site (bs "app.io", legacy_route))) with (bs "backend-backend-8080")
      by (vm_compute; reflexivity). rewrite Hb.
    cbn [ok_or mbind result_bind head upstreams up_addr]. rewrite Hu. reflexivity. }
  unfold config_to_route_table. rewrite Hs. cbn [sites_by_host].
  replace (site_key to_ascii_lowercase (migrated_site (bs "app.io", legacy_route))) with (bs "app.io")
    by (vm_compute; reflexivity). cbn [is_empty]. rewrite Ht. reflexivity.
Qed.

Lemma migrated_config_rejected_witness :
  config_to_route_table to_ascii_lowercase no_url legacy_config =
    Err (InvalidUpstream "http://backend:8080:8080" "backend-backend-8080").
Proof. exact (proj2 (migrated_config_rejected no_url eq_refl)). Defined.
