(* ===== verification/Http.v ===== *)
(** * HTTP messages: header maps, URIs, requests, responses

    The types of the [http] and [pingora_http] crates that the gateway handles.
    Both crates are third-party code: the header map and the URI text parser are
    classes whose laws state their documented behaviour, and [header_list] /
    [plain_uri] are instances that satisfy them. *)

From S2P Require Import Prelude RustStr Ip.

(** Letters, digits and the hyphen. *)
Definition token_byte (b : byte) : bool :=
  let n := b2n b in
  ((48 <=? n) && (n <=? 57)) || ((65 <=? n) && (n <=? 90)) || ((97 <=? n) && (n <=? 122)) || (n =? 45).

(** ** Header maps

    Names are compared without regard to ASCII case and may occur several times.
    [to_str] is [HeaderValue::to_str], which fails on opaque bytes; [name_ok] and
    [value_ok] say which names and values the crate accepts. *)
Class HeaderMap (H : Type) := {
  h_empty : H;
  h_get_all : H -> str -> list str;
  h_keys : H -> list str;
  h_put : H -> str -> str -> H;
  h_remove : H -> str -> H;
  name_ok : str -> bool;
  value_ok : str -> bool;
  to_str : str -> option str;
  h_get_all_empty : forall n, h_get_all h_empty n = [];
  h_get_all_put : forall h n v m,
    h_get_all (h_put h n v) m = if eq_ignore_ascii_case n m then [v] else h_get_all h m;
  h_get_all_remove : forall h n m,
    h_get_all (h_remove h n) m = if eq_ignore_ascii_case n m then [] else h_get_all h m;
  h_keys_spec : forall h k, k ∈ h_keys h <-> to_ascii_lowercase k = k /\ h_get_all h k <> [];
  name_ok_token : forall n, n <> [] -> forallb token_byte n = true -> name_ok n = true;
  to_str_Some : forall v w, to_str v = Some w -> w = v;
  to_str_graphic : forall v, Forall (fun b => graphic b = true \/ b = " "%byte) v -> to_str v = Some v;
  value_ok_graphic : forall v, Forall (fun b => graphic b = true \/ b = " "%byte) v -> value_ok v = true;
}.

Section headers.
Context `{HeaderMap H}.

(** [headers.get(name).and_then(|v| v.to_str().ok())]. *)
Definition hget (h : H) (name : str) : option str := v ← head (h_get_all h name); to_str v.

Definition contains_key (h : H) (name : str) : bool := negb (is_empty (h_get_all h name)).

(** [insert_header]: replaces every value of the name, or fails. *)
Definition insert_header (name value : str) (h : H) : option H :=
  if name_ok name && value_ok value then Some (h_put h name value) else None.

(** [insert_header(..).ok()]: a refused header is dropped silently. *)
Definition insert_ok (name value : str) (h : H) : H := default h (insert_header name value h).

Definition remove_header (name : str) (h : H) : H := h_remove h name.

Definition insert_all_ok (pairs : list (str * str)) (h : H) : H :=
  foldl (fun h kv => insert_ok kv.1 kv.2 h) h pairs.

(** A chain of [insert_header(..)?]. *)
Fixpoint insert_all (pairs : list (str * str)) (h : H) : option H :=
  match pairs with
  | [] => Some h
  | (n, v) :: rest => h' ← insert_header n v h; insert_all rest h'
  end.

End headers.

(** ** URIs and messages *)

(** [http::Uri]: the path-and-query part is kept as its text. *)
Record Uri := mkUri {
  uri_scheme : option str;
  uri_authority_host : option str;
  uri_pq : option str;
}.

(** [PathAndQuery::as_str], [path] and [query]. *)
Definition pq_as_str (d : str) : str := if is_empty d then bs "/" else d.
Definition pq_path (d : str) : str :=
  let p := split_first "?" d in if is_empty p then bs "/" else p.
Definition pq_query (d : str) : option str := snd <$> split_once "?" d.

Definition uri_path (u : Uri) : str := from_option pq_path [] (uri_pq u).
Definition uri_query (u : Uri) : option str := uri_pq u ≫= pq_query.

(** [uri.path_and_query().map(|pq| pq.as_str()).unwrap_or(uri.path())]. *)
Definition path_and_query (u : Uri) : str := from_option pq_as_str (uri_path u) (uri_pq u).

(** The URI text parser: [str::parse::<PathAndQuery>] and [Uri::from_parts]. *)
Class UriParser := {
  pq_parse : str -> option str;
  from_parts : Uri -> option Uri;
  pq_parse_Some : forall s d, ("#"%byte ∉ s) -> pq_parse s = Some d -> d = s;
  from_parts_Some : forall u v, from_parts u = Some v -> v = u;
}.

Section messages.
Context `{HeaderMap H}.

Record RequestHeader := mkRequestHeader { rq_method : str; rq_uri : Uri; rq_headers : H }.

Record ResponseHeader := mkResponseHeader { rs_status : N; rs_headers : H }.

Definition set_headers (r : RequestHeader) (h : H) : RequestHeader := mkRequestHeader (rq_method r) (rq_uri r) h.
Definition map_headers (f : H -> H) (r : RequestHeader) : RequestHeader := set_headers r (f (rq_headers r)).
Definition set_uri (r : RequestHeader) (u : Uri) : RequestHeader := mkRequestHeader (rq_method r) u (rq_headers r).
Definition set_method (r : RequestHeader) (m : str) : RequestHeader := mkRequestHeader m (rq_uri r) (rq_headers r).
Definition map_rs_headers (f : H -> H) (r : ResponseHeader) : ResponseHeader :=
  mkResponseHeader (rs_status r) (f (rs_headers r)).

Definition header (r : RequestHeader) (name : str) : option str := hget (rq_headers r) name.

End messages.
Arguments RequestHeader H : clear implicits.
Arguments ResponseHeader H : clear implicits.

(** The address of a connection's peer; only [Inet] has an IP. *)
Inductive PeerAddr : Type := Inet (ip : IpAddr) | Unix.

Definition as_inet (a : PeerAddr) : option IpAddr := match a with Inet ip => Some ip | Unix => None end.

(** What a pingora session tells about its downstream connection. *)
Record Session (H : Type) := mkSession {
  s_req : RequestHeader H;
  s_client_addr : option PeerAddr;
  s_digest_peer : option PeerAddr;
  s_ssl_digest : bool;
  s_http2 : bool;
}.
Arguments mkSession {H} _ _ _ _ _.
Arguments s_req {H} _.
Arguments s_client_addr {H} _.
Arguments s_digest_peer {H} _.
Arguments s_ssl_digest {H} _.
Arguments s_http2 {H} _.

(** A response written to the client: header and body. *)
Record Response (H : Type) := mkResponse { resp_head : ResponseHeader H; resp_content : str }.
Arguments mkResponse {H} _ _.
Arguments resp_head {H} _.
Arguments resp_content {H} _.

(** ** Lemmas on header maps *)

Section header_lemmas.
Context `{HeaderMap H}.

Lemma eq_ci_refl n : eq_ignore_ascii_case n n = true.
Proof. unfold eq_ignore_ascii_case. by rewrite bool_decide_true. Qed.

Lemma map_headers_rq (f : H -> H) (r : RequestHeader H) : rq_headers (map_headers f r) = f (rq_headers r).
Proof. done. Qed.

Lemma hget_put h n v m :
  hget (h_put h n v) m = if eq_ignore_ascii_case n m then to_str v else hget h m.
Proof. unfold hget. rewrite h_get_all_put. by destruct (eq_ignore_ascii_case n m). Qed.

Lemma hget_remove h n m :
  hget (remove_header n h) m = if eq_ignore_ascii_case n m then None else hget h m.
Proof. unfold hget, remove_header. rewrite h_get_all_remove. by destruct (eq_ignore_ascii_case n m). Qed.

Lemma get_all_insert_ok h n v m :
  h_get_all (insert_ok n v h) m =
  if eq_ignore_ascii_case n m && name_ok n && value_ok v then [v] else h_get_all h m.
Proof.
  unfold insert_ok, insert_header. destruct (name_ok n), (value_ok v); simpl;
    rewrite ?andb_true_r, ?andb_false_r; simpl; try done.
  rewrite h_get_all_put. by destruct (eq_ignore_ascii_case n m).
Qed.

(** Inserting an ordinary name with a printable value succeeds. *)
Definition printable (v : str) : Prop := Forall (fun b => graphic b = true \/ b = " "%byte) v.

Lemma get_all_insert_token h n v m :
  n <> [] -> forallb token_byte n = true -> printable v ->
  h_get_all (insert_ok n v h) m = if eq_ignore_ascii_case n m then [v] else h_get_all h m.
Proof.
  intros Hn Ht Hv. rewrite get_all_insert_ok, name_ok_token, value_ok_graphic by done. by rewrite !andb_true_r.
Qed.

Lemma contains_key_remove h n m :
  contains_key (remove_header n h) m = negb (eq_ignore_ascii_case n m) && contains_key h m.
Proof. unfold contains_key, remove_header. rewrite h_get_all_remove. by destruct (eq_ignore_ascii_case n m). Qed.

Lemma insert_ok_other h n v m :
  eq_ignore_ascii_case n m = false -> h_get_all (insert_ok n v h) m = h_get_all h m.
Proof. intros E. by rewrite get_all_insert_ok, E. Qed.

Lemma insert_all_ok_other pairs h m :
  Forall (fun kv => eq_ignore_ascii_case kv.1 m = false) pairs ->
  h_get_all (insert_all_ok pairs h) m = h_get_all h m.
Proof.
  unfold insert_all_ok. intros Hf. revert h. induction Hf as [|kv pairs Hk _ IH]; intros h; [done|].
  simpl. rewrite IH. by apply insert_ok_other.
Qed.

End header_lemmas.

(** ** A concrete header map: a list of lower-case names and values *)

Abbreviation header_list := (list (str * str)).

Definition hl_other (n : str) (kv : str * str) : Prop := kv.1 <> to_ascii_lowercase n.
#[export] Instance hl_other_dec n kv : Decision (hl_other n kv).
Proof. unfold hl_other. apply _. Defined.

Definition hl_get_all (h : header_list) (n : str) : list str :=
  snd <$> filter (fun kv => kv.1 = to_ascii_lowercase n) h.
Definition hl_remove (h : header_list) (n : str) : header_list := filter (hl_other n) h.
Definition hl_put (h : header_list) (n v : str) : header_list := hl_remove h n ++ [(to_ascii_lowercase n, v)].
Definition hl_keys (h : header_list) : list str :=
  filter (fun k => to_ascii_lowercase k = k) (h.*1).
Definition visible (b : byte) : bool := bool_decide (b = x09) || ((32 <=? b2n b) && (b2n b <=? 126)).
Definition hl_name_ok (n : str) : bool := negb (is_empty n) && forallb graphic n.
Definition hl_value_ok (v : str) : bool := forallb (fun b => (32 <=? b2n b) && negb (b2n b =? 127) || bool_decide (b = x09)) v.
Definition hl_to_str (v : str) : option str := if forallb visible v then Some v else None.

Lemma hl_get_all_app h1 h2 n : hl_get_all (h1 ++ h2) n = hl_get_all h1 n ++ hl_get_all h2 n.
Proof. unfold hl_get_all. by rewrite filter_app, fmap_app. Qed.

Lemma hl_get_all_remove h n m :
  hl_get_all (hl_remove h n) m = if eq_ignore_ascii_case n m then [] else hl_get_all h m.
Proof.
  unfold hl_get_all, hl_remove, eq_ignore_ascii_case. case_bool_decide as E.
  - rewrite <- E. induction h as [|kv h IH]; [done|]. rewrite filter_cons. case_decide as D; [|done].
    rewrite filter_cons. case_decide; [done|]. done.
  - induction h as [|kv h IH]; [done|]. rewrite !filter_cons. unfold hl_other at 1.
    destruct (decide (kv.1 = to_ascii_lowercase n)) as [Hn|Hn].
    + rewrite decide_False by (intros Hx; by apply Hx).
      rewrite decide_False by congruence. done.
    + rewrite decide_True by done. rewrite filter_cons. case_decide; [|done]. rewrite !fmap_cons. by f_equal.
Qed.

Lemma graphic_space_visible v :
  Forall (fun b => graphic b = true \/ b = " "%byte) v -> forallb visible v = true /\ hl_value_ok v = true.
Proof.
  unfold hl_value_ok. intros Hv. split; apply forallb_forall; intros b Hb; apply list_elem_of_In in Hb;
    rewrite Forall_forall in Hv; destruct (Hv b Hb) as [G| ->]; try done;
    unfold graphic in G; unfold visible; apply andb_true_iff in G as [G1 G2];
    apply N.leb_le in G1; apply N.leb_le in G2.
  - apply orb_true_iff. right. apply andb_true_iff. split; apply N.leb_le; lia.
  - apply orb_true_iff. left. apply andb_true_iff. split; [apply N.leb_le; lia|].
    apply negb_true_iff, N.eqb_neq. lia.
Qed.

Lemma token_byte_graphic b : token_byte b = true -> graphic b = true.
Proof. destruct b; vm_compute; congruence. Qed.

#[export] Program Instance header_list_map : HeaderMap header_list := {
  h_empty := [];
  h_get_all := hl_get_all;
  h_keys := hl_keys;
  h_put := hl_put;
  h_remove := hl_remove;
  name_ok := hl_name_ok;
  value_ok := hl_value_ok;
  to_str := hl_to_str;
}.
Next Obligation. done. Qed.
Next Obligation.
  intros h n v m. unfold hl_put. rewrite hl_get_all_app, hl_get_all_remove.
  unfold hl_get_all at 2. unfold eq_ignore_ascii_case. rewrite filter_cons, filter_nil. simpl.
  case_bool_decide as E; [by rewrite decide_True by done|rewrite decide_False by done]. apply app_nil_r.
Qed.
Next Obligation. apply hl_get_all_remove. Qed.
Next Obligation.
  intros h k. unfold hl_keys, hl_get_all. rewrite list_elem_of_filter. split.
  - intros [Hl Hk]. split; [done|]. apply list_elem_of_fmap in Hk as ([k' v] & -> & Hin). simpl in *.
    intros E. apply fmap_nil_inv in E.
    assert (Hf : (k', v) ∈ filter (fun kv => kv.1 = to_ascii_lowercase k') h) by (by apply list_elem_of_filter).
    rewrite E in Hf. by apply not_elem_of_nil in Hf.
  - intros [Hl Hne]. split; [done|].
    destruct (filter (fun kv => kv.1 = to_ascii_lowercase k) h) as [|kv l] eqn:E; [done|].
    assert (Hf : kv ∈ filter (fun kv => kv.1 = to_ascii_lowercase k) h) by (rewrite E; left).
    apply list_elem_of_filter in Hf as [Hk Hin]. rewrite Hl in Hk. rewrite <- Hk.
    by apply list_elem_of_fmap_2.
Qed.
Next Obligation.
  intros n Hn Ht. unfold hl_name_ok. destruct n as [|b n]; [done|]. cbn [is_empty negb andb].
  rewrite forallb_forall in Ht. apply forallb_forall. intros c Hc. by apply token_byte_graphic, Ht.
Qed.
Next Obligation. intros v w. unfold hl_to_str. destruct (forallb _ _); congruence. Qed.
Next Obligation. intros v Hv. unfold hl_to_str. by rewrite (proj1 (graphic_space_visible v Hv)). Qed.
Next Obligation. intros v Hv. apply (graphic_space_visible v Hv). Qed.

(** A URI parser that accepts text without spaces and fragments. *)
Definition plain_pq_parse (s : str) : option str :=
  if forallb graphic s && negb (contains_byte "#" s) then Some s else None.

Definition plain_from_parts (u : Uri) : option Uri :=
  match uri_scheme u, uri_authority_host u, uri_pq u with
  | Some _, Some _, Some _ => Some u
  | Some _, _, _ => None
  | None, Some _, Some _ => None
  | None, _, _ => Some u
  end.

Lemma plain_pq_parse_Some s d : ("#"%byte ∉ s) -> plain_pq_parse s = Some d -> d = s.
Proof. unfold plain_pq_parse. intros _ E. by destruct (_ && _); simplify_eq. Qed.

Lemma plain_from_parts_Some u v : plain_from_parts u = Some v -> v = u.
Proof.
  unfold plain_from_parts. intros E.
  by destruct (uri_scheme u), (uri_authority_host u), (uri_pq u); simplify_eq.
Qed.

Definition plain_uri : UriParser :=
  Build_UriParser plain_pq_parse plain_from_parts plain_pq_parse_Some plain_from_parts_Some.
