(* ===== verification/Grpc.v ===== *)
(** * gRPC, gRPC-Web, SSE and WebSocket handling (proxy/grpc.rs)

    Classification of streaming traffic from headers and path, and the header
    surgery that goes with it. *)

From S2P Require Import Prelude RustStr Http.

(** An error of the proxy framework: its class, where it arose, its text. *)
Inductive ErrorType : Type :=
| HTTPStatus (code : N) | ConnectionClosed | ReadError | WriteError | H2Error | InternalError | OtherError.
Inductive ErrorSource : Type := SrcUpstream | SrcDownstream | SrcInternal | SrcUnset.

#[export] Instance ErrorType_eq_dec : EqDecision ErrorType.
Proof. solve_decision. Defined.
#[export] Instance ErrorSource_eq_dec : EqDecision ErrorSource.
Proof. solve_decision. Defined.

Record PError := mkPError { etype : ErrorType; esource : ErrorSource; edisplay : str }.

(** ** Classification *)

Definition without_query (path : str) : str := split_first "?" path.

Definition is_grpc_rpc_path (path : str) : bool :=
  let path := without_query path in
  starts_with "/api/" path && (5 <? N.of_nat (length path)) && contains_byte "." path && contains_byte "/" path.

Definition grpc_request_host (host : str) : str := trim (split_first ":" host).

Definition is_machine_api_host (host : str) : bool :=
  eq_ignore_ascii_case (grpc_request_host host) "api.omni.pertisk.com".

Definition is_h2c_only_upstream (host : str) (port : N) : bool := (port =? 8090) || is_machine_api_host host.

(** [path.rsplit('/').next()]. *)
Definition last_segment (path : str) : str := default path (snd <$> rsplit_once "/" path).

Definition grpc_rpc_method (path : str) : option str :=
  opt_filter (fun m => negb (is_empty m)) (Some (last_segment (without_query path))).

Definition STREAMING_METHODS : list str :=
  [bs "Watch"; bs "Subscribe"; bs "Listen"; bs "Stream"; bs "Tail"; bs "Events"].

Definition is_grpc_server_streaming (path : str) : bool :=
  match grpc_rpc_method path with
  | Some m => bool_decide (m ∈ STREAMING_METHODS)
  | None => false
  end.

Definition uses_h2c_upstream (is_grpc is_grpc_web : bool) : bool := is_grpc && negb is_grpc_web.

Section classify.
Context `{HeaderMap H}.

(** [get(name) ... .map(p).unwrap_or(false)]. *)
Definition header_is (p : str -> bool) (h : H) (name : str) : bool := from_option p false (hget h name).

Definition any_token (p : str -> bool) (v : str) : bool := existsb (fun t => p (trim t)) (split_on "," v).

Definition is_grpc_request (h : H) : bool :=
  header_is (fun ct => starts_with "application/grpc" ct && negb (starts_with "application/grpc-web" ct)) h
    "content-type".

Definition is_grpc_web_request (h : H) (method path : str) : bool :=
  if header_is (starts_with "application/grpc-web") h "content-type" then
    (method =s "POST") && is_grpc_rpc_path path
  else if header_is (fun v => trim v =s "1") h "x-grpc-web" then
    (method =s "POST") && is_grpc_rpc_path path
  else if negb (method =s "POST") || negb (is_grpc_rpc_path path) then false
  else existsb (starts_with "grpc-metadata-") (h_keys h).

Definition classify_grpc_request (h : H) (method path host : str) : bool * bool :=
  let on_api_rpc := (method =s "POST") && is_grpc_rpc_path path in
  let is_grpc_web := is_grpc_web_request h method path in
  let is_grpc_web :=
    if on_api_rpc && is_grpc_request h && negb (is_machine_api_host host) then true else is_grpc_web in
  (is_grpc_request h || is_grpc_web, is_grpc_web).

Definition is_connect_request (h : H) : bool :=
  if contains_key h "connect-protocol-version" then true
  else header_is (starts_with "application/connect") h "content-type".

Definition is_sse_request (method path : str) (h : H) : bool :=
  if negb (method =s "GET") then false
  else if header_is (any_token (starts_with "text/event-stream")) h "accept" then true
  else
    let path := without_query path in
    (path =s "/events") || (path =s "/api/events") || ends_with "/events" path.

Definition is_long_lived_api_stream (method path : str) (h : H) : bool :=
  if is_sse_request method path h then true
  else
    let path := without_query path in
    if (method =s "GET") && (path =s "/api/live") then true
    else (method =s "POST") && is_grpc_rpc_path path &&
         (is_grpc_server_streaming path || is_connect_request h).

Definition is_websocket_upgrade (method : str) (h : H) : bool :=
  if negb (method =s "GET") then false
  else if negb (header_is (any_token (fun t => eq_ignore_ascii_case t "websocket")) h "upgrade") then false
  else header_is (any_token (fun t => eq_ignore_ascii_case t "upgrade")) h "connection".

Definition is_grpc_like_request (h : H) (method path : str) : bool :=
  is_grpc_request h || is_grpc_web_request h method path.

Definition is_h3_incompatible_request (h : H) (method path : str) : bool :=
  is_sse_request method path h || is_grpc_like_request h method path ||
  ((method =s "POST") && is_grpc_rpc_path path).

(** [validate_downstream]. *)
Definition validate_downstream (req : RequestHeader H) (http2 is_grpc_web : bool) : result str unit :=
  if negb (rq_method req =s "POST") then Err (bs "gRPC requires POST")
  else if negb is_grpc_web && negb http2 then Err (bs "gRPC requires HTTP/2")
  else Ok tt.

End classify.

(** ** Timeouts, from the environment; [None] is [Duration::MAX] *)

Definition env_u64 (env : str -> option str) (name : str) : option N :=
  v ← env name; parse_u64 (trim v).

Definition timeout_of (secs : N) : option N := if secs =? 0 then None else Some secs.

Definition grpc_upstream_timeout (env : str -> option str) : option N :=
  timeout_of (default 3600 (env_u64 env "PERTISK_GRPC_UPSTREAM_REQUEST_TIMEOUT_SECS")).

Definition grpc_h2_ping_interval (env : str -> option str) : N :=
  default 20 (opt_filter (fun n => 0 <? n) (env_u64 env "PERTISK_GRPC_H2C_KEEPALIVE_SECS")).

(** ** Rewriting requests and responses *)

Section rewrite.
Context `{HM : HeaderMap H} `{UP : UriParser}.

Definition internal_error (msg : str) : PError := mkPError InternalError SrcUnset msg.

Definition rebuild_upstream_path (up : RequestHeader H) (new_path : str) : result PError (RequestHeader H) :=
  let u := rq_uri up in
  let query := from_option (fun q => bs "?" ++ q) [] (uri_query u) in
  match pq_parse (new_path ++ query) with
  | None => Err (internal_error "invalid gRPC upstream path")
  | Some d =>
    match from_parts (mkUri (uri_scheme u) (uri_authority_host u) (Some d)) with
    | None => Err (internal_error "failed to rebuild gRPC upstream uri")
    | Some u' => Ok (set_uri up u')
    end
  end.

Definition rewrite_upstream_grpc_path (up : RequestHeader H) : result PError (RequestHeader H) :=
  let path := uri_path (rq_uri up) in
  match strip_prefix "/api/" path with
  | Some stripped =>
    rebuild_upstream_path up
      (if is_empty stripped then bs "/" else bs "/" ++ trim_start_matches (is_byte "/") stripped)
  | None => if path =s "/api" then rebuild_upstream_path up "/" else Ok up
  end.

Definition hop_by_hop_request : list str :=
  [bs "connection"; bs "upgrade"; bs "transfer-encoding"; bs "keep-alive"; bs "proxy-connection"].
Definition hop_by_hop_response : list str :=
  [bs "transfer-encoding"; bs "connection"; bs "keep-alive"; bs "proxy-connection"].

Definition remove_all (names : list str) (h : H) : H := foldl (fun h n => remove_header n h) h names.

Definition prepare_upstream_request (h : H) (is_grpc_web : bool) : H :=
  let h := remove_all hop_by_hop_request h in
  if negb is_grpc_web && negb (contains_key h "te") then insert_ok "te" "trailers" h else h.

Definition strip_hop_by_hop_response_headers (h : H) : H := remove_all hop_by_hop_response h.

Definition prepare_streaming_response_headers (h : H) : H :=
  let h := strip_hop_by_hop_response_headers h in
  let h := remove_header "content-length" h in
  let h := remove_header "content-encoding" h in
  let h := insert_ok "cache-control" "no-cache, no-transform" h in
  let h := insert_ok "x-accel-buffering" "no" h in
  insert_ok "Alt-Svc" "clear" h.

Definition prepare_upstream_streaming_request (h : H) : H := insert_ok "accept-encoding" "identity" h.

(** The header of [respond_error]: always status 200, the error in the trailers. *)
Definition grpc_error_headers (grpc_status : N) (message : str) (is_grpc_web : bool) : list (str * str) :=
  [(bs "content-type", if is_grpc_web then bs "application/grpc-web+proto" else bs "application/grpc");
   (bs "grpc-status", show_N grpc_status)] ++
  (if is_empty message then [] else [(bs "grpc-message", message)]).

Definition cookie_values (h : H) : list str :=
  filter (fun s => negb (is_empty s)) (trim <$> omap to_str (h_get_all h "cookie")).

Definition merge_cookie_headers (h : H) : H :=
  let values := cookie_values h in
  if (length values <=? 1)%nat then h
  else insert_ok "cookie" (join "; " values) (remove_header "cookie" h).

End rewrite.

(** [is_benign_downstream_disconnect]. *)
Definition is_benign_downstream_disconnect (e : PError) : bool :=
  if negb (bool_decide (esource e = SrcDownstream)) then false
  else
    match etype e with
    | ConnectionClosed | ReadError | WriteError => true
    | H2Error =>
      contains "stream no longer needed" (edisplay e) || contains "Client closed H2" (edisplay e) ||
      contains "CANCEL" (edisplay e) || contains "connection reset" (edisplay e)
    | _ => false
    end.

(** ** Lemmas *)

Section lemmas.
Context `{HM : HeaderMap H} `{UP : UriParser}.
Implicit Types h : H.

Lemma get_all_remove_all names h m :
  h_get_all (remove_all names h) m =
  if existsb (fun n => eq_ignore_ascii_case n m) names then [] else h_get_all h m.
Proof.
  unfold remove_all. revert h. induction names as [|n names IH]; intros h; [done|]. cbn [foldl existsb].
  rewrite IH. unfold remove_header. rewrite h_get_all_remove.
  destruct (existsb _ names), (eq_ignore_ascii_case n m); done.
Qed.

Lemma merge_cookie_other h m :
  eq_ignore_ascii_case "cookie" m = false -> h_get_all (merge_cookie_headers h) m = h_get_all h m.
Proof.
  intros Hm. unfold merge_cookie_headers. cbn zeta. case_if; [done|].
  rewrite insert_ok_other by done. unfold remove_header. by rewrite h_get_all_remove, Hm.
Qed.

Lemma prepare_upstream_other h web m :
  existsb (fun n => eq_ignore_ascii_case n m) (bs "te" :: hop_by_hop_request) = false ->
  h_get_all (prepare_upstream_request h web) m = h_get_all h m.
Proof.
  cbn [existsb]. rewrite orb_false_iff. intros [Hte Hm]. unfold prepare_upstream_request. cbn zeta.
  assert (Hr : h_get_all (remove_all hop_by_hop_request h) m = h_get_all h m) by (by rewrite get_all_remove_all, Hm).
  case_if; [|done]. by rewrite insert_ok_other.
Qed.

Lemma rebuild_headers (up up' : RequestHeader H) p : rebuild_upstream_path up p = Ok up' -> rq_headers up' = rq_headers up.
Proof.
  unfold rebuild_upstream_path. destruct (pq_parse _); [|done]. destruct (from_parts _); [|done]. by intros [= <-].
Qed.

Lemma rewrite_grpc_path_headers (up up' : RequestHeader H) :
  rewrite_upstream_grpc_path up = Ok up' -> rq_headers up' = rq_headers up.
Proof.
  unfold rewrite_upstream_grpc_path. destruct (strip_prefix _ _); [apply rebuild_headers|].
  case_if; [apply rebuild_headers|]. by intros [= <-].
Qed.

(** A token list header: join and split again. *)
Lemma cookie_values_trimmed h : Forall (fun v => trim v = v /\ v <> []) (cookie_values h).
Proof.
  unfold cookie_values. apply Forall_forall. intros v Hv. apply list_elem_of_filter in Hv as [Hne Hv].
  apply list_elem_of_fmap in Hv as (w & -> & _). split; [apply trim_idemp|].
  apply Is_true_true in Hne. by destruct (trim w).
Qed.

(** ** Properties *)

(** What a streamed response carries.  After [prepare_streaming_response_headers]
    no hop-by-hop, length or encoding header is left, caching and buffering are
    switched off and HTTP/3 is not advertised; every other header keeps all its
    values. *)
Theorem streaming_headers h m :
  let h' := prepare_streaming_response_headers h in
  h_get_all h' m =
  if eq_ignore_ascii_case "Alt-Svc" m then [bs "clear"]
  else if eq_ignore_ascii_case "x-accel-buffering" m then [bs "no"]
  else if eq_ignore_ascii_case "cache-control" m then [bs "no-cache, no-transform"]
  else if existsb (fun n => eq_ignore_ascii_case n m)
            (hop_by_hop_response ++ [bs "content-length"; bs "content-encoding"]) then []
  else h_get_all h m.
Proof.
  assert (Hp : forall v : str, forallb (fun b => graphic b || bool_decide (b = " "%byte)) v = true -> printable v).
  { intros v Hv. rewrite forallb_forall in Hv. apply Forall_forall. intros b Hb%list_elem_of_In. apply Hv in Hb.
    apply orb_true_iff in Hb as [Hb|Hb]; [by left|right]. by apply bool_decide_eq_true in Hb. }
  intros h'. unfold h', prepare_streaming_response_headers, strip_hop_by_hop_response_headers. cbn zeta.
  rewrite !get_all_insert_token by (try done; apply Hp; reflexivity).
  destruct (eq_ignore_ascii_case "Alt-Svc" m); [done|].
  destruct (eq_ignore_ascii_case "x-accel-buffering" m); [done|].
  destruct (eq_ignore_ascii_case "cache-control" m); [done|].
  unfold remove_header. rewrite !h_get_all_remove, get_all_remove_all.
  rewrite existsb_app. cbn [existsb].
  destruct (existsb _ hop_by_hop_response), (eq_ignore_ascii_case "content-encoding" m),
    (eq_ignore_ascii_case "content-length" m); done.
Qed.

(** How gRPC traffic is classified.  gRPC-Web is only ever claimed for a POST
    to an RPC path; a native gRPC content type is spoken natively (h2c) to the
    upstream unless the request is an RPC path of an ordinary host or carries a
    gRPC-Web marker; and [validate_downstream] accepts exactly POST requests,
    over HTTP/2 when native. *)
Theorem grpc_classified h method path host (req : RequestHeader H) http2 :
  let '(g, web) := classify_grpc_request h method path host in
  (web = true -> g = true /\ method = bs "POST" /\ is_grpc_rpc_path path = true) /\
  (uses_h2c_upstream g web = true <->
     is_grpc_request h = true /\ is_grpc_web_request h method path = false /\
     (method = bs "POST" -> is_grpc_rpc_path path = true -> is_machine_api_host host = true)) /\
  (validate_downstream req http2 web = Ok tt <->
     rq_method req = bs "POST" /\ (web = false -> http2 = true)).
Proof.
  assert (Hpost : forall b, (method =s "POST") = b -> b = true <-> method = bs "POST").
  { intros b <-. unfold str_eqb. apply bool_decide_eq_true. }
  assert (Hweb : is_grpc_web_request h method path = true -> method = bs "POST" /\ is_grpc_rpc_path path = true).
  { unfold is_grpc_web_request. destruct (method =s "POST") eqn:Em; cbn [andb negb orb].
    - intros Hw. split; [by apply (Hpost true)|]. destruct (is_grpc_rpc_path path); [done|].
      cbn [negb] in Hw. by repeat case_match.
    - intros Hw. by repeat case_match. }
  unfold classify_grpc_request. cbn zeta.
  destruct ((method =s "POST") && is_grpc_rpc_path path && is_grpc_request h && negb (is_machine_api_host host)) eqn:Ef.
  - apply andb_true_iff in Ef as [[[Hm Hrpc]%andb_true_iff Hg]%andb_true_iff Hh%negb_true_iff]. rewrite orb_true_r.
    split_and!.
    + intros _. split_and!; [done|by apply (Hpost true)|done].
    + unfold uses_h2c_upstream. cbn. split; [done|]. intros (_ & _ & Hx).
      rewrite Hx in Hh; [done|by apply (Hpost true)|done].
    + unfold validate_downstream, str_eqb. case_bool_decide; cbn; split; [done|done|done|by intros []].
  - split_and!.
    + intros Hw. rewrite Hw, orb_true_r. by destruct (Hweb Hw).
    + unfold uses_h2c_upstream. destruct (is_grpc_web_request h method path) eqn:Ew.
      * rewrite orb_true_r. cbn. split; [done|]. by intros (_ & ? & _).
      * rewrite orb_false_r, andb_true_r. split.
        -- intros Hg. split_and!; [done|done|]. intros Hm Hrpc. rewrite Hg, Hrpc in Ef.
           rewrite (proj2 (Hpost _ eq_refl) Hm) in Ef. by destruct (is_machine_api_host host).
        -- by intros [? _].
    + unfold validate_downstream, str_eqb. case_bool_decide; cbn.
      * destruct (is_grpc_web_request h method path), http2; cbn; split; try done; intros [_ Hx]; by specialize (Hx eq_refl).
      * split; [done|]. by intros [].
Qed.

End lemmas.
