(* ===== verification/Registry.v ===== *)
(** * OCI registry traffic (proxy/registry.rs)

    Registry and token paths, and the forwarding headers Harbor expects. *)

From S2P Require Import Prelude RustStr Http Grpc.

Definition is_oci_registry_path (path : str) : bool :=
  let path := without_query path in
  (path =s "/v2") || starts_with "/v2/" path || (path =s "/service/token").

Definition is_registry_blob_upload (method path : str) : bool :=
  if negb ((method =s "PUT") || (method =s "PATCH")) then false
  else
    let path := without_query path in
    ((path =s "/v2") || contains "/v2/" path) && contains "/blobs/uploads/" path.

Definition registry_upstream_timeout (env : str -> option str) : option N :=
  timeout_of (default 3600 (env_u64 env "PERTISK_REGISTRY_UPSTREAM_REQUEST_TIMEOUT_SECS")).

Definition forward_proto_port_ssl (downstream_tls : bool) : str * str * str :=
  if downstream_tls then (bs "https", bs "443", bs "on") else (bs "http", bs "80", bs "off").

Definition registry_upstream_header_pairs (host method path : str) (client_ip : option str) (downstream_tls : bool)
    : list (str * str) :=
  let '(proto, port, ssl) := forward_proto_port_ssl downstream_tls in
  [(bs "X-Forwarded-Proto", proto); (bs "X-Forwarded-Host", host); (bs "X-Forwarded-Port", port);
   (bs "X-Forwarded-Ssl", ssl); (bs "Accept-Encoding", bs "identity")] ++
  match opt_filter (fun s => negb (is_empty s)) client_ip with
  | Some ip => [(bs "X-Real-IP", ip); (bs "X-Forwarded-For", ip)]
  | None => []
  end ++
  (if is_registry_blob_upload method path then [(bs "Connection", bs "close")] else []).

Definition forwarded_names : list str :=
  [bs "x-forwarded-host"; bs "x-forwarded-port"; bs "x-forwarded-proto"; bs "x-forwarded-ssl"; bs "x-real-ip";
   bs "x-forwarded-for"].

(** [rewrite_registry_location_value]. *)
Definition rewrite_registry_location_value (loc : str) (downstream_tls : bool) : option str :=
  if negb downstream_tls then None
  else rest ← strip_prefix "http://" loc; Some (bs "https://" ++ rest).

Section registry.
Context `{HeaderMap H}.

Definition normalize_registry_token_request (up : RequestHeader H) : RequestHeader H :=
  if negb (rq_method up =s "POST") then up
  else if negb (uri_path (rq_uri up) =s "/service/token") then up
  else
    let has_query := from_option (fun q => negb (is_empty q)) false (uri_query (rq_uri up)) in
    let content_length := default (bs "0") (header up "content-length") in
    let body_empty := (content_length =s "0") || is_empty content_length in
    if has_query || body_empty then map_headers (remove_header "content-length") (set_method up "GET") else up.

Definition prepare_registry_upstream_request (h : H) (method path host : str) (client_ip : option str)
    (downstream_tls : bool) : H :=
  let h := remove_header "cookie" h in
  let h := remove_all forwarded_names h in
  insert_all_ok (registry_upstream_header_pairs host method path client_ip downstream_tls) h.

Definition rewrite_registry_location_to_https (h : H) : H :=
  match hget h "location" with
  | None => h
  | Some loc =>
    match rewrite_registry_location_value loc true with
    | Some https => insert_ok "location" https (remove_header "location" h)
    | None => h
    end
  end.

Definition prepare_registry_response_headers (h : H) (downstream_tls : bool) : H :=
  let h := remove_header "set-cookie" h in
  let h := insert_ok "Alt-Svc" "clear" h in
  if downstream_tls then rewrite_registry_location_to_https h else h.

End registry.
