(* ===== verification/Respond.v ===== *)
(** * Locally generated responses (deny.rs, health.rs, lib.rs)

    The replies the gateway writes without asking an upstream: each is a status,
    a list of headers and a body.  [build] inserts the headers one by one and
    fails like [insert_header(..)?] when a value is refused. *)

From S2P Require Import Prelude RustStr Http.

(** [app_name]: the build feature [ingress]. *)
Definition app_name (ingress : bool) : str := if ingress then bs "ingress" else bs "proxy".

(** ** Default deny and the installer host *)

Definition deny_enabled (env : str -> option str) : bool :=
  match env "PERTISK_DEFAULT_DENY" with
  | Some raw =>
    let v := to_ascii_lowercase (trim raw) in
    negb ((v =s "0") || (v =s "false") || (v =s "off") || (v =s "no"))
  | None => true
  end.

Definition installer_hosts_from (raw : str) : list str :=
  filter (fun s => negb (is_empty s) && negb (contains_byte "/" s))
    ((fun s => to_ascii_lowercase (trim_end_matches (is_byte ":") (trim_end_matches (is_byte ".") (trim s))))
       <$> split_on "," raw).

Definition is_installer_host (env : str -> option str) (host : str) : bool :=
  let host := to_ascii_lowercase (trim_end_matches (is_byte ".") (trim (split_first ":" host))) in
  if is_empty host then false
  else existsb (fun configured => configured =s host)
         (installer_hosts_from (default [] (env "PERTISK_INSTALLER_HOST"))).

Definition unknown_host_status (tls : bool) : N := if tls then 421 else 404.

(** ** Probe paths *)

Definition is_health_path (path : str) : bool :=
  bool_decide (path ∈ [bs "/api/health"; bs "/health"; bs "/healthz"; bs "/readyz"; bs "/live"; bs "/ready"]).
Definition is_json_health_path (path : str) : bool :=
  bool_decide (path ∈ [bs "/api/health"; bs "/health"; bs "/live"; bs "/ready"]).

(** [{"status":"ok"}]. *)
Definition API_HEALTH_BODY : str :=
  [x7b; x22; x73; x74; x61; x74; x75; x73; x22; x3a; x22; x6f; x6b; x22; x7d].
Definition health_body (path : str) : str := if is_json_health_path path then API_HEALTH_BODY else bs "ok".
Definition health_content_type (path : str) : str :=
  if is_json_health_path path then bs "application/json" else bs "text/plain".

Section respond.
Context `{HeaderMap H}.
(** Whether the build is the ingress flavour. *)
Variable ingress : bool.

Definition nat_str (n : nat) : str := show_N (N.of_nat n).

(** [ResponseHeader::build] and a chain of [insert_header(..)?], then the body. *)
Definition build (status : N) (headers : list (str * str)) (body : str) : option (Response H) :=
  h ← insert_all headers h_empty; Some (mkResponse (mkResponseHeader status h) body).

Definition common (server : str) : list (str * str) :=
  [(bs "Server", server); (bs "X-App-Name", app_name ingress)].

Definition sized (content_type body : str) : list (str * str) :=
  [(bs "Content-Type", content_type); (bs "Content-Length", nat_str (length body))].

Definition installer_response (script server : str) : option (Response H) :=
  build 200 (sized "text/plain; charset=utf-8" script ++ [(bs "Cache-Control", bs "no-store")] ++ common server) script.

Definition deny_response (tls : bool) (server : str) : option (Response H) :=
  build (unknown_host_status tls) (sized "text/plain" "not found" ++ common server) "not found".

Definition forbidden_response (server reason : str) : option (Response H) :=
  build 403 (sized "text/plain" "forbidden" ++ common server ++ [(bs "X-Pertisk-Block", reason)]) "forbidden".

Definition html_response (server : str) (status : N) (content_type body : str) (extra : list (str * str))
    : option (Response H) :=
  build status (sized content_type body ++ common server ++ extra) body.

Definition redirect_response (server location : str) (set_cookie : option str) : option (Response H) :=
  build 302
    ([(bs "Location", location); (bs "Content-Length", bs "0")] ++ common server ++
     from_option (fun c => [(bs "Set-Cookie", c)]) [] set_cookie) [].

(** [try_respond_health]: [None] when the request is not a probe. *)
Definition health_response (method path server : str) : option (option (Response H)) :=
  if negb (is_health_path path) then None
  else if method =s "GET" then
    Some (build 200 (sized (health_content_type path) (health_body path) ++ common server) (health_body path))
  else if method =s "HEAD" then
    Some (build 200 (sized (health_content_type path) (health_body path) ++ common server) [])
  else None.

End respond.
