(* ===== verification/Telemetry.v ===== *)
(** * The request log and the counters (log.rs, metrics.rs)

    The UI log is a bounded buffer filtered by severity; the counters are 64-bit
    atomics that wrap. *)

From S2P Require Import Prelude RustStr.

(** ** The log *)

Inductive LogLevel : Type := Debug | Info | Warn | Error.
Inductive LogEntryType : Type :=
| LRequest | LResponse | LHealthCheck | LConfigReload | LTracing | LError.

#[export] Instance LogLevel_eq_dec : EqDecision LogLevel.
Proof. solve_decision. Defined.
#[export] Instance LogEntryType_eq_dec : EqDecision LogEntryType.
Proof. solve_decision. Defined.

Record ProxyLogEntry := mkProxyLogEntry {
  le_timestamp : N;
  le_level : LogLevel;
  le_host : option str;
  le_path : option str;
  le_upstream : option str;
  le_status : option N;
  le_duration_ms : option N;
  le_message : str;
  le_type : LogEntryType;
  le_protocol : option str;
  le_encoding : option str;
  le_method : option str;
}.

Definition level_num (l : LogLevel) : N := match l with Debug => 0 | Info => 1 | Warn => 2 | Error => 3 end.

(** [ui_log_enabled] under the process-wide minimum [min]. *)
Definition ui_log_enabled (min level : LogLevel) : bool := level_num min <=? level_num level.

Definition log_response (now : N) (host path upstream : str) (status duration_ms : N)
    (protocol encoding method : option str) : ProxyLogEntry :=
  mkProxyLogEntry now
    (if 500 <=? status then Error else if 400 <=? status then Warn else Info)
    (Some host) (Some path) (Some upstream) (Some status) (Some duration_ms) [] LResponse protocol encoding method.

Definition log_health_check (now : N) (upstream : str) (ok : bool) : ProxyLogEntry :=
  mkProxyLogEntry now (if ok then Info else Warn) None None (Some upstream) None None
    (if ok then bs "healthy" else bs "unhealthy") LHealthCheck None None None.

Definition log_error (now : N) (message : str) : ProxyLogEntry :=
  mkProxyLogEntry now Error None None None None None message LError None None None.

Definition log_config_reload (now : N) (message : str) : ProxyLogEntry :=
  mkProxyLogEntry now Info None None None None None message LConfigReload None None None.

Definition log_tracing_event (now : N) (level : LogLevel) (source message : str) : ProxyLogEntry :=
  mkProxyLogEntry now level None None (Some source) None None message LTracing None None None.

Definition log_error_with_context (now : N) (host path upstream message : str) : ProxyLogEntry :=
  mkProxyLogEntry now Error (Some host) (Some path) (Some upstream) None None message LError None None None.

Definition is_repeatable_system_entry (e : ProxyLogEntry) : bool :=
  match le_type e with LHealthCheck | LConfigReload | LTracing => true | _ => false end.

Definition is_system (e : ProxyLogEntry) : bool :=
  is_repeatable_system_entry e || (bool_decide (le_type e = LError) && negb (is_some (le_host e))).

Definition repeatable_signature (e : ProxyLogEntry) : option (LogEntryType * str * str) :=
  if negb (is_repeatable_system_entry e) then None
  else Some (le_type e, default [] (le_upstream e), le_message e).

Definition with_timestamp (e : ProxyLogEntry) (ts : N) : ProxyLogEntry :=
  mkProxyLogEntry ts (le_level e) (le_host e) (le_path e) (le_upstream e) (le_status e) (le_duration_ms e)
    (le_message e) (le_type e) (le_protocol e) (le_encoding e) (le_method e).

Definition collapses (lst e : ProxyLogEntry) : bool :=
  match repeatable_signature e with
  | Some s => bool_decide (repeatable_signature lst = Some s)
  | None => false
  end.

(** One iteration of [dedupe_consecutive_system_logs]; [out] is kept reversed. *)
Definition dedupe_step (out : list ProxyLogEntry) (e : ProxyLogEntry) : list ProxyLogEntry :=
  match out with
  | lst :: rest => if collapses lst e then with_timestamp lst (le_timestamp e) :: rest else e :: out
  | [] => [e]
  end.

Definition dedupe_consecutive_system_logs (es : list ProxyLogEntry) : list ProxyLogEntry :=
  reverse (foldl dedupe_step [] es).

Record ProxyLog := mkProxyLog { log_entries : list ProxyLogEntry; max_entries : nat }.

Definition log_new (max : nat) : ProxyLog := mkProxyLog [] max.

Definition push_sync (min : LogLevel) (e : ProxyLogEntry) (l : ProxyLog) : ProxyLog :=
  if negb (ui_log_enabled min (le_level e)) then l
  else
    let es := log_entries l ++ [e] in
    mkProxyLog (drop (length es - max_entries l) es) (max_entries l).

Definition recent (limit : nat) (l : ProxyLog) : list ProxyLogEntry :=
  drop (length (log_entries l) - limit) (log_entries l).

(** ** The counters *)

(** The [AtomicU64] fields of [ProxyMetrics]. *)
Inductive Counter : Type :=
| http_requests_total | https_requests_total | h3_requests_total | h2_requests_total | upstream_errors_total
| geoip_blocked_total | waf_blocked_total | waf_logged_total | bot_challenged_total | bot_blocked_total
| captcha_passed_total | captcha_failed_total | grpc_requests_total | active_connections | bytes_sent_total
| bytes_received_total.

#[export] Instance Counter_eq_dec : EqDecision Counter.
Proof. solve_decision. Defined.

Record ProxyMetrics := mkProxyMetrics {
  counters : Counter -> N;
  site_protocol_requests : gmap str (N * N);
}.

Definition metrics_new : ProxyMetrics := mkProxyMetrics (fun _ => 0) ∅.

Definition u64_size : N := 2 ^ 64.

Definition fetch_add (c : Counter) (k : N) (m : ProxyMetrics) : ProxyMetrics :=
  mkProxyMetrics (fun d => if decide (d = c) then (counters m d + k) mod u64_size else counters m d)
    (site_protocol_requests m).

(** [inc_*]. *)
Definition inc (c : Counter) : ProxyMetrics -> ProxyMetrics := fetch_add c 1.

(** [dec_active_connections]: [fetch_sub] wraps below zero. *)
Definition dec_active_connections : ProxyMetrics -> ProxyMetrics := fetch_add active_connections (u64_size - 1).

(** [add_bytes_sent] and [add_bytes_received]. *)
Definition add_bytes (c : Counter) (bytes : N) (m : ProxyMetrics) : ProxyMetrics :=
  if 0 <? bytes then fetch_add c bytes m else m.

Inductive HttpVersion : Type := HTTP_11 | HTTP_2 | HTTP_3.

Definition inc_site_protocol_requests (to_lowercase : str -> str) (host : str) (v : HttpVersion) (m : ProxyMetrics)
    : ProxyMetrics :=
  let host := to_lowercase (trim host) in
  if is_empty host then m
  else
    let '(h2, h3) := default (0, 0) (site_protocol_requests m !! host) in
    mkProxyMetrics (counters m)
      (<[host := match v with
                 | HTTP_2 => ((h2 + 1) mod u64_size, h3)
                 | HTTP_3 => (h2, (h3 + 1) mod u64_size)
                 | HTTP_11 => (h2, h3)
                 end]> (site_protocol_requests m)).

(** ** Lemmas *)

(** The last [n] elements. *)
Definition lastn {A} (n : nat) (l : list A) : list A := drop (length l - n) l.

Lemma lastn_snoc {A} n (l : list A) x : lastn n (lastn n l ++ [x]) = lastn n (l ++ [x]).
Proof.
  unfold lastn. rewrite !length_app, length_drop. simpl.
  destruct (decide (length l <= n)%nat) as [Hl|Hl].
  - replace (length l - n)%nat with 0%nat by lia. by rewrite drop_0, Nat.sub_0_r.
  - destruct n as [|n].
    + rewrite (drop_ge (drop _ l ++ _)), (drop_ge (l ++ _)); [done| |];
        rewrite ?length_app, ?length_drop; simpl; lia.
    + rewrite !drop_app_le by (rewrite ?length_drop; lia). rewrite drop_drop. f_equal. f_equal. lia.
Qed.

Lemma lastn_length {A} n (l : list A) : length (lastn n l) = (length l `min` n)%nat.
Proof. unfold lastn. rewrite length_drop. lia. Qed.

Lemma push_sync_enabled min e max es :
  log_entries (push_sync min e (mkProxyLog (lastn max es) max)) =
  if ui_log_enabled min (le_level e) then lastn max (es ++ [e]) else lastn max es.
Proof.
  unfold push_sync. destruct (ui_log_enabled min (le_level e)); simpl; [|done]. apply lastn_snoc.
Qed.

Lemma counters_fetch_add c k m d :
  counters (fetch_add c k m) d = if decide (d = c) then (counters m d + k) mod u64_size else counters m d.
Proof. done. Qed.

(** Opening and closing a connection leaves the gauge as it was. *)
Lemma inc_dec_active m :
  counters m active_connections < u64_size ->
  counters (dec_active_connections (inc active_connections m)) active_connections = counters m active_connections.
Proof.
  intros Hlt. unfold dec_active_connections, inc. rewrite !counters_fetch_add. rewrite !decide_True by done.
  rewrite N.Div0.add_mod_idemp_l by done.
  replace (counters m active_connections + 1 + (u64_size - 1)) with (counters m active_connections + 1 * u64_size)
    by (unfold u64_size; lia).
  rewrite N.Div0.mod_add. by apply N.mod_small.
Qed.

(** ** Properties *)

(** The UI log is a sliding window.  After any sequence of pushes onto a new
    log, under any severity threshold for each push, the buffer holds exactly
    the last [max] entries whose severity passed the threshold in force when they
    were pushed, in order; so it never outgrows its bound, and [recent limit]
    is the last [min limit max] of them. *)
Theorem log_window (max limit : nat) (pushes : list (LogLevel * ProxyLogEntry)) :
  let l := foldl (fun l me => push_sync me.1 me.2 l) (log_new max) pushes in
  let kept := snd <$> filter (fun me => ui_log_enabled me.1 (le_level me.2) = true) pushes in
  log_entries l = lastn max kept /\ (length (log_entries l) <= max)%nat /\
  recent limit l = lastn (limit `min` max) kept.
Proof.
  intros l kept.
  assert (Hl : l = mkProxyLog (lastn max kept) max).
  { subst l kept. induction pushes as [|[m e] pushes IH] using rev_ind.
    - by destruct max.
    - rewrite foldl_app, filter_app, fmap_app. simpl. rewrite IH. rewrite filter_cons, filter_nil. simpl.
      unfold push_sync. simpl. destruct (ui_log_enabled m (le_level e)) eqn:E; simpl.
      + f_equal. apply lastn_snoc.
      + by rewrite app_nil_r. }
  rewrite Hl. simpl. split_and!; [done| |].
  - rewrite lastn_length. lia.
  - unfold recent. simpl. unfold lastn. rewrite length_drop, drop_drop. f_equal. lia.
Qed.
