(* ===== verification/Logging.v ===== *)
(** * The set-up of logging (logging.rs)

    The level and the filter that the environment asks for, and the layer that copies
    events of the process into the log of the management interface ([Telemetry]).  The
    subscriber itself is the [tracing] library: an event is its metadata and its fields
    with the texts they are printed as. *)

From S2P Require Import Prelude RustStr Telemetry.

Inductive Level : Type := TRACE | DEBUG | INFO | WARN | ERROR.

(** A field that is recorded as a string, or through its debug form. *)
Inductive FieldValue : Type := FStr (value debug : str) | FDebug (debug : str).

Record LogEvent := mkLogEvent { ev_target : str; ev_level : Level; ev_name : str; ev_fields : list (str * FieldValue) }.

(** ** Levels and filters *)

Definition parse_log_level (raw : str) : Level :=
  let s := to_ascii_lowercase (trim raw) in
  if s =s "trace" then TRACE
  else if s =s "debug" then DEBUG
  else if s =s "info" then INFO
  else if (s =s "warn") || (s =s "warning") then WARN
  else if s =s "error" then ERROR
  else INFO.

(** A variable that is set to blanks counts as unset. *)
Definition log_level_var (env : str -> option str) : option str :=
  opt_filter (fun s => negb (is_empty (trim s))) (env "PERTISK_LOG_LEVEL").

Definition parse_log_level_from_env (env : str -> option str) : Level := from_option parse_log_level INFO (log_level_var env).

Definition level_to_filter_str (l : Level) : str :=
  match l with TRACE => bs "trace" | DEBUG => bs "debug" | INFO => bs "info" | WARN => bs "warn" | ERROR => bs "error" end.

Definition tracing_level_to_log_level (l : Level) : LogLevel :=
  match l with ERROR => Error | WARN => Warn | INFO => Info | DEBUG | TRACE => Debug end.

Definition log_env_bool (env : str -> option str) (key : str) (dflt : bool) : bool :=
  match env key with
  | Some v => let v := to_ascii_lowercase (trim v) in (v =s "1") || (v =s "true") || (v =s "yes")
  | None => dflt
  end.

(** The listeners of Pingora are silenced, its proxy kept to warnings. *)
Definition build_filter_spec (env : str -> option str) (l : Level) : str :=
  let base := level_to_filter_str l in
  if log_env_bool env "PERTISK_LOG_TLS_HANDSHAKE" false then base
  else
    match l with
    | TRACE | DEBUG => base
    | _ => base ++ bs ",pingora_core::services::listening=off,pingora_core::apps=off,pingora_proxy=warn"
    end.

(** The text of the filter that is installed; [accepts] is [EnvFilter::try_new], and
    [default_env] the filter of the library's own variable. *)
Definition env_filter (env : str -> option str) (accepts : str -> bool) (default_env : option str) (l : Level) : str :=
  if is_some (log_level_var env) then
    let spec := build_filter_spec env l in if accepts spec then spec else build_filter_spec env INFO
  else default (build_filter_spec env l) default_env.

(** ** Events in the log of the console *)

Record EventVisitor := mkVisitor { vi_message : str; vi_fields : list (str * str) }.

Definition is_quote (c : byte) : bool := is_byte x22 c.
Definition trim_debug_quotes (value : str) : str := trim_matches is_quote value.

Definition record (v : EventVisitor) (f : str * FieldValue) : EventVisitor :=
  let '(name, value) := f in
  if name =s "message" then
    mkVisitor (match value with FStr s _ => s | FDebug rendered => trim_debug_quotes rendered end) (vi_fields v)
  else mkVisitor (vi_message v) (vi_fields v ++ [(name, match value with FStr _ rendered => rendered | FDebug rendered => rendered end)]).

Definition visit (e : LogEvent) : EventVisitor := foldl record (mkVisitor [] []) (ev_fields e).

Definition should_skip_log_field (key : str) : bool :=
  (key =s "log.target") || (key =s "log.module_path") || (key =s "log.file") || (key =s "log.line") || (key =s "log.module").

Definition format_event_message (e : LogEvent) (v : EventVisitor) : str :=
  let first :=
    if negb (is_empty (vi_message v)) && negb (vi_message v =s "log") then [vi_message v]
    else if negb (is_empty (ev_name e)) && negb (ev_name e =s "log") then [ev_name e]
    else [] in
  let shown := filter (fun f => should_skip_log_field f.1 = false) (vi_fields v) in
  let parts := first ++ ((fun f => f.1 ++ bs "=" ++ f.2) <$> shown) in
  if is_empty parts then ev_target e else join " " parts.

Definition short_target (target : str) : str :=
  default target (or_else (strip_prefix "pertisk_proxy::" target) (strip_prefix "pertisk_proxy" target)).

Definition included (e : LogEvent) : bool :=
  starts_with "pertisk_proxy" (ev_target e)
  || (starts_with "pingora" (ev_target e) && match ev_level e with WARN | ERROR => true | _ => false end).

Definition ui_level (l : Level) : option LogLevel :=
  match l with ERROR => Some Error | WARN => Some Warn | INFO => Some Info | DEBUG => Some Debug | TRACE => None end.

(** [UiLogLayer::on_event], under the least level [min] that the log keeps. *)
Definition on_event (min : LogLevel) (now : N) (e : LogEvent) (log : ProxyLog) : ProxyLog :=
  if negb (included e) then log
  else
    match ui_level (ev_level e) with
    | None => log
    | Some level => push_sync min (log_tracing_event now level (short_target (ev_target e)) (format_event_message e (visit e))) log
    end.

(** [init]: the least level of the log of the console. *)
Definition init_ui_level (env : str -> option str) : LogLevel := tracing_level_to_log_level (parse_log_level_from_env env).

(** ** What the console sees *)

Definition severity (l : Level) : N := match l with TRACE => 0 | DEBUG => 1 | INFO => 2 | WARN => 3 | ERROR => 4 end.

(** The names of the levels read back, in any case and with blanks around. *)
Lemma parse_level_str l : parse_log_level (level_to_filter_str l) = l.
Proof. by destruct l; vm_compute. Qed.

(** The log of the console gets exactly the events that the configured level asks for:
    an event of the proxy, or a warning or error of Pingora, that is at least as severe
    as the level of the environment and no trace; of each it gets the module, the level
    and the message, appended at the end. *)
Theorem console_log_iff env now e es max : (length es < max)%nat ->
  let entry := log_tracing_event now (tracing_level_to_log_level (ev_level e)) (short_target (ev_target e)) (format_event_message e (visit e)) in
  on_event (init_ui_level env) now e (mkProxyLog es max) =
  if included e && (severity (parse_log_level_from_env env) <=? severity (ev_level e)) && negb (severity (ev_level e) =? 0)
  then mkProxyLog (es ++ [entry]) max else mkProxyLog es max.
Proof.
  intros Hlen entry. unfold on_event. destruct (included e); cbn [negb andb]; [|done].
  assert (Hpush : forall x, mkProxyLog (drop (length (es ++ [x]) - max) (es ++ [x])) max = mkProxyLog (es ++ [x]) max).
  { intros x. rewrite length_app. cbn. by replace (length es + 1 - max)%nat with 0%nat by lia. }
  unfold entry, init_ui_level. generalize (format_event_message e (visit e)). intros msg.
  destruct (ev_level e), (parse_log_level_from_env env); cbn [ui_level]; try done; unfold push_sync; cbn [le_level log_tracing_event log_entries max_entries];
    unfold ui_log_enabled; cbn -[drop length]; try done; apply Hpush.
Qed.

Lemma console_log_iff_witness :
  log_entries (on_event Warn 0 (mkLogEvent "pertisk_proxy::tls" ERROR "event" [(bs "message", FStr "no certificate" []); (bs "host", FDebug "a.io")])
    (log_new 10)) = [log_tracing_event 0 Error "tls" "no certificate host=a.io"].
Proof.
  pose proof (console_log_iff (fun k => if k =s "PERTISK_LOG_LEVEL" then Some (bs " Warning") else None) 0
    (mkLogEvent "pertisk_proxy::tls" ERROR "event" [(bs "message", FStr "no certificate" []); (bs "host", FDebug "a.io")]) [] 10) as Hc.
  cbv zeta in Hc. change (init_ui_level _) with Warn in Hc. unfold log_new. rewrite Hc by (cbn; lia). vm_compute. reflexivity.
Defined.

(** At level [error] the filter still asks for the warnings of Pingora's proxy. *)
Theorem error_filter_admits_warnings env : log_env_bool env "PERTISK_LOG_TLS_HANDSHAKE" false = false ->
  ends_with ",pingora_proxy=warn" (build_filter_spec env ERROR) = true.
Proof. intros Hh. unfold build_filter_spec. rewrite Hh. by vm_compute. Qed.
