(* ===== verification/CertStore.v ===== *)
(** * The certificate store (tls/store.rs, tls/sni.rs, tls/resolver.rs, tls/acme.rs)

    Host names to certificates, looked up by SNI, and the store of HTTP-01
    challenge tokens.  Reading and parsing PEM files is a parameter. *)

From S2P Require Import Prelude RustStr EdgeAuth ProxyConfig Router.

Record CertPaths := mkCertPaths { cert_path : str; key_path : str }.

Inductive StoredCert : Type :=
| CertFile (paths : CertPaths)
| CertPem (cert key : str).

Record CertStoreInner := mkCertStoreInner {
  by_host : gmap str StoredCert;
  default_stored : option StoredCert;
  expected : gset str;
}.

Definition store_new : CertStoreInner := mkCertStoreInner ∅ None ∅.

Inductive StoreError : Type := InvalidPair (cert key : str) | BadNames (cert : str) | InvalidPem | WriteFailed.

(** The file system and the PEM parser: whether a pair of files (or PEM texts)
    is a certificate with its key, and whether the leaf's names can be read. *)
Record CertIo := mkCertIo {
  pair_ok : str -> str -> bool;
  names_readable : str -> bool;
  pem_pair_ok : str -> str -> bool;
  pem_names_readable : str -> bool;
  write_ok : str -> bool;
}.

Definition host_count (st : CertStoreInner) : nat := size (by_host st).
Definition store_is_empty (st : CertStoreInner) : bool := bool_decide (by_host st = ∅).

Definition set_global_fallback (io : CertIo) (cert key : str) (st : CertStoreInner)
    : result StoreError unit * CertStoreInner :=
  if negb (pair_ok io cert key) then (Err (InvalidPair cert key), st)
  else
    (Ok tt,
     match default_stored st with
     | None => mkCertStoreInner (by_host st) (Some (CertFile (mkCertPaths cert key))) (expected st)
     | Some _ => st
     end).

(** The loop of [reload_from_configs] over its two local variables. *)
Fixpoint load_entries (io : CertIo) (acc : gmap str StoredCert * option StoredCert) (configs : list TlsConfig)
    : result StoreError (gmap str StoredCert * option StoredCert) :=
  match configs with
  | [] => Ok acc
  | entry :: rest =>
    if is_empty (tls_hosts entry) then load_entries io acc rest
    else
      match tls_source entry with
      | File cert key =>
        if negb (pair_ok io cert key) then Err (InvalidPair cert key)
        else if negb (names_readable io cert) then Err (BadNames cert)
        else
          let c := CertFile (mkCertPaths cert key) in
          load_entries io
            (foldl (fun m host => <[normalize_host host := c]> m) acc.1 (tls_hosts entry),
             match acc.2 with None => Some c | Some d => Some d end) rest
      | Acme _ _ _ _ _ | Kubernetes => load_entries io acc rest
      end
  end.

Definition reload_from_configs (io : CertIo) (configs : list TlsConfig) (st : CertStoreInner)
    : result StoreError unit * CertStoreInner :=
  match load_entries io (∅, None) configs with
  | Err e => (Err e, st)
  | Ok (m, d) =>
    (Ok tt, mkCertStoreInner m (match d with Some c => Some c | None => default_stored st end) (expected st))
  end.

Definition set_expected_hosts (hosts : list str) (st : CertStoreInner) : CertStoreInner :=
  mkCertStoreInner (by_host st) (default_stored st)
    (list_to_set (filter (fun h => negb (is_empty h)) (normalize_host <$> hosts))).

Definition set_expected_from_config (c : Config) (st : CertStoreInner) : CertStoreInner :=
  set_expected_hosts ((site_host <$> cfg_sites c) ++ concat (tls_hosts <$> cfg_tls c)) st.

Definition expects_host (st : CertStoreInner) (host : str) : bool :=
  let host := normalize_host host in
  if is_empty host then false
  else if bool_decide (host ∈ expected st) then true
  else existsb (fun e => wildcard_covers_host e host) (elements (expected st)).

(** One iteration of [insert_stored_for_hosts]. *)
Definition insert_host (c : StoredCert) (m : gmap str StoredCert) (host : str) : gmap str StoredCert :=
  let host := trim host in if is_empty host then m else <[normalize_host host := c]> m.

Definition insert_stored_for_hosts (hosts : list str) (cert : StoredCert) (st : CertStoreInner) : CertStoreInner :=
  mkCertStoreInner
    (foldl (insert_host cert) (by_host st) hosts)
    (match default_stored st with None => Some cert | Some d => Some d end) (expected st).

Definition insert_paths_for_hosts (hosts : list str) (paths : CertPaths) : CertStoreInner -> CertStoreInner :=
  insert_stored_for_hosts hosts (CertFile paths).

Definition remove_for_hosts (hosts : list str) (st : CertStoreInner) : CertStoreInner :=
  mkCertStoreInner (foldl (fun m host => delete (normalize_host (trim host)) m) (by_host st) hosts)
    (default_stored st) (expected st).

(** [insert_pem_for_hosts] writes two files, then checks what it wrote. *)
Definition insert_pem_for_hosts (io : CertIo) (hosts : list str) (cert_pem key_pem certs_dir id : str)
    (st : CertStoreInner) : result StoreError unit * CertStoreInner :=
  let cert := path_push certs_dir (id ++ bs ".pem") in
  let key := path_push certs_dir (id ++ bs ".key") in
  if negb (pem_pair_ok io cert_pem key_pem) then (Err InvalidPem, st)
  else if negb (write_ok io cert && write_ok io key) then (Err WriteFailed, st)
  else if negb (pair_ok io cert key) then (Err (InvalidPair cert key), st)
  else if negb (names_readable io cert) then (Err (BadNames cert), st)
  else (Ok tt, insert_paths_for_hosts hosts (mkCertPaths cert key) st).

Definition insert_pem_in_memory_for_hosts (io : CertIo) (hosts : list str) (cert_pem key_pem : str)
    (st : CertStoreInner) : result StoreError unit * CertStoreInner :=
  if negb (pem_pair_ok io cert_pem key_pem) then (Err InvalidPem, st)
  else if negb (pem_names_readable io cert_pem) then (Err (BadNames cert_pem), st)
  else (Ok tt, insert_stored_for_hosts hosts (CertPem cert_pem key_pem) st).

(** ** Lookup *)

(** The suffix [.s] of a wildcard key [*.s], when it covers the host. *)
Definition wildcard_suffix (host key : str) : option str :=
  s ← strip_prefix "*." key;
  let suffix := bs "." ++ s in
  if ends_with suffix host && (length suffix <? length host)%nat then Some suffix else None.

Section lookup.
(** The iteration order of the host map. *)
Variable iter_hosts : gmap str StoredCert -> list (str * StoredCert).

Definition candidates (st : CertStoreInner) (host : str) : list (nat * StoredCert) :=
  omap (fun kc => suffix ← wildcard_suffix host kc.1; Some (length suffix, kc.2)) (iter_hosts (by_host st)).

Definition lookup_sni (st : CertStoreInner) (host : str) : option StoredCert :=
  let host := normalize_host host in
  match by_host st !! host with
  | Some cert => Some cert
  | None => snd <$> best_of (candidates st host)
  end.

Definition has_cert_for_host (st : CertStoreInner) (host : str) : bool := is_some (lookup_sni st host).

Definition default_cert (st : CertStoreInner) : option StoredCert :=
  match default_stored st with
  | Some c => Some c
  | None => snd <$> head (iter_hosts (by_host st))
  end.

Definition default_paths (st : CertStoreInner) : option CertPaths :=
  match default_cert st with Some (CertFile p) => Some p | _ => None end.

Definition has_any_cert (st : CertStoreInner) : bool := (0 <? host_count st)%nat || is_some (default_paths st).

Definition store_get (st : CertStoreInner) (host : str) : option StoredCert :=
  match lookup_sni st host with Some c => Some c | None => default_cert st end.

(** The certificate presented in a handshake: [certificate_callback], and
    [CertStoreResolver::resolve] alike. *)
Definition certificate_callback (st : CertStoreInner) (sni : option str) : option StoredCert :=
  match sni with
  | Some host => lookup_sni st host
  | None => default_cert st
  end.

End lookup.

(** ** HTTP-01 challenge tokens *)

Abbreviation Http01ChallengeStore := (gmap str str).
Definition http01_set (token key_authorization : str) (s : Http01ChallengeStore) : Http01ChallengeStore :=
  <[token := key_authorization]> s.
Definition http01_get (token : str) (s : Http01ChallengeStore) : option str := s !! token.
Definition http01_remove (token : str) (s : Http01ChallengeStore) : Http01ChallengeStore := delete token s.

(** ** Lemmas: the reference search

    [wild_scan] walks the host's dots from the left, so it meets the longest
    suffix first; [seen] says that a character precedes the dot. *)
Fixpoint wild_scan (m : gmap str StoredCert) (seen : bool) (h : str) : option StoredCert :=
  match h with
  | [] => None
  | c :: t =>
    if is_byte "." c && seen then
      match m !! (bs "*." ++ t) with Some x => Some x | None => wild_scan m true t end
    else wild_scan m true t
  end.

(** [h] splits at a dot into a prefix, non-empty unless [seen], and [s]. *)
Definition dot_split (seen : bool) (h s : str) : Prop :=
  exists x, (seen = false -> x <> []) /\ h = x ++ "."%byte :: s.

Lemma dot_split_cons seen c t s :
  dot_split seen (c :: t) s <-> (c = "."%byte /\ seen = true /\ s = t) \/ dot_split true t s.
Proof.
  unfold dot_split. split.
  - intros ([|y x] & Hs & E); simplify_eq/=.
    + left. destruct seen; [done|]. by destruct (Hs eq_refl).
    + right. by exists x.
  - intros [(-> & -> & ->)|(x & _ & ->)].
    + by exists [].
    + by exists (c :: x).
Qed.

Lemma dot_split_length seen h s : dot_split seen h s -> (length s < length h)%nat.
Proof. intros (x & _ & ->). rewrite length_app. simpl. lia. Qed.

Lemma wild_scan_spec m seen h :
  match wild_scan m seen h with
  | Some c => exists s, dot_split seen h s /\ m !! (bs "*." ++ s) = Some c /\
                forall s', dot_split seen h s' -> is_Some (m !! (bs "*." ++ s')) -> (length s' <= length s)%nat
  | None => forall s, dot_split seen h s -> m !! (bs "*." ++ s) = None
  end.
Proof.
  revert seen. induction h as [|c t IH]; intros seen; cbn [wild_scan].
  { intros s Hd%dot_split_length. simpl in Hd. lia. }
  assert (Hrec : (forall s, c = "."%byte /\ seen = true /\ s = t -> m !! (bs "*." ++ s) = None) ->
    match wild_scan m true t with
    | Some c0 => exists s, dot_split seen (c :: t) s /\ m !! (bs "*." ++ s) = Some c0 /\
        forall s', dot_split seen (c :: t) s' -> is_Some (m !! (bs "*." ++ s')) -> (length s' <= length s)%nat
    | None => forall s, dot_split seen (c :: t) s -> m !! (bs "*." ++ s) = None
    end).
  { intros Hfirst. specialize (IH true). destruct (wild_scan m true t) as [x|].
    - destruct IH as (s & Hs & Hm & Hmax). exists s. split_and!; [apply dot_split_cons; by right|done|].
      intros s' [Hc|Hs']%dot_split_cons Hsome; [|by apply Hmax].
      rewrite (Hfirst s' Hc) in Hsome. by destruct Hsome.
    - intros s [Hc|Hs]%dot_split_cons; [by apply Hfirst|by apply IH]. }
  unfold is_byte. case_bool_decide as Hc; destruct seen; cbn [andb].
  - destruct (m !! (bs "*." ++ t)) as [x|] eqn:Et.
    + exists t. split_and!; [apply dot_split_cons; by left|done|].
      intros s' [(_ & _ & ->)|Hs'%dot_split_length]%dot_split_cons _; lia.
    + apply Hrec. by intros s (_ & _ & ->).
  - apply Hrec. by intros s (_ & ? & _).
  - apply Hrec. by intros s (? & _).
  - apply Hrec. by intros s (? & _).
Qed.

Lemma wildcard_suffix_spec host s suffix :
  wildcard_suffix host (bs "*." ++ s) = Some suffix <-> suffix = bs "." ++ s /\ dot_split false host s.
Proof.
  unfold wildcard_suffix. rewrite strip_prefix_app. cbn [mbind option_bind].
  set (suf := bs "." ++ s).
  assert (Hl : forall x, (length suf <? length (x ++ suf))%nat = negb (is_empty x)).
  { intros x. rewrite length_app. destruct x; cbn [is_empty negb].
    - apply Nat.ltb_ge. simpl. lia.
    - apply Nat.ltb_lt. simpl. lia. }
  destruct (ends_with suf host) eqn:E; cbn [andb].
  - apply ends_with_true in E as [x ->]. rewrite Hl. destruct x as [|y x]; cbn [is_empty negb].
    + split; [done|]. intros [_ (x & Hx & E)]. apply (f_equal length) in E. unfold suf in E. rewrite !length_app in E.
      destruct x; [by destruct (Hx eq_refl)|]. simpl in E. lia.
    + split; [|by intros [-> _]]. intros [= <-]. split; [done|]. by exists (y :: x).
  - split; [done|]. intros [_ (x & _ & ->)].
    assert (ends_with suf (x ++ "."%byte :: s) = true) by (apply ends_with_true; by exists x). congruence.
Qed.

Lemma insert_hosts_in c hosts m h :
  h ∈ hosts -> trim h <> [] -> foldl (insert_host c) m hosts !! normalize_host (trim h) = Some c.
Proof.
  intros Hin Hne. induction hosts as [|x l IH] using rev_ind; [by apply not_elem_of_nil in Hin|].
  rewrite foldl_app. cbn [foldl]. unfold insert_host at 1. cbn zeta.
  destruct (trim x) as [|b r] eqn:Ex; cbn [is_empty].
  - apply IH. apply elem_of_app in Hin as [Hin|Hx%list_elem_of_singleton]; [done|]. by subst x.
  - destruct (decide (normalize_host (b :: r) = normalize_host (trim h))) as [->|Hd]; [by rewrite lookup_insert_eq|].
    rewrite lookup_insert_ne by done. apply IH.
    apply elem_of_app in Hin as [Hin|Hx%list_elem_of_singleton]; [done|]. subst x. by rewrite Ex in Hd.
Qed.

Lemma insert_hosts_out c hosts m k :
  (forall h, h ∈ hosts -> normalize_host (trim h) <> k) -> foldl (insert_host c) m hosts !! k = m !! k.
Proof.
  intros Hk. induction hosts as [|x l IH] using rev_ind; [done|].
  rewrite foldl_app. cbn [foldl]. unfold insert_host at 1. cbn zeta.
  assert (IHl : foldl (insert_host c) m l !! k = m !! k) by (apply IH; set_solver).
  destruct (is_empty (trim x)); [done|]. rewrite lookup_insert_ne; [done|]. apply Hk. set_solver.
Qed.

Lemma delete_hosts_in (m : gmap str StoredCert) hosts h :
  h ∈ hosts -> foldl (fun m host => delete (normalize_host (trim host)) m) m hosts !! normalize_host (trim h) = None.
Proof.
  intros Hin. induction hosts as [|x l IH] using rev_ind; [by apply not_elem_of_nil in Hin|].
  rewrite foldl_app. cbn [foldl].
  destruct (decide (normalize_host (trim x) = normalize_host (trim h))) as [->|Hd]; [apply lookup_delete_eq|].
  rewrite lookup_delete_ne by done. apply IH.
  apply elem_of_app in Hin as [Hin|Hx%list_elem_of_singleton]; [done|]. by subst x.
Qed.

Section lookup_lemmas.
Variable iter_hosts : gmap str StoredCert -> list (str * StoredCert).
Hypothesis iter_hosts_perm : forall m, iter_hosts m ≡ₚ map_to_list m.

Lemma candidates_spec st host n c :
  (n, c) ∈ candidates iter_hosts st host <->
  exists s, n = S (length s) /\ dot_split false host s /\ by_host st !! (bs "*." ++ s) = Some c.
Proof.
  unfold candidates. rewrite list_elem_of_omap. split.
  - intros ([k c'] & Hin & E). rewrite iter_hosts_perm, elem_of_map_to_list in Hin. cbn [fst snd] in E.
    destruct (wildcard_suffix host k) as [suffix|] eqn:Ew; [|done]. cbn [mbind option_bind] in E. simplify_eq.
    destruct (strip_prefix "*." k) as [s|] eqn:Es.
    + apply strip_prefix_Some in Es as ->. apply wildcard_suffix_spec in Ew as [-> Hd]. by exists s.
    + unfold wildcard_suffix in Ew. by rewrite Es in Ew.
  - intros (s & -> & Hd & Hm). exists (bs "*." ++ s, c). rewrite iter_hosts_perm, elem_of_map_to_list.
    split; [done|]. cbn [fst snd]. by rewrite (proj2 (wildcard_suffix_spec host s _) (conj eq_refl Hd)).
Qed.

(** The longest suffix is unique, so iteration order does not matter. *)
Lemma best_candidate st host : snd <$> best_of (candidates iter_hosts st host) = wild_scan (by_host st) false host.
Proof.
  pose proof (wild_scan_spec (by_host st) false host) as Hw.
  destruct (best_of _) as [[n c]|] eqn:Eb; destruct (wild_scan _ _ _) as [c'|]; simpl.
  - apply best_of_elem in Eb as Hc. destruct Hc as [Hc _]. apply candidates_spec in Hc as (s & -> & Hd & Hm).
    destruct Hw as (s' & Hd' & Hm' & Hmax).
    destruct (best_of_acc_ge (candidates iter_hosts st host) None (S (length s'), c')) as ([n d] & Ed & Hle).
    { apply candidates_spec. by exists s'. }
    { simpl. lia. }
    unfold best_of in Eb. rewrite Eb in Ed. simplify_eq. simpl in Hle.
    assert (length s = length s') as Hls by (apply Nat.le_antisymm; [by apply Hmax|lia]).
    destruct Hd as (x & _ & ->), Hd' as (x' & _ & E).
    apply app_inj_2 in E as [_ E]; [|simpl; by rewrite Hls]. simplify_eq. congruence.
  - apply best_of_elem in Eb as [Hc _]. apply candidates_spec in Hc as (s & _ & Hd & Hm).
    by rewrite (Hw s Hd) in Hm.
  - destruct Hw as (s & Hd & Hm & _). rewrite best_of_None in Eb.
    specialize (Eb (S (length s), c')). cbn [fst] in Eb. exfalso.
    assert (S (length s) = 0%nat); [|lia]. apply Eb, candidates_spec. by exists s.
  - done.
Qed.

(** ** Properties *)

(** SNI selection is the longest-suffix search.  Whatever the iteration order
    of the host map, [lookup_sni] returns the certificate stored for the exact
    host if there is one, and otherwise the one of the wildcard with the longest
    suffix of the host (the search [wild_scan] along the host's dots); it never
    falls back to the default certificate, which only a handshake without SNI
    gets. *)
Theorem lookup_sni_longest st sni :
  let h := normalize_host (default [] sni) in
  certificate_callback iter_hosts st sni =
  match sni with
  | Some _ => match by_host st !! h with Some c => Some c | None => wild_scan (by_host st) false h end
  | None => match default_stored st with Some c => Some c | None => snd <$> head (iter_hosts (by_host st)) end
  end.
Proof.
  intros h. destruct sni as [host|]; [|done]. simpl in h. unfold certificate_callback, lookup_sni. fold h.
  destruct (by_host st !! h); [done|]. apply best_candidate.
Qed.

End lookup_lemmas.

Definition iter_c (m : gmap str StoredCert) : list (str * StoredCert) := map_to_list m.

Definition sample_store : CertStoreInner :=
  insert_paths_for_hosts [bs "*.example.com"; bs "*.eu.example.com"] (mkCertPaths "/w.pem" "/w.key")
    (insert_stored_for_hosts [bs " App.example.com "] (CertPem "c" "k") store_new).

Lemma lookup_sni_longest_witness :
  certificate_callback iter_c sample_store (Some (bs "a.eu.example.com:443")) =
  wild_scan (by_host sample_store) false "a.eu.example.com" /\
  wild_scan (by_host sample_store) false "a.eu.example.com" = Some (CertFile (mkCertPaths "/w.pem" "/w.key")).
Proof.
  split; [|vm_compute; reflexivity].
  rewrite (lookup_sni_longest iter_c (fun m => Permutation_refl _) sample_store (Some (bs "a.eu.example.com:443"))).
  vm_compute. reflexivity.
Defined.

(** Installing a certificate makes it the one presented.  After a successful
    in-memory installation every listed host (trimmed, without port, any case)
    is served that certificate; other exact hosts keep theirs; a refused PEM
    changes nothing; and removing the hosts again removes their entries. *)
Theorem installed_cert_served io iter hosts cert key st :
  match insert_pem_in_memory_for_hosts io hosts cert key st with
  | (Err _, st') => st' = st
  | (Ok _, st') =>
    (forall h, h ∈ hosts -> trim h <> [] ->
       lookup_sni iter st' (trim h) = Some (CertPem cert key)) /\
    (forall k, (forall h, h ∈ hosts -> normalize_host (trim h) <> k) -> by_host st' !! k = by_host st !! k) /\
    (forall h, h ∈ hosts -> by_host (remove_for_hosts hosts st') !! normalize_host (trim h) = None) /\
    is_Some (default_stored st')
  end.
Proof.
  unfold insert_pem_in_memory_for_hosts. case_if; [done|]. case_if; [done|].
  set (c := CertPem cert key). split_and!.
  - intros h Hh Hne. unfold lookup_sni, insert_stored_for_hosts. cbn [by_host]. by rewrite insert_hosts_in.
  - intros k Hk. unfold insert_stored_for_hosts. cbn [by_host]. by apply insert_hosts_out.
  - intros h Hh. unfold remove_for_hosts. cbn [by_host]. by apply delete_hosts_in.
  - unfold insert_stored_for_hosts. cbn [default_stored]. destruct (default_stored st); by eexists.
Qed.
