(* ===== verification/CertValidate.v ===== *)
(** * Certificate checks (tls/validate.rs)

    Whether a pair of files, or of PEM texts, is a certificate with its key, the
    names a leaf certificate is valid for, and which configured hosts it does not
    cover.  The PEM and X.509 parsers are parameters; [cert_io] gives the checks to
    the certificate store. *)

From S2P Require Import Prelude RustStr EdgeAuth ProxyConfig Router CertStore.

(** ** The parsers *)

Inductive GeneralName : Type := DNSName (dns : str) | OtherName.

(** The subject's common names, [None] for one that is not text; the alternative
    names extension, [None] when it is missing or malformed. *)
Record X509Certificate := mkX509Certificate {
  common_names : list (option str);
  alternative_names : option (list GeneralName);
}.

(** [rustls_pemfile::certs] yields the blocks in order, [None] for a broken one;
    [private_key] the first key, [Err] for broken PEM. *)
Class CertParser := {
  pem_certs : str -> list (option str);
  pem_private_key : str -> result unit (option str);
  x509_from_der : str -> option X509Certificate;
}.

(** ** Errors *)

Inductive CertError : Type :=
| CertNotFound (path : str)
| KeyNotFound (path : str)
| CertUnreadable (path : str)
| KeyUnreadable (path : str)
| CertPemBroken
| CertMissing
| KeyPemBroken
| KeyMissing
| LeafBroken.

(** [is_file] and [fs::read]. *)
Record Files := mkFiles { fs_is_file : str -> bool; fs_read : str -> option str }.

Section validate.
Context `{CertParser}.

Definition validate_cert_pair_pem (cert_pem key_pem : str) : result CertError unit :=
  certs ← ok_or (mapM id (pem_certs cert_pem)) CertPemBroken;
  if is_empty certs then Err CertMissing
  else
    match pem_private_key key_pem with
    | Err _ => Err KeyPemBroken
    | Ok None => Err KeyMissing
    | Ok (Some _) => Ok tt
    end.

(** The second half of [validate_cert_pair] is the check of the texts it read. *)
Definition validate_cert_pair (fs : Files) (cert key : str) : result CertError unit :=
  if negb (fs_is_file fs cert) then Err (CertNotFound cert)
  else if negb (fs_is_file fs key) then Err (KeyNotFound key)
  else
    cert_pem ← ok_or (fs_read fs cert) (CertUnreadable cert);
    key_pem ← ok_or (fs_read fs key) (KeyUnreadable key);
    validate_cert_pair_pem cert_pem key_pem.

(** The first common name, when it is text, then every DNS alternative name. *)
Definition leaf_cert_names (pem : str) : result CertError (list str) :=
  der ← match pem_certs pem with
        | [] => Err CertMissing
        | None :: _ => Err CertPemBroken
        | Some der :: _ => Ok der
        end;
  cert ← ok_or (x509_from_der der) LeafBroken;
  mret (from_option (fun cn => [to_ascii_lowercase cn]) [] (mjoin (head (common_names cert))) ++
        omap (fun n => match n with DNSName dns => Some (to_ascii_lowercase dns) | OtherName => None end)
          (default [] (alternative_names cert))).

Definition host_matches_cert_name (host cert_name : str) : bool :=
  if host =s cert_name then true
  else
    match strip_prefix "*." cert_name with
    | Some suffix =>
      let suffix := bs "." ++ suffix in
      ends_with suffix host && (length suffix <? length host)%nat
    | None => false
    end.

Definition cert_covers_host (cert_names : list str) (host : str) : bool :=
  existsb (host_matches_cert_name host) cert_names.

(** [host.split(':').next()], in lower case. *)
Definition bare_host (host : str) : str := to_ascii_lowercase (split_first ":" host).

(** The hosts a warning is logged for. *)
Definition warn_host_cert_mismatch_pem (cert_pem : str) (hosts : list str) : result CertError (list str) :=
  names ← leaf_cert_names cert_pem;
  mret (filter (fun h => cert_covers_host names h = false) (bare_host <$> hosts)).

Definition warn_host_cert_mismatch (fs : Files) (cert : str) (hosts : list str) : result CertError (list str) :=
  pem ← ok_or (fs_read fs cert) (CertUnreadable cert);
  warn_host_cert_mismatch_pem pem hosts.

(** What the store asks of a file system and a parser; [writable] says where files
    can be written. *)
Definition cert_io (fs : Files) (writable : str -> bool) : CertIo :=
  mkCertIo (fun cert key => is_ok (validate_cert_pair fs cert key))
    (fun cert => is_ok (warn_host_cert_mismatch fs cert []))
    (fun cert_pem key_pem => is_ok (validate_cert_pair_pem cert_pem key_pem))
    (fun cert_pem => is_ok (warn_host_cert_mismatch_pem cert_pem []))
    writable.

(** ** Properties *)

(** Whether the names can be read does not depend on the hosts. *)
Lemma warn_ok_hosts pem hosts : is_ok (warn_host_cert_mismatch_pem pem hosts) = is_ok (leaf_cert_names pem).
Proof. unfold warn_host_cert_mismatch_pem. by destruct (leaf_cert_names pem). Qed.

(** A file pair with readable files is as good as its texts. *)
Lemma validate_files fs cert key cert_pem key_pem :
  fs_is_file fs cert = true -> fs_is_file fs key = true -> fs_read fs cert = Some cert_pem -> fs_read fs key = Some key_pem ->
  validate_cert_pair fs cert key = validate_cert_pair_pem cert_pem key_pem.
Proof. intros Hc Hk Hrc Hrk. unfold validate_cert_pair. by rewrite Hc, Hk, Hrc, Hrk. Qed.

Lemma host_matches_spec host name : host_matches_cert_name host name = true <->
  host = name \/ exists labels suffix, name = bs "*." ++ suffix /\ labels <> [] /\ host = labels ++ bs "." ++ suffix.
Proof.
  unfold host_matches_cert_name. destruct (host =s name) eqn:E.
  { apply str_eqb_eq in E. split; [by left|done]. }
  apply str_eqb_neq in E. destruct (strip_prefix "*." name) as [suffix|] eqn:Es.
  - apply strip_prefix_Some in Es as ->. cbn zeta. rewrite andb_true_iff, ends_with_true, Nat.ltb_lt. split.
    + intros [[r ->] Hl]. right. exists r, suffix. rewrite length_app in Hl. split; [done|]. split; [|done]. intros ->. cbn in Hl. lia.
    + intros [->|(l & s & Hn & Hl & ->)]; [done|]. apply app_inv_head in Hn as <-. split; [by exists l|].
      rewrite !length_app. destruct l as [|c l]; [done|]. cbn [length]. lia.
  - split; [done|]. intros [->|(l & s & -> & _)]; [done|]. by rewrite strip_prefix_app in Es.
Qed.

(** The hosts that are warned about are exactly the configured ones, without port and
    in lower case, that are neither a name of the leaf nor below a wildcard name. *)
Theorem warned_hosts pem hosts names warned :
  leaf_cert_names pem = Ok names -> warn_host_cert_mismatch_pem pem hosts = Ok warned ->
  forall h, h ∈ warned <-> h ∈ bare_host <$> hosts /\ forall n, n ∈ names -> h <> n /\
    ~ exists labels suffix, n = bs "*." ++ suffix /\ labels <> [] /\ h = labels ++ bs "." ++ suffix.
Proof.
  intros Hn Hw h. unfold warn_host_cert_mismatch_pem in Hw. rewrite Hn in Hw. injection Hw as <-.
  rewrite list_elem_of_filter. unfold cert_covers_host. rewrite <- not_true_iff_false, existsb_exists.
  setoid_rewrite <- list_elem_of_In. setoid_rewrite host_matches_spec.
  split; [intros [H1 H2]; split; [done|]|intros [H1 H2]; split; [|done]].
  - intros n Hin. split; intros Hm; apply H1; exists n; (split; [done|]); [by left|by right].
  - intros (n & Hin & Hm). destruct (H2 n Hin) as [Hne Hnw]. by destruct Hm.
Qed.

(** The names of a certificate are in lower case. *)
Lemma leaf_names_lower pem names : leaf_cert_names pem = Ok names -> Forall (fun n => to_ascii_lowercase n = n) names.
Proof.
  unfold leaf_cert_names. destruct (pem_certs pem) as [|[der|] l]; [done| |done]. cbn. destruct (x509_from_der der) as [c|]; [|done].
  cbn. intros [= <-]. apply Forall_app. split.
  - destruct (mjoin _); [|constructor]. cbn. constructor; [apply to_ascii_lowercase_idemp|constructor].
  - rewrite Forall_forall. intros n Hin. apply list_elem_of_omap in Hin as ([dns|] & _ & He); [|done]. injection He as <-.
    apply to_ascii_lowercase_idemp.
Qed.

(** The store's lookup and the check agree on wildcards. *)
Lemma matches_wildcard_suffix host key : host <> key -> host_matches_cert_name host key = is_some (wildcard_suffix host key).
Proof.
  intros Hne. unfold host_matches_cert_name, wildcard_suffix. rewrite (proj2 (str_eqb_neq host key) Hne).
  destruct (strip_prefix "*." key) as [s|]; [|done]. cbn. by destruct (_ && _).
Qed.

(** With the checks of this file, [insert_pem_for_hosts] fails on broken texts or when
    the files cannot be written, and not otherwise: files that read back as they were
    written are accepted. *)
Theorem insert_pem_outcome fs writable hosts cert_pem key_pem dir id st :
  let cert := path_push dir (id ++ bs ".pem") in
  let key := path_push dir (id ++ bs ".key") in
  fs_is_file fs cert = true -> fs_is_file fs key = true -> fs_read fs cert = Some cert_pem -> fs_read fs key = Some key_pem ->
  insert_pem_for_hosts (cert_io fs writable) hosts cert_pem key_pem dir id st =
    if is_ok (validate_cert_pair_pem cert_pem key_pem) then
      if writable cert && writable key then
        if is_ok (leaf_cert_names cert_pem) then (Ok tt, insert_paths_for_hosts hosts (mkCertPaths cert key) st)
        else (Err (BadNames cert), st)
      else (Err WriteFailed, st)
    else (Err InvalidPem, st).
Proof.
  intros cert key Hc Hk Hrc Hrk. unfold insert_pem_for_hosts, cert_io. cbn [pem_pair_ok write_ok pair_ok names_readable].
  fold cert key. rewrite (validate_files fs cert key cert_pem key_pem) by done.
  unfold warn_host_cert_mismatch. rewrite Hrc. cbn [mbind result_bind ok_or]. rewrite warn_ok_hosts.
  destruct (is_ok (validate_cert_pair_pem _ _)); cbn [negb]; [|done]. destruct (writable cert && writable key); cbn [negb]; [|done].
  by destruct (is_ok (leaf_cert_names cert_pem)).
Qed.

(** A wildcard name is taken to cover any number of labels: no warning for a host
    two labels below it, which clients reject. *)
Theorem deep_host_not_warned pem : leaf_cert_names pem = Ok [bs "*.example.com"] ->
  warn_host_cert_mismatch_pem pem [bs "a.b.example.com"] = Ok [].
Proof. intros Hn. unfold warn_host_cert_mismatch_pem. rewrite Hn. vm_compute. reflexivity. Qed.

End validate.
