(* ===== verification/Handshake.v ===== *)
(** * The certificate of a handshake (tls/sni.rs, tls/resolver.rs, tls/store.rs, db/mod.rs)

    What is done with the certificate that the store selects: the callback of HTTPS sets
    it through OpenSSL, the resolver of HTTP/3 through rustls.  And what the database and
    the controller read from a certificate: its expiry and the hosts it is for. *)

From S2P Require Import Prelude RustStr Ip GeoIp Waf Bot Captcha Security Edge EdgeAuth ProxyConfig Router CertStore CertValidate.

(** ** Reading the material *)

Inductive HandshakeError : Type := ReadPem | ParseCert | NoCert | ParseKey | NoKey | BadPair.

Definition read_pem (fs : Files) (c : StoredCert) : result HandshakeError (str * str) :=
  match c with
  | CertFile p =>
    cert ← ok_or (fs_read fs (cert_path p)) ReadPem;
    key ← ok_or (fs_read fs (key_path p)) ReadPem;
    Ok (cert, key)
  | CertPem cert key => Ok (cert, key)
  end.

(** ** OpenSSL *)

(** [X] and [K] are certificates and keys of the library. *)
Class OpenSsl (X K : Type) := {
  stack_from_pem : str -> option (list X);
  private_key_from_pem : str -> option K;
  use_certificate : X -> bool;
  add_chain_cert : X -> bool;
  use_private_key : X -> K -> bool;
}.

(** What the callback has set on the connection. *)
Record Ssl (X K : Type) := mkSsl { ssl_leaf : option X; ssl_chain : list X; ssl_key : option K }.
Arguments mkSsl {X K} _ _ _.
Arguments ssl_leaf {X K} _.
Arguments ssl_chain {X K} _.
Arguments ssl_key {X K} _.

Section openssl.
Context {X K : Type} `{!OpenSsl X K}.
Variable fs : Files.

Definition load_openssl_key_pair (c : StoredCert) : result HandshakeError (X * list X * K) :=
  '(cert, key) ← read_pem fs c;
  stack ← ok_or (stack_from_pem cert) ParseCert;
  match stack with
  | [] => Err NoCert
  | leaf :: chain =>
    key ← ok_or (private_key_from_pem key) ParseKey;
    Ok (leaf, chain, key)
  end.

(** The chain up to the first one that is refused; whether all were set. *)
Fixpoint set_chain (chain : list X) : list X * bool :=
  match chain with
  | [] => ([], true)
  | x :: chain => if add_chain_cert x then let '(l, ok) := set_chain chain in (x :: l, ok) else ([], false)
  end.

Definition use_pair (leaf : X) (chain : list X) (key : K) : Ssl X K :=
  if negb (use_certificate leaf) then mkSsl None [] None
  else
    let '(set, ok) := set_chain chain in
    mkSsl (Some leaf) set (if ok && use_private_key leaf key then Some key else None).

Variable iter_hosts : gmap str StoredCert -> list (str * StoredCert).

(** The rest of the callback, once the certificate is selected. *)
Definition sni_callback (st : CertStoreInner) (sni : option str) : Ssl X K :=
  match certificate_callback iter_hosts st sni with
  | None => mkSsl None [] None
  | Some c =>
    match load_openssl_key_pair c with
    | Ok (leaf, chain, key) => use_pair leaf chain key
    | Err _ => mkSsl None [] None
    end
  end.

End openssl.

(** ** rustls *)

Section rustls.
Context `{CertParser}.
(** [CertifiedKey::from_der]: whether the key is one the provider can use for the chain. *)
Variable from_der : list str -> str -> bool.
Variable fs : Files.
Variable iter_hosts : gmap str StoredCert -> list (str * StoredCert).

Definition stored_to_certified_key (c : StoredCert) : result HandshakeError (list str * str) :=
  '(cert, key) ← read_pem fs c;
  chain ← ok_or (mapM id (pem_certs cert)) ParseCert;
  if is_empty chain then Err NoCert
  else
    match pem_private_key key with
    | Err _ => Err ParseKey
    | Ok None => Err NoKey
    | Ok (Some key) => if from_der chain key then Ok (chain, key) else Err BadPair
    end.

Definition resolver_resolve (st : CertStoreInner) (sni : option str) : option (list str * str) :=
  c ← (match sni with Some name => lookup_sni iter_hosts st name | None => default_cert iter_hosts st end);
  match stored_to_certified_key c with Ok k => Some k | Err _ => None end.

(** A certificate that the store accepted from PEM is one the resolver can present: its
    chain and its key are those of the texts, and the handshake can only fail where
    rustls refuses them as a pair. *)
Theorem accepted_pem_resolves cert key : validate_cert_pair_pem cert key = Ok tt ->
  exists chain k, chain <> [] /\ mapM id (pem_certs cert) = Some chain /\ pem_private_key key = Ok (Some k) /\
    stored_to_certified_key (CertPem cert key) = if from_der chain k then Ok (chain, k) else Err BadPair.
Proof.
  unfold validate_cert_pair_pem, stored_to_certified_key. cbn [read_pem mbind result_bind].
  destruct (mapM id (pem_certs cert)) as [chain|]; [|done]. cbn [ok_or mbind result_bind].
  destruct (is_empty chain) eqn:Ee; [done|]. destruct (pem_private_key key) as [[k|]|]; [|done..]. intros _. exists chain, k.
  split_and!; [by intros ->|done|done|done].
Qed.

(** The store looks at certificate and key apart from each other: with the certificate of
    one accepted pair it accepts the key of any other. *)
Theorem foreign_key_accepted cert key cert' key' :
  validate_cert_pair_pem cert key = Ok tt -> validate_cert_pair_pem cert' key' = Ok tt -> validate_cert_pair_pem cert key' = Ok tt.
Proof.
  unfold validate_cert_pair_pem. destruct (mapM id (pem_certs cert)) as [chain|]; [|done]. destruct (mapM id (pem_certs cert')) as [chain'|]; [|done].
  cbn [ok_or mbind result_bind]. destruct (is_empty chain); [done|]. by destruct (is_empty chain').
Qed.

End rustls.

(** A key that does not belong to the certificate is never set, and the connection is
    left with a certificate it cannot use. *)
Theorem foreign_key_breaks_handshake {X K : Type} `{!OpenSsl X K} fs iter_hosts st host c leaf chain key :
  lookup_sni iter_hosts st host = Some c -> load_openssl_key_pair fs c = Ok (leaf, chain, key) ->
  use_certificate leaf = true -> use_private_key leaf key = false ->
  ssl_leaf (sni_callback (X := X) (K := K) fs iter_hosts st (Some host)) = Some leaf /\
  ssl_key (sni_callback (X := X) (K := K) fs iter_hosts st (Some host)) = None.
Proof.
  intros Hl Hk Hu Hp. unfold sni_callback. cbn [certificate_callback]. rewrite Hl, Hk. unfold use_pair. rewrite Hu. cbn [negb].
  destruct (set_chain chain) as [set ok]. cbn [ssl_leaf ssl_key]. rewrite Hp. by destruct ok.
Qed.

(** ** What is read from a certificate (db/mod.rs) *)

(** [x509_parser]: the first PEM block, its certificate and the expiry as text. *)
Class PemReader := {
  pem_read : str -> option str;
  x509_read : str -> option X509Certificate;
  not_after_rfc2822 : X509Certificate -> option str;
}.

Section names.
Context `{PemReader}.

Definition first_certificate (pem : str) : option X509Certificate := der ← pem_read pem; x509_read der.

Definition cert_expiry_of (pem : str) : option str := cert ← first_certificate pem; not_after_rfc2822 cert.

Definition nonblank (s : str) : option str := let s := trim s in if is_empty s then None else Some s.

(** The set of common names and DNS names; the order of its list is a parameter. *)
Definition cert_host_set (pem : str) : gset str :=
  match first_certificate pem with
  | None => ∅
  | Some cert =>
    list_to_set (omap (fun o => o ≫= nonblank) (common_names cert) ++
                 omap (fun n => match n with DNSName dns => nonblank dns | OtherName => None end) (default [] (alternative_names cert)))
  end.

Definition cert_hosts_from_pem (iter : gset str -> list str) (pem : str) : list str := iter (cert_host_set pem).

Record CertValidity := mkCertValidity { cv_issued_at : option str; cv_expires_at : option str }.

(** The time of issue is never read. *)
Definition cert_validity_from_pem (pem : str) : CertValidity := mkCertValidity None (cert_expiry_of pem).

(** The hosts of a certificate are its names without blanks, each once, whatever order
    the set is listed in. *)
Theorem cert_hosts_exact iter pem : (forall s, iter s ≡ₚ elements s) -> NoDup (cert_hosts_from_pem iter pem) /\
  forall h, h ∈ cert_hosts_from_pem iter pem <->
    exists cert, first_certificate pem = Some cert /\ h <> [] /\
      ((exists cn, Some cn ∈ common_names cert /\ trim cn = h) \/
       (exists names dns, alternative_names cert = Some names /\ DNSName dns ∈ names /\ trim dns = h)).
Proof.
  intros Hi. assert (Hb : forall s h, nonblank s = Some h <-> trim s = h /\ h <> []).
  { intros s h. unfold nonblank. cbv zeta. destruct (trim s) as [|b r]; cbn [is_empty]; split; [done|by intros [<- ?]|by intros [= <-]|by intros [<- _]]. }
  unfold cert_hosts_from_pem. split; [rewrite Hi; apply NoDup_elements|]. intros h. rewrite Hi, elem_of_elements. unfold cert_host_set.
  destruct (first_certificate pem) as [cert|]; [|split; [set_solver|by intros (? & ? & _)]].
  rewrite elem_of_list_to_set, elem_of_app, !list_elem_of_omap. split.
  - intros [([cn|] & Hin & Hx)|([dns|] & Hin & Hx)]; cbn in Hx; try done; apply Hb in Hx as [Ht Hne]; exists cert; (split; [done|]); (split; [done|]).
    + left. by exists cn.
    + right. destruct (alternative_names cert) as [names|]; [|by apply not_elem_of_nil in Hin]. by exists names, dns.
  - intros (cert' & [= <-] & Hne & [(cn & Hin & Ht)|(names & dns & Ha & Hin & Ht)]).
    + left. exists (Some cn). split; [done|]. by apply Hb.
    + right. exists (DNSName dns). rewrite Ha. split; [done|]. by apply Hb.
Qed.

End names.
