(* ===== verification/Gateway.v ===== *)
(** * The gateway: pingora's callbacks for a request (proxy/mod.rs)

    One request goes through [early_request_filter], [request_filter],
    [upstream_peer], [upstream_request_filter], [upstream_response_filter],
    [response_filter], [response_body_filter] and [logging]; [fail_to_proxy]
    replaces the response callbacks on error.  Each callback is a function of the
    gateway's environment, the session and the state: the request context and
    the tables shared by all requests.  One callback sees one snapshot of the
    configuration and one reading of each clock. *)

From S2P Require Import Prelude RustStr Ip GeoIp Waf Bot Captcha Security Edge EdgeAuth ProxyConfig Router Forward.
From S2P Require Import Http Grpc Registry Respond Telemetry CertStore.

(** ** The request context

    [RequestCtx], its fields in groups: what the route's middleware asks for,
    the kind of traffic, the response being collected for the cache. *)

Record StreamFlags := mkStreamFlags {
  is_grpc : bool;
  is_grpc_web : bool;
  is_long_lived_stream : bool;
  is_websocket : bool;
  is_registry : bool;
}.

Record CacheCtx := mkCacheCtx {
  cache_body : str;
  cache_status : N;
  cache_collect : bool;
  cache_key : option str;
  cache_type : str;
}.

Record RequestCtx := mkRequestCtx {
  cx_action : MiddlewareAction;
  cx_flags : StreamFlags;
  cx_cache : CacheCtx;
  rate_client : option str;
  rate_host : option str;
  log_started : option N;
  log_upstream : option str;
  metrics_counted : bool;
}.

Definition no_flags : StreamFlags := mkStreamFlags false false false false false.
Definition no_cache : CacheCtx := mkCacheCtx [] 0 false None [].

(** [From<MiddlewareAction> for RequestCtx]. *)
Definition ctx_from (mw : MiddlewareAction) : RequestCtx :=
  mkRequestCtx mw no_flags no_cache None None None None false.

(** [RequestCtx::default()], where every flag starts false. *)
Definition new_ctx : RequestCtx :=
  ctx_from (mkMiddlewareAction None [] [] false geoip_default security_default edge_policy_default None).

Definition set_flags (c : RequestCtx) (f : StreamFlags) : RequestCtx :=
  mkRequestCtx (cx_action c) f (cx_cache c) (rate_client c) (rate_host c) (log_started c) (log_upstream c)
    (metrics_counted c).
Definition set_cache (c : RequestCtx) (k : CacheCtx) : RequestCtx :=
  mkRequestCtx (cx_action c) (cx_flags c) k (rate_client c) (rate_host c) (log_started c) (log_upstream c)
    (metrics_counted c).
Definition set_rate (c : RequestCtx) (client host : option str) : RequestCtx :=
  mkRequestCtx (cx_action c) (cx_flags c) (cx_cache c) client host (log_started c) (log_upstream c)
    (metrics_counted c).
Definition set_upstream (c : RequestCtx) (u : option str) : RequestCtx :=
  mkRequestCtx (cx_action c) (cx_flags c) (cx_cache c) (rate_client c) (rate_host c) (log_started c) u
    (metrics_counted c).
Definition set_started (c : RequestCtx) (t : N) : RequestCtx :=
  mkRequestCtx (cx_action c) (cx_flags c) (cx_cache c) (rate_client c) (rate_host c) (Some t) (log_upstream c) true.
Definition set_uncounted (c : RequestCtx) : RequestCtx :=
  mkRequestCtx (cx_action c) (cx_flags c) (cx_cache c) (rate_client c) (rate_host c) (log_started c) (log_upstream c)
    false.

Definition set_long_lived (c : RequestCtx) : RequestCtx :=
  let f := cx_flags c in
  set_flags c (mkStreamFlags (is_grpc f) (is_grpc_web f) true (is_websocket f) (is_registry f)).

(** [*ctx = plan.middleware.into()] with the five traffic flags put back. *)
Definition reset_ctx (c : RequestCtx) (mw : MiddlewareAction) : RequestCtx := set_flags (ctx_from mw) (cx_flags c).

(** ** Text helpers *)

Fixpoint urlencoding_bytes (s : str) : option str :=
  match s with
  | [] => Some []
  | c :: t =>
    if is_byte "+" c then cons " "%byte <$> urlencoding_bytes t
    else if is_byte "%" c then
      match t with
      | a :: b :: rest =>
        h ← to_digit 16 a; l ← to_digit 16 b;
        cons (n2b (N.lor (N.shiftl h 4) l)) <$> urlencoding_bytes rest
      | _ => cons c <$> urlencoding_bytes t
      end
    else cons c <$> urlencoding_bytes t
  end.

Definition urlencoding_decode (input : str) : option str := urlencoding_bytes input ≫= from_utf8.

Fixpoint find_pair (pairs : list str) (key : str) : option str :=
  match pairs with
  | [] => None
  | p :: rest =>
    let '(k, v) := default (p, []) (split_once "=" p) in
    if k =s key then Some (default (replace_byte "+" (bs " ") v) (urlencoding_decode v)) else find_pair rest key
  end.

Definition gw_query_param (query key : str) : option str := find_pair (split_on "&" query) key.

Definition protocol_short (label : str) : str :=
  if label =s "h2" then bs "2" else if label =s "http/1.1" then bs "1.1" else label.

(** [Alt-Svc]; the quote character is written [x22]. *)
Definition alt_svc_header_value (enable_h3 : bool) (h3_port : N) (host : str) (c : RequestCtx) : option str :=
  let f := cx_flags c in
  if is_grpc f || is_long_lived_stream f || is_machine_api_host host then Some (bs "clear")
  else if enable_h3 then
    let port := show_N h3_port in
    Some (bs "h3=" ++ [x22] ++ bs ":" ++ port ++ [x22] ++ bs "; ma=86400; persist=1, h3-29=" ++ [x22] ++ bs ":"
          ++ port ++ [x22] ++ bs "; ma=86400; persist=1")
  else None.

(** ** Upstream peers *)

Inductive ALPN : Type := ALPN_H1 | ALPN_H2 | ALPN_H2H1.

Record PeerOptions := mkPeerOptions {
  verify_cert : bool;
  alpn : ALPN;
  max_h2_streams : N;
  h2_ping_interval : option N;
  read_timeout : option N;
  write_timeout : option N;
  idle_timeout : option N;
}.

Record HttpPeer := mkHttpPeer { peer_addr : str * N; peer_tls : bool; peer_sni : str; peer_options : PeerOptions }.

Definition with_timeout (o : PeerOptions) (t : option N) : PeerOptions :=
  match t with
  | None => o
  | Some t =>
    mkPeerOptions (verify_cert o) (alpn o) (max_h2_streams o) (h2_ping_interval o) (Some t) (Some t) (Some t)
  end.

(** [configure_upstream_peer]; [dflt] are the options of [HttpPeer::new]. *)
Definition configure_upstream_peer (env : str -> option str) (dflt : PeerOptions) (host : str) (port : N) (sni : str)
    (use_tls : bool) (c : RequestCtx) : HttpPeer :=
  let f := cx_flags c in
  let o := if use_tls then
             mkPeerOptions false (alpn dflt) (max_h2_streams dflt) (h2_ping_interval dflt) (read_timeout dflt)
               (write_timeout dflt) (idle_timeout dflt)
           else dflt in
  let o :=
    if is_h2c_only_upstream sni port || uses_h2c_upstream (is_grpc f) (is_grpc_web f) then
      mkPeerOptions (verify_cert o) ALPN_H2 128 (Some (grpc_h2_ping_interval env)) (read_timeout o) (write_timeout o)
        (idle_timeout o)
    else if is_websocket f then
      mkPeerOptions (verify_cert o) ALPN_H1 (max_h2_streams o) (h2_ping_interval o) (read_timeout o)
        (write_timeout o) (idle_timeout o)
    else o in
  let o :=
    if is_grpc f || is_long_lived_stream f then with_timeout o (grpc_upstream_timeout env)
    else if is_registry f then with_timeout o (registry_upstream_timeout env)
    else o in
  mkHttpPeer (host, port) use_tls sni o.

(** The framework error a failed plan turns into. *)
Definition forward_error (e : ForwardError) : PError :=
  match e with
  | NoRoute host path =>
    mkPError (HTTPStatus 404) SrcUnset (bs "no route for host=" ++ host ++ bs " path=" ++ path)
  | NoConsulEndpoint service =>
    mkPError (HTTPStatus 503) SrcUnset (bs "no healthy consul endpoints for " ++ service)
  | InvalidPort a => mkPError InternalError SrcUnset (bs "invalid port in backend address: " ++ a)
  end.

(** ** Environment and state *)

(** What went out to the client: the header, and the content once that is out too.
    [None] is a response that was begun and not completed. *)
Record Written (H : Type) := mkWritten { wr_head : ResponseHeader H; wr_content : option str }.
Arguments mkWritten {H} _ _.
Arguments wr_head {H} _.
Arguments wr_content {H} _.

Section gateway.
Context `{HM : HeaderMap H} `{MV : MacVerify} `{UP : UriParser}.
(** Iteration orders of the hash maps, and Unicode lower case. *)
Variable iter_routes : gmap str (list Route) -> list (str * list Route).
Variable iter_edge : gmap str (gmap str EdgePolicy) -> list (str * gmap str EdgePolicy).
Variable iter_headers : gmap str str -> list (str * str).
Variable iter_hosts : gmap str StoredCert -> list (str * StoredCert).
(** The entry the cache evicts next: any key of the map. *)
Variable pick_victim : gmap str CacheEntry -> option str.
Variable to_lowercase : str -> str.

(** What a callback reads: the fields of [Gateway] and of the process, the
    clocks ([ev_instant] in nanoseconds, [ev_secs] wall-clock seconds), random
    draws, and the answers of the network and the disk. *)
Record Env := mkEnv {
  ev_env : str -> option str;
  ev_ingress : bool;
  ev_table : RouteTable;
  ev_certs : CertStoreInner;
  ev_auto_https : bool;
  ev_https_port : N;
  ev_enable_h3 : bool;
  ev_h3_port : N;
  ev_http01 : option Http01ChallengeStore;
  ev_proxy_log_enabled : bool;
  ev_min_level : LogLevel;
  ev_geo : GeoIpEngine;
  ev_secret : str;
  ev_instant : N;
  ev_secs : N;
  ev_draws : N * N;
  ev_forward_auth : str -> list (str * str) -> option N;
  ev_read_file : str -> option str;
  ev_probe : str -> N -> ProbeIo;
  (** [write_response_header] (the flag is [end_of_stream]) and [write_response_body]. *)
  ev_send_header : ResponseHeader H -> bool -> option PError;
  ev_send_body : str -> option PError;
  ev_install_script : str;
  ev_peer_defaults : PeerOptions;
  (** The framework's [respond_error]: what is out after it, given what was before. *)
  ev_respond_error : N -> option (Written H) -> option (Written H);
}.

Record GwState := mkGwState {
  gs_ctx : RequestCtx;
  gs_plan : PlanState;
  gs_cache : CacheInner;
  gs_windows : Windows;
  gs_rates : RateMap;
  gs_metrics : ProxyMetrics;
  gs_log : ProxyLog;
  gs_written : option (Written H);
  gs_timeout : option (option N);
}.

Definition upd_ctx (f : RequestCtx -> RequestCtx) (s : GwState) : GwState :=
  mkGwState (f (gs_ctx s)) (gs_plan s) (gs_cache s) (gs_windows s) (gs_rates s) (gs_metrics s) (gs_log s)
    (gs_written s) (gs_timeout s).
Definition upd_plan (p : PlanState) (s : GwState) : GwState :=
  mkGwState (gs_ctx s) p (gs_cache s) (gs_windows s) (gs_rates s) (gs_metrics s) (gs_log s) (gs_written s)
    (gs_timeout s).
Definition upd_cache (c : CacheInner) (s : GwState) : GwState :=
  mkGwState (gs_ctx s) (gs_plan s) c (gs_windows s) (gs_rates s) (gs_metrics s) (gs_log s) (gs_written s)
    (gs_timeout s).
Definition upd_windows (w : Windows) (s : GwState) : GwState :=
  mkGwState (gs_ctx s) (gs_plan s) (gs_cache s) w (gs_rates s) (gs_metrics s) (gs_log s) (gs_written s)
    (gs_timeout s).
Definition upd_rates (m : RateMap) (s : GwState) : GwState :=
  mkGwState (gs_ctx s) (gs_plan s) (gs_cache s) (gs_windows s) m (gs_metrics s) (gs_log s) (gs_written s)
    (gs_timeout s).
Definition upd_metrics (f : ProxyMetrics -> ProxyMetrics) (s : GwState) : GwState :=
  mkGwState (gs_ctx s) (gs_plan s) (gs_cache s) (gs_windows s) (gs_rates s) (f (gs_metrics s)) (gs_log s)
    (gs_written s) (gs_timeout s).
Definition upd_log (f : ProxyLog -> ProxyLog) (s : GwState) : GwState :=
  mkGwState (gs_ctx s) (gs_plan s) (gs_cache s) (gs_windows s) (gs_rates s) (gs_metrics s) (f (gs_log s))
    (gs_written s) (gs_timeout s).
Definition upd_written (w : option (Written H)) (s : GwState) : GwState :=
  mkGwState (gs_ctx s) (gs_plan s) (gs_cache s) (gs_windows s) (gs_rates s) (gs_metrics s) (gs_log s) w
    (gs_timeout s).
Definition upd_timeout (t : option N) (s : GwState) : GwState :=
  mkGwState (gs_ctx s) (gs_plan s) (gs_cache s) (gs_windows s) (gs_rates s) (gs_metrics s) (gs_log s)
    (gs_written s) (Some t).

(** A callback that may return early: [Done r] is [return r]. *)
Inductive flow (A : Type) : Type := Next (a : A) | Done (r : result PError bool).
Definition Flow (A : Type) : Type := GwState -> flow A * GwState.

#[export] Instance flow_ret : MRet Flow := fun _ a s => (Next _ a, s).
#[export] Instance flow_bind : MBind Flow := fun A B f m s =>
  match m s with
  | (Next _ a, s') => f a s'
  | (Done _ r, s') => (Done _ r, s')
  end.

Definition stop {A} (r : result PError bool) : Flow A := fun s => (Done _ r, s).
Definition get : Flow GwState := fun s => (Next _ s, s).
Definition modify (f : GwState -> GwState) : Flow unit := fun s => (Next _ tt, f s).
Definition when (b : bool) (m : Flow unit) : Flow unit := if b then m else mret tt.

(** [insert_header(..)?] on a refused header. *)
Definition header_error : PError := mkPError OtherError SrcUnset "invalid header".

(** Write a response and [return Ok(true)]: the header, and unless the stream ends
    with it the body.  A refused header or a failed write returns the error, and the body
    can fail when the header is out. *)
Definition respond (E : Env) {A} (end_of_stream : bool) (r : option (Response H)) : Flow A := fun s =>
  match r with
  | None => (Done _ (Err header_error), s)
  | Some resp =>
    let head := resp_head resp in
    match ev_send_header E head end_of_stream with
    | Some e => (Done _ (Err e), s)
    | None =>
      if end_of_stream then (Done _ (Ok true), upd_written (Some (mkWritten head (Some []))) s)
      else
        match ev_send_body E (resp_content resp) with
        | Some e => (Done _ (Err e), upd_written (Some (mkWritten head None)) s)
        | None => (Done _ (Ok true), upd_written (Some (mkWritten head (Some (resp_content resp)))) s)
        end
    end
  end.

(** ** What the session says *)

Definition request_host (req : RequestHeader H) : str :=
  match opt_filter (fun h => negb (is_empty h)) (trim <$> header req "host") with
  | Some host => split_first ":" host
  | None => default [] (uri_authority_host (rq_uri req))
  end.

Definition downstream_protocol_label (ses : Session H) : str := if s_http2 ses then bs "h2" else bs "http/1.1".

Definition server_name (ses : Session H) : str := bs "pertisk-proxy/" ++ downstream_protocol_label ses.

Definition secure_scheme (req : RequestHeader H) : bool :=
  match uri_scheme (rq_uri req) with
  | Some s => (s =s "https") || (s =s "wss")
  | None => false
  end.

Definition forwarded_https (req : RequestHeader H) : bool :=
  bool_decide (header req "x-forwarded-proto" = Some (bs "https")).

Definition is_downstream_tls (ses : Session H) : bool :=
  if s_ssl_digest ses then true
  else if s_http2 ses then true
  else secure_scheme (s_req ses) || forwarded_https (s_req ses).

Definition is_plain_http (ses : Session H) : bool :=
  if forwarded_https (s_req ses) then false else negb (secure_scheme (s_req ses)).

Definition socket_ip (ses : Session H) : option str :=
  show_ip <$> (match s_client_addr ses with Some a => Some a | None => s_digest_peer ses end ≫= as_inet).

Definition session_client_ip (ses : Session H) : option str :=
  resolve_client_ip (socket_ip ses) (header (s_req ses) "x-forwarded-for") (header (s_req ses) "x-real-ip").

(** ** [early_request_filter] *)

Definition early_request_filter (E : Env) (ses : Session H) (s : GwState) : result PError unit * GwState :=
  let s := upd_ctx (fun c => set_started c (ev_instant E)) s in
  let s := upd_metrics (inc active_connections) s in
  let req := s_req ses in
  let path := uri_path (rq_uri req) in
  let '(g, gw) := classify_grpc_request (rq_headers req) (rq_method req) path (request_host req) in
  let ws := is_websocket_upgrade (rq_method req) (rq_headers req) in
  let ll := if ws then true else is_long_lived_api_stream (rq_method req) path (rq_headers req) in
  let rg := is_oci_registry_path path in
  let old := cx_flags (gs_ctx s) in
  let s := if ll then upd_timeout (grpc_upstream_timeout (ev_env E)) s else s in
  let s := if rg then upd_timeout (registry_upstream_timeout (ev_env E)) s else s in
  let s := upd_ctx (fun c => set_flags c
             (if g then mkStreamFlags true gw ll ws rg
              else mkStreamFlags (is_grpc old) (is_grpc_web old) ll ws rg)) s in
  (Ok tt, s).

(** ** [request_filter], stage by stage *)

Definition filter_health (E : Env) (ses : Session H) : Flow unit :=
  let req := s_req ses in
  match health_response (ev_ingress E) (rq_method req) (uri_path (rq_uri req)) (server_name ses) with
  | Some r => respond E (rq_method req =s "HEAD") r
  | None => mret tt
  end.

(** The key authorization served for an HTTP-01 challenge path. *)
Definition http01_body (E : Env) (ses : Session H) : option str :=
  store ← ev_http01 E;
  token ← strip_prefix "/.well-known/acme-challenge/" (uri_path (rq_uri (s_req ses)));
  let token := trim_end_matches (is_byte "/") token in
  if is_empty token then None else http01_get token store.

Definition filter_http01 (E : Env) (ses : Session H) : Flow unit :=
  match http01_body E ses with
  | Some body =>
    respond E false (build 200 [(bs "Content-Type", bs "text/plain"); (bs "X-App-Name", app_name (ev_ingress E))] body)
  | None => mret tt
  end.

Definition filter_installer (E : Env) (ses : Session H) : Flow unit :=
  when (is_installer_host (ev_env E) (request_host (s_req ses)))
    (respond E false (installer_response (ev_ingress E) (ev_install_script E) (server_name ses))).

(** Plain HTTP with [auto_https]: deny, pass through without certificate, or redirect. *)
Definition filter_redirect (E : Env) (ses : Session H) : Flow unit :=
  when (ev_auto_https E && is_plain_http ses)
    (let req := s_req ses in
     let host := request_host req in
     let host := if is_empty host then bs "localhost" else host in
     if deny_enabled (ev_env E) && negb (is_empty host) && negb (host =s "localhost")
        && negb (has_host iter_routes (ev_table E) host) then
       respond E false (deny_response (ev_ingress E) false (server_name ses))
     else if negb (has_cert_for_host iter_hosts (ev_certs E) host) then stop (Ok false)
     else
       let port_suffix := if ev_https_port E =? 443 then [] else bs ":" ++ show_N (ev_https_port E) in
       let target := bs "https://" ++ host ++ port_suffix ++ path_and_query (rq_uri req) in
       respond E true (build 308 [(bs "Location", target); (bs "Content-Length", bs "0");
                             (bs "X-App-Name", app_name (ev_ingress E))] [])).

Definition filter_deny (E : Env) (ses : Session H) : Flow unit :=
  let host := request_host (s_req ses) in
  when (deny_enabled (ev_env E) && negb (is_empty host) && negb (has_host iter_routes (ev_table E) host))
    (respond E false (deny_response (ev_ingress E) (is_downstream_tls ses) (server_name ses))).

(** The plan's middleware becomes the context; no plan leaves it as it was. *)
Definition filter_plan (E : Env) (ses : Session H) : Flow unit := fun s =>
  let req := s_req ses in
  let '(r, ps) := resolve_forward iter_routes iter_edge iter_headers (ev_instant E) (ev_probe E) (ev_table E)
                    (request_host req) (path_and_query (rq_uri req)) (gs_plan s) in
  let s := upd_plan ps s in
  match r with
  | Ok plan => (Next _ tt, upd_ctx (fun c => reset_ctx c (plan_middleware plan)) s)
  | Err _ => (Next _ tt, s)
  end.

Definition client_or_dash (ses : Session H) : str := default (bs "-") (session_client_ip ses).

Definition too_many (E : Env) (ses : Session H) (msg : str) : option (Response H) :=
  html_response (ev_ingress E) (server_name ses) 429 "text/plain" msg [(bs "Retry-After", bs "1")].

Definition rps_key (ses : Session H) : str :=
  bs "rps|" ++ client_or_dash ses ++ bs "|" ++ request_host (s_req ses).

Definition filter_limits (E : Env) (ses : Session H) : Flow unit := fun s =>
  let edge := ma_edge (cx_action (gs_ctx s)) in
  let host := request_host (s_req ses) in
  if (0 <? x4xx_limit_rps edge)
     && x4xx_blocked (ev_secs E) (client_or_dash ses) host (x4xx_limit_rps edge) (gs_windows s) then
    respond E false (too_many E ses "too many errors") s
  else
    let '(limited, ws) :=
      if 0 <? rate_limit_rps edge then rate_limited (ev_secs E) (rps_key ses) (rate_limit_rps edge) (gs_windows s)
      else (false, gs_windows s) in
    let s := upd_windows ws s in
    if limited then respond E false (too_many E ses "too many requests") s
    else (Next _ tt, upd_ctx (fun c => set_rate c (session_client_ip ses) (Some host)) s).

Definition auth_ok (E : Env) (ses : Session H) (a : RouteAuth) : bool :=
  let req := s_req ses in
  let query := default [] (uri_query (rq_uri req)) in
  match a with
  | ForwardAuth url =>
    forward_auth_ok (ev_forward_auth E) url (request_host req) (uri_path (rq_uri req)) (header req)
  | other => auth_header_ok (ev_secs E) other (header req) query
  end.

Definition filter_auth (E : Env) (ses : Session H) : Flow unit := fun s =>
  match auth (ma_edge (cx_action (gs_ctx s))) with
  | None => (Next _ tt, s)
  | Some a =>
    if auth_ok E ses a then (Next _ tt, s)
    else
      let extra :=
        (bs "X-Pertisk-Block", bs "auth") ::
        match a with
        | Basic _ _ => [(bs "WWW-Authenticate", bs "Basic realm=" ++ [x22] ++ bs "pertisk" ++ [x22])]
        | _ => []
        end in
      respond E false (html_response (ev_ingress E) (server_name ses) 401 "text/plain" "unauthorized" extra) s
  end.

Definition filter_files (E : Env) (ses : Session H) : Flow unit := fun s =>
  match file_root (cx_action (gs_ctx s)) with
  | None => (Next _ tt, s)
  | Some root =>
    match (p ← safe_file root (uri_path (rq_uri (s_req ses))); body ← ev_read_file E p; Some (p, body)) with
    | Some (p, body) =>
      respond E false (build 200 [(bs "Content-Type", guess_mime p); (bs "Content-Length", nat_str (length body));
                            (bs "Server", server_name ses); (bs "X-App-Name", app_name (ev_ingress E))] body) s
    | None => respond E false (html_response (ev_ingress E) (server_name ses) 404 "text/plain" "not found" []) s
    end
  end.

Definition cache_request_key (ses : Session H) : str :=
  bs "GET " ++ request_host (s_req ses) ++ path_and_query (rq_uri (s_req ses)).

Definition may_cache (E : Env) (ses : Session H) (f : StreamFlags) (a : MiddlewareAction) : bool :=
  negb (is_grpc f) && negb (is_websocket f) && negb (is_long_lived_stream f) && (rq_method (s_req ses) =s "GET")
  && negb (is_some (auth (ma_edge a))) && cache_enabled (globals (ev_table E)) (ma_edge a).

Definition hit_response (E : Env) (hit : CachedResponse) : option (Response H) :=
  let status := if (100 <=? resp_status hit) && (resp_status hit <=? 999) then resp_status hit else 200 in
  h ← insert_all [(bs "X-Cache", bs "HIT"); (bs "X-App-Name", app_name (ev_ingress E))]
        (insert_all_ok (resp_headers hit) h_empty);
  Some (mkResponse (mkResponseHeader status h) (resp_body hit)).

Definition filter_cache (E : Env) (ses : Session H) : Flow unit := fun s =>
  if negb (may_cache E ses (cx_flags (gs_ctx s)) (cx_action (gs_ctx s))) then (Next _ tt, s)
  else
    let '(hit, c) := cache_get (ev_instant E) (cache_request_key ses) (gs_cache s) in
    let s := upd_cache c s in
    match hit with
    | Some hit => respond E false (hit_response E hit) s
    | None =>
      (Next _ tt, upd_ctx (fun cx =>
         let k := cx_cache cx in
         set_cache cx (mkCacheCtx (cache_body k) (cache_status k) true (Some (cache_request_key ses)) (cache_type k))) s)
    end.

Definition filter_geoip (E : Env) (ses : Session H) : Flow unit := fun s =>
  let p := ma_geoip (cx_action (gs_ctx s)) in
  let block (reason : str) :=
    let s := upd_metrics (inc geoip_blocked_total) s in
    let entry := log_error_with_context (ev_instant E) (request_host (s_req ses)) (uri_path (rq_uri (s_req ses)))
                   (client_or_dash ses) (bs "GeoIP blocked (" ++ reason ++ bs ")") in
    respond E false (forbidden_response (ev_ingress E) (server_name ses) reason)
      (upd_log (push_sync (ev_min_level E) entry) s) in
  if negb (geo_is_active p) then (Next _ tt, s)
  else
    match evaluate_ip (ev_geo E) p (session_client_ip ses) with
    | Allow => (Next _ tt, s)
    | BlockCountry => block "geoip-country"
    | BlockAsn => block "geoip-asn"
    end.

Definition page (E : Env) (next reason : str) : str * str :=
  challenge_page (ev_secret E) (ev_draws E).1 (ev_draws E).2 (ev_secs E) next reason.

Definition filter_captcha (E : Env) (ses : Session H) : Flow unit := fun s =>
  let req := s_req ses in
  let path := uri_path (rq_uri req) in
  let query := default [] (uri_query (rq_uri req)) in
  let pol := captcha (ma_security (cx_action (gs_ctx s))) in
  if negb (is_captcha_path path) then (Next _ tt, s)
  else
    let ttl := if captcha_enabled pol then cookie_ttl_secs pol else 86400 in
    if path =s CAPTCHA_VERIFY_PATH then
      let next := gw_query_param query "next" in
      match verify_and_pass_cookie (ev_secret E) (ev_secs E) (gw_query_param query "token")
              (gw_query_param query "answer") next (session_client_ip ses) ttl with
      | Ok (set_cookie, location) =>
        respond E true (redirect_response (ev_ingress E) (server_name ses) location (Some set_cookie))
          (upd_metrics (inc captcha_passed_total) s)
      | Err _ =>
        let '(body, ctype) := page E (default (bs "/") next) "retry" in
        respond E false (html_response (ev_ingress E) (server_name ses) 403 ctype body
                     [(bs "X-Pertisk-Block", bs "captcha-failed")])
          (upd_metrics (inc captcha_failed_total) s)
      end
    else
      let '(body, ctype) := page E (default (bs "/") (gw_query_param query "next")) "check" in
      respond E false (html_response (ev_ingress E) (server_name ses) 200 ctype body []) s.

Definition request_view (ses : Session H) : RequestView :=
  let req := s_req ses in
  mkRequestView (rq_method req) (uri_path (rq_uri req)) (default [] (uri_query (rq_uri req)))
    (header req "user-agent") (header req "accept") (header req "accept-language") (header req "cookie")
    (session_client_ip ses).

Definition filter_security (E : Env) (ses : Session H) : Flow unit := fun s =>
  let p := ma_security (cx_action (gs_ctx s)) in
  if negb (security_is_active p) then (Next _ tt, s)
  else
    let view := request_view ses in
    let '(d, rates) := evaluate (ev_secret E) (ev_secs E) (ev_instant E) (gs_rates s) p view in
    let s := upd_rates rates s in
    match sec_action d with
    | SecAllow => (Next _ tt, s)
    | SecLog => (Next _ tt, upd_metrics (inc waf_logged_total) s)
    | SecChallenge =>
      let s := if starts_with "bot" (sec_reason d) then upd_metrics (inc bot_challenged_total) s else s in
      let next := if is_empty (rv_query view) then rv_path view else rv_path view ++ bs "?" ++ rv_query view in
      let '(body, ctype) := page E next (sec_reason d) in
      respond E false (html_response (ev_ingress E) (server_name ses) 403 ctype body [(bs "X-Pertisk-Block", sec_reason d)]) s
    | SecBlock =>
      let s := if starts_with "waf" (sec_reason d) then upd_metrics (inc waf_blocked_total) s
               else if starts_with "bot" (sec_reason d) then upd_metrics (inc bot_blocked_total) s else s in
      respond E false (forbidden_response (ev_ingress E) (server_name ses) (sec_reason d)) s
    end.

Definition filter_grpc (E : Env) (ses : Session H) : Flow unit := fun s =>
  let f := cx_flags (gs_ctx s) in
  if negb (is_grpc f) then (Next _ tt, s)
  else
    match validate_downstream (s_req ses) (s_http2 ses) (is_grpc_web f) with
    | Ok _ => (Next _ tt, s)
    | Err msg => respond E true (build 200 (grpc_error_headers 2 msg (is_grpc_web f)) []) s
    end.

(** The stages from the plan on: what a request for a served host goes through. *)
Definition policy_stages (E : Env) (ses : Session H) : Flow unit :=
  filter_plan E ses ≫= fun _ =>
  filter_limits E ses ≫= fun _ =>
  filter_auth E ses ≫= fun _ =>
  filter_files E ses ≫= fun _ =>
  filter_cache E ses ≫= fun _ =>
  filter_geoip E ses ≫= fun _ =>
  filter_captcha E ses ≫= fun _ =>
  filter_security E ses ≫= fun _ =>
  filter_grpc E ses.

(** The stages before the plan. *)
Definition entry_stages (E : Env) (ses : Session H) : Flow unit :=
  filter_health E ses ≫= fun _ =>
  filter_http01 E ses ≫= fun _ =>
  filter_installer E ses ≫= fun _ =>
  filter_redirect E ses ≫= fun _ =>
  filter_deny E ses.

(** [Ok true]: answered here; [Ok false]: go on to the upstream. *)
Definition request_filter (E : Env) (ses : Session H) (s : GwState) : result PError bool * GwState :=
  match (entry_stages E ses ≫= fun _ => policy_stages E ses) s with
  | (Next _ _, s) => (Ok false, s)
  | (Done _ r, s) => (r, s)
  end.

(** ** [upstream_peer] *)

Definition upstream_peer (E : Env) (ses : Session H) (s : GwState) : result PError HttpPeer * GwState :=
  let req := s_req ses in
  let host := request_host req in
  let '(r, ps) := resolve_forward iter_routes iter_edge iter_headers (ev_instant E) (ev_probe E) (ev_table E) host
                    (path_and_query (rq_uri req)) (gs_plan s) in
  let s := upd_plan ps s in
  match r with
  | Err e => (Err (forward_error e), s)
  | Ok plan =>
    let a := cx_action (gs_ctx s) in
    let s :=
      if negb (is_some (strip_prefix_action a)) && is_empty (request_headers a) && is_empty (response_headers a)
      then upd_ctx (fun c => reset_ctx c (plan_middleware plan)) s else s in
    let peer := configure_upstream_peer (ev_env E) (ev_peer_defaults E) (peer_host plan) (peer_port plan) host
                  (plan_use_tls plan) (gs_ctx s) in
    (Ok peer, upd_ctx (fun c => set_upstream c (Some (host_port (peer_host plan) (peer_port plan)))) s)
  end.

(** ** [upstream_request_filter] *)

Definition inject_forwarded_client_ip (h : H) (client_ip : str) : H :=
  insert_all_ok (forwarded_client_ip_header_pairs client_ip (hget h "x-forwarded-for")) h.

Definition forwarded_headers (ses : Session H) (registry : bool) (h : H) : H :=
  let host := request_host (s_req ses) in
  let h := if is_empty host then h else insert_ok "Host" host h in
  let h := if negb registry && is_downstream_tls ses then
             insert_ok "X-Forwarded-Host" host (insert_ok "X-Forwarded-Proto" "https" h) else h in
  if negb registry then
    match session_client_ip ses with
    | Some ip => inject_forwarded_client_ip h ip
    | None => h
    end
  else h.

(** The strip-prefix branch: the new path-and-query is the stripped path alone. *)
Definition strip_upstream_prefix (prefix : str) (up : RequestHeader H) : result PError (RequestHeader H) :=
  let u := rq_uri up in
  match strip_prefix prefix (uri_path u) with
  | None => Ok up
  | Some stripped =>
    match pq_parse (if is_empty stripped then bs "/" else stripped) with
    | None => Err (internal_error "invalid stripped path")
    | Some d =>
      match from_parts (mkUri (uri_scheme u) (uri_authority_host u) (Some d)) with
      | None => Err (internal_error "failed to rebuild uri")
      | Some u' => Ok (set_uri up u')
      end
    end
  end.

Definition registry_upstream (ses : Session H) (up : RequestHeader H) : RequestHeader H :=
  if is_oci_registry_path (uri_path (rq_uri up)) then
    let up := normalize_registry_token_request up in
    map_headers (fun h => prepare_registry_upstream_request h (rq_method up) (uri_path (rq_uri up))
                            (request_host (s_req ses)) (show_ip <$> (s_client_addr ses ≫= as_inet))
                            (is_downstream_tls ses)) up
  else up.

Definition upstream_request_filter (ses : Session H) (up : RequestHeader H) (c : RequestCtx)
    : result PError (RequestHeader H) :=
  let f := cx_flags c in
  let up := map_headers (forwarded_headers ses (is_registry f)) up in
  up ← match strip_prefix_action (cx_action c) with
       | Some prefix => if is_grpc_web f then Ok up else strip_upstream_prefix prefix up
       | None => Ok up
       end;
  let up := map_headers (insert_all_ok (request_headers (cx_action c))) up in
  let up := map_headers merge_cookie_headers up in
  let up := registry_upstream ses up in
  let up := if is_grpc f || is_long_lived_stream f then map_headers prepare_upstream_streaming_request up else up in
  if is_grpc f then
    up ← (if negb (is_grpc_web f) then rewrite_upstream_grpc_path up else Ok up);
    Ok (map_headers (fun h => prepare_upstream_request h (is_grpc_web f)) up)
  else Ok up.

(** ** The response callbacks *)

Definition is_sse_response (h : H) : bool := header_is (starts_with "text/event-stream") h "content-type".

Definition upstream_response_filter (E : Env) (ses : Session H) (rs : ResponseHeader H) (s : GwState)
    : ResponseHeader H * GwState :=
  let host := request_host (s_req ses) in
  let h := insert_ok "Server" (server_name ses) (rs_headers rs) in
  let h := insert_ok "X-App-Name" (app_name (ev_ingress E)) h in
  let s := if is_sse_response h then upd_ctx set_long_lived s else s in
  let h :=
    if is_oci_registry_path (uri_path (rq_uri (s_req ses))) then
      prepare_registry_response_headers h (is_downstream_tls ses)
    else
      match alt_svc_header_value (ev_enable_h3 E) (ev_h3_port E) host (gs_ctx s) with
      | Some v => insert_ok "Alt-Svc" v h
      | None => if is_downstream_tls ses then insert_ok "Alt-Svc" "clear" h else h
      end in
  let h := insert_all_ok (response_headers (cx_action (gs_ctx s))) h in
  (mkResponseHeader (rs_status rs) h, s).

(** Whether the collected response may be stored: 2xx, neither no-store nor private. *)
Definition cacheable (status : N) (h : H) : bool :=
  (200 <=? status) && (status <? 300) &&
  from_option (fun v => let v := to_ascii_lowercase v in negb (contains "no-store" v) && negb (contains "private" v))
    true (hget h "cache-control").

Definition response_filter (E : Env) (ses : Session H) (rs : ResponseHeader H) (s : GwState)
    : ResponseHeader H * GwState :=
  let path := uri_path (rq_uri (s_req ses)) in
  let status := rs_status rs in
  let s := if is_sse_response (rs_headers rs) then upd_ctx set_long_lived s else s in
  let f := cx_flags (gs_ctx s) in
  let streaming := is_long_lived_stream f || (is_grpc f && is_grpc_server_streaming path) in
  let rs :=
    if is_websocket f || (status =? 101) then rs
    else if streaming && ((200 <=? status) && (status <? 300)) then
      map_rs_headers prepare_streaming_response_headers rs
    else if is_grpc f || is_long_lived_stream f || s_http2 ses then
      map_rs_headers strip_hop_by_hop_response_headers rs
    else rs in
  let s := upd_ctx (fun c =>
    let k := cx_cache c in
    let ok := cacheable status (rs_headers rs) in
    set_cache c
      (if cache_collect k then
         mkCacheCtx (cache_body k) status ok (cache_key k)
           (if ok then default (bs "application/octet-stream") (hget (rs_headers rs) "content-type") else cache_type k)
       else mkCacheCtx (cache_body k) status false (cache_key k) (cache_type k))) s in
  let s :=
    if (400 <=? status) && (status <? 500) then
      match rate_client (gs_ctx s), rate_host (gs_ctx s) with
      | Some ip, Some host => upd_windows (note_4xx (ev_secs E) ip host (gs_windows s)) s
      | _, _ => s
      end
    else s in
  (rs, s).

Definition MAX_CACHED_BODY : N := 1024 * 1024.

Definition response_body_filter (E : Env) (body : option str) (end_of_stream : bool) (s : GwState) : GwState :=
  if negb (cache_collect (cx_cache (gs_ctx s))) then s
  else
    let k := cx_cache (gs_ctx s) in
    let k :=
      match body with
      | Some chunk =>
        if N.of_nat (length (cache_body k)) + N.of_nat (length chunk) <=? MAX_CACHED_BODY then
          mkCacheCtx (cache_body k ++ chunk) (cache_status k) true (cache_key k) (cache_type k)
        else mkCacheCtx [] (cache_status k) false (cache_key k) (cache_type k)
      | None => k
      end in
    let s := upd_ctx (fun c => set_cache c k) s in
    if end_of_stream && cache_collect k then
      match cache_key k with
      | Some key =>
        let g := globals (ev_table E) in
        let resp := mkCachedResponse (cache_status k)
                      [(bs "content-type", cache_type k); (bs "content-length", nat_str (length (cache_body k)))]
                      (cache_body k) in
        let s := upd_cache (cache_put pick_victim (ev_instant E) key resp (secs (N.max (cache_ttl_secs g) 1))
                              (saturating_mul u64_max (cache_size_mb g) (1024 * 1024)) (gs_cache s)) s in
        upd_ctx (fun c => set_cache c (mkCacheCtx [] (cache_status k) (cache_collect k) (cache_key k) (cache_type k))) s
      | None => s
      end
    else s.

(** ** [logging] and [fail_to_proxy] *)

Definition content_length (h : H) : option N := v ← hget h "content-length"; parse_u64 v.

Definition record_request_metrics (ses : Session H) (c : RequestCtx) (host : str) (upstream_error : bool)
    (written : option (Written H)) (m : ProxyMetrics) : ProxyMetrics :=
  if is_empty host then m
  else
    let m :=
      if is_downstream_tls ses then
        let m := inc https_requests_total m in
        if s_http2 ses then inc_site_protocol_requests to_lowercase host HTTP_2 (inc h2_requests_total m) else m
      else inc http_requests_total m in
    let m := if is_grpc (cx_flags c) then inc grpc_requests_total m else m in
    let m := if upstream_error then inc upstream_errors_total m else m in
    let m := from_option (fun len => add_bytes bytes_received_total len m) m (content_length (rq_headers (s_req ses))) in
    from_option (fun len => add_bytes bytes_sent_total len m) m
      (r ← written; content_length (rs_headers (wr_head r))).

Definition suppress_error_log (e : PError) : bool := is_benign_downstream_disconnect e.

(** [ev_instant E] is the time of the callback; the elapsed time is truncated to milliseconds. *)
Definition logging (E : Env) (ses : Session H) (e : option PError) (s : GwState) : GwState :=
  let req := s_req ses in
  let host := request_host req in
  let upstream_error := from_option (fun e => bool_decide (esource e = SrcUpstream)) false e in
  let s := upd_metrics (record_request_metrics ses (gs_ctx s) host upstream_error (gs_written s)) s in
  let s := if metrics_counted (gs_ctx s) then upd_ctx set_uncounted (upd_metrics dec_active_connections s) else s in
  if negb (ev_proxy_log_enabled E) then s
  else if is_empty host then s
  else
    let path := path_and_query (rq_uri req) in
    let upstream := default (bs "-") (log_upstream (gs_ctx s)) in
    match e with
    | Some err =>
      if suppress_error_log err then s
      else upd_log (push_sync (ev_min_level E)
             (log_error_with_context (ev_instant E) host path upstream (edisplay err))) s
    | None =>
      let duration_ms := from_option (fun t => (ev_instant E - t) / 1000000 mod u64_size) 0 (log_started (gs_ctx s)) in
      let status := from_option (fun r => rs_status (wr_head r)) 0 (gs_written s) in
      let encoding := r ← gs_written s; hget (rs_headers (wr_head r)) "content-encoding" in
      upd_log (push_sync (ev_min_level E)
        (log_response (ev_instant E) host path upstream status duration_ms
           (Some (protocol_short (downstream_protocol_label ses))) encoding (Some (rq_method req)))) s
    end.

(** The error code sent to the client; 0 sends nothing. *)
Definition error_code (e : PError) : N :=
  match etype e with
  | HTTPStatus code => code
  | t =>
    match esource e with
    | SrcUpstream => 502
    | SrcDownstream => match t with WriteError | ReadError | ConnectionClosed => 0 | _ => 400 end
    | SrcInternal | SrcUnset => 500
    end
  end.

Definition fail_to_proxy (E : Env) (e : PError) (s : GwState) : N * GwState :=
  let f := cx_flags (gs_ctx s) in
  if (is_grpc f || is_long_lived_stream f) && is_benign_downstream_disconnect e then (0, s)
  else
    let code := error_code e in
    (code, if 0 <? code then upd_written (ev_respond_error E code (gs_written s)) s else s).

End gateway.
Arguments Env H : clear implicits.
Arguments GwState H : clear implicits.
Arguments Flow H A : clear implicits.
Arguments flow A : clear implicits.
Arguments Next {A} _.
Arguments Done {A} _.
