(* ===== verification/GatewayProps.v ===== *)
(** * What the gateway's callbacks guarantee

    Theorems about the definitions of [Gateway]: which requests are forwarded,
    that a request is answered at most once, what is cached, what the upstream is told. *)

From S2P Require Import Prelude RustStr Ip GeoIp Waf Bot Captcha Security Edge EdgeAuth ProxyConfig Router Forward.
From S2P Require Import Http Grpc Registry Respond Telemetry CertStore Gateway.

Section gateway_lemmas.
Context `{HM : HeaderMap H} `{MV : MacVerify} `{UP : UriParser}.
Variable iter_routes : gmap str (list Route) -> list (str * list Route).
Variable iter_edge : gmap str (gmap str EdgePolicy) -> list (str * gmap str EdgePolicy).
Variable iter_headers : gmap str str -> list (str * str).
Variable iter_hosts : gmap str StoredCert -> list (str * StoredCert).
Variable pick_victim : gmap str CacheEntry -> option str.
Variable to_lowercase : str -> str.

Abbreviation handle := (request_filter iter_routes iter_edge iter_headers iter_hosts).
Abbreviation plan_of E ses s :=
  (resolve_forward iter_routes iter_edge iter_headers (ev_instant E) (ev_probe E) (ev_table E)
     (request_host (s_req ses)) (path_and_query (rq_uri (s_req ses))) (gs_plan s)).1.

Implicit Types (E : Env H) (ses : Session H) (s : GwState H).

(** ** Composition of stages *)

(** [m] goes on from [s] to [s']. *)
Definition goes_on (m : Flow H unit) (s s' : GwState H) : Prop := m s = (Next tt, s').

Lemma bind_run (m : Flow H unit) (f : unit -> Flow H unit) s :
  (m ≫= f) s = match m s with (Next a, s') => f a s' | (Done r, s') => (Done r, s') end.
Proof. done. Qed.

Lemma goes_on_bind (m : Flow H unit) (f : unit -> Flow H unit) s s' :
  goes_on (m ≫= f) s s' <-> exists s1, goes_on m s s1 /\ goes_on (f tt) s1 s'.
Proof.
  unfold goes_on, mbind, flow_bind. split.
  - destruct (m s) as [[[]|r] s1]; [|done]. intros Hf. by exists s1.
  - intros (s1 & -> & Hf). done.
Qed.

(** A property of results that every stage has, and sequences inherit: [P s s']
    relates states across [Next], [Q s r s'] across a [return]. *)
Record stage_ok (P : GwState H -> GwState H -> Prop) (Q : GwState H -> result PError bool -> GwState H -> Prop)
    (m : Flow H unit) : Prop := {
  stage_next : forall s s', m s = (Next tt, s') -> P s s';
  stage_done : forall s r s', m s = (Done r, s') -> Q s r s';
}.

Lemma stage_ok_bind P Q (m : Flow H unit) (f : unit -> Flow H unit) :
  Transitive P -> (forall s1 s2 r s3, P s1 s2 -> Q s2 r s3 -> Q s1 r s3) ->
  stage_ok P Q m -> stage_ok P Q (f tt) -> stage_ok P Q (m ≫= f).
Proof.
  intros HT HQ [Hn Hd] [Hn' Hd']. split; unfold mbind, flow_bind.
  - intros s s'. destruct (m s) as [[[]|r] s1] eqn:E; [|done]. intros E'. etrans; [by apply Hn|by apply Hn'].
  - intros s r s'. destruct (m s) as [[[]|r'] s1] eqn:E; [|].
    + intros E'. eapply HQ; [by apply Hn|by apply Hd'].
    + intros [= <- <-]. by apply Hd.
Qed.

(** ** What every stage but planning preserves *)

Definition active (s : GwState H) : N := counters (gs_metrics s) active_connections.

Record frame (s s' : GwState H) : Prop := {
  frame_written : gs_written s' = gs_written s;
  frame_active : active s' = active s;
  frame_action : cx_action (gs_ctx s') = cx_action (gs_ctx s);
  frame_flags : cx_flags (gs_ctx s') = cx_flags (gs_ctx s);
  frame_counted : metrics_counted (gs_ctx s') = metrics_counted (gs_ctx s);
}.

(** What is out, against the result: on [Ok true] a whole response, on [Ok false] nothing
    new, and after an error nothing new or a header whose body could not be written. *)
Definition answer_recorded (s : GwState H) (res : result PError bool * GwState H) : Prop :=
  match res with
  | (Ok true, s') => exists head content, gs_written s' = Some (mkWritten head (Some content))
  | (Ok false, s') => gs_written s' = gs_written s
  | (Err _, s') => gs_written s' = gs_written s \/ exists head, gs_written s' = Some (mkWritten head None)
  end.

(** A return. *)
Record returned (s : GwState H) (r : result PError bool) (s' : GwState H) : Prop := {
  returned_written : answer_recorded s (r, s');
  returned_active : active s' = active s;
  returned_counted : metrics_counted (gs_ctx s') = metrics_counted (gs_ctx s);
}.

Abbreviation stage := (stage_ok frame returned).

Lemma frame_refl s : frame s s.
Proof. by split. Qed.

Lemma frame_trans : Transitive frame.
Proof. intros s1 s2 s3 [] []. split; congruence. Qed.

Lemma stage_bind (m : Flow H unit) f : stage m -> stage (f tt) -> stage (m ≫= f).
Proof.
  apply stage_ok_bind; [apply frame_trans|].
  intros s1 s2 r s3 [Hw Ha _ _ Hm] [Hr Ha' Hm']. split; [|congruence..]. clear Ha Hm Ha' Hm'. unfold answer_recorded in *. rewrite Hw in Hr. by destruct r as [[]|].
Qed.

(** How a response ends: written whole, or an error with what is out by then. *)
Lemma respond_case E b r s :
  (exists head content, respond E (A := unit) b r s = (Done (Ok true), upd_written (Some (mkWritten head (Some content))) s)) \/
  (exists e, respond E (A := unit) b r s = (Done (Err e), s)) \/
  (exists e head, respond E (A := unit) b r s = (Done (Err e), upd_written (Some (mkWritten head None)) s)).
Proof.
  unfold respond. destruct r as [resp|]; [|eauto]. destruct (ev_send_header _ _ _); [eauto|]. destruct b; [eauto|].
  destruct (ev_send_body _ _); eauto.
Qed.

Ltac responds E b r s := let H1 := fresh in
  destruct (respond_case E b r s) as [(? & ? & H1)|[(? & H1)|(? & ? & H1)]]; rewrite H1; clear H1.

Lemma respond_next E b r s s' : respond E (A := unit) b r s <> (Next tt, s').
Proof. by responds E b r s. Qed.

Lemma respond_done E b r s0 s : frame s s0 ->
  exists q s', respond E (A := unit) b r s0 = (Done q, s') /\ returned s q s' /\ q <> Ok false.
Proof.
  intros [Hw Ha _ _ Hm]. responds E b r s0; eexists _, _; (split_and!; [reflexivity| |done]);
    (split; [cbn [answer_recorded gs_written upd_written]; eauto|done|done]).
Qed.

Lemma stage_respond E b r : stage (respond E b r).
Proof.
  split; intros s; destruct (respond_done E b r s s (frame_refl s)) as (q' & s1 & -> & Hr & _); [done|].
  by intros q s' [= <- <-].
Qed.

Lemma stage_ret : stage (mret tt).
Proof. split; [intros s s' [= <-]; apply frame_refl|done]. Qed.

Lemma stage_when b m : stage m -> stage (when b m).
Proof. destruct b; [done|intros _; apply stage_ret]. Qed.

(** The stages after planning go on in a framed state or respond from one, so
    they never return [Ok false] themselves. *)
Definition answering (m : Flow H unit) : Prop :=
  forall s, (exists s', m s = (Next tt, s') /\ frame s s') \/
            (exists E b r s', m s = respond E b r s' /\ frame s s').

Lemma answering_bind (m : Flow H unit) f : answering m -> answering (f tt) -> answering (m ≫= f).
Proof.
  intros Hm Hf s. unfold mbind, flow_bind. destruct (Hm s) as [(s1 & -> & F1)|(E & b & r & s1 & E1 & F1)].
  - destruct (Hf s1) as [(s2 & -> & F2)|(E & b & r & s2 & E2 & F2)].
    + left. exists s2. split; [done|by eapply frame_trans].
    + right. exists E, b, r, s2. split; [done|by eapply frame_trans].
  - right. exists E, b, r, s1. split; [|done]. rewrite E1. by destruct (respond_done E b r s1 s1 (frame_refl s1)) as (? & ? & -> & _).
Qed.

Lemma answering_result (m : Flow H unit) s : answering m ->
  match m s with
  | (Next _, s') => frame s s'
  | (Done r, s') => returned s r s' /\ r <> Ok false
  end.
Proof.
  intros Hm. destruct (Hm s) as [(s1 & -> & F1)|(E & b & r & s1 & -> & F1)]; [done|].
  by destruct (respond_done E b r s1 s F1) as (q & s2 & -> & Hq).
Qed.

Lemma answering_next (m : Flow H unit) s s' : answering m -> goes_on m s s' -> frame s s'.
Proof. intros Hm Hgo. pose proof (answering_result m s Hm) as Hr. by rewrite Hgo in Hr. Qed.

Ltac on := left; eexists; split; [reflexivity|by split].
Ltac out := right; do 4 eexists; split; [reflexivity|by split].

Lemma stage_health E ses : stage (filter_health E ses).
Proof.
  unfold filter_health. destruct (health_response _ _ _ _) as [r|]; [apply stage_respond|apply stage_ret].
Qed.

Lemma stage_http01 E ses : stage (filter_http01 E ses).
Proof. unfold filter_http01. destruct (http01_body E ses) as [body|]; [apply stage_respond|apply stage_ret]. Qed.

Lemma stage_installer E ses : stage (filter_installer E ses).
Proof. apply stage_when, stage_respond. Qed.

Lemma stage_redirect E ses : stage (filter_redirect iter_routes iter_hosts E ses).
Proof.
  apply stage_when. cbn zeta. destruct (deny_enabled _ && _ && _ && _); [apply stage_respond|].
  destruct (has_cert_for_host _ _ _); cbn [negb]; [apply stage_respond|].
  split; [done|]. intros s r s' [= <- <-]. by split.
Qed.

Lemma stage_deny E ses : stage (filter_deny iter_routes E ses).
Proof. apply stage_when, stage_respond. Qed.

Lemma answering_limits E ses : answering (filter_limits E ses).
Proof.
  intros s. unfold filter_limits. case_if; [out|].
  destruct (if _ <? _ then _ else _) as [limited ws]. destruct limited; [out|on].
Qed.

Lemma answering_auth E ses : answering (filter_auth E ses).
Proof.
  intros s. unfold filter_auth. destruct (auth _) as [a|]; [|on].
  destruct (auth_ok E ses a); [on|out].
Qed.

Lemma answering_files E ses : answering (filter_files E ses).
Proof.
  intros s. unfold filter_files. destruct (file_root _) as [root|]; [|on].
  destruct (_ ≫= _) as [[p body]|]; out.
Qed.

Lemma answering_cache E ses : answering (filter_cache E ses).
Proof.
  intros s. unfold filter_cache. case_if; [on|].
  destruct (cache_get _ _ _) as [[hit|] c]; [out|on].
Qed.

Lemma inc_other_active c m : c <> active_connections ->
  counters (inc c m) active_connections = counters m active_connections.
Proof. intros Hc. unfold inc. rewrite counters_fetch_add. by rewrite decide_False by congruence. Qed.

Ltac counted := split; try done; unfold active; cbn [gs_metrics upd_metrics upd_log upd_rates];
  by rewrite ?inc_other_active.

Lemma answering_geoip E ses : answering (filter_geoip E ses).
Proof.
  intros s. unfold filter_geoip. cbn zeta. case_if; [on|].
  destruct (evaluate_ip _ _ _); [on| |]; right; do 4 eexists; (split; [reflexivity|counted]).
Qed.

Lemma answering_captcha E ses : answering (filter_captcha E ses).
Proof.
  intros s. unfold filter_captcha. cbn zeta. case_if; [on|].
  case_if.
  - destruct (verify_and_pass_cookie _ _ _ _ _ _ _) as [[cookie loc]|].
    + right; do 4 eexists; (split; [reflexivity|counted]).
    + destruct (page _ _ _). right; do 4 eexists; (split; [reflexivity|counted]).
  - destruct (page _ _ _). out.
Qed.

Lemma answering_security E ses : answering (filter_security E ses).
Proof.
  intros s. unfold filter_security. cbn zeta. case_if; [on|].
  destruct (evaluate _ _ _ _ _ _) as [d rates]. destruct (sec_action d).
  - on.
  - left. eexists. split; [reflexivity|counted].
  - destruct (page _ _ _). right; do 4 eexists; split; [reflexivity|]. case_if; counted.
  - right; do 4 eexists; split; [reflexivity|]. case_if; [counted|]. case_if; counted.
Qed.

Lemma answering_grpc E ses : answering (filter_grpc E ses).
Proof.
  intros s. unfold filter_grpc. cbn zeta. case_if; [on|].
  destruct (validate_downstream _ _ _); [on|out].
Qed.

(** ** The stages before planning *)

(** No local answer: not a probe, an ACME challenge or the installer host. *)
Definition not_local E ses : Prop :=
  health_response (H := H) (ev_ingress E) (rq_method (s_req ses)) (uri_path (rq_uri (s_req ses))) (server_name ses) = None /\
  http01_body E ses = None /\ is_installer_host (ev_env E) (request_host (s_req ses)) = false.

Definition upgrades E ses : bool := ev_auto_https E && is_plain_http ses.

Definition unknown_host E ses : bool :=
  let host := request_host (s_req ses) in
  deny_enabled (ev_env E) && negb (is_empty host) && negb (has_host iter_routes (ev_table E) host).

(** The request is subject to its route's policies. *)
Definition reaches_policies E ses : Prop :=
  not_local E ses /\ upgrades E ses = false /\ unknown_host E ses = false.

(** Plain HTTP under [auto_https] for a host without certificate. *)
Definition plain_bypass E ses : Prop :=
  let host := request_host (s_req ses) in
  let host := if is_empty host then bs "localhost" else host in
  not_local E ses /\ upgrades E ses = true /\
  deny_enabled (ev_env E) && negb (is_empty host) && negb (host =s "localhost")
    && negb (has_host iter_routes (ev_table E) host) = false /\
  has_cert_for_host iter_hosts (ev_certs E) host = false.

Lemma entry_spec E ses s :
  match entry_stages iter_routes iter_hosts E ses s with
  | (Next _, s') => s' = s /\ reaches_policies E ses
  | (Done (Ok false), s') => s' = s /\ plain_bypass E ses
  | (Done _, _) => ~ reaches_policies E ses /\ ~ plain_bypass E ses
  end.
Proof.
  unfold entry_stages, mbind, flow_bind, reaches_policies, plain_bypass, not_local.
  unfold filter_health. destruct (health_response _ _ _ _) as [r|].
  { match goal with |- context [respond E ?b r s] => responds E b r s end; (split; [by intros [[]] |by intros [[]]]). }
  unfold filter_http01. cbn [mret flow_ret]. destruct (http01_body E ses) as [body|].
  { match goal with |- context [respond E ?b ?r s] => responds E b r s end;
      (split; [by intros [(_ & ? & _) _]|by intros [(_ & ? & _) _]]). }
  unfold filter_installer. cbn [mret flow_ret]. destruct (is_installer_host _ _); cbn [when].
  { match goal with |- context [respond E ?b ?r s] => responds E b r s end;
      (split; [by intros [(_ & _ & ?) _]|by intros [(_ & _ & ?) _]]). }
  unfold filter_redirect. cbn [mret flow_ret]. fold (upgrades E ses).
  destruct (upgrades E ses); cbn [when].
  - cbn zeta. set (host := if is_empty _ then _ else _).
    destruct (deny_enabled _ && _ && _ && _).
    { match goal with |- context [respond E ?b ?r s] => responds E b r s end; (split; intros Hx; decompose [and] Hx; congruence). }
    destruct (has_cert_for_host _ _ _); cbn [negb].
    { match goal with |- context [respond E ?b ?r s] => responds E b r s end; (split; intros Hx; decompose [and] Hx; congruence). }
    cbn [stop]. done.
  - cbn [mret flow_ret]. unfold filter_deny. cbn zeta. fold (unknown_host E ses).
    destruct (unknown_host E ses); cbn [when].
    { match goal with |- context [respond E ?b ?r s] => responds E b r s end; (split; intros Hx; decompose [and] Hx; congruence). }
    cbn [mret flow_ret]. done.
Qed.

Lemma stage_entry E ses : stage (entry_stages iter_routes iter_hosts E ses).
Proof.
  apply stage_bind; [apply stage_health|]. apply stage_bind; [apply stage_http01|].
  apply stage_bind; [apply stage_installer|]. apply stage_bind; [apply stage_redirect|apply stage_deny].
Qed.

(** ** The policy stages: when each goes on, and to which state *)

(** What the request must satisfy under the action [a] and the traffic flags [f]. *)
Record passes E ses s (a : MiddlewareAction) (f : StreamFlags) : Prop := {
  pass_4xx : (0 <? x4xx_limit_rps (ma_edge a))
             && x4xx_blocked (ev_secs E) (client_or_dash ses) (request_host (s_req ses)) (x4xx_limit_rps (ma_edge a))
                  (gs_windows s) = false;
  pass_rate : (0 <? rate_limit_rps (ma_edge a))
              && (rate_limited (ev_secs E) (rps_key ses) (rate_limit_rps (ma_edge a)) (gs_windows s)).1 = false;
  pass_auth : from_option (auth_ok E ses) true (auth (ma_edge a)) = true;
  pass_files : file_root a = None;
  pass_cache : may_cache E ses f a = true ->
               (cache_get (ev_instant E) (cache_request_key ses) (gs_cache s)).1 = None;
  pass_geoip : evaluate_ip (ev_geo E) (ma_geoip a) (session_client_ip ses) = Allow;
  pass_captcha : is_captcha_path (uri_path (rq_uri (s_req ses))) = false;
  pass_security :
    admits (sec_action (evaluate (ev_secret E) (ev_secs E) (ev_instant E) (gs_rates s) (ma_security a)
                          (request_view ses)).1);
  pass_grpc : is_grpc f = true -> validate_downstream (s_req ses) (s_http2 ses) (is_grpc_web f) = Ok tt;
}.

Definition act s : MiddlewareAction := cx_action (gs_ctx s).

Definition after_limits E ses s : GwState H :=
  upd_ctx (fun c => set_rate c (session_client_ip ses) (Some (request_host (s_req ses))))
    (upd_windows (if 0 <? rate_limit_rps (ma_edge (act s))
                  then (rate_limited (ev_secs E) (rps_key ses) (rate_limit_rps (ma_edge (act s))) (gs_windows s)).2
                  else gs_windows s) s).

Lemma next_limits E ses s s' :
  goes_on (filter_limits E ses) s s' <->
  ((0 <? x4xx_limit_rps (ma_edge (act s)))
   && x4xx_blocked (ev_secs E) (client_or_dash ses) (request_host (s_req ses)) (x4xx_limit_rps (ma_edge (act s)))
        (gs_windows s) = false /\
   (0 <? rate_limit_rps (ma_edge (act s)))
   && (rate_limited (ev_secs E) (rps_key ses) (rate_limit_rps (ma_edge (act s))) (gs_windows s)).1 = false) /\
  s' = after_limits E ses s.
Proof.
  unfold goes_on, filter_limits, after_limits, act. cbn zeta.
  destruct ((0 <? x4xx_limit_rps _) && x4xx_blocked _ _ _ _ _).
  { split; [intros Hr; by apply respond_next in Hr|by intros [[? _] _]]. }
  destruct (0 <? rate_limit_rps _); cbn [andb].
  - destruct (rate_limited _ _ _ _) as [[] ws]; cbn [fst snd].
    + split; [intros Hr; by apply respond_next in Hr|by intros [[_ ?] _]].
    + split; [by intros [= <-]|by intros [_ ->]].
  - split; [by intros [= <-]|by intros [_ ->]].
Qed.

Lemma next_auth E ses s s' :
  goes_on (filter_auth E ses) s s' <-> from_option (auth_ok E ses) true (auth (ma_edge (act s))) = true /\ s' = s.
Proof.
  unfold goes_on, filter_auth, act. destruct (auth _) as [a|]; cbn [from_option].
  - destruct (auth_ok E ses a); [by split; [intros [= <-]|intros [_ ->]]|].
    split; [intros Hr; by apply respond_next in Hr|by intros [? _]].
  - by split; [intros [= <-]|intros [_ ->]].
Qed.

Lemma next_files E ses s s' : goes_on (filter_files E ses) s s' <-> file_root (act s) = None /\ s' = s.
Proof.
  unfold goes_on, filter_files, act. destruct (file_root _) as [root|].
  - split; [|by intros [? _]]. intros Hr. exfalso. destruct (_ ≫= _) as [[p body]|] in Hr; by apply respond_next in Hr.
  - by split; [intros [= <-]|intros [_ ->]].
Qed.

Definition after_cache E ses s : GwState H :=
  if may_cache E ses (cx_flags (gs_ctx s)) (act s) then
    upd_ctx (fun cx => let k := cx_cache cx in
               set_cache cx (mkCacheCtx (cache_body k) (cache_status k) true (Some (cache_request_key ses)) (cache_type k)))
      (upd_cache (cache_get (ev_instant E) (cache_request_key ses) (gs_cache s)).2 s)
  else s.

Lemma next_cache E ses s s' :
  goes_on (filter_cache E ses) s s' <->
  (may_cache E ses (cx_flags (gs_ctx s)) (act s) = true ->
   (cache_get (ev_instant E) (cache_request_key ses) (gs_cache s)).1 = None) /\ s' = after_cache E ses s.
Proof.
  unfold goes_on, filter_cache, after_cache, act. destruct (may_cache _ _ _ _); cbn [negb].
  - destruct (cache_get _ _ _) as [[hit|] c]; cbn [fst snd].
    + split; [intros Hr; by apply respond_next in Hr|]. intros [Hn _]. by specialize (Hn eq_refl).
    + by split; [intros [= <-]|intros [_ ->]].
  - by split; [intros [= <-]|intros [_ ->]].
Qed.

Lemma next_geoip E ses s s' :
  goes_on (filter_geoip E ses) s s' <-> evaluate_ip (ev_geo E) (ma_geoip (act s)) (session_client_ip ses) = Allow /\ s' = s.
Proof.
  unfold goes_on, filter_geoip, act. cbn zeta.
  destruct (geo_is_active _) eqn:Ea; cbn [negb].
  - destruct (evaluate_ip _ _ _); [by split; [intros [= <-]|intros [_ ->]]| |];
      (split; [intros Hr; by apply respond_next in Hr|by intros [? _]]).
  - split; [|by intros [_ ->]]. intros [= <-]. split; [|done]. unfold evaluate_ip. by rewrite Ea.
Qed.

Lemma next_captcha E ses s s' :
  goes_on (filter_captcha E ses) s s' <-> is_captcha_path (uri_path (rq_uri (s_req ses))) = false /\ s' = s.
Proof.
  unfold goes_on, filter_captcha. cbn zeta. destruct (is_captcha_path _); cbn [negb].
  - split; [|by intros [? _]]. intros Hr. exfalso. revert Hr.
    destruct (_ =s CAPTCHA_VERIFY_PATH); [destruct (verify_and_pass_cookie _ _ _ _ _ _ _) as [[c l]|]|];
      try destruct (page _ _ _); apply respond_next.
  - by split; [intros [= <-]|intros [_ ->]].
Qed.

Definition decision E ses s : SecurityDecision :=
  (evaluate (ev_secret E) (ev_secs E) (ev_instant E) (gs_rates s) (ma_security (act s)) (request_view ses)).1.

Lemma next_security E ses s :
  (exists s', goes_on (filter_security E ses) s s') <-> admits (sec_action (decision E ses s)).
Proof.
  unfold goes_on, filter_security, decision, act, admits. cbn zeta.
  destruct (security_is_active _) eqn:Ea; cbn [negb].
  - destruct (evaluate _ _ _ _ _ _) as [d rates]. cbn [fst]. destruct (sec_action d).
    + split; [by left|by eexists].
    + split; [by right|by eexists].
    + split; [|by intros []]. intros [s' Hr]. destruct (page _ _ _). by apply respond_next in Hr.
    + split; [|by intros []]. intros [s' Hr]. by apply respond_next in Hr.
  - unfold evaluate. rewrite Ea. cbn. split; [by left|by eexists].
Qed.

Lemma next_grpc E ses s s' :
  goes_on (filter_grpc E ses) s s' <->
  (is_grpc (cx_flags (gs_ctx s)) = true ->
   validate_downstream (s_req ses) (s_http2 ses) (is_grpc_web (cx_flags (gs_ctx s))) = Ok tt) /\ s' = s.
Proof.
  unfold goes_on, filter_grpc. cbn zeta. destruct (is_grpc _); cbn [negb].
  - destruct (validate_downstream _ _ _) as [[]|msg]; [by split; [intros [= <-]|intros [_ ->]]|].
    split; [intros Hr; by apply respond_next in Hr|]. intros [Hv _]. by specialize (Hv eq_refl).
  - by split; [intros [= <-]|intros [_ ->]].
Qed.

(** The action in force: the plan's, or the context's when planning fails. *)
Definition in_force E ses s : MiddlewareAction :=
  match plan_of E ses s with Ok plan => plan_middleware plan | Err _ => act s end.

Lemma next_plan E ses s :
  exists s', goes_on (filter_plan iter_routes iter_edge iter_headers E ses) s s' /\
    act s' = in_force E ses s /\ cx_flags (gs_ctx s') = cx_flags (gs_ctx s) /\
    gs_windows s' = gs_windows s /\ gs_cache s' = gs_cache s /\ gs_rates s' = gs_rates s /\
    gs_written s' = gs_written s /\ active s' = active s /\
    metrics_counted (gs_ctx s') = metrics_counted (gs_ctx s) && negb (is_ok (plan_of E ses s)).
Proof.
  unfold goes_on, filter_plan, in_force, act. cbn zeta.
  destruct (resolve_forward _ _ _ _ _ _ _ _ _) as [[plan|e] ps]; cbn [fst]; (eexists; split; [reflexivity|]);
    cbn; by rewrite ?andb_false_r, ?andb_true_r.
Qed.

(** The stages after planning. *)
Definition after_plan E ses : Flow H unit :=
  filter_limits E ses ≫= fun _ => filter_auth E ses ≫= fun _ => filter_files E ses ≫= fun _ =>
  filter_cache E ses ≫= fun _ => filter_geoip E ses ≫= fun _ => filter_captcha E ses ≫= fun _ =>
  filter_security E ses ≫= fun _ => filter_grpc E ses.

Lemma answering_after_plan E ses : answering (after_plan E ses).
Proof.
  unfold after_plan.
  apply answering_bind; [apply answering_limits|]. apply answering_bind; [apply answering_auth|].
  apply answering_bind; [apply answering_files|]. apply answering_bind; [apply answering_cache|].
  apply answering_bind; [apply answering_geoip|]. apply answering_bind; [apply answering_captcha|].
  apply answering_bind; [apply answering_security|apply answering_grpc].
Qed.

Lemma policies_from E ses s1 :
  (exists s', goes_on (after_plan E ses) s1 s') <->
  passes E ses s1 (act s1) (cx_flags (gs_ctx s1)).
Proof.
  set (s2 := after_limits E ses s1). set (s3 := after_cache E ses s2).
  assert (Ha : act s3 = act s1 /\ cx_flags (gs_ctx s3) = cx_flags (gs_ctx s1) /\ gs_rates s3 = gs_rates s1).
  { unfold s3, s2, after_cache. destruct (may_cache _ _ _ _); done. }
  destruct Ha as (Ha & Hf & Hr).
  assert (Hd : decision E ses s3 = (evaluate (ev_secret E) (ev_secs E) (ev_instant E) (gs_rates s1)
                 (ma_security (act s1)) (request_view ses)).1) by (unfold decision; by rewrite Ha, Hr).
  split.
  - intros (s' & Hgo). unfold after_plan in Hgo. repeat setoid_rewrite goes_on_bind in Hgo.
    destruct Hgo as (? & [[H4 Hrate] ->]%next_limits & ? & [Hauth ->]%next_auth & ? & [Hfiles ->]%next_files &
      ? & [Hcache ->]%next_cache & ? & [Hgeo ->]%next_geoip & ? & [Hcap ->]%next_captcha & s4 & Hsec & [Hgrpc ->]%next_grpc).
    pose proof (proj1 (next_security E ses s3) (ex_intro _ _ Hsec)) as Hadm. rewrite Hd in Hadm.
    pose proof (answering_next _ _ _ (answering_security E ses) Hsec) as [_ _ _ Hf4 _].
    change (after_cache E ses (after_limits E ses s1)) with s3 in *.
    rewrite Ha in Hgeo. rewrite Hf4, Hf in Hgrpc. by split.
  - intros [H4 Hrate Hauth Hfiles Hcache Hgeo Hcap Hsec Hgrpc]. rewrite <- Hd in Hsec.
    apply next_security in Hsec as [s4 Hsec].
    pose proof (answering_next _ _ _ (answering_security E ses) Hsec) as [_ _ _ Hf4 _].
    exists s4. unfold after_plan. repeat setoid_rewrite goes_on_bind.
    exists s2. split; [by apply next_limits|]. exists s2. split; [by apply next_auth|].
    exists s2. split; [by apply next_files|]. exists s3. split; [by apply next_cache|].
    exists s3. split; [apply next_geoip; by rewrite Ha|]. exists s3. split; [by apply next_captcha|].
    exists s4. split; [done|]. apply next_grpc. by rewrite Hf4, Hf.
Qed.

(** [request_filter] by cases: stopped at the door, or planned and examined. *)
Lemma handle_cases E ses s :
  (exists r s', handle E ses s = (r, s') /\ r <> Ok false /\ ~ reaches_policies E ses /\ ~ plain_bypass E ses /\
                returned s r s') \/
  (handle E ses s = (Ok false, s) /\ plain_bypass E ses) \/
  (reaches_policies E ses /\ exists s1,
     goes_on (filter_plan iter_routes iter_edge iter_headers E ses) s s1 /\
     handle E ses s = match after_plan E ses s1 with (Next _, s') => (Ok false, s') | (Done r, s') => (r, s') end).
Proof.
  pose proof (entry_spec E ses s) as He. pose proof (stage_done _ _ _ (stage_entry E ses) s) as Hd.
  unfold request_filter. rewrite bind_run.
  destruct (entry_stages _ _ E ses s) as [[[]|r] s0].
  - destruct He as [-> Hreach]. right. right. split; [done|].
    destruct (next_plan E ses s) as (s1 & Hgo & _). exists s1. split; [done|].
    unfold policy_stages. rewrite bind_run. by rewrite Hgo.
  - specialize (Hd r s0 eq_refl). destruct r as [[]|e].
    + left. exists (Ok true), s0. destruct He. by split_and!.
    + right. left. by destruct He as [-> ?].
    + left. exists (Err e), s0. destruct He. by split_and!.
Qed.

(** [request_filter] lets a request through when the policies do, or around them. *)
Lemma forwarded_spec E ses s :
  (exists s', handle E ses s = (Ok false, s')) <->
  (reaches_policies E ses /\ passes E ses s (in_force E ses s) (cx_flags (gs_ctx s))) \/ plain_bypass E ses.
Proof.
  destruct (handle_cases E ses s) as [(r & s' & -> & Hr & Hn & Hb & _)|[[-> Hb]|(Hreach & s1 & Hgo & ->)]].
  - split; [by intros [? [= ?]]|]. by intros [[]|].
  - split; [by right|by exists s].
  - assert (Hno : ~ plain_bypass E ses).
    { intros (_ & Hu & _). destruct Hreach as (_ & Hu' & _). congruence. }
    destruct (next_plan E ses s) as (s1' & Hgo' & Ha & Hf & Hw & Hc & Hrt & _).
    assert (s1' = s1) as -> by (unfold goes_on in *; congruence).
    assert (Hs : passes E ses s1 (act s1) (cx_flags (gs_ctx s1)) <->
                 passes E ses s (in_force E ses s) (cx_flags (gs_ctx s))).
    { rewrite Ha, Hf. split; intros []; split; rewrite ?Hw, ?Hc, ?Hrt in *; done. }
    rewrite <- Hs, <- policies_from. unfold goes_on.
    pose proof (answering_result _ s1 (answering_after_plan E ses)) as Hres.
    destruct (after_plan E ses s1) as [[[]|r] s2]; split.
    + intros _. left. split; [done|]. by exists s2.
    + intros _. by exists s2.
    + intros [s' [= -> ->]]. by destruct Hres.
    + by intros [[_ [? ?]]|].
Qed.

(** ** Properties *)

(** C1: Exactly which requests reach an upstream.  [request_filter] lets a
    request through (result [Ok false]) if and only if either it is subject to
    its route's policies and passes all of them (the 4xx and request-rate
    limits, the route's authentication, no static file or cached answer, GeoIP,
    not a captcha endpoint, the WAF/bot decision admits it, a valid gRPC request
    when it is gRPC), under the action of the plan for its host and path; or it
    is plain HTTP under [auto_https] for a host without certificate, in which
    case none of those policies is consulted. *)
Theorem forwarded_iff E ses s :
  (exists s', handle E ses s = (Ok false, s')) <->
  (reaches_policies E ses /\ passes E ses s (in_force E ses s) (cx_flags (gs_ctx s))) \/ plain_bypass E ses.
Proof. apply forwarded_spec. Qed.

(** C8: A request is answered at most once, header and body written one after the other.
    When [request_filter] returns [Ok true] the header and the whole content of one
    response are out; when it returns [Ok false] it has written nothing, so the proxy
    writes the only response; when it returns an error it has written nothing, or a
    header whose body could not be written after it. *)
Theorem answered_once E ses s :
  answer_recorded s (request_filter iter_routes iter_edge iter_headers iter_hosts E ses s).
Proof.
  destruct (handle_cases E ses s) as [(r & s' & -> & _ & _ & _ & [Hw _ _])|[[-> _]|(_ & s1 & Hgo & ->)]]; [done|done|].
  destruct (next_plan E ses s) as (s1' & Hgo' & _ & _ & _ & _ & _ & Hw1 & _).
  assert (s1' = s1) as -> by (unfold goes_on in *; congruence).
  pose proof (answering_result _ s1 (answering_after_plan E ses)) as Hres.
  unfold answer_recorded. destruct (after_plan E ses s1) as [[[]|r] s2].
  - destruct Hres as [Hw2 _ _ _ _]. congruence.
  - destruct Hres as [[Hw2 _ _] _]. unfold answer_recorded in Hw2. rewrite Hw1 in Hw2. by destruct r as [[]|].
Qed.

(** Plain HTTP to a host without certificate bypasses every policy.  With
    [auto_https] a plain request for a known host that has no certificate is
    passed to the upstream as it is: no rate limit, authentication, GeoIP, WAF or
    bot check runs, and no counter moves, whatever the route asks for. *)
Theorem plain_http_unprotected E ses s : plain_bypass E ses -> handle E ses s = (Ok false, s).
Proof.
  intros Hb. destruct (handle_cases E ses s) as [(r & s' & _ & _ & _ & Hn & _)|[[E1 _]|((_ & Hu & _) & _)]]; [done|done|].
  destruct Hb as (_ & Hu' & _). congruence.
Qed.

(** ** The connection gauge *)

Lemma site_protocol_counters host v m : counters (inc_site_protocol_requests to_lowercase host v m) = counters m.
Proof. unfold inc_site_protocol_requests. case_if; [done|]. by destruct (default _ _). Qed.

Lemma add_bytes_active c n m : c <> active_connections ->
  counters (add_bytes c n m) active_connections = counters m active_connections.
Proof.
  intros Hc. unfold add_bytes. case_if; [|done]. rewrite counters_fetch_add. by rewrite decide_False by congruence.
Qed.

Lemma record_metrics_active ses c host ue w m :
  counters (record_request_metrics to_lowercase ses c host ue w m) active_connections = counters m active_connections.
Proof.
  unfold record_request_metrics. destruct (is_empty host); [done|]. cbn zeta.
  set (m1 := if is_downstream_tls ses then _ else _).
  assert (Hs1 : counters m1 active_connections = counters m active_connections).
  { unfold m1. destruct (is_downstream_tls ses); [|by rewrite inc_other_active].
    destruct (s_http2 ses); rewrite ?site_protocol_counters, ?inc_other_active by done; done. }
  destruct (_ ≫= _) as [n1|]; destruct (content_length _) as [n2|]; cbn [from_option];
    rewrite ?add_bytes_active by done; destruct ue, (is_grpc _); rewrite ?inc_other_active by done; done.
Qed.

Lemma logging_active E ses e s :
  active (logging to_lowercase E ses e s) =
  if metrics_counted (gs_ctx s) then counters (dec_active_connections (gs_metrics s)) active_connections else active s.
Proof.
  unfold logging. cbn zeta.
  set (s1 := upd_metrics _ s).
  assert (Hs1 : active s1 = active s) by (unfold active, s1; cbn; apply record_metrics_active).
  set (s2 := if metrics_counted (gs_ctx s1) then _ else _).
  assert (Hs2 : active s2 = if metrics_counted (gs_ctx s)
             then counters (dec_active_connections (gs_metrics s)) active_connections else active s).
  { unfold s2. change (gs_ctx s1) with (gs_ctx s). destruct (metrics_counted (gs_ctx s)); [|done].
    change (counters (dec_active_connections (gs_metrics s1)) active_connections =
            counters (dec_active_connections (gs_metrics s)) active_connections).
    unfold dec_active_connections. rewrite !counters_fetch_add, !decide_True by done. unfold active in Hs1. by rewrite Hs1. }
  rewrite <- Hs2. destruct (negb (ev_proxy_log_enabled E)); [done|]. destruct (is_empty _); [done|].
  destruct e as [err|]; [destruct (suppress_error_log err)|]; done.
Qed.

(** Which requests release their slot in the connection gauge.  The gauge
    [active_connections] is raised when a request starts.  Whatever
    [request_filter] answers, [logging] lowers it again if no plan was made; but
    once the request's plan resolves, the context is replaced and with it the
    flag that says the request was counted, so the gauge stays raised for ever. *)
Theorem connection_gauge E1 E2 E3 ses e s :
  active s < u64_size ->
  let s1 := (early_request_filter E1 ses s).2 in
  let s2 := (handle E2 ses s1).2 in
  let s3 := logging to_lowercase E3 ses e s2 in
  (~ reaches_policies E2 ses \/ is_ok (plan_of E2 ses s1) = false -> active s3 = active s) /\
  (reaches_policies E2 ses -> is_ok (plan_of E2 ses s1) = true -> active s3 = (active s + 1) mod u64_size).
Proof.
  intros Hlt s1 s2 s3.
  assert (Hs1 : active s1 = (active s + 1) mod u64_size /\ metrics_counted (gs_ctx s1) = true).
  { unfold s1, early_request_filter. cbn zeta. destruct (classify_grpc_request _ _ _ _) as [g gw].
    destruct (if is_websocket_upgrade _ _ then _ else _), (is_oci_registry_path _); split; try done;
      change (counters (inc active_connections (gs_metrics s)) active_connections = (active s + 1) mod u64_size);
      unfold inc; rewrite counters_fetch_add; by rewrite decide_True. }
  destruct Hs1 as [Ha1 Hm1].
  assert (Hdec : counters (dec_active_connections (gs_metrics s2)) active_connections
                 = (active s2 + (u64_size - 1)) mod u64_size).
  { unfold dec_active_connections. rewrite counters_fetch_add. by rewrite decide_True. }
  assert (Hback : ((active s + 1) mod u64_size + (u64_size - 1)) mod u64_size = active s).
  { rewrite N.Div0.add_mod_idemp_l.
    replace (active s + 1 + (u64_size - 1)) with (active s + 1 * u64_size) by (unfold u64_size; lia).
    rewrite N.Div0.mod_add. by apply N.mod_small. }
  unfold s3. rewrite logging_active, Hdec. unfold s2.
  destruct (handle_cases E2 ses s1) as [(r & s' & -> & _ & Hn & _ & [_ Ha Hm])|[[-> Hb]|(Hreach & s1' & Hgo & ->)]]; cbn [snd].
  - rewrite Hm, Hm1, Ha, Ha1. split; [done|]. intros Hr. by destruct (Hn Hr).
  - rewrite Hm1, Ha1. split; [done|]. intros (_ & Hu & _). destruct Hb as (_ & Hu' & _). congruence.
  - destruct (next_plan E2 ses s1) as (s1'' & Hgo' & _ & _ & _ & _ & _ & _ & Hact & Hcnt).
    assert (s1'' = s1') as -> by (unfold goes_on in *; congruence).
    assert (Hres : forall s', match after_plan E2 ses s1' with (Next _, s') => (Ok false, s') | (Done r, s') => (r, s') end.2 = s' ->
      active s' = active s1' /\ metrics_counted (gs_ctx s') = metrics_counted (gs_ctx s1')).
    { pose proof (answering_result _ s1' (answering_after_plan E2 ses)) as Hres.
      destruct (after_plan E2 ses s1') as [[[]|r] s'']; cbn [snd]; intros s' <-.
      - destruct Hres as [_ Hx _ _ Hy]. done.
      - destruct Hres as [[_ Hx Hy] _]. done. }
    destruct (Hres _ eq_refl) as [Hx Hy]. rewrite Hx, Hy, Hcnt, Hact, Hm1, Ha1. cbn [andb].
    split; intros Hor.
    + destruct Hor as [Hor|Hor]; [by destruct (Hor Hreach)|]. by rewrite Hor.
    + intros ->. done.
Qed.

(** ** Collecting a response for the cache *)

Abbreviation body_filter := (response_body_filter pick_victim).

(** The chunks of a body as they arrive, before the last call. *)
Definition feed E s (chunks : list str) : GwState H := foldl (fun s c => body_filter E (Some c) false s) s chunks.

Definition body_fits (body : str) : bool := N.of_nat (length body) <=? MAX_CACHED_BODY.

(** The collected part after [chunks]: all of them, or nothing once they are too long. *)
Definition collected (k : CacheCtx) (body : str) : CacheCtx :=
  if body_fits body then mkCacheCtx body (cache_status k) true (cache_key k) (cache_type k)
  else mkCacheCtx [] (cache_status k) false (cache_key k) (cache_type k).

Lemma body_fits_app_false a b : body_fits a = false -> body_fits (a ++ b) = false.
Proof. unfold body_fits. rewrite !N.leb_gt, length_app. lia. Qed.

Lemma body_fits_nil : body_fits [] = true.
Proof. reflexivity. Qed.

Lemma body_step E k body chunk s :
  cx_cache (gs_ctx s) = collected k body ->
  let s' := body_filter E (Some chunk) false s in
  cx_cache (gs_ctx s') = collected k (body ++ chunk) /\ gs_cache s' = gs_cache s.
Proof.
  intros Hk. unfold response_body_filter. rewrite Hk. unfold collected.
  destruct (body_fits body) eqn:Ef; cbn [cache_collect negb].
  - cbn zeta. cbn [cache_body]. rewrite <- Nat2N.inj_add, <- length_app. fold (body_fits (body ++ chunk)).
    by destruct (body_fits (body ++ chunk)).
  - rewrite Hk. unfold collected. by rewrite Ef, body_fits_app_false.
Qed.

Lemma feed_spec E s chunks :
  cache_collect (cx_cache (gs_ctx s)) = true -> cache_body (cx_cache (gs_ctx s)) = [] ->
  cx_cache (gs_ctx (feed E s chunks)) = collected (cx_cache (gs_ctx s)) (concat chunks) /\
  gs_cache (feed E s chunks) = gs_cache s.
Proof.
  intros Hc Hb. induction chunks as [|c l IH] using rev_ind.
  - cbn. unfold collected. rewrite body_fits_nil. destruct (cx_cache (gs_ctx s)). simpl in *. by subst.
  - unfold feed in *. rewrite foldl_app, concat_app. cbn [foldl concat]. rewrite app_nil_r.
    destruct IH as [IHk IHc]. destruct (body_step E _ _ c _ IHk) as [-> ->]. by split.
Qed.

(** C27: The cache stores whole responses or nothing.  When the response of a
    collecting request arrives in any sequence of chunks, the last call stores,
    under the request's key and with the status and type seen by
    [response_filter], exactly the concatenation of the chunks with its length,
    if it is at most 1 MiB; a longer body leaves the cache untouched. *)
Theorem collected_response_cached E1 E2 s key chunks (lst : option str) :
  let k := cx_cache (gs_ctx s) in
  cache_collect k = true -> cache_key k = Some key -> cache_body k = [] ->
  let body := concat chunks ++ default [] lst in
  let g := globals (ev_table E2) in
  gs_cache (body_filter E2 lst true (feed E1 s chunks)) =
  if body_fits body then
    cache_put pick_victim (ev_instant E2) key
      (mkCachedResponse (cache_status k)
         [(bs "content-type", cache_type k); (bs "content-length", nat_str (length body))] body)
      (secs (N.max (cache_ttl_secs g) 1)) (saturating_mul u64_max (cache_size_mb g) (1024 * 1024)) (gs_cache s)
  else gs_cache s.
Proof.
  intros k Hc Hkey Hb body g. destruct (feed_spec E1 s chunks Hc Hb) as [Hk Hg]. fold k in Hk.
  unfold response_body_filter. rewrite Hk. unfold collected.
  destruct (body_fits (concat chunks)) eqn:Ef; cbn [cache_collect negb].
  - cbn zeta. destruct lst as [chunk|]; cbn [cache_body cache_status cache_key cache_type default] in *.
    + rewrite <- Nat2N.inj_add, <- length_app. fold (body_fits (concat chunks ++ chunk)).
      subst body. change (id chunk) with chunk. destruct (body_fits (concat chunks ++ chunk)); cbn [cache_collect cache_key andb]; [|exact Hg].
      rewrite Hkey. cbn. by rewrite Hg.
    + subst body. rewrite app_nil_r, Ef. cbn [cache_collect cache_key andb]. rewrite Hkey. cbn. by rewrite Hg.
  - subst body. by rewrite body_fits_app_false, Hg.
Qed.

(** A route without header or prefix middleware is never cached, and its 4xx
    answers are never counted.  [upstream_peer] replaces the context of such a
    request after [request_filter] has marked it for collection, so whatever the
    upstream answers, the response callbacks leave the cache and the rate
    windows as they were. *)
Theorem plain_route_never_cached E1 E2 E3 E4 ses s peer s' rs rs' calls :
  upstream_peer iter_routes iter_edge iter_headers E1 ses s = (Ok peer, s') ->
  strip_prefix_action (act s) = None -> request_headers (act s) = [] -> response_headers (act s) = [] ->
  let s2 := (upstream_response_filter E2 ses rs s').2 in
  let s3 := (response_filter E3 ses rs' s2).2 in
  let s4 := foldl (fun s c => body_filter E4 c.1 c.2 s) s3 calls in
  gs_cache s4 = gs_cache s /\ gs_windows s4 = gs_windows s.
Proof.
  intros Hp Hsp Hrq Hrs. unfold upstream_peer, act in Hp, Hsp, Hrq, Hrs.
  destruct (resolve_forward _ _ _ _ _ _ _ _ _) as [[plan|e] ps]; [|done].
  cbn [gs_ctx upd_plan] in Hp. rewrite Hsp, Hrq, Hrs in Hp. cbn [is_some negb is_empty andb] in Hp. cbn zeta in Hp.
  injection Hp as _ <-. intros s2.
  assert (Hs2 : cache_collect (cx_cache (gs_ctx s2)) = false /\ rate_client (gs_ctx s2) = None /\
                gs_cache s2 = gs_cache s /\ gs_windows s2 = gs_windows s).
  { unfold s2, upstream_response_filter. cbn zeta. cbn [snd]. by destruct (is_sse_response _). }
  destruct Hs2 as (Hc2 & Hr2 & Hg2 & Hw2). intros s3.
  assert (Hs3 : cache_collect (cx_cache (gs_ctx s3)) = false /\ gs_cache s3 = gs_cache s /\ gs_windows s3 = gs_windows s).
  { unfold s3, response_filter. cbn zeta. cbn [snd].
    set (s5 := if is_sse_response _ then _ else _).
    assert (Hs5 : cache_collect (cx_cache (gs_ctx s5)) = false /\ rate_client (gs_ctx s5) = None /\
                  gs_cache s5 = gs_cache s /\ gs_windows s5 = gs_windows s)
      by (unfold s5; destruct (is_sse_response _); done).
    destruct Hs5 as (Hc5 & Hr5 & Hg5 & Hw5).
    destruct ((400 <=? rs_status rs') && (rs_status rs' <? 500));
      cbn [gs_ctx upd_ctx set_cache rate_client]; rewrite ?Hr5; cbn [gs_ctx gs_cache gs_windows upd_ctx set_cache cx_cache];
      rewrite Hc5; done. }
  destruct Hs3 as (Hc3 & Hg3 & Hw3). intros s4.
  assert (Hid : s4 = s3).
  { unfold s4. clear -Hc3. induction calls as [|c calls IH]; [done|]. cbn [foldl].
    replace (body_filter E4 c.1 c.2 s3) with s3; [done|]. unfold response_body_filter. by rewrite Hc3. }
  by rewrite Hid.
Qed.

(** ** What the upstream is told about the client *)

Lemma resolve_client_ip_printable socket xff real ip : resolve_client_ip socket xff real = Some ip -> printable ip.
Proof.
  assert (Hn : forall x, normalize_ip_str x = Some ip -> printable ip).
  { intros x (a & Hc & ->)%normalize_ip_canonical. destruct (show_ip_text a Hc) as [_ HF].
    eapply Forall_impl; [exact HF|]. intros b Hb. left. by apply text_byte_graphic. }
  assert (Hb : forall o, o ≫= normalize_ip_str = Some ip -> printable ip).
  { intros [x|]; [apply Hn|done]. }
  assert (Hp : forall o, opt_filter is_public_routable_ip (o ≫= normalize_ip_str) = Some ip -> printable ip).
  { intros o Ho. apply opt_filter_Some in Ho as [Ho _]. by apply (Hb o). }
  unfold resolve_client_ip. cbn zeta.
  destruct (opt_filter _ (socket ≫= _)) eqn:E1; [intros [= <-]; by apply (Hp socket)|].
  destruct (opt_filter _ (real ≫= _)) eqn:E2; [intros [= <-]; by apply (Hp real)|].
  destruct (first_hop_from_xff xff ≫= _) eqn:E3; [intros [= <-]; by apply (Hb (first_hop_from_xff xff))|].
  destruct (real ≫= _) eqn:E4; [intros [= <-]; by apply (Hb real)|]. apply Hb.
Qed.

(** The value appended to an existing [X-Forwarded-For]. *)
Definition xff_value (existing : option str) (ip : str) : str :=
  match opt_filter (fun v => negb (is_empty v)) (trim <$> existing) with
  | Some v => v ++ ", " ++ ip
  | None => ip
  end.

(** The last of the pairs that sets the header [m]. *)
Definition last_value (m : str) (pairs : list (str * str)) : option str :=
  foldl (fun acc kv => if eq_ignore_ascii_case kv.1 m && name_ok kv.1 && value_ok kv.2 then Some kv.2 else acc) None pairs.

Lemma insert_all_ok_last pairs h m :
  h_get_all (insert_all_ok pairs h) m = match last_value m pairs with Some v => [v] | None => h_get_all h m end.
Proof.
  unfold last_value, insert_all_ok. induction pairs as [|kv pairs IH] using rev_ind; [done|].
  rewrite !foldl_app. cbn [foldl]. rewrite get_all_insert_ok, IH. by destruct (_ && _).
Qed.

Lemma forwarded_client_headers (ses : Session H) (registry : bool) (h : H) :
  let ip := if registry then None else session_client_ip ses in
  let client (m : str) := h_get_all h m in
  let h' := forwarded_headers ses registry h in
  h_get_all h' "x-real-ip" = from_option (fun ip => [ip]) (client (bs "x-real-ip")) ip /\
  h_get_all h' "x-forwarded-for" =
    from_option (fun ip => let v := xff_value (hget h "x-forwarded-for") ip in if value_ok v then [v] else client (bs "x-forwarded-for"))
      (client (bs "x-forwarded-for")) ip.
Proof.
  intros ip client h'. unfold h', forwarded_headers. cbn zeta.
  set (h1 := if is_empty _ then _ else _). set (h2 := if negb registry && _ then _ else _).
  assert (Hx : forall m, existsb (fun n => eq_ignore_ascii_case n m) [bs "Host"; bs "X-Forwarded-Host"; bs "X-Forwarded-Proto"] = false ->
    h_get_all h2 m = h_get_all h m).
  { intros m Hm. cbn [existsb] in Hm. rewrite !orb_false_iff in Hm. destruct Hm as (? & ? & ? & _). unfold h2, h1.
    destruct (negb registry && _); rewrite ?insert_ok_other by done; destruct (is_empty _); rewrite ?insert_ok_other by done; done. }
  destruct registry; cbn [negb andb] in *; [by split; apply Hx|]. unfold ip. destruct (session_client_ip ses) as [a|] eqn:Hip; [|by split; apply Hx].
  unfold inject_forwarded_client_ip, forwarded_client_ip_header_pairs. replace (hget h2 "x-forwarded-for") with (hget h "x-forwarded-for")
    by (unfold hget; by rewrite Hx).
  fold (xff_value (hget h "x-forwarded-for") a). unfold insert_all_ok. cbn [foldl fst snd from_option].
  assert (Hpr : printable a) by (unfold session_client_ip in Hip; by eapply resolve_client_ip_printable).
  split.
  - rewrite insert_ok_other by done. by rewrite get_all_insert_token.
  - rewrite get_all_insert_ok, name_ok_token by done. cbn. destruct (value_ok _); [done|]. rewrite insert_ok_other by done. by apply Hx.
Qed.

(** The path after the configured prefix is stripped. *)
Definition strip_step (c : RequestCtx) (up : RequestHeader H) : result PError (RequestHeader H) :=
  match strip_prefix_action (cx_action c) with
  | Some prefix => if is_grpc_web (cx_flags c) then Ok up else strip_upstream_prefix prefix up
  | None => Ok up
  end.
Definition path_sent (c : RequestCtx) (up : RequestHeader H) : str :=
  match strip_step c up with Ok u => uri_path (rq_uri u) | Err _ => [] end.

Lemma strip_step_spec c (f : H -> H) up u : strip_step c (map_headers f up) = Ok u ->
  rq_headers u = f (rq_headers up) /\ uri_path (rq_uri u) = path_sent c up.
Proof.
  unfold path_sent, strip_step, strip_upstream_prefix. destruct (strip_prefix_action (cx_action c)) as [prefix|]; [|by intros [= <-]].
  destruct (is_grpc_web (cx_flags c)); [by intros [= <-]|]. cbn [map_headers set_headers rq_uri].
  destruct (strip_prefix prefix _) as [rest|]; [|by intros [= <-]]. destruct (pq_parse _) as [d|]; [|done].
  destruct (from_parts _) as [u'|]; [|done]. by intros [= <-].
Qed.

(** The last stages leave the client-address headers alone. *)
Lemma grpc_stage_other c (up up' : RequestHeader H) m :
  (let f := cx_flags c in
   let up := if is_grpc f || is_long_lived_stream f then map_headers prepare_upstream_streaming_request up else up in
   if is_grpc f then
     up ← (if negb (is_grpc_web f) then rewrite_upstream_grpc_path up else Ok up);
     Ok (map_headers (fun h => prepare_upstream_request h (is_grpc_web f)) up)
   else Ok up) = Ok up' ->
  existsb (fun n => eq_ignore_ascii_case n m) (bs "accept-encoding" :: bs "te" :: hop_by_hop_request) = false ->
  h_get_all (rq_headers up') m = h_get_all (rq_headers up) m.
Proof.
  intros Hf Hm. cbn [existsb] in Hm. apply orb_false_iff in Hm as [Hae Hm]. cbn zeta in Hf.
  set (up3 := if is_grpc _ || is_long_lived_stream _ then _ else _) in Hf.
  assert (Hs3 : h_get_all (rq_headers up3) m = h_get_all (rq_headers up) m).
  { unfold up3. destruct (_ || _); cbn; [|done]. unfold prepare_upstream_streaming_request. by rewrite insert_ok_other. }
  destruct (is_grpc (cx_flags c)); [|by simplify_eq].
  destruct (is_grpc_web (cx_flags c)); cbn [negb] in Hf.
  - cbn [mbind result_bind] in Hf. simplify_eq. rewrite map_headers_rq. by rewrite prepare_upstream_other.
  - destruct (rewrite_upstream_grpc_path up3) as [up4|] eqn:Er; [|done]. cbn [mbind result_bind] in Hf. simplify_eq.
    rewrite map_headers_rq, prepare_upstream_other by done. by rewrite (rewrite_grpc_path_headers up3).
Qed.

(** The address a registry is told: the socket's. *)
Definition socket_told (ses : Session H) : option str :=
  opt_filter (fun ip => negb (is_empty ip) && value_ok ip) (show_ip <$> (s_client_addr ses ≫= as_inet)).

Ltac eval_names :=
  repeat match goal with |- context [eq_ignore_ascii_case ?a ?b] =>
    let v := eval vm_compute in (eq_ignore_ascii_case a b) in change (eq_ignore_ascii_case a b) with v end.

Lemma registry_told ses (up : RequestHeader H) m : m = bs "x-real-ip" \/ m = bs "x-forwarded-for" ->
  is_oci_registry_path (uri_path (rq_uri up)) = true ->
  h_get_all (rq_headers (registry_upstream ses up)) m = option_list (socket_told ses).
Proof.
  intros Hm Hp. unfold registry_upstream. rewrite Hp. cbn zeta. rewrite map_headers_rq. unfold prepare_registry_upstream_request.
  rewrite insert_all_ok_last. unfold registry_upstream_header_pairs, socket_told.
  destruct (forward_proto_port_ssl _) as [[proto port] ssl]. unfold last_value. rewrite !foldl_app.
  set (up2 := normalize_registry_token_request up). set (conn := if is_registry_blob_upload _ _ then _ else _).
  assert (Hc : conn = [] \/ conn = [(bs "Connection", bs "close")]) by (unfold conn; destruct (is_registry_blob_upload _ _); auto).
  clearbody conn. destruct (show_ip <$> _) as [ip|]; cbn [opt_filter].
  - destruct (is_empty ip) eqn:Ee; cbn [negb andb].
    + destruct Hm as [-> | ->], Hc as [-> | ->]; cbn [foldl fst snd]; eval_names; cbn [andb];
        rewrite get_all_remove_all; cbn [existsb forwarded_names]; eval_names; done.
    + destruct Hm as [-> | ->], Hc as [-> | ->]; cbn [foldl fst snd]; eval_names; cbn [andb];
        rewrite name_ok_token by (done || by vm_compute); cbn [andb]; destruct (value_ok ip); try done;
        rewrite get_all_remove_all; cbn [existsb forwarded_names]; eval_names; done.
  - destruct Hm as [-> | ->], Hc as [-> | ->]; cbn [foldl fst snd]; eval_names; cbn [andb];
      rewrite get_all_remove_all; cbn [existsb forwarded_names]; eval_names; done.
Qed.


(** The path sent upstream for what remains after the prefix. *)
Definition stripped_path (rest : str) : str := if is_empty rest then bs "/" else rest.

(** Stripping a prefix loses the query string.  When the configured prefix
    matches, the request sent upstream has no query, whatever the client sent
    (unless the stripped path itself contains one); the planned upstream URL
    ([strip_path_prefix]) keeps it. *)
Theorem stripped_request_loses_query prefix (up up' : RequestHeader H) rest query :
  uri_pq (rq_uri up) = Some (prefix ++ rest ++ bs "?" ++ query) ->
  ("?"%byte ∉ prefix ++ rest) -> ("#"%byte ∉ rest) -> prefix ++ rest <> [] ->
  strip_upstream_prefix prefix up = Ok up' ->
  uri_query (rq_uri up) = Some query /\ uri_query (rq_uri up') = None /\
  uri_path (rq_uri up') = stripped_path rest /\
  strip_path_prefix (path_and_query (rq_uri up)) prefix = stripped_path rest ++ bs "?" ++ query.
Proof.
  intros Hu Hq Hh Hne. rewrite (app_assoc prefix rest) in Hu. set (p := prefix ++ rest) in *.
  assert (Hso : split_once "?" (p ++ bs "?" ++ query) = Some (p, query)) by (by apply split_once_Some).
  assert (Hsf : split_first "?" (p ++ bs "?" ++ query) = p).
  { by apply split_first_app. }
  assert (Hpath : uri_path (rq_uri up) = p).
  { unfold uri_path. rewrite Hu. cbn [from_option]. unfold pq_path. rewrite Hsf. by destruct p. }
  unfold strip_upstream_prefix. rewrite Hpath. unfold p at 1. rewrite strip_prefix_app. fold (stripped_path rest).
  set (new := stripped_path rest).
  assert (Hnq : ("?"%byte ∉ new) /\ ("#"%byte ∉ new)).
  { unfold new, stripped_path. destruct rest; cbn; [split; apply (bool_decide_eq_false_1 _); vm_compute; reflexivity|].
    split; [|done]. intros Hin. apply Hq. unfold p. apply elem_of_app. by right. }
  destruct (pq_parse new) as [d|] eqn:Ed; [|done]. apply pq_parse_Some in Ed as ->; [|by apply Hnq].
  destruct (from_parts _) as [u'|] eqn:Eu; [|done]. apply from_parts_Some in Eu as ->. intros [= <-].
  split_and!.
  - unfold uri_query. rewrite Hu. cbn [mbind option_bind]. unfold pq_query. by rewrite Hso.
  - unfold uri_query. cbn [rq_uri set_uri uri_pq mbind option_bind]. unfold pq_query. by rewrite (proj2 (split_once_None _ _) (proj1 Hnq)).
  - unfold uri_path. cbn [rq_uri set_uri uri_pq from_option]. unfold pq_path. rewrite split_first_no by apply Hnq. unfold new, stripped_path. by destruct rest.
  - unfold path_and_query. rewrite Hu. cbn [from_option]. unfold pq_as_str.
    assert (is_empty (p ++ bs "?" ++ query) = false) as -> by (by destruct p).
    destruct (strip_path_prefix_spec p query prefix Hq) as [_ ->]. unfold p at 1. rewrite strip_prefix_app.
    unfold new, stripped_path. by destruct rest.
Qed.

End gateway_lemmas.

(** ** A sample gateway, and witnesses *)

Definition no_wait : PeerOptions := mkPeerOptions true ALPN_H1 1 None None None None.

Definition protected_table : RouteTable :=
  insert_edge (from_routes {[bs "app.io" := [plain_route "/" Prefix (mkBackend "10.0.0.1:8080" 8080 false)]]})
    "app.io" "/" (mkEdgePolicy (Some (Basic "admin" "secret")) 0 0 None).

Definition sample_env (t : RouteTable) (auto_https : bool) : Env header_list :=
  {| ev_env := fun _ => None; ev_ingress := false; ev_table := t; ev_certs := store_new; ev_auto_https := auto_https;
     ev_https_port := 443; ev_enable_h3 := false; ev_h3_port := 443; ev_http01 := None; ev_proxy_log_enabled := true;
     ev_min_level := Info; ev_geo := mkGeoIpEngine None None; ev_secret := "key"; ev_instant := 1000; ev_secs := 1;
     ev_draws := (3, 4); ev_forward_auth := fun _ _ => None; ev_read_file := fun _ => None;
     ev_probe := fun _ _ => mkProbeIo true true true None; ev_send_header := fun _ _ => None; ev_send_body := fun _ => None; ev_install_script := [];
     ev_peer_defaults := no_wait; ev_respond_error := fun _ w => w |}.

Definition sample_state : GwState header_list :=
  mkGwState new_ctx no_state cache_empty ∅ ∅ metrics_new (log_new 10) None None.

Definition sample_session (extra : list (str * str)) (pq : str) : Session header_list :=
  mkSession (mkRequestHeader "GET" (mkUri None None (Some pq)) ((bs "host", bs "app.io") :: extra))
    (Some (Inet (V4 203 0 113 9))) None false false.

Definition run (E : Env header_list) (ses : Session header_list) : result PError bool * option N :=
  let '(r, s) := request_filter (MV := toy_mac) iter_r iter_e iter_h iter_c E ses sample_state in
  (r, (fun w => rs_status (wr_head w)) <$> gs_written s).

Definition run_state (E : Env header_list) (ses : Session header_list) (s : GwState header_list) : GwState header_list :=
  (request_filter (MV := toy_mac) iter_r iter_e iter_h iter_c E ses s).2.

(** A route with HTTP basic authentication: 401 without credentials, and no check
    at all once [auto_https] is on and the host has no certificate. *)
Lemma plain_http_unprotected_witness :
  run (sample_env protected_table false) (sample_session [] "/x") = (Ok true, Some 401) /\
  request_filter (MV := toy_mac) iter_r iter_e iter_h iter_c (sample_env protected_table true) (sample_session [] "/x")
    sample_state = (Ok false, sample_state).
Proof.
  split; [vm_compute; reflexivity|].
  apply (plain_http_unprotected (MV := toy_mac) iter_r iter_e iter_h iter_c).
  split; [split; [|split]; vm_compute; reflexivity|]. split; [|split]; vm_compute; reflexivity.
Defined.

Definition open_table : RouteTable :=
  set_globals (from_routes {[bs "app.io" := [plain_route "/" Prefix (mkBackend "10.0.0.1:8080" 8080 false)]]})
    (mkEdgeGlobals (tls_grade edge_globals_default) 10 60 None None).

Lemma connection_gauge_witness :
  let s1 := (early_request_filter (sample_env open_table false) (sample_session [] "/x") sample_state).2 in
  let s2 := run_state (sample_env open_table false) (sample_session [] "/x") s1 in
  active (logging id (sample_env open_table false) (sample_session [] "/x") None s2) = 1.
Proof.
  apply (connection_gauge (MV := toy_mac) iter_r iter_e iter_h iter_c id (sample_env open_table false)
           (sample_env open_table false) (sample_env open_table false) (sample_session [] "/x") None sample_state).
  - vm_compute. reflexivity.
  - split; [split; [|split]; vm_compute; reflexivity|]. split; vm_compute; reflexivity.
  - vm_compute. reflexivity.
Defined.

Definition first_victim (m : gmap str CacheEntry) : option str := fst <$> head (map_to_list m).

Definition collecting : GwState header_list :=
  upd_ctx (fun c => set_cache c (mkCacheCtx [] 200 true (Some (bs "GET app.io/x")) "text/plain")) sample_state.

Lemma collected_response_cached_witness :
  (entry_response <$> entries (gs_cache (response_body_filter first_victim (sample_env open_table false) None true
     (feed first_victim (sample_env open_table false) collecting [bs "hello "; bs "world"]))) !! bs "GET app.io/x") =
  Some (mkCachedResponse 200 [(bs "content-type", bs "text/plain"); (bs "content-length", bs "11")] "hello world").
Proof.
  rewrite (collected_response_cached first_victim (sample_env open_table false) (sample_env open_table false) collecting
             "GET app.io/x" [bs "hello "; bs "world"] None eq_refl eq_refl eq_refl).
  vm_compute. reflexivity.
Defined.

Lemma plain_route_never_cached_witness :
  let E := sample_env open_table false in
  let ses := sample_session [] "/x" in
  let s := run_state E ses sample_state in
  cache_collect (cx_cache (gs_ctx s)) = true /\
  exists peer s', upstream_peer iter_r iter_e iter_h E ses s = (Ok peer, s') /\
    let rs := mkResponseHeader 200 [(bs "content-type", bs "text/plain")] in
    gs_cache (foldl (fun s c => response_body_filter first_victim E c.1 c.2 s)
      (response_filter E ses rs (upstream_response_filter E ses rs s').2).2 [(Some (bs "hi"), false); (None, true)]) =
    gs_cache s.
Proof.
  intros E ses s. split; [vm_compute; reflexivity|]. do 2 eexists. split; [vm_compute; reflexivity|]. intros rs.
  apply (plain_route_never_cached iter_r iter_e iter_h first_victim E E E E ses s
           (mkHttpPeer (bs "10.0.0.1", 8080) false (bs "app.io") no_wait) _ rs rs [(Some (bs "hi"), false); (None, true)]);
    vm_compute; reflexivity.
Defined.

Definition spoofing : Session header_list :=
  sample_session [(bs "x-real-ip", bs "1.1.1.1"); (bs "x-forwarded-for", bs "1.1.1.1")] "/x".


Definition query_request : RequestHeader header_list :=
  mkRequestHeader "GET" (mkUri None None (Some (bs "/api/items?id=7"))) [].

Lemma stripped_request_loses_query_witness :
  match strip_upstream_prefix (UP := plain_uri) "/api" query_request with
  | Ok up' => uri_query (rq_uri query_request) = Some (bs "id=7") /\ uri_query (rq_uri up') = None /\
              uri_path (rq_uri up') = bs "/items" /\
              strip_path_prefix (path_and_query (rq_uri query_request)) "/api" = bs "/items" ++ bs "?" ++ bs "id=7"
  | Err _ => False
  end.
Proof.
  destruct (strip_upstream_prefix "/api" query_request) as [up'|] eqn:E; [|vm_compute in E; discriminate E].
  refine (stripped_request_loses_query (UP := plain_uri) "/api" query_request up' "/items" "id=7" _ _ _ _ E);
    first [discriminate | vm_compute; reflexivity | apply (bool_decide_eq_false_1 _); vm_compute; reflexivity].
Defined.
