(* ===== verification/H3.v ===== *)
(** * HTTP/3 over Quinn (h3/quinn_server.rs, h3/bind.rs, h3/upstream_client.rs)

    The default HTTP/3 server: one request is checked against the same tables as
    the gateway's, then sent upstream by an HTTP client and its answer written to
    the QUIC stream.  The stream's frames, what it delivers and the client's
    answer are parameters; a frame that cannot be sent ends the request. *)

From S2P Require Import Prelude RustStr Ip GeoIp Waf Bot Captcha Security Edge EdgeAuth ProxyConfig Router Forward.
From S2P Require Import Http Grpc Registry Respond Telemetry CertStore Gateway.

(** ** Iterating over headers and appending to them

    [HeaderMap::append] and [iter]: the values of one name come in their order;
    the order of the names is not specified. *)
Class HeaderEntries (H : Type) `{HeaderMap H} := {
  h_append : H -> str -> str -> H;
  h_iter : H -> list (str * str);
  h_get_all_append : forall h n v m,
    h_get_all (h_append h n v) m = h_get_all h m ++ (if eq_ignore_ascii_case n m then [v] else []);
  h_iter_get_all : forall h n, snd <$> filter (fun kv => kv.1 = to_ascii_lowercase n) (h_iter h) = h_get_all h n;
  h_iter_lower : forall h, Forall (fun kv => to_ascii_lowercase kv.1 = kv.1) (h_iter h);
}.

(** ** Listen addresses (h3/bind.rs) *)

Inductive BindAddr : Type := SockV4 (a b c d : N) (port : N) | SockV6 (g : list N) (scope : N) (port : N).

Definition sock_ip (a : BindAddr) : IpAddr :=
  match a with SockV4 x y z w _ => V4 x y z w | SockV6 g _ _ => V6 g end.
Definition sock_port (a : BindAddr) : N := match a with SockV4 _ _ _ _ p => p | SockV6 _ _ p => p end.
Definition sock_is_ipv4 (a : BindAddr) : bool := match a with SockV4 _ _ _ _ _ => true | SockV6 _ _ _ => false end.

Definition is_unspecified (ip : IpAddr) : bool :=
  match ip with V4 a b c d => v4_is_unspecified a b c d | V6 g => v6_is_unspecified g end.

(** The port of an address: any number of digits, leading zeros allowed. *)
Definition read_port : reader N := fun s =>
  '(_, s) ← read_given_char ":" s; read_number 10 u16_max (length s) true s.

Definition read_scope_id : reader N := fun s =>
  match read_given_char "%" s with
  | Some (_, t) => read_number 10 u32_max (length t) true t
  | None => None
  end.

Definition read_sock_v6 : reader BindAddr := fun s =>
  '(_, s) ← read_given_char "[" s;
  '(g, s) ← read_ipv6_addr s;
  let '(scope, s) := default (0, s) (read_scope_id s) in
  '(_, s) ← read_given_char "]" s;
  '(p, s) ← read_port s;
  Some (SockV6 g scope p, s).

Definition read_sock_v4 : reader BindAddr := fun s =>
  '((a, b, c, d), s) ← read_ipv4_addr s; '(p, s) ← read_port s; Some (SockV4 a b c d p, s).

(** [str::parse::<SocketAddr>]. *)
Definition parse_bind_addr (s : str) : option BindAddr :=
  match read_sock_v4 s with
  | Some (a, []) => Some a
  | _ => match read_sock_v6 s with Some (a, []) => Some a | _ => None end
  end.

Definition show_bind_addr (a : BindAddr) : str :=
  match a with
  | SockV4 x y z w p => show_ipv4 x y z w ++ bs ":" ++ show_N p
  | SockV6 g scope p =>
    bs "[" ++ show_ipv6 g ++ (if scope =? 0 then [] else bs "%" ++ show_N scope) ++ bs "]:" ++ show_N p
  end.

Definition unspecified_v4 (port : N) : BindAddr := SockV4 0 0 0 0 port.
Definition unspecified_v6 (port : N) : BindAddr := SockV6 (replicate 8 0) 0 port.

(** The two branches that depend on the target system; [macos] selects. *)
Definition dual_stack_tcp_bind_addrs (macos : bool) (listen : str) : list str :=
  match parse_bind_addr listen with
  | None => [listen]
  | Some addr =>
    if negb (is_unspecified (sock_ip addr)) then [listen]
    else if negb (sock_is_ipv4 addr) then [listen]
    else
      let port := show_N (sock_port addr) in
      if macos then [bs "0.0.0.0:" ++ port; bs "[::]:" ++ port] else [bs "[" ++ show_ipv6 (replicate 8 0) ++ bs "]:" ++ port]
  end.

Definition h3_bind_candidates (macos : bool) (listen : str) : list BindAddr :=
  match parse_bind_addr listen with
  | None => []
  | Some addr =>
    if negb (is_unspecified (sock_ip addr)) then [addr]
    else
      let port := sock_port addr in
      if macos then [unspecified_v4 port; unspecified_v6 port] else [unspecified_v6 port; unspecified_v4 port]
  end.

Definition h3_bind_addrs (macos : bool) (listen : str) : list str := dual_stack_tcp_bind_addrs macos listen.
Definition tcp_bind_addrs (macos : bool) (listen : str) : list str := dual_stack_tcp_bind_addrs macos listen.

Definition format_bind_addr_list (addrs : list str) (fallback : str) : str :=
  match addrs with [] => fallback | [a] => a | _ => join ", " addrs end.

Definition effective_listen_display (macos : bool) (listen : str) : str :=
  let unspecified_ipv4 :=
    match parse_bind_addr listen with
    | Some a => is_unspecified (sock_ip a) && sock_is_ipv4 a
    | None => false
    end in
  format_bind_addr_list
    (if unspecified_ipv4 then show_bind_addr <$> h3_bind_candidates macos listen else tcp_bind_addrs macos listen) listen.

Definition effective_udp_listen_display (macos : bool) (listen : str) : str :=
  format_bind_addr_list (show_bind_addr <$> h3_bind_candidates macos listen) listen.

(** [bind_quinn_endpoint]: the first candidate that binds.  [bind] is the system's
    answer for one address: the socket or the endpoint on it fails, with an error
    number if there is one, or the endpoint is bound. *)
Inductive BindOutcome : Type := SocketFailed (errno : option N) | EndpointFailed (errno : option N) | Bound (addr : BindAddr).

Inductive BindError : Type :=
| InvalidListen (listen : str) | NoCandidates (listen : str) | BindFailed (errno : option N) | ConfigFailed.

Definition addr_in_use (e : option N) : bool := bool_decide (e = Some 48 \/ e = Some 98).

Fixpoint bind_first (bind : BindAddr -> BindOutcome) (last : option BindError)
    (candidates : list BindAddr) : result (option BindError) BindAddr :=
  match candidates with
  | [] => Err last
  | addr :: rest =>
    match bind addr with
    | Bound bound => Ok bound
    | SocketFailed e =>
      if addr_in_use e && (is_unspecified (sock_ip addr) && sock_is_ipv4 addr) then bind_first bind last rest
      else bind_first bind (Some (BindFailed e)) rest
    | EndpointFailed e => bind_first bind (Some (BindFailed e)) rest
    end
  end.

Definition bind_quinn_endpoint (macos config_ok : bool) (bind : BindAddr -> BindOutcome)
    (listen : str) : result BindError BindAddr :=
  match h3_bind_candidates macos listen with
  | [] => Err (InvalidListen listen)
  | cs =>
    if negb config_ok then Err ConfigFailed
    else
      match bind_first bind None cs with
      | Ok a => Ok a
      | Err (Some e) => Err e
      | Err None => Err (NoCandidates listen)
      end
  end.

(** ** Transport settings *)

Definition h3_env_u64 (env : str -> option str) (name : str) (dflt : N) : N :=
  default dflt (opt_filter (fun n => 0 <? n) (v ← env name; parse_u64 (trim v))).

(** [as u32]. *)
Definition as_u32 (n : N) : N := n mod 4294967296.

Record QuinnTransportConfig := mkQuinnTransportConfig {
  qt_idle_timeout_secs : N;
  qt_keepalive_secs : N;
  qt_max_streams_bidi : N;
  qt_stream_receive_window : N;
  qt_conn_receive_window : N;
  qt_udp_buffer_bytes : N;
}.

Definition UDP_BUFFER_BYTES : N := 7 * 1024 * 1024.

Definition effective_transport_config (env : str -> option str) : QuinnTransportConfig :=
  mkQuinnTransportConfig
    (h3_env_u64 env "PERTISK_HTTP3_IDLE_TIMEOUT_SECS" 300)
    (h3_env_u64 env "PERTISK_HTTP3_KEEPALIVE_SECS" 30)
    (as_u32 (h3_env_u64 env "PERTISK_HTTP3_MAX_STREAMS" 1024))
    (as_u32 (h3_env_u64 env "PERTISK_HTTP3_STREAM_RECEIVE_WINDOW" (8 * 1024 * 1024)))
    (as_u32 (h3_env_u64 env "PERTISK_HTTP3_CONN_RECEIVE_WINDOW" (64 * 1024 * 1024)))
    UDP_BUFFER_BYTES.

Record H3UpstreamPoolConfig := mkH3UpstreamPoolConfig {
  max_idle_per_host : N;
  pool_idle_timeout_secs : N;
  tcp_keepalive_secs : N;
}.

Definition upstream_pool_config (env : str -> option str) (performance : bool) : H3UpstreamPoolConfig :=
  mkH3UpstreamPoolConfig
    (h3_env_u64 env "PERTISK_H3_UPSTREAM_POOL_MAX_IDLE" (if performance then 256 else 64))
    (h3_env_u64 env "PERTISK_H3_UPSTREAM_POOL_IDLE_TIMEOUT_SECS" (if performance then 120 else 90))
    (h3_env_u64 env "PERTISK_H3_UPSTREAM_TCP_KEEPALIVE_SECS" 60).

Definition is_benign_h3_disconnect (err : str) : bool :=
  let msg := to_ascii_lowercase err in
  contains "aborted by peer" msg || contains "closed abruptly" msg || contains "connection reset" msg
  || contains "timed out" msg || contains "h3_no_error" msg || contains "h3_cancel" msg.

(** [h3_query_param]: the first pair with the key; only [+] is decoded. *)
Fixpoint h3_find_pair (pairs : list str) (key : str) : option str :=
  match pairs with
  | [] => None
  | p :: rest =>
    let '(k, v) := default (p, []) (split_once "=" p) in
    if k =s key then Some (replace_byte "+" (bs " ") v) else h3_find_pair rest key
  end.

Definition h3_query_param (query key : str) : option str := h3_find_pair (split_on "&" query) key.

(** ** The request *)

(** What the receiving half of a stream delivers; the end of the list is the FIN. *)
Inductive RecvEvent : Type := Chunk (data : str) | RecvError.

Section quinn.
Context `{HE : HeaderEntries H} `{MV : MacVerify}.
Variable iter_routes : gmap str (list Route) -> list (str * list Route).
Variable iter_edge : gmap str (gmap str EdgePolicy) -> list (str * gmap str EdgePolicy).
Variable iter_headers : gmap str str -> list (str * str).
Variable to_lowercase : str -> str.

(** What goes out on the stream. *)
Inductive Frame : Type := FHead (rs : ResponseHeader H) | FData (body : str) | FFin.

Inductive H3Error : Type := RecvFailed | SendFailed (f : Frame).

Record UpstreamRequest := mkUpstreamRequest {
  ur_method : str;
  ur_url : str;
  ur_headers : H;
  ur_body : str;
}.

(** The connection, the stream's willingness to take a frame, the HTTP client's
    answer (with the body it could read, if it could), and the text of the
    client's error for a header it refuses. *)
Record H3Io := mkH3Io {
  io_remote : IpAddr;
  io_accepts : Frame -> bool;
  io_upstream : UpstreamRequest -> result str (ResponseHeader H * option str);
  io_builder_error : str;
}.

(** The shared tables, and the stream: what it will still deliver, the frames
    sent on it, the requests made upstream. *)
Record H3State := mkH3State {
  hs_plan : PlanState;
  hs_windows : Windows;
  hs_rates : RateMap;
  hs_metrics : ProxyMetrics;
  hs_recv : list RecvEvent;
  hs_frames : list Frame;
  hs_sent_up : list UpstreamRequest;
}.

Definition hupd_plan (p : PlanState) (s : H3State) : H3State :=
  mkH3State p (hs_windows s) (hs_rates s) (hs_metrics s) (hs_recv s) (hs_frames s) (hs_sent_up s).
Definition hupd_windows (w : Windows) (s : H3State) : H3State :=
  mkH3State (hs_plan s) w (hs_rates s) (hs_metrics s) (hs_recv s) (hs_frames s) (hs_sent_up s).
Definition hupd_rates (r : RateMap) (s : H3State) : H3State :=
  mkH3State (hs_plan s) (hs_windows s) r (hs_metrics s) (hs_recv s) (hs_frames s) (hs_sent_up s).
Definition hupd_metrics (f : ProxyMetrics -> ProxyMetrics) (s : H3State) : H3State :=
  mkH3State (hs_plan s) (hs_windows s) (hs_rates s) (f (hs_metrics s)) (hs_recv s) (hs_frames s) (hs_sent_up s).
Definition hupd_recv (r : list RecvEvent) (s : H3State) : H3State :=
  mkH3State (hs_plan s) (hs_windows s) (hs_rates s) (hs_metrics s) r (hs_frames s) (hs_sent_up s).
Definition push_frame (f : Frame) (s : H3State) : H3State :=
  mkH3State (hs_plan s) (hs_windows s) (hs_rates s) (hs_metrics s) (hs_recv s) (hs_frames s ++ [f]) (hs_sent_up s).
Definition push_upstream (u : UpstreamRequest) (s : H3State) : H3State :=
  mkH3State (hs_plan s) (hs_windows s) (hs_rates s) (hs_metrics s) (hs_recv s) (hs_frames s) (hs_sent_up s ++ [u]).

(** Early return: [HDone r] is [return r]. *)
Inductive hflow (A : Type) : Type := HNext (a : A) | HDone (r : result H3Error unit).
Definition HFlow (A : Type) : Type := H3State -> hflow A * H3State.

#[export] Instance hflow_ret : MRet HFlow := fun _ a s => (HNext _ a, s).
#[export] Instance hflow_bind : MBind HFlow := fun A B f m s =>
  match m s with
  | (HNext _ a, s') => f a s'
  | (HDone _ r, s') => (HDone _ r, s')
  end.

Definition hstop {A} (r : result H3Error unit) : HFlow A := fun s => (HDone _ r, s).
Definition hmodify (f : H3State -> H3State) : HFlow unit := fun s => (HNext _ tt, f s).
Definition hwhen (b : bool) (m : HFlow unit) : HFlow unit := if b then m else mret tt.

(** *** The stream *)

(** [read_h3_request_body]: reads to the FIN, keeping the data if asked to. *)
Fixpoint read_events (store : bool) (acc : str) (evs : list RecvEvent) : option str * list RecvEvent :=
  match evs with
  | [] => (Some (if store then acc else []), [])
  | Chunk data :: rest => read_events store (if store then acc ++ data else acc) rest
  | RecvError :: rest => (None, rest)
  end.

Definition read_h3_request_body (store : bool) : HFlow str := fun s =>
  let '(r, rest) := read_events store [] (hs_recv s) in
  let s := hupd_recv rest s in
  match r with Some body => (HNext _ body, s) | None => (HDone _ (Err RecvFailed), s) end.

Definition send_frame (io : H3Io) (f : Frame) : HFlow unit := fun s =>
  if io_accepts io f then (HNext _ tt, push_frame f s) else (HDone _ (Err (SendFailed f)), s).

Definition send_h3_response (io : H3Io) (rs : ResponseHeader H) (body : str) : HFlow unit :=
  send_frame io (FHead rs) ≫= fun _ => send_frame io (FData body) ≫= fun _ => send_frame io FFin.

Definition drain_and_send_h3_response (io : H3Io) (rs : ResponseHeader H) (body : str) : HFlow unit :=
  read_h3_request_body false ≫= fun _ => send_h3_response io rs body.

(** Answer here: send and [return Ok(())]. *)
Definition answer {A} (io : H3Io) (rs : ResponseHeader H) (body : str) : HFlow A :=
  drain_and_send_h3_response io rs body ≫= fun _ => hstop (Ok tt).

(** *** Responses *)

(** [Response::builder().header(..)], which appends. *)
Definition built (hs : list (str * str)) : H := foldl (fun h kv => h_append h kv.1 kv.2) h_empty hs.

Definition H3_SERVER : str := bs "pertisk-proxy/h3".

Definition plain_response (ingress : bool) (status : N) (body : str) : ResponseHeader H :=
  mkResponseHeader status
    (insert_ok "content-length" (nat_str (length body))
       (built [(bs "content-type", bs "text/plain"); (bs "server", H3_SERVER); (bs "x-app-name", app_name ingress)])).

Definition plain {A} (E : Env H) (io : H3Io) (status : N) (body : str) : HFlow A :=
  answer io (plain_response (ev_ingress E) status body) body.

(** With [headers_mut().insert(..)] of more headers. *)
Definition plain_with (E : Env H) (io : H3Io) (status : N) (body : str) (extra : list (str * str)) : HFlow unit :=
  answer io (map_rs_headers (insert_all_ok extra) (plain_response (ev_ingress E) status body)) body.

Definition h3_request_host (req : RequestHeader H) : str :=
  match opt_filter (fun h => negb (is_empty h)) (trim <$> header req "host") with
  | Some host => split_first ":" host
  | None => default [] (uri_authority_host (rq_uri req))
  end.

Definition record_h3_request (host : str) (bytes_received bytes_sent : N) (upstream_error is_grpc : bool)
    (m : ProxyMetrics) : ProxyMetrics :=
  if is_empty host then m
  else
    let m := inc_site_protocol_requests to_lowercase host HTTP_3 (inc https_requests_total (inc h3_requests_total m)) in
    let m := if is_grpc then inc grpc_requests_total m else m in
    let m := if upstream_error then inc upstream_errors_total m else m in
    add_bytes bytes_sent_total bytes_sent (add_bytes bytes_received_total bytes_received m).

(** *** The stages of [handle_request_inner] *)

Definition try_serve_health (E : Env H) (io : H3Io) (req : RequestHeader H) : HFlow unit :=
  let path := uri_path (rq_uri req) in
  let get := rq_method req =s "GET" in
  let head := rq_method req =s "HEAD" in
  hwhen ((get || head) && is_health_path path)
    (let body := if head then [] else health_body path in
     let h := built [(bs "content-type", health_content_type path); (bs "server", H3_SERVER);
                     (bs "x-app-name", app_name (ev_ingress E))] in
     let h := if is_empty body then h else insert_ok "content-length" (nat_str (length body)) h in
     drain_and_send_h3_response io (mkResponseHeader 200 h) body ≫= fun _ =>
     hmodify (hupd_metrics (record_h3_request (h3_request_host req) 0 (N.of_nat (length body)) false false)) ≫= fun _ =>
     hstop (Ok tt)).

Definition stage_compat (E : Env H) (io : H3Io) (req : RequestHeader H) : HFlow unit :=
  hwhen (is_h3_incompatible_request (rq_headers req) (rq_method req) (uri_path (rq_uri req)))
    (plain E io 421 "long-lived stream requires HTTP/2 (Alt-Svc: clear)").

Definition stage_known_host (E : Env H) (io : H3Io) (req : RequestHeader H) : HFlow unit :=
  let host := h3_request_host req in
  hwhen (deny_enabled (ev_env E) && negb (is_empty host) && negb (has_host iter_routes (ev_table E) host))
    (plain E io 404 "unknown host").

Definition stage_plan (E : Env H) (io : H3Io) (req : RequestHeader H) : HFlow ForwardPlan := fun s =>
  let '(r, ps) := resolve_forward iter_routes iter_edge iter_headers (ev_instant E) (ev_probe E) (ev_table E)
                    (h3_request_host req) (path_and_query (rq_uri req)) (hs_plan s) in
  let s := hupd_plan ps s in
  match r with
  | Ok plan => (HNext _ plan, s)
  | Err _ => plain E io 404 "no route" s
  end.

Definition stage_limits (E : Env H) (io : H3Io) (req : RequestHeader H) (mw : MiddlewareAction) : HFlow unit := fun s =>
  let client_ip := show_ip (io_remote io) in
  let host := h3_request_host req in
  let edge := ma_edge mw in
  if (0 <? x4xx_limit_rps edge) && x4xx_blocked (ev_secs E) client_ip host (x4xx_limit_rps edge) (hs_windows s) then
    plain E io 429 "too many errors" s
  else
    let '(limited, ws) :=
      if 0 <? rate_limit_rps edge then
        rate_limited (ev_secs E) (bs "rps|" ++ client_ip ++ bs "|" ++ host) (rate_limit_rps edge) (hs_windows s)
      else (false, hs_windows s) in
    let s := hupd_windows ws s in
    if limited then plain E io 429 "too many requests" s else (HNext _ tt, s).

Definition h3_auth_ok (E : Env H) (req : RequestHeader H) (a : RouteAuth) : bool :=
  match a with
  | ForwardAuth url =>
    forward_auth_ok (ev_forward_auth E) url (h3_request_host req) (uri_path (rq_uri req)) (header req)
  | other => auth_header_ok (ev_secs E) other (header req) (default [] (uri_query (rq_uri req)))
  end.

Definition stage_auth (E : Env H) (io : H3Io) (req : RequestHeader H) (mw : MiddlewareAction) : HFlow unit :=
  match auth (ma_edge mw) with
  | None => mret tt
  | Some a => hwhen (negb (h3_auth_ok E req a)) (plain E io 401 "unauthorized")
  end.

Definition stage_files (E : Env H) (io : H3Io) (req : RequestHeader H) (mw : MiddlewareAction) : HFlow unit :=
  match file_root mw with
  | None => mret tt
  | Some root =>
    match (p ← safe_file root (uri_path (rq_uri req)); body ← ev_read_file E p; Some (p, body)) with
    | Some (p, body) =>
      plain_with E io 200 body [(bs "content-type", bs "application/octet-stream"); (bs "content-type", guess_mime p)]
    | None => plain E io 404 "not found"
    end
  end.

(** The client's address: the socket's, or what the headers say. *)
Definition h3_client_ip (io : H3Io) (req : RequestHeader H) : option str :=
  resolve_client_ip (Some (show_ip (io_remote io))) (header req "x-forwarded-for") (header req "x-real-ip").

Definition stage_geoip (E : Env H) (io : H3Io) (req : RequestHeader H) (mw : MiddlewareAction) : HFlow unit :=
  let block (reason : str) :=
    hmodify (hupd_metrics (inc geoip_blocked_total)) ≫= fun _ =>
    plain_with E io 403 "forbidden" [(bs "x-pertisk-block", reason)] in
  if negb (geo_is_active (ma_geoip mw)) then mret tt
  else
    match evaluate_ip (ev_geo E) (ma_geoip mw) (h3_client_ip io req) with
    | Allow => mret tt
    | BlockCountry => block "geoip-country"
    | BlockAsn => block "geoip-asn"
    end.

Definition html : list (str * str) := [(bs "content-type", bs "text/html; charset=utf-8")].

Definition stage_captcha (E : Env H) (io : H3Io) (req : RequestHeader H) (mw : MiddlewareAction) : HFlow unit :=
  let path := uri_path (rq_uri req) in
  let query := default [] (uri_query (rq_uri req)) in
  let pol := captcha (ma_security mw) in
  if negb (is_captcha_path path) then mret tt
  else
    let ttl := if captcha_enabled pol then cookie_ttl_secs pol else 86400 in
    if path =s CAPTCHA_VERIFY_PATH then
      let next := h3_query_param query "next" in
      match verify_and_pass_cookie (ev_secret E) (ev_secs E) (h3_query_param query "token")
              (h3_query_param query "answer") next (h3_client_ip io req) ttl with
      | Ok (set_cookie, location) =>
        hmodify (hupd_metrics (inc captcha_passed_total)) ≫= fun _ =>
        plain_with E io 302 [] [(bs "location", location); (bs "set-cookie", set_cookie)]
      | Err _ =>
        hmodify (hupd_metrics (inc captcha_failed_total)) ≫= fun _ =>
        let body := (page E (default (bs "/") next) "retry").1 in
        plain_with E io 403 body html
      end
    else
      let body := (page E (default (bs "/") (h3_query_param query "next")) "check").1 in
      plain_with E io 200 body html.

Definition h3_view (io : H3Io) (req : RequestHeader H) : RequestView :=
  mkRequestView (rq_method req) (uri_path (rq_uri req)) (default [] (uri_query (rq_uri req)))
    (header req "user-agent") (header req "accept") (header req "accept-language") (header req "cookie")
    (h3_client_ip io req).

Definition stage_security (E : Env H) (io : H3Io) (req : RequestHeader H) (mw : MiddlewareAction) : HFlow unit := fun s =>
  let p := ma_security mw in
  if negb (security_is_active p) then (HNext _ tt, s)
  else
    let view := h3_view io req in
    let '(d, rates) := evaluate (ev_secret E) (ev_secs E) (ev_instant E) (hs_rates s) p view in
    let s := hupd_rates rates s in
    match sec_action d with
    | SecAllow => (HNext _ tt, s)
    | SecLog => (HNext _ tt, hupd_metrics (inc waf_logged_total) s)
    | SecChallenge =>
      let s := if starts_with "bot" (sec_reason d) then hupd_metrics (inc bot_challenged_total) s else s in
      let next := if is_empty (rv_query view) then rv_path view else rv_path view ++ bs "?" ++ rv_query view in
      let body := (page E next (sec_reason d)).1 in
      plain_with E io 403 body (html ++ [(bs "x-pertisk-block", sec_reason d)]) s
    | SecBlock =>
      let s := if starts_with "waf" (sec_reason d) then hupd_metrics (inc waf_blocked_total) s
               else if starts_with "bot" (sec_reason d) then hupd_metrics (inc bot_blocked_total) s else s in
      plain_with E io 403 "forbidden" [(bs "x-pertisk-block", sec_reason d)] s
    end.

(** *** The upstream hop *)

Definition content_length_of (req : RequestHeader H) : option N := v ← header req "content-length"; parse_u64 v.

Definition expects_body (req : RequestHeader H) : bool :=
  from_option (fun n => 0 <? n) false (content_length_of req)
  || ((rq_method req =s "POST") || (rq_method req =s "PUT") || (rq_method req =s "PATCH")).

(** The request headers copied upstream: all but [Host], and for a registry
    neither cookies nor forwarding headers. *)
Definition copies (oci : bool) (name : str) : bool :=
  negb (name =s "host")
  && negb (oci && ((name =s "cookie") || existsb (eq_ignore_ascii_case name) forwarded_names)).

Definition copied_headers (oci : bool) (h : H) : H :=
  foldl (fun b kv => if copies oci kv.1 then h_append b kv.1 kv.2 else b) h_empty (h_iter h).

(** [RequestBuilder::header]: appends, or poisons the builder. *)
Definition rb_header (b : option H) (kv : str * str) : option H :=
  h ← b; if name_ok kv.1 && value_ok kv.2 then Some (h_append h kv.1 kv.2) else None.

Definition rb_headers (b : option H) (kvs : list (str * str)) : option H := foldl rb_header b kvs.

Definition forwarded_pairs (client_ip : option str) (req : RequestHeader H) : list (str * str) :=
  from_option (fun ip => forwarded_client_ip_header_pairs ip (header req "x-forwarded-for")) [] client_ip.

Definition upstream_headers (client_ip : option str) (req : RequestHeader H) (mw : MiddlewareAction) : option H :=
  let path := uri_path (rq_uri req) in
  let host := h3_request_host req in
  let oci := is_oci_registry_path path in
  let b := Some (copied_headers oci (rq_headers req)) in
  let b := if oci then rb_headers b (registry_upstream_header_pairs host (rq_method req) path None true) else b in
  let b := rb_headers b (request_headers mw) in
  let b := if oci then b else rb_headers b (forwarded_pairs client_ip req) in
  rb_header b (bs "host", host).

(** What the client sees of the upstream's headers. *)
Definition downstream_headers (ingress : bool) (req : RequestHeader H) (mw : MiddlewareAction) (body : str) (h : H) : H :=
  let h := remove_header "transfer-encoding" (remove_header "server" h) in
  let h := insert_ok "content-length" (nat_str (length body)) h in
  let h := insert_ok "x-app-name" (app_name ingress) (h_put h "server" H3_SERVER) in
  let h :=
    if is_oci_registry_path (uri_path (rq_uri req)) then
      let h := h_put (remove_header "set-cookie" h) "Alt-Svc" "clear" in
      match hget h "location" ≫= fun loc => rewrite_registry_location_value loc true with
      | Some https => insert_ok "location" https h
      | None => h
      end
    else h in
  insert_all_ok (response_headers mw) h.

Definition stage_forward (E : Env H) (io : H3Io) (req : RequestHeader H) (plan : ForwardPlan) : HFlow unit :=
  let mw := plan_middleware plan in
  let host := h3_request_host req in
  let grpc := is_grpc_request (rq_headers req) in
  read_h3_request_body (expects_body req) ≫= fun body =>
  let bytes_received := saturating_add u64_max (default 0 (content_length_of req)) (N.of_nat (length body)) in
  let record sent err := hmodify (hupd_metrics (record_h3_request host bytes_received sent err grpc)) in
  let failed (msg : str) :=
    send_h3_response io (plain_response (ev_ingress E) 502 msg) msg ≫= fun _ => record 0 true in
  match upstream_headers (h3_client_ip io req) req mw with
  | None => failed (io_builder_error io)
  | Some h =>
    let up := mkUpstreamRequest (rq_method req) (upstream_url plan) h body in
    hmodify (push_upstream up) ≫= fun _ =>
    match io_upstream io up with
    | Err msg => failed msg
    | Ok (rs, read) =>
      let body := default [] read in
      let h := downstream_headers (ev_ingress E) req mw body (rs_headers rs) in
      send_h3_response io (mkResponseHeader (rs_status rs) h) body ≫= fun _ => record (N.of_nat (length body)) false
    end
  end.

(** The checks before the upstream hop. *)
Definition h3_entry (E : Env H) (io : H3Io) (req : RequestHeader H) : HFlow unit :=
  try_serve_health E io req ≫= fun _ =>
  stage_compat E io req ≫= fun _ =>
  stage_known_host E io req.

Definition h3_policies (E : Env H) (io : H3Io) (req : RequestHeader H) (mw : MiddlewareAction) : HFlow unit :=
  stage_limits E io req mw ≫= fun _ =>
  stage_auth E io req mw ≫= fun _ =>
  stage_files E io req mw ≫= fun _ =>
  stage_geoip E io req mw ≫= fun _ =>
  stage_captcha E io req mw ≫= fun _ =>
  stage_security E io req mw.

Definition handle_request_inner (E : Env H) (io : H3Io) (req : RequestHeader H) (s : H3State)
    : result H3Error unit * H3State :=
  match (h3_entry E io req ≫= fun _ =>
         stage_plan E io req ≫= fun plan =>
         h3_policies E io req (plan_middleware plan) ≫= fun _ =>
         stage_forward E io req plan) s with
  | (HNext _ _, s) => (Ok tt, s)
  | (HDone _ r, s) => (r, s)
  end.

Definition handle_request (E : Env H) (io : H3Io) (req : RequestHeader H) (s : H3State)
    : result H3Error unit * H3State :=
  let s := hupd_metrics (inc active_connections) s in
  let '(r, s) := handle_request_inner E io req s in
  (r, hupd_metrics dec_active_connections s).

End quinn.
Arguments Frame H : clear implicits.
Arguments H3Error H : clear implicits.
Arguments UpstreamRequest H : clear implicits.
Arguments H3Io H : clear implicits.
Arguments H3State H : clear implicits.
Arguments HFlow H A : clear implicits.
Arguments hflow H A : clear implicits.
Arguments HNext {H A} _.
Arguments HDone {H A} _.
