(* ===== verification/H3Props.v ===== *)
(** * What the HTTP/3 server guarantees

    Theorems about the definitions of [H3]: every request is answered once, which
    requests reach the upstream, that the gateway and the HTTP/3 server apply the
    same policies, up to the address they limit, what the upstream is told about the client. *)

From S2P Require Import Prelude RustStr Ip GeoIp Waf Bot Captcha Security Edge EdgeAuth ProxyConfig Router Forward.
From S2P Require Import Http Grpc Registry Respond Telemetry CertStore Gateway GatewayProps H3.

Section h3_lemmas.
Context `{HE : HeaderEntries H} `{MV : MacVerify}.
Variable iter_routes : gmap str (list Route) -> list (str * list Route).
Variable iter_edge : gmap str (gmap str EdgePolicy) -> list (str * gmap str EdgePolicy).
Variable iter_headers : gmap str str -> list (str * str).
Variable to_lowercase : str -> str.

Abbreviation inner := (handle_request_inner iter_routes iter_edge iter_headers to_lowercase).
Abbreviation serve := (handle_request iter_routes iter_edge iter_headers to_lowercase).

Implicit Types (E : Env H) (io : H3Io H) (req : RequestHeader H) (s : H3State H).

(** ** One response on the stream *)

Definition h3_active (s : H3State H) : N := counters (hs_metrics s) active_connections.

(** The frames [l] are the start of one response, and all of it exactly on success. *)
Definition one_response (r : result (H3Error H) unit) (l : list (Frame H)) : Prop :=
  exists rs body, l `prefix_of` [FHead rs; FData body; FFin] /\ (r = Ok tt <-> l = [FHead rs; FData body; FFin]).

(** A step that has not touched the stream's sending half. *)
Record quiet (s s' : H3State H) : Prop := {
  quiet_frames : hs_frames s' = hs_frames s;
  quiet_up : hs_sent_up s' = hs_sent_up s;
  quiet_active : h3_active s' = h3_active s;
  quiet_recv : hs_recv s' = hs_recv s;
}.

(** A request answered from [s] without an upstream. *)
Record local_end (s : H3State H) (r : result (H3Error H) unit) (s' : H3State H) : Prop := {
  end_frames : exists l, hs_frames s' = hs_frames s ++ l /\ one_response r l;
  end_up : hs_sent_up s' = hs_sent_up s;
  end_active : h3_active s' = h3_active s;
}.

(** A stage goes on quietly or answers the request. *)
Definition settles {A} (m : HFlow H A) : Prop :=
  forall s, match m s with (HNext _, s') => quiet s s' | (HDone r, s') => local_end s r s' end.

Lemma quiet_refl s : quiet s s.
Proof. done. Qed.

Lemma quiet_end s s1 r s2 : quiet s s1 -> local_end s1 r s2 -> local_end s r s2.
Proof. intros [Hf Hu Ha _] [He Hu' Ha']. split; [by rewrite <- Hf|congruence|congruence]. Qed.

Lemma settles_ret {A} (a : A) : settles (mret a).
Proof. intros s. apply quiet_refl. Qed.

Lemma settles_bind {A B} (m : HFlow H A) (f : A -> HFlow H B) :
  settles m -> (forall a, settles (f a)) -> settles (m ≫= f).
Proof.
  intros Hm Hf s. unfold mbind, hflow_bind. specialize (Hm s).
  destruct (m s) as [[a|r] s1]; [|done]. specialize (Hf a s1).
  destruct (f a s1) as [[b|r] s2]; [|by eapply quiet_end].
  destruct Hm, Hf. split; congruence.
Qed.

Lemma settles_when b m : settles m -> settles (hwhen b m).
Proof. destruct b; [done|intros _; apply settles_ret]. Qed.

Lemma hbind_run {A B} (m : HFlow H A) (f : A -> HFlow H B) s :
  (m ≫= f) s = match m s with (HNext a, s') => f a s' | (HDone r, s') => (HDone r, s') end.
Proof. done. Qed.

(** Sending a response: all three frames, or a proper prefix and an error. *)
Lemma send_h3_response_spec io rs body s :
  match send_h3_response io rs body s with
  | (HNext _, s') => hs_frames s' = hs_frames s ++ [FHead rs; FData body; FFin]
  | (HDone r, s') => exists l, hs_frames s' = hs_frames s ++ l /\ one_response r l
  end /\ hs_sent_up (send_h3_response io rs body s).2 = hs_sent_up s /\
  hs_metrics (send_h3_response io rs body s).2 = hs_metrics s.
Proof.
  unfold send_h3_response, mbind, hflow_bind, send_frame.
  destruct (io_accepts io (FHead rs)); cbn [io_accepts fst snd].
  2: { split_and!; [|done|done]. exists []. rewrite app_nil_r. split; [done|].
       exists rs, body. split; [apply prefix_nil|done]. }
  destruct (io_accepts io (FData body)); cbn.
  2: { split_and!; [|done|done]. exists [FHead rs]. split; [done|]. exists rs, body. split; [by exists [FData body; FFin]|done]. }
  destruct (io_accepts io FFin); cbn.
  - split_and!; [|done|done]. by rewrite <- !app_assoc.
  - split_and!; [|done|done]. exists [FHead rs; FData body]. rewrite <- app_assoc.
    split; [done|]. exists rs, body. split; [by exists [FFin]|done].
Qed.

Lemma drain_spec io rs body s :
  match drain_and_send_h3_response io rs body s with
  | (HNext _, s') => hs_frames s' = hs_frames s ++ [FHead rs; FData body; FFin]
  | (HDone r, s') => exists l, hs_frames s' = hs_frames s ++ l /\ one_response r l
  end /\ hs_sent_up (drain_and_send_h3_response io rs body s).2 = hs_sent_up s /\
  hs_metrics (drain_and_send_h3_response io rs body s).2 = hs_metrics s.
Proof.
  unfold drain_and_send_h3_response, read_h3_request_body, mbind, hflow_bind.
  destruct (read_events false [] (hs_recv s)) as [[b|] rest].
  - apply (send_h3_response_spec io rs body (hupd_recv rest s)).
  - split_and!; [|done|done]. exists []. rewrite app_nil_r. split; [done|].
    exists rs, body. split; [apply prefix_nil|done].
Qed.

(** Answering ends the request. *)
Lemma answer_ends {A} io rs body s : exists r s', answer (A := A) io rs body s = (HDone r, s') /\ local_end s r s'.
Proof.
  unfold answer, mbind, hflow_bind, hstop. destruct (drain_spec io rs body s) as (Hf & Hu & Hm).
  destruct (drain_and_send_h3_response io rs body s) as [[[]|r] s'] eqn:Ed; cbn [fst snd] in *.
  - exists (Ok tt), s'. split; [done|]. split; [|done|unfold h3_active; by rewrite Hm].
    eexists. split; [done|]. exists rs, body. split; [by exists []|done].
  - exists r, s'. split; [done|]. split; [done|done|unfold h3_active; by rewrite Hm].
Qed.

Lemma settles_answer {A} io rs body : settles (answer (A := A) io rs body).
Proof. intros s. by destruct (answer_ends (A := A) io rs body s) as (r & s' & -> & He). Qed.

Lemma settles_plain {A} E io status body : settles (plain (A := A) E io status body).
Proof. apply settles_answer. Qed.

Lemma settles_plain_with E io status body extra : settles (plain_with E io status body extra).
Proof. apply settles_answer. Qed.

Lemma settles_inc c : c <> active_connections -> settles (hmodify (H := H) (hupd_metrics (inc c))).
Proof. intros Hc s. split; [done|done| |done]. by apply inc_other_active. Qed.

(** A stage run from a quietly changed state. *)
Lemma settles_from {A} (m : HFlow H A) s s0 : settles m -> quiet s s0 ->
  match m s0 with (HNext _, s') => quiet s s' | (HDone r, s') => local_end s r s' end.
Proof.
  intros Hm Hq. specialize (Hm s0).
  destruct (m s0) as [[a|r] s']; [destruct Hq, Hm; split; congruence|by eapply quiet_end].
Qed.

#[local] Hint Resolve settles_ret settles_plain settles_plain_with settles_when : core.

(** ** Every stage settles *)

Lemma record_active host br bsent ue g m :
  counters (record_h3_request to_lowercase host br bsent ue g m) active_connections = counters m active_connections.
Proof.
  unfold record_h3_request. destruct (is_empty host); [done|]. cbn zeta.
  rewrite !add_bytes_active by done.
  destruct ue, g; rewrite ?inc_other_active by done; rewrite site_protocol_counters, !inc_other_active by done; done.
Qed.

Lemma settles_health E io req : settles (try_serve_health to_lowercase E io req).
Proof.
  apply settles_when. cbn zeta. intros s. unfold mbind, hflow_bind, hmodify, hstop.
  match goal with |- context [drain_and_send_h3_response io ?rs ?b s] =>
    destruct (drain_spec io rs b s) as (Hf & Hu & Hm);
    destruct (drain_and_send_h3_response io rs b s) as [[[]|r] s'] end; cbn [fst snd] in *.
  - split; [|done|unfold h3_active; cbn; by rewrite record_active, Hm].
    eexists. split; [exact Hf|]. do 2 eexists. split; [by exists []|done].
  - split; [done|done|unfold h3_active; by rewrite Hm].
Qed.

Lemma settles_compat E io req : settles (stage_compat E io req).
Proof. unfold stage_compat. auto. Qed.

Lemma settles_known_host E io req : settles (stage_known_host iter_routes E io req).
Proof. unfold stage_known_host. cbn zeta. auto. Qed.

Lemma settles_plan E io req : settles (stage_plan iter_routes iter_edge iter_headers E io req).
Proof.
  intros s. unfold stage_plan. destruct (resolve_forward _ _ _ _ _ _ _ _ _) as [[plan|e] ps]; [done|].
  by apply (settles_from _ s (hupd_plan ps s) (settles_plain E io 404 "no route")).
Qed.

Lemma settles_limits E io req mw : settles (stage_limits E io req mw).
Proof.
  intros s. unfold stage_limits. cbn zeta. case_if; [apply settles_plain|].
  destruct (if _ <? _ then _ else _) as [limited ws]. destruct limited; [|done].
  by apply (settles_from _ s (hupd_windows ws s) (settles_plain E io 429 "too many requests")).
Qed.

Lemma settles_auth E io req mw : settles (stage_auth E io req mw).
Proof. unfold stage_auth. destruct (auth _) as [a|]; auto. Qed.

Lemma settles_files E io req mw : settles (stage_files E io req mw).
Proof.
  unfold stage_files. destruct (file_root mw) as [root|]; [|auto]. destruct (_ ≫= _) as [[p body]|]; auto.
Qed.

Lemma settles_counted c (m : HFlow H unit) : c <> active_connections -> settles m ->
  settles (hmodify (H := H) (hupd_metrics (inc c)) ≫= fun _ => m).
Proof. intros Hc Hm. apply settles_bind; [by apply settles_inc|done]. Qed.

Lemma settles_geoip E io req mw : settles (stage_geoip E io req mw).
Proof.
  unfold stage_geoip. cbn zeta. case_if; [auto|]. destruct (evaluate_ip _ _ _); [auto| |]; by apply settles_counted.
Qed.

Lemma settles_captcha E io req mw : settles (stage_captcha E io req mw).
Proof.
  unfold stage_captcha. cbn zeta. case_if; [auto|]. case_if; [|auto].
  destruct (verify_and_pass_cookie _ _ _ _ _ _ _) as [[c l]|]; by apply settles_counted.
Qed.

Lemma quiet_inc c s s0 : c <> active_connections -> quiet s s0 -> quiet s (hupd_metrics (inc c) s0).
Proof. intros Hc [Hf Hu Ha Hr]. split; [done|done| |done]. rewrite <- Ha. by apply inc_other_active. Qed.

Lemma settles_security E io req mw : settles (stage_security E io req mw).
Proof.
  intros s. unfold stage_security. cbn zeta. case_if; [done|].
  destruct (evaluate _ _ _ _ _ _) as [d rates]. destruct (sec_action d); [done|by apply quiet_inc| |].
  - apply settles_from; [apply settles_plain_with|].
    case_if; [by apply quiet_inc|done].
  - apply settles_from; [apply settles_plain_with|]. case_if; [by apply quiet_inc|].
    case_if; [by apply quiet_inc|done].
Qed.

Lemma settles_entry E io req : settles (h3_entry iter_routes to_lowercase E io req).
Proof.
  apply settles_bind; [apply settles_health|]. intros _. apply settles_bind; [apply settles_compat|]. intros _.
  apply settles_known_host.
Qed.

Lemma settles_policies E io req mw : settles (h3_policies E io req mw).
Proof.
  apply settles_bind; [apply settles_limits|]. intros _. apply settles_bind; [apply settles_auth|]. intros _.
  apply settles_bind; [apply settles_files|]. intros _. apply settles_bind; [apply settles_geoip|]. intros _.
  apply settles_bind; [apply settles_captcha|]. intros _. apply settles_security.
Qed.

(** ** The upstream hop *)

(** The hop answers once, sends at most the one request [stage_forward] builds,
    and leaves the connection gauge alone. *)
Record hop (req : RequestHeader H) (io : H3Io H) (plan : ForwardPlan) (s : H3State H)
    (r : result (H3Error H) unit) (s' : H3State H) : Prop := {
  hop_frames : exists l, hs_frames s' = hs_frames s ++ l /\ one_response r l;
  hop_up : hs_sent_up s' = hs_sent_up s ++
    match (read_events (expects_body req) [] (hs_recv s)).1, upstream_headers (h3_client_ip io req) req (plan_middleware plan) with
    | Some body, Some h => [mkUpstreamRequest (rq_method req) (upstream_url plan) h body]
    | _, _ => []
    end;
  hop_active : h3_active s' = h3_active s;
}.

Definition outcome (x : hflow H unit * H3State H) : result (H3Error H) unit * H3State H :=
  match x with (HNext _, s') => (Ok tt, s') | (HDone r, s') => (r, s') end.

Lemma send_then_record io rs body f s :
  (forall m, counters (f m) active_connections = counters m active_connections) ->
  let x := outcome ((send_h3_response io rs body ≫= fun _ => hmodify (hupd_metrics f)) s) in
  (exists l, hs_frames x.2 = hs_frames s ++ l /\ one_response x.1 l) /\ hs_sent_up x.2 = hs_sent_up s /\
  h3_active x.2 = h3_active s.
Proof.
  intros Hm x. unfold x, mbind, hflow_bind, outcome, hmodify.
  destruct (send_h3_response_spec io rs body s) as (Hf & Hu & Hme).
  destruct (send_h3_response io rs body s) as [[[]|r] s']; cbn in *.
  - split_and!; [|done|unfold h3_active; cbn; by rewrite Hm, Hme]. eexists. split; [exact Hf|].
    exists rs, body. split; [by exists []|done].
  - split_and!; [done|done|unfold h3_active; by rewrite Hme].
Qed.

Lemma forward_hop E io req plan s :
  let x := outcome (stage_forward to_lowercase E io req plan s) in hop req io plan s x.1 x.2.
Proof.
  intros x. unfold x, stage_forward. cbn zeta. rewrite hbind_run. unfold read_h3_request_body.
  destruct (read_events (expects_body req) [] (hs_recv s)) as [[body|] rest] eqn:Er.
  2: { split; cbn; [|rewrite Er; cbn; by rewrite app_nil_r|done]. exists []. rewrite app_nil_r. split; [done|].
       exists (mkResponseHeader 0 h_empty), []. split; [apply prefix_nil|done]. }
  set (s1 := hupd_recv rest s).
  destruct (upstream_headers _ _ _) as [h|] eqn:Eh.
  - set (up := mkUpstreamRequest _ _ _ _). rewrite hbind_run. unfold hmodify at 1.
    destruct (io_upstream io up) as [[rs read]|msg];
      match goal with |- context [outcome ((send_h3_response io ?rs ?b ≫= fun _ => hmodify (hupd_metrics ?f)) ?s0)] =>
        destruct (send_then_record io rs b f s0) as (Hf & Hu & Ha); [intros m; apply record_active|] end;
      (split; [exact Hf|rewrite Er, Eh; exact Hu|exact Ha]).
  - match goal with |- context [outcome ((send_h3_response io ?rs ?b ≫= fun _ => hmodify (hupd_metrics ?f)) ?s0)] =>
        destruct (send_then_record io rs b f s0) as (Hf & Hu & Ha); [intros m; apply record_active|] end.
    split; [exact Hf|rewrite Er, Eh; cbn; rewrite app_nil_r; exact Hu|exact Ha].
Qed.

(** ** When each stage goes on, and to which state *)

Definition proceeds {A} (m : HFlow H A) (s : H3State H) (a : A) (s' : H3State H) : Prop := m s = (HNext a, s').

Lemma proceeds_bind {A B} (m : HFlow H A) (f : A -> HFlow H B) s b s' :
  proceeds (m ≫= f) s b s' <-> exists a s1, proceeds m s a s1 /\ proceeds (f a) s1 b s'.
Proof.
  unfold proceeds. rewrite hbind_run. split.
  - destruct (m s) as [[a|r] s1]; [|done]. intros Hf. by exists a, s1.
  - by intros (a & s1 & -> & Hf).
Qed.

Lemma answer_stops {A} io rs body s (a : A) s' : ~ proceeds (answer io rs body) s a s'.
Proof. unfold proceeds. by destruct (answer_ends (A := A) io rs body s) as (r & s1 & -> & _). Qed.

Lemma ret_proceeds {A} (a b : A) s s' : proceeds (mret a) s b s' <-> b = a /\ s' = s.
Proof. unfold proceeds. split; [by intros [= -> ->]|by intros [-> ->]]. Qed.

Lemma when_proceeds b m s s' : (forall s1 s2, ~ proceeds m s1 tt s2) ->
  proceeds (hwhen b m) s tt s' <-> b = false /\ s' = s.
Proof.
  intros Hm. destruct b; cbn [hwhen].
  - split; [intros Hp; by apply Hm in Hp|by intros [? _]].
  - rewrite ret_proceeds. split; [by intros [_ ->]|by intros [_ ->]].
Qed.

Lemma plain_stops {A} E io status body s (a : A) s' : ~ proceeds (plain E io status body) s a s'.
Proof. apply answer_stops. Qed.

Lemma plain_with_stops E io status body extra s s' : ~ proceeds (plain_with E io status body extra) s tt s'.
Proof. apply answer_stops. Qed.

Lemma counted_stops f (m : HFlow H unit) s s' : (forall s1 s2, ~ proceeds m s1 tt s2) ->
  ~ proceeds (hmodify f ≫= fun _ => m) s tt s'.
Proof. intros Hm (a & s1 & _ & Hp)%proceeds_bind. by apply Hm in Hp. Qed.

(** The request is not answered before its route is looked at. *)
Definition enters E req : Prop :=
  let path := uri_path (rq_uri req) in
  let host := h3_request_host req in
  ((rq_method req =s "GET") || (rq_method req =s "HEAD")) && is_health_path path = false /\
  is_h3_incompatible_request (rq_headers req) (rq_method req) path = false /\
  deny_enabled (ev_env E) && negb (is_empty host) && negb (has_host iter_routes (ev_table E) host) = false.

Lemma health_proceeds E io req s s' :
  proceeds (try_serve_health to_lowercase E io req) s tt s' <->
  ((rq_method req =s "GET") || (rq_method req =s "HEAD")) && is_health_path (uri_path (rq_uri req)) = false /\ s' = s.
Proof.
  unfold try_serve_health. cbn zeta. apply when_proceeds. intros s1 s2 Hp.
  apply proceeds_bind in Hp as (? & ? & _ & Hp). by apply proceeds_bind in Hp as (? & ? & _ & Hp).
Qed.

Lemma entry_proceeds E io req s s' :
  proceeds (h3_entry iter_routes to_lowercase E io req) s tt s' <-> enters E req /\ s' = s.
Proof.
  unfold h3_entry, enters, stage_compat, stage_known_host. cbn zeta. rewrite proceeds_bind. split.
  - intros ([] & s1 & [Hh ->]%health_proceeds & Hp). apply proceeds_bind in Hp as ([] & s2 & Hc & Hk).
    apply when_proceeds in Hc as [Hc ->]; [|intros; apply plain_stops].
    by apply when_proceeds in Hk as [Hk ->]; [|intros; apply plain_stops].
  - intros [(Hh & Hc & Hk) ->]. exists tt, s. split; [by apply health_proceeds|].
    apply proceeds_bind. exists tt, s.
    split; (apply when_proceeds; [intros; apply plain_stops|done]).
Qed.

(** The plan for the request. *)
Abbreviation h3_plan E req s :=
  (resolve_forward iter_routes iter_edge iter_headers (ev_instant E) (ev_probe E) (ev_table E) (h3_request_host req)
     (path_and_query (rq_uri req)) (hs_plan s)).

Lemma plan_proceeds E io req s plan s' :
  proceeds (stage_plan iter_routes iter_edge iter_headers E io req) s plan s' <->
  (h3_plan E req s).1 = Ok plan /\ s' = hupd_plan (h3_plan E req s).2 s.
Proof.
  unfold stage_plan, proceeds. destruct (h3_plan E req s) as [[p|e] ps]; cbn.
  - split; [by intros [= -> <-]|by intros [[= ->] ->]].
  - split; [|by intros [? _]]. intros Hp. by apply plain_stops in Hp.
Qed.

(** What the request must satisfy under the action [a]. *)
Record h3_passes E io req s (a : MiddlewareAction) : Prop := {
  h3_pass_4xx : (0 <? x4xx_limit_rps (ma_edge a))
                && x4xx_blocked (ev_secs E) (show_ip (io_remote io)) (h3_request_host req) (x4xx_limit_rps (ma_edge a))
                     (hs_windows s) = false;
  h3_pass_rate : (0 <? rate_limit_rps (ma_edge a))
                 && (rate_limited (ev_secs E) (bs "rps|" ++ show_ip (io_remote io) ++ bs "|" ++ h3_request_host req)
                       (rate_limit_rps (ma_edge a)) (hs_windows s)).1 = false;
  h3_pass_auth : from_option (h3_auth_ok E req) true (auth (ma_edge a)) = true;
  h3_pass_files : file_root a = None;
  h3_pass_geoip : evaluate_ip (ev_geo E) (ma_geoip a) (h3_client_ip io req) = Allow;
  h3_pass_captcha : is_captcha_path (uri_path (rq_uri req)) = false;
  h3_pass_security :
    admits (sec_action (evaluate (ev_secret E) (ev_secs E) (ev_instant E) (hs_rates s) (ma_security a) (h3_view io req)).1);
}.

Lemma limits_proceeds E io req mw s s' :
  proceeds (stage_limits E io req mw) s tt s' ->
  (0 <? x4xx_limit_rps (ma_edge mw))
   && x4xx_blocked (ev_secs E) (show_ip (io_remote io)) (h3_request_host req) (x4xx_limit_rps (ma_edge mw))
        (hs_windows s) = false /\
  (0 <? rate_limit_rps (ma_edge mw))
   && (rate_limited (ev_secs E) (bs "rps|" ++ show_ip (io_remote io) ++ bs "|" ++ h3_request_host req)
         (rate_limit_rps (ma_edge mw)) (hs_windows s)).1 = false /\
  exists ws, s' = hupd_windows ws s.
Proof.
  unfold proceeds, stage_limits. cbn zeta.
  destruct ((0 <? x4xx_limit_rps _) && _); [intros Hp; by apply plain_stops in Hp|].
  destruct (0 <? rate_limit_rps _); cbn [andb].
  - destruct (rate_limited _ _ _ _) as [[] ws]; [intros Hp; by apply plain_stops in Hp|].
    intros [= <-]. split_and!; [done|done|by exists ws].
  - intros [= <-]. split_and!; [done|done|by eexists].
Qed.

Lemma limits_go E io req mw s :
  (0 <? x4xx_limit_rps (ma_edge mw))
   && x4xx_blocked (ev_secs E) (show_ip (io_remote io)) (h3_request_host req) (x4xx_limit_rps (ma_edge mw))
        (hs_windows s) = false ->
  (0 <? rate_limit_rps (ma_edge mw))
   && (rate_limited (ev_secs E) (bs "rps|" ++ show_ip (io_remote io) ++ bs "|" ++ h3_request_host req)
         (rate_limit_rps (ma_edge mw)) (hs_windows s)).1 = false ->
  exists ws, proceeds (stage_limits E io req mw) s tt (hupd_windows ws s).
Proof.
  unfold proceeds, stage_limits. cbn zeta. intros -> Hr.
  destruct (0 <? rate_limit_rps _); cbn [andb] in Hr; [|by eexists].
  destruct (rate_limited _ _ _ _) as [[] ws]; [done|by eexists].
Qed.

Lemma auth_proceeds E io req mw s s' :
  proceeds (stage_auth E io req mw) s tt s' <-> from_option (h3_auth_ok E req) true (auth (ma_edge mw)) = true /\ s' = s.
Proof.
  unfold stage_auth. destruct (auth _) as [a|]; cbn [from_option].
  - rewrite when_proceeds by (intros; apply plain_stops). by rewrite negb_false_iff.
  - rewrite ret_proceeds. split; [by intros [_ ->]|by intros [_ ->]].
Qed.

Lemma files_proceeds E io req mw s s' :
  proceeds (stage_files E io req mw) s tt s' <-> file_root mw = None /\ s' = s.
Proof.
  unfold stage_files. destruct (file_root mw) as [root|].
  - split; [|by intros [? _]]. intros Hp. exfalso. revert Hp.
    destruct (_ ≫= _) as [[p body]|]; [apply plain_with_stops|apply plain_stops].
  - rewrite ret_proceeds. split; [by intros [_ ->]|by intros [_ ->]].
Qed.

Lemma geoip_proceeds E io req mw s s' :
  proceeds (stage_geoip E io req mw) s tt s' <->
  evaluate_ip (ev_geo E) (ma_geoip mw) (h3_client_ip io req) = Allow /\ s' = s.
Proof.
  unfold stage_geoip. cbn zeta. destruct (geo_is_active _) eqn:Ea; cbn [negb].
  - destruct (evaluate_ip _ _ _); [rewrite ret_proceeds; by split; [intros [_ ->]|intros [_ ->]]| |];
      (split; [|by intros [? _]]); intros Hp; exfalso; revert Hp; apply counted_stops; intros; apply plain_with_stops.
  - rewrite ret_proceeds. split; [|by intros [_ ->]]. intros [_ ->]. split; [|done]. unfold evaluate_ip. by rewrite Ea.
Qed.

Lemma captcha_proceeds E io req mw s s' :
  proceeds (stage_captcha E io req mw) s tt s' <-> is_captcha_path (uri_path (rq_uri req)) = false /\ s' = s.
Proof.
  unfold stage_captcha. cbn zeta. destruct (is_captcha_path _); cbn [negb].
  - split; [|by intros [? _]]. intros Hp. exfalso. revert Hp.
    destruct (_ =s CAPTCHA_VERIFY_PATH); [|apply plain_with_stops].
    destruct (verify_and_pass_cookie _ _ _ _ _ _ _) as [[c l]|]; apply counted_stops; intros; apply plain_with_stops.
  - rewrite ret_proceeds. split; [by intros [_ ->]|by intros [_ ->]].
Qed.

Lemma security_proceeds E io req mw s :
  (exists s', proceeds (stage_security E io req mw) s tt s') <->
  admits (sec_action (evaluate (ev_secret E) (ev_secs E) (ev_instant E) (hs_rates s) (ma_security mw) (h3_view io req)).1).
Proof.
  unfold proceeds, stage_security, admits. cbn zeta.
  destruct (security_is_active _) eqn:Ea; cbn [negb].
  - destruct (evaluate _ _ _ _ _ _) as [d rates]. cbn [fst]. destruct (sec_action d).
    + split; [by left|by eexists].
    + split; [by right|by eexists].
    + split; [|by intros []]. intros [s' Hr]. by apply plain_with_stops in Hr.
    + split; [|by intros []]. intros [s' Hr]. by apply plain_with_stops in Hr.
  - unfold evaluate. rewrite Ea. cbn. split; [by left|by eexists].
Qed.

Lemma policies_proceed E io req mw s :
  (exists s', proceeds (h3_policies E io req mw) s tt s') <-> h3_passes E io req s mw.
Proof.
  unfold h3_policies. split.
  - intros (s' & Hp). repeat setoid_rewrite proceeds_bind in Hp.
    destruct Hp as ([] & ? & (H4 & Hr & ws & ->)%limits_proceeds & [] & ? & [Ha ->]%auth_proceeds & [] & ? &
      [Hf ->]%files_proceeds & [] & ? & [Hg ->]%geoip_proceeds & [] & ? & [Hc ->]%captcha_proceeds & Hs).
    pose proof (proj1 (security_proceeds E io req mw (hupd_windows ws s)) (ex_intro _ _ Hs)) as Hadm. by split.
  - intros [H4 Hr Ha Hf Hg Hc Hs]. destruct (limits_go E io req mw s H4 Hr) as [ws Hl].
    destruct (proj2 (security_proceeds E io req mw (hupd_windows ws s)) Hs) as [s' Hsec].
    exists s'. repeat setoid_rewrite proceeds_bind.
    exists tt, (hupd_windows ws s). split; [done|]. exists tt, (hupd_windows ws s). split; [by apply auth_proceeds|].
    exists tt, (hupd_windows ws s). split; [by apply files_proceeds|].
    exists tt, (hupd_windows ws s). split; [by apply geoip_proceeds|].
    exists tt, (hupd_windows ws s). split; [by apply captcha_proceeds|done].
Qed.

(** ** The whole request *)

Definition checks E io req : HFlow H ForwardPlan :=
  h3_entry iter_routes to_lowercase E io req ≫= fun _ =>
  stage_plan iter_routes iter_edge iter_headers E io req ≫= fun plan =>
  h3_policies E io req (plan_middleware plan) ≫= fun _ => mret plan.

Lemma inner_checks E io req s :
  inner E io req s =
  match checks E io req s with
  | (HNext plan, s1) => outcome (stage_forward to_lowercase E io req plan s1)
  | (HDone r, s1) => (r, s1)
  end.
Proof.
  unfold handle_request_inner, checks. rewrite !hbind_run.
  destruct (h3_entry _ _ _ _ _ _) as [[[]|r] s1]; [|done]. rewrite !hbind_run.
  destruct (stage_plan _ _ _ _ _ _ _) as [[plan|r] s2]; [|done]. rewrite !hbind_run.
  by destruct (h3_policies _ _ _ _ _) as [[[]|r] s3].
Qed.

Lemma settles_checks E io req : settles (checks E io req).
Proof.
  apply settles_bind; [apply settles_entry|]. intros _. apply settles_bind; [apply settles_plan|]. intros plan.
  apply settles_bind; [apply settles_policies|]. intros _. apply settles_ret.
Qed.

Lemma checks_proceed E io req s plan :
  (exists s', proceeds (checks E io req) s plan s') <->
  enters E req /\ (h3_plan E req s).1 = Ok plan /\ h3_passes E io req s (plan_middleware plan).
Proof.
  unfold checks. split.
  - intros (s' & ([] & ? & [He ->]%entry_proceeds & Hp)%proceeds_bind).
    apply proceeds_bind in Hp as (plan' & ? & [Hplan ->]%plan_proceeds & Hp).
    apply proceeds_bind in Hp as ([] & s2 & Hpol & [<- <-]%ret_proceeds).
    split_and!; [done|done|].
    destruct (proj1 (policies_proceed E io req (plan_middleware plan) _) (ex_intro _ _ Hpol)). by split.
  - intros (He & Hplan & Hpass).
    assert (Hpass' : h3_passes E io req (hupd_plan (h3_plan E req s).2 s) (plan_middleware plan)) by (by destruct Hpass).
    apply policies_proceed in Hpass' as [s' Hpol]. exists s'.
    apply proceeds_bind. exists tt, s. split; [by apply entry_proceeds|].
    apply proceeds_bind. exists plan. eexists. split; [by apply plan_proceeds|].
    apply proceeds_bind. exists tt, s'. split; [done|by apply ret_proceeds].
Qed.

(** From the start of a request to its end: [None] when it was answered here. *)
Lemma inner_ends E io req s :
  (exists plan s1, proceeds (checks E io req) s plan s1 /\ quiet s s1 /\
     hop req io plan s1 (inner E io req s).1 (inner E io req s).2) \/
  ((forall plan s1, ~ proceeds (checks E io req) s plan s1) /\ local_end s (inner E io req s).1 (inner E io req s).2).
Proof.
  rewrite inner_checks. pose proof (settles_checks E io req s) as Hs. unfold proceeds.
  destruct (checks E io req s) as [[plan|r] s1].
  - left. exists plan, s1. split; [done|]. split; [done|]. apply forward_hop.
  - right. by split.
Qed.

Lemma gauge_restored n : n < u64_size -> ((n + 1) mod u64_size + (u64_size - 1)) mod u64_size = n.
Proof.
  intros Hn. rewrite N.Div0.add_mod_idemp_l. replace (n + 1 + (u64_size - 1)) with (n + 1 * u64_size) by (unfold u64_size in *; lia).
  rewrite N.Div0.mod_add. by apply N.mod_small.
Qed.

Lemma serve_inner E io req s :
  let s0 := hupd_metrics (inc active_connections) s in
  serve E io req s = ((inner E io req s0).1, hupd_metrics dec_active_connections (inner E io req s0).2).
Proof. intros s0. unfold handle_request. by destruct (inner E io req _) as [r s']. Qed.

(** ** Properties *)

(** C9: An HTTP/3 request is answered exactly once and leaves the connection gauge
    as it found it.  Whatever the policies, the upstream and the client do, the
    frames written are the beginning of one response (headers, body, end of
    stream) and all of it exactly when the handler succeeds; and the
    [active_connections] gauge returns to its value, on the error paths too. *)
Theorem h3_answered_once E io req s :
  h3_active s < u64_size ->
  let '(r, s') := handle_request iter_routes iter_edge iter_headers to_lowercase E io req s in
  h3_active s' = h3_active s /\
  exists l, hs_frames s' = hs_frames s ++ l /\ one_response r l.
Proof.
  intros Hlt. pose proof (serve_inner E io req s) as Hsi. cbn zeta in Hsi. rewrite Hsi.
  set (s0 := hupd_metrics (inc active_connections) s).
  assert (Ha0 : h3_active s0 = (h3_active s + 1) mod u64_size).
  { unfold h3_active, s0. cbn. by rewrite decide_True. }
  assert (Hd : forall x, h3_active x = h3_active s0 -> h3_active (hupd_metrics dec_active_connections x) = h3_active s).
  { intros x Hx. unfold h3_active, dec_active_connections in *. cbn. rewrite decide_True by done.
    rewrite Hx, Ha0. by apply gauge_restored. }
  destruct (inner_ends E io req s0) as [(plan & s1 & _ & [Hf _ Ha _] & [[l [Hl Ho]] _ Ha'])|[_ [[l [Hl Ho]] _ Ha']]].
  - split; [apply Hd; congruence|]. exists l. split; [|done]. cbn. by rewrite Hl, Hf.
  - split; [by apply Hd|]. by exists l.
Qed.

Lemma h3_forwarded_spec E io req s up :
  hs_sent_up (handle_request iter_routes iter_edge iter_headers to_lowercase E io req s).2 = hs_sent_up s ++ [up] <->
  enters E req /\
  exists plan body h,
    (h3_plan E req s).1 = Ok plan /\ h3_passes E io req s (plan_middleware plan) /\
    (read_events (expects_body req) [] (hs_recv s)).1 = Some body /\
    upstream_headers (h3_client_ip io req) req (plan_middleware plan) = Some h /\
    up = mkUpstreamRequest (rq_method req) (upstream_url plan) h body.
Proof.
  pose proof (serve_inner E io req s) as Hsi. cbn zeta in Hsi. rewrite Hsi. cbn [snd hs_sent_up hupd_metrics].
  set (s0 := hupd_metrics (inc active_connections) s).
  assert (Hc : forall plan, (exists s', proceeds (checks E io req) s0 plan s') <->
    enters E req /\ (h3_plan E req s).1 = Ok plan /\ h3_passes E io req s (plan_middleware plan)).
  { intros plan. rewrite checks_proceed. unfold s0. cbn [hs_plan hupd_metrics].
    assert (h3_passes E io req (hupd_metrics (inc active_connections) s) (plan_middleware plan) <->
            h3_passes E io req s (plan_middleware plan)) as -> by (split; intros []; by split). done. }
  destruct (inner_ends E io req s0) as [(plan & s1 & Hp & [_ Hu _ Hr] & [_ Hup _])|[Hno [_ Hup _]]].
  - destruct (proj1 (Hc plan) (ex_intro _ _ Hp)) as (He & Hplan & Hpass).
    rewrite Hup, Hu, Hr. change (hs_sent_up s0) with (hs_sent_up s). change (hs_recv s0) with (hs_recv s).
    split.
    + intros Eq%app_inv_head. split; [done|]. revert Eq.
      destruct (read_events (expects_body req) [] (hs_recv s)).1 as [body|] eqn:Eb; [|done].
      destruct (upstream_headers _ _ _) as [h|] eqn:Eh; [|done]. intros [= <-]. by exists plan, body, h.
    + intros (_ & plan' & body & h & Hplan' & _ & Hb & Hh & ->).
      rewrite Hplan in Hplan'. injection Hplan' as <-. by rewrite Hb, Hh.
  - rewrite Hup. change (hs_sent_up s0) with (hs_sent_up s). split.
    + intros Eq. rewrite <- (app_nil_r (hs_sent_up s)) in Eq at 1. by apply app_inv_head in Eq.
    + intros (He & plan & body & h & Hplan & Hpass & _).
      destruct (proj2 (Hc plan)) as [s1 Hp]; [done|]. by apply Hno in Hp.
Qed.

(** C3: Exactly which HTTP/3 requests reach an upstream, and with what.  A request
    [up] is sent upstream if and only if the request is not a probe, not a
    long-lived stream, for a known host, its plan resolves, it passes every
    policy of its route (4xx and rate limits, authentication, no static files,
    GeoIP, captcha, WAF and bot score), its body can be read and its headers are
    acceptable; [up] is then the plan's URL with the request's method, those
    headers and that body, and no other request is sent. *)
Theorem h3_forwarded_iff E io req s up :
  hs_sent_up (handle_request iter_routes iter_edge iter_headers to_lowercase E io req s).2 = hs_sent_up s ++ [up] <->
  enters E req /\
  exists plan body h,
    (h3_plan E req s).1 = Ok plan /\ h3_passes E io req s (plan_middleware plan) /\
    (read_events (expects_body req) [] (hs_recv s)).1 = Some body /\
    upstream_headers (h3_client_ip io req) req (plan_middleware plan) = Some h /\
    up = mkUpstreamRequest (rq_method req) (upstream_url plan) h body.
Proof. apply h3_forwarded_spec. Qed.

(** ** What the upstream is told *)

(** The values a list of pairs gives the name [n]. *)
Definition values (n : str) (kvs : list (str * str)) : list str :=
  snd <$> filter (fun kv => eq_ignore_ascii_case kv.1 n = true) kvs.

Lemma values_app n l1 l2 : values n (l1 ++ l2) = values n l1 ++ values n l2.
Proof. unfold values. by rewrite filter_app, fmap_app. Qed.

Lemma values_cons n kv l : values n (kv :: l) = (if eq_ignore_ascii_case kv.1 n then [kv.2] else []) ++ values n l.
Proof. unfold values. rewrite filter_cons. by destruct (eq_ignore_ascii_case kv.1 n); case_decide. Qed.

Lemma rb_headers_get_all kvs b h n :
  rb_headers b kvs = Some h -> exists h0, b = Some h0 /\ h_get_all h n = h_get_all h0 n ++ values n kvs.
Proof.
  revert b. induction kvs as [|kv kvs IH]; intros b.
  - intros [= ->]. exists h. by rewrite app_nil_r.
  - change (rb_headers b (kv :: kvs)) with (rb_headers (rb_header b kv) kvs).
    intros (h1 & Hb & ->)%IH. unfold rb_header in Hb. destruct b as [h0|]; [|done]. cbn in Hb.
    destruct (name_ok kv.1 && value_ok kv.2); [|done]. injection Hb as <-. exists h0. split; [done|].
    by rewrite h_get_all_append, values_cons, app_assoc.
Qed.

Lemma copied_get_all oci (h : H) n :
  h_get_all (copied_headers oci h) n = if copies oci (to_ascii_lowercase n) then h_get_all h n else [].
Proof.
  unfold copied_headers. rewrite <- (h_iter_get_all h n). pose proof (h_iter_lower h) as Hl.
  assert (Hg : forall l b, Forall (fun kv : str * str => to_ascii_lowercase kv.1 = kv.1) l ->
    h_get_all (foldl (fun b kv => if copies oci kv.1 then h_append b kv.1 kv.2 else b) b l) n =
    h_get_all b n ++ (if copies oci (to_ascii_lowercase n)
                      then snd <$> filter (fun kv => kv.1 = to_ascii_lowercase n) l else [])).
  { intros l. induction l as [|kv l IH]; intros b HF; cbn [foldl].
    - destruct (copies _ _); by rewrite app_nil_r.
    - apply Forall_cons in HF as [Hk HF]. rewrite (IH _ HF), filter_cons. unfold eq_ignore_ascii_case in *.
      destruct (decide (kv.1 = to_ascii_lowercase n)) as [Ek|Ek].
      + rewrite Ek. destruct (copies oci (to_ascii_lowercase n)); [|done]. cbn [fmap list_fmap].
        rewrite h_get_all_append. unfold eq_ignore_ascii_case.
        rewrite bool_decide_true by (by rewrite <- Ek, Hk). by rewrite <- app_assoc.
      + destruct (copies oci kv.1); [|done]. rewrite h_get_all_append. unfold eq_ignore_ascii_case.
        rewrite bool_decide_false by congruence. by rewrite app_nil_r. }
  rewrite (Hg _ _ Hl), h_get_all_empty. done.
Qed.

(** The pairs added to the copied headers. *)
Definition added_headers (client_ip : option str) req mw : list (str * str) :=
  let path := uri_path (rq_uri req) in
  let host := h3_request_host req in
  let oci := is_oci_registry_path path in
  (if oci then registry_upstream_header_pairs host (rq_method req) path None true else []) ++
  request_headers mw ++ (if oci then [] else forwarded_pairs client_ip req) ++ [(bs "host", host)].

Lemma upstream_headers_spec client_ip req mw h n :
  upstream_headers client_ip req mw = Some h ->
  h_get_all h n =
    (if copies (is_oci_registry_path (uri_path (rq_uri req))) (to_ascii_lowercase n)
     then h_get_all (rq_headers req) n else []) ++ values n (added_headers client_ip req mw).
Proof.
  unfold upstream_headers, added_headers. cbn zeta. set (oci := is_oci_registry_path _). set (host := h3_request_host req).
  change (rb_header ?b (bs "host", host)) with (rb_headers b [(bs "host", host)]).
  intros (h1 & Hb & ->)%(rb_headers_get_all _ _ _ n). rewrite !values_app.
  destruct oci.
  - apply (rb_headers_get_all _ _ _ n) in Hb as (h2 & Hb & ->).
    apply (rb_headers_get_all _ _ _ n) in Hb as (h3 & [= <-] & ->).
    rewrite copied_get_all. by rewrite <- !app_assoc.
  - apply (rb_headers_get_all _ _ _ n) in Hb as (h2 & Hb & ->).
    apply (rb_headers_get_all _ _ _ n) in Hb as (h3 & [= <-] & ->).
    rewrite copied_get_all. by rewrite <- !app_assoc.
Qed.

(** Every header of the request sent upstream over HTTP/3.  Under each name
    stand first the values the client sent (none for [Host]; none for cookies and
    forwarding headers on registry paths), then those of the route's middleware,
    then the proxy's own, in that order.  So [Host] is always the single routed
    host, but a client's own [X-Real-IP] is kept and comes before the resolved
    address. *)
Theorem h3_upstream_headers client_ip req mw h n :
  upstream_headers client_ip req mw = Some h ->
  h_get_all h n =
    (if copies (is_oci_registry_path (uri_path (rq_uri req))) (to_ascii_lowercase n)
     then h_get_all (rq_headers req) n else []) ++ values n (added_headers client_ip req mw).
Proof. apply upstream_headers_spec. Qed.

(** Finding: over HTTP/3 the upstream reads the client's own [X-Real-IP].  When
    the client sends one, it stays the first value of the header and the resolved
    address is only appended; over HTTP/1 and 2 it is replaced. *)
Lemma h3_real_ip_spoofed ip req mw h v rest :
  is_oci_registry_path (uri_path (rq_uri req)) = false ->
  values "x-real-ip" (request_headers mw) = [] ->
  h_get_all (rq_headers req) "x-real-ip" = v :: rest ->
  upstream_headers (Some ip) req mw = Some h ->
  h_get_all h "x-real-ip" = v :: rest ++ [ip].
Proof.
  intros Ho Hm Hc Hh. rewrite (upstream_headers_spec _ _ _ _ "x-real-ip" Hh). unfold added_headers. cbn zeta.
  rewrite Ho, Hc. rewrite !values_app, Hm. done.
Qed.

(** ** The gateway and the HTTP/3 server agree *)

(** Neither limiter of the route stops the client [client]: the limit on errors and the
    limit on requests, each counted under that name. *)
Definition within_limits E (ws : Windows) (a : MiddlewareAction) (client host : str) : Prop :=
  (0 <? x4xx_limit_rps (ma_edge a)) && x4xx_blocked (ev_secs E) client host (x4xx_limit_rps (ma_edge a)) ws = false /\
  (0 <? rate_limit_rps (ma_edge a))
    && (rate_limited (ev_secs E) (bs "rps|" ++ client ++ bs "|" ++ host) (rate_limit_rps (ma_edge a)) ws).1 = false.

(** What only the gateway looks at: no fresh answer in the cache, well-formed gRPC. *)
Definition gateway_only E ses (gs : GwState H) mw flags : Prop :=
  (may_cache E ses flags mw = true -> (cache_get (ev_instant E) (cache_request_key ses) (gs_cache gs)).1 = None) /\
  (is_grpc flags = true -> validate_downstream (s_req ses) (s_http2 ses) (is_grpc_web flags) = Ok tt).

(** The two lists of policies differ in the name a client is limited under, the resolved
    address and that of the socket, and in what only the gateway looks at. *)
Lemma passes_agree E io ses s (gs : GwState H) mw flags : s_client_addr ses = Some (Inet (io_remote io)) ->
  gs_windows gs = hs_windows s -> gs_rates gs = hs_rates s -> let host := request_host (s_req ses) in
  passes E ses gs mw flags /\ within_limits E (gs_windows gs) mw (show_ip (io_remote io)) host <->
  h3_passes E io (s_req ses) s mw /\ within_limits E (gs_windows gs) mw (client_or_dash ses) host /\ gateway_only E ses gs mw flags.
Proof.
  intros Hc Hw Hr host.
  assert (Hcl : session_client_ip ses = h3_client_ip io (s_req ses)).
  { unfold session_client_ip, socket_ip, h3_client_ip. by rewrite Hc. }
  assert (Hv : request_view ses = h3_view io (s_req ses)) by (unfold request_view, h3_view; by rewrite Hcl).
  assert (Hau : from_option (auth_ok E ses) true (auth (ma_edge mw)) = from_option (h3_auth_ok E (s_req ses)) true (auth (ma_edge mw))).
  { by destruct (auth _) as [[]|]. }
  split.
  - intros [[H4 Hrt Hauth Hf Hca Hgeo Hcap Hsec Hg] [Hs4 Hsr]]. rewrite Hcl in Hgeo. rewrite Hv, Hr in Hsec. rewrite Hau in Hauth.
    rewrite Hw in Hs4, Hsr. split_and!; by split.
  - intros ([H4 Hrt Hauth Hf Hgeo Hcap Hsec] & [Hc4 Hcr] & Hca & Hg). rewrite <- Hw in H4, Hrt.
    split; [|by split]. split; rewrite ?Hcl, ?Hv, ?Hr, ?Hau; done.
Qed.

Section agreement.
Variable iter_hosts : gmap str StoredCert -> list (str * StoredCert).

(** One request seen by both servers, with the same tables and the same connection. *)
Record same_request io req ses s (gs : GwState H) : Prop := {
  same_req : s_req ses = req;
  same_socket : s_client_addr ses = Some (Inet (io_remote io));
  same_windows : gs_windows gs = hs_windows s;
  same_rates : gs_rates gs = hs_rates s;
  same_plan : gs_plan gs = hs_plan s;
}.

Lemma not_local_enters E ses :
  not_local E ses -> ((rq_method (s_req ses) =s "GET") || (rq_method (s_req ses) =s "HEAD"))
    && is_health_path (uri_path (rq_uri (s_req ses))) = false.
Proof.
  intros (Hh & _). unfold health_response in Hh. destruct (is_health_path _); [|by rewrite andb_false_r].
  cbn [negb] in Hh. destruct (_ =s "GET"); [done|]. by destruct (_ =s "HEAD").
Qed.

(** C4: The two servers apply the same policies, up to the name they limit a client under.
    Take one request over one connection, with the same tables and a resolving plan, that
    neither server answers on its own account (no probe, ACME challenge, installer host,
    upgrade to HTTPS or long-lived stream), with a readable body and acceptable headers;
    the client may be behind another proxy.  Then the HTTP/1-2 gateway lets it through and
    the limiters also admit the socket's address, exactly when the HTTP/3 server sends it
    upstream, the limiters also admit the resolved client, the gateway has no fresh answer
    in its cache and finds nothing wrong with the request as gRPC.  The gateway limits
    the resolved client and the HTTP/3 server the socket; every other policy (GeoIP,
    authentication, files, captcha, WAF, bots) decides alike. *)
Theorem h3_gateway_agree E io req ses s gs plan body h :
  same_request io req ses s gs -> not_local E ses -> upgrades E ses = false ->
  is_h3_incompatible_request (rq_headers req) (rq_method req) (uri_path (rq_uri req)) = false ->
  (h3_plan E req s).1 = Ok plan ->
  (read_events (expects_body req) [] (hs_recv s)).1 = Some body ->
  upstream_headers (h3_client_ip io req) req (plan_middleware plan) = Some h ->
  let admits_client := within_limits E (gs_windows gs) (plan_middleware plan) in
  (exists gs', request_filter iter_routes iter_edge iter_headers iter_hosts E ses gs = (Ok false, gs')) /\
    admits_client (show_ip (io_remote io)) (request_host req) <->
  (exists up, hs_sent_up (handle_request iter_routes iter_edge iter_headers to_lowercase E io req s).2 = hs_sent_up s ++ [up]) /\
    admits_client (client_or_dash ses) (request_host req) /\ gateway_only E ses gs (plan_middleware plan) (cx_flags (gs_ctx gs)).
Proof.
  intros [<- Hsock Hw Hr Hps] Hloc Hup Hinc Hplan Hbody Hh admits_client.
  assert (Hact : in_force iter_routes iter_edge iter_headers E ses gs = plan_middleware plan).
  { unfold in_force. rewrite Hps.
    change (request_host (s_req ses)) with (h3_request_host (s_req ses)). by rewrite Hplan. }
  pose proof (passes_agree E io ses s gs (plan_middleware plan) (cx_flags (gs_ctx gs)) Hsock Hw Hr) as Hag. cbn zeta in Hag.
  rewrite forwarded_spec, Hact. split.
  - intros [[[(_ & _ & Hk) Hpass]|(_ & Hu & _)] Hs]; [|congruence].
    destruct (proj1 Hag (conj Hpass Hs)) as (Hh3 & Hcl & Hgo). split; [|by split]. eexists. apply h3_forwarded_spec.
    split; [by split_and!; [apply (not_local_enters E)|done|]|]. by exists plan, body, h.
  - intros ([up (He & plan' & body' & h' & Hplan' & Hpass & _)%h3_forwarded_spec] & Hcl & Hgo).
    rewrite Hplan in Hplan'. injection Hplan' as <-. destruct He as (_ & _ & Hk).
    destruct (proj2 Hag (conj Hpass (conj Hcl Hgo))) as [Hp Hs]. split; [|done]. left. by split.
Qed.

End agreement.

End h3_lemmas.

(** ** Settings *)

(** The limits cut to 32 bits, with the variables that set them. *)
Definition limit_vars : list (str * (QuinnTransportConfig -> N)) :=
  [(bs "PERTISK_HTTP3_MAX_STREAMS", qt_max_streams_bidi);
   (bs "PERTISK_HTTP3_STREAM_RECEIVE_WINDOW", qt_stream_receive_window);
   (bs "PERTISK_HTTP3_CONN_RECEIVE_WINDOW", qt_conn_receive_window)].

(** The transport limits are what the environment says, as long as it fits.
    A positive value [n] of one of the variables is used as it is below 2^32;
    above, it is truncated instead of refused, and the limit is 0 exactly when
    [n] is a multiple of 2^32: [PERTISK_HTTP3_MAX_STREAMS=4294967296] allows no
    stream at all. *)
Theorem transport_limits env name field v n :
  In (name, field) limit_vars -> env name = Some v -> parse_u64 (trim v) = Some n -> 0 < n ->
  field (effective_transport_config env) < 4294967296 /\
  (n < 4294967296 -> field (effective_transport_config env) = n) /\
  (field (effective_transport_config env) = 0 <-> (4294967296 | n)).
Proof.
  intros Hin Hv Hp Hn.
  assert (Hf : field (effective_transport_config env) = as_u32 n).
  { destruct Hin as [Heq|[Heq|[Heq|[]]]]; injection Heq as <- <-;
      unfold effective_transport_config, h3_env_u64; cbn [qt_max_streams_bidi qt_stream_receive_window qt_conn_receive_window];
      rewrite Hv; cbn [mbind option_bind]; rewrite Hp; cbn [opt_filter];
      by rewrite (proj2 (N.ltb_lt 0 n) Hn). }
  rewrite Hf. unfold as_u32. split_and!.
  - by apply N.mod_lt.
  - intros Hlt. by apply N.mod_small.
  - apply N.Lcm0.mod_divide.
Qed.

(** ** A concrete header map with entries *)

Definition hl_lower (kv : str * str) : Prop := to_ascii_lowercase kv.1 = kv.1.
#[export] Instance hl_lower_dec kv : base.Decision (hl_lower kv).
Proof. unfold hl_lower. apply _. Defined.

Lemma hl_iter_get_all (h : header_list) n :
  snd <$> filter (fun kv => kv.1 = to_ascii_lowercase n) (filter hl_lower h) = hl_get_all h n.
Proof.
  unfold hl_get_all. induction h as [|kv h IH]; [done|]. rewrite !(filter_cons _ kv).
  destruct (decide (kv.1 = to_ascii_lowercase n)) as [Ek|Ek].
  - rewrite decide_True by (unfold hl_lower; by rewrite Ek, to_ascii_lowercase_idemp).
    rewrite filter_cons, decide_True by done. cbn. by f_equal.
  - case_decide; [|done]. rewrite filter_cons, decide_False by done. done.
Qed.

#[export] Program Instance header_list_entries : HeaderEntries header_list := {
  h_append h n v := h ++ [(to_ascii_lowercase n, v)];
  h_iter h := filter hl_lower h;
}.
Next Obligation.
  intros h n v m. change (hl_get_all (h ++ [(to_ascii_lowercase n, v)]) m =
    hl_get_all h m ++ (if eq_ignore_ascii_case n m then [v] else [])). rewrite hl_get_all_app. f_equal. unfold hl_get_all, eq_ignore_ascii_case.
  rewrite filter_cons, filter_nil. cbn. by case_bool_decide; case_decide.
Qed.
Next Obligation. intros h n. apply hl_iter_get_all. Qed.
Next Obligation. intros h. apply Forall_forall. intros kv Hkv. by apply list_elem_of_filter in Hkv as [? _]. Qed.

(** ** Witnesses *)

Definition h3_request (extra : list (str * str)) (pq : str) : RequestHeader header_list :=
  mkRequestHeader "GET" (mkUri None None (Some pq)) ((bs "host", bs "app.io") :: extra).

Definition h3_io : H3Io header_list :=
  mkH3Io (V4 203 0 113 9) (fun _ => true) (fun _ => Ok (mkResponseHeader 200 [(bs "server", bs "nginx")], Some (bs "hi"))) "bad header".

Definition h3_state : H3State header_list := mkH3State no_state ∅ ∅ metrics_new [] [] [].

Definition h3_run (E : Env header_list) (req : RequestHeader header_list) (s : H3State header_list) :=
  handle_request (MV := toy_mac) iter_r iter_e iter_h id E h3_io req s.

Lemma h3_answered_once_witness :
  let '(r, s') := h3_run (sample_env open_table false) (h3_request [] "/x") h3_state in
  h3_active s' = 0 /\ exists l, hs_frames s' = [] ++ l /\ one_response r l.
Proof.
  apply (h3_answered_once (MV := toy_mac) iter_r iter_e iter_h id (sample_env open_table false) h3_io (h3_request [] "/x") h3_state).
  vm_compute. reflexivity.
Defined.

Lemma h3_upstream_headers_witness :
  match upstream_headers (Some (bs "203.0.113.9")) (h3_request [(bs "x-real-ip", bs "1.1.1.1")] "/x") middleware_action_default with
  | Some h => h_get_all h "x-real-ip" = [bs "1.1.1.1"; bs "203.0.113.9"]
  | None => False
  end.
Proof.
  destruct (upstream_headers (Some (bs "203.0.113.9")) (h3_request [(bs "x-real-ip", bs "1.1.1.1")] "/x")
              middleware_action_default) as [h|] eqn:E; [|vm_compute in E; discriminate E].
  rewrite (h3_upstream_headers _ _ _ h "x-real-ip" E). vm_compute. reflexivity.
Defined.

Lemma transport_limits_witness :
  let env := fun k : str => if k =s "PERTISK_HTTP3_MAX_STREAMS" then Some (bs "4294967296") else None in
  qt_max_streams_bidi (effective_transport_config env) = 0.
Proof.
  intros env.
  apply (transport_limits env "PERTISK_HTTP3_MAX_STREAMS" qt_max_streams_bidi "4294967296" 4294967296
           (or_introl eq_refl) eq_refl eq_refl); [lia|]. by exists 1.
Defined.

Lemma h3_gateway_agree_witness :
  let E := sample_env open_table false in
  (exists gs', request_filter (MV := toy_mac) iter_r iter_e iter_h iter_c E (sample_session [] "/x") sample_state = (Ok false, gs')) /\
  (exists up, hs_sent_up (h3_run E (h3_request [] "/x") h3_state).2 = [up]).
Proof.
  intros E.
  assert (Hf : exists gs', request_filter (MV := toy_mac) iter_r iter_e iter_h iter_c E (sample_session [] "/x") sample_state = (Ok false, gs')).
  { eexists. vm_compute. reflexivity. }
  split; [exact Hf|].
  destruct ((resolve_forward iter_r iter_e iter_h (ev_instant E) (ev_probe E) (ev_table E) "app.io" "/x" no_state).1) as [plan|] eqn:Ep;
    [|vm_compute in Ep; discriminate Ep].
  destruct (upstream_headers (h3_client_ip h3_io (h3_request [] "/x")) (h3_request [] "/x") (plan_middleware plan)) as [h|] eqn:Eh;
    [|vm_compute in Ep; injection Ep as <-; vm_compute in Eh; discriminate Eh].
  refine (proj1 (proj1 (h3_gateway_agree (MV := toy_mac) iter_r iter_e iter_h id iter_c E h3_io (h3_request [] "/x") (sample_session [] "/x")
           h3_state sample_state plan [] h _ _ _ _ Ep _ Eh) (conj Hf _))); try (vm_compute; reflexivity).
  - split; vm_compute; reflexivity.
  - split; [|split]; vm_compute; reflexivity.
  - vm_compute in Ep. injection Ep as <-. vm_compute. split; reflexivity.
Defined.
