(* ===== verification/H3Quiche.v ===== *)
(** * HTTP/3 over Quiche (h3/server.rs, h3/headers.rs, h3/health.rs, h3/settings.rs, deny.rs)

    The alternative HTTP/3 server (build feature [h3-quiche]): header lists from
    the wire, the events of a connection, and the proxied request with its own,
    shorter sequence of checks.  Sending never fails here: the code ignores the
    stream's answer.  A [panic!] ends the request without a response. *)

From S2P Require Import Prelude RustStr Ip GeoIp Waf Bot Captcha Security Edge EdgeAuth ProxyConfig Router Forward.
From S2P Require Import Http Grpc Registry Respond Telemetry CertStore Gateway GatewayProps H3 H3Props.

(** ** Wire headers (h3/headers.rs) *)

(** [quiche::h3::Header]: a name and a value, both bytes. *)
Abbreviation WireHeader := (str * str)%type.

Definition authority_host_only (value : str) : str := split_first ":" value.
Definition path_only (value : str) : str := split_first "?" value.

Definition pseudo_authority (hs : list WireHeader) : option str :=
  authority_host_only ∘ snd <$> find (fun h => h.1 =s ":authority") hs.

(** The last [:method] and [:path] win. *)
Definition last_pseudo (name : str) (hs : list WireHeader) : option str :=
  foldl (fun acc h => if h.1 =s name then Some h.2 else acc) None hs.

Definition pseudo_method_path (hs : list WireHeader) : option (str * str) :=
  m ← last_pseudo ":method" hs; p ← last_pseudo ":path" hs; Some (m, path_only p).

Inductive RequestError : Type := BadMethod | BadAuthority | BadPath | BadName | BadValue | BadUri.

(** ** Probes (h3/health.rs) *)

Definition matches_request (hs : list WireHeader) : bool :=
  match pseudo_method_path hs with
  | Some (m, p) => ((m =s "GET") || (m =s "HEAD")) && is_health_path p
  | None => false
  end.

(** [health_get_response] and [health_head_response]: the same headers, with the
    length of the full body also for [HEAD]. *)
Definition probe_headers (path : str) : list WireHeader :=
  [(bs ":status", bs "200"); (bs "content-type", health_content_type path);
   (bs "content-length", if is_json_health_path path then bs "15" else bs "2"); (bs "server", H3_SERVER)].

Inductive QFrame : Type := QHeaders (hs : list WireHeader) | QBody (data : str) (fin : bool).

Definition try_serve (ingress : bool) (hs : list WireHeader) : list QFrame :=
  match pseudo_method_path hs with
  | None => []
  | Some (method, path) =>
    if negb (is_health_path path) then []
    else
      let respond body := [QHeaders (probe_headers path ++ [(bs "x-app-name", app_name ingress)]); QBody body true] in
      if method =s "GET" then respond (health_body path)
      else if method =s "HEAD" then respond []
      else []
  end.

(** ** Settings (h3/settings.rs) *)

(** The fields of [QuicSettings] that are set; the default of the initial
    congestion window belongs to the library. *)
Record QuicSettings := mkQuicSettings {
  q_max_streams : N;
  q_max_data : N;
  q_stream_window : N;
  q_idle_secs : N;
  q_cc : str;
  q_early_data : bool;
  q_pacing : bool;
  q_cwnd : N;
}.

Definition env_pos (env : str -> option str) (name : str) : option N :=
  opt_filter (fun n => 0 <? n) (v ← env name; parse_u64 (trim v)).
Definition env_string (env : str -> option str) (name : str) : option str :=
  opt_filter (fun v => negb (is_empty v)) (trim <$> env name).

Definition listener_count (env : str -> option str) (cpus : N) (performance : bool) (o : Http3Options) : N :=
  default (if performance then cpus else 1) (or_else (h3_listeners o) (env_pos env "PERTISK_HTTP3_LISTENERS")).

Definition quic_settings (env : str -> option str) (default_cwnd : N) (performance : bool) (o : Http3Options) : QuicSettings :=
  let max_streams := default (if performance then 1024 else 256)
    (or_else (env_pos env "PERTISK_HTTP3_MAX_STREAMS") (max_streams_bidi o)) in
  let stream_window := default (if performance then 8 * 1024 * 1024 else 1024 * 1024)
    (or_else (env_pos env "PERTISK_HTTP3_STREAM_RECEIVE_WINDOW") (max_stream_data o)) in
  let conn_window := default (if performance then 64 * 1024 * 1024 else 10 * 1024 * 1024)
    (or_else (env_pos env "PERTISK_HTTP3_CONN_RECEIVE_WINDOW") (max_data o)) in
  let idle_ms := or_else (max_idle_timeout_ms o)
    (saturating_mul u64_max 1000 <$> env_pos env "PERTISK_HTTP3_IDLE_TIMEOUT_SECS") in
  let idle_secs := default 300 ((fun ms => ms / 1000) <$> idle_ms) in
  let cc := default (if performance then bs "bbr" else bs "cubic")
    (or_else (env_string env "PERTISK_HTTP3_CC_ALGORITHM") (congestion_control o)) in
  mkQuicSettings max_streams conn_window stream_window (N.max idle_secs 1) cc
    (default performance (enable_0rtt o))
    (default (performance && eq_ignore_ascii_case cc "bbr") (enable_pacing o))
    (if performance then 32 else default_cwnd).

(** ** Requests *)

(** What the inbound half delivers; the end of the list is the closed channel. *)
Inductive QInbound : Type := InBody (chunk : str) (fin : bool) | InDatagram.

(** [read_request_body]: up to the frame marked final. *)
Fixpoint read_request_body (acc : str) (frames : list QInbound) : str :=
  match frames with
  | [] => acc
  | InBody chunk fin :: rest => if fin then acc ++ chunk else read_request_body (acc ++ chunk) rest
  | InDatagram :: rest => read_request_body acc rest
  end.

Section quiche.
Context `{HE : HeaderEntries H} `{MV : MacVerify} `{UP : UriParser}.
Variable iter_routes : gmap str (list Route) -> list (str * list Route).
Variable iter_edge : gmap str (gmap str EdgePolicy) -> list (str * gmap str EdgePolicy).
Variable iter_headers : gmap str str -> list (str * str).
(** [Method::from_bytes], [HeaderValue::from_bytes], [Uri::builder().build()] and
    the texts of their errors. *)
Variable method_ok : str -> bool.
Variable value_bytes_ok : str -> bool.
Variable uri_build : option str -> option str -> option str -> option Uri.
Variable err_text : RequestError -> str.

Record Partial := mkPartial {
  pt_method : str;
  pt_scheme : option str;
  pt_authority : option str;
  pt_pq : option str;
  pt_headers : H;
}.

Definition request_step (p : Partial) (h : WireHeader) : result RequestError Partial :=
  let '(name, value) := h in
  if starts_with ":" name then
    if name =s ":method" then
      if method_ok value then Ok (mkPartial value (pt_scheme p) (pt_authority p) (pt_pq p) (pt_headers p))
      else Err BadMethod
    else if name =s ":scheme" then
      Ok (mkPartial (pt_method p) (Some value) (pt_authority p) (pt_pq p) (pt_headers p))
    else if name =s ":authority" then
      if value_bytes_ok value then
        Ok (mkPartial (pt_method p) (pt_scheme p) (Some value) (pt_pq p) (h_append (pt_headers p) "host" value))
      else Err BadAuthority
    else if name =s ":path" then
      match pq_parse value with
      | Some d => Ok (mkPartial (pt_method p) (pt_scheme p) (pt_authority p) (Some d) (pt_headers p))
      | None => Err BadPath
      end
    else Ok p
  else if negb (name_ok name) then Err BadName
  else if negb (value_bytes_ok value) then Err BadValue
  else Ok (mkPartial (pt_method p) (pt_scheme p) (pt_authority p) (pt_pq p) (h_append (pt_headers p) name value)).

Fixpoint request_steps (p : Partial) (hs : list WireHeader) : result RequestError Partial :=
  match hs with
  | [] => Ok p
  | h :: rest => p' ← request_step p h; request_steps p' rest
  end.

Definition h3_to_request (hs : list WireHeader) : result RequestError (RequestHeader H) :=
  p ← request_steps (mkPartial "GET" None None None h_empty) hs;
  match uri_build (pt_scheme p) (pt_authority p) (pt_pq p) with
  | Some u => Ok (mkRequestHeader (pt_method p) u (pt_headers p))
  | None => Err BadUri
  end.

Definition response_to_h3 (rs : ResponseHeader H) : list WireHeader :=
  (bs ":status", show_N (rs_status rs)) :: h_iter (rs_headers rs).

Definition error_response (ingress : bool) (status : N) (message : str) : ResponseHeader H * str :=
  (mkResponseHeader status (built [(bs "content-type", bs "text/plain"); (bs "server", H3_SERVER);
                                   (bs "x-app-name", app_name ingress)]), message).

(** [deny::h3_response] and [deny::h3_forbidden]. *)
Definition sized_response (ingress : bool) (status : N) (body : str) (extra : list (str * str)) : ResponseHeader H * str :=
  (mkResponseHeader status (built ([(bs "content-type", bs "text/plain"); (bs "content-length", nat_str (length body));
                                    (bs "server", H3_SERVER); (bs "x-app-name", app_name ingress)] ++ extra)), body).

Definition h3_response (ingress tls : bool) : ResponseHeader H * str :=
  sized_response ingress (unknown_host_status tls) "not found" [].

Definition h3_forbidden (ingress : bool) (reason : str) : ResponseHeader H * str :=
  sized_response ingress 403 "forbidden" [(bs "x-pertisk-block", reason)].

(** [send_error], and the last lines of [handle_proxied_request]. *)
Definition frames_of (r : ResponseHeader H * str) : list QFrame := [QHeaders (response_to_h3 r.1); QBody r.2 true].

Record QState := mkQState {
  qs_plan : PlanState;
  qs_rates : RateMap;
  qs_frames : list QFrame;
  qs_sent_up : list (UpstreamRequest H);
}.

(** How a request ends: [return Ok(())], or a panic. *)
Inductive QEnd : Type := Returned | Panicked.

Definition emit (r : ResponseHeader H * str) (s : QState) : QEnd * QState :=
  (Returned, mkQState (qs_plan s) (qs_rates s) (qs_frames s ++ frames_of r) (qs_sent_up s)).

(** The client's address: what the headers say, the socket is not asked. *)
Definition q_client_ip (req : RequestHeader H) : option str :=
  or_else (resolve_client_ip None (header req "x-forwarded-for") (header req "x-real-ip"))
     (client_ip_from_http_headers (header req)).

Definition q_view (req : RequestHeader H) : RequestView :=
  mkRequestView (rq_method req) (uri_path (rq_uri req)) (default [] (uri_query (rq_uri req)))
    (header req "user-agent") (header req "accept") (header req "accept-language") (header req "cookie")
    (q_client_ip req).

(** [Response::builder().header(..)], which fails at the end on a refused header. *)
Definition q_header (b : option H) (kv : str * str) : option H := rb_header b kv.

Definition q_downstream_headers (ingress : bool) (req : RequestHeader H) (mw : MiddlewareAction) (up : H) : option H :=
  let oci := is_oci_registry_path (uri_path (rq_uri req)) in
  let b := foldl q_header (Some h_empty) [(bs "server", H3_SERVER); (bs "x-app-name", app_name ingress)] in
  let b := foldl (fun b kv =>
    if kv.1 =s "server" then b
    else if oci && (kv.1 =s "set-cookie") then b
    else
      let value := default [] (to_str kv.2) in
      let out := if oci && (kv.1 =s "location") then default value (rewrite_registry_location_value value true) else value in
      q_header b (kv.1, out)) b (h_iter up) in
  let b := if oci then q_header b (bs "alt-svc", bs "clear") else b in
  foldl q_header b (response_headers mw).

Definition q_forward (E : Env H) (io : H3Io H) (req : RequestHeader H) (plan : ForwardPlan) (body : str) (s : QState)
    : QEnd * QState :=
  let mw := plan_middleware plan in
  match upstream_headers (q_client_ip req) req mw with
  | None => emit (error_response (ev_ingress E) 502 (io_builder_error io)) s
  | Some h =>
    let up := mkUpstreamRequest (rq_method req) (upstream_url plan) h body in
    let s := mkQState (qs_plan s) (qs_rates s) (qs_frames s) (qs_sent_up s ++ [up]) in
    match io_upstream io up with
    | Err msg => emit (error_response (ev_ingress E) 502 msg) s
    | Ok (rs, read) =>
      match q_downstream_headers (ev_ingress E) req mw (rs_headers rs) with
      | Some h => emit (mkResponseHeader (rs_status rs) h, default [] read) s
      | None => (Panicked, s)
      end
    end
  end.

(** After the plan: GeoIP, then WAF and bot score, then the upstream. *)
Definition q_policies (E : Env H) (io : H3Io H) (req : RequestHeader H) (plan : ForwardPlan) (recv : list QInbound)
    (s : QState) : QEnd * QState :=
  let mw := plan_middleware plan in
  let geo := if geo_is_active (ma_geoip mw) then evaluate_ip (ev_geo E) (ma_geoip mw) (q_client_ip req) else Allow in
  match geo with
  | BlockCountry => emit (h3_forbidden (ev_ingress E) "geoip-country") s
  | BlockAsn => emit (h3_forbidden (ev_ingress E) "geoip-asn") s
  | Allow =>
    let forward := q_forward E io req plan (read_request_body [] recv) in
    if negb (security_is_active (ma_security mw)) then forward s
    else
      let '(d, rates) := evaluate (ev_secret E) (ev_secs E) (ev_instant E) (qs_rates s) (ma_security mw) (q_view req) in
      let s := mkQState (qs_plan s) rates (qs_frames s) (qs_sent_up s) in
      match sec_action d with
      | SecAllow | SecLog => forward s
      | SecChallenge | SecBlock => emit (h3_forbidden (ev_ingress E) (sec_reason d)) s
      end
  end.

Definition handle_proxied_request (E : Env H) (io : H3Io H) (hs : list WireHeader) (recv : list QInbound) (s : QState)
    : QEnd * QState :=
  match h3_to_request hs with
  | Err e => emit (error_response (ev_ingress E) 400 (err_text e)) s
  | Ok req =>
    if is_h3_incompatible_request (rq_headers req) (rq_method req) (uri_path (rq_uri req)) then
      emit (error_response (ev_ingress E) 421 "long-lived stream requires HTTP/2 (Alt-Svc: clear)") s
    else
      let '(r, ps) := resolve_forward iter_routes iter_edge iter_headers (ev_instant E) (ev_probe E) (ev_table E)
                        (h3_request_host req) (path_and_query (rq_uri req)) (qs_plan s) in
      let s := mkQState ps (qs_rates s) (qs_frames s) (qs_sent_up s) in
      match r with
      | Err _ => emit (error_response (ev_ingress E) 404 "no route") s
      | Ok plan => q_policies E io req plan recv s
      end
  end.

(** ** The connection ([serve_connection]) *)

Inductive H3Event : Type :=
| ConnectionError
| ConnectionShutdown
| Headers (hs : list WireHeader) (recv : list QInbound)
| OtherEvent.

(** What one stream's headers lead to: served inline, or spawned. *)
Definition on_headers (E : Env H) (io : H3Io H) (hs : list WireHeader) (recv : list QInbound) (s : QState) : QEnd * QState :=
  if matches_request hs then
    (Returned, mkQState (qs_plan s) (qs_rates s) (qs_frames s ++ try_serve (ev_ingress E) hs) (qs_sent_up s))
  else
    let denied :=
      deny_enabled (ev_env E) &&
      match pseudo_authority hs ≫= from_utf8 with
      | Some host => negb (is_empty host) && negb (has_host iter_routes (ev_table E) host)
      | None => false
      end in
    if denied then emit (h3_response (ev_ingress E) true) s else handle_proxied_request E io hs recv s.

(** The event loop, its spawned requests run in order; [false] is the error return. *)
Fixpoint serve_connection (E : Env H) (io : H3Io H) (events : list H3Event) (s : QState) : bool * QState :=
  match events with
  | [] => (true, s)
  | ConnectionError :: _ => (false, s)
  | ConnectionShutdown :: _ => (true, s)
  | Headers hs recv :: rest => serve_connection E io rest (on_headers E io hs recv s).2
  | OtherEvent :: rest => serve_connection E io rest s
  end.

(** ** What reaches the upstream *)

Lemma emit_sent r s : qs_sent_up (emit r s).2 = qs_sent_up s.
Proof. done. Qed.

Lemma q_forward_sent E io req plan body s :
  qs_sent_up (q_forward E io req plan body s).2 = qs_sent_up s ++
  match upstream_headers (q_client_ip req) req (plan_middleware plan) with
  | Some h => [mkUpstreamRequest (rq_method req) (upstream_url plan) h body]
  | None => []
  end.
Proof.
  unfold q_forward. cbn zeta. destruct (upstream_headers _ _ _) as [h|]; [|by rewrite app_nil_r].
  destruct (io_upstream io _) as [[rs read]|]; [|done]. by destruct (q_downstream_headers _ _ _ _).
Qed.

Lemma q_policies_sent E io req plan recv s :
  let mw := plan_middleware plan in
  (evaluate_ip (ev_geo E) (ma_geoip mw) (q_client_ip req) = Allow /\
   admits (sec_action (evaluate (ev_secret E) (ev_secs E) (ev_instant E) (qs_rates s) (ma_security mw) (q_view req)).1) /\
   qs_sent_up (q_policies E io req plan recv s).2 = qs_sent_up s ++
     match upstream_headers (q_client_ip req) req mw with
     | Some h => [mkUpstreamRequest (rq_method req) (upstream_url plan) h (read_request_body [] recv)]
     | None => []
     end) \/
  (~ (evaluate_ip (ev_geo E) (ma_geoip mw) (q_client_ip req) = Allow /\
      admits (sec_action (evaluate (ev_secret E) (ev_secs E) (ev_instant E) (qs_rates s) (ma_security mw) (q_view req)).1)) /\
   qs_sent_up (q_policies E io req plan recv s).2 = qs_sent_up s).
Proof.
  intros mw. unfold q_policies. fold mw. cbn zeta.
  assert (Hg : (if geo_is_active (ma_geoip mw) then evaluate_ip (ev_geo E) (ma_geoip mw) (q_client_ip req) else Allow) =
               evaluate_ip (ev_geo E) (ma_geoip mw) (q_client_ip req)).
  { unfold evaluate_ip. by destruct (geo_is_active _). }
  rewrite Hg. destruct (evaluate_ip _ _ _); [|by right; split; [by intros [? _]|]..].
  destruct (security_is_active (ma_security mw)) eqn:Ea; cbn [negb].
  - destruct (evaluate _ _ _ _ _ _) as [d rates]. cbn [fst]. unfold admits.
    destruct (sec_action d).
    + left. split_and!; [done|by left|by rewrite q_forward_sent].
    + left. split_and!; [done|by right|by rewrite q_forward_sent].
    + right. split; [|done]. by intros [_ []].
    + right. split; [|done]. by intros [_ []].
  - left. split_and!; [done| |by rewrite q_forward_sent]. unfold evaluate. rewrite Ea. by left.
Qed.

(** What the Quiche server sends upstream.  A request reaches the upstream
    exactly when its headers parse, it is not a long-lived stream, a plan
    resolves, GeoIP and the WAF/bot decision admit it and its headers are
    acceptable.  The route's edge policy is not consulted: rate limits, basic,
    bearer and forward authentication and static roots have no effect on this
    path; and the address GeoIP and the bot score see is whatever the client's
    own headers say. *)
Theorem quiche_forwarded_iff E io hs recv s up :
  qs_sent_up (handle_proxied_request E io hs recv s).2 = qs_sent_up s ++ [up] <->
  exists req plan h,
    h3_to_request hs = Ok req /\
    is_h3_incompatible_request (rq_headers req) (rq_method req) (uri_path (rq_uri req)) = false /\
    (resolve_forward iter_routes iter_edge iter_headers (ev_instant E) (ev_probe E) (ev_table E)
       (h3_request_host req) (path_and_query (rq_uri req)) (qs_plan s)).1 = Ok plan /\
    evaluate_ip (ev_geo E) (ma_geoip (plan_middleware plan)) (q_client_ip req) = Allow /\
    admits (sec_action (evaluate (ev_secret E) (ev_secs E) (ev_instant E) (qs_rates s)
                          (ma_security (plan_middleware plan)) (q_view req)).1) /\
    upstream_headers (q_client_ip req) req (plan_middleware plan) = Some h /\
    up = mkUpstreamRequest (rq_method req) (upstream_url plan) h (read_request_body [] recv).
Proof.
  assert (Hnil : qs_sent_up s = qs_sent_up s ++ [up] <-> False).
  { split; [|done]. intros Eq. rewrite <- (app_nil_r (qs_sent_up s)) in Eq at 1. by apply app_inv_head in Eq. }
  unfold handle_proxied_request. destruct (h3_to_request hs) as [req|e].
  2: { rewrite emit_sent, Hnil. split; [done|]. by intros (? & ? & ? & ? & _). }
  destruct (is_h3_incompatible_request _ _ _) eqn:Ei.
  { rewrite emit_sent, Hnil. split; [done|]. intros (? & ? & ? & [= <-] & ? & _). congruence. }
  destruct (resolve_forward _ _ _ _ _ _ _ _ _) as [[plan|e] ps] eqn:Ep.
  2: { rewrite emit_sent. cbn [qs_sent_up]. rewrite Hnil. split; [done|].
       intros (? & ? & ? & [= <-] & _ & Hp & _). by rewrite Ep in Hp. }
  set (s1 := mkQState ps (qs_rates s) (qs_frames s) (qs_sent_up s)).
  destruct (q_policies_sent E io req plan recv s1) as [(Hg & Ha & ->)|[Hn ->]]; cbn [s1 qs_sent_up qs_rates] in *.
  - split.
    + intros Eq%app_inv_head. revert Eq. destruct (upstream_headers _ _ _) as [h|] eqn:Eh; [|done].
      intros [= <-]. exists req, plan, h. rewrite Ep. by split_and!.
    + intros (? & ? & h & [= <-] & _ & Hp & _ & _ & Hh & ->). rewrite Ep in Hp. injection Hp as <-. by rewrite Hh.
  - rewrite Hnil. split; [done|]. intros (? & ? & h & [= <-] & _ & Hp & Hg & Ha & _).
    rewrite Ep in Hp. injection Hp as <-. by apply Hn.
Qed.

End quiche.
Arguments QState H : clear implicits.

(** Finding: a response header of the route's middleware that the [http] crate
    refuses makes the handler panic after the upstream has answered. *)
Lemma refused_header_panics `{HE : HeaderEntries H} E io req plan body s rs read h k v rest :
  upstream_headers (q_client_ip req) req (plan_middleware plan) = Some h ->
  io_upstream io (mkUpstreamRequest (rq_method req) (upstream_url plan) h body) = Ok (rs, read) ->
  response_headers (plan_middleware plan) = (k, v) :: rest -> name_ok k && value_ok v = false ->
  (q_forward E io req plan body s).1 = Panicked.
Proof.
  intros Hh Hup Hr Hbad. unfold q_forward. cbn zeta. rewrite Hh, Hup.
  assert (Hn : forall l, foldl (q_header (H := H)) None l = None) by (intros l; induction l; [done|by cbn]).
  unfold q_downstream_headers. cbn zeta. rewrite Hr. cbn [foldl].
  assert (Hq : forall b, q_header (H := H) b (k, v) = None).
  { intros [h0|]; [|done]. unfold q_header, rb_header. cbn. by rewrite Hbad. }
  by rewrite Hq, Hn.
Qed.

(** ** A protected route over both HTTP/3 servers *)

Definition wire_request : list WireHeader :=
  [(bs ":method", bs "GET"); (bs ":scheme", bs "https"); (bs ":authority", bs "app.io"); (bs ":path", bs "/x")].

Definition quiche_run (E : Env header_list) : QEnd * QState header_list :=
  handle_proxied_request (H1 := toy_crypto) (UP := plain_uri) iter_r iter_e iter_h (fun _ => true) (fun _ => true)
    (fun s a p => Some (mkUri s a p)) (fun _ => []) E h3_io wire_request [] (mkQState no_state ∅ [] []).

(** Finding: a route behind basic authentication, asked for without credentials:
    the Quinn server answers 401, the Quiche server forwards it. *)
Lemma quiche_auth_ignored :
  let E := sample_env protected_table false in
  (hs_frames (h3_run E (h3_request [] "/x") h3_state).2 = [FHead (plain_response false 401 "unauthorized"); FData "unauthorized"; FFin] /\
   hs_sent_up (h3_run E (h3_request [] "/x") h3_state).2 = []) /\
  length (qs_sent_up (quiche_run E).2) = 1%nat.
Proof. vm_compute. done. Qed.
