(* ===== verification/H3Serve.v ===== *)
(** * Serving HTTP/3: certificates, sockets and connections (h3/quinn_server.rs, h3/server.rs)

    [H3] and [H3Quiche] handle requests; here is what runs before them: the wait for a
    certificate, the TLS configuration that is built once, the sockets, and the loops
    that accept connections and requests.  QUIC and TLS themselves are libraries: a
    connection is the list of what the library delivers. *)

From S2P Require Import Prelude RustStr Ip GeoIp Waf Bot Captcha Security Edge EdgeAuth ProxyConfig Router CertStore CertValidate Handshake.
From S2P Require Import Forward Apply Http Grpc Registry Respond Telemetry Gateway H3 H3Quiche.

(** ** Waiting for a certificate

    The store as the task finds it each time it looks, two seconds apart. *)
Fixpoint wait_until {A} (ready : A -> bool) (looks : list A) : option A :=
  match looks with
  | [] => None
  | st :: looks => if ready st then Some st else wait_until ready looks
  end.

(** ** TLS of the Quinn server *)

Definition ALPN_H3 : str := bs "h3".

(** Where a handshake takes its certificate from. *)
Inductive CertSource : Type := ByStore | OnePair (chain : list str) (key : str).

Record RustlsConfig := mkRustlsConfig { rc_source : CertSource; rc_alpn : list str }.

Inductive H3StartError : Type :=
| NoTlsCertificates | ReadCert (path : str) | ReadKey (path : str) | ParseCertPem | ParseKeyPem | NoPrivateKey (path : str)
| InvalidTlsPair | BindH3 (e : BindError) | QuicCrypto | UpstreamClient | InvalidUdpListen (listen : str) | UdpSocketFailed | QuicListener.

Section quinn.
Context `{CertParser}.
Variable from_der : list str -> str -> bool.
(** [with_single_cert] of rustls. *)
Variable with_single_cert : list str -> str -> bool.
Variable fs : Files.
Variable iter_hosts : gmap str StoredCert -> list (str * StoredCert).

Definition build_rustls_config_from_paths (cert_path key_path : str) : result H3StartError RustlsConfig :=
  cert_pem ← ok_or (fs_read fs cert_path) (ReadCert cert_path);
  key_pem ← ok_or (fs_read fs key_path) (ReadKey key_path);
  certs ← ok_or (mapM id (pem_certs cert_pem)) ParseCertPem;
  match pem_private_key key_pem with
  | Err _ => Err ParseKeyPem
  | Ok None => Err (NoPrivateKey key_path)
  | Ok (Some key) => if with_single_cert certs key then Ok (mkRustlsConfig (OnePair certs key) [ALPN_H3]) else Err InvalidTlsPair
  end.

Definition build_rustls_config (st : CertStoreInner) : result H3StartError RustlsConfig :=
  if (0 <? host_count st)%nat then Ok (mkRustlsConfig ByStore [ALPN_H3])
  else
    paths ← ok_or (default_paths iter_hosts st) NoTlsCertificates;
    build_rustls_config_from_paths (cert_path paths) (key_path paths).

(** The certificate of a handshake while the store is [st]. *)
Definition h3_certificate (c : RustlsConfig) (st : CertStoreInner) (sni : option str) : option (list str * str) :=
  match rc_source c with
  | ByStore => resolver_resolve from_der fs iter_hosts st sni
  | OnePair chain key => Some (chain, key)
  end.

(** ** Transport *)

(** [None]: the library's default stays. *)
Record QuinnTransport := mkQuinnTransport {
  tr_max_bidi : N;
  tr_stream_window : N;
  tr_window : N;
  tr_idle_ms : option N;
  tr_keep_alive_secs : option N;
}.

Record QuinnServerConfig := mkQuinnServerConfig { qc_tls : RustlsConfig; qc_transport : QuinnTransport }.

(** [Duration] to [IdleTimeout]: milliseconds below 2^62. *)
Definition idle_timeout (secs : N) : option N := if secs * 1000 <? 2 ^ 62 then Some (secs * 1000) else None.

(** [QuicServerConfig::try_from]: whether the TLS settings suit QUIC. *)
Variable quic_crypto : RustlsConfig -> bool.

Definition quinn_transport (cfg : QuinnTransportConfig) : QuinnTransport :=
  mkQuinnTransport (qt_max_streams_bidi cfg) (qt_stream_receive_window cfg) (qt_conn_receive_window cfg)
    (if 0 <? qt_idle_timeout_secs cfg then idle_timeout (qt_idle_timeout_secs cfg) else None)
    (if 0 <? qt_keepalive_secs cfg then Some (qt_keepalive_secs cfg) else None).

Definition build_quinn_server_config (env : str -> option str) (st : CertStoreInner) : result H3StartError QuinnServerConfig :=
  tls ← build_rustls_config st;
  if negb (quic_crypto tls) then Err QuicCrypto
  else Ok (mkQuinnServerConfig tls (quinn_transport (effective_transport_config env))).

(** ** Sockets *)

Record UdpOptions := mkUdpOptions {
  uo_v6 : bool;
  uo_reuse_address : bool;
  uo_reuse_port : bool;
  uo_only_v6 : option bool;
  uo_recv_buffer : N;
  uo_send_buffer : N;
}.

(** The calls of the system: making a socket, binding it, making it non-blocking; an
    error has its number if there is one.  The options may fail, which is ignored. *)
Record UdpSystem := mkUdpSystem {
  us_new : bool -> result (option N) unit;
  us_bind : BindAddr -> UdpOptions -> result (option N) unit;
  us_nonblocking : BindAddr -> result (option N) unit;
}.

Definition udp_options (addr : BindAddr) : UdpOptions :=
  let v6 := negb (sock_is_ipv4 addr) in
  mkUdpOptions v6 true true (if v6 then Some false else None) UDP_BUFFER_BYTES UDP_BUFFER_BYTES.

Definition create_tuned_udp_socket (sys : UdpSystem) (addr : BindAddr) : result (option N) UdpOptions :=
  let o := udp_options addr in
  _ ← us_new sys (uo_v6 o);
  _ ← us_bind sys addr o;
  _ ← us_nonblocking sys addr;
  Ok o.

(** What [bind_quinn_endpoint] sees of an address; [endpoint] makes the Quinn endpoint and
    reads the address it has. *)
Definition socket_outcome (sys : UdpSystem) (endpoint : BindAddr -> result (option N) BindAddr) (addr : BindAddr) : BindOutcome :=
  match create_tuned_udp_socket sys addr with
  | Err e => SocketFailed e
  | Ok _ => match endpoint addr with Ok bound => Bound bound | Err e => EndpointFailed e end
  end.

(** ** Connections *)

(** What [accept] of an HTTP/3 connection returns: a request that resolves or does not,
    the end, an error. *)
Inductive Accept (R : Type) : Type := Accepted (req : option R) | AcceptEnd | AcceptError (err : str).
Arguments Accepted {R} _.
Arguments AcceptEnd {R}.
Arguments AcceptError {R} _.

(** The requests given to tasks, and how the loop ended. *)
Fixpoint accept_loop {R} (events : list (Accept R)) : list R * result str unit :=
  match events with
  | [] | AcceptEnd :: _ => ([], Ok tt)
  | AcceptError err :: _ => ([], Err err)
  | Accepted req :: events => let '(rs, e) := accept_loop events in (match req with Some r => r :: rs | None => rs end, e)
  end.

Definition serve_h3_connection {R} (setup : result str unit) (events : list (Accept R)) : list R * result str unit :=
  match setup with Err e => ([], Err e) | Ok _ => accept_loop events end.

(** A connection that arrives: its handshake, its address, what happens on it. *)
Record Incoming (R : Type) := mkIncoming {
  in_handshake : bool;
  in_remote : IpAddr;
  in_setup : result str unit;
  in_events : list (Accept R);
}.
Arguments in_handshake {R} _.
Arguments in_remote {R} _.
Arguments in_setup {R} _.
Arguments in_events {R} _.

(** Requests for [handle_request], with the address of the client, and whether a warning
    is logged. *)
Definition connection_task {R} (c : Incoming R) : list (IpAddr * R) * bool :=
  if negb (in_handshake c) then ([], true)
  else
    let '(rs, e) := serve_h3_connection (in_setup c) (in_events c) in
    ((fun r => (in_remote c, r)) <$> rs, match e with Ok _ => false | Err err => negb (is_benign_h3_disconnect err) end).

Record QuinnServing (R : Type) := mkQuinnServing {
  qn_config : QuinnServerConfig;
  qn_bound : BindAddr;
  qn_tasks : list (list (IpAddr * R) * bool);
}.
Arguments mkQuinnServing {R} _ _ _.
Arguments qn_config {R} _.
Arguments qn_bound {R} _.
Arguments qn_tasks {R} _.

(** [bind_quinn_endpoint] with the configuration it is given for each address. *)
Definition quinn_endpoint (macos : bool) (env : str -> option str) (sys : UdpSystem) (endpoint : BindAddr -> result (option N) BindAddr)
    (st : CertStoreInner) (listen : str) : result H3StartError (QuinnServerConfig * BindAddr) :=
  match build_quinn_server_config env st with
  | Ok cfg =>
    match bind_quinn_endpoint macos true (socket_outcome sys endpoint) listen with Ok a => Ok (cfg, a) | Err e => Err (BindH3 e) end
  | Err e =>
    match h3_bind_candidates macos listen with [] => Err (BindH3 (InvalidListen listen)) | _ => Err e end
  end.

(** [run]: [None] while it waits. *)
Definition quinn_run {R} (macos : bool) (env : str -> option str) (sys : UdpSystem) (endpoint : BindAddr -> result (option N) BindAddr) (client_ok : bool)
    (looks : list CertStoreInner) (listen : str) (incoming : list (Incoming R)) : option (result H3StartError (QuinnServing R)) :=
  st ← wait_until (has_any_cert iter_hosts) looks;
  Some (
    '(cfg, bound) ← quinn_endpoint macos env sys endpoint st listen;
    if negb client_ok then Err UpstreamClient
    else Ok (mkQuinnServing cfg bound (connection_task <$> incoming))).

(** ** What HTTP/3 clients are shown *)

(** When the server was started with a host's certificate in the store, every later
    handshake gets the certificate that the store has then: the one HTTPS presents
    ([Handshake.sni_callback] and [resolver_resolve] ask the store the same question), so
    that certificates added, renewed or removed while the server runs take effect. *)
Theorem h3_certificate_current env st cfg st' sni : build_quinn_server_config env st = Ok cfg -> (0 < host_count st)%nat ->
  h3_certificate (qc_tls cfg) st' sni = resolver_resolve from_der fs iter_hosts st' sni.
Proof.
  unfold build_quinn_server_config, build_rustls_config. intros Hb Hh. apply Nat.ltb_lt in Hh. rewrite Hh in Hb. cbn [mbind result_bind] in Hb.
  destruct (quic_crypto _); [|done]. by injection Hb as <-.
Qed.

(** Started with the default certificate alone, the server presents that pair for ever,
    whatever the store holds later and whatever name the client asks for. *)
Theorem h3_default_pair_frozen env st cfg : build_quinn_server_config env st = Ok cfg -> host_count st = 0%nat ->
  exists pair, forall st' sni, h3_certificate (qc_tls cfg) st' sni = Some pair.
Proof.
  unfold build_quinn_server_config, build_rustls_config. intros Hb Hh. rewrite Hh in Hb. cbn [Nat.ltb Nat.leb] in Hb.
  destruct (default_paths iter_hosts st) as [p|]; [|done]. cbn [ok_or mbind result_bind] in Hb.
  unfold build_rustls_config_from_paths in Hb. destruct (fs_read fs (cert_path p)) as [cert|]; [|done]. cbn [ok_or mbind result_bind] in Hb.
  destruct (fs_read fs (key_path p)) as [key|]; [|done]. cbn [ok_or mbind result_bind] in Hb.
  destruct (mapM id (pem_certs cert)) as [chain|]; [|done]. cbn [ok_or mbind result_bind] in Hb.
  destruct (pem_private_key key) as [[k|]|]; [|done..]. destruct (with_single_cert chain k); [|done]. cbn [mbind result_bind] in Hb.
  destruct (quic_crypto _); [|done]. injection Hb as <-. by exists (chain, k).
Qed.

(** The server starts at the first look that finds a certificate, with the store of that
    look, and not before. *)
Lemma wait_until_some {A} (ready : A -> bool) looks st : wait_until ready looks = Some st <->
  exists before after, looks = before ++ st :: after /\ ready st = true /\ Forall (fun x => ready x = false) before.
Proof.
  split.
  - induction looks as [|x looks IH]; [done|]. cbn. destruct (ready x) eqn:Hx; [intros [= ->]; by exists [], looks|].
    intros (before & after & -> & Hr & Hb)%IH. exists (x :: before), after. by repeat constructor.
  - intros (before & after & -> & Hr & Hb). induction Hb as [|x before Hx _ IH]; cbn; [by rewrite Hr|by rewrite Hx].
Qed.

Lemma wait_until_none {A} (ready : A -> bool) looks : wait_until ready looks = None <-> Forall (fun x => ready x = false) looks.
Proof.
  induction looks as [|x looks IH]; [by split|]. cbn. rewrite Forall_cons. destruct (ready x); [|tauto]. split; [done|by intros [??]].
Qed.

(** Requests reach their tasks once and in order, up to where the connection ends. *)
Lemma accept_loop_requests {R} (rs : list (option R)) e rest : accept_loop ((Accepted <$> rs) ++ e :: rest) =
  match e with
  | AcceptEnd => (omap id rs, Ok tt)
  | AcceptError err => (omap id rs, Err err)
  | Accepted req => let '(l, r) := accept_loop rest in (omap id rs ++ match req with Some x => [x] | None => [] end ++ l, r)
  end.
Proof.
  induction rs as [|r rs IH].
  - destruct e as [[r|]| |]; cbn; [by destruct (accept_loop rest)..|done|done].
  - cbn [fmap list_fmap app accept_loop]. rewrite IH. destruct e as [req| |err]; [destruct (accept_loop rest)| |]; by destruct r.
Qed.

End quinn.

(** ** The Quiche server *)

Record QuicheServing := mkQuicheServing { qu_cert : str; qu_key : str; qu_settings : QuicSettings; qu_sockets : list UdpOptions }.

Definition create_bound_socket (sys : UdpSystem) (addr : BindAddr) : result H3StartError UdpOptions :=
  let o := udp_options addr in
  match us_new sys (uo_v6 o) with
  | Err _ => Err UdpSocketFailed
  | Ok _ => match us_bind sys addr o with Err _ => Err UdpSocketFailed | Ok _ => Ok o end
  end.

Fixpoint bind_sockets (sys : UdpSystem) (addr : BindAddr) (count : nat) : result H3StartError (list UdpOptions) :=
  match count with
  | O => Ok []
  | S count =>
    o ← create_bound_socket sys addr;
    match us_nonblocking sys addr with
    | Err _ => Err UdpSocketFailed
    | Ok _ => rest ← bind_sockets sys addr count; Ok (o :: rest)
    end
  end.

(** At least one socket; no fallback to the other address family. *)
Definition bind_udp_sockets (sys : UdpSystem) (listen : str) (count : N) : result H3StartError (list UdpOptions) :=
  addr ← ok_or (parse_bind_addr listen) (InvalidUdpListen listen);
  bind_sockets sys addr (N.to_nat (N.max count 1)).

Section quiche.
Variable iter_hosts : gmap str StoredCert -> list (str * StoredCert).
(** [listen] of tokio-quiche: the sockets and the files of the certificate. *)
Variable quic_listen : str -> str -> bool.

Definition quiche_server_run (env : str -> option str) (cpus default_cwnd : N) (performance : bool) (http3_opts : Http3Options) (sys : UdpSystem) (client_ok : bool)
    (looks : list CertStoreInner) (listen : str) : option (result H3StartError QuicheServing) :=
  st ← wait_until (fun st => is_some (default_paths iter_hosts st)) looks;
  paths ← default_paths iter_hosts st;
  Some (
    sockets ← bind_udp_sockets sys listen (listener_count env cpus performance http3_opts);
    if negb (quic_listen (cert_path paths) (key_path paths)) then Err QuicListener
    else if negb client_ok then Err UpstreamClient
    else Ok (mkQuicheServing (cert_path paths) (key_path paths) (quic_settings env default_cwnd performance http3_opts) sockets)).

(** A store whose certificates are kept as texts, as those of the controller and of the
    management interface without a directory are, never has the file the Quiche server
    waits for: it is not started, although there are certificates. *)
Theorem quiche_waits_for_files env cpus cwnd performance opts sys client_ok looks listen :
  (forall st, st ∈ looks -> forall c, default_cert iter_hosts st = Some c -> exists cert key, c = CertPem cert key) ->
  quiche_server_run env cpus cwnd performance opts sys client_ok looks listen = None.
Proof.
  intros Hp. unfold quiche_server_run. replace (wait_until _ looks) with (None (A := CertStoreInner)); [done|]. symmetry. apply wait_until_none, Forall_forall.
  intros st Hs. unfold default_paths. specialize (Hp st Hs). destruct (default_cert iter_hosts st) as [c|]; [|done].
  by destruct (Hp c eq_refl) as (cert & key & ->).
Qed.

Lemma bind_sockets_length sys addr n l : bind_sockets sys addr n = Ok l -> length l = n /\ Forall (eq (udp_options addr)) l.
Proof.
  revert l. induction n as [|n IH]; cbn; intros l Hl; [by injection Hl as <-|]. unfold create_bound_socket in Hl.
  destruct (us_new sys _); [|done]. destruct (us_bind sys _ _); [|done]. cbn [mbind result_bind] in Hl. destruct (us_nonblocking sys addr); [|done].
  destruct (bind_sockets sys addr n) as [rest|]; [|done]. cbn in Hl. injection Hl as <-. destruct (IH _ eq_refl) as [? ?]. by split; [cbn; f_equal|constructor].
Qed.

(** The Quiche server has one socket for each listener asked for, at least one, all on
    the address of the setting. *)
Theorem quiche_sockets env cpus cwnd performance opts sys client_ok looks listen s :
  quiche_server_run env cpus cwnd performance opts sys client_ok looks listen = Some (Ok s) ->
  exists addr, parse_bind_addr listen = Some addr /\ (1 <= length (qu_sockets s))%nat /\
    N.of_nat (length (qu_sockets s)) = N.max (listener_count env cpus performance opts) 1 /\ Forall (eq (udp_options addr)) (qu_sockets s).
Proof.
  unfold quiche_server_run. destruct (wait_until _ looks) as [st|]; [|done]. cbn [mbind option_bind]. destruct (default_paths iter_hosts st) as [p|]; [|done].
  cbn [mbind option_bind]. unfold bind_udp_sockets. destruct (parse_bind_addr listen) as [addr|]; [|done]. cbn [ok_or mbind result_bind].
  destruct (bind_sockets sys addr _) as [l|] eqn:Hb; [|done]. cbn [mbind result_bind]. destruct (quic_listen _ _); [|done]. destruct client_ok; [|done].
  intros [= <-]. destruct (bind_sockets_length _ _ _ _ Hb) as [Hl Hf]. exists addr. cbn [qu_sockets]. rewrite Hl. split_and!; [done|lia|lia|done].
Qed.

End quiche.

(** ** The client of the upstreams *)

Record UpstreamClientConfig := mkUpstreamClientConfig {
  uc_redirects : bool;
  uc_max_idle_per_host : N;
  uc_idle_secs : N;
  uc_keepalive_secs : N;
  uc_accept_invalid_certs : bool;
}.

Definition build_upstream_client (env : str -> option str) (performance : bool) : UpstreamClientConfig :=
  let pool := upstream_pool_config env performance in
  mkUpstreamClientConfig false (max_idle_per_host pool) (pool_idle_timeout_secs pool) (tcp_keepalive_secs pool) true.
