(* ===== verification/Controller.v ===== *)
(** * The Kubernetes controller (ingress/controller.rs, ingress/gateway_api.rs, ingress/mod.rs)

    One reconciliation: the Ingress, Gateway and HTTPRoute objects of the cluster
    become backends, sites and TLS secrets; the secrets' certificates replace the
    previous ones; the configuration is applied to the router; the statuses of
    the Gateway API objects are patched.  What the API server answers is a
    parameter ([Cluster]).  Every [HashMap] the code iterates over comes with its
    order as an argument. *)

From S2P Require Import Prelude RustStr Ip GeoIp Waf Bot Captcha Security Edge EdgeAuth ProxyConfig Router Forward Apply.
From S2P Require Import Telemetry CertStore.

(** ** Cluster objects: the fields the controller reads *)

(** [svc_port] is [port.number], [svc_port_name] is [port.name]. *)
Record KService := mkKService { svc_name : str; svc_port : option Z; svc_port_name : option str }.
Record KBackend := mkKBackend { kb_service : option KService; kb_resource : option str }.
Record KPath := mkKPath { kp_path : option str; kp_type : str; kp_backend : KBackend }.
Record KRule := mkKRule { kr_host : option str; kr_http : option (list KPath) }.
Record KTls := mkKTls { kt_hosts : option (list str); kt_secret : option str }.
Record KIngressSpec := mkKIngressSpec {
  ki_class : option str;
  ki_rules : option (list KRule);
  ki_tls : option (list KTls);
}.
Record KIngress := mkKIngress {
  ki_namespace : option str;
  ki_name : str;
  ki_annotations : option (gmap str str);
  ki_spec : option KIngressSpec;
}.

Record Condition := mkCondition {
  condition_type : str;
  cond_status : str;
  cond_reason : str;
  cond_message : str;
  last_transition_time : str;
  observed_generation : option Z;
}.

Record SecretObjectReference := mkSecretRef {
  sr_group : option str;
  sr_kind : option str;
  sr_name : str;
  sr_namespace : option str;
}.
Record GatewayListenerTls := mkListenerTls {
  lt_mode : option str;
  certificate_refs : list SecretObjectReference;
}.
(** [RouteNamespaces] has the one field [from]. *)
Record AllowedRoutes := mkAllowedRoutes { ar_namespaces : option (option str) }.
Record GatewayListener := mkGatewayListener {
  gl_name : str;
  gl_port : Z;
  gl_protocol : str;
  gl_hostname : option str;
  gl_allowed_routes : option AllowedRoutes;
  gl_tls : option GatewayListenerTls;
}.
Record GatewayListenerStatus := mkListenerStatus {
  ls_name : str;
  ls_attached : Z;
  ls_conditions : list Condition;
}.
Record GatewayStatus := mkGatewayStatus {
  gst_addresses : list str;
  gst_listeners : list GatewayListenerStatus;
  gst_conditions : list Condition;
}.
Record KGateway := mkKGateway {
  gw_namespace : option str;
  gw_name : str;
  gw_generation : option Z;
  gw_class : option str;
  gw_listeners : list GatewayListener;
  gw_status : option GatewayStatus;
}.
Record KGatewayClass := mkKGatewayClass {
  gc_name : str;
  gc_generation : option Z;
  gc_controller : str;
  gc_conditions : option (list Condition);
}.

Record ParentReference := mkParentRef {
  pa_group : option str;
  pa_kind : option str;
  pa_name : str;
  pa_namespace : option str;
  pa_section : option str;
}.
Record HTTPPathMatch := mkPathMatch { pm_type : option str; pm_value : option str }.
Record HTTPBackendRef := mkBackendRef {
  br_group : option str;
  br_kind : option str;
  br_name : str;
  br_namespace : option str;
  br_port : option Z;
}.
Record HTTPRouteRule := mkRouteRule { rr_matches : list (option HTTPPathMatch); rr_backends : list HTTPBackendRef }.
Record KHTTPRoute := mkKHTTPRoute {
  hr_namespace : option str;
  hr_name : str;
  hr_annotations : option (gmap str str);
  hr_parents : list ParentReference;
  hr_hostnames : list str;
  hr_rules : list HTTPRouteRule;
}.

Record KSecret := mkKSecret { ks_type : option str; ks_data : option (gmap str str) }.

(** ** Configuration (ingress/mod.rs) *)

Record IngressControllerConfig := mkControllerConfig {
  cc_namespace : option str;
  cc_ingress_class : option str;
  cc_gateway_class : option str;
  cc_gateway_api_enabled : bool;
  cc_gateway_controller_name : str;
  cc_default_backend_port : N;
}.

Definition env_nonempty (env : str -> option str) (key : str) : option str :=
  opt_filter (fun v => negb (is_empty v)) (trim <$> env key).

Definition load_controller_config (env : str -> option str) : IngressControllerConfig :=
  let ingress_class :=
    or_else (env_nonempty env "PERTISK_INGRESS_CLASS")
      (or_else (env_nonempty env "INGRESS_CLASS") (Some (bs "pertisk"))) in
  mkControllerConfig
    (opt_filter (fun v => negb (is_empty v)) (trim <$> or_else (env "PERTISK_WATCH_NAMESPACE") (env "WATCH_NAMESPACE")))
    ingress_class
    (or_else (env_nonempty env "PERTISK_GATEWAY_CLASS") ingress_class)
    (from_option (fun v => negb (bool_decide (to_ascii_lowercase (trim v) ∈ [bs "0"; bs "false"; bs "no"; bs "off"])))
       true (env "PERTISK_GATEWAY_API_ENABLED"))
    (default (bs "pertisk.tech/ingress-controller") (env_nonempty env "PERTISK_GATEWAY_CONTROLLER_NAME"))
    80.

(** ** Names and addresses *)

(** [usize as i32]. *)
Definition as_i32 (n : nat) : Z := (((Z.of_nat n + 2 ^ 31) mod 2 ^ 32) - 2 ^ 31)%Z.

Definition backend_name_for (b : KBackend) (ingress : str) : str :=
  match kb_service b with
  | Some svc => svc_name svc ++ bs "." ++ ingress ++ bs ":" ++ show_Z (default 80%Z (svc_port svc))
  | None =>
    match kb_resource b with
    | Some res => bs "resource." ++ res ++ bs "." ++ ingress
    | None => bs "default." ++ ingress
    end
  end.

(** [management_port] is the port of the management API. *)
Definition is_self_management_service (env : str -> option str) (management_port : N) (service namespace : str) (port : N)
    : bool :=
  if negb (port =? management_port) then false
  else if negb (namespace =s default (bs "pertisk-proxy") (env_nonempty env "PERTISK_HELM_NAMESPACE")) then false
  else
    bool_decide (env_nonempty env "PERTISK_HELM_SERVICE_NAME" = Some service)
    || bool_decide (env_nonempty env "PERTISK_HELM_RELEASE" = Some service).

Definition resolve_upstream_addr (env : str -> option str) (management_port : N) (service namespace : str) (port : N) : str :=
  if is_self_management_service env management_port service namespace port then bs "127.0.0.1:" ++ show_N port
  else service ++ bs "." ++ namespace ++ bs ".svc.cluster.local:" ++ show_N port.

Definition ACCESS_LIST_ID_ANNOTATION : str := bs "proxy.pertisk.tech/access-list-id".
Definition WAF_POLICY_ID_ANNOTATION : str := bs "proxy.pertisk.tech/waf-policy-id".

Definition policy_ids_from_annotations (annotations : option (gmap str str)) : option str * option str :=
  match annotations with
  | None => (None, None)
  | Some m =>
    let read key := opt_filter (fun v => negb (is_empty v)) (trim <$> (m !! key)) in
    (read ACCESS_LIST_ID_ANNOTATION, read WAF_POLICY_ID_ANNOTATION)
  end.

Section controller.
Variable env : str -> option str.
Variable management_port : N.
Variable cfg : IngressControllerConfig.

Definition upstreams_from_backend (b : KBackend) (namespace : option str) : list Upstream :=
  match kb_service b with
  | Some svc =>
    let port := from_option i32_as_u16 (cc_default_backend_port cfg) (svc_port svc) in
    [mkUpstream (resolve_upstream_addr env management_port (svc_name svc) (default (bs "default") namespace) port) 1]
  | None => []
  end.

(** ** Ingress objects *)

(** The variables the reconciliation fills: [backends], [sites], [backend_names]
    (whose values repeat their keys) and [tls_secrets]. *)
Record Acc := mkAcc {
  acc_backends : list CfgBackend;
  acc_sites : list Site;
  acc_names : gset str;
  acc_tls : gmap (str * str) (list str);
}.

Definition acc_empty : Acc := mkAcc [] [] ∅ ∅.

Definition new_backend (name : str) (ups : list Upstream) : CfgBackend := mkCfgBackend name ups RoundRobin None 10.

(** [if !backend_names.contains_key(..) { push; insert }]. *)
Definition add_backend (name : str) (ups : list Upstream) (acc : Acc) : Acc :=
  if bool_decide (name ∈ acc_names acc) then acc
  else mkAcc (acc_backends acc ++ [new_backend name ups]) (acc_sites acc) ({[name]} ∪ acc_names acc) (acc_tls acc).

Definition add_site (s : Site) (acc : Acc) : Acc :=
  mkAcc (acc_backends acc) (acc_sites acc ++ [s]) (acc_names acc) (acc_tls acc).

(** [tls_secrets.entry(key).or_default().extend(hosts)]. *)
Definition add_tls (key : str * str) (hosts : list str) (acc : Acc) : Acc :=
  mkAcc (acc_backends acc) (acc_sites acc) (acc_names acc)
    (<[key := default [] (acc_tls acc !! key) ++ hosts]> (acc_tls acc)).

Definition ingress_path_type (t : str) : CfgPathMatchType :=
  if t =s "Exact" then CfgExact else if t =s "Prefix" then CfgPrefix else CfgImplementationSpecific.

(** A site of one path of a Kubernetes object. *)
Definition k8s_site (kind host ns name : str) (annotations : option (gmap str str)) (t : CfgPathMatchType) (path backend : str)
    : Site :=
  let '(acl, waf) := policy_ids_from_annotations annotations in
  mkSite host [mkPathRewrite t path None None None 0 0 None] backend None (Some ns) (Some name) (Some kind) true true
    acl waf (geo_policy_from_annotations annotations) (sec_policy_from_annotations annotations).

Definition ingress_ns (ing : KIngress) : str := default (bs "default") (ki_namespace ing).

Definition ingress_site (ing : KIngress) (host : str) (p : KPath) : Site :=
  k8s_site "ingress" host (ingress_ns ing) (ki_name ing) (ki_annotations ing) (ingress_path_type (kp_type p))
    (default (bs "/") (kp_path p)) (backend_name_for (kp_backend p) (ki_name ing)).

Definition add_path (ing : KIngress) (host : str) (acc : Acc) (p : KPath) : Acc :=
  add_site (ingress_site ing host p)
    (add_backend (backend_name_for (kp_backend p) (ki_name ing)) (upstreams_from_backend (kp_backend p) (Some (ingress_ns ing))) acc).

Definition add_rule (ing : KIngress) (acc : Acc) (r : KRule) : Acc :=
  match kr_http r with
  | None => acc
  | Some paths => foldl (add_path ing (default (bs "*") (kr_host r))) acc paths
  end.

Definition rule_hosts (spec : KIngressSpec) : list str := omap kr_host (default [] (ki_rules spec)).

Definition add_ingress_tls (ns : str) (spec : KIngressSpec) (acc : Acc) (t : KTls) : Acc :=
  match opt_filter (fun s => negb (is_empty s)) (kt_secret t) with
  | None => acc
  | Some secret =>
    let listed := match kt_hosts t with
                  | Some h => if is_empty h then rule_hosts spec else h
                  | None => rule_hosts spec
                  end in
    let hosts := listed ++ rule_hosts spec in
    if is_empty hosts then acc else add_tls (ns, secret) hosts acc
  end.

(** An Ingress of another class is skipped; one without a class is not. *)
Definition ingress_of_class (spec : KIngressSpec) : bool :=
  match ki_class spec, cc_ingress_class cfg with
  | Some class, Some want => class =s want
  | _, _ => true
  end.

Definition add_ingress (acc : Acc) (ing : KIngress) : Acc :=
  match ki_spec ing with
  | None => acc
  | Some spec =>
    if negb (ingress_of_class spec) then acc
    else
      let acc := foldl (add_rule ing) acc (default [] (ki_rules spec)) in
      foldl (add_ingress_tls (ingress_ns ing) spec) acc (default [] (ki_tls spec))
  end.

(** ** Gateway API objects *)

Record ManagedGateway := mkManagedGateway {
  mg_name : str;
  listener_hostnames : list (option str);
  tls_secret_refs : list (str * str);
}.

Definition is_http_listener_protocol (protocol : str) : bool :=
  let p := to_ascii_uppercase protocol in (p =s "HTTP") || (p =s "HTTPS").

Definition is_secret_ref (r : SecretObjectReference) : bool :=
  is_empty (default [] (sr_group r)) && (default (bs "Secret") (sr_kind r) =s "Secret").

Definition is_service_backend_ref (r : HTTPBackendRef) : bool :=
  is_empty (default [] (br_group r)) && (default (bs "Service") (br_kind r) =s "Service").

Definition parent_ref_matches_gateway (p : ParentReference) (gw_ns gw_name : str) : bool :=
  if negb (default (bs "gateway.networking.k8s.io") (pa_group p) =s "gateway.networking.k8s.io")
     || negb (default (bs "Gateway") (pa_kind p) =s "Gateway") then false
  else if negb (pa_name p =s gw_name) then false
  else default gw_ns (pa_namespace p) =s gw_ns.

Definition gateway_ns (gw : KGateway) : str := default (bs "default") (gw_namespace gw).
Definition route_ns (r : KHTTPRoute) : str := default (bs "default") (hr_namespace r).

(** The Gateways of the configured class; without one, all of them. *)
Definition gateway_of_class (gw : KGateway) : bool :=
  match cc_gateway_class cfg with
  | Some want => bool_decide (gw_class gw = Some want)
  | None => true
  end.

(** One certificate reference of a listener: the secret it names, with its hosts. *)
Definition add_cert_ref (ns : str) (host : option str) (x : list (str * str) * Acc) (r : SecretObjectReference)
    : list (str * str) * Acc :=
  if negb (is_secret_ref r) then x
  else
    let key := (default ns (sr_namespace r), sr_name r) in
    (x.1 ++ [key], add_tls key (match host with Some h => [h] | None => [bs "*"] end) x.2).

Definition add_listener (ns : str) (x : ManagedGateway * Acc) (l : GatewayListener) : ManagedGateway * Acc :=
  if negb (is_http_listener_protocol (gl_protocol l)) then x
  else
    let '(refs, acc) := foldl (add_cert_ref ns (gl_hostname l)) (tls_secret_refs x.1, x.2) (from_option certificate_refs [] (gl_tls l)) in
    (mkManagedGateway (mg_name x.1) (listener_hostnames x.1 ++ [gl_hostname l]) refs, acc).

Abbreviation Managed := (gmap (str * str) ManagedGateway).

Definition add_gateway (x : Managed * Acc) (gw : KGateway) : Managed * Acc :=
  if negb (gateway_of_class gw) then x
  else
    let ns := gateway_ns gw in
    let '(mg, acc) := foldl (add_listener ns) (mkManagedGateway (gw_name gw) [] [], x.2) (gw_listeners gw) in
    (<[(ns, gw_name gw) := mg]> x.1, acc).

Definition attached_gateways (r : KHTTPRoute) (managed : Managed) : list ManagedGateway :=
  if is_empty (hr_parents r) then option_list (managed !! (route_ns r, hr_name r))
  else
    omap (fun p =>
      let gw_ns := default (route_ns r) (pa_namespace p) in
      opt_filter (fun gw => parent_ref_matches_gateway p gw_ns (mg_name gw)) (managed !! (gw_ns, pa_name p)))
      (hr_parents r).

Definition hostname_matches_listener (route_host : str) (listener : option str) : bool :=
  match listener with
  | None => true
  | Some l =>
    if l =s route_host then true
    else if starts_with "*." l then
      let suffix := drop 1 l in
      ends_with suffix route_host && (length suffix <? length route_host)%nat
    else false
  end.

Definition resolve_route_hostnames (hostnames : list str) (attached : list ManagedGateway) : list str :=
  let listener_hosts := concat ((fun gw => omap id (listener_hostnames gw)) <$> attached) in
  if is_empty hostnames then
    if is_empty listener_hosts then [bs "*"] else sort_dedup_str listener_hosts
  else if is_empty listener_hosts then hostnames
  else
    filter (fun host =>
      existsb (fun gw => is_empty (listener_hostnames gw)
                         || existsb (hostname_matches_listener host) (listener_hostnames gw)) attached = true) hostnames.

Definition path_from_match (m : option HTTPPathMatch) : CfgPathMatchType * str :=
  match m with
  | Some p =>
    let t := default (bs "PathPrefix") (pm_type p) in
    (if t =s "Exact" then CfgExact
     else if (t =s "PathPrefix") || (t =s "Prefix") then CfgPrefix else CfgImplementationSpecific,
     default (bs "/") (pm_value p))
  | None => (CfgPrefix, bs "/")
  end.

Definition gateway_backend_name (b : HTTPBackendRef) (route : str) (rule_idx match_idx backend_idx : nat) : str :=
  br_name b ++ bs "." ++ route ++ bs ":" ++ show_Z (default 80%Z (br_port b)) ++ bs ":" ++ show_N (N.of_nat rule_idx)
  ++ bs ":" ++ show_N (N.of_nat (match_idx * 10 + backend_idx)).

Definition upstreams_from_gateway_backend (b : HTTPBackendRef) (namespace : option str) : list Upstream :=
  let port := from_option i32_as_u16 (cc_default_backend_port cfg) (br_port b) in
  let ns := default (bs "default") (or_else (br_namespace b) namespace) in
  [mkUpstream (resolve_upstream_addr env management_port (br_name b) ns port) 1].

(** The four nested loops over hosts, rules, matches and backends. *)
Definition add_route_backend (r : KHTTPRoute) (host : str) (ri mi : nat) (m : option HTTPPathMatch) (acc : Acc)
    (ib : nat * HTTPBackendRef) : Acc :=
  let '(bi, b) := ib in
  if negb (is_service_backend_ref b) then acc
  else
    let name := gateway_backend_name b (hr_name r) ri mi bi in
    let '(t, path) := path_from_match m in
    add_site (k8s_site "httproute" host (route_ns r) (hr_name r) (hr_annotations r) t path name)
      (add_backend name (upstreams_from_gateway_backend b (Some (route_ns r))) acc).

Definition indexed {A} (l : list A) : list (nat * A) := imap pair l.

Definition add_route_match (r : KHTTPRoute) (host : str) (ri : nat) (backends : list HTTPBackendRef) (acc : Acc)
    (im : nat * option HTTPPathMatch) : Acc :=
  foldl (add_route_backend r host ri im.1 im.2) acc (indexed backends).

Definition add_route_rule (r : KHTTPRoute) (host : str) (acc : Acc) (ir : nat * HTTPRouteRule) : Acc :=
  let matches := if is_empty (rr_matches ir.2) then [None] else rr_matches ir.2 in
  foldl (add_route_match r host ir.1 (rr_backends ir.2)) acc (indexed matches).

Definition add_route_host (r : KHTTPRoute) (acc : Acc) (host : str) : Acc :=
  let rules := if is_empty (hr_rules r) then [mkRouteRule [] []] else hr_rules r in
  foldl (add_route_rule r host) acc (indexed rules).

(** One HTTPRoute, and the count of the attached ones. *)
Definition add_http_route (managed : Managed) (x : Acc * nat) (r : KHTTPRoute) : Acc * nat :=
  let attached := attached_gateways r managed in
  if is_empty attached then x
  else
    let hosts := resolve_route_hostnames (hr_hostnames r) attached in
    let acc := foldl (fun acc host => foldl (fun acc gw => foldl (fun acc key => add_tls key [host] acc) acc
                 (tls_secret_refs gw)) acc attached) x.1 hosts in
    (foldl (add_route_host r) acc hosts, S x.2).

(** ** Statuses *)

Definition gateway_condition (t : str) (ok : bool) (reason message now : str) (generation : Z) : Condition :=
  mkCondition t (if ok then bs "True" else bs "False") reason message now (Some generation).

Definition count_attached_routes (routes : list KHTTPRoute) (gw_ns gw_name listener : str) : Z :=
  as_i32 (length (filter (fun r =>
    existsb (fun p =>
      parent_ref_matches_gateway p gw_ns gw_name &&
      match pa_section p with
      | None => true
      | Some s => is_empty s || (s =s listener)
      end) (hr_parents r) = true) routes)).

(** The secret of a listener, as the API has it. *)
Definition gateway_tls_secret_ready (secret : str -> str -> option KSecret) (gw_ns : str) (r : SecretObjectReference) : bool :=
  match secret (default gw_ns (sr_namespace r)) (sr_name r) with
  | Some s => from_option (fun d => is_some (d !! bs "tls.crt") && is_some (d !! bs "tls.key")) false (ks_data s)
  | None => false
  end.

(** Whether a listener is accepted and programmed. *)
Definition listener_accepted (secret : str -> str -> option KSecret) (gw_ns : str) (l : GatewayListener) : bool :=
  match gl_tls l with
  | None => true
  | Some tls => forallb (fun r => is_secret_ref r && gateway_tls_secret_ready secret gw_ns r) (certificate_refs tls)
  end.

Definition listener_status (secret : str -> str -> option KSecret) (routes : list KHTTPRoute) (now : str) (gw : KGateway)
    (l : GatewayListener) : GatewayListenerStatus :=
  let ns := gateway_ns gw in
  let generation := default 0%Z (gw_generation gw) in
  let attached := count_attached_routes routes ns (gw_name gw) (gl_name l) in
  let accepted := listener_accepted secret ns l in
  let programmed := accepted && (0 <? attached)%Z in
  mkListenerStatus (gl_name l) attached
    [gateway_condition "Accepted" accepted
       (if accepted then bs "Accepted" else bs "InvalidCertificateRef")
       (if accepted then bs "Listener accepted by pertisk-proxy ingress controller"
        else bs "TLS certificate Secret missing or not ready") now generation;
     gateway_condition "Programmed" programmed
       (if programmed then bs "Programmed" else if negb accepted then bs "Invalid" else bs "NoRoutesAttached")
       (if programmed then bs "Listener programmed with attached HTTPRoutes"
        else if negb accepted then bs "Listener not accepted" else bs "No HTTPRoutes attached to this listener")
       now generation].

Definition listener_programmed (secret : str -> str -> option KSecret) (routes : list KHTTPRoute) (gw : KGateway)
    (l : GatewayListener) : bool :=
  listener_accepted secret (gateway_ns gw) l
  && (0 <? count_attached_routes routes (gateway_ns gw) (gw_name gw) (gl_name l))%Z.

Definition has_condition (t status : str) (generation : Z) (cs : list Condition) : bool :=
  existsb (fun c => (condition_type c =s t) && (cond_status c =s status)
                    && (generation <=? default 0 (observed_generation c))%Z) cs.

Definition gateway_status_up_to_date (status : option GatewayStatus) (generation : Z) (programmed : bool) : bool :=
  match status with
  | None => false
  | Some st =>
    let want := if programmed then bs "True" else bs "False" in
    has_condition "Programmed" want generation (gst_conditions st)
    && negb (is_empty (gst_listeners st))
    && forallb (fun l => has_condition "Programmed" want generation (ls_conditions l)) (gst_listeners st)
  end.

(** The Gateways whose status is kept: with a class in any case. *)
Definition status_of_class (gw : KGateway) : bool :=
  match cc_gateway_class cfg with
  | Some want => bool_decide (gw_class gw = Some want)
  | None => is_some (gw_class gw)
  end.

(** The status patch of one Gateway, if it needs one. *)
Definition gateway_patch (secret : str -> str -> option KSecret) (addresses : list str) (routes : list KHTTPRoute) (now : str)
    (gw : KGateway) : option GatewayStatus :=
  if negb (status_of_class gw) then None
  else
    let generation := default 0%Z (gw_generation gw) in
    let listeners := filter (fun l => is_http_listener_protocol (gl_protocol l) = true) (gw_listeners gw) in
    let accepted := forallb (listener_accepted secret (gateway_ns gw)) listeners in
    let programmed := forallb (listener_programmed secret routes gw) listeners in
    if is_empty listeners then None
    else if gateway_status_up_to_date (gw_status gw) generation programmed then None
    else
      Some (mkGatewayStatus addresses (listener_status secret routes now gw <$> listeners)
        [gateway_condition "Accepted" accepted
           (if accepted then bs "Accepted" else bs "ListenersNotValid")
           (if accepted then bs "All listeners accepted" else bs "One or more listeners are not accepted") now generation;
         gateway_condition "Programmed" programmed
           (if programmed then bs "Programmed" else bs "ListenersNotProgrammed")
           (if programmed then bs "All listeners programmed" else bs "One or more listeners are not programmed")
           now generation]).

(** The patches sent, in order; the first refused one ends the loop ([false]). *)
Fixpoint send_patches {P} (ok : str -> str -> bool) (patches : list (str * str * P)) : list (str * str * P) * bool :=
  match patches with
  | [] => ([], true)
  | (ns, name, p) :: rest =>
    if ok ns name then let '(sent, r) := send_patches ok rest in ((ns, name, p) :: sent, r) else ([], false)
  end.

Definition reconcile_gateway_statuses (secret : str -> str -> option KSecret) (ok : str -> str -> bool) (addresses : list str)
    (gws : list KGateway) (routes : list KHTTPRoute) (now : str) : list (str * str * GatewayStatus) * bool :=
  send_patches ok (omap (fun gw =>
    p ← gateway_patch secret addresses routes now gw; Some (gateway_ns gw, gw_name gw, p)) gws).

Definition gateway_class_already_accepted (gc : KGatewayClass) (generation : Z) : bool :=
  from_option (has_condition "Accepted" "True" generation) false (gc_conditions gc).

Definition class_patch (now : str) (gc : KGatewayClass) : option (list Condition) :=
  if negb (gc_controller gc =s cc_gateway_controller_name cfg) then None
  else
    let generation := default 0%Z (gc_generation gc) in
    if gateway_class_already_accepted gc generation then None
    else Some [gateway_condition "Accepted" true "Accepted" "Handled by pertisk-proxy ingress controller" now generation].

Definition reconcile_gateway_class_status (ok : str -> str -> bool) (classes : list KGatewayClass) (now : str)
    : list (str * str * list Condition) * bool :=
  send_patches ok (omap (fun gc => p ← class_patch now gc; Some ([], gc_name gc, p)) classes).

(** The load balancer entries of the release's Service: ([ip], [hostname]) pairs;
    [None] when the Service cannot be read. *)
Definition gateway_status_addresses (service : str -> str -> option (list (option str * option str))) : list str :=
  match opt_filter (fun v => negb (is_empty (trim v))) (env "PERTISK_HELM_RELEASE") with
  | None => []
  | Some release =>
    let ns := default (bs "pertisk-proxy") (env_nonempty env "PERTISK_HELM_NAMESPACE") in
    omap (fun e : option str * option str => opt_filter (fun v => negb (is_empty v)) (or_else e.1 e.2))
      (default [] (service ns release))
  end.

(** ** The cluster's answers *)

(** A listing that failed is [None]; so is a secret that cannot be read, for
    whatever reason.  The certificate's names and expiry come from the X.509
    parser. *)
Record Cluster := mkCluster {
  cl_ingresses : option (list KIngress);
  cl_classes : option (list KGatewayClass);
  cl_gateways : option (list KGateway);
  cl_routes : option (list KHTTPRoute);
  cl_secret : str -> str -> option KSecret;
  cl_service : str -> str -> option (list (option str * option str));
  cl_patch_class : str -> str -> bool;
  cl_patch_gateway : str -> str -> bool;
  cl_cert_hosts : str -> list str;
  cl_cert_expiry : str -> option str;
}.

(** What the pass sends back to the API server. *)
Record Patches := mkPatches {
  class_patches : list (str * str * list Condition);
  gateway_patches : list (str * str * GatewayStatus);
}.

Definition reconcile_gateway_api (cl : Cluster) (now : str) (acc : Acc)
    : Acc * nat * nat * list (str * str * GatewayStatus) :=
  match cl_gateways cl with
  | None => (acc, 0, 0, [])%nat
  | Some gws =>
    let '(managed, acc) := foldl add_gateway (∅, acc) gws in
    let n := size managed in
    if (n =? 0)%nat then (acc, 0, 0, [])%nat
    else
      let addresses := gateway_status_addresses (cl_service cl) in
      let statuses routes :=
        (reconcile_gateway_statuses (cl_secret cl) (cl_patch_gateway cl) addresses gws routes now).1 in
      match cl_routes cl with
      | None => (acc, n, 0%nat, statuses [])
      | Some routes =>
        let '(acc, m) := foldl (add_http_route managed) (acc, 0%nat) routes in (acc, n, m, statuses routes)
      end
  end.

(** ** TLS secrets *)

(** The PEM pair of a secret, if it is a usable one. *)
Definition secret_pair (s : KSecret) : option (str * str) :=
  if negb (default [] (ks_type s) =s "kubernetes.io/tls")
     && negb (from_option (fun d => is_some (d !! bs "tls.crt")) false (ks_data s)) then None
  else
    data ← ks_data s; cert ← data !! bs "tls.crt"; key ← data !! bs "tls.key";
    if is_empty cert || is_empty key then None else Some (cert, key).

(** The listed hosts and the certificate's own, sorted. *)
Definition merge_hosts (hosts cert_hosts : list str) : list str :=
  sort_dedup_str (foldl (fun acc h => if existsb (fun x => x =s h) acc then acc else acc ++ [h]) hosts cert_hosts).

(** The loop over [tls_secrets]: TLS entries, loaded hosts, the certificate store. *)
Record Loaded := mkLoaded { ld_tls : list TlsConfig; ld_hosts : list str; ld_certs : CertStoreInner }.

Definition load_secret (io : CertIo) (cl : Cluster) (l : Loaded) (e : (str * str) * list str) : Loaded :=
  match cl_secret cl e.1.1 e.1.2 ≫= secret_pair with
  | None => l
  | Some (cert, key) =>
    let hosts := merge_hosts e.2 (cl_cert_hosts cl cert) in
    let tls := ld_tls l ++ [mkTlsConfig hosts Kubernetes (cl_cert_expiry cl cert)] in
    match insert_pem_in_memory_for_hosts io hosts cert key (ld_certs l) with
    | (Ok _, certs) => mkLoaded tls (ld_hosts l ++ hosts) certs
    | (Err _, certs) => mkLoaded tls (ld_hosts l) certs
    end
  end.

(** Drop what the previous pass installed and this one did not; a pass that loads
    nothing keeps everything. *)
Definition retire (previous new_hosts : list str) (certs : CertStoreInner) : CertStoreInner * list str :=
  if is_empty new_hosts then (certs, previous)
  else
    let obsolete := filter (fun h => h ∉ new_hosts) previous in
    (if is_empty obsolete then certs else remove_for_hosts obsolete certs, new_hosts).

(** ** Reconciliation *)

Record CtlState := mkCtlState {
  ct_router : Router;
  ct_config : Config;
  ct_certs : CertStoreInner;
  last_ingress_tls_hosts : list str;
  ct_log : ProxyLog;
}.

Variable to_lowercase : str -> str.
Variable url_parse : str -> option Url.
Variable iter_secrets : gmap (str * str) (list str) -> list ((str * str) * list str).

Definition reconcile_message (n_backends n_sites loaded referenced gateways routes : nat) : str :=
  let n k := show_N (N.of_nat k) in
  bs "Ingress reconciliation: " ++ n n_backends ++ bs " backends, " ++ n n_sites ++ bs " sites, TLS " ++ n loaded ++ bs "/"
  ++ n referenced ++ bs " Secrets loaded, " ++ n gateways ++ bs " Gateways, " ++ n routes ++ bs " HTTPRoutes".

(** The configuration of the pass: everything else as by default, the named
    policies as they are. *)
Definition pass_config (acc : Acc) (tls : list TlsConfig) (previous : Config) : Config :=
  let d := config_default in
  mkConfig (http_addr d) (https_addr d) (http3_addr d) (ProxyConfig.management_addr d) (acc_backends acc) (acc_sites acc)
    (access_lists previous) (waf_policies previous) tls (cfg_security_headers d) (proxy_log d) (acme_email d) (cfg_http3 d)
    (cfg_tls_grade d) (cfg_cache_size_mb d) (cfg_cache_ttl_secs d) (cfg_consul d) (cfg_jwt_secret d).

(** All the objects of the cluster, and the patches of the pass. *)
Definition collect (cl : Cluster) (now : str) (ings : list KIngress) : Acc * nat * nat * Patches :=
  let acc := foldl add_ingress acc_empty ings in
  if cc_gateway_api_enabled cfg then
    let classes := from_option (fun l => (reconcile_gateway_class_status (cl_patch_class cl) l now).1) [] (cl_classes cl) in
    let '(acc, n, m, gateways) := reconcile_gateway_api cl now acc in (acc, n, m, mkPatches classes gateways)
  else (acc, 0, 0, mkPatches [] [])%nat.

Definition reconcile (io : CertIo) (cl : Cluster) (now : str) (instant : N) (min : LogLevel) (st : CtlState)
    : bool * CtlState * Patches :=
  match cl_ingresses cl with
  | None => (false, st, mkPatches [] [])
  | Some ings =>
    let '(acc, n_gateways, n_httproutes, patches) := collect cl now ings in
    let secrets := sort_dedup_str <$> acc_tls acc in
    let l := foldl (load_secret io cl) (mkLoaded [] [] (ct_certs st)) (iter_secrets secrets) in
    let '(certs, last) := retire (last_ingress_tls_hosts st) (ld_hosts l) (ld_certs l) in
    let config := pass_config acc (ld_tls l) (ct_config st) in
    let '(r, router) := apply_config to_lowercase url_parse (ct_router st) config in
    let '(certs, config) :=
      match r with Ok _ => (set_expected_from_config config certs, config) | Err _ => (certs, ct_config st) end in
    let msg := reconcile_message (length (acc_backends acc)) (length (acc_sites acc)) (length (ld_tls l)) (size secrets)
                 n_gateways n_httproutes in
    (true, mkCtlState router config certs last (push_sync min (log_config_reload instant msg) (ct_log st)), patches)
  end.

End controller.
