(* ===== verification/ControllerProps.v ===== *)
(** * What a reconciliation guarantees

    Theorems about the definitions of [Controller]: the configuration it builds is
    closed; where each Ingress path is routed and when a pass changes no route; what
    becomes of each certificate; when Gateway statuses settle. *)

From S2P Require Import Prelude RustStr Ip GeoIp Waf Bot Captcha Security Edge EdgeAuth ProxyConfig Router Forward Apply.
From S2P Require Import Telemetry CertStore Controller.

(** ** Names the API server admits *)

(** A byte of a DNS label: a lower-case letter, a digit or a hyphen. *)
Definition label_byte (b : byte) : bool := is_ascii_digit b || (97 <=? b2n b) && (b2n b <=? 122) || is_byte "-" b.
(** A byte of a DNS subdomain: labels and the dots between them. *)
Definition subdomain_byte (b : byte) : bool := label_byte b || is_byte "." b.

Definition label (s : str) : bool := forallb label_byte s.
Definition subdomain (s : str) : bool := forallb subdomain_byte s.

Lemma forallb_not_elem (f : byte -> bool) s c : f c = false -> forallb f s = true -> c ∉ s.
Proof. intros Hc Hs Hin. rewrite forallb_forall in Hs. rewrite list_elem_of_In in Hin. apply Hs in Hin. congruence. Qed.

Lemma label_subdomain s : label s = true -> subdomain s = true.
Proof.
  unfold label, subdomain. rewrite !forallb_forall. intros Hs b Hb. unfold subdomain_byte. by rewrite Hs.
Qed.

Lemma subdomain_byte_graphic b : subdomain_byte b = true -> graphic b = true.
Proof. by destruct b; vm_compute. Qed.

Lemma host_port_addr_graphic h p : subdomain h = true -> Forall (fun b => graphic b = true) (h ++ bs ":" ++ show_N p).
Proof.
  intros Hh. rewrite !Forall_app. split_and!.
  - apply Forall_forall. intros b Hb. apply subdomain_byte_graphic. unfold subdomain in Hh. rewrite forallb_forall in Hh.
    by apply Hh, list_elem_of_In.
  - by repeat constructor.
  - eapply Forall_impl; [apply show_N_digits|]. intros b. apply digit_graphic.
Qed.

Lemma trim_end_matches_digits p h n : (forall b, is_ascii_digit b = true -> p b = false) ->
  trim_end_matches p (h ++ show_N n) = h ++ show_N n.
Proof.
  intros Hp. unfold trim_end_matches. pose proof (show_N_digits n) as Hd. pose proof (show_N_nonempty n) as Hn.
  destruct (show_N n) as [|d s _] using rev_ind; [done|]. apply Forall_app in Hd as [_ Hd]. apply Forall_cons in Hd as [Hd _].
  rewrite app_assoc, reverse_app. cbn [reverse]. change (reverse [d]) with [d]. cbn [app trim_start_matches].
  rewrite (Hp d Hd). by rewrite reverse_cons, reverse_involutive.
Qed.

(** A dotted name and a port are an address, taken as they are. *)
Lemma parse_dotted_address url_parse h p : subdomain h = true -> "."%byte ∈ h -> p <= u16_max ->
  parse_upstream url_parse (h ++ bs ":" ++ show_N p) = Some (mkBackend (h ++ bs ":" ++ show_N p) p false).
Proof.
  intros Hh Hdot Hp. unfold parse_upstream. pose proof (host_port_addr_graphic h p Hh) as Hg.
  rewrite (trim_all_graphic _ Hg), app_assoc, trim_end_matches_digits, <- app_assoc, (trim_all_graphic _ Hg).
  2:{ intros b Hb. apply bool_decide_eq_false_2. by intros ->. }
  assert (Hs : "/"%byte ∉ h ++ bs ":" ++ show_N p).
  { rewrite !not_elem_of_app. split_and!; [by apply (forallb_not_elem subdomain_byte)| |by apply show_N_no].
    intros Hin%list_elem_of_singleton. done. }
  destruct (is_empty (h ++ bs ":" ++ show_N p)) eqn:Ee.
  { exfalso. destruct h; [by apply not_elem_of_nil in Hdot|done]. }
  assert (contains "://" (h ++ bs ":" ++ show_N p) = false) as ->.
  { destruct (contains _ _) eqn:Ec; [|done]. exfalso. apply contains_true in Ec as (a & b & Eq). apply Hs. rewrite Eq.
    apply elem_of_app. right. apply elem_of_app. left. by right; left. }
  unfold parse_host_port. rewrite (split_first_no _ _ Hs). change (bs ":" ++ ?x) with (":"%byte :: x).
  rewrite rsplit_once_app by (by apply show_N_no). unfold parse_u16. rewrite parse_show_N by done. cbn.
  unfold normalize_upstream_host. destruct (eq_ignore_ascii_case h "localhost") eqn:El; [|done]. exfalso.
  unfold eq_ignore_ascii_case in El. apply bool_decide_eq_true in El.
  assert (Hin : "."%byte ∈ to_ascii_lowercase h).
  { apply list_elem_of_fmap. by exists "."%byte. }
  rewrite El in Hin. by apply (bool_decide_pack _) in Hin.
Qed.

Lemma resolved_address url_parse env management_port service ns p :
  label service = true -> label ns = true -> p <= u16_max ->
  let addr := resolve_upstream_addr env management_port service ns p in
  parse_upstream url_parse addr = Some (mkBackend addr p false).
Proof.
  intros Hs Hn Hp addr. unfold addr, resolve_upstream_addr. destruct (is_self_management_service _ _ _ _ _).
  - change (bs "127.0.0.1:" ++ show_N p) with (bs "127.0.0.1" ++ bs ":" ++ show_N p).
    apply parse_dotted_address; [done|by apply (bool_decide_unpack _)|done].
  - replace (service ++ bs "." ++ ns ++ bs ".svc.cluster.local:" ++ show_N p)
      with ((service ++ bs "." ++ ns ++ bs ".svc.cluster.local") ++ bs ":" ++ show_N p) by (by rewrite <- !app_assoc).
    apply parse_dotted_address; [|rewrite elem_of_app; right; by left|done].
    apply label_subdomain in Hs, Hn. unfold subdomain in *. rewrite !forallb_app, Hs, Hn. done.
Qed.

Section props.
Variable env : str -> option str.
Variable management_port : N.
Variable cfg : IngressControllerConfig.

Abbreviation upstreams_of := (upstreams_from_backend env management_port cfg).
Abbreviation step_ingress := (add_ingress env management_port cfg).

Implicit Types (acc : Acc) (ing : KIngress).

(** ** Induction over the accumulator *)

Lemma foldl_inv {A B} (P : A -> Prop) (f : A -> B -> A) l a :
  P a -> (forall a b, P a -> b ∈ l -> P (f a b)) -> P (foldl f a l).
Proof.
  revert a. induction l as [|b l IH]; intros a Ha Hf; [done|]. cbn. apply IH.
  - apply Hf; [done|by left].
  - intros a' b' Ha' Hb'. apply Hf; [done|by right].
Qed.

Lemma elem_of_indexed {A} (l : list A) (x : nat * A) : x ∈ indexed l -> x.2 ∈ l.
Proof. intros (i & y & -> & Hy)%elem_of_lookup_imap. by apply list_elem_of_lookup_2 in Hy. Qed.

(** A backend of one of the HTTPRoute's rules. *)
Definition backend_of_route (r : KHTTPRoute) (b : HTTPBackendRef) : Prop := exists rule, rule ∈ hr_rules r /\ b ∈ rr_backends rule.

(** An invariant of backends and sites survives the loops over the Gateway API's
    objects, if it does not look at the TLS table and each site comes with its
    backend; [R] is what is known of the HTTPRoutes' backends. *)
Record gateway_inv (R : KHTTPRoute -> HTTPBackendRef -> Prop) (P : Acc -> Prop) : Prop := {
  inv_tls : forall key hosts acc, P acc -> P (add_tls key hosts acc);
  inv_route : forall r host ri mi m acc ib, R r ib.2 -> P acc -> P (add_route_backend env management_port cfg r host ri mi m acc ib);
}.

(** The same over all the loops. *)
Record acc_inv (P : Acc -> Prop) : Prop := {
  inv_gateway : gateway_inv (fun _ _ => True) P;
  inv_ingress : forall ing host p acc, P acc -> P (add_path env management_port cfg ing host acc p);
}.

Lemma inv_add_ingress (P : Acc -> Prop) acc ing : acc_inv P -> P acc -> P (step_ingress acc ing).
Proof.
  intros HI Ha. unfold add_ingress. destruct (ki_spec ing) as [spec|]; [|done].
  destruct (ingress_of_class cfg spec); [|done]. cbn [negb].
  apply foldl_inv.
  - apply foldl_inv; [done|]. intros a r Ha' _. unfold add_rule. destruct (kr_http r) as [paths|]; [|done].
    apply foldl_inv; [done|]. intros a' p Ha'' _. by apply (inv_ingress P HI).
  - intros a t Ha' _. unfold add_ingress_tls. destruct (opt_filter _ _); [|done]. cbn zeta.
    destruct (is_empty _); [done|]. by apply (inv_tls _ _ (inv_gateway P HI)).
Qed.

Lemma inv_add_gateway (R : KHTTPRoute -> HTTPBackendRef -> Prop) (P : Acc -> Prop) (x : gmap (str * str) ManagedGateway * Acc) (gw : KGateway) :
  gateway_inv R P -> P x.2 -> P (add_gateway cfg x gw).2.
Proof.
  intros HI Hx. unfold add_gateway. destruct (gateway_of_class cfg gw); [|done]. cbn [negb]. cbn zeta.
  assert (Hl : P (foldl (add_listener (gateway_ns gw)) (mkManagedGateway (gw_name gw) [] [], x.2) (gw_listeners gw)).2).
  { apply (foldl_inv (fun y : ManagedGateway * Acc => P y.2)); [done|]. intros y l Hy _. unfold add_listener.
    destruct (is_http_listener_protocol _); [|done]. cbn [negb].
    assert (Hr : P (foldl (add_cert_ref (gateway_ns gw) (gl_hostname l)) (tls_secret_refs y.1, y.2) (from_option certificate_refs [] (gl_tls l))).2).
    { apply (foldl_inv (fun z : list (str * str) * Acc => P z.2)); [done|]. intros z r Hz _. unfold add_cert_ref.
      destruct (is_secret_ref r); [|done]. cbn. by apply (inv_tls R P HI). }
    by destruct (foldl (add_cert_ref _ _) _ _) as [refs acc]. }
  by destruct (foldl (add_listener _) _ _) as [mg acc].
Qed.

Lemma inv_add_http_route (R : KHTTPRoute -> HTTPBackendRef -> Prop) (P : Acc -> Prop) managed (x : Acc * nat) r :
  gateway_inv R P -> (forall b, backend_of_route r b -> R r b) -> P x.1 -> P (add_http_route env management_port cfg managed x r).1.
Proof.
  intros HI HR Hx. unfold add_http_route. cbn zeta. destruct (is_empty _); [done|]. cbn [fst].
  apply foldl_inv.
  - apply foldl_inv; [done|]. intros a host Ha _. apply foldl_inv; [done|]. intros a' gw Ha' _.
    apply foldl_inv; [done|]. intros a'' key Ha'' _. by apply (inv_tls R P HI).
  - intros a host Ha _. unfold add_route_host. cbn zeta. apply foldl_inv; [done|]. intros a1 ir Ha1 Hir%elem_of_indexed.
    unfold add_route_rule. cbn zeta. apply foldl_inv; [done|]. intros a2 im Ha2 _. unfold add_route_match.
    apply foldl_inv; [done|]. intros a3 ib Ha3 Hib%elem_of_indexed. apply (inv_route R P HI); [|done]. apply HR.
    exists ir.2. split; [|done]. destruct (is_empty (hr_rules r)); [|done].
    apply list_elem_of_singleton in Hir. rewrite Hir in Hib. by apply not_elem_of_nil in Hib.
Qed.

Lemma inv_reconcile_gateway_api (R : KHTTPRoute -> HTTPBackendRef -> Prop) (P : Acc -> Prop) cl now acc :
  gateway_inv R P -> (forall r b, r ∈ default [] (cl_routes cl) -> backend_of_route r b -> R r b) -> P acc -> P (reconcile_gateway_api env management_port cfg cl now acc).1.1.1.
Proof.
  intros HI HR Ha. unfold reconcile_gateway_api. destruct (cl_gateways cl) as [gws|]; [|done].
  assert (Hg : P (foldl (add_gateway cfg) (∅, acc) gws).2).
  { apply (foldl_inv (fun x : gmap (str * str) ManagedGateway * Acc => P x.2)); [done|]. intros x gw Hx _.
    by apply (inv_add_gateway R). }
  destruct (foldl (add_gateway cfg) (∅, acc) gws) as [managed acc']. destruct (size managed =? 0)%nat; [done|].
  destruct (cl_routes cl) as [routes|]; [|done].
  assert (Hr : P (foldl (add_http_route env management_port cfg managed) (acc', 0%nat) routes).1).
  { apply (foldl_inv (fun x : Acc * nat => P x.1)); [done|]. intros x r Hx Hr.
    apply (inv_add_http_route R); [done|intros b; by apply HR|done]. }
  by destruct (foldl (add_http_route _ _ _ managed) _ _) as [acc'' m].
Qed.

Lemma inv_collect (P : Acc -> Prop) cl now ings : acc_inv P -> P acc_empty -> P (collect env management_port cfg cl now ings).1.1.1.
Proof.
  intros HI He. unfold collect. cbn zeta.
  assert (Hi : P (foldl step_ingress acc_empty ings)).
  { apply foldl_inv; [done|]. intros a ing Ha _. by apply inv_add_ingress. }
  destruct (cc_gateway_api_enabled cfg); [|done].
  pose proof (inv_reconcile_gateway_api _ P cl now _ (inv_gateway P HI) ltac:(done) Hi) as Hg.
  by destruct (reconcile_gateway_api _ _ _ _ _ _) as [[[acc n] m] gs].
Qed.

(** ** The configuration is closed *)

(** A site with one route, to the site's own backend. *)
Definition plain_site (s : Site) : Prop :=
  exists t path, site_routes s = [mkPathRewrite t path None None None 0 0 None].

(** Backend names are distinct, known, and every site names one of them. *)
Record acc_closed acc : Prop := {
  closed_nodup : NoDup (backend_name <$> acc_backends acc);
  closed_names : forall n, n ∈ acc_names acc <-> n ∈ backend_name <$> acc_backends acc;
  closed_sites : Forall (fun s => site_backend s ∈ backend_name <$> acc_backends acc) (acc_sites acc);
  closed_routes : Forall plain_site (acc_sites acc);
}.

Lemma closed_add name ups s acc : acc_closed acc -> site_backend s = name -> plain_site s ->
  acc_closed (add_site s (add_backend name ups acc)).
Proof.
  intros [Hn Hk Hs Hp] Hname Hps.
  assert (Hps' : Forall plain_site (acc_sites acc ++ [s])) by (apply Forall_app; by split; [|constructor]).
  unfold add_backend. case_bool_decide as Hin.
  - split; [done|done| |done]. cbn. apply Forall_app. split; [done|]. constructor; [|done]. rewrite Hname. by apply Hk.
  - split; cbn.
    + rewrite fmap_app. apply NoDup_app. split_and!; [done| |by apply NoDup_singleton].
      intros x Hx Hx'. cbn in Hx'. apply list_elem_of_singleton in Hx' as ->. by apply Hin, Hk.
    + intros n. rewrite fmap_app, elem_of_app, <- Hk, elem_of_union, elem_of_singleton. cbn.
      rewrite list_elem_of_singleton. tauto.
    + rewrite fmap_app. apply Forall_app. split.
      * eapply Forall_impl; [exact Hs|]. intros s' Hs'. apply elem_of_app. by left.
      * constructor; [|done]. apply elem_of_app. right. rewrite Hname. by left.
    + done.
Qed.

Lemma k8s_site_backend kind host ns name ann t path b : site_backend (k8s_site kind host ns name ann t path b) = b.
Proof. unfold k8s_site. by destruct (policy_ids_from_annotations ann). Qed.

Lemma k8s_site_plain kind host ns name ann t path b : plain_site (k8s_site kind host ns name ann t path b).
Proof. unfold k8s_site. destruct (policy_ids_from_annotations ann). by exists t, path. Qed.

Lemma closed_inv : acc_inv acc_closed.
Proof.
  split; [split|].
  - intros key hosts acc [Hn Hk Hs Hp]. by split.
  - intros r host ri mi m acc [bi b] _ Ha. unfold add_route_backend. destruct (is_service_backend_ref b); [|done].
    cbn [negb]. cbn zeta. destruct (path_from_match m) as [t path]. apply closed_add; [done|apply k8s_site_backend|apply k8s_site_plain].
  - intros ing host p acc Ha. apply closed_add; [done|apply k8s_site_backend|apply k8s_site_plain].
Qed.

Lemma closed_collect cl now ings : acc_closed (collect env management_port cfg cl now ings).1.1.1.
Proof.
  apply inv_collect; [apply closed_inv|]. split; [apply NoDup_nil_2| |apply Forall_nil_2|apply Forall_nil_2].
  intros n. split; intros Hn; [by apply not_elem_of_empty in Hn|by apply not_elem_of_nil in Hn].
Qed.

Lemma backends_by_name_elem c n b : backends_by_name c !! n = Some b -> b ∈ cfg_backends c /\ backend_name b = n.
Proof.
  unfold backends_by_name.
  assert (Hg : forall l (m : gmap str CfgBackend), foldl (fun m b => <[backend_name b := b]> m) m l !! n = Some b ->
    (b ∈ l /\ backend_name b = n) \/ m !! n = Some b).
  { induction l as [|b' l IH]; intros m Hl; cbn in Hl; [by right|].
    destruct (IH _ Hl) as [[Hin He]|Hm]; [left; split; [by right|done]|].
    destruct (decide (backend_name b' = n)) as [<-|Hne].
    - rewrite lookup_insert_eq in Hm. injection Hm as <-. left. split; [by left|done].
    - rewrite lookup_insert_ne in Hm by done. by right. }
  intros Hl. destruct (Hg _ _ Hl) as [?|Hm]; [done|]. by rewrite lookup_empty in Hm.
Qed.

Lemma backends_by_name_Some c n : n ∈ backend_name <$> cfg_backends c -> is_Some (backends_by_name c !! n).
Proof.
  unfold backends_by_name.
  assert (Hg : forall l (m : gmap str CfgBackend), n ∈ backend_name <$> l \/ is_Some (m !! n) ->
    is_Some (foldl (fun m b => <[backend_name b := b]> m) m l !! n)).
  { induction l as [|b l IH]; intros m Hin; cbn.
    - destruct Hin as [Hin|]; [by apply not_elem_of_nil in Hin|done].
    - apply IH. cbn in Hin. rewrite elem_of_cons in Hin. destruct (decide (n = backend_name b)) as [->|Hne].
      + right. by rewrite lookup_insert_eq.
      + destruct Hin as [[Hin|Hin]|Hin]; [done|by left|right]. by rewrite lookup_insert_ne. }
  intros Hin. apply Hg. by left.
Qed.

(** ** Where an Ingress path's traffic goes *)

Abbreviation IngressPathRef := (KIngress * str * KPath)%type.

(** The paths of an Ingress of this controller's class, in order, each with its
    rule's host; none of an Ingress of another class. *)
Definition paths_of (ing : KIngress) : list IngressPathRef :=
  match ki_spec ing with
  | None => []
  | Some spec =>
    if ingress_of_class cfg spec then
      mjoin ((fun r => pair (ing, default (bs "*") (kr_host r)) <$> default [] (kr_http r)) <$> default [] (ki_rules spec))
    else []
  end.

Definition selected_paths (ings : list KIngress) : list IngressPathRef := mjoin (paths_of <$> ings).

Definition path_of (ings : list KIngress) (ing : KIngress) (host : str) (p : KPath) : Prop := (ing, host, p) ∈ selected_paths ings.

Lemma path_of_spec ings ing host p : path_of ings ing host p <->
  ing ∈ ings /\ exists spec r paths, ki_spec ing = Some spec /\ ingress_of_class cfg spec = true /\
    r ∈ default [] (ki_rules spec) /\ kr_http r = Some paths /\ p ∈ paths /\ host = default (bs "*") (kr_host r).
Proof.
  unfold path_of, selected_paths. rewrite list_elem_of_join. split.
  - intros (l & Hl & (ing' & -> & Hin)%list_elem_of_fmap). unfold paths_of in Hl.
    destruct (ki_spec ing') as [spec|] eqn:Es; [|by apply not_elem_of_nil in Hl].
    destruct (ingress_of_class cfg spec) eqn:Ec; [|by apply not_elem_of_nil in Hl].
    apply list_elem_of_join in Hl as (l & Hl & (r & -> & Hr)%list_elem_of_fmap).
    apply list_elem_of_fmap in Hl as (p' & [= -> -> ->] & Hp).
    destruct (kr_http r) as [paths|] eqn:Eh; [|by apply not_elem_of_nil in Hp]. split; [done|]. by exists spec, r, paths.
  - intros (Hin & spec & r & paths & Hs & Hc & Hr & Hh & Hp & ->). exists (paths_of ing).
    split; [|by apply list_elem_of_fmap; exists ing]. unfold paths_of. rewrite Hs, Hc. apply list_elem_of_join.
    eexists. split; [|apply list_elem_of_fmap; by exists r]. apply list_elem_of_fmap. exists p. by rewrite Hh.
Qed.

Lemma path_of_in ings ing host p : path_of ings ing host p -> ing ∈ ings.
Proof. intros Hp. by apply path_of_spec in Hp as [Hin _]. Qed.

Definition add_selected (acc : Acc) (x : IngressPathRef) : Acc := add_path env management_port cfg x.1.1 x.1.2 acc x.2.

Definition path_name (x : IngressPathRef) : str := backend_name_for (kp_backend x.2) (ki_name x.1.1).
Definition path_upstreams (x : IngressPathRef) : list Upstream := upstreams_of (kp_backend x.2) (Some (ingress_ns x.1.1)).
Definition path_site (x : IngressPathRef) : Site := ingress_site x.1.1 x.1.2 x.2.

(** Accumulators that differ at most in their TLS tables. *)
Definition same_routes acc acc' : Prop :=
  acc_backends acc = acc_backends acc' /\ acc_sites acc = acc_sites acc' /\ acc_names acc = acc_names acc'.

Lemma foldl_join {A B C} (f : A -> C -> A) (g : B -> list C) a (l : list B) :
  foldl f a (mjoin (g <$> l)) = foldl (fun a b => foldl f a (g b)) a l.
Proof. revert a. induction l as [|b l IH]; intros a; [done|]. cbn. by rewrite foldl_app, IH. Qed.

Lemma foldl_pair {A B C} (f : A -> B * C -> A) a b (l : list C) : foldl f a (pair b <$> l) = foldl (fun a c => f a (b, c)) a l.
Proof. revert a. induction l as [|c l IH]; intros a; [done|]. cbn. by rewrite IH. Qed.

Lemma add_ingress_paths acc ing : same_routes (step_ingress acc ing) (foldl add_selected acc (paths_of ing)).
Proof.
  unfold add_ingress, paths_of. destruct (ki_spec ing) as [spec|]; [|done].
  destruct (ingress_of_class cfg spec); [|done]. cbn [negb].
  replace (foldl add_selected acc _) with (foldl (add_rule env management_port cfg ing) acc (default [] (ki_rules spec))).
  - apply (foldl_inv (fun a => same_routes a _)); [done|]. intros a t Ha _. unfold add_ingress_tls.
    destruct (opt_filter _ _); [|done]. cbn zeta. by destruct (is_empty _).
  - rewrite foldl_join. generalize (default [] (ki_rules spec)). intros rules. revert acc.
    induction rules as [|r rules IH]; intros acc; [done|]. cbn. rewrite <- IH. f_equal. rewrite foldl_pair. unfold add_rule.
    by destruct (kr_http r).
Qed.

Lemma add_selected_same acc acc' l : same_routes acc acc' -> same_routes (foldl add_selected acc l) (foldl add_selected acc' l).
Proof.
  revert acc acc'. induction l as [|x l IH]; intros acc acc' (Hb & Hs & Hn); [done|]. cbn. apply IH.
  unfold add_selected, add_path, add_backend. rewrite Hn. case_bool_decide; unfold same_routes; cbn; by rewrite ?Hb, ?Hs, ?Hn.
Qed.

Lemma same_routes_trans acc1 acc2 acc3 : same_routes acc1 acc2 -> same_routes acc2 acc3 -> same_routes acc1 acc3.
Proof. unfold same_routes. intuition congruence. Qed.

(** The loop over the Ingresses visits the selected paths in order. *)
Lemma ingresses_paths ings acc : same_routes (foldl step_ingress acc ings) (foldl add_selected acc (selected_paths ings)).
Proof.
  revert acc. induction ings as [|ing ings IH]; intros acc; [done|]. cbn. unfold selected_paths. cbn. rewrite foldl_app.
  eapply same_routes_trans; [apply IH|]. apply add_selected_same, add_ingress_paths.
Qed.

Lemma selected_sites acc l : acc_sites (foldl add_selected acc l) = acc_sites acc ++ (path_site <$> l).
Proof.
  revert acc. induction l as [|x l IH]; intros acc; cbn; [by rewrite app_nil_r|]. rewrite IH.
  unfold add_selected, add_path, add_backend. by case_bool_decide; cbn; rewrite <- app_assoc.
Qed.

(** The Gateway API part only appends. *)
Definition extends acc0 acc : Prop := acc_backends acc0 ⊆ acc_backends acc /\ acc_sites acc0 ⊆ acc_sites acc.

Lemma extends_add name ups s acc : extends acc (add_site s (add_backend name ups acc)).
Proof. unfold add_backend. case_bool_decide; split; cbn; set_solver. Qed.

Lemma extends_trans acc1 acc2 acc3 : extends acc1 acc2 -> extends acc2 acc3 -> extends acc1 acc3.
Proof. intros [? ?] [? ?]. split; by etrans. Qed.

Lemma extends_inv acc0 : gateway_inv (fun _ _ => True) (extends acc0).
Proof.
  split; [done|]. intros r host ri mi m acc [bi b] _ Ha. unfold add_route_backend. destruct (is_service_backend_ref b); [|done].
  cbn [negb]. cbn zeta. destruct (path_from_match m) as [t path]. eapply extends_trans; [exact Ha|apply extends_add].
Qed.

Lemma extends_collect cl now ings :
  extends (foldl step_ingress acc_empty ings) (collect env management_port cfg cl now ings).1.1.1.
Proof.
  unfold collect. cbn zeta. destruct (cc_gateway_api_enabled cfg); [|done].
  pose proof (inv_reconcile_gateway_api _ _ cl now (foldl step_ingress acc_empty ings) (extends_inv _) ltac:(done) ltac:(done)) as Hg.
  by destruct (reconcile_gateway_api _ _ _ _ _ _) as [[[acc n] m] gs].
Qed.

Lemma unnamed_selected n acc l : n ∉ acc_names acc -> Forall (fun y => path_name y <> n) l ->
  n ∉ acc_names (foldl add_selected acc l).
Proof.
  revert acc. induction l as [|x l IH]; intros acc Hn Hl; [done|]. cbn. apply Forall_cons in Hl as [Hx Hl]. apply IH; [|done].
  unfold add_selected, add_path, add_backend. case_bool_decide; cbn; [done|]. unfold path_name in Hx. set_solver.
Qed.

(** The first path with a backend name creates the backend. *)
Lemma first_backend acc l1 x l2 : path_name x ∉ acc_names acc -> Forall (fun y => path_name y <> path_name x) l1 ->
  new_backend (path_name x) (path_upstreams x) ∈ acc_backends (foldl add_selected acc (l1 ++ x :: l2)).
Proof.
  intros Hn Hl. rewrite foldl_app. cbn. pose proof (unnamed_selected _ _ _ Hn Hl) as Hn'.
  set (acc1 := foldl add_selected acc l1) in *. apply (foldl_inv (fun a => _ ∈ acc_backends a)).
  - unfold add_selected, add_path, add_backend. fold (path_name x). rewrite bool_decide_eq_false_2 by done. cbn.
    apply elem_of_app. right. by left.
  - intros a y Ha _. by apply (extends_add _ _ _ a).
Qed.

Definition port_of (svc : KService) : Z := default 80%Z (svc_port svc).

(** Names as the API server admits them: a Service's and a namespace's are DNS
    labels, an Ingress's is a DNS subdomain; ports have 16 bits. *)
Definition backend_wf (b : KBackend) : bool :=
  match kb_service b with
  | Some svc => label (svc_name svc) && (0 <=? port_of svc)%Z && (port_of svc <? 65536)%Z
  | None => true
  end.
Definition path_wf (x : IngressPathRef) : bool :=
  subdomain (ki_name x.1.1) && label (ingress_ns x.1.1) && backend_wf (kp_backend x.2).
Definition route_backend_wf (r : KHTTPRoute) (b : HTTPBackendRef) : bool :=
  negb (is_service_backend_ref b) || label (br_name b) && label (default (route_ns r) (br_namespace b)).
Definition cluster_wf (cl : Cluster) (ings : list KIngress) : bool :=
  forallb path_wf (selected_paths ings)
  && forallb (fun r => forallb (fun rule => forallb (route_backend_wf r) (rr_backends rule)) (hr_rules r)) (default [] (cl_routes cl)).

Lemma cluster_wf_path cl ings x : cluster_wf cl ings = true -> x ∈ selected_paths ings ->
  subdomain (ki_name x.1.1) = true /\ label (ingress_ns x.1.1) = true /\ backend_wf (kp_backend x.2) = true.
Proof.
  unfold cluster_wf. rewrite andb_true_iff, forallb_forall. intros [Hw _] Hx. apply list_elem_of_In, Hw in Hx.
  unfold path_wf in Hx. rewrite !andb_true_iff in Hx. tauto.
Qed.

Lemma cluster_wf_route cl ings r b : cluster_wf cl ings = true -> r ∈ default [] (cl_routes cl) -> backend_of_route r b ->
  route_backend_wf r b = true.
Proof.
  unfold cluster_wf. rewrite andb_true_iff. intros [_ Hw] Hr (rule & Hrule & Hb). rewrite forallb_forall in Hw.
  apply list_elem_of_In, Hw in Hr. rewrite forallb_forall in Hr. apply list_elem_of_In, Hr in Hrule.
  rewrite forallb_forall in Hrule. by apply list_elem_of_In, Hrule in Hb.
Qed.

(** A backend name that ends in a colon and a number. *)
Definition with_port (n : str) : Prop := exists a d, n = a ++ ":"%byte :: show_N d.

Lemma service_name_port b n svc : backend_wf b = true -> kb_service b = Some svc ->
  backend_name_for b n = svc_name svc ++ "."%byte :: n ++ ":"%byte :: show_N (Z.to_N (port_of svc)).
Proof.
  unfold backend_wf, backend_name_for. intros Hw Hs. rewrite Hs in *. rewrite !andb_true_iff in Hw. destruct Hw as [[_ Hp] _].
  apply Z.leb_le in Hp. unfold port_of in *. unfold show_Z. by rewrite (proj2 (Z.ltb_ge _ _)) by lia.
Qed.

Lemma dotted_no_port x n : (":"%byte ∉ n) -> ~ with_port (x ++ "."%byte :: n).
Proof.
  intros Hn (a & d & He). assert (Hd : ":"%byte ∉ show_N d) by (by apply show_N_no).
  apply (f_equal (rsplit_once ":")) in He. rewrite rsplit_once_app in He by done.
  apply rsplit_once_Some in He as [He _]. destruct (rsplit_once ":" x) as [[x1 x2]|] eqn:Ex.
  - apply rsplit_once_Some in Ex as [-> Hx2]. rewrite <- app_assoc in He. cbn in He.
    apply (f_equal (rsplit_once ":")) in He. rewrite !rsplit_once_app in He.
    + injection He as _ He. assert (Hdot : "."%byte ∉ show_N d) by (by apply show_N_no). apply Hdot. rewrite <- He. set_solver.
    + done.
    + rewrite not_elem_of_app, not_elem_of_cons. by split_and!.
  - apply rsplit_once_None in Ex. assert (Hin : ":"%byte ∈ x ++ "."%byte :: n) by (rewrite He; set_solver).
    apply elem_of_app in Hin as [Hin|[Hin|Hin]%elem_of_cons]; done.
Qed.

Lemma no_service_name b n : kb_service b = None -> (":"%byte ∉ n) -> ~ with_port (backend_name_for b n).
Proof.
  intros Hs Hn. unfold backend_name_for. rewrite Hs. destruct (kb_resource b) as [res|].
  - rewrite app_assoc. by apply dotted_no_port.
  - apply (dotted_no_port "default" n Hn).
Qed.

Lemma subdomain_no_colon s : subdomain s = true -> ":"%byte ∉ s.
Proof. by apply forallb_not_elem. Qed.

(** The Service's upstream, in a namespace. *)
Definition service_addr (ns : str) (svc : KService) : str :=
  resolve_upstream_addr env management_port (svc_name svc) ns (Z.to_N (port_of svc)).

(** A path of an Ingress of that name with that Service and port. *)
Definition uses (name : str) (svc : KService) (x : IngressPathRef) : bool :=
  (ki_name x.1.1 =s name)
  && match kb_service (kp_backend x.2) with
     | Some s => (svc_name s =s svc_name svc) && (port_of s =? port_of svc)%Z
     | None => false
     end.

(** The first listed Ingress that has such a path. *)
Definition first_user (ings : list KIngress) (name : str) (svc : KService) : option KIngress :=
  (fun y => y.2.1.1) <$> list_find (fun x => uses name svc x = true) (selected_paths ings).

(** A Service's backend name stands for its users. *)
Lemma path_name_uses x y svc : path_wf x = true -> path_wf y = true -> kb_service (kp_backend x.2) = Some svc ->
  path_name y = path_name x <-> uses (ki_name x.1.1) svc y = true.
Proof.
  unfold path_wf, path_name, uses. rewrite !andb_true_iff. intros [[Hnx _] Hwx] [[Hny _] Hwy] Hs.
  rewrite (service_name_port _ _ _ Hwx Hs). destruct (kb_service (kp_backend y.2)) as [svc'|] eqn:Hs'.
  - rewrite (service_name_port _ _ _ Hwy Hs'), andb_true_iff, !str_eqb_eq, Z.eqb_eq. split.
    + intros He. unfold backend_wf in Hwx, Hwy. rewrite Hs in Hwx. rewrite Hs' in Hwy. rewrite !andb_true_iff in Hwx, Hwy.
      destruct Hwx as [[Hlx Hp] _], Hwy as [[Hly Hp'] _]. apply Z.leb_le in Hp, Hp'.
      assert (Hdx : "."%byte ∉ svc_name svc) by (by apply (forallb_not_elem label_byte)).
      assert (Hdy : "."%byte ∉ svc_name svc') by (by apply (forallb_not_elem label_byte)).
      apply (f_equal (split_once ".")) in He. rewrite !(proj2 (split_once_Some _ _ _ _)) in He by (by split; [reflexivity|]).
      injection He as -> He. apply (f_equal (rsplit_once ":")) in He. rewrite !rsplit_once_app in He by (by apply show_N_no).
      injection He as -> He. apply show_N_inj in He. split_and!; [done|done|lia].
    + intros (-> & -> & ->). done.
  - split; [|by intros [_ ?]]. intros He. exfalso.
    apply (no_service_name _ (ki_name y.1.1) Hs'); [by apply subdomain_no_colon|].
    rewrite He. exists (svc_name svc ++ "."%byte :: ki_name x.1.1), (Z.to_N (port_of svc)). by rewrite <- app_assoc.
Qed.

Lemma path_service_upstreams x svc : cc_default_backend_port cfg = 80 -> backend_wf (kp_backend x.2) = true ->
  kb_service (kp_backend x.2) = Some svc -> path_upstreams x = [mkUpstream (service_addr (ingress_ns x.1.1) svc) 1].
Proof.
  intros Hd Hw Hs. unfold path_upstreams, upstreams_from_backend, service_addr. rewrite Hs. cbn. do 3 f_equal.
  unfold backend_wf in Hw. rewrite Hs, !andb_true_iff, Z.leb_le, Z.ltb_lt in Hw. destruct Hw as [[_ ?] ?]. unfold port_of in *.
  destruct (svc_port svc) as [z|]; cbn in *; [|by rewrite Hd]. unfold i32_as_u16. by rewrite Z.mod_small.
Qed.

(** The backend a Service's path names: its Service in the namespace of the first
    Ingress that uses it under the same Ingress name. *)
Lemma ingress_backend cl ings ing host p svc :
  cluster_wf cl ings = true -> cc_default_backend_port cfg = 80 -> path_of ings ing host p -> kb_service (kp_backend p) = Some svc ->
  exists ing', first_user ings (ki_name ing) svc = Some ing' /\
    new_backend (path_name (ing, host, p)) [mkUpstream (service_addr (ingress_ns ing') svc) 1]
    ∈ acc_backends (foldl step_ingress acc_empty ings).
Proof.
  intros Hw Hd Hp Hs. set (x := (ing, host, p)).
  assert (Hwf : forall y, y ∈ selected_paths ings -> path_wf y = true).
  { intros y Hy. unfold path_wf. destruct (cluster_wf_path _ _ _ Hw Hy) as (-> & -> & ->). done. }
  assert (Huse : forall y, y ∈ selected_paths ings -> path_name y = path_name x <-> uses (ki_name ing) svc y = true).
  { intros y Hy. apply (path_name_uses x y svc); [by apply Hwf|by apply Hwf|done]. }
  unfold first_user. destruct (list_find _ _) as [[i y]|] eqn:Hf;
    [|exfalso; apply list_find_None in Hf; rewrite Forall_forall in Hf; apply (Hf x Hp); by apply Huse]. apply list_find_Some in Hf as (Hi & Hy & Hfirst). exists y.1.1. split; [done|].
  destruct (ingresses_paths ings acc_empty) as [-> _].
  rewrite <- (take_drop_middle _ _ _ Hi). pose proof (list_elem_of_lookup_2 _ _ _ Hi) as Hyin.
  assert (Hyn : path_name y = path_name x) by (by apply Huse).
  rewrite <- Hyn. pose proof Hy as Hu. unfold uses in Hu. rewrite andb_true_iff in Hu. destruct Hu as [_ Hu].
  destruct (kb_service (kp_backend y.2)) as [svc'|] eqn:Hs'; [|done]. rewrite andb_true_iff, str_eqb_eq, Z.eqb_eq in Hu.
  destruct Hu as [Hsn Hport]. replace (service_addr (ingress_ns y.1.1) svc) with (service_addr (ingress_ns y.1.1) svc')
    by (unfold service_addr; by rewrite Hsn, Hport).
  rewrite <- (path_service_upstreams y svc') by (done || by apply (cluster_wf_path _ _ _ Hw Hyin)).
  apply first_backend; [apply not_elem_of_empty|]. apply Forall_forall. intros z Hz Hzn.
  apply list_elem_of_lookup in Hz as [j Hj]. apply lookup_take_Some in Hj as [Hj Hji].
  apply (Hfirst j z Hj Hji). apply Huse; [by apply list_elem_of_lookup_2 in Hj|]. by rewrite Hzn.
Qed.

Lemma first_user_spec ings name svc ing' : first_user ings name svc = Some ing' ->
  ki_name ing' = name /\ exists host p, path_of ings ing' host p.
Proof.
  unfold first_user. intros ([i [[y host] p]] & Hf & ->)%fmap_Some. apply list_find_Some in Hf as (Hi & Hu & _).
  unfold uses in Hu. rewrite andb_true_iff, str_eqb_eq in Hu. split; [apply Hu|]. exists host, p.
  by apply list_elem_of_lookup_2 in Hi.
Qed.

Lemma backends_by_name_unique c b : NoDup (backend_name <$> cfg_backends c) -> b ∈ cfg_backends c ->
  backends_by_name c !! backend_name b = Some b.
Proof.
  intros Hn Hb. destruct (backends_by_name_Some c (backend_name b)) as [b' Hb']; [by apply list_elem_of_fmap_2|].
  rewrite Hb'. f_equal. apply backends_by_name_elem in Hb' as [Hin He].
  apply list_elem_of_lookup in Hb as [i Hi], Hin as [j Hj].
  assert (i = j) as <-; [|congruence].
  eapply (NoDup_lookup _ _ _ (backend_name b)); [exact Hn|by rewrite list_lookup_fmap, Hi|].
  rewrite list_lookup_fmap, Hj. cbn. by rewrite He.
Qed.

(** ** When a pass is applied *)

Section apply.
Variable to_lowercase : str -> str.
Variable url_parse : str -> option Url.

(** A collected backend has one upstream, which parses, or, when it stands for no
    Service, none; a site without a port in its backend's name comes from a path
    without a Service. *)
Definition backend_sound (b : CfgBackend) : Prop :=
  (with_port (backend_name b) /\ exists u, upstreams b = [u] /\ is_Some (parse_upstream url_parse (up_addr u))) \/
  (~ with_port (backend_name b) /\ upstreams b = []).
Definition site_sound (ings : list KIngress) (s : Site) : Prop :=
  with_port (site_backend s) \/
  exists ing host p, path_of ings ing host p /\ s = ingress_site ing host p /\ kb_service (kp_backend p) = None.
Definition acc_sound (ings : list KIngress) acc : Prop :=
  Forall backend_sound (acc_backends acc) /\ Forall (site_sound ings) (acc_sites acc).

Lemma sound_add ings name ups s acc : acc_sound ings acc -> backend_sound (new_backend name ups) -> site_sound ings s ->
  acc_sound ings (add_site s (add_backend name ups acc)).
Proof.
  intros [Hb Hs] Hn Hs'. assert (Forall (site_sound ings) (acc_sites acc ++ [s])) by (apply Forall_app; by rewrite Forall_singleton).
  unfold acc_sound, add_backend. case_bool_decide; [done|]. cbn. split; [|done]. apply Forall_app. by rewrite Forall_singleton.
Qed.

Lemma sound_ingresses cl ings : cluster_wf cl ings = true -> cc_default_backend_port cfg = 80 ->
  acc_sound ings (foldl step_ingress acc_empty ings).
Proof.
  intros Hw Hd. destruct (ingresses_paths ings acc_empty) as (Hb & Hs & _). unfold acc_sound. rewrite Hb, Hs.
  fold (acc_sound ings (foldl add_selected acc_empty (selected_paths ings))).
  apply foldl_inv; [by split; constructor|]. intros acc x Ha Hx. destruct (cluster_wf_path _ _ _ Hw Hx) as (Hn & Hns & Hwb).
  unfold add_selected, add_path. fold (path_name x). fold (path_upstreams x). apply sound_add; [done|..].
  - unfold backend_sound. cbn. destruct (kb_service (kp_backend x.2)) as [svc|] eqn:Es; [left|right].
    + split.
      * unfold path_name. rewrite (service_name_port _ _ _ Hwb Es).
        exists (svc_name svc ++ "."%byte :: ki_name x.1.1), (Z.to_N (port_of svc)). by rewrite <- app_assoc.
      * rewrite (path_service_upstreams _ _ Hd Hwb Es). eexists. split; [done|]. cbn. unfold service_addr.
        unfold backend_wf in Hwb. rewrite Es, !andb_true_iff, Z.leb_le, Z.ltb_lt in Hwb. destruct Hwb as [[Hl ?] ?].
        rewrite resolved_address by (done || unfold u16_max; lia). by eexists.
    + split; [|unfold path_upstreams, upstreams_from_backend; by rewrite Es].
      apply no_service_name; [done|by apply subdomain_no_colon].
  - destruct x as [[ing host] p]. destruct (kb_service (kp_backend p)) as [svc|] eqn:Es; [left|right; by exists ing, host, p].
    unfold ingress_site. rewrite k8s_site_backend. cbn in Hwb. rewrite (service_name_port _ _ _ Hwb Es).
    exists (svc_name svc ++ "."%byte :: ki_name ing), (Z.to_N (port_of svc)). by rewrite <- app_assoc.
Qed.

Lemma sound_gateway ings : cc_default_backend_port cfg = 80 -> gateway_inv (fun r b => route_backend_wf r b = true) (acc_sound ings).
Proof.
  intros Hd. split; [done|]. intros r host ri mi m acc [bi b] Hw Ha. unfold add_route_backend. cbn in Hw. unfold route_backend_wf in Hw.
  destruct (is_service_backend_ref b); [|done]. cbn in Hw. rewrite andb_true_iff in Hw. destruct Hw as [Hl Hns].
  cbn [negb]. cbn zeta. destruct (path_from_match m) as [t path].
  assert (Hp : with_port (gateway_backend_name b (hr_name r) ri mi bi)).
  { unfold gateway_backend_name. do 2 eexists. rewrite !app_assoc. rewrite <- (app_assoc _ (bs ":")). reflexivity. }
  apply sound_add; [done| |left; by rewrite k8s_site_backend]. left. split; [done|]. cbn. eexists. split; [done|]. cbn [up_addr].
  rewrite resolved_address; [by eexists|done|by destruct (br_namespace b)|].
  unfold u16_max. destruct (br_port b) as [z|]; cbn; [|by rewrite Hd]. unfold i32_as_u16. pose proof (Z.mod_pos_bound z 65536). lia.
Qed.

Lemma sound_collect cl now ings : cluster_wf cl ings = true -> cc_default_backend_port cfg = 80 ->
  acc_sound ings (collect env management_port cfg cl now ings).1.1.1.
Proof.
  intros Hw Hd. pose proof (sound_ingresses cl ings Hw Hd) as Hi. unfold collect. cbn zeta.
  destruct (cc_gateway_api_enabled cfg); [|done].
  pose proof (inv_reconcile_gateway_api _ _ cl now _ (sound_gateway ings Hd)
    (fun r b => cluster_wf_route cl ings r b Hw) Hi) as Hg.
  by destruct (reconcile_gateway_api _ _ _ _ _ _) as [[[acc n] m] gs].
Qed.

(** The routes of a plain site. *)
Lemma plain_site_routes c s host b :
  plain_site s -> backends_by_name c !! site_backend s = Some b ->
  site_table_routes url_parse c s host =
  match head (upstreams b) with
  | None => Err (NoUpstreams (site_backend s))
  | Some u =>
    match parse_upstream url_parse (up_addr u) with
    | None => Err (InvalidUpstream (up_addr u) (site_backend s))
    | Some target => build_routes url_parse c s host target (site_routes s)
    end
  end.
Proof.
  intros (t & path & Hr) Hb. unfold site_table_routes. rewrite Hb. cbn [ok_or mbind result_bind].
  destruct (head (upstreams b)) as [u|]; [|done]. cbn. destruct (parse_upstream _ _) as [target|]; [|done]. cbn.
  by rewrite Hr.
Qed.

(** The controller's configuration has no dangling reference.  Whatever the
    cluster holds, the collected backends have distinct names and every site
    names one of them; so when the configuration cannot be applied to the router,
    the reason is an upstream of the backend of a site with a host: none at all, or
    one whose address does not parse. *)
Theorem reconcile_closed cl now ings tls previous :
  let acc := (collect env management_port cfg cl now ings).1.1.1 in
  acc_closed acc /\
  forall e, config_to_route_table to_lowercase url_parse (pass_config acc tls previous) = Err e ->
  exists s b, s ∈ acc_sites acc /\ b ∈ acc_backends acc /\ backend_name b = site_backend s /\ site_key to_lowercase s <> [] /\
    ((upstreams b = [] /\ e = NoUpstreams (site_backend s)) \/
     exists u rest, upstreams b = u :: rest /\ parse_upstream url_parse (up_addr u) = None /\
       e = InvalidUpstream (up_addr u) (site_backend s)).
Proof.
  intros acc. pose proof (closed_collect cl now ings) as Hc. fold acc in Hc. split; [done|]. intros e He.
  unfold config_to_route_table in He.
  destruct (sites_by_host to_lowercase url_parse (pass_config acc tls previous) ∅ _) as [m|e'] eqn:Em; [done|].
  injection He as <-. apply sites_by_host_error in Em as (s & Hs & Hk & Er). exists s.
  destruct Hc as [_ _ Hsites Hplain]. rewrite Forall_forall in Hsites, Hplain.
  destruct (backends_by_name_Some (pass_config acc tls previous) (site_backend s)) as [b Hb]; [by apply Hsites|].
  pose proof (backends_by_name_elem _ _ _ Hb) as [Hin Hname]. exists b. split_and!; [done|done|done|done|].
  destruct (Hplain _ Hs) as (t & path & Hr).
  rewrite (plain_site_routes _ _ _ b) in Er by (done || by exists t, path).
  destruct (upstreams b) as [|u rest]; cbn in Er; [left; by simplify_eq|].
  destruct (parse_upstream url_parse (up_addr u)) as [target|] eqn:Ep; [|right; exists u, rest; by simplify_eq].
  rewrite Hr in Er. done.
Qed.

Definition host_key (host : str) : str := to_lowercase (trim host).

(** Every selected path under a host that is not blank has a Service. *)
Definition all_served (ings : list KIngress) : bool :=
  forallb (fun x => is_empty (host_key x.1.2) || is_some (kb_service (kp_backend x.2))) (selected_paths ings).

Lemma ingress_site_key ing host p : site_key to_lowercase (ingress_site ing host p) = host_key host.
Proof. unfold site_key, ingress_site, k8s_site. by destruct (policy_ids_from_annotations _). Qed.

Lemma path_of_site cl now ings ing host p : path_of ings ing host p ->
  ingress_site ing host p ∈ acc_sites (collect env management_port cfg cl now ings).1.1.1.
Proof.
  intros Hp. apply (extends_collect cl now ings). destruct (ingresses_paths ings acc_empty) as (_ & -> & _).
  rewrite selected_sites. apply elem_of_app. right. apply list_elem_of_fmap. by exists (ing, host, p).
Qed.

Lemma forallb_false {A} (f : A -> bool) l : forallb f l = false -> exists x, x ∈ l /\ f x = false.
Proof.
  induction l as [|x l IH]; [done|]. cbn. intros [Hx|Hl]%andb_false_iff; [exists x; split; [by left|done]|].
  destruct (IH Hl) as (y & Hy & Hf). exists y. split; [by right|done].
Qed.

(** The table can be built exactly when every such path has a Service. *)
Lemma pass_table cl now ings tls previous : cluster_wf cl ings = true -> cc_default_backend_port cfg = 80 ->
  let c := pass_config (collect env management_port cfg cl now ings).1.1.1 tls previous in
  is_ok (config_to_route_table to_lowercase url_parse c) = all_served ings.
Proof.
  intros Hw Hd c. destruct (reconcile_closed cl now ings tls previous) as [Hc Herr]. fold c in Herr.
  destruct (sound_collect cl now ings Hw Hd) as [Hsb Hss]. rewrite Forall_forall in Hsb. rewrite Forall_forall in Hss.
  destruct (all_served ings) eqn:Ea.
  - destruct (config_to_route_table to_lowercase url_parse c) as [t|e]; [done|]. exfalso.
    destruct (Herr e eq_refl) as (s & b & Hs & Hb & Hn & Hk & He). unfold all_served in Ea. rewrite forallb_forall in Ea.
    destruct (Hss s Hs) as [Hport|(ing & host & p & Hp & -> & Hnone)].
    + rewrite <- Hn in Hport. destruct (Hsb b Hb) as [[_ (u & Hu & Hsome)]|[? _]]; [|done]. rewrite Hu in He.
      destruct He as [[He _]|(u' & rest & [= <- _] & Hnone & _)]; [done|]. rewrite Hnone in Hsome. by destruct Hsome.
    + rewrite ingress_site_key in Hk. apply list_elem_of_In, Ea in Hp. cbn in Hp. rewrite Hnone in Hp.
      by destruct (host_key host).
  - destruct (config_to_route_table to_lowercase url_parse c) as [t|e] eqn:Et; [|done]. exfalso.
    apply forallb_false in Ea as ([[ing host] p] & Hin & Hf). cbn in Hf. apply orb_false_iff in Hf as [Hk Hnone].
    apply is_empty_false in Hk. destruct (kb_service (kp_backend p)) eqn:Es; [done|].
    pose proof (path_of_site cl now ings ing host p Hin) as Hs.
    destruct (config_sites_ok _ _ _ _ (ingress_site ing host p) Et) as [rs Ers]; [done|by rewrite ingress_site_key|].
    destruct Hc as [Hnd _ Hsites _]. rewrite Forall_forall in Hsites.
    destruct (backends_by_name_Some c (site_backend (ingress_site ing host p))) as [b Hb]; [by apply Hsites|].
    rewrite (plain_site_routes _ _ _ b) in Ers by (done || apply k8s_site_plain).
    apply backends_by_name_elem in Hb as [Hbin Hbn]. destruct (cluster_wf_path _ _ _ Hw Hin) as (Hcol & _ & _).
    destruct (Hsb b Hbin) as [[Hport _]|[_ Hnil]]; [|by rewrite Hnil in Ers].
    rewrite Hbn in Hport. unfold ingress_site in Hport. rewrite k8s_site_backend in Hport.
    by apply no_service_name in Hport; [|done|apply subdomain_no_colon].
Qed.

(** The route an Ingress path becomes: no rewriting, to the Service's address in a namespace. *)
Definition routes_to (ns : str) (p : KPath) (svc : KService) (r : Route) : Prop :=
  route_path r = default (bs "/") (kp_path p) /\ path_type r = router_path_type (ingress_path_type (kp_type p)) /\
  middlewares r = [] /\ route_backend r = mkBackend (service_addr ns svc) (Z.to_N (port_of svc)) false.

Lemma ingress_table_routes cl now ings tls previous ing host p svc rs k :
  cluster_wf cl ings = true -> cc_default_backend_port cfg = 80 -> path_of ings ing host p -> kb_service (kp_backend p) = Some svc ->
  let c := pass_config (collect env management_port cfg cl now ings).1.1.1 tls previous in
  site_table_routes url_parse c (ingress_site ing host p) k = Ok rs ->
  exists ing' r, first_user ings (ki_name ing) svc = Some ing' /\ rs = [r] /\ routes_to (ingress_ns ing') p svc r.
Proof.
  intros Hw Hd Hp Hs c Hrs. destruct (ingress_backend cl ings ing host p svc Hw Hd Hp Hs) as (ing' & Hu & Hin).
  apply (proj1 (extends_collect cl now ings)) in Hin.
  pose proof (backends_by_name_unique c _ (closed_nodup _ (closed_collect cl now ings)) Hin) as Hl.
  cbn [backend_name new_backend] in Hl. exists ing'.
  unfold ingress_site in Hrs. erewrite plain_site_routes in Hrs; [|apply k8s_site_plain|rewrite k8s_site_backend; exact Hl].
  destruct (first_user_spec _ _ _ _ Hu) as (_ & host' & p' & Hp'). destruct (cluster_wf_path _ _ _ Hw Hp') as (_ & Hns & _).
  destruct (cluster_wf_path _ _ _ Hw Hp) as (_ & _ & Hwb). cbn in Hns, Hwb. unfold backend_wf in Hwb.
  rewrite Hs, !andb_true_iff, Z.leb_le, Z.ltb_lt in Hwb. destruct Hwb as [[Hlab ?] ?].
  cbn [head upstreams up_addr new_backend] in Hrs. unfold service_addr in Hrs.
  rewrite resolved_address in Hrs by (done || unfold u16_max; lia).
  unfold k8s_site in Hrs. destruct (policy_ids_from_annotations _) as [acl waf]. cbn in Hrs. injection Hrs as <-.
  eexists. split; [done|]. by split.
Qed.

(** What a pass that lists the Ingresses does to router and configuration. *)
Definition pass_outcome (ings : list KIngress) (st st' : CtlState) : Prop :=
  if all_served ings then
    config_to_route_table to_lowercase url_parse (ct_config st') = Ok (table (ct_router st')) /\
    forall ing host p svc, path_of ings ing host p -> kb_service (kp_backend p) = Some svc -> host_key host <> [] ->
      exists ing' rs r, first_user ings (ki_name ing) svc = Some ing' /\
        routes (table (ct_router st')) !! host_key host = Some rs /\ r ∈ rs /\ routes_to (ingress_ns ing') p svc r
  else ct_router st' = ct_router st /\ ct_config st' = ct_config st.

Lemma reconcile_routes iter_secrets io cl now instant min st ings :
  cl_ingresses cl = Some ings -> cluster_wf cl ings = true -> cc_default_backend_port cfg = 80 ->
  let res := reconcile env management_port cfg to_lowercase url_parse iter_secrets io cl now instant min st in
  res.1.1 = true /\ pass_outcome ings st res.1.2.
Proof.
  intros Hl Hw Hd. unfold reconcile. rewrite Hl.
  destruct (collect env management_port cfg cl now ings) as [[[acc n] m] patches] eqn:Ec. cbn zeta.
  set (l := foldl (load_secret io cl) _ _). destruct (retire _ _ _) as [certs last]. unfold apply_config.
  pose proof (pass_table cl now ings (ld_tls l) (ct_config st) Hw Hd) as Ht. rewrite Ec in Ht. cbn [fst] in Ht.
  set (c := pass_config acc (ld_tls l) (ct_config st)) in *. unfold pass_outcome. rewrite <- Ht. clear Ht.
  destruct (config_to_route_table to_lowercase url_parse c) as [t|e] eqn:Et; (split; [done|]); [|done].
  split; [exact Et|]. intros ing host p svc Hp Hs Hk.
  pose proof (path_of_site cl now ings ing host p Hp) as Hin. rewrite Ec in Hin. cbn in Hin.
  pose proof (config_routes_spec _ _ _ _ Et) as Hspec. pose proof (ingress_site_key ing host p) as Hkey.
  destruct (config_sites_ok _ _ _ _ (ingress_site ing host p) Et) as [rs Ers]; [done|by rewrite Hkey|]. rewrite Hkey in Ers.
  pose proof (ingress_table_routes cl now ings (ld_tls l) (ct_config st) ing host p svc rs (host_key host) Hw Hd Hp Hs) as Hr.
  rewrite Ec in Hr. destruct (Hr Ers) as (ing' & r & Hu & -> & Hto). exists ing'.
  destruct (proj2 (Hspec (host_key host) r)) as (rs' & Hrs' & Hr').
  { exists (ingress_site ing host p), [r]. split_and!; try done. by left. }
  by exists rs', r.
Qed.

(** C2: From Ingress objects to routes.  Let the Ingresses be listed and the names in
    the cluster be as the API server admits them (Services and namespaces DNS labels,
    Ingresses DNS subdomains, ports of 16 bits).  When every path of a selected Ingress
    under a host has a Service, the reconciliation replaces the configuration and
    installs its table, in which every such path has, under its host, a route with its
    path and match type that rewrites nothing and leads to that Service on its port, in
    the namespace of the first listed Ingress of that name that uses the Service on that
    port.  When some path has no Service, router and configuration stay as they were.
    All of it whatever else the cluster holds and however the secrets and patches go. *)
Theorem reconcile_routes_ingresses iter_secrets io cl now instant min st ings :
  cl_ingresses cl = Some ings -> cluster_wf cl ings = true -> cc_default_backend_port cfg = 80 ->
  let res := reconcile env management_port cfg to_lowercase url_parse iter_secrets io cl now instant min st in
  res.1.1 = true /\
  if all_served ings then
    config_to_route_table to_lowercase url_parse (ct_config res.1.2) = Ok (table (ct_router res.1.2)) /\
    forall ing host p svc, path_of ings ing host p -> kb_service (kp_backend p) = Some svc -> host_key host <> [] ->
      exists ing' rs r, first_user ings (ki_name ing) svc = Some ing' /\
        routes (table (ct_router res.1.2)) !! host_key host = Some rs /\ r ∈ rs /\ routes_to (ingress_ns ing') p svc r
  else ct_router res.1.2 = ct_router st /\ ct_config res.1.2 = ct_config st.
Proof. apply reconcile_routes. Qed.

End apply.

End props.

(** ** Certificates of a pass *)

Section certs.
Variable io : CertIo.
Variable cl : Cluster.

(** What loading one secret installs: its hosts and its certificate. *)
Definition loaded_of (e : (str * str) * list str) : option (list str * StoredCert) :=
  '(cert, key) ← cl_secret cl e.1.1 e.1.2 ≫= secret_pair;
  if pem_pair_ok io cert key && pem_names_readable io cert
  then Some (merge_hosts e.2 (cl_cert_hosts cl cert), CertPem cert key) else None.

(** The name the store keeps a host under: trimmed, lower case, without port. *)
Definition stored_name (h : str) : str := normalize_host (trim h).
(** The names a list of hosts stands for; blank ones are left out. *)
Definition stored_names (hosts : list str) : list str := stored_name <$> filter (fun h => negb (is_empty (trim h)) = true) hosts.

(** The certificate of the last of the loaded secrets that lists the name. *)
Fixpoint last_for (k : str) (loaded : list (list str * StoredCert)) : option StoredCert :=
  match loaded with
  | [] => None
  | (hosts, c) :: rest =>
    match last_for k rest with
    | Some c' => Some c'
    | None => if bool_decide (k ∈ stored_names hosts) then Some c else None
    end
  end.

Lemma insert_hosts_lookup c hosts m k :
  foldl (insert_host c) m hosts !! k = if bool_decide (k ∈ stored_names hosts) then Some c else m !! k.
Proof.
  unfold stored_names. revert m. induction hosts as [|h hosts IH]; intros m; [done|]. cbn [foldl]. rewrite IH, filter_cons.
  unfold insert_host. destruct (is_empty (trim h)); cbn [negb]; [by rewrite decide_False|]. rewrite decide_True by done.
  cbn [fmap list_fmap]. fold (stored_name h). destruct (decide (k = stored_name h)) as [->|Hk].
  - rewrite (bool_decide_eq_true_2 (stored_name h ∈ stored_name h :: _)) by left. rewrite lookup_insert_eq. by case_bool_decide.
  - rewrite lookup_insert_ne by done. rewrite (bool_decide_ext (k ∈ stored_name h :: _) (k ∈ stored_name <$> filter (fun h => negb (is_empty (trim h)) = true) hosts));
      [done|rewrite elem_of_cons; tauto].
Qed.

Lemma delete_hosts_lookup (hosts : list str) (m : gmap str StoredCert) k :
  foldl (fun m host => delete (normalize_host (trim host)) m) m hosts !! k =
  if bool_decide (k ∈ stored_name <$> hosts) then None else m !! k.
Proof.
  revert m. induction hosts as [|h hosts IH]; intros m; [done|]. cbn [foldl fmap list_fmap]. rewrite IH. fold (stored_name h).
  destruct (decide (k = stored_name h)) as [->|Hk].
  - rewrite (bool_decide_eq_true_2 (stored_name h ∈ stored_name h :: _)) by left. rewrite lookup_delete_eq. by case_bool_decide.
  - rewrite lookup_delete_ne by done. rewrite (bool_decide_ext (k ∈ stored_name h :: _) (k ∈ stored_name <$> hosts)); [done|rewrite elem_of_cons; tauto].
Qed.

(** One secret's effect on the hosts and the store. *)
Lemma load_secret_effect l e :
  match loaded_of e with
  | Some (hosts, c) =>
    ld_hosts (load_secret io cl l e) = ld_hosts l ++ hosts /\
    ld_certs (load_secret io cl l e) = insert_stored_for_hosts hosts c (ld_certs l)
  | None => ld_hosts (load_secret io cl l e) = ld_hosts l /\ ld_certs (load_secret io cl l e) = ld_certs l
  end.
Proof.
  unfold loaded_of, load_secret, insert_pem_in_memory_for_hosts.
  destruct (cl_secret cl e.1.1 e.1.2 ≫= secret_pair) as [[cert key]|]; cbn; [|done].
  by destruct (pem_pair_ok io cert key), (pem_names_readable io cert).
Qed.

Lemma load_secrets_hosts l es :
  ld_hosts (foldl (load_secret io cl) l es) = ld_hosts l ++ mjoin (fst <$> omap loaded_of es).
Proof.
  revert l. induction es as [|e es IH]; intros l; cbn; [by rewrite app_nil_r|]. rewrite IH.
  pose proof (load_secret_effect l e) as He. destruct (loaded_of e) as [[hosts c]|]; destruct He as [-> _]; [|done].
  cbn. by rewrite <- app_assoc.
Qed.

Lemma load_secrets_certs l es k :
  by_host (ld_certs (foldl (load_secret io cl) l es)) !! k =
  match last_for k (omap loaded_of es) with Some c => Some c | None => by_host (ld_certs l) !! k end.
Proof.
  revert l. induction es as [|e es IH]; intros l; cbn in *; [done|].
  pose proof (load_secret_effect l e) as He. destruct (loaded_of e) as [[hosts c]|]; destruct He as [_ He].
  - rewrite IH. cbn. destruct (last_for k _); [done|]. rewrite He. cbn. rewrite insert_hosts_lookup. by case_bool_decide.
  - by rewrite IH, He.
Qed.

Lemma last_for_empty k loaded : mjoin (fst <$> loaded) = [] -> last_for k loaded = None.
Proof.
  induction loaded as [|[hosts c] loaded IH]; [done|]. cbn. intros [-> Hl]%app_eq_nil. by rewrite (IH Hl).
Qed.

(** C10: What a pass makes of the certificate store, whatever hosts its secrets list.  If
    no secret loads a host, store and remembered hosts stay as they are.  Otherwise the
    hosts of this pass are remembered, and the entry of a name is: none, if the previous
    pass listed a spelling of the name that this one does not list - also when this pass
    installed a certificate under another spelling of it; else the certificate of the last
    secret that lists the name, in any spelling; else what it was. *)
Theorem pass_certificates secrets previous st :
  let l := foldl (load_secret io cl) (mkLoaded [] [] st) secrets in
  let loaded := omap loaded_of secrets in
  let hosts : list str := mjoin (fst <$> loaded) in
  let after := retire previous (ld_hosts l) (ld_certs l) in
  ld_hosts l = hosts /\
  (if is_empty hosts then by_host after.1 = by_host st /\ after.2 = previous
  else
    after.2 = hosts /\
    forall k, by_host after.1 !! k =
      if bool_decide (k ∈ stored_name <$> filter (fun h => h ∉ hosts) previous) then None
      else match last_for k loaded with Some c => Some c | None => by_host st !! k end).
Proof.
  intros l loaded hosts after. pose proof (load_secrets_hosts (mkLoaded [] [] st) secrets) as Hh.
  pose proof (load_secrets_certs (mkLoaded [] [] st) secrets) as Hc.
  fold l loaded hosts in Hh, Hc. cbn in Hh, Hc. subst after. rewrite Hh. split; [done|]. unfold retire.
  destruct (is_empty hosts) eqn:He.
  - split; [|done]. cbn. apply map_eq. intros k. rewrite Hc, last_for_empty; [done|]. fold hosts. by destruct hosts.
  - cbn [fst snd]. split; [done|]. intros k. set (obs := filter (fun h => h ∉ hosts) previous).
    rewrite <- Hc. destruct obs as [|o obs']; [done|]. cbn [is_empty]. unfold remove_for_hosts. cbn [by_host]. apply delete_hosts_lookup.
Qed.

End certs.

(** ** Statuses *)

Section status.
Variable cfg : IngressControllerConfig.
Variable secret : str -> str -> option KSecret.

Definition with_status (gw : KGateway) (st : GatewayStatus) : KGateway :=
  mkKGateway (gw_namespace gw) (gw_name gw) (gw_generation gw) (gw_class gw) (gw_listeners gw) (Some st).

Definition http_listeners (gw : KGateway) : list GatewayListener :=
  filter (fun l => is_http_listener_protocol (gl_protocol l) = true) (gw_listeners gw).

Definition status_word (ok : bool) : str := if ok then bs "True" else bs "False".

Lemma has_condition_programmed want r1 m1 r2 m2 now acc pr generation :
  has_condition "Programmed" (status_word want) generation
    [gateway_condition "Accepted" acc r1 m1 now generation; gateway_condition "Programmed" pr r2 m2 now generation]
  = Bool.eqb want pr.
Proof.
  unfold has_condition, gateway_condition. cbn [existsb condition_type cond_status observed_generation default].
  rewrite Z.leb_refl, !andb_true_r. by destruct want, acc, pr.
Qed.

Lemma listeners_agree {A} (f : A -> bool) l : l <> [] ->
  forallb (fun x => Bool.eqb (forallb f l) (f x)) l = true <-> forall x y, x ∈ l -> y ∈ l -> f x = f y.
Proof.
  intros Hne. rewrite forallb_forall. setoid_rewrite <- list_elem_of_In. split.
  - intros Ha x y Hx Hy. apply Ha, eqb_prop in Hx, Hy. congruence.
  - intros Ha x Hx. apply eqb_true_iff. destruct (forallb f l) eqn:Ef.
    + rewrite forallb_forall in Ef. symmetry. by apply Ef, list_elem_of_In.
    + destruct (f x) eqn:Ex; [|done]. rewrite <- Ef. apply forallb_forall. intros y Hy%list_elem_of_In.
      by rewrite (Ha y x).
Qed.

(** A stored patch is up to date when every listener is as the Gateway is. *)
Lemma patched_up_to_date addresses routes now gw ls a r1 m1 programmed r2 m2 :
  let generation := default 0%Z (gw_generation gw) in
  ls <> [] ->
  gateway_status_up_to_date
    (Some (mkGatewayStatus addresses (listener_status secret routes now gw <$> ls)
      [gateway_condition "Accepted" a r1 m1 now generation; gateway_condition "Programmed" programmed r2 m2 now generation]))
    generation programmed
  = forallb (fun l => Bool.eqb programmed (listener_programmed secret routes gw l)) ls.
Proof.
  intros generation Hne. unfold gateway_status_up_to_date. cbn [gst_conditions gst_listeners]. cbn zeta.
  fold (status_word programmed). rewrite has_condition_programmed, eqb_reflx. cbn [andb].
  assert (is_empty (listener_status secret routes now gw <$> ls) = false) as -> by (by destruct ls). cbn [negb andb]. clear Hne.
  induction ls as [|l ls IH]; [done|]. cbn [fmap list_fmap forallb]. f_equal; [|exact IH].
  unfold listener_status. cbn [ls_conditions]. apply has_condition_programmed.
Qed.

(** C11: A Gateway's status settles after one patch - exactly when its HTTP
    listeners agree.  Once the patch of a pass is stored, the next pass over the
    same objects sends none if all the listeners are programmed or none is; if
    some are and some are not, every pass patches again, for ever. *)
Theorem gateway_status_settles addresses addresses' routes now now' gw st :
  gateway_patch cfg secret addresses routes now gw = Some st ->
  gateway_patch cfg secret addresses' routes now' (with_status gw st) = None <->
  forall l l', l ∈ http_listeners gw -> l' ∈ http_listeners gw ->
    listener_programmed secret routes gw l = listener_programmed secret routes gw l'.
Proof.
  unfold gateway_patch. change (status_of_class cfg (with_status gw st)) with (status_of_class cfg gw).
  destruct (status_of_class cfg gw); [|done]. cbn [negb]. cbn [gw_listeners with_status gw_generation gw_status].
  fold (http_listeners gw). change (gateway_ns (with_status gw st)) with (gateway_ns gw).
  change (listener_programmed secret routes (with_status gw st)) with (listener_programmed secret routes gw).
  destruct (is_empty (http_listeners gw)) eqn:Ee; [done|].
  destruct (gateway_status_up_to_date (gw_status gw) _ _); [done|]. intros [= <-].
  assert (Hne : http_listeners gw <> []) by (by intros E; rewrite E in Ee).
  rewrite <- (listeners_agree _ _ Hne). set (programmed := forallb (listener_programmed secret routes gw) (http_listeners gw)).
  rewrite patched_up_to_date by done. fold programmed.
  by destruct (forallb (fun l => Bool.eqb programmed (listener_programmed secret routes gw l)) (http_listeners gw)).
Qed.

End status.

(** ** Concrete clusters *)

Definition no_env : str -> option str := fun _ => None.
Definition ctl_cfg : IngressControllerConfig := load_controller_config no_env.

(** An Ingress with one rule, one path and one Service. *)
Definition one_ingress (ns name host service : str) (port : Z) : KIngress :=
  mkKIngress (Some ns) name None (Some (mkKIngressSpec (Some (bs "pertisk"))
    (Some [mkKRule (Some host) (Some [mkKPath (Some (bs "/")) "Prefix" (mkKBackend (Some (mkKService service (Some port) None)) None)])])
    None)).

Definition shop : KIngress := one_ingress "shop" "shop" "shop.example" "web" 8080.
Definition blog : KIngress := one_ingress "blog" "blog" "blog.example" "web" 8080.

Definition tls_secret : KSecret :=
  mkKSecret (Some (bs "kubernetes.io/tls")) (Some {[bs "tls.crt" := bs "CERT"; bs "tls.key" := bs "KEY"]}).

(** Secrets [a] (when [readable]) and [b] can be read; the rest of the API is empty. *)
Definition cluster (readable : bool) (ings : list KIngress) : Cluster :=
  mkCluster (Some ings) (Some []) (Some []) (Some [])
    (fun _ name => if (name =s "b") || (readable && (name =s "a")) then Some tls_secret else None)
    (fun _ _ => None) (fun _ _ => true) (fun _ _ => true) (fun _ => []) (fun _ => None).

Definition io_ok : CertIo := mkCertIo (fun _ _ => true) (fun _ => true) (fun _ _ => true) (fun _ => true) (fun _ => true).

Definition iter_s (m : gmap (str * str) (list str)) : list ((str * str) * list str) := map_to_list m.

Definition ctl_state : CtlState := mkCtlState router_new config_default store_new [] (log_new 10).

(** One pass over the two Ingresses. *)
Definition sample_pass : bool * CtlState * Patches :=
  reconcile no_env 9090 ctl_cfg to_ascii_lowercase no_url iter_s io_ok (cluster true [shop; blog]) "now" 0 Info ctl_state.

Definition sample_service : KService := mkKService "web" (Some 8080%Z) None.
Definition sample_path : KPath := mkKPath (Some (bs "/")) "Prefix" (mkKBackend (Some sample_service) None).

Lemma reconcile_routes_ingresses_witness :
  sample_pass.1.1 = true /\
  exists rs r, routes (table (ct_router sample_pass.1.2)) !! bs "blog.example" = Some rs /\ r ∈ rs /\
    route_backend r = mkBackend "web.blog.svc.cluster.local:8080" 8080 false.
Proof.
  destruct (reconcile_routes_ingresses no_env 9090 ctl_cfg to_ascii_lowercase no_url iter_s io_ok (cluster true [shop; blog])
    "now" 0 Info ctl_state [shop; blog]) as [H Hr]; [reflexivity|vm_compute; reflexivity|reflexivity|].
  replace (all_served ctl_cfg to_ascii_lowercase [shop; blog]) with true in Hr by (vm_compute; reflexivity).
  split; [exact H|]. destruct Hr as [_ Hr].
  destruct (Hr blog "blog.example" sample_path sample_service) as (ing' & rs & r & Hu & Hl & Hin & Hto).
  - apply (list_elem_of_lookup_2 _ 1). reflexivity.
  - reflexivity.
  - discriminate.
  - exists rs, r. split_and!; [exact Hl|exact Hin|]. destruct Hto as (_ & _ & _ & Hto). rewrite Hto. clear -Hu.
    replace (first_user ctl_cfg [shop; blog] (ki_name blog) sample_service) with (Some blog) in Hu by (vm_compute; reflexivity).
    injection Hu as <-. reflexivity.
Defined.

(** Backend names leave the namespace out: of two Ingresses with the same name,
    Service name and port in two namespaces, the second one's traffic goes to the
    first one's Service. *)
Lemma namespace_collision :
  let shop := one_ingress "shop" "web" "shop.example" "web" 8080 in
  let blog := one_ingress "blog" "web" "blog.example" "web" 8080 in
  let acc := (collect no_env 9090 ctl_cfg (cluster true []) "now" [shop; blog]).1.1.1 in
  ((fun s => (site_host s, ingress_namespace s,
      upstreams <$> backends_by_name (pass_config acc [] config_default) !! site_backend s)) <$> acc_sites acc) =
  [(bs "shop.example", Some (bs "shop"), Some [mkUpstream (bs "web.shop.svc.cluster.local:8080") 1]);
   (bs "blog.example", Some (bs "blog"), Some [mkUpstream (bs "web.shop.svc.cluster.local:8080") 1])].
Proof. vm_compute. reflexivity. Qed.

Definition secret_entries : list ((str * str) * list str) :=
  [((bs "default", bs "a"), [bs "a.example"]); ((bs "default", bs "b"), [bs "b.example"])].

Definition old_pair : StoredCert := CertPem "OLD" "OLDKEY".
Definition both_installed : CertStoreInner :=
  mkCertStoreInner {[bs "a.example" := old_pair; bs "b.example" := old_pair; bs "c.example" := old_pair]} None ∅.

(** One unreadable secret takes its host's certificate away while another secret
    loads: only a pass that loads nothing keeps the previous certificates. *)
Lemma secret_outage_drops_host :
  let l := foldl (load_secret io_ok (cluster false [])) (mkLoaded [] [] both_installed) secret_entries in
  let certs := (retire [bs "a.example"; bs "b.example"] (ld_hosts l) (ld_certs l)).1 in
  certificate_callback iter_c certs (Some (bs "a.example")) = None /\
  certificate_callback iter_c certs (Some (bs "b.example")) = Some (CertPem "CERT" "KEY").
Proof. vm_compute. done. Qed.

(** Hosts are compared as they are written but removed as they are stored: when a
    renewed certificate spells a name in lower case, retiring the old spelling
    removes the new certificate. *)
Lemma renamed_host_retired :
  let st := (insert_pem_in_memory_for_hosts io_ok [bs "shop.example"] "CERT" "KEY" store_new).2 in
  certificate_callback iter_c st (Some (bs "shop.example")) = Some (CertPem "CERT" "KEY") /\
  certificate_callback iter_c (retire [bs "Shop.example"] [bs "shop.example"] st).1 (Some (bs "shop.example")) = None.
Proof. vm_compute. done. Qed.

(** ** Concrete Gateways *)

Definition edge_listener (name : str) (host : str) : GatewayListener := mkGatewayListener name 80 "HTTP" (Some host) None None.
Definition edge_gateway : KGateway :=
  mkKGateway (Some (bs "edge")) "public" (Some 3%Z) (Some (bs "pertisk"))
    [edge_listener "web" "web.example"; edge_listener "api" "api.example"] None.
(** A route attached to one listener, or to all of them. *)
Definition edge_route (section : option str) : KHTTPRoute :=
  mkKHTTPRoute (Some (bs "edge")) "site" None [mkParentRef None None "public" None section] []
    [mkRouteRule [] [mkBackendRef None None "web" None (Some 8080%Z)]].

Definition no_secret : str -> str -> option KSecret := fun _ _ => None.
Definition sample_patch (section : option str) : GatewayStatus :=
  default (mkGatewayStatus [] [] []) (gateway_patch ctl_cfg no_secret [] [edge_route section] "t0" edge_gateway).

Lemma gateway_status_settles_witness :
  gateway_patch ctl_cfg no_secret [] [edge_route None] "t1" (with_status edge_gateway (sample_patch None)) = None.
Proof.
  refine (proj2 (gateway_status_settles ctl_cfg no_secret [] [] [edge_route None] "t0" "t1" edge_gateway (sample_patch None) _) _).
  - vm_compute. reflexivity.
  - intros l l' Hl Hl'. change (http_listeners edge_gateway) with [edge_listener "web" "web.example"; edge_listener "api" "api.example"] in Hl, Hl'.
    rewrite !elem_of_cons in Hl, Hl'.
    destruct Hl as [->|[->|Hl]], Hl' as [->|[->|Hl']]; try reflexivity; by apply not_elem_of_nil in Hl || apply not_elem_of_nil in Hl'.
Defined.

(** A Gateway with one listener in use and one idle is patched on every pass. *)
Lemma partly_programmed_never_settles :
  let routes := [edge_route (Some (bs "web"))] in
  is_some (gateway_patch ctl_cfg no_secret [] routes "t1" (with_status edge_gateway (sample_patch (Some (bs "web"))))) = true.
Proof. vm_compute. reflexivity. Qed.

(** The status counts routes by name only: a route of another namespace that names
    the Gateway without a namespace is counted, and not attached. *)
Lemma counted_but_not_attached :
  let route := mkKHTTPRoute (Some (bs "elsewhere")) "site" None [mkParentRef None None "public" None None] [] [] in
  count_attached_routes [route] "edge" "public" "web" = 1%Z /\
  attached_gateways route (foldl (add_gateway ctl_cfg) (∅, acc_empty) [edge_gateway]).1 = [].
Proof. vm_compute. done. Qed.

(** ** A backend without a Service *)

Definition bucket_ingress : KIngress :=
  mkKIngress (Some (bs "shop")) "assets" None (Some (mkKIngressSpec (Some (bs "pertisk"))
    (Some [mkKRule (Some (bs "assets.example")) (Some [mkKPath (Some (bs "/")) "Prefix" (mkKBackend None (Some (bs "bucket")))])])
    None)).

(** One Ingress with a resource backend stops every later change of the cluster
    from reaching the router: the configuration is refused as a whole. *)
Lemma resource_backend_freezes :
  let acc := (collect no_env 9090 ctl_cfg (cluster true []) "now" [bucket_ingress; shop]).1.1.1 in
  apply_config to_ascii_lowercase no_url router_new (pass_config acc [] config_default) =
  (Err (NoUpstreams (bs "resource.bucket.assets")), router_new).
Proof. vm_compute. reflexivity. Qed.
