(* ===== verification/Database.v ===== *)
(** * The database (db/mod.rs, db/schema.rs)

    The SQLite file as a record of tables, and every operation of [Database] on it.
    An operation can fail as a whole, at any call: the state carries the script of
    the failures to come.  SQL rows hold text; the encodings are the class
    [Formats]. *)

From S2P Require Import Prelude RustStr GeoIp Waf Bot Captcha Security EdgeAuth ProxyConfig.

(** ** Formats

    RFC 3339 timestamps of the UTC clock (in milliseconds), JSON texts, bcrypt and
    the X.509 parser.  Timestamps compare as texts the way the instants do. *)
Class Formats := {
  to_rfc3339 : N -> str;
  parse_rfc3339 : str -> option N;
  rfc3339_parse : forall t, parse_rfc3339 (to_rfc3339 t) = Some t;
  rfc3339_order : forall a b, str_leb (to_rfc3339 a) (to_rfc3339 b) = (a <=? b);
  hosts_json : list str -> str;
  hosts_from_json : str -> option (list str);
  hosts_json_parse : forall l, hosts_from_json (hosts_json l) = Some l;
  creds_json : gmap str str -> str;
  creds_from_json : str -> option (gmap str str);
  creds_json_parse : forall m, creds_from_json (creds_json m) = Some m;
  config_json : Config -> str;
  config_from_json : str -> option Config;
  bcrypt_hash : str -> option str;
  bcrypt_verify : str -> str -> bool;
  bcrypt_hash_verify : forall p h, bcrypt_hash p = Some h -> bcrypt_verify p h = true;
  cert_expiry_from_pem : str -> option str;
}.

(** ** Tables *)

Record CertRow := mkCertRow {
  cr_id : str;
  cr_hosts : str;
  cr_cert_pem : str;
  cr_key_pem : str;
  cr_source_type : str;
  cr_created_at : str;
  cr_expires_at : option str;
}.

Record DnsRow := mkDnsRow {
  dn_id : str;
  dn_name : str;
  dn_provider_type : str;
  dn_credentials : option str;
  dn_created_at : str;
}.

(** The singleton rows of [smtp_settings] and [s3_settings]. *)
Record SmtpSettingsRow := mkSmtpSettingsRow {
  sm_enabled : bool;
  sm_host : str;
  sm_port : Z;
  sm_username : str;
  sm_password : str;
  sm_from_email : str;
  sm_from_name : str;
  sm_use_tls : bool;
  sm_alert_to : str;
  sm_notify_login_failure : bool;
  sm_notify_login : bool;
  sm_notify_password_change : bool;
  sm_updated_at : str;
}.

Record SmtpSettingsUpdate := mkSmtpSettingsUpdate {
  su_enabled : bool;
  su_host : str;
  su_port : Z;
  su_username : str;
  su_password : option str;
  su_from_email : str;
  su_from_name : str;
  su_use_tls : bool;
  su_alert_to : str;
  su_notify_login_failure : bool;
  su_notify_login : bool;
  su_notify_password_change : bool;
}.

Record S3SettingsRow := mkS3SettingsRow {
  s3_enabled : bool;
  s3_endpoint : str;
  s3_region : str;
  s3_bucket : str;
  s3_prefix : str;
  s3_access_key_id : str;
  s3_secret_access_key : str;
  s3_force_path_style : bool;
  s3_updated_at : str;
}.

Record S3SettingsUpdate := mkS3SettingsUpdate {
  s3u_enabled : bool;
  s3u_endpoint : str;
  s3u_region : str;
  s3u_bucket : str;
  s3u_prefix : str;
  s3u_access_key_id : str;
  s3u_secret_access_key : option str;
  s3u_force_path_style : bool;
}.

(** [users] by name, [sessions] by token, [proxy_config] by key. *)
Record Tables := mkTables {
  t_users : gmap str str;
  t_sessions : gmap str (str * str);
  t_config : gmap str str;
  t_certificates : list CertRow;
  t_dns : list DnsRow;
  t_smtp : SmtpSettingsRow;
  t_s3 : S3SettingsRow;
}.

Definition upd_users (f : gmap str str -> gmap str str) (t : Tables) : Tables :=
  mkTables (f (t_users t)) (t_sessions t) (t_config t) (t_certificates t) (t_dns t) (t_smtp t) (t_s3 t).
Definition upd_sessions (f : gmap str (str * str) -> gmap str (str * str)) (t : Tables) : Tables :=
  mkTables (t_users t) (f (t_sessions t)) (t_config t) (t_certificates t) (t_dns t) (t_smtp t) (t_s3 t).
Definition upd_config (f : gmap str str -> gmap str str) (t : Tables) : Tables :=
  mkTables (t_users t) (t_sessions t) (f (t_config t)) (t_certificates t) (t_dns t) (t_smtp t) (t_s3 t).
Definition upd_certificates (f : list CertRow -> list CertRow) (t : Tables) : Tables :=
  mkTables (t_users t) (t_sessions t) (t_config t) (f (t_certificates t)) (t_dns t) (t_smtp t) (t_s3 t).
Definition upd_dns (f : list DnsRow -> list DnsRow) (t : Tables) : Tables :=
  mkTables (t_users t) (t_sessions t) (t_config t) (t_certificates t) (f (t_dns t)) (t_smtp t) (t_s3 t).
Definition upd_smtp (r : SmtpSettingsRow) (t : Tables) : Tables :=
  mkTables (t_users t) (t_sessions t) (t_config t) (t_certificates t) (t_dns t) r (t_s3 t).
Definition upd_s3 (r : S3SettingsRow) (t : Tables) : Tables :=
  mkTables (t_users t) (t_sessions t) (t_config t) (t_certificates t) (t_dns t) (t_smtp t) r.

(** ** Operations *)

Inductive DbError : Type := DbFailed | DbBadJson | DbHashFailed | DbNotUnique.

(** [true] at the head of the script: the next call fails. *)
Record DbState := mkDbState { db_tables : Tables; db_faults : list bool }.

Definition Db (A : Type) : Type := DbState -> result DbError A * DbState.
#[export] Instance db_ret : MRet Db := fun A a s => (Ok a, s).
#[export] Instance db_bind : MBind Db := fun A B f m s =>
  match m s with (Ok a, s') => f a s' | (Err e, s') => (Err e, s') end.

(** One connection: read and write the tables, or fail and leave them. *)
Definition db_exec {A} (f : Tables -> result DbError A * Tables) : Db A := fun s =>
  match db_faults s with
  | true :: rest => (Err DbFailed, mkDbState (db_tables s) rest)
  | faults => let '(r, t) := f (db_tables s) in (r, mkDbState t (tail faults))
  end.
Definition db_read {A} (f : Tables -> A) : Db A := db_exec (fun t => (Ok (f t), t)).
Definition db_write (f : Tables -> Tables) : Db unit := db_exec (fun t => (Ok tt, f t)).

(** [let _ = ..] and [.ok()]: the outcome does not matter. *)
Definition db_ignore {A} (m : Db A) : Db unit := fun s => (Ok tt, (m s).2).
(** [unwrap_or] and matching on the outcome. *)
Definition db_try {A} (m : Db A) : Db (result DbError A) := fun s => let '(r, s') := m s in (Ok r, s').
Definition db_fail {A} (e : DbError) : Db A := fun s => (Err e, s).

Definition DEFAULT_ADMIN_USERNAME : str := bs "admin".
Definition DEFAULT_ADMIN_PASSWORD : str := bs "admin".
Definition PROXY_CONFIG_KEY : str := bs "current".

Record CertificateRow := mkCertificateRow {
  row_id : str;
  row_hosts : list str;
  row_source_type : str;
  row_created_at : str;
  row_expires_at : option str;
}.

Record DnsProviderRow := mkDnsProviderRow {
  dr_id : str;
  dr_name : str;
  dr_provider_type : str;
  dr_credentials : option (gmap str str);
  dr_created_at : str;
}.

Section database.
Context `{Formats}.
(** The order in which a table is scanned. *)
Variable scan : list CertRow -> list CertRow.
Variable scan_dns : list DnsRow -> list DnsRow.

Definition seed_admin_user : Db unit := db_exec (fun t =>
  if bool_decide (t_users t = ∅) then
    match bcrypt_hash DEFAULT_ADMIN_PASSWORD with
    | Some h => (Ok tt, upd_users (insert DEFAULT_ADMIN_USERNAME h) t)
    | None => (Err DbHashFailed, t)
    end
  else (Ok tt, t)).

Definition get_user_password_hash (username : str) : Db (option str) := db_read (fun t => t_users t !! username).

Definition update_user_password (username new_password : str) : Db bool :=
  match bcrypt_hash new_password with
  | None => db_fail DbHashFailed
  | Some h => db_exec (fun t =>
      if is_some (t_users t !! username) then (Ok true, upd_users (insert username h) t) else (Ok false, t))
  end.

Definition insert_session (token username : str) (expires_at : N) : Db unit :=
  db_write (upd_sessions (insert token (username, to_rfc3339 expires_at))).

(** An expiry that does not parse counts as now. *)
Definition get_session (now : N) (token : str) : Db (option (str * N)) := db_read (fun t =>
  '(username, expires_at) ← t_sessions t !! token;
  if str_leb expires_at (to_rfc3339 now) then None else Some (username, default now (parse_rfc3339 expires_at))).

Definition load_active_sessions (now : N) : Db (list (str * (str * N))) := db_read (fun t =>
  omap (fun e : str * (str * str) =>
    if str_leb e.2.2 (to_rfc3339 now) then None else Some (e.1, (e.2.1, default now (parse_rfc3339 e.2.2))))
    (map_to_list (t_sessions t))).

Definition get_config_json (key : str) : Db (option str) := db_read (fun t => t_config t !! key).
Definition save_config_json (key value : str) : Db unit := db_write (upd_config (insert key value)).

Definition save_proxy_config (c : Config) : Db unit := save_config_json PROXY_CONFIG_KEY (config_json c).

(** The current configuration, or the blob of an earlier version, which is saved
    under the new key. *)
Definition get_proxy_config : Db (option Config) :=
  current ← get_config_json PROXY_CONFIG_KEY;
  match current with
  | Some json => match config_from_json json with Some c => mret (Some c) | None => db_fail DbBadJson end
  | None =>
    legacy ← get_config_json "sites";
    match legacy ≫= config_from_json with
    | Some c => _ ← save_proxy_config c; mret (Some c)
    | None => mret None
    end
  end.

(** *** DNS providers *)

Definition created_order (a b : DnsRow) : bool := str_leb (dn_created_at a) (dn_created_at b).

Definition list_dns_providers : Db (list DnsProviderRow) := db_read (fun t =>
  (fun r => mkDnsProviderRow (dn_id r) (dn_name r) (dn_provider_type r) None (dn_created_at r))
  <$> sort_by created_order (scan_dns (t_dns t))).

Definition get_dns_provider (id : str) : Db (option DnsProviderRow) := db_read (fun t =>
  (fun r => mkDnsProviderRow (dn_id r) (dn_name r) (dn_provider_type r) (dn_credentials r ≫= creds_from_json) (dn_created_at r))
  <$> List.find (fun r => dn_id r =s id) (t_dns t)).

(** [id] is the fresh UUID; a primary key cannot repeat. *)
Definition create_dns_provider (id name provider_type : str) (credentials : option (gmap str str)) (now : N) : Db str :=
  db_exec (fun t =>
    if existsb (fun r => dn_id r =s id) (t_dns t) then (Err DbNotUnique, t)
    else (Ok id, upd_dns (fun l => l ++ [mkDnsRow id name provider_type (creds_json <$> credentials) (to_rfc3339 now)]) t)).

Definition put_dns_provider (id name provider_type : str) (credentials : option (gmap str str)) : Db bool :=
  db_exec (fun t =>
    (Ok (existsb (fun r => dn_id r =s id) (t_dns t)),
     upd_dns (fmap (fun r => if dn_id r =s id then mkDnsRow id name provider_type (creds_json <$> credentials) (dn_created_at r)
                             else r)) t)).

Definition delete_dns_provider (id : str) : Db bool := db_exec (fun t =>
  (Ok (existsb (fun r => dn_id r =s id) (t_dns t)), upd_dns (filter (fun r => (dn_id r =s id) = false)) t)).

(** *** Certificates *)

Definition set_expires (id expires : str) : Db unit := db_write (upd_certificates (fmap (fun r =>
  if cr_id r =s id then
    mkCertRow (cr_id r) (cr_hosts r) (cr_cert_pem r) (cr_key_pem r) (cr_source_type r) (cr_created_at r) (Some expires)
  else r))).

(** One row of [list_certificates]: a missing expiry is read from the certificate
    and written back. *)
Definition list_row (r : CertRow) : Db CertificateRow :=
  let row e := mkCertificateRow (cr_id r) (default [] (hosts_from_json (cr_hosts r))) (cr_source_type r) (cr_created_at r) e in
  match cr_expires_at r with
  | Some e => mret (row (Some e))
  | None =>
    match cert_expiry_from_pem (cr_cert_pem r) with
    | Some e => _ ← db_ignore (set_expires (cr_id r) e); mret (row (Some e))
    | None => mret (row None)
    end
  end.

Fixpoint list_rows (rows : list CertRow) : Db (list CertificateRow) :=
  match rows with
  | [] => mret []
  | r :: rest => x ← list_row r; xs ← list_rows rest; mret (x :: xs)
  end.

Definition cert_order (a b : CertRow) : bool := str_leb (cr_created_at a) (cr_created_at b).

Definition list_certificates : Db (list CertificateRow) :=
  rows ← db_read (fun t => sort_by cert_order (scan (t_certificates t)));
  list_rows rows.

Definition get_all_certificates_for_store : Db (list (str * list str * str * str)) := db_read (fun t =>
  (fun r => (cr_id r, default [] (hosts_from_json (cr_hosts r)), cr_cert_pem r, cr_key_pem r)) <$> scan (t_certificates t)).

Definition add_certificate (id : str) (hosts : list str) (cert_pem key_pem source_type : str) (now : N) : Db str :=
  db_exec (fun t =>
    if existsb (fun r => cr_id r =s id) (t_certificates t) then (Err DbNotUnique, t)
    else (Ok id, upd_certificates (fun l => l ++
      [mkCertRow id (hosts_json hosts) cert_pem key_pem source_type (to_rfc3339 now) (cert_expiry_from_pem cert_pem)]) t)).

Definition delete_certificate (id : str) : Db bool := db_exec (fun t =>
  (Ok (existsb (fun r => cr_id r =s id) (t_certificates t)), upd_certificates (filter (fun r => (cr_id r =s id) = false)) t)).

(** *** Settings *)

Definition seed_smtp (now : N) : SmtpSettingsRow :=
  mkSmtpSettingsRow false [] 587 [] [] [] "Pertisk Proxy" true [] false false false (to_rfc3339 now).
Definition seed_s3 (now : N) : S3SettingsRow :=
  mkS3SettingsRow false [] "us-east-1" [] [] [] [] false (to_rfc3339 now).

Definition get_smtp_settings : Db SmtpSettingsRow := db_read t_smtp.
Definition get_s3_settings : Db S3SettingsRow := db_read t_s3.

(** The password is written only when the update has one. *)
Definition update_smtp_settings (u : SmtpSettingsUpdate) (now : N) : Db SmtpSettingsRow := db_exec (fun t =>
  let r := mkSmtpSettingsRow (su_enabled u) (su_host u) (su_port u) (su_username u)
             (default (sm_password (t_smtp t)) (su_password u)) (su_from_email u) (su_from_name u) (su_use_tls u) (su_alert_to u)
             (su_notify_login_failure u) (su_notify_login u) (su_notify_password_change u) (to_rfc3339 now) in
  (Ok r, upd_smtp r t)).

Definition update_s3_settings (u : S3SettingsUpdate) (now : N) : Db S3SettingsRow := db_exec (fun t =>
  let r := mkS3SettingsRow (s3u_enabled u) (s3u_endpoint u) (s3u_region u) (s3u_bucket u) (s3u_prefix u) (s3u_access_key_id u)
             (default (s3_secret_access_key (t_s3 t)) (s3u_secret_access_key u)) (s3u_force_path_style u) (to_rfc3339 now) in
  (Ok r, upd_s3 r t)).

(** A new file: the schema with its two settings rows, then the first user. *)
Definition database_open (now : N) (tables : option Tables) : Db unit := fun s =>
  let t := default (mkTables ∅ ∅ ∅ [] [] (seed_smtp now) (seed_s3 now)) tables in
  seed_admin_user (mkDbState t (db_faults s)).

End database.
