(* ===== verification/Schema.v ===== *)
(** * The schema of the database file (db/schema.rs)

    [Database] works on tables that exist.  Here is how they come to exist: the file as
    SQL tables with their columns, the statements of [init_schema] on it, each able to
    fail, and what the queries of db/mod.rs read from the file.  A file may be new, or
    made by an earlier version that knew fewer columns, or left behind by an upgrade
    that was interrupted. *)

From S2P Require Import Prelude RustStr GeoIp Waf Bot Captcha Security EdgeAuth ProxyConfig Database.

(** ** Tables of a file *)

Inductive SqlValue := VNull | VInt (z : Z) | VText (s : str).
#[export] Instance sql_value_eq : EqDecision SqlValue.
Proof. solve_decision. Defined.

(** [c_default] is [VNull] when the declaration has none; [c_only]: the value a [CHECK]
    admits. *)
Record Column := mkColumn {
  c_name : str;
  c_not_null : bool;
  c_default : SqlValue;
  c_unique : bool;
  c_only : option SqlValue;
}.

#[export] Instance column_eq : EqDecision Column.
Proof. solve_decision. Defined.

Abbreviation Row := (gmap str SqlValue).

Record SqlTable := mkSqlTable { tb_columns : list Column; tb_rows : list Row }.
Record SqlFile := mkSqlFile { sf_tables : gmap str SqlTable; sf_indexes : gset str }.

Definition sf_put (name : str) (t : SqlTable) (f : SqlFile) : SqlFile := mkSqlFile (<[name := t]> (sf_tables f)) (sf_indexes f).

Inductive SqlError := SqlIo | SqlNoTable | SqlNoColumn | SqlDuplicateColumn | SqlNotNull | SqlConstraint.

(** A statement fails as a whole; what earlier statements did stays. *)
Definition Sql (A : Type) : Type := SqlFile * list bool -> result SqlError A * (SqlFile * list bool).
#[export] Instance sql_ret : MRet Sql := fun A a s => (Ok a, s).
#[export] Instance sql_bind : MBind Sql := fun A B k m s =>
  match m s with (Ok a, s') => k a s' | (Err e, s') => (Err e, s') end.

Definition statement {A} (f : SqlFile -> result SqlError (A * SqlFile)) : Sql A := fun s =>
  match s.2 with
  | true :: rest => (Err SqlIo, (s.1, rest))
  | faults => match f s.1 with
              | Ok (a, file) => (Ok a, (file, tail faults))
              | Err e => (Err e, (s.1, tail faults))
              end
  end.

(** ** The statements *)

Definition column_names (t : SqlTable) : list str := c_name <$> tb_columns t.

Definition create_table_if_missing (name : str) (cols : list Column) (f : SqlFile) : result SqlError (unit * SqlFile) :=
  Ok (tt, if is_some (sf_tables f !! name) then f else sf_put name (mkSqlTable cols []) f).

Definition cell (r : Row) (c : str) : SqlValue := default VNull (r !! c).

Definition create_index_if_missing (index table column : str) (unique : bool) (f : SqlFile) : result SqlError (unit * SqlFile) :=
  if bool_decide (index ∈ sf_indexes f) then Ok (tt, f) else
  t ← ok_or (sf_tables f !! table) SqlNoTable;
  if unique && negb (bool_decide (NoDup (filter (.≠ VNull) ((fun r => cell r column) <$> tb_rows t)))) then Err SqlConstraint
  else Ok (tt, mkSqlFile (sf_tables f) ({[index]} ∪ sf_indexes f)).

(** Rows that were there read the default of the new column. *)
Definition alter_add_column (table : str) (c : Column) (f : SqlFile) : result SqlError (unit * SqlFile) :=
  t ← ok_or (sf_tables f !! table) SqlNoTable;
  if bool_decide (c_name c ∈ column_names t) then Err SqlDuplicateColumn
  else if c_not_null c && bool_decide (c_default c = VNull) then Err SqlNotNull
  else Ok (tt, sf_put table (mkSqlTable (tb_columns t ++ [c]) ((fun r => r ∪ {[c_name c := c_default c]}) <$> tb_rows t)) f).

Definition given (vs : list (str * SqlValue)) (c : Column) : SqlValue :=
  default (c_default c) ((list_to_map vs : Row) !! c_name c).

Definition accepts (rows : list Row) (c : Column) (v : SqlValue) : bool :=
  negb (c_not_null c && bool_decide (v = VNull)) &&
  match c_only c with Some w => bool_decide (v = w) | None => true end &&
  negb (c_unique c && existsb (fun r => bool_decide (cell r (c_name c) = v) && bool_decide (v <> VNull)) rows).

Definition insert_row (table : str) (vs : list (str * SqlValue)) (f : SqlFile) : result SqlError (unit * SqlFile) :=
  t ← ok_or (sf_tables f !! table) SqlNoTable;
  if negb (forallb (fun kv => bool_decide (kv.1 ∈ column_names t)) vs) then Err SqlNoColumn
  else if negb (forallb (fun c => accepts (tb_rows t) c (given vs c)) (tb_columns t)) then Err SqlConstraint
  else Ok (tt, sf_put table (mkSqlTable (tb_columns t) (tb_rows t ++ [list_to_map ((fun c => (c_name c, given vs c)) <$> tb_columns t)])) f).

(** ** init_schema *)

Definition text_key (name : str) : Column := mkColumn name false VNull true None.
Definition text (name : str) : Column := mkColumn name false VNull false None.
Definition text_not_null (name : str) : Column := mkColumn name true VNull false None.
Definition unique_text (name : str) : Column := mkColumn name true VNull true None.
Definition text_default (name dflt : str) : Column := mkColumn name true (VText dflt) false None.
Definition int_default (name : str) (dflt : Z) : Column := mkColumn name true (VInt dflt) false None.
(** [id INTEGER PRIMARY KEY CHECK (id = 1)]. *)
Definition only_one : Column := mkColumn "id" true VNull true (Some (VInt 1)).

Definition expires_at_column : Column := text "expires_at".
Definition notify_login_column : Column := int_default "notify_login" 0.
Definition notify_password_change_column : Column := int_default "notify_password_change" 0.

(** The columns of each [CREATE TABLE]. *)
Definition created_tables : list (str * list Column) := [
  (bs "proxy_config", [text_key "key"; text_not_null "value"; text_not_null "updated_at"]);
  (bs "dns_providers", [text_key "id"; text_not_null "name"; text_not_null "provider_type"; text "credentials"; text_not_null "created_at"]);
  (bs "users", [text_key "id"; unique_text "username"; text_not_null "password_hash"; text_not_null "created_at"]);
  (bs "sessions", [text_key "token"; text_not_null "username"; text_not_null "expires_at"]);
  (bs "certificates", [text_key "id"; text_not_null "hosts"; text_not_null "cert_pem"; text_not_null "key_pem"; text_not_null "source_type"; text_not_null "created_at"]);
  (bs "smtp_settings", [only_one; int_default "enabled" 0; text_default "host" []; int_default "port" 587; text_default "username" [];
     text_default "password" []; text_default "from_email" []; text_default "from_name" []; int_default "use_tls" 1; text_default "alert_to" [];
     int_default "notify_login_failure" 0; notify_login_column; notify_password_change_column; text_not_null "updated_at"]);
  (bs "s3_settings", [only_one; int_default "enabled" 0; text_default "endpoint" []; text_default "region" "us-east-1"; text_default "bucket" [];
     text_default "prefix" []; text_default "access_key_id" []; text_default "secret_access_key" []; int_default "force_path_style" 0;
     text_not_null "updated_at"])].

Definition create_table (name : str) : Sql unit :=
  statement (create_table_if_missing name (default [] ((list_to_map created_tables : gmap str (list Column)) !! name))).

Definition execute_batch : Sql unit :=
  _ ← create_table "proxy_config";
  _ ← create_table "dns_providers";
  _ ← create_table "users";
  _ ← statement (create_index_if_missing "idx_users_username" "users" "username" true);
  _ ← create_table "sessions";
  _ ← statement (create_index_if_missing "idx_sessions_expires_at" "sessions" "expires_at" false);
  _ ← create_table "certificates";
  _ ← create_table "smtp_settings";
  create_table "s3_settings".

(** [pragma_table_info] of a table that is missing is empty. *)
Definition has_column (table column : str) (f : SqlFile) : bool :=
  match sf_tables f !! table with Some t => bool_decide (column ∈ column_names t) | None => false end.

Definition add_column_if_missing (table : str) (c : Column) : Sql unit :=
  has_col ← statement (fun f => Ok (has_column table (c_name c) f, f));
  if has_col : bool then mret tt else statement (alter_add_column table c).

Definition migrate_certificates_expires_at : Sql unit := add_column_if_missing "certificates" expires_at_column.

Definition migrate_smtp_notify_flags : Sql unit :=
  _ ← add_column_if_missing "smtp_settings" notify_login_column;
  add_column_if_missing "smtp_settings" notify_password_change_column.

Definition is_row_one (r : Row) : bool := bool_decide (r !! bs "id" = Some (VInt 1)).

Definition count_one (table : str) (f : SqlFile) : result SqlError (nat * SqlFile) :=
  t ← ok_or (sf_tables f !! table) SqlNoTable;
  Ok (length (filter (fun r => is_row_one r = true) (tb_rows t)), f).

Section schema.
Context `{Formats}.

Definition smtp_seed_values (now : N) : list (str * SqlValue) := [
  (bs "id", VInt 1); (bs "enabled", VInt 0); (bs "host", VText []); (bs "port", VInt 587); (bs "username", VText []);
  (bs "password", VText []); (bs "from_email", VText []); (bs "from_name", VText "Pertisk Proxy"); (bs "use_tls", VInt 1);
  (bs "alert_to", VText []); (bs "notify_login_failure", VInt 0); (bs "notify_login", VInt 0); (bs "notify_password_change", VInt 0);
  (bs "updated_at", VText (to_rfc3339 now))].

Definition s3_seed_values (now : N) : list (str * SqlValue) := [
  (bs "id", VInt 1); (bs "enabled", VInt 0); (bs "endpoint", VText []); (bs "region", VText "us-east-1"); (bs "bucket", VText []);
  (bs "prefix", VText []); (bs "access_key_id", VText []); (bs "secret_access_key", VText []); (bs "force_path_style", VInt 0);
  (bs "updated_at", VText (to_rfc3339 now))].

Definition seed_row (table : str) (vs : list (str * SqlValue)) : Sql unit :=
  count ← statement (count_one table);
  if (0 <? count)%nat then mret tt else statement (insert_row table vs).

Definition seed_smtp_settings (now : N) : Sql unit := seed_row "smtp_settings" (smtp_seed_values now).
Definition seed_s3_settings (now : N) : Sql unit := seed_row "s3_settings" (s3_seed_values now).

Definition init_schema (now : N) : Sql unit :=
  _ ← execute_batch;
  _ ← migrate_certificates_expires_at;
  _ ← migrate_smtp_notify_flags;
  _ ← seed_smtp_settings now;
  seed_s3_settings now.

(** ** What the queries read

    A row as the values of its columns.  The columns are those of the queries of
    db/mod.rs on each table. *)

Definition text_of (g : str -> option SqlValue) (c : str) : option str := match g c with Some (VText s) => Some s | _ => None end.
Definition int_of (g : str -> option SqlValue) (c : str) : option Z := match g c with Some (VInt z) => Some z | _ => None end.
Definition bool_of (g : str -> option SqlValue) (c : str) : option bool := (fun z => negb (z =? 0)%Z) <$> int_of g c.
Definition nullable_of (g : str -> option SqlValue) (c : str) : option (option str) :=
  match g c with Some (VText s) => Some (Some s) | Some VNull => Some None | _ => None end.

Definition row_user (g : str -> option SqlValue) : option (str * str) :=
  name ← text_of g "username"; hash ← text_of g "password_hash"; Some (name, hash).
Definition row_session (g : str -> option SqlValue) : option (str * (str * str)) :=
  token ← text_of g "token"; name ← text_of g "username"; expires ← text_of g "expires_at"; Some (token, (name, expires)).
Definition row_config (g : str -> option SqlValue) : option (str * str) :=
  key ← text_of g "key"; value ← text_of g "value"; Some (key, value).
(** An expiry of another type counts as none. *)
Definition row_certificate (g : str -> option SqlValue) : option CertRow :=
  id ← text_of g "id"; hosts ← text_of g "hosts"; cert ← text_of g "cert_pem"; key ← text_of g "key_pem";
  source ← text_of g "source_type"; created ← text_of g "created_at";
  Some (mkCertRow id hosts cert key source created (text_of g "expires_at")).
Definition row_dns (g : str -> option SqlValue) : option DnsRow :=
  id ← text_of g "id"; name ← text_of g "name"; type ← text_of g "provider_type"; creds ← nullable_of g "credentials";
  created ← text_of g "created_at"; Some (mkDnsRow id name type creds created).
Definition row_smtp (g : str -> option SqlValue) : option SmtpSettingsRow :=
  enabled ← bool_of g "enabled"; host ← text_of g "host"; port ← int_of g "port"; username ← text_of g "username";
  password ← text_of g "password"; from_email ← text_of g "from_email"; from_name ← text_of g "from_name";
  use_tls ← bool_of g "use_tls"; alert_to ← text_of g "alert_to"; failure ← bool_of g "notify_login_failure";
  login ← bool_of g "notify_login"; change ← bool_of g "notify_password_change"; updated ← text_of g "updated_at";
  Some (mkSmtpSettingsRow enabled host port username password from_email from_name use_tls alert_to failure login change updated).
Definition row_s3 (g : str -> option SqlValue) : option S3SettingsRow :=
  enabled ← bool_of g "enabled"; endpoint ← text_of g "endpoint"; region ← text_of g "region"; bucket ← text_of g "bucket";
  prefix ← text_of g "prefix"; access ← text_of g "access_key_id"; secret ← text_of g "secret_access_key";
  style ← bool_of g "force_path_style"; updated ← text_of g "updated_at";
  Some (mkS3SettingsRow enabled endpoint region bucket prefix access secret style updated).

(** The singleton row; without one the query of the settings has the outcome [none]. *)
Definition row_one (rows : list (str -> option SqlValue)) : option (str -> option SqlValue) :=
  find (fun g => bool_decide (g (bs "id") = Some (VInt 1))) rows.

Definition tables_from (rows : str -> list (str -> option SqlValue)) (smtp : option SmtpSettingsRow) (s3 : option S3SettingsRow) : option Tables :=
  users ← mapM row_user (rows (bs "users"));
  sessions ← mapM row_session (rows (bs "sessions"));
  config ← mapM row_config (rows (bs "proxy_config"));
  certs ← mapM row_certificate (rows (bs "certificates"));
  dns ← mapM row_dns (rows (bs "dns_providers"));
  smtp ← from_option row_smtp smtp (row_one (rows (bs "smtp_settings")));
  s3 ← from_option row_s3 s3 (row_one (rows (bs "s3_settings")));
  Some (mkTables (list_to_map users) (list_to_map sessions) (list_to_map config) certs dns smtp s3).

(** The columns the program needs: those of [CREATE TABLE] and those it adds. *)
Definition added_columns (table : str) : list Column :=
  if bool_decide (table = bs "certificates") then [expires_at_column]
  else if bool_decide (table = bs "smtp_settings") then [notify_login_column; notify_password_change_column] else [].

Definition all_columns (e : str * list Column) : list str := (c_name <$> e.2) ++ (c_name <$> added_columns e.1).

(** A query on a table or a column that is missing is an error. *)
Definition has_schema (f : SqlFile) : bool :=
  forallb (fun e => forallb (fun c => has_column e.1 c f) (all_columns e)) created_tables.

Definition stored_rows (f : SqlFile) (table : str) : list Row := from_option tb_rows [] (sf_tables f !! table).

Definition select_tables (f : SqlFile) : option Tables :=
  if has_schema f then tables_from (fun table => (fun (r : Row) c => r !! c) <$> stored_rows f table) None None else None.

(** What a file of any version holds: a column it does not know has its default, and
    settings that were never written are the seeds of the given times. *)
Definition added_default (table column : str) : option SqlValue :=
  c_default <$> List.find (fun c => c_name c =s column) (added_columns table).

Definition held_rows (f : SqlFile) (table : str) : list (str -> option SqlValue) :=
  (fun (r : Row) c => or_else (r !! c) (added_default table c)) <$> stored_rows f table.

Definition file_tables (smtp_at s3_at : N) (f : SqlFile) : option Tables :=
  tables_from (held_rows f) (Some (seed_smtp smtp_at)) (Some (seed_s3 s3_at)).

(** [Database::open] on a file: the schema, then the first user ([Database]). *)
Definition open_file (now : N) (f : SqlFile) (faults : list bool) : result SqlError unit * SqlFile :=
  let '(r, (f', _)) := init_schema now (f, faults) in (r, f').

End schema.
