(* ===== verification/Admin.v ===== *)
(** * The management API (api/mod.rs)

    Authentication and sessions, the routing of requests to handlers, and the
    handlers that read and change the running configuration, the certificates and
    the DNS providers.  A handler is a state transformer that ends in a value or in
    an error response. *)

From S2P Require Import Prelude RustStr Ip GeoIp Waf Bot Captcha Security Edge EdgeAuth ProxyConfig Router Forward Apply.
From S2P Require Import Telemetry CertStore Database.

(** ** State *)

(** Instants and UTC timestamps are milliseconds of one clock. *)
Record SessionEntry := mkSessionEntry { se_username : str; se_expires_at : N }.
Abbreviation Sessions := (gmap str SessionEntry).

Inductive AuthEventKind : Type := LoginFailure | LoginSuccess | PasswordChange.
Record AuthEvent := mkAuthEvent { ev_kind : AuthEventKind; ev_user : str; ev_ip : str; ev_agent : str }.

(** What the handlers change; [ad_sweeps] are the Auto-SSL sweeps spawned, oldest
    first, [ad_events] the notifications. *)
Record Admin := mkAdmin {
  ad_router : Router;
  ad_certs : CertStoreInner;
  ad_config : Config;
  ad_sessions : option Sessions;
  ad_db : option DbState;
  ad_http01 : Http01ChallengeStore;
  ad_log : ProxyLog;
  ad_log_enabled : bool;
  ad_sweeps : list Config;
  ad_events : list AuthEvent;
}.

Definition set_router (r : Router) (s : Admin) : Admin :=
  mkAdmin r (ad_certs s) (ad_config s) (ad_sessions s) (ad_db s) (ad_http01 s) (ad_log s) (ad_log_enabled s) (ad_sweeps s) (ad_events s).
Definition set_certs (c : CertStoreInner) (s : Admin) : Admin :=
  mkAdmin (ad_router s) c (ad_config s) (ad_sessions s) (ad_db s) (ad_http01 s) (ad_log s) (ad_log_enabled s) (ad_sweeps s) (ad_events s).
Definition set_config (c : Config) (s : Admin) : Admin :=
  mkAdmin (ad_router s) (ad_certs s) c (ad_sessions s) (ad_db s) (ad_http01 s) (ad_log s) (ad_log_enabled s) (ad_sweeps s) (ad_events s).
Definition set_sessions (m : option Sessions) (s : Admin) : Admin :=
  mkAdmin (ad_router s) (ad_certs s) (ad_config s) m (ad_db s) (ad_http01 s) (ad_log s) (ad_log_enabled s) (ad_sweeps s) (ad_events s).
Definition set_db (d : option DbState) (s : Admin) : Admin :=
  mkAdmin (ad_router s) (ad_certs s) (ad_config s) (ad_sessions s) d (ad_http01 s) (ad_log s) (ad_log_enabled s) (ad_sweeps s) (ad_events s).
Definition set_log (l : ProxyLog) (s : Admin) : Admin :=
  mkAdmin (ad_router s) (ad_certs s) (ad_config s) (ad_sessions s) (ad_db s) (ad_http01 s) l (ad_log_enabled s) (ad_sweeps s) (ad_events s).
Definition set_log_enabled (b : bool) (s : Admin) : Admin :=
  mkAdmin (ad_router s) (ad_certs s) (ad_config s) (ad_sessions s) (ad_db s) (ad_http01 s) (ad_log s) b (ad_sweeps s) (ad_events s).
Definition add_sweep (c : Config) (s : Admin) : Admin :=
  mkAdmin (ad_router s) (ad_certs s) (ad_config s) (ad_sessions s) (ad_db s) (ad_http01 s) (ad_log s) (ad_log_enabled s)
    (ad_sweeps s ++ [c]) (ad_events s).
Definition add_event (e : AuthEvent) (s : Admin) : Admin :=
  mkAdmin (ad_router s) (ad_certs s) (ad_config s) (ad_sessions s) (ad_db s) (ad_http01 s) (ad_log s) (ad_log_enabled s)
    (ad_sweeps s) (ad_events s ++ [e]).

(** What a request finds: the process's settings, the clock, a fresh UUID, the file
    system.  [ae_acme] says that there is an ACME manager. *)
Record AdminEnv := mkAdminEnv {
  ae_auth_required : bool;
  ae_env_password : option str;
  ae_viewer_mode : bool;
  ae_certs_dir : str;
  ae_admin_dist : str;
  ae_dev_origin : option str;
  ae_var : str -> option str;
  ae_now : N;
  ae_uuid : str;
  ae_io : CertIo;
  ae_is_file : str -> bool;
  ae_read_file : str -> option str;
  ae_acme : bool;
  ae_min_level : LogLevel;
}.

(** ** Handlers *)

Record ApiError := mkApiError { api_status : N; api_error : str }.

Definition Api (A : Type) : Type := Admin -> result ApiError A * Admin.
#[export] Instance api_ret : MRet Api := fun A a s => (Ok a, s).
#[export] Instance api_bind : MBind Api := fun A B f m s =>
  match m s with (Ok a, s') => f a s' | (Err e, s') => (Err e, s') end.

Definition api_fail {A} (status : N) (msg : str) : Api A := fun s => (Err (mkApiError status msg), s).
Definition api_get {A} (f : Admin -> A) : Api A := fun s => (Ok (f s), s).
Definition api_step {A} (f : Admin -> result ApiError A * Admin) : Api A := f.
Definition api_modify (f : Admin -> Admin) : Api unit := fun s => (Ok tt, f s).

(** ** Session tokens *)

Section tokens.
Context `{Crypto}.

Definition SESSION_TTL_SECS : N := 86400.

Definition session_ttl_secs (E : AdminEnv) : N :=
  default SESSION_TTL_SECS (opt_filter (fun v => 0 <? v) (v ← ae_var E "PERTISK_SESSION_TTL_SECS"; parse_u64 (trim v))).

Definition admin_var (E : AdminEnv) (key : str) : option str :=
  opt_filter (fun v => negb (is_empty v)) (trim <$> ae_var E key).

Definition session_signing_secret (E : AdminEnv) : option str :=
  or_else (admin_var E "PERTISK_AUTH_SIGNING_SECRET")
    (or_else (opt_filter (fun v => negb (is_empty v)) (trim <$> ae_env_password E)) (admin_var E "PERTISK_API_TOKEN")).

Definition api_static_token (E : AdminEnv) : option str := admin_var E "PERTISK_API_TOKEN".

Definition session_payload (username : str) (exp : Z) : str := bs "pp1|" ++ username ++ bs "|" ++ show_Z exp.
Definition session_sig (secret username : str) (exp : Z) : str := sign secret (session_payload username exp).

(** [now] in milliseconds, [exp] in seconds: an [i64], which wraps. *)
Definition mint_signed_session_token (now : N) (secret username : str) (ttl_secs : N) : option str :=
  if is_empty username || contains_byte "." username then None
  else
    let exp := as_i64 (Z.of_N (now / 1000) + as_i64 (Z.of_N ttl_secs)) in
    Some (bs "pp1." ++ username ++ bs "." ++ show_Z exp ++ bs "." ++ session_sig secret username exp).

Definition verify_signed_session_token (now : N) (secret token : str) : option str :=
  match split_on "." token with
  | [ver; username; exp_s; sig] =>
    if negb (ver =s "pp1") || is_empty username then None
    else
      exp ← parse_i64 exp_s;
      if (exp <? Z.of_N (now / 1000))%Z then None
      else if eq_ignore_ascii_case (session_sig secret username exp) (trim sig) then Some username else None
  | _ => None
  end.

End tokens.

Definition extract_bearer (header : str -> option str) : option str :=
  trim <$> (v ← header "authorization"; strip_prefix "Bearer " v).

(** The loop of [load_db_certs_into_store] stops at the first certificate the store
    refuses. *)
Fixpoint insert_rows (io : CertIo) (dir : str) (rows : list (str * list str * str * str)) (c : CertStoreInner) : bool * CertStoreInner :=
  match rows with
  | [] => (true, c)
  | (id, hosts, cert, key) :: rest =>
    match insert_pem_for_hosts io hosts cert key dir id c with
    | (Ok _, c') => insert_rows io dir rest c'
    | (Err _, c') => (false, c')
    end
  end.

Section api.
Context `{Crypto} `{Formats}.
Variable scan : list CertRow -> list CertRow.
Variable scan_dns : list DnsRow -> list DnsRow.
Variable to_lowercase : str -> str.
Variable url_parse : str -> option Url.
Variable iter_routes : gmap str (list Route) -> list (str * list Route).
Variable iter_edge : gmap str (gmap str EdgePolicy) -> list (str * gmap str EdgePolicy).
(** [to_string] of the errors of the parts. *)
Variable db_text : DbError -> str.
Variable apply_text : ApplyError -> str.
Variable store_text : StoreError -> str.
Variable E : AdminEnv.

Implicit Type s : Admin.

(** A database call inside a handler that has checked for one; [status] is that of
    the error response. *)
Definition db_call {A} (m : Db A) : Api A := fun s =>
  match ad_db s with
  | None => (Err (mkApiError 503 "database not configured"), s)
  | Some d =>
    let '(r, d') := m d in
    (match r with Ok a => Ok a | Err e => Err (mkApiError 500 (db_text e)) end, set_db (Some d') s)
  end.

Definition require_db : Api unit := fun s =>
  match ad_db s with Some _ => (Ok tt, s) | None => (Err (mkApiError 503 "database not configured"), s) end.

(** [self.proxy_log.push(ProxyLogEntry::config_reload(..))]. *)
Definition log_reload (msg : str) : Api unit :=
  api_modify (fun s => set_log (push_sync (ae_min_level E) (log_config_reload (ae_now E) msg) (ad_log s)) s).

(** ** Who is asking *)

Definition session_username (token : str) (m : Sessions) : option str * Sessions :=
  match m !! token with
  | None => (None, m)
  | Some e => if ae_now E <? se_expires_at e then (Some (se_username e), m) else (None, delete token m)
  end.

(** The instant at which a session known to expire at [expires] is dropped from
    memory: whole seconds from now, at least one. *)
Definition session_deadline (expires : N) : N := ae_now E + 1000 * N.max ((expires - ae_now E) / 1000) 1.

Definition resolve_username_from_token (token : str) (s : Admin) : option str * Admin :=
  if bool_decide (api_static_token E = Some token) then (Some DEFAULT_ADMIN_USERNAME, s)
  else
    let signed :=
      secret ← session_signing_secret E; verify_signed_session_token (ae_now E) secret token in
    match ad_sessions s with
    | None => (signed, s)
    | Some m =>
      let '(known, m) := session_username token m in
      let s := set_sessions (Some m) s in
      match known with
      | Some u => (Some u, s)
      | None =>
        match ad_db s with
        | None => (signed, s)
        | Some d =>
          let '(r, d') := get_session (ae_now E) token d in
          let s := set_db (Some d') s in
          match r with
          | Ok (Some (u, expires)) =>
            (Some u, set_sessions (Some (<[token := mkSessionEntry u (session_deadline expires)]> m)) s)
          | _ => (signed, s)
          end
        end
      end
    end.

Definition resolve_username (header : str -> option str) (s : Admin) : option str * Admin :=
  match extract_bearer header with Some token => resolve_username_from_token token s | None => (None, s) end.

Definition is_authorized (header : str -> option str) (s : Admin) : bool * Admin :=
  let '(u, s) := resolve_username header s in (is_some u, s).

Definition is_token_authorized (token : option str) (s : Admin) : bool * Admin :=
  if negb (ae_auth_required E) then (true, s)
  else
    match opt_filter (fun t => negb (is_empty t)) (trim <$> token) with
    | None => (false, s)
    | Some t => let '(u, s) := resolve_username_from_token t s in (is_some u, s)
    end.

(** [Ok] is [next.run(req)]. *)
Definition require_auth_middleware (header : str -> option str) : Api unit := fun s =>
  if negb (ae_auth_required E) then (Ok tt, s)
  else
    let '(ok, s) := is_authorized header s in
    (if ok then Ok tt else Err (mkApiError 401 []), s).

(** ** Logging in *)

Definition client_auth_context (header : str -> option str) (peer : IpAddr) : str * str :=
  let socket_ip := show_ip peer in
  (default socket_ip (resolve_client_ip (Some socket_ip) (header "x-forwarded-for") (header "x-real-ip")),
   default [] (header "user-agent")).

Definition notify_auth (kind : AuthEventKind) (username : str) (header : str -> option str) (peer : IpAddr) : Api unit :=
  api_modify (fun s =>
    match ad_db s with
    | None => s
    | Some _ => let '(ip, ua) := client_auth_context header peer in add_event (mkAuthEvent kind username ip ua) s
    end).

(** Whether the password is the user's; an unknown user has answered already. *)
Definition check_password (username password : str) (header : str -> option str) (peer : IpAddr) : Api bool := fun s =>
  match ad_db s with
  | Some _ =>
    (h ← db_call (get_user_password_hash username);
     match h with
     | None =>
       _ ← notify_auth LoginFailure username header peer;
       api_fail 401 "invalid username or password"
     | Some h => mret (bcrypt_verify password h)
     end) s
  | None =>
    (Ok (match ae_env_password E with
         | Some expected => (username =s DEFAULT_ADMIN_USERNAME) && (password =s expected)
         | None => false
         end), s)
  end.

Definition new_token (username : str) (ttl_secs : N) : str :=
  default (ae_uuid E) (secret ← session_signing_secret E; mint_signed_session_token (ae_now E) secret username ttl_secs).

Definition auth_login (username password : str) (header : str -> option str) (peer : IpAddr) : Api (str * str * N) :=
  if negb (ae_auth_required E) then mret ([], username, 0)
  else
    sessions ← api_get ad_sessions;
    match sessions with
    | None => api_fail 503 "login not configured"
    | Some _ =>
      let username := trim username in
      if is_empty username then api_fail 400 "username required"
      else
        authenticated ← check_password username password header peer;
        if negb authenticated then
          _ ← notify_auth LoginFailure username header peer;
          api_fail 401 "invalid username or password"
        else
          let ttl_secs := session_ttl_secs E in
          let token := new_token username ttl_secs in
          let expires := ae_now E + 1000 * ttl_secs in
          _ ← api_modify (fun s => set_sessions (insert token (mkSessionEntry username expires) <$> ad_sessions s) s);
          _ ← api_modify (fun s => set_db ((fun d => (insert_session token username expires d).2) <$> ad_db s) s);
          _ ← notify_auth LoginSuccess username header peer;
          mret (token, username, ttl_secs)
    end.

Definition can_change_password (s : Admin) : bool := is_some (ad_db s) && negb (ae_viewer_mode E).

Definition auth_check (header : str -> option str) (s : Admin) : (bool * option str * bool) * Admin :=
  let '(u, s) := resolve_username header s in
  ((negb (ae_auth_required E) || is_some u, u, can_change_password s), s).

Definition api_resolve (header : str -> option str) : Api (option str) := fun s =>
  let '(u, s) := resolve_username header s in (Ok u, s).

Definition auth_change_password (current new : str) (header : str -> option str) (peer : IpAddr) : Api unit :=
  ok ← api_get can_change_password;
  if negb ok then api_fail 403 "password change is only available in proxy mode with local users"
  else
    u ← api_resolve header;
    match u with
    | None => api_fail 401 "not authenticated"
    | Some username =>
      let new := trim new in
      if (length new <? 6)%nat then api_fail 400 "new password must be at least 6 characters"
      else if new =s current then api_fail 400 "new password must be different from the current password"
      else
        h ← db_call (get_user_password_hash username);
        match h with
        | None => api_fail 403 "password change is only available for local database users"
        | Some h =>
          if negb (bcrypt_verify current h) then api_fail 401 "current password is incorrect"
          else
            updated ← db_call (update_user_password username new);
            if negb updated then api_fail 404 "user not found"
            else notify_auth PasswordChange username header peer
        end
    end.

(** At start-up: the sessions of the database, before the server listens. *)
Definition load_sessions_from_db : Api unit :=
  rows ← db_call (load_active_sessions (ae_now E));
  api_modify (fun s => set_sessions
    ((fun m => foldl (fun m (e : str * (str * N)) => <[e.1 := mkSessionEntry e.2.1 (session_deadline e.2.2)]> m) m rows)
       <$> ad_sessions s) s).

(** [valid] minutes of a token for the routes with that JWT secret. *)
Definition issue_route_jwt (secret owner : str) (valid : N) : Api str :=
  r ← api_get ad_router;
  if is_empty (trim secret) || negb (accepts_jwt_secret iter_edge (table r) secret) then api_fail 401 []
  else mret (issue_jwt (ae_now E / 1000) secret (if is_empty owner then bs "pertisk" else owner) valid).

(** ** The running configuration *)

Definition n_routes (r : Router) : str := show_N (N.of_nat (route_count iter_routes (table r))).

(** Its error is only logged by every caller. *)
Definition load_db_certs_into_store : Api bool := fun s =>
  match db_call (get_all_certificates_for_store scan) s with
  | (Ok rows, s) => let '(ok, c) := insert_rows (ae_io E) (ae_certs_dir E) rows (ad_certs s) in (Ok ok, set_certs c s)
  | (Err _, s) => (Ok false, s)
  end.

(** After the router has the configuration: the stages common to both callers. *)
Definition install_config (c : Config) : Api unit :=
  _ ← api_modify (fun s => set_certs (set_expected_from_config c (ad_certs s)) s);
  _ ← load_db_certs_into_store;
  _ ← api_modify (fun s => set_log_enabled (proxy_log c) (set_config c s));
  api_modify (fun s => if ae_acme E then add_sweep c s else s).

(** An [Err] response carries the text with status 400. *)
Definition activate_proxy_config (c : Config) : Api unit := fun s =>
  match apply_config to_lowercase url_parse (ad_router s) c with
  | (Err e, _) => (Err (mkApiError 400 (apply_text e)), s)
  | (Ok _, r) =>
    let s := set_router r s in
    match reload_from_configs (ae_io E) (cfg_tls c) (ad_certs s) with
    | (Err e, certs) => (Err (mkApiError 400 (store_text e)), set_certs certs s)
    | (Ok _, certs) => install_config c (set_certs certs s)
    end
  end.

Definition persist_proxy_config (c : Config) : Api unit :=
  _ ← db_call (save_proxy_config c);
  activate_proxy_config c.

Definition clear_expiry (t : TlsConfig) : TlsConfig := mkTlsConfig (tls_hosts t) (tls_source t) None.

Definition with_tls (c : Config) (tls : list TlsConfig) : Config :=
  mkConfig (http_addr c) (https_addr c) (http3_addr c) (ProxyConfig.management_addr c) (cfg_backends c) (cfg_sites c)
    (access_lists c) (waf_policies c) tls (cfg_security_headers c) (proxy_log c) (acme_email c) (cfg_http3 c)
    (cfg_tls_grade c) (cfg_cache_size_mb c) (cfg_cache_ttl_secs c) (cfg_consul c) (cfg_jwt_secret c).

Definition stored_form (c : Config) : Config := with_tls c (normalize_tls_config (clear_expiry <$> cfg_tls c)).

Definition put_config (body : Config) : Api str :=
  if ae_viewer_mode E then api_fail 403 "config is read-only in ingress mode; manage via Kubernetes"
  else
    let body := stored_form body in
    _ ← require_db;
    _ ← persist_proxy_config body;
    r ← api_get ad_router;
    _ ← log_reload (bs "config saved (" ++ show_N (N.of_nat (length (cfg_sites body))) ++ bs " sites, " ++ n_routes r ++ bs " routes)");
    mret (n_routes r).

Definition api_apply (c : Config) : Api unit := fun s =>
  match apply_config to_lowercase url_parse (ad_router s) c with
  | (Err e, _) => (Err (mkApiError 500 (apply_text e)), s)
  | (Ok _, r) => (Ok tt, set_router r s)
  end.

Definition reload_config : Api str :=
  _ ← require_db;
  stored ← db_call get_proxy_config;
  let c := default config_default stored in
  _ ← api_apply c;
  _ ← api_modify (fun s => set_certs (reload_from_configs (ae_io E) (cfg_tls c) (ad_certs s)).2 s);
  _ ← install_config c;
  r ← api_get ad_router;
  _ ← log_reload (bs "config reloaded (" ++ show_N (N.of_nat (length (cfg_sites c))) ++ bs " sites, " ++ n_routes r ++ bs " routes)");
  mret (n_routes r).

(** ** Certificates *)

Definition tls_hosts_sorted (hosts : list str) : list str :=
  sort_by str_leb (filter (fun h => negb (is_empty h)) (trim <$> hosts)).

(** Replace the source of the first entry that satisfies [p]. *)
Fixpoint retarget (p : TlsConfig -> bool) (src : TlsSource) (l : list TlsConfig) : option (list TlsConfig) :=
  match l with
  | [] => None
  | t :: rest =>
    if p t then Some (mkTlsConfig (tls_hosts t) src (expires_at t) :: rest) else (t ::.) <$> retarget p src rest
  end.

Definition sync_uploaded_cert_tls (c : Config) (hosts : list str) (id : str) : Config :=
  let src := File (path_push (ae_certs_dir E) (id ++ bs ".pem")) (path_push (ae_certs_dir E) (id ++ bs ".key")) in
  let uploaded := tls_hosts_sorted hosts in
  if is_empty uploaded then c
  else
    with_tls c (default (cfg_tls c ++ [mkTlsConfig uploaded src None])
      (or_else (retarget (fun t => bool_decide (tls_hosts_sorted (tls_hosts t) = uploaded)) src (cfg_tls c))
         (retarget (fun t => bool_decide (uploaded ⊆ tls_hosts_sorted (tls_hosts t))) src (cfg_tls c)))).

Definition certificates_upload (hosts : list str) (cert_pem key_pem : str) : Api str :=
  _ ← require_db;
  let hosts := filter (fun h => negb (is_empty h)) (trim <$> hosts) in
  if is_empty hosts then api_fail 400 "hosts required"
  else
    id ← db_call (add_certificate (ae_uuid E) hosts cert_pem key_pem "uploaded" (ae_now E));
    _ ← api_step (fun s =>
      match insert_pem_for_hosts (ae_io E) hosts cert_pem key_pem (ae_certs_dir E) id (ad_certs s) with
      | (Ok _, c) => (Ok tt, set_certs c s)
      | (Err e, c) => (Err (mkApiError 500 (store_text e)), set_certs c s)
      end);
    c ← api_get ad_config;
    let c := sync_uploaded_cert_tls c hosts id in
    _ ← db_call (save_proxy_config c);
    _ ← api_modify (set_config c);
    mret id.

Definition certificates_list : Api (list CertificateRow) := fun s =>
  match ad_db s with None => (Ok [], s) | Some _ => db_call (list_certificates scan) s end.

(** The two files of the certificate are removed too. *)
Definition certificates_delete (id : str) : Api unit :=
  _ ← require_db;
  rows ← db_call (list_certificates scan);
  match List.find (fun r => row_id r =s id) rows with
  | None => api_fail 404 "not found"
  | Some row =>
    deleted ← db_call (delete_certificate id);
    if negb deleted then api_fail 404 "not found"
    else api_modify (fun s => set_certs (remove_for_hosts (row_hosts row) (ad_certs s)) s)
  end.

(** ** DNS providers *)

Definition dns_providers_list : Api (list DnsProviderRow) := fun s =>
  match ad_db s with None => (Ok [], s) | Some _ => db_call (list_dns_providers scan_dns) s end.

Definition dns_providers_create (name provider_type : str) (credentials : option (gmap str str)) : Api str :=
  _ ← require_db; db_call (create_dns_provider (ae_uuid E) name provider_type credentials (ae_now E)).

Definition dns_providers_get (id : str) : Api DnsProviderRow :=
  _ ← require_db;
  r ← db_call (get_dns_provider id);
  match r with Some row => mret row | None => api_fail 404 "not found" end.

Definition found (m : Api bool) : Api unit := b ← m; if b : bool then mret tt else api_fail 404 "not found".

Definition dns_providers_put (id name provider_type : str) (credentials : option (gmap str str)) : Api unit :=
  _ ← require_db; found (db_call (put_dns_provider id name provider_type credentials)).

Definition dns_providers_delete (id : str) : Api unit := _ ← require_db; found (db_call (delete_dns_provider id)).

(** ** The rest of the site *)

Inductive Spa : Type :=
| SpaNotFound (msg : str)
| SpaRedirect (location : str)
| SpaStub
| SpaFile (path mime content : str).

Definition mime_guess (path : str) : str :=
  match path_extension path with
  | Some ext =>
    if ext =s "html" then bs "text/html; charset=utf-8" else if ext =s "js" then bs "application/javascript"
    else if ext =s "css" then bs "text/css" else if ext =s "svg" then bs "image/svg+xml"
    else if ext =s "json" then bs "application/json" else if ext =s "png" then bs "image/png"
    else if ext =s "woff2" then bs "font/woff2" else bs "application/octet-stream"
  | None => bs "application/octet-stream"
  end.

Definition admin_spa_fallback (path : str) (query : option str) : Spa :=
  if (path =s "/api") || starts_with "/api/" path then SpaNotFound (bs "API route not found: " ++ path)
  else
    match ae_dev_origin E with
    | Some origin => SpaRedirect (origin ++ path ++ from_option (fun q => bs "?" ++ q) [] query)
    | None =>
      let index := path_push (ae_admin_dist E) "index.html" in
      if negb (ae_is_file E index) then SpaStub
      else
        let rel := trim_start_matches is_slash path in
        let file :=
          if is_empty rel then index
          else let candidate := path_push (ae_admin_dist E) rel in if ae_is_file E candidate then candidate else index in
        match ae_read_file E file with
        | Some content => SpaFile file (mime_guess file) content
        | None => SpaNotFound []
        end
    end.

(** ** Routing

    A route is its methods and path; [None] stands for a parameter, which matches one
    non-empty segment.  The rules are axum's: a literal route wins over one with a
    parameter, [get] takes HEAD too, and a method the route does not have is answered
    405 without a handler. *)
Inductive Method : Type := GET | HEAD | POST | PUT | DELETE | OPTIONS | OtherMethod.

#[export] Instance method_eq_dec : EqDecision Method.
Proof. solve_decision. Defined.

Record ApiRoute := mkApiRoute { ar_methods : list Method; ar_path : list (option str) }.

Definition lit (p : str) : list (option str) := Some <$> split_on "/" p.
Definition on (ms : list Method) (p : str) : ApiRoute := mkApiRoute ms (lit p).
Definition on1 (ms : list Method) (p : str) : ApiRoute := mkApiRoute ms (lit p ++ [None]).
Definition on2 (ms : list Method) (p : str) : ApiRoute := mkApiRoute ms (lit p ++ [None; None]).

Definition public_routes : list ApiRoute :=
  [on [GET] "/api/health"; on [GET] "/api/version"; on [GET] "/api/auth/config"; on [POST] "/api/auth/login";
   on [POST] "/api/jwt"; on [GET] "/api/auth/check"; on [GET] "/api/ws"; on [GET] "/api/live"; on [GET] "/live";
   on [GET] "/ready"; on [GET] "/healthz"; on [GET] "/readyz"; on1 [GET] "/.well-known/acme-challenge"].

Definition protected_routes (ingress : bool) : list ApiRoute :=
  [on [GET] "/api/management"; on [GET] "/api/metrics"; on [GET] "/api/tunnel/status"; on [GET] "/api/logs";
   on [GET; PUT] "/api/config"; on [GET; PUT] "/api/runtime-env"; on [POST] "/api/reload"; on [GET] "/api/tls";
   on [GET] "/api/routes"; on [POST] "/api/auth/change-password"; on [GET; POST] "/api/certificates";
   on1 [DELETE] "/api/certificates"; on [GET; POST] "/api/dns-providers"; on [GET] "/api/dns-providers/supported";
   on1 [GET; PUT; DELETE] "/api/dns-providers"; on [GET; POST] "/api/access-lists"; on1 [GET; PUT; DELETE] "/api/access-lists";
   on [GET; POST] "/api/waf-policies"; on1 [GET; PUT; DELETE] "/api/waf-policies"; on [GET] "/api/backup/export";
   on [POST] "/api/backup/restore"; on [GET; PUT] "/api/backup/s3"; on [POST] "/api/backup/s3/test";
   on [POST] "/api/backup/export-s3"; on [GET; PUT] "/api/notifications/smtp"; on [POST] "/api/notifications/smtp/test";
   on [GET] "/api/notifications/smtp/preview"]
  ++ (if ingress then
        [on [GET] "/api/kubernetes/namespaces"; on [GET] "/api/kubernetes/pods"; on [GET] "/api/kubernetes/deployments";
         on [GET] "/api/kubernetes/services"; on [GET] "/api/kubernetes/configmaps"; on [GET] "/api/kubernetes/secrets";
         on [GET] "/api/kubernetes/tls-secrets"; on [GET; POST] "/api/kubernetes/ingresses";
         on2 [GET; PUT; DELETE] "/api/kubernetes/ingresses"; on [POST] "/api/kubernetes/gateway-sites";
         on2 [GET; PUT; DELETE] "/api/kubernetes/gateway-sites"; on [GET; POST] "/api/kubernetes/gateways";
         on2 [GET; PUT; DELETE] "/api/kubernetes/gateways"; on [GET] "/api/kubernetes/httproutes"; on [GET] "/api/kubernetes/nodes";
         on [GET] "/api/kubernetes/events"; on [GET] "/api/kubernetes/cluster-summary"]
      else []).

Fixpoint segments_match (pat : list (option str)) (segs : list str) : bool :=
  match pat, segs with
  | [], [] => true
  | Some l :: pat, x :: segs => (x =s l) && segments_match pat segs
  | None :: pat, x :: segs => negb (is_empty x) && segments_match pat segs
  | _, _ => false
  end.

Definition route_matches (path : str) (r : ApiRoute) : bool := segments_match (ar_path r) (split_on "/" path).

Definition is_literal (r : ApiRoute) : bool := forallb is_some (ar_path r).

(** The route of a path. *)
Definition route_for (routes : list ApiRoute) (path : str) : option ApiRoute :=
  let matching := List.filter (route_matches path) routes in
  or_else (head (List.filter is_literal matching)) (head matching).

Definition allows (r : ApiRoute) (m : Method) : bool :=
  bool_decide (m ∈ ar_methods r) || bool_decide (m = HEAD) && bool_decide (GET ∈ ar_methods r).

(** Where a request goes: a handler of a public route, a handler behind the session
    check, that check's refusal, 405, the CORS layer, which answers every OPTIONS
    request itself, or the fallback. *)
Inductive Dispatch : Type :=
| ToPublic (r : ApiRoute) | ToProtected (r : ApiRoute) | Refused | MethodNotAllowed | Preflight | ToFallback.

(** The check is a layer around the protected routes, the 405 answer included. *)
Definition dispatch (ingress : bool) (m : Method) (path : str) (header : str -> option str) (s : Admin) : Dispatch * Admin :=
  if bool_decide (m = OPTIONS) then (Preflight, s)
  else
    match route_for public_routes path with
    | Some r => (if allows r m then ToPublic r else MethodNotAllowed, s)
    | None =>
      match route_for (protected_routes ingress) path with
      | Some r =>
        match require_auth_middleware header s with
        | (Ok _, s) => (if allows r m then ToProtected r else MethodNotAllowed, s)
        | (Err _, s) => (Refused, s)
        end
      | None => (ToFallback, s)
      end
    end.

Definition acme_http01_challenge (token : str) (s : Admin) : option str := http01_get token (ad_http01 s).

(** The entries of [GET /api/logs]: never single requests, by type and host. *)
Definition has_domain (e : ProxyLogEntry) : bool := is_some (le_host e).

Definition log_host_matches (host : str) (e : ProxyLogEntry) : bool :=
  match le_host e with
  | None => false
  | Some h => let h := to_lowercase (trim h) in (h =s host) || ends_with (bs "." ++ host) h
  end.

Definition build_logs_entries (log_type host : option str) (s : Admin) : list ProxyLogEntry :=
  let entries := recent 500 (ad_log s) in
  let entries := filter (fun e => le_type e <> LRequest) entries in
  let entries := filter (fun e => ui_log_enabled (ae_min_level E) (le_level e) = true) entries in
  let entries :=
    match log_type with
    | Some t =>
      if t =s "system" then filter (fun e => is_system e = true) entries
      else if (t =s "proxy") || (t =s "domain") || (t =s "http") then filter (fun e => has_domain e = true) entries
      else entries
    | None => entries
    end in
  let entries :=
    match host with
    | Some h =>
      let h := to_lowercase (trim h) in
      if is_empty h then entries else filter (fun e => log_host_matches h e = true) entries
    | None => entries
    end in
  if from_option (fun t => eq_ignore_ascii_case t "system") false log_type then dedupe_consecutive_system_logs entries else entries.

End api.
