(* ===== verification/AdminProps.v ===== *)
(** * What the management API guarantees

    Theorems about [Admin]: who gets past the session check and for how long, and
    what a change of the configuration does on every path. *)

From S2P Require Import Prelude RustStr Ip GeoIp Waf Bot Captcha Security Edge EdgeAuth ProxyConfig Router Forward Apply.
From S2P Require Import Telemetry CertStore Database Admin.

(** ** Signed session tokens *)

Section tokens.
Context `{Crypto}.

Lemma token_parts username exp sig : ("."%byte ∉ username) -> ("."%byte ∉ sig) ->
  split_on "." (bs "pp1." ++ username ++ bs "." ++ show_Z exp ++ bs "." ++ sig) = [bs "pp1"; username; show_Z exp; sig].
Proof.
  intros Hu Hs. set (l := [_; _; _; _]).
  replace (bs "pp1." ++ username ++ bs "." ++ show_Z exp ++ bs "." ++ sig) with (join ["."%byte] l).
  - apply split_join; [done..|]. repeat constructor; apply not_elem_is_byte; try done. by apply show_Z_no.
  - unfold l. rewrite !join_cons. cbn. done.
Qed.

Lemma session_sig_plain secret username exp :
  ("."%byte ∉ session_sig secret username exp) /\ trim (session_sig secret username exp) = session_sig secret username exp.
Proof.
  split; [by apply sign_no|]. apply trim_all_graphic. eapply Forall_impl; [apply hex_encode_digits|].
  intros b Hb. by apply lower_hex_plain.
Qed.

(** Two signatures are compared without regard to case; both are lower case. *)
Lemma hex_eq_ignore a b : eq_ignore_ascii_case (hex_encode a) (hex_encode b) = bool_decide (hex_encode a = hex_encode b).
Proof.
  unfold eq_ignore_ascii_case. apply bool_decide_ext.
  assert (Hl : forall x, to_ascii_lowercase (hex_encode x) = hex_encode x).
  { intros x. pose proof (hex_encode_digits x) as HF. induction HF as [|c l Hc _ IH]; [done|].
    unfold to_ascii_lowercase in *. cbn. f_equal; [|exact IH]. by destruct c. }
  by rewrite !Hl.
Qed.

(** A signed session token is accepted by every replica that has the secret,
    until it expires, and by no other.  For any user name without a dot a token can
    be minted; under a secret [secret'] it names that user exactly until the second
    of its expiry, and exactly when [secret'] gives the payload the same signature
    as the secret it was minted with. *)
Theorem session_token_roundtrip now now' secret secret' username ttl :
  username <> [] -> ("."%byte ∉ username) -> ttl < 2 ^ 62 -> now / 1000 < 2 ^ 62 ->
  exists token, mint_signed_session_token now secret username ttl = Some token /\
  verify_signed_session_token now' secret' token =
    (if (now' / 1000 <=? now / 1000 + ttl)
        && bool_decide (session_sig secret username (Z.of_N (now / 1000 + ttl)) =
                        session_sig secret' username (Z.of_N (now / 1000 + ttl)))
     then Some username else None).
Proof.
  intros Hne Hdot Httl Hnow. unfold mint_signed_session_token. generalize dependent (now / 1000). clear now. intros secs Hnow.
  set (exp := Z.of_N (secs + ttl)).
  assert (Hexp : as_i64 (Z.of_N secs + as_i64 (Z.of_N ttl)) = exp).
  { rewrite (as_i64_small (Z.of_N ttl)) by lia. rewrite as_i64_small by lia. unfold exp. lia. }
  exists (bs "pp1." ++ username ++ bs "." ++ show_Z exp ++ bs "." ++ session_sig secret username exp). split.
  - destruct (is_empty username) eqn:Ee; [by destruct username|].
    assert (contains_byte "." username = false) as -> by (by apply contains_byte_false). cbn [orb]. by rewrite Hexp.
  - destruct (session_sig_plain secret username exp) as [Hs Ht]. unfold verify_signed_session_token.
    rewrite token_parts by done. change (bs "pp1" =s "pp1") with true. cbn [negb orb].
    assert (is_empty username = false) as -> by (by destruct username).
    rewrite parse_show_Z by (unfold exp; lia). cbn [mbind option_bind]. rewrite Ht.
    replace (exp <? Z.of_N (now' / 1000))%Z with (negb (now' / 1000 <=? secs + ttl)).
    2: { unfold exp. destruct (now' / 1000 <=? secs + ttl) eqn:El; symmetry; [apply Z.ltb_ge|apply Z.ltb_lt].
         - apply N.leb_le in El. lia.
         - apply N.leb_gt in El. cbn. lia. }
    destruct (now' / 1000 <=? secs + ttl); [|done]. cbn [negb andb].
    unfold session_sig, sign. rewrite hex_eq_ignore. repeat case_bool_decide; congruence.
Qed.

End tokens.

(** ** Who gets past the session check *)

Section guard.
Context `{Crypto} `{Formats}.
Variable E : AdminEnv.

(** The four ways a bearer token names a user. *)
Inductive credential (s : Admin) (token : str) : str -> Prop :=
| cred_static : api_static_token E = Some token -> credential s token DEFAULT_ADMIN_USERNAME
| cred_memory m e : ad_sessions s = Some m -> m !! token = Some e -> ae_now E < se_expires_at e ->
    credential s token (se_username e)
| cred_stored m d u expires : ad_sessions s = Some m -> ad_db s = Some d ->
    (get_session (ae_now E) token d).1 = Ok (Some (u, expires)) -> credential s token u
| cred_signed secret u : session_signing_secret E = Some secret ->
    verify_signed_session_token (ae_now E) secret token = Some u -> credential s token u.

(** The session check changes nothing but the sessions in memory. *)
Definition same_but_sessions (s s' : Admin) : Prop :=
  ad_router s' = ad_router s /\ ad_certs s' = ad_certs s /\ ad_config s' = ad_config s /\ ad_http01 s' = ad_http01 s /\
  ad_log s' = ad_log s /\ ad_log_enabled s' = ad_log_enabled s /\ ad_sweeps s' = ad_sweeps s /\ ad_events s' = ad_events s /\
  db_tables <$> ad_db s' = db_tables <$> ad_db s.

Lemma db_read_tables {A} (f : Tables -> A) d : db_tables (db_read f d).2 = db_tables d.
Proof. unfold db_read, db_exec. by destruct (db_faults d) as [|[] ?]. Qed.

Lemma session_username_Some token m u m' : session_username E token m = (Some u, m') ->
  m' = m /\ exists e, m !! token = Some e /\ ae_now E < se_expires_at e /\ u = se_username e.
Proof.
  unfold session_username. destruct (m !! token) as [e|]; [|done].
  destruct (ae_now E <? se_expires_at e) eqn:El; [|done]. intros [= <- <-]. split; [done|].
  exists e. apply N.ltb_lt in El. done.
Qed.

Lemma session_username_None token m m' : session_username E token m = (None, m') ->
  forall e, m !! token = Some e -> ~ ae_now E < se_expires_at e.
Proof.
  unfold session_username. intros Hs e He. rewrite He in Hs.
  destruct (ae_now E <? se_expires_at e) eqn:El; [done|]. apply N.ltb_ge in El. lia.
Qed.

Lemma resolve_token_frame token s : same_but_sessions s (resolve_username_from_token E token s).2.
Proof.
  unfold resolve_username_from_token. case_bool_decide; [by split_and!|]. cbn zeta.
  destruct (ad_sessions s) as [m|]; [|by split_and!]. destruct (session_username E token m) as [[u|] m'].
  { by split_and!. }
  cbn [ad_db set_sessions]. destruct (ad_db s) as [d|] eqn:Ed; [|by split_and!; cbn; rewrite ?Ed].
  pose proof (db_read_tables (fun t => '(username, expires_at) ← t_sessions t !! token;
    if str_leb expires_at (to_rfc3339 (ae_now E)) then None else Some (username, default (ae_now E) (parse_rfc3339 expires_at))) d) as Ht.
  fold (get_session (ae_now E) token) in Ht.
  destruct (get_session (ae_now E) token d) as [[[[u x]|]|e] d'] eqn:Eg; cbn in Ht; split_and!; try done;
    cbn; rewrite Ed; cbn; by rewrite Ht.
Qed.

Lemma resolve_token_spec token s :
  is_some (resolve_username_from_token E token s).1 = true <-> exists u, credential s token u.
Proof.
  unfold resolve_username_from_token. case_bool_decide as Hst.
  { split; [|done]. intros _. eexists. by apply cred_static. }
  set (signed := secret ← session_signing_secret E; verify_signed_session_token (ae_now E) secret token). cbn zeta.
  assert (Hsig : is_some signed = true -> exists u, credential s token u).
  { unfold signed. destruct (session_signing_secret E) as [secret|] eqn:Es; [|done]. cbn.
    destruct (verify_signed_session_token _ _ _) as [u|] eqn:Ev; [|done]. intros _. exists u. by eapply cred_signed. }
  assert (Hsig' : forall secret u, session_signing_secret E = Some secret ->
    verify_signed_session_token (ae_now E) secret token = Some u -> is_some signed = true).
  { intros secret u Hs Hv. unfold signed. by rewrite Hs; cbn; rewrite Hv. }
  destruct (ad_sessions s) as [m|] eqn:Em.
  2: { split; [done|]. intros [u []]; try congruence. by eapply Hsig'. }
  destruct (session_username E token m) as [[u|] m'] eqn:Eu.
  { split; [|done]. intros _. apply session_username_Some in Eu as (_ & e & He & Hlt & ->). eexists. by eapply cred_memory. }
  pose proof (session_username_None _ _ _ Eu) as Hno. cbn [ad_db set_sessions].
  destruct (ad_db s) as [d|] eqn:Ed.
  2: { split; [done|]. intros [u Hc]. destruct Hc; try congruence; [|by eapply Hsig'].
       assert (m0 = m) as -> by congruence. by edestruct Hno. }
  destruct (get_session (ae_now E) token d) as [[[[u x]|]|e] d'] eqn:Eg; cbn [fst].
  1: { split; [|done]. intros _. eexists. eapply cred_stored; [done..|]. by rewrite Eg. }
  all: split; [done|]; intros [u Hc]; destruct Hc as [Hc|m0 e0 Hm He Hlt|m0 d0 u x Hm Hd Hg|secret u Hs Hv];
    [congruence| |assert (d0 = d) as -> by congruence; by rewrite Eg in Hg|by eapply Hsig'];
    assert (m0 = m) as -> by congruence; by edestruct Hno.
Qed.

(** The request carries something that proves a session. *)
Definition has_session (header : str -> option str) (s : Admin) : Prop :=
  exists token u, extract_bearer header = Some token /\ credential s token u.

Lemma auth_middleware_spec header s :
  ((require_auth_middleware E header s).1 = Ok tt <-> ae_auth_required E = false \/ has_session header s) /\
  same_but_sessions s (require_auth_middleware E header s).2.
Proof.
  unfold require_auth_middleware, is_authorized, resolve_username, has_session.
  destruct (ae_auth_required E); cbn [negb]; [|by split; [split; [by left|]|split_and!]].
  destruct (extract_bearer header) as [token|]; [|split; [naive_solver|by split_and!]].
  pose proof (resolve_token_spec token s) as Hspec. pose proof (resolve_token_frame token s) as Hf.
  destruct (resolve_username_from_token E token s) as [u s']. cbn [fst snd] in *.
  destruct (is_some u); (split; [|done]); split; [|done|done|naive_solver].
  intros _. right. destruct (proj1 Hspec eq_refl) as [u' Hu']. by exists token, u'.
Qed.

(** C12: What the session check guards.  A request reaches the handler of a protected
    route exactly when the route is the one of its path, no public route has that path,
    the route takes the request's method (HEAD where it takes GET; OPTIONS is answered
    by the CORS layer), and authentication is off or the bearer token is the API token,
    a session in memory or in the database that has not expired, or a signed token that
    verifies.  It is refused with 401 exactly when the path is a protected one,
    authentication is on and the token is none of these, also when the method is not the
    route's.  Whatever the outcome, the check itself changes nothing but the sessions
    in memory. *)
Theorem protected_iff ingress m path header s :
  let d := dispatch E ingress m path header s in
  let guarded r := m <> OPTIONS /\ route_for public_routes path = None /\ route_for (protected_routes ingress) path = Some r in
  (forall r, d.1 = ToProtected r <->
     guarded r /\ allows r m = true /\ (ae_auth_required E = false \/ has_session header s)) /\
  (d.1 = Refused <-> (exists r, guarded r) /\ ae_auth_required E = true /\ ~ has_session header s) /\
  same_but_sessions s d.2.
Proof.
  intros d guarded. unfold d, guarded, dispatch. case_bool_decide as Hm.
  { split_and!; try done; [naive_solver|]. split; [done|]. intros ((r & ? & _) & _). done. }
  destruct (route_for public_routes path) as [rp|].
  { destruct (allows rp m); split_and!; try done; try naive_solver. }
  destruct (route_for (protected_routes ingress) path) as [r|]; [|split_and!; try done; naive_solver].
  destruct (auth_middleware_spec header s) as [Hspec Hf].
  destruct (require_auth_middleware E header s) as [[[]|e] s']; cbn [fst snd] in *.
  - pose proof (proj1 Hspec eq_refl) as Hok. split_and!; [| |done].
    + intros r'. destruct (allows r m) eqn:Ea; split; try naive_solver. intros ((_ & _ & [= ->]) & Ha & _). congruence.
    + destruct (allows r m); (split; [done|]); intros (_ & Ha & Hn); destruct Hok; congruence.
  - assert (Hno : ~ (ae_auth_required E = false \/ has_session header s)) by (intros Hs; by apply Hspec in Hs).
    split_and!; [naive_solver| |done]. split; [|done]. intros _. split; [by exists r|].
    split; [destruct (ae_auth_required E); [done|]; exfalso; apply Hno; by left|]. intros Hs. apply Hno. by right.
Qed.

End guard.

(** ** How long a session lasts *)

Section sessions.
Context `{Crypto} `{Formats}.
Variable db_text : DbError -> str.

(** The sessions handed out: token, user and the moment they are to end. *)
Abbreviation Issued := (list (str * (str * N))).

(** Logins, requests with a token, and restarts of the process, each at a time of
    its own; the memory is empty after a restart. *)
Inductive session_step : Issued * Admin -> Issued * Admin -> Prop :=
| step_login E username password header peer iss s token u ttl s' :
    ae_auth_required E = true -> auth_login db_text E username password header peer s = (Ok (token, u, ttl), s') ->
    session_step (iss, s) ((token, (u, ae_now E + 1000 * ttl)) :: iss, s')
| step_refused E username password header peer iss s e s' :
    auth_login db_text E username password header peer s = (Err e, s') -> session_step (iss, s) (iss, s')
| step_request E token iss s : session_step (iss, s) (iss, (resolve_username_from_token E token s).2)
| step_restart E iss s : session_step (iss, s) (iss, (load_sessions_from_db db_text E (set_sessions (Some ∅) s)).2).

(** Every session was handed out, and ends at most a second late. *)
Definition sessions_ok (iss : Issued) (m : Sessions) : Prop :=
  map_Forall (fun token e => exists exp, (token, (se_username e, exp)) ∈ iss /\ se_expires_at e <= exp + 1000) m.
Definition rows_ok (iss : Issued) (t : Tables) : Prop :=
  map_Forall (fun token r => exists exp, (token, (r.1, exp)) ∈ iss /\ r.2 = to_rfc3339 exp) (t_sessions t).
Definition issued_ok (x : Issued * Admin) : Prop :=
  (forall m, ad_sessions x.2 = Some m -> sessions_ok x.1 m) /\ (forall d, ad_db x.2 = Some d -> rows_ok x.1 (db_tables d)).

Lemma sessions_ok_insert iss m token u exp dead :
  sessions_ok iss m -> (token, (u, exp)) ∈ iss -> dead <= exp + 1000 -> sessions_ok iss (<[token := mkSessionEntry u dead]> m).
Proof. intros Hm Hin Hd. apply map_Forall_insert_2; [|done]. by exists exp. Qed.

Lemma issued_weaken iss x : (forall m, sessions_ok iss m -> sessions_ok (x :: iss) m) /\
  (forall t, rows_ok iss t -> rows_ok (x :: iss) t).
Proof.
  split; intros y Hy k v Hk; destruct (Hy k v Hk) as (exp & Hin & Hr); exists exp; (split; [by right|done]).
Qed.

Lemma deadline_bound E expires : ae_now E < expires -> session_deadline E expires <= expires + 1000.
Proof.
  intros Hlt. unfold session_deadline. pose proof (N.Div0.mul_div_le (expires - ae_now E) 1000).
  destruct (N.max_spec ((expires - ae_now E) / 1000) 1) as [[_ ->]|[_ ->]]; lia.
Qed.

(** A stored session that the database returns has not expired. *)
Lemma active_row iss t E token u txt : rows_ok iss t -> t_sessions t !! token = Some (u, txt) ->
  str_leb txt (to_rfc3339 (ae_now E)) = false ->
  exists exp, (token, (u, exp)) ∈ iss /\ default (ae_now E) (parse_rfc3339 txt) = exp /\ ae_now E < exp.
Proof.
  intros Hr Hl Ht. destruct (Hr _ _ Hl) as (exp & Hin & Htxt). cbn in *. subst txt.
  rewrite rfc3339_order in Ht. apply N.leb_gt in Ht. exists exp. by rewrite rfc3339_parse.
Qed.

Lemma get_session_ok iss d E token u expires : rows_ok iss (db_tables d) ->
  (get_session (ae_now E) token d).1 = Ok (Some (u, expires)) -> (token, (u, expires)) ∈ iss /\ ae_now E < expires.
Proof.
  intros Hr. unfold get_session, db_read, db_exec.
  assert (Hx : forall t, rows_ok iss t -> ('(username, expires_at) ← t_sessions t !! token;
     if str_leb expires_at (to_rfc3339 (ae_now E)) then None else Some (username, default (ae_now E) (parse_rfc3339 expires_at)))
     = Some (u, expires) -> (token, (u, expires)) ∈ iss /\ ae_now E < expires).
  { intros t Ht. destruct (t_sessions t !! token) as [[u' txt]|] eqn:El; [|done]. cbn.
    destruct (str_leb txt _) eqn:Es; [done|]. intros [= <- <-].
    destruct (active_row _ _ _ _ _ _ Ht El Es) as (exp & Hin & <- & Hlt). done. }
  destruct (db_faults d) as [|[] rest]; cbn; [|done|]; intros [= Hs]; by apply (Hx _ Hr).
Qed.

Lemma request_ok E token iss s : issued_ok (iss, s) -> issued_ok (iss, (resolve_username_from_token E token s).2).
Proof.
  intros [Hm Hd]. cbn in Hm, Hd. pose proof (resolve_token_frame E token s) as (_ & _ & _ & _ & _ & _ & _ & _ & Hfr).
  split; cbn.
  2: { intros d' Hd'. rewrite Hd' in Hfr. destruct (ad_db s) as [d|]; [|done]. injection Hfr as ->. by apply Hd. }
  clear Hfr. unfold resolve_username_from_token. case_bool_decide; [done|]. cbn zeta.
  destruct (ad_sessions s) as [m|] eqn:Em; [|by cbn; rewrite Em].

  assert (Hdel : sessions_ok iss (delete token m)) by (apply map_Forall_delete; by apply Hm).
  destruct (session_username E token m) as [u m'] eqn:Eu.
  assert (Hm' : sessions_ok iss m').
  { unfold session_username in Eu. destruct (m !! token); [|injection Eu as _ <-; by apply Hm].
    destruct (_ <? _); injection Eu as _ <-; [by apply Hm|done]. }
  destruct u as [u|]; [by intros ? [= <-]|]. cbn [ad_db set_sessions].
  destruct (ad_db s) as [d|] eqn:Ed; [|by intros ? [= <-]].
  pose proof (get_session_ok iss d E token) as Hg. destruct (get_session (ae_now E) token d) as [[[[u x]|]|e] d'];
    [|by intros ? [= <-]..]. cbn. intros m2 [= <-].
  destruct (Hg u x (Hd _ eq_refl) eq_refl) as [Hin Hlt]. eapply sessions_ok_insert; [done..|]. by apply deadline_bound.
Qed.

(** A database read inside a handler leaves sessions and tables alone. *)
Lemma db_call_read_ok {A} (f : Tables -> A) s iss : issued_ok (iss, s) -> issued_ok (iss, (db_call db_text (db_read f) s).2).
Proof.
  intros [Hm Hd]. unfold db_call. destruct (ad_db s) as [d|] eqn:Ed; [|by split].
  pose proof (db_read_tables f d) as Ht. destruct (db_read f d) as [r d']. cbn in *. split; cbn; [done|].
  intros ? [= <-]. rewrite Ht. by apply Hd.
Qed.

Lemma notify_ok kind u header peer s iss : issued_ok (iss, s) -> issued_ok (iss, (notify_auth kind u header peer s).2).
Proof.
  intros [Hm Hd]. unfold notify_auth, api_modify. cbn. destruct (ad_db s) as [d|] eqn:Ed; cbn; [|by split; cbn; rewrite ?Ed].
  destruct (client_auth_context header peer). split; cbn; [done|]. rewrite Ed. intros ? [= <-]. by apply Hd.
Qed.

Lemma check_password_ok E username password header peer s iss :
  issued_ok (iss, s) -> issued_ok (iss, (check_password db_text E username password header peer s).2).
Proof.
  intros Hs. unfold check_password. destruct (ad_db s) eqn:Ed; [|done].
  unfold mbind, api_bind. pose proof (db_call_read_ok (fun t => t_users t !! username) s iss Hs) as Hr.
  unfold get_user_password_hash. destruct (db_call db_text _ s) as [[[h|]|e] s1]; [done| |done]. cbn in Hr.
  pose proof (notify_ok LoginFailure username header peer s1 iss Hr) as Hn.
  by destruct (notify_auth LoginFailure username header peer s1) as [[[]|e] s2].
Qed.

Lemma insert_session_ok iss t token u exp f : rows_ok iss t -> (token, (u, exp)) ∈ iss ->
  rows_ok iss (db_tables (insert_session token u exp (mkDbState t f)).2).
Proof.
  intros Ht Hin. unfold insert_session, db_write, db_exec. cbn. destruct f as [|[] f]; cbn; [|done|];
    (apply map_Forall_insert_2; [by exists exp|done]).
Qed.

(** A login that succeeds. *)
Lemma login_ok E username password header peer iss s token u ttl s' :
  issued_ok (iss, s) -> ae_auth_required E = true ->
  auth_login db_text E username password header peer s = (Ok (token, u, ttl), s') ->
  issued_ok ((token, (u, ae_now E + 1000 * ttl)) :: iss, s').
Proof.
  intros Hs Ha. unfold auth_login. rewrite Ha. cbn [negb]. unfold mbind, api_bind, api_get at 1. cbv beta iota.
  destruct (ad_sessions s) as [m|] eqn:Em; [|done]. destruct (is_empty (trim username)); [done|].
  pose proof (check_password_ok E (trim username) password header peer s iss Hs) as Hc.
  destruct (check_password db_text E (trim username) password header peer s) as [[ok|e] s1]; [|done]. cbn in Hc.
  destruct ok; cbn [negb]; [|by unfold notify_auth, api_modify]. unfold api_modify. cbv beta iota zeta.
  unfold notify_auth, api_modify. cbv beta iota zeta.
  destruct (client_auth_context header peer) as [ip ua]. intros [= <- <- <- <-].
  set (tok := new_token E _ _). set (exp := ae_now E + 1000 * session_ttl_secs E).
  destruct (issued_weaken iss (tok, (trim username, exp))) as [Hw Hw']. destruct Hc as [Hm Hd].
  assert (Hin : (tok, (trim username, exp)) ∈ (tok, (trim username, exp)) :: iss) by left.
  split; cbn.
  - intros m2. destruct (ad_sessions s1) as [m1|] eqn:Em1; cbn; destruct (ad_db s1); cbn; try done; intros [= <-];
      (eapply sessions_ok_insert; [by apply Hw, Hm|exact Hin|lia]).
  - intros d2. destruct (ad_db s1) as [[t f]|] eqn:Ed1; cbn; [|done]. intros [= <-].
    apply insert_session_ok; [|done]. apply Hw'. by apply (Hd _ Ed1).
Qed.

(** A login that fails. *)
Lemma refused_ok E username password header peer iss s e s' :
  issued_ok (iss, s) -> auth_login db_text E username password header peer s = (Err e, s') -> issued_ok (iss, s').
Proof.
  intros Hs. unfold auth_login. destruct (ae_auth_required E); cbn [negb]; [|done].
  unfold mbind, api_bind, api_get at 1. cbv beta iota.
  destruct (ad_sessions s) as [m|] eqn:Em; [|by intros [= _ <-]].
  destruct (is_empty (trim username)); [by intros [= _ <-]|].
  pose proof (check_password_ok E (trim username) password header peer s iss Hs) as Hc.
  destruct (check_password db_text E (trim username) password header peer s) as [[ok|e1] s1]; [|by intros [= _ <-]]. cbn in Hc.
  destruct ok; cbn [negb]; [done|].
  pose proof (notify_ok LoginFailure (trim username) header peer s1 iss Hc) as Hn.
  destruct (notify_auth LoginFailure (trim username) header peer s1) as [[[]|e2] s2]; by intros [= _ <-].
Qed.

Lemma restart_ok E iss s : issued_ok (iss, s) -> issued_ok (iss, (load_sessions_from_db db_text E (set_sessions (Some ∅) s)).2).
Proof.
  intros [Hm Hd]. unfold load_sessions_from_db, mbind, api_bind, db_call. cbn [ad_db set_sessions].
  destruct (ad_db s) as [d|] eqn:Ed; [|by split; cbn; [intros ? [= <-]; apply map_Forall_empty|rewrite Ed]].
  unfold load_active_sessions. set (f := fun t : Tables => _).
  pose proof (db_read_tables f d) as Ht.
  assert (Hrows : forall l d', db_read f d = (Ok l, d') -> l = f (db_tables d)).
  { unfold db_read, db_exec. intros l d'. destruct (db_faults d) as [|[] r]; intros [= <- _]; done. }
  destruct (db_read f d) as [[l|e] d'] eqn:Eq; cbn in Ht.
  - split; cbn.
    + intros ? [= <-]. rewrite (Hrows _ _ eq_refl). clear Hrows Eq. specialize (Hd _ Ed). cbn in Hd.
      assert (Hl : Forall (fun e : str * (str * N) => (e.1, (e.2.1, e.2.2)) ∈ iss /\ ae_now E < e.2.2) (f (db_tables d))).
      { apply Forall_forall. intros [tok [u x]] Hin. apply list_elem_of_omap in Hin as ([k [u' txt]] & Hk & Ho). cbn in Ho.
        apply elem_of_map_to_list in Hk. destruct (str_leb txt _) eqn:Es; [done|]. injection Ho as <- <- <-.
        destruct (active_row _ _ _ _ _ _ Hd Hk Es) as (exp & Hin & <- & Hlt). done. }
      assert (Hz : sessions_ok iss ∅) by apply map_Forall_empty. revert Hz. generalize (∅ : Sessions).
      induction Hl as [|[tok [u x]] l' [Hin Hlt] _ IH]; intros m0 Hz; [done|]. cbn. apply IH.
      eapply sessions_ok_insert; [done..|]. by apply deadline_bound.
    + intros ? [= <-]. rewrite Ht. by apply (Hd _ Ed).
  - split; cbn; [intros ? [= <-]; apply map_Forall_empty|]. intros ? [= <-]. rewrite Ht. by apply (Hd _ Ed).
Qed.

Lemma sessions_reachable_ok x y : issued_ok x -> rtc session_step x y -> issued_ok y.
Proof.
  intros Hx Hr. induction Hr as [|a b c Hab _ IH]; [done|]. apply IH. destruct Hab.
  - by eapply login_ok.
  - by eapply refused_ok.
  - by apply request_ok.
  - by apply restart_ok.
Qed.

(** C13: No session outlives its login by more than its lifetime and a second.
    Start from empty session tables; after any sequence of logins, refused logins,
    requests and restarts, at any times, a token that is accepted as a session, from
    memory or from the database, was handed out by a login of that user, and the
    end announced then, plus one second, has not passed. *)
Theorem session_lifetime s0 iss s E token u :
  issued_ok ([], s0) -> rtc session_step ([], s0) (iss, s) ->
  credential E s token u -> api_static_token E <> Some token ->
  (forall secret, session_signing_secret E = Some secret -> verify_signed_session_token (ae_now E) secret token = None) ->
  exists exp, (token, (u, exp)) ∈ iss /\ ae_now E < exp + 1000.
Proof.
  intros Hz Hr Hc Hst Hsig. apply sessions_reachable_ok in Hr; [|done]. destruct Hr as [Hm Hd]. cbn in Hm, Hd.
  destruct Hc as [Hc|m e Em He Hlt|m d u x Em Ed Hg|secret u Hs Hv].
  - done.
  - destruct (Hm _ Em _ _ He) as (exp & Hin & Hle). exists exp. split; [done|lia].
  - destruct (get_session_ok _ _ _ _ _ _ (Hd _ Ed) Hg) as [Hin Hlt]. exists x. split; [done|lia].
  - apply Hsig in Hs. congruence.
Qed.

End sessions.

(** ** Changing the configuration *)

Section configuration.
Context `{Crypto} `{Formats}.
Variable scan : list CertRow -> list CertRow.
Variable to_lowercase : str -> str.
Variable url_parse : str -> option Url.
Variable iter_routes : gmap str (list Route) -> list (str * list Route).
Variable db_text : DbError -> str.
Variable apply_text : ApplyError -> str.
Variable store_text : StoreError -> str.

Abbreviation put_config := (put_config scan to_lowercase url_parse iter_routes db_text apply_text store_text).
Abbreviation reload_config := (reload_config scan to_lowercase url_parse iter_routes db_text apply_text).
Abbreviation table_of := (config_to_route_table to_lowercase url_parse).

(** [s'] runs the configuration [c], the rest but certificates and log as in [s]. *)
Record runs (c : Config) (s s' : Admin) : Prop := {
  runs_config : ad_config s' = c;
  runs_log : ad_log_enabled s' = proxy_log c;
  runs_sessions : ad_sessions s' = ad_sessions s;
  runs_tables : db_tables <$> ad_db s' = db_tables <$> ad_db s;
  runs_router : exists t, table_of c = Ok t /\ ad_router s' = router_replace_all (ad_router s) t (cfg_http3 c);
}.

(** Nothing of the running configuration has changed. *)
Definition unchanged (s s' : Admin) : Prop :=
  ad_config s' = ad_config s /\ ad_log_enabled s' = ad_log_enabled s /\ ad_sweeps s' = ad_sweeps s /\
  by_host (ad_certs s') = by_host (ad_certs s) /\ ad_sessions s' = ad_sessions s.

Lemma install_config_ok E c s : exists s', install_config scan db_text E c s = (Ok tt, s') /\
  ad_config s' = c /\ ad_log_enabled s' = proxy_log c /\ ad_sessions s' = ad_sessions s /\
  ad_router s' = ad_router s /\ db_tables <$> ad_db s' = db_tables <$> ad_db s.
Proof.
  unfold install_config, load_db_certs_into_store, db_call, mbind, api_bind, api_modify. cbv beta iota zeta. cbn [ad_db set_certs].
  destruct (ad_db s) as [d|] eqn:Ed.
  - unfold get_all_certificates_for_store. set (f := fun t : Tables => _). pose proof (db_read_tables f d) as Ht.
    destruct (db_read f d) as [[rows|e] d']; cbn in Ht.
    + destruct (insert_rows _ _ _ _) as [ok certs]. eexists. split; [reflexivity|].
      destruct (ae_acme E); cbn; rewrite ?Ed; cbn; by rewrite ?Ht.
    + eexists. split; [reflexivity|]. destruct (ae_acme E); cbn; rewrite ?Ed; cbn; by rewrite ?Ht.
  - eexists. split; [reflexivity|]. destruct (ae_acme E); cbn; by rewrite ?Ed.
Qed.

Lemma reload_error io tls st e certs : reload_from_configs io tls st = (Err e, certs) -> certs = st.
Proof. unfold reload_from_configs. destruct (load_entries _ _ _) as [[m d]|e']; [done|]. by intros [= _ <-]. Qed.

(** Activation: everything, or nothing, or only the router. *)
Lemma activate_outcome E c s :
  match activate_proxy_config scan to_lowercase url_parse db_text apply_text store_text E c s with
  | (Ok _, s') => runs c s s'
  | (Err _, s') =>
    unchanged s s' /\ ad_db s' = ad_db s /\
    match table_of c with
    | Err _ => ad_router s' = ad_router s
    | Ok t => ad_router s' = router_replace_all (ad_router s) t (cfg_http3 c) /\
              exists e, (reload_from_configs (ae_io E) (cfg_tls c) (ad_certs s)).1 = Err e
    end
  end.
Proof.
  unfold activate_proxy_config, apply_config. destruct (table_of c) as [t|e] eqn:Et; [|by split_and!].
  cbn [ad_certs set_router]. destruct (reload_from_configs _ _ _) as [[[]|e] certs] eqn:Er.
  - destruct (install_config_ok E c (set_certs certs (set_router (router_replace_all (ad_router s) t (cfg_http3 c)) s)))
      as (s' & -> & Hc & Hl & Hs & Hr & Hd).
    split; [done..|by cbn in Hs|by cbn in Hd|]. cbn in Hr. by exists t.
  - pose proof (reload_error _ _ _ _ _ Er) as ->. split_and!; [done..|]. by exists e.
Qed.

Lemma save_outcome c s d : ad_db s = Some d ->
  match db_call db_text (save_proxy_config c) s with
  | (Ok _, s') => exists d', s' = set_db (Some d') s /\ t_config (db_tables d') !! PROXY_CONFIG_KEY = Some (config_json c) /\
                             db_faults d' = tail (db_faults d)
  | (Err _, s') => exists d', s' = set_db (Some d') s
  end.
Proof.
  intros Hd. unfold db_call. rewrite Hd. unfold save_proxy_config, save_config_json, db_write, db_exec.
  destruct (db_faults d) as [|[] rest]; cbn; [|by eexists|];
    (eexists; split_and!; [done| |done]; cbn; by rewrite lookup_insert_eq).
Qed.

Lemma put_config_spec E body s d : ae_viewer_mode E = false -> ad_db s = Some d ->
  let c := stored_form body in
  match put_config E body s with
  | (Ok n, s') =>
    n = n_routes iter_routes (ad_router s') /\ ad_config s' = c /\ ad_log_enabled s' = proxy_log c /\
    (exists t, table_of c = Ok t /\ ad_router s' = router_replace_all (ad_router s) t (cfg_http3 c)) /\
    exists d', ad_db s' = Some d' /\ t_config (db_tables d') !! PROXY_CONFIG_KEY = Some (config_json c)
  | (Err _, s') =>
    unchanged s s' /\
    (ad_router s' = ad_router s \/
     exists t e d', table_of c = Ok t /\ ad_router s' = router_replace_all (ad_router s) t (cfg_http3 c) /\
       (reload_from_configs (ae_io E) (cfg_tls c) (ad_certs s)).1 = Err e /\
       ad_db s' = Some d' /\ t_config (db_tables d') !! PROXY_CONFIG_KEY = Some (config_json c))
  end.
Proof.
  intros Hv Hd c. unfold Admin.put_config. rewrite Hv. fold c. unfold mbind, api_bind, require_db. rewrite Hd. cbv beta iota.
  unfold persist_proxy_config, mbind, api_bind. pose proof (save_outcome c s d Hd) as Hsv.
  destruct (db_call db_text (save_proxy_config c) s) as [[[]|e] s1].
  2: { destruct Hsv as [d' ->]. split; [by split_and!|by left]. }
  destruct Hsv as (d1 & -> & Hst & _). pose proof (activate_outcome E c (set_db (Some d1) s)) as Ha.
  destruct (activate_proxy_config _ _ _ _ _ _ _ _ _) as [[[]|e] s2].
  - destruct Ha as [Hc Hl Hss Hdb (t & Ht & Hr)]. unfold log_reload, api_modify, api_get. cbn. cbn in Hdb, Hr.
    destruct (ad_db s2) as [d2|] eqn:Ed2; [|done]. injection Hdb as Hdb.
    split_and!; [done..|by exists t|]. exists d2. by rewrite Hdb.
  - destruct Ha as (Hu & Hdb & Hr). cbn [ad_router ad_certs set_db] in Hr. split; [done|]. destruct (table_of c) as [t|e']; [|by left]. right.
    destruct Hr as [Hr [e' He']]. exists t, e', d1. by split_and!.
Qed.

Definition refused_with {A} (r : result ApiError A) (status : N) : Prop := exists e, r = Err e /\ api_status e = status.

(** The next statement of the connection fails. *)
Definition write_fails (d : DbState) : bool := bool_decide (head (db_faults d) = Some true).

Lemma save_step c s d : ad_db s = Some d ->
  db_call db_text (save_proxy_config c) s =
  (if write_fails d then (Err (mkApiError 500 (db_text DbFailed)), set_db (Some (mkDbState (db_tables d) (tail (db_faults d)))) s)
   else (Ok tt, set_db (Some (mkDbState (upd_config (insert PROXY_CONFIG_KEY (config_json c)) (db_tables d)) (tail (db_faults d)))) s)).
Proof.
  intros Hd. unfold db_call. rewrite Hd. unfold save_proxy_config, save_config_json, db_write, db_exec, write_fails.
  by destruct (db_faults d) as [|[] rest].
Qed.

(** C14: What saving a configuration does, on every path.  In viewer mode (403) and
    without a database (503) nothing changes.  When the write fails (500), tables, router
    and everything that runs stay as they were.  Otherwise the submitted configuration,
    with its TLS list in normal form, is in the database from then on, nothing else in it
    changed, whatever comes after: if its route table cannot be built (400), the router and
    everything that runs stay as they were; if the table can be built and a certificate
    entry cannot be loaded (400), the new routes are live and the rest that runs is as it
    was; if both go well, the router has exactly its table, the configuration runs, and the
    answer is the number of its routes. *)
Theorem put_config_outcome E body s :
  let c := stored_form body in
  let '(r, s') := put_config E body s in
  if ae_viewer_mode E then refused_with r 403 /\ s' = s
  else
    match ad_db s with
    | None => refused_with r 503 /\ s' = s
    | Some d =>
      if write_fails d then
        refused_with r 500 /\ unchanged s s' /\ ad_router s' = ad_router s /\ db_tables <$> ad_db s' = Some (db_tables d)
      else
        db_tables <$> ad_db s' = Some (upd_config (insert PROXY_CONFIG_KEY (config_json c)) (db_tables d)) /\
        match table_of c, (reload_from_configs (ae_io E) (cfg_tls c) (ad_certs s)).1 with
        | Err _, _ => refused_with r 400 /\ unchanged s s' /\ ad_router s' = ad_router s
        | Ok t, Err _ => refused_with r 400 /\ unchanged s s' /\ ad_router s' = router_replace_all (ad_router s) t (cfg_http3 c)
        | Ok t, Ok _ =>
          r = Ok (n_routes iter_routes (ad_router s')) /\ ad_router s' = router_replace_all (ad_router s) t (cfg_http3 c) /\
          ad_config s' = c /\ ad_log_enabled s' = proxy_log c /\ ad_sessions s' = ad_sessions s
        end
    end.
Proof.
  intros c. unfold Admin.put_config. destruct (ae_viewer_mode E); [split; [by eexists|done]|]. fold c.
  unfold mbind, api_bind, require_db. destruct (ad_db s) as [d|] eqn:Ed; [|split; [by eexists|done]]. cbv beta iota.
  unfold persist_proxy_config, mbind, api_bind. rewrite (save_step c s d Ed).
  destruct (write_fails d); [split_and!; [by eexists|done..]|]. cbv beta iota. unfold activate_proxy_config, apply_config.
  destruct (table_of c) as [t|e]; [|by split; [|split; [eexists|]]]. cbn [ad_router ad_certs set_db set_router].
  destruct (reload_from_configs _ _ _) as [[[]|e] certs] eqn:Er; cbn [fst].
  - match goal with |- context [install_config _ _ _ _ ?st] => destruct (install_config_ok E c st) as (s' & -> & Hc & Hl & Hs & Hr & Ht) end.
    cbn in Hs, Hr, Ht |- *. split; [done|]. by rewrite Hr.
  - pose proof (reload_error _ _ _ _ _ Er) as ->. split; [done|]. split; [by eexists|]. done.
Qed.

(** A saved configuration survives a reload.  After a successful save, reloading
    from the database (with no database failure, the JSON text being readable)
    succeeds and leaves the router and the running configuration exactly as the save
    left them. *)
Theorem reload_after_put E E' body s d n s' : ae_viewer_mode E = false -> ad_db s = Some d ->
  put_config E body s = (Ok n, s') -> db_faults <$> ad_db s' = Some [] ->
  config_from_json (config_json (stored_form body)) = Some (stored_form body) ->
  exists s'', reload_config E' s' = (Ok n, s'') /\ ad_router s'' = ad_router s' /\ ad_config s'' = ad_config s'.
Proof.
  intros Hv Hd Hp Hf Hj. pose proof (put_config_spec E body s d Hv Hd) as Hs. cbn zeta in Hs. rewrite Hp in Hs.
  set (c := stored_form body) in *. destruct Hs as (-> & Hc & _ & (t & Ht & Hr) & d' & Hd' & Htx).
  rewrite Hd' in Hf. injection Hf as Hf. unfold Admin.reload_config, mbind, api_bind, require_db. rewrite Hd'. cbv beta iota.
  unfold db_call. rewrite Hd'. unfold get_proxy_config, mbind, db_bind, get_config_json, db_read, db_exec. rewrite Hf, Htx, Hj.
  cbn. unfold api_apply, apply_config. rewrite Ht. cbn [ad_router set_db set_router]. unfold api_modify. cbv beta iota.
  edestruct (install_config_ok E' c) as (s2 & -> & Hc2 & _ & _ & Hr2 & _). cbn. eexists. split; [|split].
  - f_equal. f_equal. rewrite Hr2. cbn. by rewrite Hr.
  - cbn. rewrite Hr2. cbn. by rewrite Hr.
  - cbn. congruence.
Qed.

End configuration.

(** ** Findings *)

Section findings.
Context `{Crypto} `{Formats}.
Variable db_text : DbError -> str.

(** Finding: the admin site serves files outside its directory.  Any request path
    outside [/api] is appended to the directory as it is, with its [..] segments, and
    needs no session: [GET /../../etc/passwd] reads that file. *)
Lemma spa_path_not_contained E path query content :
  ae_dev_origin E = None -> (path =s "/api") || starts_with "/api/" path = false ->
  ae_is_file E (path_push (ae_admin_dist E) "index.html") = true ->
  let rel := trim_start_matches is_slash path in
  let file := path_push (ae_admin_dist E) rel in
  rel <> [] -> ae_is_file E file = true -> ae_read_file E file = Some content ->
  admin_spa_fallback E path query = SpaFile file (mime_guess file) content.
Proof.
  intros Hd Ha Hi rel file Hr Hf Hc. unfold admin_spa_fallback. rewrite Ha, Hd, Hi. cbn [negb].
  fold rel. assert (is_empty rel = false) as -> by (by destruct rel). fold file. by rewrite Hf, Hc.
Qed.

(** Finding: a change of password ends no session: whoever knew the old password
    stays logged in. *)
Lemma password_change_keeps_sessions E current new header peer s s' :
  auth_change_password db_text E current new header peer s = (Ok tt, s') ->
  ad_sessions s' = ad_sessions (resolve_username E header s).2 /\
  (forall d', ad_db s' = Some d' -> exists d, ad_db s = Some d /\ t_sessions (db_tables d') = t_sessions (db_tables d)).
Proof.
  unfold auth_change_password, mbind, api_bind, api_get at 1. cbv beta iota.
  destruct (can_change_password E s); cbn [negb]; [|done]. unfold api_resolve.
  assert (Hfr : same_but_sessions s (resolve_username E header s).2).
  { unfold resolve_username. destruct (extract_bearer header); [apply resolve_token_frame|by split_and!]. }
  destruct (resolve_username E header s) as [[u|] s1]; [|done]. cbn [snd] in Hfr |- *.
  destruct Hfr as (_ & _ & _ & _ & _ & _ & _ & _ & Hdb).
  destruct (length (trim new) <? 6)%nat; [done|]. destruct (trim new =s current); [done|]. unfold db_call at 1.
  destruct (ad_db s1) as [d1|] eqn:Ed1; [|done]. unfold get_user_password_hash. set (f := fun t : Tables => _).
  pose proof (db_read_tables f d1) as Hf. destruct (db_read f d1) as [[[h|]|e] d2]; [|done..]. cbn in Hf.
  destruct (bcrypt_verify current h); cbn [negb]; [|done]. unfold db_call. cbn [ad_db set_db].
  assert (Hup : t_sessions (db_tables (update_user_password u (trim new) d2).2) = t_sessions (db_tables d2)).
  { unfold update_user_password. destruct (bcrypt_hash (trim new)); [|done]. unfold db_exec.
    destruct (db_faults d2) as [|[] r]; cbn; [|done|]; by destruct (is_some _). }
  destruct (update_user_password u (trim new) d2) as [[[]|e] d3]; [|done..]. cbn in Hup |- *.
  unfold notify_auth, api_modify. cbn [ad_db set_db]. destruct (client_auth_context header peer). intros [= <-]. cbn.
  split; [done|]. intros d' [= <-]. destruct (ad_db s) as [d|] eqn:Eds; [|done]. exists d. split; [done|].
  injection Hdb as Hdb. by rewrite Hup, Hf, Hdb.
Qed.

End findings.

(** ** A concrete server *)

(** Unary timestamps: they sort as texts the way they sort as numbers. *)
Definition unary (t : N) : str := replicate (N.to_nat t) "1"%byte.

Lemma unary_order a b : str_leb (unary a) (unary b) = (a <=? b).
Proof.
  unfold unary. assert (Hn : forall n m, str_leb (replicate n "1"%byte) (replicate m "1"%byte) = (n <=? m)%nat).
  { induction n as [|n IH]; intros [|m]; cbn; [done..|]. by rewrite IH. }
  rewrite Hn. apply eq_true_iff_eq. rewrite Nat.leb_le, N.leb_le. lia.
Qed.

(** Lists of texts: every byte is escaped, every text is terminated. *)
Definition texts (l : list str) : str := mjoin ((fun t => mjoin ((fun b => ["e"%byte; b]) <$> t) ++ ["t"%byte]) <$> l).
Fixpoint read_texts (cur : str) (s : str) : option (list str) :=
  match s with
  | [] => match cur with [] => Some [] | _ => None end
  | c :: s =>
    if is_byte "e" c then match s with b :: s => read_texts (cur ++ [b]) s | [] => None end
    else (cur ::.) <$> read_texts [] s
  end.

Lemma read_texts_app cur t s : read_texts cur (mjoin ((fun b => ["e"%byte; b]) <$> t) ++ s) = read_texts (cur ++ t) s.
Proof.
  revert cur. induction t as [|b t IH]; intros cur; [by rewrite app_nil_r|]. cbn. rewrite IH. by rewrite <- app_assoc.
Qed.

Lemma texts_parse l : read_texts [] (texts l) = Some l.
Proof.
  induction l as [|t l IH]; [done|].
  change (texts (t :: l)) with ((mjoin ((fun b => ["e"%byte; b]) <$> t) ++ ["t"%byte]) ++ texts l).
  rewrite <- app_assoc, read_texts_app.
  change (read_texts ([] ++ t) (["t"%byte] ++ texts l)) with ((t ::.) <$> read_texts [] (texts l)). by rewrite IH.
Qed.

Fixpoint pairs (l : list str) : list (str * str) := match l with k :: v :: l => (k, v) :: pairs l | _ => [] end.

Lemma pairs_flat (l : list (str * str)) : pairs (mjoin ((fun kv => [kv.1; kv.2]) <$> l)) = l.
Proof. induction l as [|[k v] l IH]; [done|]. cbn. by f_equal. Qed.

Definition creds_text (m : gmap str str) : str := texts (mjoin ((fun kv => [kv.1; kv.2]) <$> map_to_list m)).
Definition read_creds (s : str) : option (gmap str str) := (fun l => list_to_map (pairs l)) <$> read_texts [] s.

Lemma creds_parse m : read_creds (creds_text m) = Some m.
Proof. unfold read_creds, creds_text. rewrite texts_parse. cbn. by rewrite pairs_flat, list_to_map_to_list. Qed.

(** The JSON text of one configuration, [c0]. *)
Definition toy_formats (c0 : Config) : Formats :=
  Build_Formats unary (fun s => Some (N.of_nat (length s)))
    ltac:(intros t; unfold unary; rewrite length_replicate; f_equal; lia) unary_order
    texts (read_texts []) texts_parse creds_text read_creds creds_parse
    (fun _ => bs "{}") (fun s => if s =s "{}" then Some c0 else None)
    (fun p => Some (bs "$2b$" ++ p)) (fun p h => h =s bs "$2b$" ++ p)
    ltac:(intros p h [= <-]; apply str_eqb_refl) (fun _ => None).

Definition admin_env (now : N) (io : CertIo) : AdminEnv :=
  mkAdminEnv true (Some (bs "pw")) false "/certs" "/dist" None (fun _ => None) now "u1" io (fun _ => true) (fun p => Some p)
    false Info.

Definition file_io (ok : bool) : CertIo :=
  mkCertIo (fun _ _ => ok) (fun _ => true) (fun cert _ => cert =s "CERT") (fun _ => true) (fun _ => true).

Definition web_config (tls : list TlsConfig) : Config :=
  mkConfig default_http_addr default_https_addr None default_management_addr
    [mkCfgBackend "web" [mkUpstream "10.0.0.1:80" 1] RoundRobin None 0]
    [mkSite "app.io" [] "web" None None None None true true None None geoip_default security_default]
    [] [] tls ∅ true None http3_options_default Medium 0 60 None None.

Definition empty_tables : Tables :=
  mkTables {[bs "admin" := bs "$2b$secret"]} ∅ ∅ [] []
    (mkSmtpSettingsRow false [] 587 [] [] [] [] true [] false false false [])
    (mkS3SettingsRow false [] [] [] [] [] [] false []).
Definition admin_state : Admin :=
  mkAdmin router_new store_new config_default (Some ∅) (Some (mkDbState empty_tables [])) ∅ (log_new 10) true [] [].

Definition no_text {A} (_ : A) : str := [].
Definition toy (tls : list TlsConfig) : Formats := toy_formats (web_config tls).
Definition id_rows (l : list CertRow) : list CertRow := l.

Definition do_put (ok : bool) (tls : list TlsConfig) : result ApiError str * Admin :=
  @put_config (toy tls) id_rows to_ascii_lowercase no_url (fun m => map_to_list m) no_text no_text no_text
    (admin_env 0 (file_io ok)) (web_config tls) admin_state.

Lemma session_token_roundtrip_witness :
  exists token, @mint_signed_session_token toy_crypto 5000 "k" "admin" 60 = Some token /\
    @verify_signed_session_token toy_crypto 65999 "k" token = Some (bs "admin").
Proof.
  destruct (@session_token_roundtrip toy_crypto 5000 65999 "k" "k" "admin" 60) as (token & Hm & Hv);
    [discriminate|by apply (bool_decide_unpack _)|reflexivity|reflexivity|].
  exists token. split; [exact Hm|]. rewrite Hv. vm_compute. reflexivity.
Defined.

Definition bearer (token : str) : str -> option str := fun n => if n =s "authorization" then Some (bs "Bearer " ++ token) else None.

(** A session of the administrator that ends at time 90. *)
Definition logged_in : Admin := set_sessions (Some {[bs "tok" := mkSessionEntry "admin" 90]}) admin_state.

Lemma protected_iff_witness :
  (@dispatch toy_crypto (toy []) (admin_env 50 (file_io true)) false PUT "/api/config" (bearer "tok") logged_in).1 =
  ToProtected (on [GET; PUT] "/api/config").
Proof.
  apply (proj1 (@protected_iff toy_crypto (toy []) (admin_env 50 (file_io true)) false PUT "/api/config" (bearer "tok") logged_in)).
  split; [vm_compute; repeat split; discriminate|]. split; [vm_compute; reflexivity|]. right. exists (bs "tok"), (bs "admin").
  split; [vm_compute; reflexivity|]. eapply (cred_memory _ _ _ _ (mkSessionEntry "admin" 90)); reflexivity.
Defined.

Definition one_second (name : str) : option str := if name =s "PERTISK_SESSION_TTL_SECS" then Some (bs "1") else None.

Definition sess_env (now : N) : AdminEnv :=
  mkAdminEnv true None false "/certs" "/dist" None one_second now "u1" (file_io true) (fun _ => true) Some false Info.
Definition sess_state : Admin :=
  (@auth_login toy_crypto (toy []) no_text (sess_env 0) "admin" "secret" (fun _ => None) (V4 10 0 0 1) admin_state).2.

Lemma sess_login :
  @auth_login toy_crypto (toy []) no_text (sess_env 0) "admin" "secret" (fun _ => None) (V4 10 0 0 1) admin_state =
  (Ok (bs "u1", bs "admin", 1), sess_state).
Proof.
  unfold sess_state. destruct (auth_login _ _ _ _ _ _ _) as [r s] eqn:Eq. f_equal.
  change r with (r, s).1. rewrite <- Eq. vm_compute. reflexivity.
Qed.

Lemma sess_known : ad_sessions sess_state = Some {[bs "u1" := mkSessionEntry "admin" 1000]}.
Proof. vm_cast_no_check (eq_refl (Some ({[bs "u1" := mkSessionEntry "admin" 1000]} : gmap str SessionEntry))). Qed.

Lemma session_lifetime_witness :
  exists exp, (bs "u1", (bs "admin", exp)) ∈ [(bs "u1", (bs "admin", 1000))] /\ 500 < exp + 1000.
Proof.
  refine (@session_lifetime toy_crypto (toy []) no_text admin_state [(bs "u1", (bs "admin", 1000))] sess_state (sess_env 500)
    "u1" "admin" _ _ _ _ _).
  - split; cbn; intros ? [= <-]; apply map_Forall_empty.
  - eapply rtc_l; [|apply rtc_refl].
    exact (@step_login toy_crypto (toy []) no_text (sess_env 0) "admin" "secret" (fun _ => None) (V4 10 0 0 1) [] admin_state
      (bs "u1") (bs "admin") 1 sess_state eq_refl sess_login).
  - exact (@cred_memory toy_crypto (toy []) (sess_env 500) sess_state (bs "u1") {[bs "u1" := mkSessionEntry "admin" 1000]}
      (mkSessionEntry "admin" 1000) sess_known eq_refl eq_refl).
  - discriminate.
  - intros secret Hs. discriminate Hs.
Defined.


Lemma reload_after_put_witness :
  exists s'', @reload_config (toy []) id_rows to_ascii_lowercase no_url (fun m => map_to_list m) no_text no_text
    (admin_env 9 (file_io true)) (do_put true []).2 = (Ok (bs "1"), s'') /\ ad_router s'' = ad_router (do_put true []).2.
Proof.
  destruct (@reload_after_put (toy []) id_rows to_ascii_lowercase no_url (fun m => map_to_list m) no_text no_text no_text
    (admin_env 0 (file_io true)) (admin_env 9 (file_io true)) (web_config []) admin_state (mkDbState empty_tables [])
    (bs "1") (do_put true []).2 eq_refl eq_refl) as (s'' & H1 & H2 & _).
  - vm_compute. reflexivity.
  - vm_compute. reflexivity.
  - reflexivity.
  - exists s''. exact (conj H1 H2).
Defined.

(** *** Findings *)

Definition bad_tls : list TlsConfig := [mkTlsConfig [bs "app.io"] (File "/gone.pem" "/gone.key") None].

(** A configuration with an unreadable certificate file is refused, but its routes
    are live and it is what the next start will read. *)
Lemma refused_config_applied :
  is_ok (do_put false bad_tls).1 = false /\
  is_some (match_route_entry (fun m => map_to_list m) (table (ad_router (do_put false bad_tls).2)) "app.io" "/") = true /\
  cfg_sites (ad_config (do_put false bad_tls).2) = [] /\
  ((fun d => t_config (db_tables d) !! PROXY_CONFIG_KEY) <$> ad_db (do_put false bad_tls).2) = Some (Some (bs "{}")).
Proof. vm_compute. done. Qed.

Definition do_upload (cert : str) (s : Admin) : result ApiError str * Admin :=
  @certificates_upload (toy []) no_text no_text (admin_env 0 (file_io true)) [bs "app.io"] cert "KEY" s.

(** An uploaded certificate that is not one is refused and stays in the database,
    where it stops the loading of every certificate after it. *)
Lemma refused_upload_blocks :
  let bad := do_upload "GARBAGE" admin_state in
  let good := mkCertRow "u2" (texts [bs "shop.io"]) "CERT" "KEY" "uploaded" [] None in
  let s := set_db ((fun d => mkDbState (upd_certificates (fun l => l ++ [good]) (db_tables d)) []) <$> ad_db bad.2) bad.2 in
  is_ok bad.1 = false /\
  by_host (ad_certs (@load_db_certs_into_store (toy []) id_rows no_text (admin_env 0 (file_io true)) s).2) = ∅.
Proof. vm_compute. done. Qed.

(** Deleting an uploaded certificate leaves its entry in the configuration: from then
    on the running configuration itself cannot be saved again. *)
Lemma deleted_certificate_blocks_saving :
  let up := (do_upload "CERT" (set_config (web_config []) admin_state)).2 in
  let del := @certificates_delete (toy []) id_rows no_text "u1" up in
  let put := @put_config (toy []) id_rows to_ascii_lowercase no_url (fun m => map_to_list m) no_text no_text no_text
               (admin_env 0 (file_io false)) (ad_config del.2) del.2 in
  is_ok del.1 = true /\ is_ok put.1 = false.
Proof. vm_compute. done. Qed.
