(* ===== verification/SchemaProps.v ===== *)
(** * Opening a database file of any version

    Theorems about [Schema]: whatever version of the program made the file, and wherever
    an earlier upgrade of it stopped, opening it ends with the columns every query needs
    and with what the file held. *)

From S2P Require Import Prelude RustStr GeoIp Waf Bot Captcha Security EdgeAuth ProxyConfig Database Schema Admin AdminProps.

(** ** Files that the program made *)

(** A table has the columns of its [CREATE TABLE], less some of those that were added
    later, and no others; rows have a value in each column; user names differ. *)
Record table_ok (name : str) (t : SqlTable) : Prop := {
  ok_has : forall cols c, (name, cols) ∈ created_tables -> c ∈ cols -> c ∉ added_columns name -> c ∈ tb_columns t;
  ok_only : forall cols c, (name, cols) ∈ created_tables -> c ∈ tb_columns t -> c ∈ cols ++ added_columns name;
  ok_cells : forall r c, r ∈ tb_rows t -> c ∈ column_names t -> is_Some (r !! c);
  ok_users : name = bs "users" -> NoDup (filter (.≠ VNull) ((fun r => cell r (bs "username")) <$> tb_rows t));
}.

Definition file_ok (f : SqlFile) : Prop := map_Forall table_ok (sf_tables f).

Definition new_file : SqlFile := mkSqlFile ∅ ∅.

Lemma new_file_ok : file_ok new_file.
Proof. apply map_Forall_empty. Qed.

(** ** Reading rows *)

Definition same_row (g g' : str -> option SqlValue) : Prop := forall c, g c = g' c.
#[export] Instance same_row_equiv : Equivalence same_row.
Proof. split; [done|by intros g g' He c|intros g g' g'' H1 H2 c; by rewrite H1]. Qed.

Ltac row_ext := intros g g' He; unfold row_user, row_session, row_config, row_certificate, row_dns, row_smtp, row_s3, bool_of, int_of, text_of, nullable_of;
  by rewrite !He.

#[export] Instance row_user_ext : Proper (same_row ==> eq) row_user. Proof. row_ext. Qed.
#[export] Instance row_session_ext : Proper (same_row ==> eq) row_session. Proof. row_ext. Qed.
#[export] Instance row_config_ext : Proper (same_row ==> eq) row_config. Proof. row_ext. Qed.
#[export] Instance row_certificate_ext : Proper (same_row ==> eq) row_certificate. Proof. row_ext. Qed.
#[export] Instance row_dns_ext : Proper (same_row ==> eq) row_dns. Proof. row_ext. Qed.
#[export] Instance row_smtp_ext : Proper (same_row ==> eq) row_smtp. Proof. row_ext. Qed.
#[export] Instance row_s3_ext : Proper (same_row ==> eq) row_s3. Proof. row_ext. Qed.

Definition same_rows : relation (list (str -> option SqlValue)) := Forall2 same_row.
#[export] Instance same_rows_equiv : Equivalence same_rows.
Proof. unfold same_rows. split; apply _. Qed.

Lemma mapM_row {A} (d : (str -> option SqlValue) -> option A) `{!Proper (same_row ==> eq) d} : Proper (same_rows ==> eq) (mapM (M:=option) d).
Proof. intros l l' Hl. induction Hl as [|g g' l l' Hg _ IH]; [done|]. cbn [mapM]. by rewrite Hg, IH. Qed.

Lemma row_one_ext l l' : same_rows l l' -> option_Forall2 same_row (row_one l) (row_one l').
Proof.
  intros Hl. induction Hl as [|g g' l l' Hg _ IH]; [constructor|]. unfold row_one in *. cbn [List.find]. rewrite (Hg (bs "id")).
  case_bool_decide; [by constructor|exact IH].
Qed.

Lemma from_row_one {A} (d : (str -> option SqlValue) -> option A) `{!Proper (same_row ==> eq) d} none l l' : same_rows l l' ->
  from_option d none (row_one l) = from_option d none (row_one l').
Proof. intros Hl. destruct (row_one_ext _ _ Hl) as [g g' Hg|]; [cbn; by rewrite Hg|done]. Qed.

Lemma tables_from_ext rows rows' smtp s3 : (forall table, same_rows (rows table) (rows' table)) -> tables_from rows smtp s3 = tables_from rows' smtp s3.
Proof.
  intros Hr. unfold tables_from.
  rewrite (mapM_row row_user _ _ (Hr (bs "users"))), (mapM_row row_session _ _ (Hr (bs "sessions"))),
    (mapM_row row_config _ _ (Hr (bs "proxy_config"))), (mapM_row row_certificate _ _ (Hr (bs "certificates"))),
    (mapM_row row_dns _ _ (Hr (bs "dns_providers"))), (from_row_one row_smtp _ _ _ (Hr (bs "smtp_settings"))),
    (from_row_one row_s3 _ _ _ (Hr (bs "s3_settings"))). done.
Qed.

(** ** Steps of an upgrade *)

(** What later statements rely on. *)
Inductive fact := Exists (table : str) | HasColumn (table column : str) | Seeded (table : str) | Indexed (index : str).

Definition holds (f : SqlFile) (x : fact) : Prop :=
  match x with
  | Exists table => is_Some (sf_tables f !! table)
  | HasColumn table column => has_column table column f = true
  | Seeded table => is_Some (row_one (held_rows f table))
  | Indexed index => index ∈ sf_indexes f
  end.

Section upgrade.
Context `{Formats}.
Variable now : N.

(** From one file to the next: no fact is lost, and what is held stays; settings that
    were not there may have become the seeds of [now]. *)
Definition grew (f f' : SqlFile) : Prop :=
  (forall x, holds f x -> holds f' x) /\
  forall a b, exists a' b', (a' = a \/ a' = now) /\ (b' = b \/ b' = now) /\ file_tables a b f' = file_tables a' b' f.

#[local] Instance grew_preorder : PreOrder grew.
Proof.
  split; [intros f; split; [done|]; intros a b; exists a, b; tauto|].
  intros f f' f'' [Hx Hv] [Hx' Hv']. split; [auto|]. intros a b. destruct (Hv' a b) as (a1 & b1 & Ha1 & Hb1 & ->).
  destruct (Hv a1 b1) as (a2 & b2 & Ha2 & Hb2 & ->). exists a2, b2. split_and!; [naive_solver..|done].
Qed.

Lemma grew_same_rows f f' : (forall table, same_rows (held_rows f table) (held_rows f' table)) ->
  (forall table, is_Some (sf_tables f !! table) -> is_Some (sf_tables f' !! table)) ->
  (forall table c, has_column table c f = true -> has_column table c f' = true) -> sf_indexes f ⊆ sf_indexes f' -> grew f f'.
Proof.
  intros Hr Ht Hc Hi. split.
  - intros [table|table c|table|index]; cbn; [apply Ht|apply Hc| |apply Hi]. intros [g Hg]. destruct (row_one_ext _ _ (Hr table)); [by eexists|done].
  - intros a b. exists a, b. split_and!; [by left..|]. unfold file_tables. symmetry. by apply tables_from_ext.
Qed.

(** From the file [f], [m] keeps the file in order wherever it stops; it does not stop
    without a fault, and then the facts [post] hold. *)
Definition upgrades_from {A} (f : SqlFile) (m : Sql A) (post : list fact) : Prop := forall faults,
  let '(r, (f', faults')) := m (f, faults) in
  file_ok f' /\ grew f f' /\ (is_ok r = true -> Forall (holds f') post) /\
  (Forall (eq false) faults -> is_ok r = true /\ Forall (eq false) faults').

Definition upgrades {A} (pre : list fact) (m : Sql A) (post : list fact) : Prop :=
  forall f, file_ok f -> Forall (holds f) pre -> upgrades_from f m post.

Lemma upgrades_done {A} f (a : A) post : file_ok f -> Forall (holds f) post -> upgrades_from f (mret a) post.
Proof. intros Hf Hp faults. cbn. split_and!; [done|reflexivity|done|done]. Qed.

(** A statement that only reads. *)
Lemma upgrades_read {A B} f (s : SqlFile -> result SqlError (A * SqlFile)) v (k : A -> Sql B) post : file_ok f -> s f = Ok (v, f) ->
  upgrades_from f (k v) post -> upgrades_from f (statement s ≫= k) post.
Proof.
  intros Hf Hs Hk faults. unfold mbind, sql_bind, statement. cbn [fst snd]. rewrite Hs. destruct faults as [|[] faults].
  - apply (Hk []).
  - cbn. split_and!; [done|reflexivity|done|]. intros Hx. by inversion Hx.
  - specialize (Hk faults). cbn [tail]. destruct (k v (f, faults)) as [r [f' faults']]. destruct Hk as (? & ? & ? & Hn). split_and!; [done..|].
    intros Hx. apply Hn. by inversion Hx.
Qed.

Lemma upgrades_statement f (s : SqlFile -> result SqlError (unit * SqlFile)) f' post : s f = Ok (tt, f') -> file_ok f -> file_ok f' -> grew f f' ->
  Forall (holds f') post -> upgrades_from f (statement s) post.
Proof.
  intros Hs Hf Hf' Hg Hp faults. unfold statement. cbn [fst snd]. rewrite Hs. destruct faults as [|[] faults]; split_and!; try done.
  - intros Hx. by inversion Hx.
  - intros Hx. split; [done|]. by inversion Hx.
Qed.

Lemma upgrades_seq {B} pre (m : Sql unit) mid (k : unit -> Sql B) post : upgrades pre m mid -> upgrades (mid ++ pre) (k tt) post ->
  upgrades pre (m ≫= k) post.
Proof.
  intros Hm Hk f Hf Hp faults. specialize (Hm f Hf Hp faults). unfold mbind, sql_bind. destruct (m (f, faults)) as [[[]|e] [f1 faults1]].
  2: { destruct Hm as (? & ? & _ & Hn). split_and!; [done|done|done|]. intros Hx. by destruct (Hn Hx). }
  destruct Hm as (Hf1 & Hg1 & Hm & Hn). assert (Hp1 : Forall (holds f1) (mid ++ pre)).
  { apply Forall_app. split; [by apply Hm|]. eapply Forall_impl; [exact Hp|apply Hg1]. }
  specialize (Hk f1 Hf1 Hp1 faults1). destruct (k tt (f1, faults1)) as [r [f2 faults2]]. destruct Hk as (? & Hg2 & ? & Hn2).
  split_and!; [done|by transitivity f1|done|]. intros Hx. destruct (Hn Hx) as [_ Hx1]. by apply Hn2.
Qed.

(** Facts that are not used stay. *)
Lemma upgrades_frame {A} pre pre' (m : Sql A) post post' : upgrades pre' m post' -> pre' ⊆ pre -> post ⊆ post' ++ pre -> upgrades pre m post.
Proof.
  intros Hm Hi Ho f Hf Hp faults. rewrite Forall_forall in Hp.
  assert (Hp' : Forall (holds f) pre') by (apply Forall_forall; intros x Hx; auto).
  specialize (Hm f Hf Hp' faults). destruct (m (f, faults)) as [r [f' faults']]. destruct Hm as (? & Hg & Hpost & ?). split_and!; [done..| |done].
  intros Ha. specialize (Hpost Ha). rewrite Forall_forall in Hpost |- *. intros x Hx. specialize (Ho x Hx). rewrite elem_of_app in Ho.
  destruct Ho as [Ho|Ho]; [auto|]. apply Hg. auto.
Qed.

(** ** The statements *)

Lemma lookup_put name t f n : sf_tables (sf_put name t f) !! n = if decide (n = name) then Some t else sf_tables f !! n.
Proof. unfold sf_put. cbn. case_decide; subst; [apply lookup_insert_eq|by apply lookup_insert_ne]. Qed.

Lemma file_ok_put name t f : table_ok name t -> file_ok f -> file_ok (sf_put name t f).
Proof. intros Ht Hf. by apply map_Forall_insert_2. Qed.

Lemma held_rows_put name t f n : held_rows (sf_put name t f) n = if decide (n = name) then (fun (r : Row) c => or_else (r !! c) (added_default n c)) <$> tb_rows t else held_rows f n.
Proof. unfold held_rows, stored_rows. rewrite lookup_put. by case_decide. Qed.

Lemma has_column_put name t f n c : has_column n c (sf_put name t f) = if decide (n = name) then bool_decide (c ∈ column_names t) else has_column n c f.
Proof. unfold has_column. rewrite lookup_put. by case_decide. Qed.

Lemma created_unique name cols cols' : (name, cols) ∈ created_tables -> (name, cols') ∈ created_tables -> cols = cols'.
Proof.
  intros H1 H2. assert (Hn : NoDup created_tables.*1) by (vm_compute; repeat constructor; set_solver).
  apply (elem_of_list_to_map_1 (M := gmap str)) in H1, H2; [|done..]. congruence.
Qed.

Lemma upgrades_create name cols : (name, cols) ∈ created_tables -> upgrades [] (create_table name) [Exists name].
Proof.
  intros Hin f Hf _. unfold create_table.
  assert (Hl : (list_to_map created_tables : gmap str (list Column)) !! name = Some cols).
  { apply elem_of_list_to_map_1; [|done]. vm_compute. repeat constructor; set_solver. }
  rewrite Hl. cbn [default from_option id]. destruct (sf_tables f !! name) as [t|] eqn:Ht.
  - apply (upgrades_statement f _ f); [unfold create_table_if_missing; by rewrite Ht|done|done|reflexivity|].
    constructor; [by exists t|constructor].
  - apply (upgrades_statement f _ (sf_put name (mkSqlTable cols []) f)); [unfold create_table_if_missing; by rewrite Ht|done| | |].
    + apply file_ok_put; [|done]. split; cbn [tb_columns tb_rows].
      * intros cols' c Hin' Hc _. by rewrite (created_unique _ _ _ Hin Hin').
      * intros cols' c Hin' Hc. rewrite (created_unique _ _ _ Hin' Hin). apply elem_of_app. by left.
      * intros r c Hr. by apply elem_of_nil in Hr.
      * constructor.
    + apply grew_same_rows.
      * intros n. rewrite held_rows_put. case_decide; [|reflexivity]. subst. unfold held_rows, stored_rows. rewrite Ht. constructor.
      * intros n Hn. rewrite lookup_put. case_decide; [by eexists|done].
      * intros n c Hn. rewrite has_column_put. case_decide; [|done]. subst. unfold has_column in Hn. by rewrite Ht in Hn.
      * done.
    + constructor; [|constructor]. cbn. rewrite lookup_insert_eq. by eexists.
Qed.

Lemma upgrades_index index table column unique : (unique = true -> table = bs "users" /\ column = bs "username") ->
  upgrades [Exists table] (statement (create_index_if_missing index table column unique)) [Indexed index].
Proof.
  intros Hu f Hf Hp. apply Forall_singleton in Hp as [t Ht].
  destruct (decide (index ∈ sf_indexes f)) as [Hi|Hi].
  - apply (upgrades_statement f _ f); [unfold create_index_if_missing; by rewrite bool_decide_true|done|done|reflexivity|by constructor].
  - apply (upgrades_statement f _ (mkSqlFile (sf_tables f) ({[index]} ∪ sf_indexes f))); [|done|done| |constructor; [cbn; set_solver|constructor]].
    + unfold create_index_if_missing. rewrite bool_decide_false by done. rewrite Ht. cbn [ok_or mbind result_bind].
      destruct unique; [|done]. destruct (Hu eq_refl) as [-> ->]. rewrite bool_decide_true; [done|]. by apply (ok_users _ _ (Hf _ _ Ht)).
    + apply grew_same_rows; [done..|cbn; set_solver].
Qed.

Lemma added_default_of table c : c ∈ added_columns table -> added_default table (c_name c) = Some (c_default c).
Proof.
  unfold added_default, added_columns. intros Hc.
  repeat case_bool_decide; subst; rewrite ?elem_of_cons, ?elem_of_nil in Hc; intuition subst; by vm_compute.
Qed.

Lemma alter_ok table c t : c ∈ added_columns table -> table_ok table t ->
  table_ok table (mkSqlTable (tb_columns t ++ [c]) ((fun r => r ∪ {[c_name c := c_default c]}) <$> tb_rows t)).
Proof.
  intros Hc Ht. split; cbn [tb_columns tb_rows].
  - intros cols c' Hin H1 H2. apply elem_of_app. left. by eapply ok_has.
  - intros cols c' Hin [H1|H1%list_elem_of_singleton]%elem_of_app; [by eapply ok_only|]. subst. apply elem_of_app. by right.
  - intros r c' (r0 & -> & Hr)%list_elem_of_fmap Hn. unfold column_names in Hn. cbn in Hn. rewrite fmap_app, elem_of_app in Hn.
    apply lookup_union_is_Some. destruct Hn as [Hn|Hn]; [left; by eapply ok_cells|right]. cbn in Hn. apply list_elem_of_singleton in Hn as ->.
    rewrite lookup_singleton_eq. by eexists.
  - intros ->. by apply elem_of_nil in Hc.
Qed.

Lemma upgrades_add_column table c : c ∈ added_columns table -> c_not_null c && bool_decide (c_default c = VNull) = false ->
  upgrades [Exists table] (add_column_if_missing table c) [HasColumn table (c_name c)].
Proof.
  intros Hc Hn f Hf Hp. apply Forall_singleton in Hp as [t Ht]. unfold add_column_if_missing.
  eapply upgrades_read; [done|reflexivity|]. destruct (has_column table (c_name c) f) eqn:Hh; [apply upgrades_done; [done|by constructor]|].
  assert (Hi : c_name c ∉ column_names t) by (unfold has_column in Hh; rewrite Ht in Hh; by apply bool_decide_eq_false in Hh).
  eapply upgrades_statement; [unfold alter_add_column; rewrite Ht; cbn [ok_or mbind result_bind]; by rewrite bool_decide_false, Hn by done|done| | |].
  - apply file_ok_put; [|done]. apply alter_ok; [done|by apply Hf].
  - apply grew_same_rows.
    + intros n. rewrite held_rows_put. destruct (decide (n = table)); [subst|reflexivity]. unfold held_rows, stored_rows. rewrite Ht. cbn [from_option tb_rows].
      rewrite <- list_fmap_compose. apply Forall2_fmap, Forall_Forall2_diag, Forall_forall. intros r _ c'. cbn.
      destruct (r !! c') as [v|] eqn:Hv; [by rewrite (lookup_union_Some_l _ _ _ _ Hv)|].
      rewrite lookup_union_r by done. destruct (decide (c' = c_name c)) as [->|]; [|by rewrite lookup_singleton_ne].
      rewrite lookup_singleton_eq. by rewrite (added_default_of _ _ Hc).
    + intros n Hx. rewrite lookup_put. destruct (decide (n = table)); [by eexists|done].
    + intros n c' Hx. rewrite has_column_put. destruct (decide (n = table)); [subst|done]. unfold has_column in Hx. rewrite Ht in Hx.
      apply bool_decide_eq_true in Hx. apply bool_decide_eq_true. unfold column_names. cbn. rewrite fmap_app. apply elem_of_app. by left.
    + done.
  - constructor; [|constructor]. cbn. rewrite has_column_put. rewrite decide_True by done. apply bool_decide_eq_true.
    unfold column_names. cbn. rewrite fmap_app. apply elem_of_app. right. by apply list_elem_of_singleton.
Qed.

(** The row that an insertion makes: every value given for a column of the table. *)
Lemma new_row_lookup t vs n v : n ∈ column_names t -> (list_to_map vs : Row) !! n = Some v ->
  (list_to_map ((fun c => (c_name c, given vs c)) <$> tb_columns t) : Row) !! n = Some v.
Proof.
  intros Hn Hv. set (l := (fun c => (c_name c, given vs c)) <$> tb_columns t).
  destruct ((list_to_map l : Row) !! n) as [w|] eqn:Hw.
  - apply elem_of_list_to_map_2 in Hw. unfold l in Hw. apply list_elem_of_fmap in Hw as (c & Hx & _). injection Hx as -> ->.
    unfold given. by rewrite Hv.
  - apply not_elem_of_list_to_map_2 in Hw. exfalso. apply Hw. unfold l. rewrite <- list_fmap_compose. exact Hn.
Qed.

Lemma row_one_snoc l g : row_one l = None -> g (bs "id") = Some (VInt 1) -> row_one (l ++ [g]) = Some g.
Proof.
  unfold row_one. induction l as [|g' l IH]; cbn; intros Hl Hg; [by rewrite bool_decide_true|].
  case_bool_decide; [done|]. by apply IH.
Qed.

Lemma row_one_some l l' : is_Some (row_one l) -> row_one (l ++ l') = row_one l.
Proof. unfold row_one. induction l as [|g l IH]; cbn; [by intros [??]|]. case_bool_decide; [done|exact IH]. Qed.

Lemma id_not_added table : added_default table (bs "id") = None.
Proof. unfold added_default, added_columns. repeat case_bool_decide; by vm_compute. Qed.

Lemma count_row_one f table t : sf_tables f !! table = Some t ->
  length (filter (fun r => is_row_one r = true) (tb_rows t)) = 0%nat <-> row_one (held_rows f table) = None.
Proof.
  intros Ht. unfold held_rows, stored_rows. rewrite Ht. cbn [from_option]. unfold row_one. induction (tb_rows t) as [|r rows IH]; [done|].
  cbn [fmap list_fmap List.find]. rewrite id_not_added.
  assert (Ho : or_else (r !! bs "id") None = r !! bs "id") by (by destruct (r !! bs "id")). rewrite Ho.
  change (bool_decide (r !! bs "id" = Some (VInt 1))) with (is_row_one r).
  destruct (is_row_one r) eqn:He; [by rewrite filter_cons_True|]. rewrite filter_cons_False by (by rewrite He). exact IH.
Qed.

(** *** Seeding the settings *)

Definition inserted (table : str) (vs : list (str * SqlValue)) (t : SqlTable) (f : SqlFile) : SqlFile :=
  sf_put table (mkSqlTable (tb_columns t) (tb_rows t ++ [list_to_map ((fun c => (c_name c, given vs c)) <$> tb_columns t)])) f.

(** The values fit the columns: a column is unique only if it is the [id]. *)
Definition fits (vs : list (str * SqlValue)) (c : Column) : Prop :=
  accepts [] c (given vs c) = true /\ (c_unique c = true -> c_name c = bs "id" /\ given vs c = VInt 1).

Lemma accepts_fits vs c rows : fits vs c -> Forall (fun r => is_row_one r = false) rows -> accepts rows c (given vs c) = true.
Proof.
  intros [Ha Hu] Hr. unfold accepts in Ha |- *. apply andb_true_iff in Ha as [Ha _]. rewrite Ha. cbn [andb].
  destruct (c_unique c); [|done]. destruct (Hu eq_refl) as [-> ->]. cbn [andb]. apply negb_true_iff, not_true_is_false.
  intros (r & Hin%list_elem_of_In & Hx)%existsb_exists. rewrite Forall_forall in Hr. specialize (Hr r Hin). unfold is_row_one in Hr. apply bool_decide_eq_false in Hr.
  apply andb_true_iff in Hx as [Hx%bool_decide_eq_true _]. unfold cell in Hx. destruct (r !! bs "id"); cbn in Hx; congruence.
Qed.

Lemma no_row_one f table t : sf_tables f !! table = Some t -> row_one (held_rows f table) = None -> Forall (fun r => is_row_one r = false) (tb_rows t).
Proof.
  intros Ht Hn. apply (count_row_one _ _ _ Ht) in Hn. apply Forall_forall. intros r Hr. apply not_true_is_false. intros Hx.
  apply length_zero_iff_nil in Hn. assert (Hin : r ∈ filter (fun r => is_row_one r = true) (tb_rows t)) by (by apply list_elem_of_filter).
  rewrite Hn in Hin. by apply elem_of_nil in Hin.
Qed.

(** The columns of a created table, once those that were added later are there. *)
Lemma columns_there f table t cols c : file_ok f -> sf_tables f !! table = Some t -> (table, cols) ∈ created_tables ->
  Forall (holds f) (HasColumn table ∘ c_name <$> added_columns table) -> c ∈ cols ++ added_columns table -> c_name c ∈ column_names t.
Proof.
  intros Hf Ht Hin Ha Hc. destruct (decide (c ∈ added_columns table)) as [Hx|Hx].
  - rewrite Forall_fmap, Forall_forall in Ha. specialize (Ha c Hx). cbn in Ha. unfold has_column in Ha. rewrite Ht in Ha. by apply bool_decide_eq_true in Ha.
  - apply list_elem_of_fmap_2. eapply ok_has; [by apply Hf|done| |done]. apply elem_of_app in Hc. by destruct Hc.
Qed.

Lemma inserted_ok f table vs t cols : file_ok f -> sf_tables f !! table = Some t -> (table, cols) ∈ created_tables -> table <> bs "users" -> file_ok (inserted table vs t f).
Proof.
  intros Hf Ht Hin Hu. apply file_ok_put; [|done]. pose proof (Hf _ _ Ht) as Hok. split; cbn [tb_columns tb_rows]; [by apply ok_has|by apply ok_only| |done].
  intros r c [Hr|Hr%list_elem_of_singleton]%elem_of_app Hc; [by eapply ok_cells|]. subst r.
  destruct (list_to_map _ !! c) eqn:Hx; [by eexists|]. apply not_elem_of_list_to_map_2 in Hx. exfalso. apply Hx.
  rewrite <- list_fmap_compose. exact Hc.
Qed.

Lemma inserted_holds f table vs t x : sf_tables f !! table = Some t -> holds f x -> holds (inserted table vs t f) x.
Proof.
  intros Ht. destruct x as [n|n c|n|n]; cbn [holds]; unfold inserted; [..|done].
  - rewrite lookup_put. case_decide; [by eexists|done].
  - rewrite has_column_put. case_decide; [subst|done]. unfold has_column. by rewrite Ht.
  - rewrite held_rows_put. case_decide; [subst|done]. unfold held_rows at 1, stored_rows. rewrite Ht. cbn [from_option tb_rows].
    rewrite fmap_app. intros Hs. by rewrite row_one_some.
Qed.

Lemma upgrades_seed table vs cols : (table, cols) ∈ created_tables -> table <> bs "users" ->
  (list_to_map vs : Row) !! bs "id" = Some (VInt 1) -> (forall kv, kv ∈ vs -> kv.1 ∈ c_name <$> cols) ->
  Forall (fits vs) (cols ++ added_columns table) ->
  (forall f t, file_ok f -> sf_tables f !! table = Some t -> row_one (held_rows f table) = None ->
     (forall n v, (list_to_map vs : Row) !! n = Some v -> n ∈ column_names t) -> grew f (inserted table vs t f)) ->
  upgrades (Exists table :: (HasColumn table ∘ c_name <$> added_columns table)) (seed_row table vs) [Seeded table].
Proof.
  intros Hin Hu Hid Hvs Hfit Hgrew f Hf [[t Ht] Hadd]%Forall_cons. unfold seed_row.
  assert (Hc : forall kv, kv ∈ vs -> kv.1 ∈ column_names t).
  { intros kv Hk. apply Hvs, list_elem_of_fmap in Hk as (c & -> & Hk). eapply columns_there; [done..|]. apply elem_of_app. by left. }
  eapply upgrades_read; [done|unfold count_one; rewrite Ht; reflexivity|].
  destruct (Nat.ltb_spec 0 (length (filter (fun r => is_row_one r = true) (tb_rows t)))) as [Hlt|Hlt].
  - apply upgrades_done; [done|]. constructor; [|constructor]. cbn. destruct (row_one (held_rows f table)) eqn:Hr; [by eexists|].
    apply (count_row_one _ _ _ Ht) in Hr. lia.
  - assert (Hr : row_one (held_rows f table) = None) by (apply (count_row_one _ _ _ Ht); lia).
    assert (Hn : forall n v, (list_to_map vs : Row) !! n = Some v -> n ∈ column_names t) by (intros n v Hv; by apply elem_of_list_to_map_2, Hc in Hv).
    apply (upgrades_statement f _ (inserted table vs t f)); [|done|by eapply inserted_ok|by apply Hgrew|].
    + unfold insert_row. rewrite Ht. cbn [ok_or mbind result_bind]. rewrite (proj2 (forallb_forall _ vs)).
      2: { intros kv Hk. apply bool_decide_eq_true, Hc. by apply list_elem_of_In. }
      cbn [negb]. rewrite (proj2 (forallb_forall _ (tb_columns t))); [done|]. intros c Hc'%list_elem_of_In.
      apply accepts_fits; [|by eapply no_row_one]. rewrite Forall_forall in Hfit. apply Hfit. by eapply ok_only; [apply Hf|..].
    + constructor; [|constructor]. cbn. unfold inserted. rewrite held_rows_put, decide_True by done. cbn [tb_rows]. rewrite fmap_app, list_fmap_singleton.
      unfold held_rows, stored_rows in Hr. rewrite Ht in Hr. cbn [from_option] in Hr. rewrite (row_one_snoc _ _ Hr); [by eexists|].
      by rewrite (new_row_lookup _ _ _ _ (Hn _ _ Hid) Hid).
Qed.

(** The two tables of settings. *)
Lemma inserted_view table vs f t g : sf_tables f !! table = Some t -> row_one (held_rows f table) = None ->
  (list_to_map vs : Row) !! bs "id" = Some (VInt 1) -> (forall n v, (list_to_map vs : Row) !! n = Some v -> n ∈ column_names t) ->
  (forall c v, (list_to_map vs : Row) !! c = Some v -> g c = Some v) ->
  exists g', row_one (held_rows (inserted table vs t f) table) = Some g' /\ (forall c, c ∈ vs.*1 -> g' c = g c) /\
    (forall n, n <> table -> held_rows (inserted table vs t f) n = held_rows f n).
Proof.
  intros Ht Hr Hid Hn Hg. unfold inserted. setoid_rewrite held_rows_put. rewrite decide_True by done. cbn [tb_rows].
  rewrite fmap_app, list_fmap_singleton. unfold held_rows at 1, stored_rows in Hr. rewrite Ht in Hr. cbn [from_option] in Hr.
  eexists. split_and!.
  - apply row_one_snoc; [exact Hr|]. cbv beta. by rewrite (new_row_lookup _ _ _ _ (Hn _ _ Hid) Hid).
  - intros c Hc. cbv beta. destruct ((list_to_map vs : Row) !! c) as [v|] eqn:Hv.
    + rewrite (new_row_lookup _ _ _ _ (Hn _ _ Hv) Hv). by rewrite (Hg _ _ Hv).
    + by apply not_elem_of_list_to_map_2 in Hv.
  - intros n Hx. by rewrite decide_False.
Qed.

Ltac other_rows Ho := rewrite (Ho (bs "users")), (Ho (bs "sessions")), (Ho (bs "proxy_config")), (Ho (bs "certificates")), (Ho (bs "dns_providers")) by done.

Definition seed_get (vs : list (str * SqlValue)) (c : str) : option SqlValue := (list_to_map vs : Row) !! c.

Ltac seed_fields Hg := unfold row_smtp, row_s3, bool_of, int_of, text_of; rewrite !Hg by (eapply bool_decide_unpack; vm_compute; exact I); vm_compute; reflexivity.

Lemma row_smtp_seed g : (forall c, c ∈ (smtp_seed_values now).*1 -> g c = seed_get (smtp_seed_values now) c) -> row_smtp g = Some (seed_smtp now).
Proof. intros Hg. seed_fields Hg. Qed.

Lemma row_s3_seed g : (forall c, c ∈ (s3_seed_values now).*1 -> g c = seed_get (s3_seed_values now) c) -> row_s3 g = Some (seed_s3 now).
Proof. intros Hg. seed_fields Hg. Qed.

Lemma upgrades_seed_smtp : upgrades [Exists (bs "smtp_settings"); HasColumn (bs "smtp_settings") (bs "notify_login"); HasColumn (bs "smtp_settings") (bs "notify_password_change")]
  (seed_smtp_settings now) [Seeded (bs "smtp_settings")].
Proof.
  eapply (upgrades_seed (bs "smtp_settings") (smtp_seed_values now)); [by repeat constructor|done|by vm_compute| | |].
  - intros kv Hk. vm_compute in Hk. vm_compute. set_solver.
  - repeat constructor; vm_compute; intros; try discriminate; done.
  - intros f t Hf Ht Hr Hn. destruct (inserted_view _ (smtp_seed_values now) f t (seed_get (smtp_seed_values now)) Ht Hr) as (g & Hg & Hv & Ho); [by vm_compute|done|done|].
    split; [by intros x; apply inserted_holds|]. intros a b. exists now, b. split; [by right|]. split; [by left|].
    unfold file_tables, tables_from. other_rows Ho. rewrite (Ho (bs "s3_settings")) by done. rewrite Hg, Hr. cbn [from_option]. by rewrite (row_smtp_seed g Hv).
Qed.

Lemma upgrades_seed_s3 : upgrades [Exists (bs "s3_settings")] (seed_s3_settings now) [Seeded (bs "s3_settings")].
Proof.
  eapply (upgrades_seed (bs "s3_settings") (s3_seed_values now)); [by repeat constructor|done|by vm_compute| | |].
  - intros kv Hk. vm_compute in Hk. vm_compute. set_solver.
  - repeat constructor; vm_compute; intros; try discriminate; done.
  - intros f t Hf Ht Hr Hn. destruct (inserted_view _ (s3_seed_values now) f t (seed_get (s3_seed_values now)) Ht Hr) as (g & Hg & Hv & Ho); [by vm_compute|done|done|].
    split; [by intros x; apply inserted_holds|]. intros a b. exists a, now. split; [by left|]. split; [by right|].
    unfold file_tables, tables_from. other_rows Ho. rewrite (Ho (bs "smtp_settings")) by done. rewrite Hg, Hr. cbn [from_option]. by rewrite (row_s3_seed g Hv).
Qed.

(** ** The whole of init_schema *)

Definition table_names : list str := created_tables.*1.

Ltac step rule := eapply upgrades_seq; [eapply upgrades_frame; [rule|set_solver|reflexivity]|].
Ltac create := step ltac:(eapply upgrades_create; vm_compute; repeat constructor).

Lemma upgrades_batch : upgrades [] execute_batch (Indexed (bs "idx_users_username") :: Indexed (bs "idx_sessions_expires_at") :: (Exists <$> table_names)).
Proof.
  unfold execute_batch. create. create. create.
  step ltac:(apply (upgrades_index _ (bs "users") (bs "username") true); done).
  create.
  step ltac:(apply (upgrades_index _ (bs "sessions") (bs "expires_at") false); done).
  create. create.
  eapply upgrades_frame; [eapply upgrades_create; vm_compute; repeat constructor|set_solver|].
  vm_compute. set_solver.
Qed.

(** What is there after a run: tables, indexes, added columns, settings. *)
Definition schema_facts : list fact :=
  [Seeded (bs "s3_settings"); Seeded (bs "smtp_settings"); HasColumn (bs "smtp_settings") (bs "notify_password_change");
   HasColumn (bs "smtp_settings") (bs "notify_login"); HasColumn (bs "certificates") (bs "expires_at")] ++
  (Indexed (bs "idx_users_username") :: Indexed (bs "idx_sessions_expires_at") :: (Exists <$> table_names)).

Lemma upgrades_init : upgrades [] (init_schema now) schema_facts.
Proof.
  unfold init_schema, migrate_certificates_expires_at, migrate_smtp_notify_flags.
  step ltac:(apply upgrades_batch).
  step ltac:(apply (upgrades_add_column (bs "certificates") expires_at_column); [by repeat constructor|done]).
  eapply upgrades_seq; [eapply upgrades_seq; [eapply upgrades_frame; [apply (upgrades_add_column (bs "smtp_settings") notify_login_column); [by repeat constructor|done]|vm_compute; set_solver|reflexivity]|];
    eapply upgrades_frame; [apply (upgrades_add_column (bs "smtp_settings") notify_password_change_column); [by repeat constructor|done]|vm_compute; set_solver|reflexivity]|].
  step ltac:(apply upgrades_seed_smtp).
  eapply upgrades_frame; [apply upgrades_seed_s3|vm_compute; set_solver|vm_compute; set_solver].
Qed.

End upgrade.

Section opened.
Context `{Formats}.

(** With the facts, the queries find every column, and read what is held. *)
Lemma facts_schema f : file_ok f -> Forall (holds f) schema_facts -> has_schema f = true.
Proof.
  intros Hf Hx. apply forallb_forall. intros [table cols] Hin%list_elem_of_In. apply forallb_forall. intros n Hn%list_elem_of_In. cbn [fst].
  rewrite Forall_forall in Hx. unfold all_columns in Hn. cbn [fst snd] in Hn. rewrite <- fmap_app in Hn. apply list_elem_of_fmap in Hn as (c & -> & Hc).
  assert (Ht : holds f (Exists table)).
  { apply Hx. unfold schema_facts. apply elem_of_app. right. do 2 right. apply list_elem_of_fmap_2. exact (list_elem_of_fmap_2 fst _ _ Hin). }
  destruct Ht as [t Ht]. unfold has_column. rewrite Ht. apply bool_decide_eq_true. eapply columns_there; [done|done|done| |done].
  apply Forall_fmap, Forall_forall. intros c' Hc'. apply Hx. unfold added_columns in Hc'.
  repeat case_bool_decide; subst; rewrite ?elem_of_cons, ?elem_of_nil in Hc'; intuition subst; unfold schema_facts; set_solver.
Qed.

Lemma schema_cell f table t r c : file_ok f -> has_schema f = true -> sf_tables f !! table = Some t -> r ∈ tb_rows t ->
  or_else (r !! c) (added_default table c) = r !! c.
Proof.
  intros Hf Hs Ht Hr. destruct (r !! c) as [v|] eqn:Hv; [done|]. cbn. unfold added_default.
  destruct (List.find _ (added_columns table)) as [d|] eqn:Hd; [|done]. exfalso. apply find_some in Hd as [Hd Hc%str_eqb_eq]. subst c.
  assert (Hin : exists cols, (table, cols) ∈ created_tables).
  { unfold added_columns in Hd. repeat case_bool_decide; subst; [..|done]; eexists; vm_compute; repeat constructor. }
  destruct Hin as [cols Hin]. unfold has_schema in Hs. rewrite forallb_forall in Hs. specialize (Hs _ (proj1 (list_elem_of_In _ _) Hin)).
  rewrite forallb_forall in Hs. specialize (Hs (c_name d)). unfold all_columns in Hs. cbn [fst snd] in Hs.
  assert (Hn : has_column table (c_name d) f = true) by (apply Hs, list_elem_of_In, elem_of_app; right; by apply list_elem_of_fmap_2, list_elem_of_In).
  unfold has_column in Hn. rewrite Ht in Hn. apply bool_decide_eq_true in Hn. destruct (ok_cells _ _ (Hf _ _ Ht) _ _ Hr Hn). congruence.
Qed.

Lemma select_held f a b : file_ok f -> Forall (holds f) schema_facts -> select_tables f = file_tables a b f.
Proof.
  intros Hf Hx. unfold select_tables. rewrite (facts_schema f Hf Hx). pose proof (facts_schema f Hf Hx) as Hs.
  assert (Hr : forall table, same_rows ((fun (r : Row) c => r !! c) <$> stored_rows f table) (held_rows f table)).
  { intros table. unfold held_rows, stored_rows. destruct (sf_tables f !! table) as [t|] eqn:Ht; [|constructor]. cbn [from_option].
    apply Forall2_fmap, Forall_Forall2_diag, Forall_forall. intros r Hin c. symmetry. by eapply schema_cell. }
  rewrite (tables_from_ext _ _ _ _ Hr). unfold file_tables, tables_from. rewrite Forall_forall in Hx.
  destruct (Hx (Seeded (bs "smtp_settings"))) as [g ->]; [by vm_compute; repeat constructor|].
  destruct (Hx (Seeded (bs "s3_settings"))) as [g' ->]; [by vm_compute; repeat constructor|]. done.
Qed.

Lemma open_file_upgrades now f faults : file_ok f -> let '(r, f') := open_file now f faults in
  file_ok f' /\ grew now f f' /\ (is_ok r = true -> Forall (holds f') schema_facts) /\ (Forall (eq false) faults -> r = Ok tt).
Proof.
  intros Hf. pose proof (upgrades_init now f Hf (Forall_nil_2 _) faults) as Hu. unfold open_file.
  destruct (init_schema now (f, faults)) as [[[]|e] [f' faults']]; destruct Hu as (? & ? & ? & Hn); split_and!; try done.
  intros Hx. by destruct (Hn Hx).
Qed.

(** C18: A database file of any version opens, and nothing in it is lost.  Whatever version
    of the program made the file, and after an earlier attempt that failed at any
    statement, opening it succeeds: every query then finds its tables and columns, and
    reads what the file held at first, with the defaults in columns it did not have and
    the seeds of one of the two attempts where settings were never written. *)
Theorem interrupted_upgrade_resumes before now f faults : file_ok f ->
  let f1 := (open_file before f faults).2 in
  exists f2 a b, open_file now f1 [] = (Ok tt, f2) /\ (a = before \/ a = now) /\ (b = before \/ b = now) /\
    select_tables f2 = file_tables a b f.
Proof.
  intros Hf f1. pose proof (open_file_upgrades before f faults Hf) as Hu. subst f1.
  destruct (open_file before f faults) as [r1 f1]. cbn [snd]. destruct Hu as (Hf1 & [_ Hg1] & _ & _).
  pose proof (open_file_upgrades now f1 [] Hf1) as Hu. destruct (open_file now f1 []) as [r2 f2]. destruct Hu as (Hf2 & [_ Hg2] & Hx & Hr).
  rewrite (Hr (Forall_nil_2 _)) in *. exists f2. destruct (Hg2 now now) as (a2 & b2 & Ha2 & Hb2 & Hv2).
  destruct (Hg1 a2 b2) as (a1 & b1 & Ha1 & Hb1 & Hv1). exists a1, b1. split_and!; [done|naive_solver|naive_solver|].
  rewrite (select_held f2 now now Hf2 (Hx eq_refl)). congruence.
Qed.

(** The file that [Database.database_open] starts from when there is none. *)
Lemma new_file_tables a b : file_tables a b new_file = Some (mkTables ∅ ∅ ∅ [] [] (seed_smtp a) (seed_s3 b)).
Proof. reflexivity. Qed.

(** *** Opening again *)

(** [m] leaves [f] alone, and has the result [a] unless a statement fails. *)
Definition noop {A} (f : SqlFile) (m : Sql A) (a : A) : Prop :=
  forall faults, (m (f, faults)).2.1 = f /\ ((m (f, faults)).1 = Ok a \/ is_ok (m (f, faults)).1 = false).

Lemma noop_statement {A} f (s : SqlFile -> result SqlError (A * SqlFile)) a : s f = Ok (a, f) -> noop f (statement s) a.
Proof. intros Hs faults. unfold statement. cbn [fst snd]. rewrite Hs. destruct faults as [|[] faults]; cbn; auto. Qed.

Lemma noop_bind {A B} f (m : Sql A) a (k : A -> Sql B) b : noop f m a -> noop f (k a) b -> noop f (m ≫= k) b.
Proof.
  intros Hm Hk faults. specialize (Hm faults). unfold mbind, sql_bind. destruct (m (f, faults)) as [r [f' faults']].
  cbn in Hm. destruct Hm as [-> [-> | He]]; [apply Hk|]. destruct r; [done|]. cbn. auto.
Qed.

Lemma noop_create f name : holds f (Exists name) -> noop f (create_table name) tt.
Proof. intros [t Ht]. apply noop_statement. unfold create_table_if_missing. by rewrite Ht. Qed.

Lemma noop_index f index table column unique : holds f (Indexed index) -> noop f (statement (create_index_if_missing index table column unique)) tt.
Proof. intros Hi. apply noop_statement. unfold create_index_if_missing. by rewrite bool_decide_true. Qed.

Lemma noop_add_column f table c : holds f (HasColumn table (c_name c)) -> noop f (add_column_if_missing table c) tt.
Proof. intros Hc. eapply noop_bind; [by apply noop_statement|]. cbn in Hc. rewrite Hc. intros faults. cbn. auto. Qed.

Lemma noop_seed f table vs : holds f (Exists table) -> holds f (Seeded table) -> noop f (seed_row table vs) tt.
Proof.
  intros [t Ht] Hs. eapply noop_bind; [apply noop_statement; unfold count_one; by rewrite Ht|].
  destruct (Nat.ltb_spec 0 (length (filter (fun r => is_row_one r = true) (tb_rows t)))) as [_|Hl]; [intros faults; cbn; auto|].
  apply Nat.le_0_r, (count_row_one f table t Ht) in Hl. cbn in Hs. rewrite Hl in Hs. by destruct Hs.
Qed.

(** An opened file is left as it is by every later opening, whatever fails then. *)
Theorem reopening_changes_nothing now later f faults f' : file_ok f -> open_file now f [] = (Ok tt, f') -> (open_file later f' faults).2 = f'.
Proof.
  intros Hf Ho. pose proof (open_file_upgrades now f [] Hf) as Hu. rewrite Ho in Hu. destruct Hu as (_ & _ & Hx & _). specialize (Hx eq_refl).
  assert (Hn : noop f' (init_schema later) tt).
  { unfold schema_facts in Hx. rewrite Forall_forall in Hx.
    assert (He : forall name, name ∈ table_names -> holds f' (Exists name)) by (intros name Hn; apply Hx; apply elem_of_app; right; do 2 right; by apply list_elem_of_fmap_2).
    assert (Hi : forall x, x ∈ take 7 schema_facts -> holds f' x) by (intros x Hin; apply Hx; eapply subseteq_take; exact Hin). clear Hx.
    unfold init_schema, execute_batch, migrate_certificates_expires_at, migrate_smtp_notify_flags.
    repeat match goal with |- noop _ (_ ≫= _) _ => eapply noop_bind end; first [apply noop_create, He; vm_compute; repeat constructor | apply noop_index, Hi; vm_compute; repeat constructor
      | apply noop_add_column, Hi; vm_compute; repeat constructor
      | apply noop_seed; [apply He|apply Hi]; vm_compute; repeat constructor]. }
  unfold open_file. specialize (Hn faults). destruct (init_schema later (f', faults)) as [r [f2 fs]]. by destruct Hn.
Qed.

End opened.

(** ** An old file

    Its certificates have no expiry, its mail settings one flag; the first attempt fails
    when the flags are added. *)

Definition old_certificates : SqlTable :=
  mkSqlTable [text_key "id"; text_not_null "hosts"; text_not_null "cert_pem"; text_not_null "key_pem"; text_not_null "source_type"; text_not_null "created_at"]
    [list_to_map [(bs "id", VText "c1"); (bs "hosts", VText "[]"); (bs "cert_pem", VText "CERT"); (bs "key_pem", VText "KEY");
                  (bs "source_type", VText "uploaded"); (bs "created_at", VText "2024")]].

Definition old_file : SqlFile := mkSqlFile {[bs "certificates" := old_certificates]} ∅.

Lemma old_file_ok : file_ok old_file.
Proof.
  apply map_Forall_singleton. split; [| | |done].
  - intros cols c Hin Hc _. apply (created_unique (bs "certificates") _ (tb_columns old_certificates)) in Hin; [by subst|vm_compute; repeat constructor].
  - intros cols c Hin Hc. apply (created_unique (bs "certificates") _ (tb_columns old_certificates)) in Hin; [subst; apply elem_of_app; by left|vm_compute; repeat constructor].
  - intros r c ->%list_elem_of_singleton Hc. revert c Hc. apply Forall_forall. vm_compute. repeat constructor; eauto.
Qed.

Lemma interrupted_upgrade_resumes_witness :
  let _ := toy [] in
  let f1 := (open_file 5 old_file (replicate 10 false ++ [true])).2 in
  (open_file 5 old_file (replicate 10 false ++ [true])).1 = Err SqlIo /\ has_schema f1 = false /\
  exists f2 a b, open_file 7 f1 [] = (Ok tt, f2) /\ (a = 5 \/ a = 7) /\ (b = 5 \/ b = 7) /\ select_tables f2 = file_tables a b old_file.
Proof.
  intros F f1. split; [by vm_compute|]. split; [by vm_compute|].
  exact (interrupted_upgrade_resumes 5 7 old_file (replicate 10 false ++ [true]) old_file_ok).
Defined.
