(* ===== verification/Settings.v ===== *)
(** * Settings of the process (runtime_env.rs, runtime.rs, config/)

    The environment overrides that the management interface stores and a start
    applies, the thread and listener settings read from the environment, and the
    addresses and files of the server.  The two handlers of [api/mod.rs] that show
    and store overrides are here too. *)

From S2P Require Import Prelude RustStr Ip GeoIp Waf Bot Captcha Security Edge EdgeAuth ProxyConfig Router Forward Apply.
From S2P Require Import Telemetry CertStore Database Admin.

(** ** The process environment

    Values are bytes; [std::env::var] reads only those that are UTF-8, [var_os]
    sees them all. *)
Abbreviation ProcEnv := (gmap str str).

Definition var (e : ProcEnv) (k : str) : option str := v ← e !! k; from_utf8 v.

(** [std::env::set_var] panics on an empty key, on an equals sign in the key and on
    a zero byte in either; [None] is the panic. *)
Definition set_var (k v : str) (e : ProcEnv) : option ProcEnv :=
  if is_empty k || contains_byte "="%byte k || contains_byte x00 k || contains_byte x00 v then None
  else Some (<[k := v]> e).

(** ** Stored overrides (runtime_env.rs) *)

Definition RUNTIME_ENV_KEY : str := bs "runtime_env".

Inductive FieldKind : Type := Text | Number | Select.

Record RuntimeEnvField := mkRuntimeEnvField {
  fd_key : str;
  fd_label : str;
  fd_description : str;
  fd_kind : FieldKind;
  fd_options : list str;
}.

Definition editable_fields : list RuntimeEnvField :=
  [mkRuntimeEnvField "PERTISK_PROXY_MODE" "Proxy mode"
     "auto, standard, or performance. Enables CPU-scaled defaults when performance."
     Select [bs "auto"; bs "standard"; bs "performance"];
   mkRuntimeEnvField "PERTISK_WORKER_THREADS" "Tokio worker threads"
     "Override Tokio worker count; leave empty to use available CPUs."
     Number [];
   mkRuntimeEnvField "PERTISK_PINGORA_THREADS" "Pingora service threads"
     "HTTP/1 and HTTP/2 Pingora service threads."
     Number [];
   mkRuntimeEnvField "PERTISK_PINGORA_LISTENER_TASKS" "Listener accept tasks"
     "Parallel accept tasks per listener; performance default is 4."
     Number [];
   mkRuntimeEnvField "PERTISK_TCP_LISTEN_BACKLOG" "TCP listen backlog"
     "Application listen backlog; performance default is 8192."
     Number [];
   mkRuntimeEnvField "PERTISK_TCP_KEEPALIVE" "TCP keepalive"
     "Client-facing TCP keepalive (1/0 or on/off). Default on."
     Select [bs "1"; bs "0"];
   mkRuntimeEnvField "PERTISK_TCP_KEEPALIVE_IDLE_SECS" "TCP keepalive idle (secs)"
     "Idle time before keepalive probes; default 60."
     Number [];
   mkRuntimeEnvField "PERTISK_TCP_KEEPALIVE_INTERVAL_SECS" "TCP keepalive interval (secs)"
     "Seconds between keepalive probes; default 10."
     Number [];
   mkRuntimeEnvField "PERTISK_TCP_KEEPALIVE_COUNT" "TCP keepalive count"
     "Failed probes before closing; default 5."
     Number [];
   mkRuntimeEnvField "PERTISK_H3_UPSTREAM_POOL_MAX_IDLE" "H3 upstream pool max idle"
     "Idle H3-to-upstream connections per host; performance default is 256."
     Number [];
   mkRuntimeEnvField "PERTISK_H3_UPSTREAM_POOL_IDLE_TIMEOUT_SECS" "H3 pool idle timeout (secs)"
     "How long idle upstream connections remain pooled."
     Number [];
   mkRuntimeEnvField "PERTISK_H3_UPSTREAM_TCP_KEEPALIVE_SECS" "H3 upstream TCP keepalive (secs)"
     "TCP keepalive interval for H3-to-upstream connections."
     Number [];
   mkRuntimeEnvField "PERTISK_HTTP3_MAX_STREAMS" "HTTP/3 max streams"
     "Maximum concurrent QUIC streams."
     Number [];
   mkRuntimeEnvField "PERTISK_HTTP3_STREAM_RECEIVE_WINDOW" "HTTP/3 stream receive window"
     "QUIC per-stream receive window in bytes."
     Number [];
   mkRuntimeEnvField "PERTISK_HTTP3_CONN_RECEIVE_WINDOW" "HTTP/3 connection receive window"
     "QUIC connection receive window in bytes."
     Number [];
   mkRuntimeEnvField "PERTISK_HTTP3_CC_ALGORITHM" "HTTP/3 congestion control"
     "QUIC congestion control (tokio-quiche): bbr, cubic, or reno."
     Select [bs "bbr"; bs "cubic"; bs "reno"]].

(** [editable_fields().iter().find(|f| f.key == key)]. *)
Definition field_of (key : str) : option RuntimeEnvField := List.find (fun f => fd_key f =s key) editable_fields.

Definition is_editable_key (key : str) : bool := existsb (fun f => fd_key f =s key) editable_fields.

(** The loop of [apply_overrides], in the order the map is iterated. *)
Fixpoint apply_overrides (overrides : list (str * str)) (e : ProcEnv) : option (N * ProcEnv) :=
  match overrides with
  | [] => Some (0, e)
  | (key, value) :: rest =>
    if negb (is_editable_key key) then apply_overrides rest e
    else
      let value := trim value in
      if is_empty value then apply_overrides rest e
      else if is_some (e !! key) then apply_overrides rest e
      else
        e' ← set_var key value e;
        '(n, e'') ← apply_overrides rest e';
        Some (n + 1, e'')
  end.

Definition normalize_override_value (key value : str) : str :=
  match field_of key with
  | None => value
  | Some f =>
    match fd_kind f with
    | Select => default value (List.find (fun o => eq_ignore_ascii_case o value) (fd_options f))
    | _ => value
    end
  end.

Definition validate_override (key value : str) : result str unit :=
  match field_of key with
  | None => Err (bs "unknown key: " ++ key)
  | Some f =>
    match fd_kind f with
    | Select =>
      if existsb (fun o => eq_ignore_ascii_case o value) (fd_options f) then Ok tt
      else Err (key ++ bs " must be one of: " ++ join ", " (fd_options f))
    | Number => if is_some (parse_u64 value) then Ok tt else Err (key ++ bs " must be a non-negative integer")
    | Text => Ok tt
    end
  end.

(** One iteration of the loop of [sanitize_overrides]. *)
Definition sanitize_step (out : gmap str str) (kv : str * str) : gmap str str :=
  let '(k, v) := kv in
  if negb (is_editable_key k) then out
  else
    let v := trim v in
    if is_empty v then out
    else
      match validate_override k v with
      | Err _ => out
      | Ok _ => <[k := normalize_override_value k v]> out
      end.

(** One iteration of the loop of [parse_overrides_json]. *)
Definition parse_step (out : gmap str str) (kv : str * str) : gmap str str :=
  let '(k, v) := kv in
  if negb (is_editable_key k) then out
  else let v := trim v in if is_empty v then out else <[k := v]> out.

(** What the management interface shows of a field. *)
Record RuntimeEnvFieldView := mkRuntimeEnvFieldView {
  fv_key : str;
  fv_label : str;
  fv_description : str;
  fv_field_type : str;
  fv_options : list str;
  fv_override_value : option str;
  fv_effective_value : option str;
  fv_source : str;
}.

Record RuntimeEnvSettings := mkRuntimeEnvSettings {
  rs_editable : bool;
  rs_restart_required : bool;
  rs_overrides : gmap str str;
  rs_fields : list RuntimeEnvFieldView;
}.

Definition kind_name (k : FieldKind) : str :=
  match k with Text => bs "text" | Number => bs "number" | Select => bs "select" end.

Definition field_view (e : ProcEnv) (overrides : gmap str str) (f : RuntimeEnvField) : RuntimeEnvFieldView :=
  let override_value := overrides !! fd_key f in
  let env_value := opt_filter (fun s => negb (is_empty (trim s))) (var e (fd_key f)) in
  let '(effective, source) :=
    match env_value with
    | Some v =>
      if bool_decide (override_value = Some v) then
        if is_some override_value then (Some v, bs "override") else (Some v, bs "env")
      else (Some v, bs "env")
    | None =>
      match override_value with
      | Some ov => (Some ov, bs "pending")
      | None => (None, bs "default")
      end
    end in
  mkRuntimeEnvFieldView (fd_key f) (fd_label f) (fd_description f) (kind_name (fd_kind f)) (fd_options f)
    override_value effective source.

Definition build_settings (e : ProcEnv) (editable : bool) (overrides : gmap str str) : RuntimeEnvSettings :=
  mkRuntimeEnvSettings editable true overrides (field_view e overrides <$> editable_fields).

Section overrides.
Context `{Formats}.
(** The iteration order of a map of strings. *)
Variable iter : gmap str str -> list (str * str).

Definition sanitize_overrides (input : gmap str str) : gmap str str := foldl sanitize_step ∅ (iter input).

Definition parse_overrides_json (json : str) : gmap str str :=
  foldl parse_step ∅ (iter (default ∅ (creds_from_json json))).

(** *** In the database (db/mod.rs) *)

Definition get_runtime_env_overrides : Db (gmap str str) :=
  json ← get_config_json RUNTIME_ENV_KEY;
  mret (from_option parse_overrides_json ∅ json).

Definition save_runtime_env_overrides (overrides : gmap str str) : Db unit :=
  save_config_json RUNTIME_ENV_KEY (creds_json (sanitize_overrides overrides)).

(** [file_exists] says whether the database file is there: without it, nothing is stored. *)
Definition load_overrides_from_db_path (file_exists : bool) : Db (gmap str str) :=
  if file_exists then get_runtime_env_overrides else mret ∅.

(** The first step of [main]: a failure to load leaves the environment alone. *)
Definition start_env (file_exists : bool) (e : ProcEnv) (d : DbState) : option ProcEnv * DbState :=
  match load_overrides_from_db_path file_exists d with
  | (Ok overrides, d') => (snd <$> apply_overrides (iter overrides) e, d')
  | (Err _, d') => (Some e, d')
  end.

(** *** Handlers (api/mod.rs) *)

Variable db_text : DbError -> str.
Variable E : AdminEnv.
(** The environment of the running process. *)
Variable e : ProcEnv.

Definition runtime_env_get : Api RuntimeEnvSettings := fun s =>
  let editable := negb (ae_viewer_mode E) && is_some (ad_db s) in
  match ad_db s with
  | None => (Ok (build_settings e editable ∅), s)
  | Some _ => (overrides ← db_call db_text get_runtime_env_overrides; mret (build_settings e editable overrides)) s
  end.

(** The check of every submitted value, in the order of the map. *)
Fixpoint validate_all (l : list (str * str)) : Api unit :=
  match l with
  | [] => mret tt
  | (key, value) :: rest =>
    let value := trim value in
    if is_empty value then validate_all rest
    else
      match validate_override key value with
      | Err msg => api_fail 400 msg
      | Ok _ => validate_all rest
      end
  end.

Definition runtime_env_put (body : gmap str str) : Api RuntimeEnvSettings :=
  if ae_viewer_mode E then
    api_fail 403 "runtime env is read-only in ingress mode; manage via Helm / process env"
  else
    _ ← require_db;
    _ ← validate_all (iter body);
    let sanitized := sanitize_overrides body in
    _ ← db_call db_text (save_runtime_env_overrides sanitized);
    _ ← log_reload E (bs "runtime env overrides saved (" ++ show_N (N.of_nat (size sanitized)) ++ bs " keys); restart required");
    mret (build_settings e true sanitized).

End overrides.

(** ** Threads and listeners (runtime.rs) *)

Inductive RuntimeMode : Type := ModeAuto | ModeStandard | ModePerformance.

#[export] Instance runtime_mode_eq_dec : EqDecision RuntimeMode.
Proof. solve_decision. Defined.

Definition mode_as_str (m : RuntimeMode) : str :=
  match m with ModeAuto => bs "auto" | ModeStandard => bs "standard" | ModePerformance => bs "performance" end.

Definition mode_from_str (value : str) : option RuntimeMode :=
  let v := to_ascii_lowercase (trim value) in
  if (v =s "") || (v =s "auto") then Some ModeAuto
  else if (v =s "standard") || (v =s "default") then Some ModeStandard
  else if (v =s "performance") || (v =s "perf") then Some ModePerformance
  else None.

Record RuntimeConfig := mkRuntimeConfig {
  requested_mode : RuntimeMode;
  resolved_mode : RuntimeMode;
  worker_threads : N;
  max_blocking_threads : N;
}.

Record RuntimeEnv := mkRuntimeEnv {
  mode_var : str;
  mode_fallback_var : option str;
  use_cpu_limit : bool;
}.

Definition proxy_runtime_env : RuntimeEnv := mkRuntimeEnv "PERTISK_PROXY_MODE" None false.
Definition ingress_runtime_env : RuntimeEnv :=
  mkRuntimeEnv "PERTISK_INGRESS_MODE" (Some (bs "PERTISK_PROXY_MODE")) true.

Section runtime.
(** The environment and [available_parallelism], at least one. *)
Variable e : ProcEnv.
Variable cpus : N.

Definition resolve_mode (mode : RuntimeMode) : RuntimeMode :=
  match mode with
  | ModeAuto => if 4 <=? cpus then ModePerformance else ModeStandard
  | other => other
  end.

Definition read_requested_mode (env : RuntimeEnv) : result str RuntimeMode :=
  let raw := default (bs "auto") (or_else (var e (mode_var env)) (n ← mode_fallback_var env; var e n)) in
  ok_or (mode_from_str raw)
    (mode_var env ++ bs " must be one of: auto, standard, performance (got: " ++ raw ++ bs ")").

Definition env_u64 (name : str) : option N := v ← var e name; parse_u64 (trim v).
(** [usize] is as wide as [u64]. *)
Definition env_usize (name : str) : option N := env_u64 name.
Definition positive (n : N) : bool := 0 <? n.

Definition worker_threads_from_cpu_limit : option N :=
  (fun millicores => N.max 1 (millicores / 1000)) <$> env_usize "PERTISK_CPU_LIMIT_MILLICORES".

Definition runtime_config_from_env (env : RuntimeEnv) : result str RuntimeConfig :=
  requested ← read_requested_mode env;
  let resolved := resolve_mode requested in
  let workers := default cpus
    (or_else (opt_filter positive (env_usize "PERTISK_WORKER_THREADS"))
       (if use_cpu_limit env then worker_threads_from_cpu_limit else None)) in
  let blocking := default
    (match resolved with ModePerformance => N.max 512 (saturating_mul u64_max cpus 64) | _ => 512 end)
    (opt_filter positive (env_usize "PERTISK_MAX_BLOCKING_THREADS")) in
  mret (mkRuntimeConfig requested resolved workers blocking).

Definition is_performance_mode (cfg : RuntimeConfig) : bool := bool_decide (resolved_mode cfg = ModePerformance).

(** [str::parse::<i32>]. *)
Definition i32_max : Z := 2 ^ 31 - 1.
Definition read_i32 (s : str) : option Z :=
  opt_filter (fun z => (- 2 ^ 31 <=? z)%Z && (z <=? i32_max)%Z) (parse_i64 s).

Definition tcp_listen_backlog (cfg : RuntimeConfig) : Z :=
  match opt_filter (fun z => (0 <? z)%Z) (v ← var e "PERTISK_TCP_LISTEN_BACKLOG"; read_i32 (trim v)) with
  | Some value => value
  | None => if is_performance_mode cfg then 8192 else 1024
  end.

Definition pingora_service_threads (cfg : RuntimeConfig) : N :=
  match opt_filter positive (env_usize "PERTISK_PINGORA_THREADS") with
  | Some value => value
  | None =>
    let cpus := default cpus worker_threads_from_cpu_limit in
    match resolved_mode cfg with
    | ModePerformance => cpus
    | ModeStandard => N.max 1 (cpus / 2)
    | ModeAuto => cpus
    end
  end.

Definition h3_worker_threads (cfg : RuntimeConfig) : N := N.max 1 (worker_threads cfg / 2).

Definition pingora_listener_tasks_per_fd (cfg : RuntimeConfig) : N :=
  match opt_filter positive (env_usize "PERTISK_PINGORA_LISTENER_TASKS") with
  | Some value => value
  | None => match resolved_mode cfg with ModePerformance => 4 | _ => 1 end
  end.

Definition grace_period_seconds : N := default 15 (opt_filter positive (env_u64 "PERTISK_GRACE_PERIOD_SECONDS")).

Definition graceful_shutdown_timeout_seconds : N :=
  default 10 (opt_filter positive (env_u64 "PERTISK_GRACEFUL_SHUTDOWN_TIMEOUT_SECONDS")).

Record DownstreamTcpKeepalive := mkDownstreamTcpKeepalive {
  ka_enabled : bool;
  ka_idle_secs : N;
  ka_interval_secs : N;
  ka_count : N;
}.

Definition downstream_tcp_keepalive_config : DownstreamTcpKeepalive :=
  let enabled :=
    match (fun v => to_ascii_lowercase (trim v)) <$> var e "PERTISK_TCP_KEEPALIVE" with
    | None => true
    | Some v =>
      if (v =s "0") || (v =s "false") || (v =s "off") || (v =s "no") then false
      else if (v =s "1") || (v =s "true") || (v =s "on") || (v =s "yes") then true
      else from_option (fun n => negb (n =? 0)) true (parse_u64 v)
    end in
  mkDownstreamTcpKeepalive enabled
    (default 60 (env_u64 "PERTISK_TCP_KEEPALIVE_IDLE_SECS"))
    (default 10 (env_u64 "PERTISK_TCP_KEEPALIVE_INTERVAL_SECS"))
    (default 5 (env_usize "PERTISK_TCP_KEEPALIVE_COUNT")).

(** [TcpKeepalive]: idle, interval, count. *)
Definition downstream_tcp_keepalive : option (N * N * N) :=
  let cfg := downstream_tcp_keepalive_config in
  if negb (ka_enabled cfg) || (ka_idle_secs cfg =? 0) || (ka_interval_secs cfg =? 0) || (ka_count cfg =? 0) then None
  else Some (ka_idle_secs cfg, ka_interval_secs cfg, ka_count cfg).

(** The fields of [ServerConf] that are set; the pool size is the library's when
    the mode is not performance. *)
Record ServerConf := mkServerConf {
  sc_threads : N;
  sc_listener_tasks_per_fd : N;
  sc_grace_period_seconds : option N;
  sc_graceful_shutdown_timeout_seconds : option N;
  sc_upstream_keepalive_pool_size : N;
}.

Definition pingora_server_conf (default_pool_size : N) (cfg : RuntimeConfig) : ServerConf :=
  mkServerConf (pingora_service_threads cfg) (pingora_listener_tasks_per_fd cfg)
    (Some grace_period_seconds) (Some graceful_shutdown_timeout_seconds)
    (if is_performance_mode cfg then 512 else default_pool_size).

End runtime.

(** ** Addresses and files (config/common.rs, config/proxy.rs, config/ingress.rs) *)

Record ServerConfig := mkServerConfig {
  http_listen : str;
  https_listen : str;
  h3_udp_listen : str;
  enable_h3 : bool;
  enable_h2 : bool;
  tls_cert_path : option str;
  tls_key_path : option str;
}.

Definition env_bool_parse (value : str) : bool :=
  let v := to_ascii_lowercase value in (v =s "1") || (v =s "true") || (v =s "yes").

Section config.
Variable e : ProcEnv.
(** The features of the build rule HTTP/3 out: ACME together with Quiche, or neither
    server on macOS. *)
Variable h3_excluded : bool.

Definition env_listen (listen_key pertisk_key dflt : str) : str :=
  default dflt (or_else (var e listen_key) (var e pertisk_key)).

Definition env_bool (key : str) (dflt : bool) : bool := from_option env_bool_parse dflt (var e key).

Definition resolve_enable_h3 (requested : bool) : bool := requested && negb h3_excluded.

Definition from_env_proxy_defaults : ServerConfig :=
  mkServerConfig
    (env_listen "LISTEN_HTTP" "PERTISK_HTTP_ADDR" "[::]:80")
    (env_listen "LISTEN_HTTPS" "PERTISK_HTTPS_ADDR" "[::]:443")
    (env_listen "LISTEN_H3_UDP" "PERTISK_HTTP3_ADDR" "[::]:443")
    (resolve_enable_h3 (env_bool "ENABLE_H3" true))
    (env_bool "PERTISK_ENABLE_H2" true)
    (var e "TLS_CERT_PATH") (var e "TLS_KEY_PATH").

Definition from_env_ingress_defaults : ServerConfig :=
  mkServerConfig
    (env_listen "LISTEN_HTTP" "PERTISK_HTTP_ADDR" "0.0.0.0:8080")
    (env_listen "LISTEN_HTTPS" "PERTISK_HTTPS_ADDR" "0.0.0.0:8443")
    (env_listen "LISTEN_H3_UDP" "PERTISK_HTTP3_ADDR" "[::]:8443")
    (resolve_enable_h3 (env_bool "ENABLE_H3" true))
    (env_bool "PERTISK_ENABLE_H2" true)
    (var e "TLS_CERT_PATH") (var e "TLS_KEY_PATH").

(** On Linux. *)
Definition default_db_path : str := bs "/var/lib/pertisk-proxy/proxy.sqlite".
Definition resolve_db_path : str := default default_db_path (var e "PERTISK_DB_PATH").

(** [listen.rsplit(':').next()?.parse().ok()]: the text after the last colon. *)
Definition parse_port (listen : str) : option N :=
  parse_u16 (match rsplit_once ":" listen with Some (_, p) => p | None => listen end).

Definition https_port (c : ServerConfig) : N := default 443 (parse_port (https_listen c)).
Definition h3_port (c : ServerConfig) : N := default (https_port c) (parse_port (h3_udp_listen c)).

Definition http3_advertised_port (c : ServerConfig) : N :=
  default (https_port c)
    (opt_filter positive (v ← var e "PERTISK_HTTP3_ADVERTISED_PORT"; parse_u16 (trim v))).

(** [tls_cert_path()] and [tls_key_path()]: the paths came from UTF-8 values. *)
Definition config_tls_cert_path (c : ServerConfig) : result str str :=
  ok_or (tls_cert_path c) (bs "TLS_CERT_PATH is not configured").
Definition config_tls_key_path (c : ServerConfig) : result str str :=
  ok_or (tls_key_path c) (bs "TLS_KEY_PATH is not configured").

Definition ensure_tls_pair (cert key : option str) (reason : str) : result str unit :=
  if is_some cert && is_some key then Ok tt
  else Err (reason ++ bs " requires TLS_CERT_PATH and TLS_KEY_PATH to be set").

Definition validate_tls (c : ServerConfig) : result str unit :=
  if (is_some (tls_cert_path c) || is_some (tls_key_path c))
     && negb (is_some (tls_cert_path c) && is_some (tls_key_path c))
  then ensure_tls_pair (tls_cert_path c) (tls_key_path c) "TLS"
  else Ok tt.

Record ProxyEnv := mkProxyEnv {
  pe_server : ServerConfig;
  pe_db_path : str;
  pe_auto_https : bool;
  pe_migrate_routes_path : option str;
}.

Definition proxy_config_from_env (is_file : str -> bool) : result str ProxyEnv :=
  let server := from_env_proxy_defaults in
  let migrate := opt_filter is_file (or_else (var e "ROUTES_CONFIG") (var e "PERTISK_ROUTES_CONFIG")) in
  let auto_https := from_option env_bool_parse false (var e "AUTO_HTTPS") in
  let env_tls_configured := is_some (tls_cert_path server) && is_some (tls_key_path server) in
  if (is_some (tls_cert_path server) || is_some (tls_key_path server)) && negb env_tls_configured then
    Err (bs "TLS_CERT_PATH and TLS_KEY_PATH must both be set when using global TLS")
  else Ok (mkProxyEnv server resolve_db_path auto_https migrate).

Record IngressEnv := mkIngressEnv {
  ie_server : ServerConfig;
  ie_ingress_class : option str;
  ie_watch_all_namespaces : bool;
  ie_watch_namespace : option str;
}.

Definition ingress_config_from_env : IngressEnv :=
  mkIngressEnv from_env_ingress_defaults (var e "INGRESS_CLASS") (env_bool "WATCH_ALL_NAMESPACES" true) (var e "WATCH_NAMESPACE").

End config.
