(* ===== verification/SettingsProps.v ===== *)
(** * What stored settings do

    Theorems about [Settings]: what is stored is well typed, storing is the same
    as storing twice, a start gives exactly the stored values to the variables that
    the process environment leaves open, and the numbers read from any environment
    are usable. *)

From S2P Require Import Prelude RustStr Ip GeoIp Waf Bot Captcha Security Edge EdgeAuth ProxyConfig Router Forward Apply.
From S2P Require Import Telemetry CertStore Database Admin AdminProps Settings.

(** ** The table of fields *)

Definition clean_word (s : str) : bool :=
  negb (is_empty s) && bool_decide (trim s = s) && negb (contains_byte x00 s) && utf8_valid s.

(** Keys can be set, every option is the one found for itself, no field is free text. *)
Definition field_ok (f : RuntimeEnvField) : bool :=
  clean_word (fd_key f) && negb (contains_byte "="%byte (fd_key f)) &&
  forallb (fun o => clean_word o && bool_decide (List.find (fun o' => eq_ignore_ascii_case o' o) (fd_options f) = Some o))
    (fd_options f) &&
  match fd_kind f with Text => false | _ => true end.

Lemma editable_fields_ok : forallb field_ok editable_fields = true.
Proof. vm_compute. reflexivity. Qed.

Lemma field_of_ok k f : field_of k = Some f -> fd_key f = k /\ field_ok f = true.
Proof.
  intros [Hin Hk]%find_some. apply str_eqb_eq in Hk. split; [done|].
  pose proof editable_fields_ok as Hall. rewrite forallb_forall in Hall. by apply Hall.
Qed.

Lemma is_editable_field k : is_editable_key k = is_some (field_of k).
Proof.
  unfold is_editable_key, field_of. induction editable_fields as [|f l IH]; [done|]. cbn.
  by destruct (fd_key f =s k).
Qed.

(** ** Digits *)

(** What parses as an unsigned integer is graphic ASCII. *)
Lemma parse_uint_graphic max s n : parse_uint max s = Some n -> Forall (fun b => graphic b = true) s.
Proof.
  assert (Hd : forall l, Forall (fun b => is_ascii_digit b = true) l -> Forall (fun b => graphic b = true) l).
  { intros l Hl. eapply Forall_impl; [exact Hl|]. apply digit_graphic. }
  unfold parse_uint. destruct s as [|c s]; [done|]. destruct (bool_decide_reflect (c = x2b)) as [->|].
  - destruct s as [|d s]; [done|]. intros [H _]%opt_filter_Some.
    constructor; [done|]. apply Hd. by eapply parse_digits_all.
  - intros [H _]%opt_filter_Some. apply Hd. by eapply parse_digits_all.
Qed.

Lemma graphic_clean s : s <> [] -> Forall (fun b => graphic b = true) s -> clean_word s = true.
Proof.
  intros Hne Hg. unfold clean_word. rewrite (proj2 (is_empty_false s) Hne), bool_decide_true by (by apply trim_all_graphic).
  rewrite (proj2 (contains_byte_false x00 s)).
  - cbn. apply utf8_valid_all_ascii. eapply Forall_impl; [exact Hg|]. intros b Hb. unfold graphic, is_ascii in *.
    apply andb_prop in Hb as [_ Hb]. apply N.leb_le in Hb. apply N.ltb_lt. lia.
  - intros Hin. rewrite Forall_forall in Hg. by specialize (Hg _ Hin).
Qed.

(** ** The type of a stored value *)

Definition well_typed (k v : str) : Prop :=
  exists f, field_of k = Some f /\ trim v = v /\ v <> [] /\
    match fd_kind f with Select => v ∈ fd_options f | Number => is_Some (parse_u64 v) | Text => True end.

(** What [sanitize_overrides] keeps of one submitted value. *)
Definition clean (k raw : str) : option str :=
  let v := trim raw in
  if is_empty v then None
  else if is_ok (validate_override k v) then Some (normalize_override_value k v) else None.

Lemma validate_field k v : validate_override k v = Ok tt -> exists f, field_of k = Some f /\
  match fd_kind f with
  | Select => exists o, List.find (fun o => eq_ignore_ascii_case o v) (fd_options f) = Some o
  | Number => is_Some (parse_u64 v)
  | Text => True
  end.
Proof.
  unfold validate_override. destruct (field_of k) as [f|]; [|done]. intros Hv. exists f. split; [done|].
  destruct (fd_kind f); [done| |].
  - destruct (is_some (parse_u64 v)) eqn:E; [|done]. by apply is_some_true.
  - destruct (existsb _ _) eqn:E; [|done]. destruct (List.find _ _) as [o|] eqn:Ef; [by exists o|].
    apply existsb_exists in E as (o & Hin & Ho). by rewrite (find_none _ _ Ef o Hin) in Ho.
Qed.

Lemma option_found k f o : field_of k = Some f -> o ∈ fd_options f ->
  clean_word o = true /\ List.find (fun o' => eq_ignore_ascii_case o' o) (fd_options f) = Some o.
Proof.
  intros [_ Hok]%field_of_ok Hin. unfold field_ok in Hok. rewrite !andb_true_iff in Hok.
  destruct Hok as [[_ Hopts] _]. rewrite forallb_forall in Hopts.
  apply list_elem_of_In, Hopts in Hin. apply andb_prop in Hin as [H1 H2]. split; [done|]. by apply bool_decide_eq_true in H2.
Qed.

Lemma clean_word_parts s : clean_word s = true -> s <> [] /\ trim s = s /\ (x00 ∉ s) /\ utf8_valid s = true.
Proof.
  unfold clean_word. rewrite !andb_true_iff, !negb_true_iff. intros [[[H1 H2] H3] H4].
  apply is_empty_false in H1. apply bool_decide_eq_true in H2. by apply contains_byte_false in H3.
Qed.

(** A well-typed value is unchanged by another round. *)
Lemma well_typed_clean k v : well_typed k v -> clean k v = Some v /\ clean_word v = true.
Proof.
  intros (f & Hf & Ht & Hne & Hk). pose proof Hf as [_ Hok]%field_of_ok.
  unfold clean. rewrite Ht, (proj2 (is_empty_false v) Hne). unfold validate_override, normalize_override_value. rewrite Hf.
  destruct (fd_kind f) eqn:Ek.
  - unfold field_ok in Hok. rewrite Ek, andb_false_r in Hok. done.
  - rewrite (proj2 (is_some_true _) Hk). cbn. split; [done|]. destruct Hk as [n Hn].
    apply graphic_clean; [done|]. by eapply parse_uint_graphic.
  - destruct (option_found k f v Hf Hk) as [Hc Hfind]. rewrite Hfind. cbn.
    rewrite (proj2 (existsb_exists _ _)); [done|]. exists v. split; [by apply list_elem_of_In|]. apply eq_ignore_ascii_case_refl.
Qed.

Lemma clean_well_typed k raw v : clean k raw = Some v -> well_typed k v.
Proof.
  unfold clean. destruct (is_empty (trim raw)) eqn:Ee; [done|]. apply is_empty_false in Ee.
  destruct (validate_override k (trim raw)) as [[]|] eqn:Ev; [|done]. cbn. intros [= <-].
  destruct (validate_field _ _ Ev) as (f & Hf & Hk). exists f. split; [done|].
  unfold normalize_override_value. rewrite Hf. destruct (fd_kind f).
  - by rewrite trim_idemp.
  - by rewrite trim_idemp.
  - destruct Hk as [o Ho]. rewrite Ho. cbn. apply find_some in Ho as [Hin _]. apply list_elem_of_In in Hin.
    destruct (option_found k f o Hf Hin) as [(? & ? & ?)%clean_word_parts _]. done.
Qed.

Lemma well_typed_editable k v : well_typed k v -> is_editable_key k = true.
Proof. intros (f & Hf & _). by rewrite is_editable_field, Hf. Qed.

(** ** Loops over a map *)

Section loops.
Variable g : str -> str -> option str.

Definition put_step (out : gmap str str) (kv : str * str) : gmap str str :=
  match g kv.1 kv.2 with Some v => <[kv.1 := v]> out | None => out end.

Lemma put_loop l out k : NoDup l.*1 ->
  foldl put_step out l !! k = match (list_to_map l : gmap str str) !! k with
                              | Some v => match g k v with Some v' => Some v' | None => out !! k end
                              | None => out !! k
                              end.
Proof.
  revert out. induction l as [|[k' v'] l IH]; intros out Hnd; [done|].
  inversion Hnd as [|? ? Hni Hnd']; subst. cbn. rewrite (IH _ Hnd'). unfold put_step. cbn [fst snd].
  destruct (decide (k' = k)) as [->|Hne].
  - rewrite lookup_insert_eq. rewrite (not_elem_of_list_to_map_1 l k Hni).
    destruct (g k v'); [by rewrite lookup_insert_eq|done].
  - rewrite lookup_insert_ne by done. destruct (_ !! k) as [w|]; [|destruct (g k' v'); [by rewrite lookup_insert_ne|done]].
    destruct (g k w); [done|]. destruct (g k' v'); [by rewrite lookup_insert_ne|done].
Qed.

End loops.

Lemma foldl_ext_step {A B} (f g : A -> B -> A) l a : (forall a b, f a b = g a b) -> foldl f a l = foldl g a l.
Proof. intros H. revert a. induction l as [|b l IH]; intros a; [done|]. cbn. by rewrite H, IH. Qed.

Lemma sanitize_step_put out kv : sanitize_step out kv = put_step clean out kv.
Proof.
  destruct kv as [k v]. unfold sanitize_step, put_step, clean. cbn [fst snd]. cbv zeta.
  destruct (is_empty (trim v)); [by destruct (is_editable_key k)|].
  rewrite is_editable_field. destruct (validate_override k (trim v)) as [[]|] eqn:Ev; cbn [is_ok].
  - destruct (validate_field _ _ Ev) as (f & -> & _). done.
  - by destruct (is_some (field_of k)).
Qed.

(** [parse_overrides_json] trims and keeps what is not empty. *)
Definition kept (k raw : str) : option str :=
  if is_editable_key k && negb (is_empty (trim raw)) then Some (trim raw) else None.

Lemma parse_step_put out kv : parse_step out kv = put_step kept out kv.
Proof.
  destruct kv as [k v]. unfold parse_step, put_step, kept. cbn [fst snd]. cbv zeta.
  destruct (is_editable_key k); [|done]. by destruct (is_empty (trim v)).
Qed.

Lemma well_typed_kept k v : well_typed k v -> kept k v = Some v.
Proof.
  intros Hw. unfold kept. rewrite (well_typed_editable _ _ Hw). destruct Hw as (f & _ & Ht & Hne & _).
  by rewrite Ht, (proj2 (is_empty_false v) Hne).
Qed.

Section props.
Context `{Formats}.
Variable iter : gmap str str -> list (str * str).
Hypothesis iter_perm : forall m, iter m ≡ₚ map_to_list m.

Abbreviation sanitize_overrides := (sanitize_overrides iter).

Lemma iter_nodup m : NoDup (iter m).*1.
Proof. rewrite (iter_perm m). apply NoDup_fst_map_to_list. Qed.

Lemma iter_map m : list_to_map (iter m) = m.
Proof. rewrite (list_to_map_proper _ (map_to_list m)); [apply list_to_map_to_list|apply iter_nodup|apply iter_perm]. Qed.

Lemma loop_lookup (g : str -> str -> option str) (step : gmap str str -> str * str -> gmap str str) m k :
  (forall out kv, step out kv = put_step g out kv) -> foldl step ∅ (iter m) !! k = (m !! k) ≫= g k.
Proof.
  intros Hs. rewrite (foldl_ext_step _ _ _ _ Hs), put_loop, iter_map, lookup_empty by apply iter_nodup.
  destruct (m !! k) as [v|]; [|done]. cbn. by destruct (g k v).
Qed.

Lemma sanitize_lookup m k : sanitize_overrides m !! k = (m !! k) ≫= clean k.
Proof. apply loop_lookup, sanitize_step_put. Qed.

Lemma sanitize_well_typed m k v : sanitize_overrides m !! k = Some v -> well_typed k v.
Proof.
  rewrite sanitize_lookup. destruct (m !! k) as [raw|]; [|done]. cbn. apply clean_well_typed.
Qed.

Lemma sanitize_idemp m : sanitize_overrides (sanitize_overrides m) = sanitize_overrides m.
Proof.
  apply map_eq. intros k. rewrite sanitize_lookup. destruct (sanitize_overrides m !! k) as [v|] eqn:E; [|done].
  cbn. by apply well_typed_clean, sanitize_well_typed with m.
Qed.

Lemma parse_saved m : parse_overrides_json iter (creds_json (sanitize_overrides m)) = sanitize_overrides m.
Proof.
  unfold parse_overrides_json. rewrite creds_json_parse. cbn [default from_option id]. apply map_eq. intros k.
  rewrite (loop_lookup kept) by apply parse_step_put.
  destruct (sanitize_overrides m !! k) as [v|] eqn:E; [|done]. cbn. by apply well_typed_kept, sanitize_well_typed with m.
Qed.

(** ** Applying overrides at a start *)

Lemma set_var_well_typed k v e : well_typed k v -> set_var k v e = Some (<[k := v]> e).
Proof.
  intros Hw. pose proof (well_typed_clean _ _ Hw) as [_ (_ & _ & Hz & _)%clean_word_parts].
  destruct Hw as (f & Hf & _). apply field_of_ok in Hf as [<- Hok]. unfold field_ok in Hok. rewrite !andb_true_iff in Hok.
  destruct Hok as [[[(? & _ & ? & _)%clean_word_parts Heq] _] _]. unfold set_var.
  rewrite (proj2 (is_empty_false (fd_key f))), (proj2 (contains_byte_false x00 (fd_key f))), (proj2 (contains_byte_false x00 v)) by done.
  by apply negb_true_iff in Heq as ->.
Qed.

(** The number of variables a list sets. *)
Definition fresh (e : ProcEnv) (l : list (str * str)) : N := N.of_nat (length (filter (fun kv => e !! kv.1 = None) l)).

Lemma fresh_insert k v e l : k ∉ l.*1 -> fresh (<[k := v]> e) l = fresh e l.
Proof.
  unfold fresh. intros Hni. f_equal. induction l as [|[j w] l IH]; [done|]. cbn in Hni. apply not_elem_of_cons in Hni as [Hj Hl].
  rewrite !filter_cons. cbn [fst]. rewrite lookup_insert_ne by done. specialize (IH Hl). destruct (decide _); cbn; congruence.
Qed.

Lemma apply_overrides_spec l e : NoDup l.*1 -> Forall (fun kv => well_typed kv.1 kv.2) l ->
  apply_overrides l e = Some (fresh e l, e ∪ list_to_map l).
Proof.
  revert e. induction l as [|[k v] l IH]; intros e Hnd Hw.
  { cbn. unfold fresh. cbn. by rewrite (right_id_L ∅ (∪)). }
  inversion Hnd as [|? ? Hni Hnd']; inversion Hw as [|? ? Hk Hw']; subst. cbn in Hk.
  cbn [apply_overrides]. rewrite (well_typed_editable _ _ Hk). cbn [negb].
  pose proof Hk as (_ & _ & Ht & Hne & _). rewrite Ht, (proj2 (is_empty_false v) Hne).
  destruct (e !! k) as [old|] eqn:E; cbn [is_some].
  - rewrite (IH _ Hnd' Hw'). f_equal. f_equal.
    + unfold fresh. rewrite filter_cons_False by (cbn; congruence). done.
    + cbn. apply map_eq. intros j. rewrite !lookup_union. destruct (decide (j = k)) as [->|Hj].
      * by rewrite E, !union_Some_l.
      * by rewrite lookup_insert_ne by congruence.
  - rewrite (set_var_well_typed _ _ _ Hk). cbn [mbind option_bind]. rewrite (IH _ Hnd' Hw'). cbn [mbind option_bind].
    f_equal. f_equal.
    + rewrite (fresh_insert _ _ _ _ Hni). unfold fresh. rewrite filter_cons_True by done. cbn [length]. lia.
    + cbn. rewrite <- insert_union_l. by apply insert_union_r.
Qed.

Lemma apply_sanitized m e :
  apply_overrides (iter (sanitize_overrides m)) e = Some (fresh e (iter (sanitize_overrides m)), e ∪ sanitize_overrides m).
Proof.
  rewrite apply_overrides_spec, iter_map; [done|apply iter_nodup|]. rewrite Forall_forall. intros [k v] Hin. cbn.
  rewrite (iter_perm _), elem_of_map_to_list in Hin. by eapply sanitize_well_typed.
Qed.

(** ** Storing through the management interface *)

Variable db_text : DbError -> str.
Variable E : AdminEnv.
Variable e0 : ProcEnv.
Abbreviation runtime_env_put := (runtime_env_put iter db_text E e0).

(** What a submitted value becomes: trimmed, an option in its own spelling; blank
    values are not stored. *)
Definition submitted (body : gmap str str) (k : str) : option str :=
  raw ← body !! k; if is_empty (trim raw) then None else Some (normalize_override_value k (trim raw)).

Definition acceptable (kv : str * str) : Prop := trim kv.2 <> [] -> validate_override kv.1 (trim kv.2) = Ok tt.

Lemma validate_all_spec l s : 
  (validate_all l s = (Ok tt, s) /\ Forall acceptable l) \/
  (exists msg, validate_all l s = (Err (mkApiError 400 msg), s) /\ ~ Forall acceptable l).
Proof.
  induction l as [|[k v] l IH]; [by left|]. cbn [validate_all]. cbv zeta. destruct (is_empty (trim v)) eqn:Ee.
  - apply is_empty_nil in Ee. assert (Ha : acceptable (k, v)) by (unfold acceptable; cbn [fst snd]; congruence).
    destruct IH as [[-> Hl]|(msg & -> & Hn)]; [left; split; [done|by constructor]|]. right. exists msg. split; [done|].
    intros HF. by inversion HF.
  - apply is_empty_false in Ee. destruct (validate_override k (trim v)) as [[]|msg] eqn:Ev.
    + assert (Ha : acceptable (k, v)) by (intros _; exact Ev). destruct IH as [[-> Hl]|(msg & -> & Hn)]; [left; split; [done|by constructor]|]. right. exists msg. split; [done|].
      intros HF. by inversion HF.
    + right. exists msg. split; [done|]. intros HF. inversion HF as [|? ? Ha]; subst. specialize (Ha Ee). cbn [fst snd] in Ha. congruence.
Qed.

Lemma acceptable_sanitize m k : Forall acceptable (iter m) -> sanitize_overrides m !! k = submitted m k.
Proof.
  intros HF. rewrite sanitize_lookup. unfold submitted, clean. destruct (m !! k) as [raw|] eqn:Em; [|done]. cbn [mbind option_bind].
  cbv zeta. destruct (is_empty (trim raw)) eqn:Ee; [done|]. apply is_empty_false in Ee. rewrite Forall_forall in HF.
  assert (Hv : acceptable (k, raw)) by (apply HF; rewrite (iter_perm m); by apply elem_of_map_to_list).
  specialize (Hv Ee). cbn [fst snd] in Hv. by rewrite Hv.
Qed.

Lemma runtime_env_put_ok body s view s' : runtime_env_put body s = (Ok view, s') ->
  exists d, Forall acceptable (iter body) /\ view = build_settings e0 true (sanitize_overrides body) /\
    ad_db s' = Some d /\ t_config (db_tables d) !! RUNTIME_ENV_KEY = Some (creds_json (sanitize_overrides body)).
Proof.
  unfold Settings.runtime_env_put. destruct (ae_viewer_mode E); [done|]. unfold mbind, api_bind, require_db.
  destruct (ad_db s) as [d|] eqn:Ed; [|done].
  destruct (validate_all_spec (iter body) s) as [[-> HF]|(msg & -> & _)]; [|done].
  unfold db_call. rewrite Ed. unfold save_runtime_env_overrides, save_config_json, db_write, db_exec.
  rewrite sanitize_idemp.
  assert (Hgo : forall t, t_config (upd_config (insert RUNTIME_ENV_KEY (creds_json (sanitize_overrides body))) t) !! RUNTIME_ENV_KEY
    = Some (creds_json (sanitize_overrides body))) by (intros t; apply lookup_insert_eq).
  destruct (db_faults d) as [|[] fs]; [|done|]; intros [= <- <-]; eexists; (split; [done|]); (split; [done|]); (split; [reflexivity|]);
    apply Hgo.
Qed.

(** The next start, when the database can be read. *)
Lemma start_env_stored m d e : head (db_faults d) <> Some true ->
  t_config (db_tables d) !! RUNTIME_ENV_KEY = Some (creds_json (sanitize_overrides m)) ->
  (start_env iter true e d).1 = Some (e ∪ sanitize_overrides m).
Proof.
  intros Hf Hc. unfold start_env, load_overrides_from_db_path, get_runtime_env_overrides, get_config_json, db_read, db_exec.
  unfold mbind, db_bind. destruct (db_faults d) as [|[] fs]; cbn in Hf; [|done|]; rewrite Hc; unfold mret, db_ret; cbn [from_option];
    by rewrite parse_saved, apply_sanitized.
Qed.

End props.

(** ** Numbers read from the environment *)

Lemma env_usize_bound e name n : env_usize e name = Some n -> n <= u64_max.
Proof.
  unfold env_usize, env_u64. destruct (var e name) as [v|]; [|done]. cbn. apply parse_uint_bound.
Qed.

(** A positive number from a variable, or a fallback in range. *)
Lemma env_positive_range e name dflt : 1 <= dflt <= u64_max ->
  1 <= default dflt (opt_filter positive (env_usize e name)) <= u64_max.
Proof.
  intros Hd. destruct (opt_filter _ _) as [n|] eqn:E; [|done]. cbn.
  apply opt_filter_Some in E as [Hn%env_usize_bound Hp]. unfold positive in Hp. apply N.ltb_lt in Hp. lia.
Qed.

Lemma div_le_self n d : n / d <= n.
Proof. destruct (decide (d = 0)) as [->|]; [by destruct n|]. apply N.Div0.div_le_upper_bound. nia. Qed.

Lemma cpu_limit_range e n : worker_threads_from_cpu_limit e = Some n -> 1 <= n <= u64_max.
Proof.
  unfold worker_threads_from_cpu_limit. destruct (env_usize e _) as [m|] eqn:Em; [|done]. intros [= <-].
  apply env_usize_bound in Em. unfold u64_max in *. pose proof (div_le_self m 1000). lia.
Qed.

Lemma match_default {A} (o : option A) d : match o with Some v => v | None => d end = default d o.
Proof. by destruct o. Qed.

Section runtime_props.
Variable e : ProcEnv.
Variable cpus : N.
Hypothesis cpus_range : 1 <= cpus <= u64_max.

Lemma worker_threads_range env cfg : runtime_config_from_env e cpus env = Ok cfg -> 1 <= worker_threads cfg <= u64_max.
Proof.
  unfold runtime_config_from_env. destruct (read_requested_mode e env); [|done]. intros [= <-]. cbn [worker_threads].
  destruct (opt_filter positive _) as [n|] eqn:En; cbn.
  - apply opt_filter_Some in En as [Hn%env_usize_bound Hp]. unfold positive in Hp. apply N.ltb_lt in Hp. lia.
  - destruct (use_cpu_limit env); [|done]. destruct (worker_threads_from_cpu_limit e) eqn:El; [|done]. by apply cpu_limit_range in El.
Qed.

Lemma max_blocking_range env cfg : runtime_config_from_env e cpus env = Ok cfg -> 1 <= max_blocking_threads cfg <= u64_max.
Proof.
  unfold runtime_config_from_env. destruct (read_requested_mode e env); [|done]. intros [= <-]. cbn [max_blocking_threads].
  apply env_positive_range. unfold saturating_mul, u64_max in *. destruct (resolve_mode _ _); lia.
Qed.

Lemma service_threads_range cfg : 1 <= pingora_service_threads e cpus cfg <= u64_max.
Proof.
  unfold pingora_service_threads. rewrite match_default. apply env_positive_range.
  assert (Hc : 1 <= default cpus (worker_threads_from_cpu_limit e) <= u64_max).
  { destruct (worker_threads_from_cpu_limit e) eqn:El; [by apply cpu_limit_range in El|done]. }
  destruct (resolved_mode cfg); [done| |done]. cbn zeta. set (c := default _ _) in *.
  pose proof (div_le_self c 2). lia.
Qed.

Lemma listener_tasks_range cfg : 1 <= pingora_listener_tasks_per_fd e cfg <= u64_max.
Proof.
  unfold pingora_listener_tasks_per_fd. rewrite match_default. apply env_positive_range.
  unfold u64_max. destruct (resolved_mode cfg); lia.
Qed.

Lemma backlog_range cfg : (1 <= tcp_listen_backlog e cfg <= i32_max)%Z.
Proof.
  unfold tcp_listen_backlog. destruct (opt_filter _ _) as [z|] eqn:Ez.
  - apply opt_filter_Some in Ez as [Hz Hp]. apply Z.ltb_lt in Hp. destruct (var e _) as [v|]; [|done]. cbn in Hz.
    apply opt_filter_Some in Hz as [_ Hr]. apply andb_prop in Hr as [_ Hr]. apply Z.leb_le in Hr. lia.
  - unfold i32_max. destruct (is_performance_mode cfg); lia.
Qed.

Lemma keepalive_positive idle interval count : downstream_tcp_keepalive e = Some (idle, interval, count) ->
  1 <= idle /\ 1 <= interval /\ 1 <= count.
Proof.
  unfold downstream_tcp_keepalive. generalize (downstream_tcp_keepalive_config e). intros cfg. cbv zeta. destruct (_ || _) eqn:E; [done|]. rewrite !orb_false_iff, !N.eqb_neq in E.
  destruct E as [[[_ ?] ?] ?]. intros [= <- <- <-]. lia.
Qed.

(** Whatever the environment holds, a runtime configuration that is accepted has
    resolved its mode and asks for at least one and at most the largest number of
    threads: Tokio workers, blocking threads, Pingora threads, accept tasks and
    HTTP/3 workers (no more than the workers); the listen backlog is positive and
    fits its type, and a keepalive that is enabled has positive times and count. *)
Theorem runtime_numbers_usable env cfg : runtime_config_from_env e cpus env = Ok cfg ->
  resolved_mode cfg <> ModeAuto /\
  1 <= worker_threads cfg <= u64_max /\
  1 <= max_blocking_threads cfg <= u64_max /\
  1 <= pingora_service_threads e cpus cfg <= u64_max /\
  1 <= pingora_listener_tasks_per_fd e cfg <= u64_max /\
  1 <= h3_worker_threads cfg <= worker_threads cfg /\
  (1 <= tcp_listen_backlog e cfg <= i32_max)%Z /\
  (forall idle interval count, downstream_tcp_keepalive e = Some (idle, interval, count) ->
     1 <= idle /\ 1 <= interval /\ 1 <= count).
Proof.
  intros Hc. pose proof (worker_threads_range env cfg Hc) as Hw. split; [|split; [done|]].
  - unfold runtime_config_from_env in Hc. destruct (read_requested_mode e env) as [m|]; [|done]. injection Hc as <-. cbn.
    unfold resolve_mode. destruct m; [by destruct (4 <=? cpus)|done|done].
  - split; [by eapply max_blocking_range|]. split; [apply service_threads_range|]. split; [apply listener_tasks_range|].
    split; [|split; [apply backlog_range|apply keepalive_positive]].
    unfold h3_worker_threads. pose proof (div_le_self (worker_threads cfg) 2). lia.
Qed.

End runtime_props.

Definition odd_env : ProcEnv :=
  {[bs "PERTISK_WORKER_THREADS" := bs "0"; bs "PERTISK_TCP_LISTEN_BACKLOG" := bs "99999999999"]}.

Lemma runtime_numbers_usable_witness :
  let cfg := mkRuntimeConfig ModeAuto ModePerformance 8 512 in
  runtime_config_from_env odd_env 8 proxy_runtime_env = Ok cfg /\ tcp_listen_backlog odd_env cfg = 8192%Z /\
    1 <= pingora_service_threads odd_env 8 cfg <= u64_max.
Proof.
  cbv zeta. split; [vm_compute; reflexivity|]. split; [vm_compute; reflexivity|].
  apply (runtime_numbers_usable odd_env 8 ltac:(vm_compute; split; discriminate) proxy_runtime_env).
  vm_compute; reflexivity.
Defined.

(** ** A mode from the list is a mode *)

Lemma stored_mode_parses v : well_typed "PERTISK_PROXY_MODE" v -> from_utf8 v = Some v /\ is_Some (mode_from_str v).
Proof.
  intros Hw. pose proof (well_typed_clean _ _ Hw) as [_ (_ & _ & _ & Hu)%clean_word_parts].
  split; [by unfold from_utf8; rewrite Hu|]. destruct Hw as (f & Hf & _ & _ & Hk).
  assert (Hf' : field_of "PERTISK_PROXY_MODE" = head editable_fields) by (vm_compute; reflexivity).
  rewrite Hf' in Hf. injection Hf as <-. cbn [fd_kind fd_options] in Hk.
  rewrite !elem_of_cons, elem_of_nil in Hk. destruct Hk as [->|[->|[->|[]]]]; vm_compute; eauto.
Qed.

Section lifecycle.
Context `{Formats}.
Variable iter : gmap str str -> list (str * str).
Hypothesis iter_perm : forall m, iter m ≡ₚ map_to_list m.
Variable db_text : DbError -> str.
Variable E : AdminEnv.
Variable running : ProcEnv.

(** C17: Overrides that the management interface accepts take effect at the next start
    and do not stop it.  A start that reads the same database applies them without a
    panic: a variable that the process environment sets keeps its value, every other
    variable has exactly what was submitted for it, trimmed, an option in its listed
    spelling, blank values being no value.  The stored mode is one that the runtime
    accepts. *)
Theorem saved_overrides_take_effect body s view s' d e :
  runtime_env_put iter db_text E running body s = (Ok view, s') ->
  ad_db s' = Some d -> head (db_faults d) <> Some true ->
  exists e', (start_env iter true e d).1 = Some e' /\
    (forall k, e' !! k = match e !! k with Some v => Some v | None => submitted body k end) /\
    (e !! bs "PERTISK_PROXY_MODE" = None -> is_ok (read_requested_mode e' proxy_runtime_env) = true).
Proof.
  intros (d' & HF & _ & Hd & Hc)%(runtime_env_put_ok iter iter_perm) Hd' Hf. rewrite Hd in Hd'. injection Hd' as <-.
  exists (e ∪ Settings.sanitize_overrides iter body). split; [by apply start_env_stored|].
  assert (Hk : forall k, (e ∪ Settings.sanitize_overrides iter body) !! k =
    match e !! k with Some v => Some v | None => submitted body k end).
  { intros k. rewrite lookup_union, (acceptable_sanitize iter iter_perm) by done.
    destruct (e !! k) as [v|]; [by rewrite union_Some_l|by rewrite (left_id_L None (∪))]. }
  split; [done|]. intros Hm. unfold read_requested_mode, var. cbn [mode_var mode_fallback_var proxy_runtime_env].
  rewrite Hk, Hm. rewrite <- (acceptable_sanitize iter iter_perm body) by done.
  destruct (Settings.sanitize_overrides iter body !! bs "PERTISK_PROXY_MODE") as [v|] eqn:Es; [|done].
  apply (sanitize_well_typed iter iter_perm), stored_mode_parses in Es as [Hu [m Hm']]. cbn. rewrite Hu. cbn. by rewrite Hm'.
Qed.

(** C19: What the database holds after a successful save is well typed, and only that:
    every stored key is an editable field, every value is trimmed and not blank, a
    choice is one of the listed options verbatim and a number parses; saving the
    stored map again stores the same map. *)
Theorem stored_overrides_typed body s view s' d :
  runtime_env_put iter db_text E running body s = (Ok view, s') -> ad_db s' = Some d ->
  exists m, t_config (db_tables d) !! RUNTIME_ENV_KEY = Some (creds_json m) /\
    map_Forall well_typed m /\ rs_overrides view = m /\ sanitize_overrides iter m = m.
Proof.
  intros (d' & HF & -> & Hd & Hc)%(runtime_env_put_ok iter iter_perm) Hd'. rewrite Hd in Hd'. injection Hd' as <-.
  exists (Settings.sanitize_overrides iter body). split; [done|]. split; [|split; [done|by apply sanitize_idemp]].
  intros k v. by apply sanitize_well_typed.
Qed.

End lifecycle.

(** ** Instances *)

Definition map_order (m : gmap str str) : list (str * str) := map_to_list m.
Lemma map_order_perm m : map_order m ≡ₚ map_to_list m.
Proof. done. Qed.

Definition posted : gmap str str :=
  {[bs "PERTISK_PROXY_MODE" := bs " Performance "; bs "PERTISK_WORKER_THREADS" := bs "6"; bs "PERTISK_PINGORA_THREADS" := bs " "]}.
Definition put_posted : result ApiError RuntimeEnvSettings * Admin :=
  @runtime_env_put (toy []) map_order no_text (admin_env 50 (file_io true)) ∅ posted admin_state.
Definition stored_db : DbState := default (mkDbState empty_tables []) (ad_db put_posted.2).

Lemma put_posted_ok : exists view, put_posted = (Ok view, put_posted.2).
Proof. eexists. vm_compute. reflexivity. Qed.

Lemma saved_overrides_take_effect_witness :
  let e : ProcEnv := {[bs "PERTISK_WORKER_THREADS" := bs "2"]} in
  exists e', (@start_env (toy []) map_order true e stored_db).1 = Some e' /\
    e' !! bs "PERTISK_WORKER_THREADS" = Some (bs "2") /\ e' !! bs "PERTISK_PROXY_MODE" = Some (bs "performance").
Proof.
  cbv zeta. destruct put_posted_ok as [view Hv].
  destruct (@saved_overrides_take_effect (toy []) map_order map_order_perm no_text (admin_env 50 (file_io true)) ∅ posted admin_state
    view put_posted.2 stored_db {[bs "PERTISK_WORKER_THREADS" := bs "2"]} Hv ltac:(vm_compute; reflexivity) ltac:(vm_compute; discriminate))
    as (e' & He & Hk & _).
  exists e'. split; [exact He|]. rewrite !Hk. split; vm_compute; reflexivity.
Defined.

Lemma stored_overrides_typed_witness :
  exists m, t_config (db_tables stored_db) !! RUNTIME_ENV_KEY = Some (creds_text m) /\ map_Forall well_typed m.
Proof.
  destruct put_posted_ok as [view Hv].
  destruct (@stored_overrides_typed (toy []) map_order map_order_perm no_text (admin_env 50 (file_io true)) ∅ posted admin_state
    view put_posted.2 stored_db Hv ltac:(vm_compute; reflexivity)) as (m & Hm & Ht & _).
  exists m. split; [exact Hm|exact Ht].
Defined.

(** ** Where the settings do not do what they say *)

(** The field's description offers [on] and [off], and the runtime reads them, but
    the management interface refuses both. *)
Theorem keepalive_words_refused w : w = bs "on" \/ w = bs "off" ->
  is_ok (validate_override "PERTISK_TCP_KEEPALIVE" w) = false /\
  ka_enabled (downstream_tcp_keepalive_config {[bs "PERTISK_TCP_KEEPALIVE" := w]}) = (w =s "on").
Proof. intros [->| ->]; vm_compute; done. Qed.

Lemma read_i32_large n : n <= u64_max -> (i32_max < Z.of_N n)%Z -> read_i32 (show_N n) = None.
Proof.
  intros Hm Hn. unfold read_i32. destruct (parse_i64 (show_N n)) as [z|] eqn:E; [|done].
  assert (Hz : z = Z.of_N n).
  { pose proof (show_N_no "-" n eq_refl) as Hd. pose proof (parse_show_N u64_max n Hm) as Hp. unfold parse_i64 in E.
    destruct (show_N n) as [|c r]; [done|]. rewrite bool_decide_false in E by (intros ->; apply Hd; by left).
    destruct (parse_uint _ _) as [k|] eqn:Ek; [|done]. injection E as <-. f_equal. unfold parse_uint in *.
    destruct (if bool_decide (c = x2b) then r else c :: r) as [|d ds]; [done|]. apply opt_filter_Some in Hp as [Hp _], Ek as [Ek _]. congruence. }
  subst z. cbn [opt_filter]. rewrite (proj2 (Z.leb_gt (Z.of_N n) i32_max)) by lia. by rewrite andb_false_r.
Qed.

(** A backlog above the range of [i32] is accepted and stored, and has no effect. *)
Theorem large_backlog_ignored n cfg e : n <= u64_max -> (i32_max < Z.of_N n)%Z -> var e "PERTISK_TCP_LISTEN_BACKLOG" = Some (show_N n) ->
  validate_override "PERTISK_TCP_LISTEN_BACKLOG" (show_N n) = Ok tt /\
  tcp_listen_backlog e cfg = tcp_listen_backlog (delete (bs "PERTISK_TCP_LISTEN_BACKLOG") e) cfg.
Proof.
  intros Hm Hn He. split.
  - unfold validate_override. assert (Hf : exists f, field_of "PERTISK_TCP_LISTEN_BACKLOG" = Some f /\ fd_kind f = Number)
      by (eexists; split; vm_compute; reflexivity).
    destruct Hf as (f & -> & ->). unfold parse_u64. by rewrite parse_show_N.
  - unfold tcp_listen_backlog. rewrite He. unfold var at 1. rewrite lookup_delete_eq. cbn [mbind option_bind].
    by rewrite trim_show_N, read_i32_large.
Qed.

(** A variable that the process environment sets to blanks keeps the override from
    being applied at every start, while the settings page goes on reporting the
    override as pending a restart. *)
Theorem blank_variable_stays_pending f e overrides l n e' k v :
  fd_key f = k -> e !! k = Some (bs " ") -> overrides !! k = Some v -> apply_overrides l e = Some (n, e') ->
  e' !! k = Some (bs " ") /\ fv_source (field_view e' overrides f) = bs "pending" /\
  fv_effective_value (field_view e' overrides f) = Some v.
Proof.
  intros Hk He Ho Ha.
  assert (Hkeep : forall l e n e', e !! k = Some (bs " ") -> apply_overrides l e = Some (n, e') -> e' !! k = Some (bs " ")).
  { clear. intros l. induction l as [|[j w] l IH]; intros e n e' He; [by intros [= _ <-]|]. cbn [apply_overrides]. cbv zeta.
    destruct (is_editable_key j); cbn [negb]; [|by apply IH]. destruct (is_empty (trim w)); [by apply IH|].
    destruct (e !! j) eqn:Ej; cbn [is_some]; [by apply IH|]. unfold set_var. destruct (_ || _); [done|]. cbn [mbind option_bind].
    destruct (apply_overrides l _) as [[m e1]|] eqn:El; [|done]. cbn [mbind option_bind]. intros [= _ <-].
    eapply IH; [|exact El]. rewrite lookup_insert_ne by congruence. done. }
  specialize (Hkeep _ _ _ _ He Ha). split; [done|]. unfold field_view. rewrite Hk. unfold var. rewrite Hkeep, Ho. by vm_compute.
Qed.
