(* ===== verification/Startup.v ===== *)
(** * Starting the proxy (main.rs, server.rs, proxy/routes.rs, routes_config.rs)

    From the environment and the database to a router, a certificate store and a plan
    of listeners.  A start is a computation over the database that ends in what is
    served or in the error the process exits with. *)

From S2P Require Import Prelude RustStr Ip GeoIp Waf Bot Captcha Security Edge EdgeAuth ProxyConfig Router Forward Apply.
From S2P Require Import Http Telemetry CertStore H3 Database Admin Settings.

(** ** The routes file (routes_config.rs, proxy/routes.rs) *)

Record RoutesFile := mkRoutesFile { rf_routes : list RouteSpec; rf_tls : list TlsConfig; rf_http3 : Http3Options }.
Record LoadedRoutes := mkLoadedRoutes { lr_table : RouteTable; lr_tls : list TlsConfig; lr_http3 : Http3Options }.

Inductive LoadError : Type := RoutesUnreadable (path : str) | RoutesSyntax | RoutesUpstream (upstream : str).

Section loader.
Variable url_parse : str -> option Url.
(** [serde_json] and [serde_yaml] on the type of the file. *)
Variable routes_json routes_yaml : str -> option RoutesFile.

Definition routes_table (specs : list RouteSpec) : result LoadError RouteTable :=
  match build_table url_parse specs with Ok t => Ok t | Err u => Err (RoutesUpstream u) end.

Definition load_from_str (content : str) : result LoadError LoadedRoutes :=
  spec ← ok_or (if starts_with "{" (trim_start content) then routes_json content else routes_yaml content) RoutesSyntax;
  t ← routes_table (rf_routes spec);
  mret (mkLoadedRoutes t (rf_tls spec) (rf_http3 spec)).

Definition routes_load (read : str -> option str) (path : str) : result LoadError LoadedRoutes :=
  content ← ok_or (read path) (RoutesUnreadable path);
  load_from_str content.

Definition validate_yaml (content : str) : result LoadError unit :=
  spec ← ok_or (routes_yaml content) RoutesSyntax;
  _ ← routes_table (rf_routes spec);
  mret tt.

(** [reload] of proxy/routes.rs: the router has the new table even when a
    certificate file is refused. *)
Definition routes_reload (read : str -> option str) (io : CertIo) (path : str) (st : Router * CertStoreInner)
    : result (LoadError + StoreError) unit * (Router * CertStoreInner) :=
  match routes_load read path with
  | Err e => (Err (inl e), st)
  | Ok l =>
    let r := router_replace_all st.1 (lr_table l) (lr_http3 l) in
    let '(res, certs) := reload_from_configs io (lr_tls l) st.2 in
    (match res with Ok _ => Ok tt | Err e => Err (inr e) end, (r, certs))
  end.

(** One tick of the watching loop: [modified] is what [file_modified] finds. *)
Definition watch_tick (read : str -> option str) (io : CertIo) (path : str) (modified : option N)
    (st : N * (Router * CertStoreInner)) : N * (Router * CertStoreInner) :=
  match modified with
  | Some m => if st.1 <? m then (m, (routes_reload read io path st.2).2) else st
  | None => st
  end.

End loader.

(** ** Listeners (server.rs) *)

(** [TcpSocketOptions]: keepalive, and whether the socket is for IPv6 only. *)
Record TcpOptions := mkTcpOptions { to_keepalive : option (N * N * N); to_ipv6_only : option bool }.

(** Where a TLS listener finds its certificate. *)
Inductive TlsChoice : Type := BySni | FromFiles (cert key : str).

Record TlsListener := mkTlsListener {
  tl_addr : str;
  tl_options : option TcpOptions;
  tl_choice : TlsChoice;
  tl_h2 : bool;
  tl_grade : TlsGrade;
}.

Record ServerPlan := mkServerPlan {
  sp_conf : ServerConf;
  sp_https_port : N;
  sp_http3_advertised_port : N;
  sp_http : list (str * option TcpOptions);
  sp_https : list TlsListener;
  sp_prometheus : option str;
  sp_h3 : option str;
}.

Inductive StartError : Type :=
| StartPanic
| StartText (msg : str)
| StartDb (e : DbError)
| StartApply (e : ApplyError)
| StartStore (e : StoreError)
| StartLoad (e : LoadError)
| StartTls.

Section server.
Variable e : ProcEnv.
Variable cpus : N.
Variable macos : bool.
Variable io : CertIo.
(** The iteration order of the certificate map. *)
Variable iter_hosts : gmap str StoredCert -> list (str * StoredCert).
(** Whether the TLS library builds its settings; its default pool size; whether the
    build has the [prometheus] feature. *)
Variable tls_ok : TlsChoice -> bool.
Variable default_pool_size : N.
Variable with_prometheus : bool.

Definition tcp_listener_options (addr : str) : option TcpOptions :=
  let ka := downstream_tcp_keepalive e in
  let v6 := match parse_bind_addr addr with Some a => negb (sock_is_ipv4 a) | None => false end in
  if is_some ka || v6 then Some (mkTcpOptions ka (if v6 then Some false else None)) else None.

Definition https_should_listen (c : ServerConfig) (st : CertStoreInner) (acme_tls_pending https_sni_always : bool) : bool :=
  https_sni_always || (0 <? host_count st)%nat || is_some (default_paths iter_hosts st) || acme_tls_pending
  || (is_ok (config_tls_cert_path c) && is_ok (config_tls_key_path c)).

Definition text_error {A} (r : result str A) : result StartError A :=
  match r with Ok a => Ok a | Err m => Err (StartText m) end.

Definition build_tls_settings (c : ServerConfig) (st : CertStoreInner) (acme_tls_pending https_sni_always : bool)
    : result StartError TlsChoice :=
  choice ←
    (if (0 <? host_count st)%nat || acme_tls_pending || https_sni_always then Ok BySni
     else
       match default_paths iter_hosts st with
       | Some p => Ok (FromFiles (cert_path p) (key_path p))
       | None =>
         cert ← text_error (config_tls_cert_path c);
         key ← text_error (config_tls_key_path c);
         Ok (FromFiles cert key)
       end);
  if tls_ok choice then Ok choice else Err StartTls.

Definition effective_tls_grade (from_config : TlsGrade) : TlsGrade :=
  match (fun v => to_ascii_lowercase (trim v)) <$> var e "PERTISK_TLS_GRADE" with
  | Some v => if v =s "high" then High else if v =s "unsafe" then Unsafe else if v =s "medium" then Medium else from_config
  | None => from_config
  end.

Definition pingora_prometheus_enabled : bool :=
  from_option (fun v =>
    let v := to_ascii_lowercase (trim v) in negb ((v =s "0") || (v =s "false") || (v =s "no") || (v =s "off")))
    false (var e "PERTISK_PINGORA_PROMETHEUS").

Definition pingora_prometheus_listen_addr : option str :=
  or_else (opt_filter (fun v => negb (is_empty v)) (trim <$> var e "PERTISK_PINGORA_METRICS_ADDR")) (Some (bs "127.0.0.1:9091")).

(** The check of the certificate that a listener without SNI would use. *)
Definition check_default_cert (c : ServerConfig) (st : CertStoreInner) (sni_enabled : bool) : result StartError unit :=
  match default_paths iter_hosts st with
  | Some p => if pair_ok io (cert_path p) (key_path p) then Ok tt else Err (StartStore (InvalidPair (cert_path p) (key_path p)))
  | None =>
    if sni_enabled then Ok tt
    else
      cert ← text_error (config_tls_cert_path c);
      key ← text_error (config_tls_key_path c);
      if pair_ok io cert key then Ok tt else Err (StartStore (InvalidPair cert key))
  end.

Fixpoint tls_listeners (c : ServerConfig) (st : CertStoreInner) (acme_tls_pending https_sni_always : bool) (grade : TlsGrade)
    (addrs : list str) : result StartError (list TlsListener) :=
  match addrs with
  | [] => Ok []
  | addr :: rest =>
    choice ← build_tls_settings c st acme_tls_pending https_sni_always;
    ls ← tls_listeners c st acme_tls_pending https_sni_always grade rest;
    Ok (mkTlsListener addr (tcp_listener_options addr) choice (enable_h2 c) grade :: ls)
  end.

(** [run] up to [run_forever]. *)
Definition server_run (c : ServerConfig) (router : Router) (st : CertStoreInner) (acme_tls_pending https_sni_always : bool)
    (cfg : RuntimeConfig) (h3 : option str) : result StartError ServerPlan :=
  let https_enabled := https_should_listen c st acme_tls_pending https_sni_always in
  let sni_enabled := (0 <? host_count st)%nat || acme_tls_pending || https_sni_always in
  https ←
    (if https_enabled then
       _ ← check_default_cert c st sni_enabled;
       tls_listeners c st acme_tls_pending https_sni_always
         (effective_tls_grade (tls_grade (globals (table router)))) (tcp_bind_addrs macos (https_listen c))
     else Ok []);
  Ok (mkServerPlan (pingora_server_conf e cpus default_pool_size cfg)
        (https_port c) (http3_advertised_port e c)
        ((fun addr => (addr, tcp_listener_options addr)) <$> tcp_bind_addrs macos (http_listen c))
        https
        (if with_prometheus && pingora_prometheus_enabled then pingora_prometheus_listen_addr else None)
        h3).

End server.

(** ** The start (main.rs) *)

Definition Start (A : Type) : Type := DbState -> result StartError A * DbState.
#[export] Instance start_ret : MRet Start := fun A a d => (Ok a, d).
#[export] Instance start_bind : MBind Start := fun A B f m d =>
  match m d with (Ok a, d') => f a d' | (Err e, d') => (Err e, d') end.

Definition start_fail {A} (e : StartError) : Start A := fun d => (Err e, d).
Definition start_result {A} (r : result StartError A) : Start A := fun d => (r, d).
Definition start_db {A} (m : Db A) : Start A := fun d =>
  let '(r, d') := m d in (match r with Ok a => Ok a | Err e => Err (StartDb e) end, d').
(** The outcome as a value: the caller logs a failure and goes on. *)
Definition start_try {A} (m : Db A) : Start (option A) := fun d =>
  let '(r, d') := m d in (Ok (match r with Ok a => Some a | Err _ => None end), d').

Record Started := mkStarted {
  sd_router : Router;
  sd_certs : CertStoreInner;
  sd_config : Config;
  sd_log_enabled : bool;
  sd_runtime : RuntimeConfig;
  sd_env : ProxyEnv;
  sd_plan : ServerPlan;
}.

Definition set_addrs (http https : SocketAddr) (h3 : option SocketAddr) (management : SocketAddr) (c : Config) : Config :=
  mkConfig http https h3 management (cfg_backends c) (cfg_sites c) (access_lists c) (waf_policies c) (cfg_tls c)
    (cfg_security_headers c) (proxy_log c) (acme_email c) (cfg_http3 c) (cfg_tls_grade c) (cfg_cache_size_mb c)
    (cfg_cache_ttl_secs c) (cfg_consul c) (cfg_jwt_secret c).

(** An address of the environment that parses (its IPv6 scope is not kept). *)
Definition env_addr (e : ProcEnv) (key : str) : option SocketAddr :=
  v ← var e key; a ← parse_bind_addr v; Some (mkSocketAddr (sock_ip a) (sock_port a)).

Definition apply_listen_addrs_from_env (e : ProcEnv) (h3 : bool) (c : Config) : Config :=
  set_addrs (default (http_addr c) (env_addr e "LISTEN_HTTP")) (default (https_addr c) (env_addr e "LISTEN_HTTPS"))
    (if h3 then or_else (env_addr e "LISTEN_H3_UDP") (http3_addr c) else http3_addr c)
    (default (ProxyConfig.management_addr c) (env_addr e "PERTISK_MANAGEMENT_ADDR")) c.

Section main.
Context `{Formats}.
Variable scan : list CertRow -> list CertRow.
Variable to_lowercase : str -> str.
Variable url_parse : str -> option Url.
Variable routes_json routes_yaml : str -> option RoutesFile.
Variable iter : gmap str str -> list (str * str).
Variable iter_routes : gmap str (list Route) -> list (str * list Route).
Variable iter_hosts : gmap str StoredCert -> list (str * StoredCert).
(** [serde_json::to_string] of a TLS list. *)
Variable tls_json : list TlsConfig -> str.
Variable cpus : N.
Variable macos h3_excluded : bool.
Variable tls_ok : TlsChoice -> bool.
Variable default_pool_size : N.
Variable with_prometheus : bool.
(** The files and the clock; [ae_certs_dir] is the directory beside the database. *)
Variable E : AdminEnv.

Definition load_or_migrate_config (migrate_path : option str) : Start Config :=
  stored ← start_db get_proxy_config;
  match stored with
  | Some c =>
    let c' := with_tls c (normalize_tls_config (cfg_tls c)) in
    _ ← (if tls_json (cfg_tls c') =s tls_json (cfg_tls c) then mret tt else start_db (save_proxy_config c'));
    mret c'
  | None =>
    match migrate_path with
    | Some path =>
      yaml ← start_result (ok_or (ae_read_file E path) (StartLoad (RoutesUnreadable path)));
      l ← start_result (match load_from_str url_parse routes_json routes_yaml yaml with Ok l => Ok l | Err e => Err (StartLoad e) end);
      let c := migrate_from_routes iter_routes iter (lr_table l) (lr_tls l) (lr_http3 l) in
      _ ← start_db (save_proxy_config c);
      mret c
    | None => mret config_default
    end
  end.

(** The loop of [reconcile_uploaded_certs_in_config], with its flag. *)
Definition reconcile_row (x : Config * bool) (r : CertificateRow) : Config * bool :=
  if eq_ignore_ascii_case (row_source_type r) "uploaded" then
    let c' := sync_uploaded_cert_tls E x.1 (row_hosts r) (row_id r) in
    (c', x.2 || negb (tls_json (cfg_tls x.1) =s tls_json (cfg_tls c')))
  else x.

(** The configuration is changed in place: the caller has it also when the save
    fails. *)
Definition reconcile_uploaded_certs_in_config (c : Config) : Start (option bool * Config) :=
  rows ← start_try (list_certificates scan);
  match rows with
  | None => mret (None, c)
  | Some rows =>
    let '(c', changed) := foldl reconcile_row (c, false) rows in
    if changed then
      saved ← start_try (save_proxy_config c');
      mret ((fun _ => true) <$> saved, c')
    else mret (Some false, c')
  end.

Definition load_db_certs (st : CertStoreInner) : Start CertStoreInner :=
  rows ← start_try (get_all_certificates_for_store scan);
  mret (from_option (fun rows => (insert_rows (ae_io E) (ae_certs_dir E) rows st).2) st rows).

(** The stages on the certificate store once the configuration is applied. *)
Definition load_certificates (c : Config) (st : CertStoreInner) : Start (Config * CertStoreInner) :=
  st ← load_db_certs (set_expected_from_config c st);
  '(changed, c) ← reconcile_uploaded_certs_in_config c;
  match changed with
  | Some true =>
    st ← load_db_certs (set_expected_from_config c (reload_from_configs (ae_io E) (cfg_tls c) st).2);
    mret (c, st)
  | _ => mret (c, st)
  end.

Definition global_fallback (server : ServerConfig) (st : CertStoreInner) : result StartError CertStoreInner :=
  match default_paths iter_hosts st, tls_cert_path server, tls_key_path server with
  | None, Some cert, Some key =>
    if ae_is_file E cert && ae_is_file E key then
      match set_global_fallback (ae_io E) cert key st with (Ok _, st') => Ok st' | (Err e, _) => Err (StartStore e) end
    else Ok st
  | _, _, _ => Ok st
  end.

(** The HTTP/3 listener to start after the others. *)
Definition pending_h3 (proxy_env : ProxyEnv) : option str :=
  if enable_h3 (pe_server proxy_env) then Some (h3_udp_listen (pe_server proxy_env)) else None.

(** The second half of [main]: the tables, the certificates and the listeners of a
    configuration. *)
Definition serve_config (e : ProcEnv) (runtime_cfg : RuntimeConfig) (proxy_env : ProxyEnv) (c : Config) : Start Started :=
  t ← start_result (match config_to_route_table to_lowercase url_parse c with Ok t => Ok t | Err e => Err (StartApply e) end);
  let router := router_replace_all router_new t (cfg_http3 c) in
  st ← start_result (match reload_from_configs (ae_io E) (cfg_tls c) store_new with
                     | (Ok _, st) => Ok st
                     | (Err e, _) => Err (StartStore e)
                     end);
  let log_enabled := proxy_log c in
  '(c, st) ← load_certificates c st;
  st ← start_result (global_fallback (pe_server proxy_env) st);
  plan ← start_result (server_run e cpus macos (ae_io E) iter_hosts tls_ok default_pool_size with_prometheus (pe_server proxy_env) router st
           (tls_has_acme_config (cfg_tls c)) true runtime_cfg (pending_h3 proxy_env));
  mret (mkStarted router st c log_enabled runtime_cfg proxy_env plan).

(** [main], with the environment [e0] the process was given; [file_exists]: there is
    a database. *)
Definition main_start (file_exists : bool) (e0 : ProcEnv) : Start Started :=
  e ← (fun d => let '(o, d') := start_env iter file_exists e0 d in (ok_or o StartPanic, d'));
  runtime_cfg ← start_result (text_error (runtime_config_from_env e cpus proxy_runtime_env));
  proxy_env ← start_result (text_error (proxy_config_from_env e h3_excluded (ae_is_file E)));
  _ ← (fun d => start_db (database_open (ae_now E) (if file_exists then Some (db_tables d) else None)) d);
  c ← load_or_migrate_config (pe_migrate_routes_path proxy_env);
  serve_config e runtime_cfg proxy_env (apply_listen_addrs_from_env e (enable_h3 (pe_server proxy_env)) c).

End main.
