(* ===== verification/StartupProps.v ===== *)
(** * What a start serves

    Theorems about [Startup]: a configuration that the management interface saved is
    the one the next start serves, a start with sound files opens its listeners, and
    where a refused configuration keeps the proxy from starting. *)

From S2P Require Import Prelude RustStr Ip GeoIp Waf Bot Captcha Security Edge EdgeAuth ProxyConfig Router Forward Apply.
From S2P Require Import Http Telemetry CertStore H3 Database Admin AdminProps Settings SettingsProps Startup.

(** ** Tables do not depend on addresses or certificates *)

(** What [config_to_route_table] reads of a configuration. *)
Definition route_part (c : Config) :=
  (cfg_backends c, cfg_sites c, access_lists c, waf_policies c,
   mkEdgeGlobals (cfg_tls_grade c) (cfg_cache_size_mb c) (cfg_cache_ttl_secs c) (cfg_consul c) (cfg_jwt_secret c)).

Section tables.
Variable to_lowercase : str -> str.
Variable url_parse : str -> option Url.

Lemma build_routes_part c c' s host target rs : route_part c = route_part c' ->
  build_routes url_parse c s host target rs = build_routes url_parse c' s host target rs.
Proof.
  intros [= _ _ Ha Hw _]. induction rs as [|r rs IH]; [done|]. cbn. rewrite IH.
  unfold resolve_site_geoip, resolve_site_security. by rewrite Ha, Hw.
Qed.

Lemma sites_by_host_part c c' m sites : route_part c = route_part c' ->
  sites_by_host to_lowercase url_parse c m sites = sites_by_host to_lowercase url_parse c' m sites.
Proof.
  intros Hp. revert m. induction sites as [|s sites IH]; intros m; [done|]. cbn. destruct (is_empty _); [done|].
  unfold site_table_routes, backends_by_name. pose proof Hp as [= Hb _ Ha Hw _].
  unfold resolve_site_geoip, resolve_site_security. rewrite Hb, Ha, Hw.
  destruct (ok_or (_ !! site_backend s) _) as [b|]; [|done]. cbn. destruct (ok_or (head _) _) as [u|]; [|done]. cbn.
  destruct (ok_or _ _) as [t|]; [|done]. cbn. destruct (is_empty (site_routes s)); [by apply IH|].
  rewrite (build_routes_part c c' s _ t _ Hp). destruct (build_routes _ _ _ _ _ _); [apply IH|done].
Qed.

Lemma table_part c c' : route_part c = route_part c' ->
  config_to_route_table to_lowercase url_parse c = config_to_route_table to_lowercase url_parse c'.
Proof.
  intros Hp. unfold config_to_route_table. rewrite (sites_by_host_part c c') by done.
  pose proof Hp as [= _ Hs _ _ Hg1 Hg2 Hg3 Hg4 Hg5]. by rewrite Hs, Hg1, Hg2, Hg3, Hg4, Hg5.
Qed.

End tables.

(** ** Certificate files *)

(** An entry that [reload_from_configs] accepts. *)
Definition entry_ok (io : CertIo) (t : TlsConfig) : Prop :=
  match tls_source t with
  | File cert key => tls_hosts t <> [] -> pair_ok io cert key = true /\ names_readable io cert = true
  | _ => True
  end.

Definition stored_ok (io : CertIo) (c : StoredCert) : Prop :=
  match c with CertFile p => pair_ok io (cert_path p) (key_path p) = true | CertPem _ _ => True end.

(** Every certificate of the store that is a file was found sound. *)
Definition certs_ok (io : CertIo) (st : CertStoreInner) : Prop :=
  map_Forall (fun _ => stored_ok io) (by_host st) /\ forall c, default_stored st = Some c -> stored_ok io c.

Section certs.
Variable io : CertIo.

Lemma insert_hosts_ok (f : str -> str) (c : StoredCert) (hosts : list str) (m : gmap str StoredCert) : stored_ok io c -> map_Forall (fun _ => stored_ok io) m ->
  map_Forall (fun _ => stored_ok io) (foldl (fun m h => <[f h := c]> m) m hosts).
Proof.
  intros Hc. revert m. induction hosts as [|h hosts IH]; intros m Hm; [done|]. cbn. apply IH. by apply map_Forall_insert_2.
Qed.

Lemma load_entries_spec l acc :
  match load_entries io acc l with
  | Ok (m, d) => Forall (entry_ok io) l /\ (certs_ok io (mkCertStoreInner acc.1 acc.2 ∅) -> certs_ok io (mkCertStoreInner m d ∅))
  | Err _ => ~ Forall (entry_ok io) l
  end.
Proof.
  revert acc. induction l as [|t l IH]; intros acc; cbn [load_entries]; [by destruct acc|].
  assert (Hskip : entry_ok io t -> match load_entries io acc l with
    | Ok (m, d) => Forall (entry_ok io) (t :: l) /\ (certs_ok io (mkCertStoreInner acc.1 acc.2 ∅) -> certs_ok io (mkCertStoreInner m d ∅))
    | Err _ => ~ Forall (entry_ok io) (t :: l) end).
  { intros Ht. specialize (IH acc). destruct (load_entries io acc l) as [[m d]|e].
    - destruct IH as [Hl Hc]. split; [by constructor|done].
    - intros HF. inversion HF; by apply IH. }
  unfold entry_ok in Hskip at 1. destruct (is_empty (tls_hosts t)) eqn:Eh.
  { apply is_empty_nil in Eh. apply Hskip. rewrite Eh. by destruct (tls_source t). }
  apply is_empty_false in Eh. destruct (tls_source t) as [|cert key|] eqn:Es; [by apply Hskip| |by apply Hskip].
  destruct (pair_ok io cert key) eqn:Ep; cbn [negb].
  2: { intros HF. inversion HF as [|? ? Ht]; subst. unfold entry_ok in Ht. rewrite Es in Ht. destruct (Ht Eh). congruence. }
  destruct (names_readable io cert) eqn:En; cbn [negb].
  2: { intros HF. inversion HF as [|? ? Ht]; subst. unfold entry_ok in Ht. rewrite Es in Ht. destruct (Ht Eh). congruence. }
  match goal with |- context [load_entries io ?a l] => specialize (IH a); destruct (load_entries io a l) as [[m d]|e] end.
  - destruct IH as [Hl Hc]. split; [constructor; [|done]; unfold entry_ok; by rewrite Es|]. intros [Hm Hd]. apply Hc. cbn in Hm, Hd |- *.
    split; [by apply (insert_hosts_ok normalize_host)|]. cbn. intros c. destruct acc.2 as [d0|]; [apply Hd|]. by intros [= <-].
  - intros HF. inversion HF; by apply IH.
Qed.

Lemma certs_ok_expected st hosts : certs_ok io st -> certs_ok io (set_expected_hosts hosts st).
Proof. done. Qed.

Lemma certs_ok_new : certs_ok io store_new.
Proof. split; [apply map_Forall_empty|done]. Qed.

Lemma certs_ok_insert hosts c st : stored_ok io c -> certs_ok io st -> certs_ok io (insert_stored_for_hosts hosts c st).
Proof.
  intros Hc [Hm Hd]. split; cbn.
  - revert Hm. generalize (by_host st). induction hosts as [|h hosts IH]; intros m Hm; [done|]. cbn. apply IH.
    unfold insert_host. destruct (is_empty (trim h)); [done|]. by apply map_Forall_insert_2.
  - intros c0. destruct (default_stored st) as [d|]; [apply Hd|]. by intros [= <-].
Qed.

Lemma certs_ok_insert_pem hosts cert key dir id st : certs_ok io st ->
  certs_ok io (insert_pem_for_hosts io hosts cert key dir id st).2.
Proof.
  intros Hst. unfold insert_pem_for_hosts. cbv zeta.
  destruct (negb (pem_pair_ok io cert key)); [exact Hst|]. destruct (negb (_ && _)); [exact Hst|].
  destruct (negb (pair_ok io _ _)) eqn:Ep; [exact Hst|]. destruct (negb (names_readable io _)); [exact Hst|].
  apply certs_ok_insert; [|exact Hst]. by apply negb_false_iff.
Qed.

Lemma certs_ok_rows dir rows st : certs_ok io st -> certs_ok io (insert_rows io dir rows st).2.
Proof.
  revert st. induction rows as [|[[[id hosts] cert] key] rows IH]; intros st Hst; [done|]. cbn [insert_rows].
  pose proof (certs_ok_insert_pem hosts cert key dir id st Hst) as Hi.
  destruct (insert_pem_for_hosts _ _ _ _ _ _ _) as [[[]|e] st']; [by apply IH|done].
Qed.

Lemma reload_spec tls st : 
  match reload_from_configs io tls st with
  | (Ok _, st') => Forall (entry_ok io) tls /\ (certs_ok io st -> certs_ok io st')
  | (Err _, st') => ~ Forall (entry_ok io) tls /\ st' = st
  end.
Proof.
  unfold reload_from_configs. pose proof (load_entries_spec tls (∅, None)) as Hl.
  destruct (load_entries io (∅, None) tls) as [[m d]|e]; [|done]. destruct Hl as [Hf Hc]. split; [done|].
  intros [_ Hd]. destruct Hc as [Hm Hd']; [by apply certs_ok_new|]. split; [done|]. cbn. intros c. destruct d as [d|]; [apply Hd'|apply Hd].
Qed.

Lemma certs_ok_reload tls st : certs_ok io st -> certs_ok io (reload_from_configs io tls st).2.
Proof.
  intros Hst. pose proof (reload_spec tls st) as Hr. destruct (reload_from_configs io tls st) as [[[]|e] st'].
  - by apply Hr.
  - by destruct Hr as [_ ->].
Qed.

Lemma same_source_file src cert key : same_source src (File cert key) -> src = File cert key.
Proof.
  intros [->|Hs]; [done|]. destruct src as [|c k|]; [done| |done]. cbn in Hs. apply andb_prop in Hs as [Hc%str_eqb_eq Hk%str_eqb_eq].
  by subst.
Qed.

Lemma same_source_file_l src cert key : same_source (File cert key) src -> src = File cert key.
Proof.
  intros [<-|Hs]; [done|]. destruct src as [|c k|]; [done| |done]. cbn in Hs. apply andb_prop in Hs as [Hc%str_eqb_eq Hk%str_eqb_eq].
  by subst.
Qed.

(** The normal form asks for no files that the list did not ask for. *)
Lemma normalize_entries_ok tls : Forall (entry_ok io) tls -> Forall (entry_ok io) (normalize_tls_config tls).
Proof.
  intros HF. destruct (normalize_tls_hosts tls) as (_ & Hfrom & _). rewrite Forall_forall in Hfrom, HF |- *.
  intros t Ht. unfold entry_ok. destruct (tls_source t) as [|cert key|] eqn:Es; [done| |done]. intros Hne.
  destruct (tls_hosts t) as [|h hs] eqn:Eh; [done|]. destruct (Hfrom t Ht h) as (t0 & h0 & Hin & Hsrc & Hh0 & _).
  { rewrite Eh. by left. }
  rewrite Es in Hsrc. apply same_source_file_l in Hsrc. specialize (HF t0 Hin). unfold entry_ok in HF. rewrite Hsrc in HF.
  apply HF. intros Hnil. rewrite Hnil in Hh0. by apply elem_of_nil in Hh0.
Qed.

(** A bad file with a host of its own stays in the normal form. *)
Lemma normalize_keeps_bad tls t h cert key : t ∈ tls -> tls_source t = File cert key -> h ∈ tls_hosts t -> trim h <> [] ->
  pair_ok io cert key = false -> ~ Forall (entry_ok io) (normalize_tls_config tls).
Proof.
  intros Ht Hs Hh Hne Hp HF. destruct (normalize_tls_hosts tls) as (Hserve & _). rewrite Forall_forall in HF.
  destruct (Hserve t h Ht Hh Hne ltac:(by rewrite Hs)) as (t' & h' & Hin & Hsrc & Hh' & _). rewrite Hs in Hsrc.
  apply same_source_file in Hsrc. specialize (HF t' Hin). unfold entry_ok in HF. rewrite Hsrc in HF.
  destruct HF as [HF _]; [|congruence]. intros Hnil. rewrite Hnil in Hh'. by apply elem_of_nil in Hh'.
Qed.

(** The default certificate is sound. *)
Lemma default_paths_ok iter_hosts st p : (forall m, iter_hosts m ≡ₚ map_to_list m) -> certs_ok io st ->
  default_paths iter_hosts st = Some p -> pair_ok io (cert_path p) (key_path p) = true.
Proof.
  intros Hi [Hm Hd]. unfold default_paths, default_cert. destruct (default_stored st) as [[q|]|] eqn:Es; [| done |].
  - intros [= <-]. by apply (Hd (CertFile q)).
  - destruct (iter_hosts (by_host st)) as [|[h c] l] eqn:El; [done|]. cbn. destruct c as [q|]; [|done]. intros [= <-].
    apply (Hm h (CertFile q)). apply elem_of_map_to_list. rewrite <- Hi, El. by left.
Qed.

End certs.

Section main_props.
Context `{Formats}.
Variable scan : list CertRow -> list CertRow.
Variable to_lowercase : str -> str.
Variable url_parse : str -> option Url.
Variable routes_json routes_yaml : str -> option RoutesFile.
Variable iter : gmap str str -> list (str * str).
Variable iter_routes : gmap str (list Route) -> list (str * list Route).
Variable iter_hosts : gmap str StoredCert -> list (str * StoredCert).
Hypothesis iter_hosts_perm : forall m, iter_hosts m ≡ₚ map_to_list m.
Variable tls_json : list TlsConfig -> str.
Variable cpus : N.
Variable macos h3_excluded : bool.
Variable tls_ok : TlsChoice -> bool.
Variable default_pool_size : N.
Variable with_prometheus : bool.
Variable E : AdminEnv.
Variables db_text : DbError -> str.
Variable apply_text : ApplyError -> str.
Variable store_text : StoreError -> str.

Abbreviation main_start :=
  (main_start scan to_lowercase url_parse routes_json routes_yaml iter iter_routes iter_hosts tls_json cpus macos h3_excluded
     tls_ok default_pool_size with_prometheus).
Abbreviation serve_config :=
  (serve_config scan to_lowercase url_parse iter_hosts tls_json cpus macos tls_ok default_pool_size with_prometheus).
Abbreviation put_config := (put_config scan to_lowercase url_parse iter_routes db_text apply_text store_text).
Abbreviation table_of := (config_to_route_table to_lowercase url_parse).
Abbreviation load_or_migrate_config := (load_or_migrate_config url_parse routes_json routes_yaml iter iter_routes tls_json).

(** ** The stages of a start *)

Lemma start_env_db b e d : db_faults d = [] -> (start_env iter b e d).2 = d.
Proof.
  intros Hf. unfold start_env, load_overrides_from_db_path. destruct b; [|done].
  unfold get_runtime_env_overrides, get_config_json, mbind, db_bind, db_read, db_exec. rewrite Hf. cbn. destruct d; cbn in *. by subst.
Qed.

Lemma open_existing now d : db_faults d = [] -> t_users (db_tables d) <> ∅ -> start_db (database_open now (Some (db_tables d))) d = (Ok tt, d).
Proof.
  intros Hf Hu. unfold start_db, database_open, seed_admin_user, db_exec. cbn [db_faults db_tables default from_option id].
  rewrite Hf. rewrite bool_decide_false by done. cbn. destruct d; cbn in *. by subst.
Qed.

Lemma load_stored c path d : db_faults d = [] -> t_config (db_tables d) !! PROXY_CONFIG_KEY = Some (config_json c) ->
  config_from_json (config_json c) = Some c ->
  exists d', load_or_migrate_config E path d = (Ok (with_tls c (normalize_tls_config (cfg_tls c))), d').
Proof.
  intros Hf Hc Hj. unfold Startup.load_or_migrate_config, mbind, start_bind, start_db at 1.
  unfold get_proxy_config, mbind, db_bind, get_config_json, db_read, db_exec. rewrite Hf, Hc, Hj. cbn [mret db_ret]. unfold mret, db_ret.
  cbv zeta. destruct (_ =s _); [by eexists|].
  unfold start_db, save_proxy_config, save_config_json, db_write, db_exec. cbn. by eexists.
Qed.

Lemma load_db_certs_ok st d : certs_ok (ae_io E) st ->
  exists st' d', load_db_certs scan E st d = (Ok st', d') /\ certs_ok (ae_io E) st'.
Proof.
  intros Hst. unfold load_db_certs, mbind, start_bind, start_try. destruct (get_all_certificates_for_store scan d) as [[rows|e] d'].
  - do 2 eexists. split; [reflexivity|]. by apply certs_ok_rows.
  - do 2 eexists. split; [reflexivity|]. done.
Qed.

Lemma reconcile_ok c d : exists x d', reconcile_uploaded_certs_in_config scan tls_json E c d = (Ok x, d').
Proof.
  unfold reconcile_uploaded_certs_in_config, mbind, start_bind, start_try at 1.
  destruct (list_certificates scan d) as [[rows|e] d']; [|by do 2 eexists]. destruct (foldl _ _ rows) as [c' []]; [|by do 2 eexists].
  unfold start_try. destruct (save_proxy_config c' d') as [[]]; by do 2 eexists.
Qed.

Lemma load_certificates_ok c st d : certs_ok (ae_io E) st ->
  exists c' st' d', load_certificates scan tls_json E c st d = (Ok (c', st'), d') /\ certs_ok (ae_io E) st'.
Proof.
  intros Hst. unfold load_certificates, mbind, start_bind.
  destruct (load_db_certs_ok (set_expected_from_config c st) d) as (st1 & d1 & -> & Hst1); [by apply certs_ok_expected|].
  destruct (reconcile_ok c d1) as ([changed c'] & d2 & ->). destruct changed as [[]|]; [|by do 3 eexists..].
  destruct (load_db_certs_ok (set_expected_from_config c' (reload_from_configs (ae_io E) (cfg_tls c') st1).2) d2)
    as (st3 & d3 & -> & Hst3); [by apply certs_ok_expected, certs_ok_reload|]. by do 3 eexists.
Qed.

(** The files named by the environment, if both exist, are a sound pair. *)
Definition fallback_sound (c : ServerConfig) : Prop :=
  forall cert key, tls_cert_path c = Some cert -> tls_key_path c = Some key ->
    ae_is_file E cert = true -> ae_is_file E key = true -> pair_ok (ae_io E) cert key = true.

Lemma global_fallback_ok c st : fallback_sound c -> certs_ok (ae_io E) st ->
  exists st', global_fallback iter_hosts E c st = Ok st' /\ certs_ok (ae_io E) st'.
Proof.
  intros Hfb Hst. unfold global_fallback. destruct (default_paths iter_hosts st); [by eexists|].
  destruct (tls_cert_path c) as [cert|] eqn:Ec; [|by eexists]. destruct (tls_key_path c) as [key|] eqn:Ek; [|by eexists].
  destruct (ae_is_file E cert) eqn:E1; [|by eexists]. destruct (ae_is_file E key) eqn:E2; [|by eexists]. cbn [andb].
  pose proof (Hfb cert key Ec Ek E1 E2) as Hp. unfold set_global_fallback. rewrite Hp. cbn [negb]. eexists. split; [reflexivity|].
  destruct (default_stored st) eqn:Ed; [done|]. destruct Hst as [Hm _]. split; [done|]. by intros c0 [= <-].
Qed.

Lemma tls_listeners_sni e c st acme grade addrs : tls_ok BySni = true ->
  tls_listeners e iter_hosts tls_ok c st acme true grade addrs =
    Ok ((fun a => mkTlsListener a (tcp_listener_options e a) BySni (enable_h2 c) grade) <$> addrs).
Proof.
  intros Ht. induction addrs as [|a addrs IH]; [done|]. cbn [tls_listeners]. unfold build_tls_settings. rewrite !orb_true_r. cbn. rewrite Ht. cbn.
  rewrite IH. done.
Qed.

(** A server whose certificates were checked opens every listener, HTTPS by SNI. *)
Lemma server_run_ok e c router st acme cfg h3 : tls_ok BySni = true -> certs_ok (ae_io E) st ->
  exists plan, server_run e cpus macos (ae_io E) iter_hosts tls_ok default_pool_size with_prometheus c router st acme true cfg h3 = Ok plan /\
    (sp_http plan).*1 = tcp_bind_addrs macos (http_listen c) /\
    tl_addr <$> sp_https plan = tcp_bind_addrs macos (https_listen c) /\
    Forall (fun l => tl_choice l = BySni) (sp_https plan) /\ sp_h3 plan = h3.
Proof.
  intros Ht Hst. unfold server_run, https_should_listen. cbn [orb]. rewrite !orb_true_r.
  assert (Hd : check_default_cert (ae_io E) iter_hosts c st true = Ok tt).
  { unfold check_default_cert. destruct (default_paths iter_hosts st) as [p|] eqn:Ep; [|done].
    by rewrite (default_paths_ok _ _ _ _ iter_hosts_perm Hst Ep). }
  rewrite Hd. cbn [mbind result_bind]. rewrite (tls_listeners_sni _ _ _ _ _ _ Ht). cbn [mbind result_bind].
  eexists. split; [reflexivity|]. cbn [sp_http sp_https sp_h3]. split_and!; [| | |done].
  - rewrite <- list_fmap_compose. apply list_fmap_id.
  - rewrite <- list_fmap_compose. apply list_fmap_id.
  - rewrite Forall_fmap. by apply Forall_true.
Qed.

(** ** What was saved is what is served *)

Lemma put_ok_entries E0 body s n s' : put_config E0 body s = (Ok n, s') -> Forall (entry_ok (ae_io E0)) (cfg_tls (stored_form body)).
Proof.
  unfold Admin.put_config. destruct (ae_viewer_mode E0); [done|]. unfold mbind, api_bind, require_db.
  destruct (ad_db s) as [d|]; [|done]. unfold persist_proxy_config, mbind, api_bind.
  destruct (db_call db_text _ s) as [[[]|e] s1]; [|done]. unfold activate_proxy_config.
  destruct (apply_config _ _ _ _) as [[[]|e] r]; [|done].
  match goal with |- context [reload_from_configs ?io ?tls ?st] => pose proof (reload_spec io tls st) as Hr;
    destruct (reload_from_configs io tls st) as [[[]|e] certs] end; [|done].
  intros _. apply Hr.
Qed.

(** The environment and the stored configuration of the start. *)
Record readable (e e' : ProcEnv) (cfg : RuntimeConfig) (penv : ProxyEnv) (c : Config) (d : DbState) : Prop := {
  rd_faults : db_faults d = [];
  rd_users : t_users (db_tables d) <> ∅;
  rd_config : t_config (db_tables d) !! PROXY_CONFIG_KEY = Some (config_json c);
  rd_json : config_from_json (config_json c) = Some c;
  rd_env : (start_env iter true e d).1 = Some e';
  rd_runtime : runtime_config_from_env e' cpus proxy_runtime_env = Ok cfg;
  rd_proxy : proxy_config_from_env e' h3_excluded (ae_is_file E) = Ok penv;
}.

(** The configuration a start works with. *)
Definition start_config (e : ProcEnv) (penv : ProxyEnv) (c : Config) : Config :=
  apply_listen_addrs_from_env e (enable_h3 (pe_server penv)) (with_tls c (normalize_tls_config (cfg_tls c))).

Lemma start_table e penv c : table_of (start_config e penv c) = table_of c.
Proof. by apply table_part. Qed.

(** A start with a readable database gets as far as the stored configuration. *)
Lemma main_reaches e e' cfg penv c d : readable e e' cfg penv c d ->
  exists d2, main_start E true e d = serve_config E e' cfg penv (start_config e' penv c) d2.
Proof.
  intros [Hf Hu Hc Hj He Hrt Hpe]. unfold Startup.main_start, mbind, start_bind.
  pose proof (start_env_db true e d Hf) as Hd. destruct (start_env iter true e d) as [o d1]. cbn in Hd, He. subst o d1.
  cbn [ok_or]. unfold start_result at 1. rewrite Hrt. cbn [text_error]. unfold start_result at 1. rewrite Hpe. cbn [text_error].
  rewrite (open_existing _ _ Hf Hu). destruct (load_stored c (pe_migrate_routes_path penv) d Hf Hc Hj) as (d2 & ->).
  by exists d2.
Qed.

Lemma start_from_stored e e' cfg penv c d t : readable e e' cfg penv c d -> table_of c = Ok t ->
  fallback_sound (pe_server penv) -> tls_ok BySni = true -> Forall (entry_ok (ae_io E)) (cfg_tls c) ->
  exists st d', main_start E true e d = (Ok st, d') /\ sd_router st = router_replace_all router_new t (cfg_http3 c) /\
    sd_log_enabled st = proxy_log c /\
    (sp_http (sd_plan st)).*1 = tcp_bind_addrs macos (http_listen (pe_server penv)) /\
    tl_addr <$> sp_https (sd_plan st) = tcp_bind_addrs macos (https_listen (pe_server penv)) /\
    Forall (fun l => tl_choice l = BySni) (sp_https (sd_plan st)).
Proof.
  intros Hrd Ht Hfb Hok HF. destruct (main_reaches _ _ _ _ _ _ Hrd) as (d2 & ->). unfold Startup.serve_config, mbind, start_bind.
  rewrite start_table, Ht. unfold start_result at 1. cbv zeta.
  pose proof (reload_spec (ae_io E) (cfg_tls (start_config e' penv c)) store_new) as Hr.
  destruct (reload_from_configs (ae_io E) (cfg_tls (start_config e' penv c)) store_new) as [[[]|err] st0].
  2: { exfalso. apply (proj1 Hr). by apply normalize_entries_ok. }
  destruct Hr as [_ Hst0]. specialize (Hst0 (certs_ok_new _)). unfold start_result at 1.
  destruct (load_certificates_ok (start_config e' penv c) st0 d2 Hst0) as (c3 & st3 & d3 & -> & Hst3).
  destruct (global_fallback_ok (pe_server penv) st3 Hfb Hst3) as (st4 & Hg & Hst4). unfold start_result at 1. rewrite Hg.
  match goal with |- context [server_run ?a ?b ?m ?i ?ih ?tk ?dp ?wp ?sc ?r ?st ?ac true ?cf ?h] =>
    destruct (server_run_ok a sc r st ac cf h Hok Hst4) as (plan & Hp & H1 & H2 & H3 & _) end.
  unfold start_result. rewrite Hp. do 2 eexists. split; [reflexivity|]. by split_and!.
Qed.

(** C15: A saved configuration is served by the next start.  After the management
    interface has accepted a configuration, a start that reads that database, with the
    certificate files as they were and an environment that parses, comes up: its
    router is exactly the one the save left running (routes, policies and HTTP/3
    options), logging is as configured, and it listens on every HTTP and HTTPS
    address, choosing certificates by SNI.  Nothing on the way stops it: neither the
    certificates in the database, nor the merging of uploaded ones, nor the fallback
    of the environment. *)
Theorem saved_config_starts E0 body s n s' d e e' cfg penv :
  ae_viewer_mode E0 = false -> is_some (ad_db s) = true -> put_config E0 body s = (Ok n, s') -> ad_db s' = Some d ->
  readable e e' cfg penv (stored_form body) d -> ae_io E = ae_io E0 ->
  fallback_sound (pe_server penv) -> tls_ok BySni = true ->
  exists st d', main_start E true e d = (Ok st, d') /\ sd_router st = ad_router s' /\
    sd_log_enabled st = ad_log_enabled s' /\
    (sp_http (sd_plan st)).*1 = tcp_bind_addrs macos (http_listen (pe_server penv)) /\
    tl_addr <$> sp_https (sd_plan st) = tcp_bind_addrs macos (https_listen (pe_server penv)) /\
    Forall (fun l => tl_choice l = BySni) (sp_https (sd_plan st)).
Proof.
  intros Hv Hdb Hp Hd Hrd Hio Hfb Hok. pose proof (put_ok_entries _ _ _ _ _ Hp) as HF. rewrite <- Hio in HF.
  destruct (ad_db s) as [d0|] eqn:Ed0; [|done].
  pose proof (put_config_spec scan to_lowercase url_parse iter_routes db_text apply_text store_text E0 body s d0 Hv Ed0) as Hs.
  cbn zeta in Hs. rewrite Hp in Hs. destruct Hs as (_ & _ & Hl & (t & Ht & Hr) & _).
  destruct (start_from_stored e e' cfg penv (stored_form body) d t Hrd Ht Hfb Hok HF) as (st & d' & Hm & Hro & Hlo & H1).
  exists st, d'. split; [done|]. split; [|split; [congruence|done]]. rewrite Hro, Hr. done.
Qed.

(** A configuration that names a bad certificate file is refused by the management
    interface, but stored; the next start finds it and the process exits. *)
Theorem refused_config_blocks_start E0 body s d0 t tls h cert key e e' cfg penv :
  ae_viewer_mode E0 = false -> ad_db s = Some d0 -> db_faults d0 = [] -> table_of (stored_form body) = Ok t ->
  tls ∈ cfg_tls (stored_form body) -> tls_source tls = File cert key -> h ∈ tls_hosts tls -> trim h <> [] ->
  pair_ok (ae_io E0) cert key = false -> ae_io E = ae_io E0 ->
  exists err s' d, put_config E0 body s = (Err err, s') /\ api_status err = 400 /\ ad_db s' = Some d /\
    (readable e e' cfg penv (stored_form body) d -> exists x d', main_start E true e d = (Err (StartStore x), d')).
Proof.
  intros Hv Hd Hf Ht Htls Hsrc Hh Hne Hp Hio. set (c := stored_form body) in *.
  assert (Hbad : ~ Forall (entry_ok (ae_io E0)) (cfg_tls c)).
  { rewrite Forall_forall. intros HF. specialize (HF tls Htls). unfold entry_ok in HF. rewrite Hsrc in HF.
    destruct HF as [HF _]; [|congruence]. intros Hnil. rewrite Hnil in Hh. by apply elem_of_nil in Hh. }
  unfold Admin.put_config. rewrite Hv. fold c. unfold mbind, api_bind, require_db. rewrite Hd. unfold persist_proxy_config, mbind, api_bind.
  pose proof (save_outcome db_text c s d0 Hd) as Hsv. unfold db_call in *. rewrite Hd in *.
  unfold save_proxy_config, save_config_json, db_write, db_exec in *. rewrite Hf in *. cbn in Hsv |- *.
  unfold activate_proxy_config, apply_config. rewrite Ht. cbn [ad_router ad_certs set_db set_router].
  pose proof (reload_spec (ae_io E0) (cfg_tls c) (ad_certs s)) as Hr.
  destruct (reload_from_configs (ae_io E0) (cfg_tls c) (ad_certs s)) as [[[]|x] certs]; [by destruct Hr|].
  do 3 eexists. split; [reflexivity|]. split; [reflexivity|]. split; [reflexivity|]. intros Hrd.
  destruct (main_reaches _ _ _ _ _ _ Hrd) as (d2 & ->). unfold Startup.serve_config, mbind, start_bind.
  rewrite start_table, Ht. unfold start_result at 1. cbv zeta.
  pose proof (reload_spec (ae_io E) (cfg_tls (start_config e' penv c)) store_new) as Hr2.
  destruct (reload_from_configs (ae_io E) (cfg_tls (start_config e' penv c)) store_new) as [[[]|y] st0].
  { exfalso. destruct Hr2 as [HF _]. rewrite Hio in HF. revert HF. by eapply normalize_keeps_bad. }
  unfold start_result at 1. by do 2 eexists.
Qed.

End main_props.

(** ** A concrete start *)

Definition small_env : ProcEnv := {[bs "PERTISK_PROXY_MODE" := bs "standard"; bs "LISTEN_HTTP" := bs "127.0.0.1:8080"]}.
Definition small_penv : ProxyEnv :=
  mkProxyEnv (mkServerConfig "127.0.0.1:8080" "[::]:443" "[::]:443" true true None None) default_db_path false None.
Definition put_db (tls : list TlsConfig) : DbState := default (mkDbState empty_tables []) (ad_db (do_put (is_empty tls) tls).2).
Definition no_routes (_ : str) : option RoutesFile := None.
Definition no_json (_ : list TlsConfig) : str := [].
Definition any_tls (_ : TlsChoice) : bool := true.

Lemma start_env_unset `{Formats} e d : db_faults d = [] -> t_config (db_tables d) !! RUNTIME_ENV_KEY = None ->
  (start_env map_order true e d).1 = Some e.
Proof.
  intros Hf Hn. unfold start_env, load_overrides_from_db_path, get_runtime_env_overrides, get_config_json, mbind, db_bind, db_read, db_exec.
  by rewrite Hf, Hn.
Qed.

Lemma small_readable tls : tls = [] \/ tls = bad_tls ->
  @readable (toy tls) map_order 4 false (admin_env 9 (file_io (is_empty tls))) small_env small_env
    (mkRuntimeConfig ModeStandard ModeStandard 4 512) small_penv (stored_form (web_config tls)) (put_db tls).
Proof.
  intros [->| ->]; (constructor; [reflexivity| |vm_compute; reflexivity|reflexivity|apply start_env_unset; vm_compute; reflexivity|
    vm_compute; reflexivity|vm_compute; reflexivity]); intros Hn; apply (f_equal (lookup (bs "admin"))) in Hn; vm_compute in Hn; discriminate.
Qed.

Lemma saved_config_starts_witness :
  exists st d', @main_start (toy []) id_rows to_ascii_lowercase no_url no_routes no_routes map_order (fun m => map_to_list m)
    (fun m => map_to_list m) no_json 4 false false any_tls 128 false (admin_env 9 (file_io true)) true small_env (put_db []) = (Ok st, d') /\
    sd_router st = ad_router (do_put true []).2 /\ tl_addr <$> sp_https (sd_plan st) = [bs "[::]:443"].
Proof.
  destruct (@saved_config_starts (toy []) id_rows to_ascii_lowercase no_url no_routes no_routes map_order (fun m => map_to_list m)
    (fun m => map_to_list m) (fun m => reflexivity _) no_json 4 false false any_tls 128 false (admin_env 9 (file_io true))
    no_text no_text no_text (admin_env 0 (file_io true)) (web_config []) admin_state (bs "1") (do_put true []).2 (put_db [])
    small_env small_env (mkRuntimeConfig ModeStandard ModeStandard 4 512) small_penv eq_refl eq_refl) as (st & d' & H1 & H2 & _ & _ & H3 & _).
  - vm_compute. reflexivity.
  - vm_compute. reflexivity.
  - apply (small_readable []). by left.
  - reflexivity.
  - intros cert key Hc. discriminate Hc.
  - reflexivity.
  - exists st, d'. split; [exact H1|]. split; [exact H2|]. rewrite H3. vm_compute. reflexivity.
Defined.

(** The refused configuration of [bad_tls] keeps the proxy down. *)
Lemma refused_config_exits :
  is_ok (do_put false bad_tls).1 = false /\
  (@main_start (toy bad_tls) id_rows to_ascii_lowercase no_url no_routes no_routes map_order (fun m => map_to_list m)
    (fun m => map_to_list m) no_json 4 false false any_tls 128 false (admin_env 9 (file_io false)) true small_env (put_db bad_tls)).1 =
    Err (StartStore (InvalidPair "/gone.pem" "/gone.key")).
Proof. vm_compute. done. Qed.

(** ** A setting without effect *)

Lemma var_other e k v k' : k <> k' -> var (<[k := v]> e) k' = var e k'.
Proof. intros Hne. unfold var. by rewrite lookup_insert_ne. Qed.

Lemma options_backlog e v addr : tcp_listener_options (<[bs "PERTISK_TCP_LISTEN_BACKLOG" := v]> e) addr = tcp_listener_options e addr.
Proof.
  unfold tcp_listener_options, downstream_tcp_keepalive, downstream_tcp_keepalive_config, env_usize, env_u64.
  by rewrite !var_other by (vm_compute; discriminate).
Qed.

(** The listen backlog of the environment is read, logged and shown, but no listener
    gets it: two environments that differ in nothing else start the same server. *)
Theorem backlog_without_effect e v cpus macos io iter_hosts tls_ok pool prom c router st acme sni cfg h3 :
  server_run (<[bs "PERTISK_TCP_LISTEN_BACKLOG" := v]> e) cpus macos io iter_hosts tls_ok pool prom c router st acme sni cfg h3 =
  server_run e cpus macos io iter_hosts tls_ok pool prom c router st acme sni cfg h3.
Proof.
  assert (Hl : forall g addrs, tls_listeners (<[bs "PERTISK_TCP_LISTEN_BACKLOG" := v]> e) iter_hosts tls_ok c st acme sni g addrs =
    tls_listeners e iter_hosts tls_ok c st acme sni g addrs).
  { intros g addrs. induction addrs as [|a addrs IH]; [done|]. cbn [tls_listeners]. by rewrite IH, options_backlog. }
  assert (Hm : forall addrs : list str, (fun addr => (addr, tcp_listener_options (<[bs "PERTISK_TCP_LISTEN_BACKLOG" := v]> e) addr)) <$> addrs =
    (fun addr => (addr, tcp_listener_options e addr)) <$> addrs).
  { intros addrs. apply list_fmap_ext. intros i a _. by rewrite options_backlog. }
  unfold server_run, effective_tls_grade, pingora_server_conf, pingora_service_threads, pingora_listener_tasks_per_fd, grace_period_seconds,
    graceful_shutdown_timeout_seconds, worker_threads_from_cpu_limit, env_usize, env_u64, http3_advertised_port,
    pingora_prometheus_enabled, pingora_prometheus_listen_addr.
  rewrite !var_other by (vm_compute; discriminate). by rewrite Hl, Hm.
Qed.
