(* ===== verification/Policies.v ===== *)
(** * Named policies and backups (api/policies.rs, api/backup.rs)

    The handlers that keep the access lists and WAF policies of the configuration,
    and those that export and restore a proxy's configuration and certificates. *)

From S2P Require Import Prelude RustStr Ip GeoIp Waf Bot Captcha Security Edge EdgeAuth ProxyConfig Router Forward Apply.
From S2P Require Import Telemetry CertStore Database Admin.

Definition with_lists (c : Config) (acls : list AccessList) (wafs : list NamedWafPolicy) : Config :=
  mkConfig (http_addr c) (https_addr c) (http3_addr c) (ProxyConfig.management_addr c) (cfg_backends c) (cfg_sites c)
    acls wafs (cfg_tls c) (cfg_security_headers c) (proxy_log c) (acme_email c) (cfg_http3 c)
    (cfg_tls_grade c) (cfg_cache_size_mb c) (cfg_cache_ttl_secs c) (cfg_consul c) (cfg_jwt_secret c).

Definition with_sites (c : Config) (sites : list Site) (backends : list CfgBackend) : Config :=
  mkConfig (http_addr c) (https_addr c) (http3_addr c) (ProxyConfig.management_addr c) backends sites
    (access_lists c) (waf_policies c) (cfg_tls c) (cfg_security_headers c) (proxy_log c) (acme_email c) (cfg_http3 c)
    (cfg_tls_grade c) (cfg_cache_size_mb c) (cfg_cache_ttl_secs c) (cfg_consul c) (cfg_jwt_secret c).

Definition site_with (s : Site) (acl waf : option str) (geo : GeoIpPolicy) (sec : SecurityPolicy) : Site :=
  mkSite (site_host s) (site_routes s) (site_backend s) (site_security_headers s) (ingress_namespace s) (ingress_name s)
    (k8s_resource_kind s) (http3_alt_svc_enabled s) (site_forward_client_ip s) acl waf geo sec.

(** ** The lists *)

(** Edits of the configuration, as the handlers make them before saving. *)
Definition push_access_list (l : AccessList) (c : Config) : Config := with_lists c (access_lists c ++ [l]) (waf_policies c).
Definition push_waf_policy (p : NamedWafPolicy) (c : Config) : Config := with_lists c (access_lists c) (waf_policies c ++ [p]).

(** Replace the first element that satisfies [p]. *)
Fixpoint update_first {A} (p : A -> bool) (f : A -> A) (l : list A) : option (list A) :=
  match l with
  | [] => None
  | x :: rest => if p x then Some (f x :: rest) else (x ::.) <$> update_first p f rest
  end.

(** The sites that name the list get its policy as their own copy. *)
Definition put_access_list (id name : str) (description : option str) (geo : GeoIpPolicy) (c : Config) : option Config :=
  acls ← update_first (fun l => acl_id l =s id) (fun l => mkAccessList (acl_id l) name description geo) (access_lists c);
  Some (with_sites (with_lists c acls (waf_policies c))
    ((fun s => if bool_decide (access_list_id s = Some id)
               then site_with s (access_list_id s) (waf_policy_id s) geo (site_security s) else s) <$> cfg_sites c)
    (cfg_backends c)).

Definition put_waf_policy (id name : str) (description : option str) (sec : SecurityPolicy) (c : Config) : option Config :=
  wafs ← update_first (fun p => nwp_id p =s id) (fun p => mkNamedWafPolicy (nwp_id p) name description sec) (waf_policies c);
  Some (with_sites (with_lists c (access_lists c) wafs)
    ((fun s => if bool_decide (waf_policy_id s = Some id)
               then site_with s (access_list_id s) (waf_policy_id s) (site_geoip s) sec else s) <$> cfg_sites c)
    (cfg_backends c)).

(** [None] when nothing was removed. *)
Definition delete_access_list (id : str) (c : Config) : option Config :=
  let acls := filter (fun l => (acl_id l =s id) = false) (access_lists c) in
  if (length acls =? length (access_lists c))%nat then None
  else
    Some (with_sites (with_lists c acls (waf_policies c))
      ((fun s => if bool_decide (access_list_id s = Some id)
                 then site_with s None (waf_policy_id s) (site_geoip s) (site_security s) else s) <$> cfg_sites c)
      (cfg_backends c)).

Definition delete_waf_policy (id : str) (c : Config) : option Config :=
  let wafs := filter (fun p => (nwp_id p =s id) = false) (waf_policies c) in
  if (length wafs =? length (waf_policies c))%nat then None
  else
    Some (with_sites (with_lists c (access_lists c) wafs)
      ((fun s => if bool_decide (waf_policy_id s = Some id)
                 then site_with s (access_list_id s) None (site_geoip s) (site_security s) else s) <$> cfg_sites c)
      (cfg_backends c)).

Definition trimmed_description (d : option str) : option str := opt_filter (fun s => negb (is_empty s)) (trim <$> d).

(** ** Backups *)

Record BackupCertificate := mkBackupCertificate {
  bc_hosts : list str;
  bc_cert_pem : str;
  bc_key_pem : str;
  bc_source_type : str;
}.

Record ProxyBackup := mkProxyBackup {
  pb_config : Config;
  pb_certificates : list BackupCertificate;
  pb_dns_providers : list DnsProviderRow;
  pb_created_at : str;
}.

(** What the backup has and the running configuration has not. *)
Definition merge_proxy_config (merged backup : Config) : Config :=
  let sites := cfg_sites merged ++ filter (fun s => site_host s ∉ site_host <$> cfg_sites merged) (cfg_sites backup) in
  let backends := cfg_backends merged
                  ++ filter (fun b => backend_name b ∉ backend_name <$> cfg_backends merged) (cfg_backends backup) in
  let sorted t := sort_by str_leb (tls_hosts t) in
  let tls := cfg_tls merged ++ filter (fun t => sorted t ∉ sorted <$> cfg_tls merged) (cfg_tls backup) in
  with_tls (with_sites merged sites backends) tls.

Record RestoreReport := mkRestoreReport { restored_count : nat; restore_errors : nat }.

Section handlers.
Context `{Crypto} `{Formats}.
Variable scan : list CertRow -> list CertRow.
Variable scan_dns : list DnsRow -> list DnsRow.
Variable to_lowercase : str -> str.
Variable url_parse : str -> option Url.
Variable iter_routes : gmap str (list Route) -> list (str * list Route).
Variable db_text : DbError -> str.
Variable apply_text : ApplyError -> str.
Variable store_text : StoreError -> str.
Variable E : AdminEnv.

Implicit Type s : Admin.

Abbreviation db_call := (db_call db_text).
Abbreviation persist := (persist_proxy_config scan to_lowercase url_parse db_text apply_text store_text E).

(** In ingress mode the lists come from the database, if it has any. *)
Definition load_config : Api Config := fun s =>
  let c := ad_config s in
  if ae_viewer_mode E then
    match ad_db s with
    | None => (Ok c, s)
    | Some d =>
      let '(r, d') := get_proxy_config d in
      (Ok (match r with Ok (Some stored) => with_lists c (access_lists stored) (waf_policies stored) | _ => c end),
       set_db (Some d') s)
    end
  else (Ok c, s).

Definition apply_running (c : Config) : Api unit := fun s =>
  match apply_config to_lowercase url_parse (ad_router s) c with
  | (Err e, _) => (Err (mkApiError 400 (apply_text e)), s)
  | (Ok _, r) => (Ok tt, set_config c (set_router r s))
  end.

(** In ingress mode only the lists are stored. *)
Definition save_and_activate (c : Config) : Api unit :=
  if ae_viewer_mode E then
    stored ← db_call (db_try get_proxy_config);
    let stored := default config_default (match stored with Ok o => o | Err _ => None end) in
    _ ← db_call (save_proxy_config (with_lists stored (access_lists c) (waf_policies c)));
    apply_running c
  else persist c.

Definition normalize_name (name : str) : Api str :=
  if is_empty (trim name) then api_fail 400 "name is required" else mret (trim name).

(** What the lists show: the stored ones, or else the running ones. *)
Definition shown_config : Api Config := fun s =>
  match ad_db s with
  | None => (Ok (ad_config s), s)
  | Some d =>
    let '(r, d') := get_proxy_config d in
    (Ok (match r with Ok (Some stored) => stored | _ => ad_config s end), set_db (Some d') s)
  end.

Definition access_lists_list : Api (list AccessList) := c ← shown_config; mret (access_lists c).
Definition waf_policies_list : Api (list NamedWafPolicy) := c ← shown_config; mret (waf_policies c).

Definition or_404 {A} (o : option A) : Api A := match o with Some a => mret a | None => api_fail 404 "not found" end.

Definition access_lists_get (id : str) : Api AccessList :=
  c ← load_config; or_404 (List.find (fun l => acl_id l =s id) (access_lists c)).
Definition waf_policies_get (id : str) : Api NamedWafPolicy :=
  c ← load_config; or_404 (List.find (fun p => nwp_id p =s id) (waf_policies c)).

Definition access_lists_create (name : str) (description : option str) (geo : GeoIpPolicy) : Api str :=
  _ ← require_db;
  name ← normalize_name name;
  c ← load_config;
  _ ← save_and_activate
        (push_access_list (mkAccessList (ae_uuid E) name (trimmed_description description) (geo_normalized geo)) c);
  mret (ae_uuid E).

Definition waf_policies_create (name : str) (description : option str) (sec : SecurityPolicy) : Api str :=
  _ ← require_db;
  name ← normalize_name name;
  c ← load_config;
  _ ← save_and_activate
        (push_waf_policy (mkNamedWafPolicy (ae_uuid E) name (trimmed_description description) (security_normalized sec)) c);
  mret (ae_uuid E).

Definition access_lists_put (id name : str) (description : option str) (geo : GeoIpPolicy) : Api unit :=
  _ ← require_db;
  name ← normalize_name name;
  c ← load_config;
  c ← or_404 (put_access_list id name (trimmed_description description) (geo_normalized geo) c);
  save_and_activate c.

Definition waf_policies_put (id name : str) (description : option str) (sec : SecurityPolicy) : Api unit :=
  _ ← require_db;
  name ← normalize_name name;
  c ← load_config;
  c ← or_404 (put_waf_policy id name (trimmed_description description) (security_normalized sec) c);
  save_and_activate c.

Definition access_lists_delete (id : str) : Api unit :=
  _ ← require_db; c ← load_config; c ← or_404 (delete_access_list id c); save_and_activate c.

Definition waf_policies_delete (id : str) : Api unit :=
  _ ← require_db; c ← load_config; c ← or_404 (delete_waf_policy id c); save_and_activate c.

(** *** Export and restore *)

(** The check of the two backup handlers. *)
Definition backup_db : Api unit := fun s =>
  match ad_db s with Some _ => (Ok tt, s) | None => (Err (mkApiError 503 "Database not configured"), s) end.

(** A part that cannot be read is left out. *)
Definition or_empty {A} (r : result DbError (list A)) : list A := match r with Ok l => l | Err _ => [] end.

(** The certificate of a listed row, from the rows with their PEM texts. *)
Definition backup_certificate (pems : list (str * list str * str * str)) (row : CertificateRow) : option BackupCertificate :=
  '(_, hosts, cert, key) ← List.find (fun p => p.1.1.1 =s row_id row) (reverse pems);
  Some (mkBackupCertificate hosts cert key (row_source_type row)).

Definition build_proxy_backup : Api ProxyBackup :=
  _ ← backup_db;
  c ← api_get ad_config;
  pems ← db_call (db_try (get_all_certificates_for_store scan));
  rows ← db_call (db_try (list_certificates scan));
  dns ← db_call (db_try (list_dns_providers scan_dns));
  mret (mkProxyBackup c (omap (backup_certificate (or_empty pems)) (or_empty rows)) (or_empty dns) (to_rfc3339 (ae_now E))).

(** One certificate of a restore; each has a fresh id.  Counts what reached the
    database, and the failures. *)
Definition restore_certificate (id : str) (b : BackupCertificate) (rep : RestoreReport) : Api RestoreReport :=
  r ← db_call (db_try (add_certificate id (bc_hosts b) (bc_cert_pem b) (bc_key_pem b) (bc_source_type b) (ae_now E)));
  match r with
  | Err _ => mret (mkRestoreReport (restored_count rep) (S (restore_errors rep)))
  | Ok id => api_step (fun s =>
    let '(r, c) := insert_pem_for_hosts (ae_io E) (bc_hosts b) (bc_cert_pem b) (bc_key_pem b) (ae_certs_dir E) id (ad_certs s) in
    (Ok (mkRestoreReport (S (restored_count rep)) (match r with Ok _ => restore_errors rep | Err _ => S (restore_errors rep) end)),
     set_certs c s))
  end.

Fixpoint restore_certificates (skip : gset str) (ids : list str) (bs : list BackupCertificate) (rep : RestoreReport)
    : Api RestoreReport :=
  match bs with
  | [] => mret rep
  | b :: rest =>
    if existsb (fun h => bool_decide (h ∈ skip)) (bc_hosts b) then restore_certificates skip ids rest rep
    else
      rep ← restore_certificate (default [] (head ids)) b rep;
      restore_certificates skip (tail ids) rest rep
  end.

(** [ids] are the UUIDs generated on the way. *)
Definition proxy_backup_restore (merge : bool) (ids : list str) (b : ProxyBackup) : Api RestoreReport :=
  _ ← backup_db;
  existing ← (if merge then db_call (db_try (list_certificates scan)) else mret (Ok []));
  let skip : gset str := list_to_set (mjoin (row_hosts <$> or_empty existing)) in
  rep ← restore_certificates skip ids (pb_certificates b) (mkRestoreReport 0 0);
  current ← api_get ad_config;
  let c := stored_form (if merge then merge_proxy_config current (pb_config b) else pb_config b) in
  api_step (fun s =>
    match persist c s with
    | (Ok _, s) =>
      let msg := bs "backup restored (" ++ show_N (N.of_nat (length (cfg_sites c))) ++ bs " sites, "
                 ++ n_routes iter_routes (ad_router s) ++ bs " routes)" in
      (Ok (mkRestoreReport (S (restored_count rep)) (restore_errors rep)), (log_reload E msg s).2)
    | (Err _, s) => (Ok (mkRestoreReport (restored_count rep) (S (restore_errors rep))), s)
    end).

(** 200, or 206 when something failed. *)
Definition restore_status (rep : RestoreReport) : N := if (restore_errors rep =? 0)%nat then 200 else 206.

End handlers.
