(* ===== verification/Notify.v ===== *)
(** * E-mail notifications (api/notifications.rs, email/smtp.rs, email/templates.rs)

    The texts of an alert, the checks before a message is handed to the mail
    transport, the alert that follows an authentication event, and the handlers of
    the mail settings.  The mail library (address syntax, transport) is a
    parameter. *)

From S2P Require Import Prelude RustStr Ip GeoIp Waf Bot Captcha Security Edge EdgeAuth ProxyConfig Router Forward Apply.
From S2P Require Import Telemetry CertStore Database Admin.

(** ** Templates (email/templates.rs) *)

Record EmailContent := mkEmailContent {
  headline : str;
  paragraphs : list str;
  details : list (str * str);
}.

Definition content_simple (h : str) (ps : list str) : EmailContent := mkEmailContent h ps [].
Definition content_with_details (h : str) (ps : list str) (ds : list (str * str)) : EmailContent := mkEmailContent h ps ds.

Record AuthEventDetails := mkAuthEventDetails {
  ad_username : str;
  ad_ip_address : str;
  ad_occurred_at : str;
  ad_user_agent : str;
}.

(** The typographic characters of the texts, in UTF-8. *)
Definition left_quote : str := [xe2; x80; x9c].
Definition right_quote : str := [xe2; x80; x9d].
Definition em_dash : str := [xe2; x80; x94].
Definition ellipsis : str := [xe2; x80; xa6].

(** [chars().count()] and [chars().take(n)] on valid UTF-8: a character is a byte
    that does not continue another, with those that continue it. *)
Definition char_count (s : str) : nat := length (filter (fun b => is_cont b = false) s).
Fixpoint char_take (n : nat) (s : str) : str :=
  match s with
  | [] => []
  | b :: s' =>
    if is_cont b then b :: char_take n s'
    else match n with O => [] | S n' => b :: char_take n' s' end
  end.

Definition MAX_UA : nat := 160.

Definition truncate_ua (ua : str) : str :=
  let ua := trim ua in
  if is_empty ua then em_dash
  else if (char_count ua <=? MAX_UA)%nat then ua
  else char_take MAX_UA ua ++ ellipsis.

Definition auth_detail_rows (d : AuthEventDetails) : list (str * str) :=
  [(bs "Username", ad_username d); (bs "IP address", ad_ip_address d); (bs "Time", ad_occurred_at d);
   (bs "User agent", truncate_ua (ad_user_agent d))].

Definition quoted (s : str) : str := left_quote ++ s ++ right_quote.

Definition login_failure_content (d : AuthEventDetails) : EmailContent :=
  content_with_details "Failed management login"
    [bs "A failed login attempt was made for username " ++ quoted (ad_username d) ++ bs ".";
     bs "If this was not you, review management access and consider changing the admin password."]
    (auth_detail_rows d).

Definition login_content (d : AuthEventDetails) : EmailContent :=
  content_with_details "Successful management login"
    [bs "User " ++ quoted (ad_username d) ++ bs " signed in to the management UI.";
     bs "If this was not you, change the admin password immediately."]
    (auth_detail_rows d).

Definition password_change_content (d : AuthEventDetails) : EmailContent :=
  content_with_details "Management password changed"
    [bs "The password for user " ++ quoted (ad_username d) ++ bs " was changed.";
     bs "If you did not make this change, secure the account and review access immediately."]
    (auth_detail_rows d).

Definition test_content : EmailContent :=
  content_simple "SMTP is configured"
    [bs "This is a test email from Pertisk Proxy."; bs "If you received this message, SMTP delivery is working."].

Definition sample_details : AuthEventDetails :=
  mkAuthEventDetails "admin" "203.0.113.42" "2026-07-23 04:12:08 UTC"
    "Mozilla/5.0 (Macintosh; Intel Mac OS X 10_15_7) AppleWebKit/537.36".

Definition sample_content (kind : str) : str * EmailContent :=
  if kind =s "login" then (bs "Successful management login", login_content sample_details)
  else if kind =s "login_failure" then (bs "Failed management login", login_failure_content sample_details)
  else if kind =s "password_change" then (bs "Management password changed", password_change_content sample_details)
  else (bs "Pertisk Proxy SMTP test", test_content).

(** [writeln!] ends with a line feed. *)
Definition render_plain (from_name : str) (c : EmailContent) : str :=
  headline c ++ [x0a; x0a]
  ++ mjoin ((fun p => p ++ [x0a; x0a]) <$> paragraphs c)
  ++ (if is_empty (details c) then []
      else mjoin ((fun lv => lv.1 ++ bs ":" ++ [x09] ++ lv.2 ++ [x0a]) <$> details c) ++ [x0a])
  ++ bs "---" ++ [x0a] ++ from_name.

Definition escape_byte (b : byte) : str :=
  if is_byte "&" b then bs "&amp;"
  else if is_byte "<" b then bs "&lt;"
  else if is_byte ">" b then bs "&gt;"
  else if is_byte x22 b then bs "&quot;"
  else if is_byte "'" b then bs "&#39;"
  else [b].

Definition email_escape (s : str) : str := mjoin (escape_byte <$> s).

Definition paragraph_html (p : str) : str :=
  tmpl "<p style=`margin:0 0 16px;font-size:15px;line-height:1.6;color:#3f3f46;`>" ++ email_escape p ++ tmpl "</p>".

Definition detail_html (lv : str * str) : str :=
  page_lines
    [tmpl "<tr>";
     tmpl "  <td style=`padding:8px 0;font-size:14px;color:#71717a;vertical-align:top;width:120px;`>" ++ email_escape lv.1 ++ tmpl ":</td>";
     tmpl "  <td style=`padding:8px 0;font-size:14px;color:#18181b;vertical-align:top;word-break:break-word;`>"
       ++ email_escape lv.2 ++ tmpl "</td>";
     tmpl "</tr>"].

Definition details_html (ds : list (str * str)) : str :=
  if is_empty ds then []
  else
    tmpl "<table role=`presentation` width=`100%` cellspacing=`0` cellpadding=`0` style=`margin:0 0 20px;background:#fafafa;border:1px solid #e4e4e7;border-radius:12px;`><tr><td style=`padding:16px 18px;`><table role=`presentation` width=`100%` cellspacing=`0` cellpadding=`0`>"
    ++ mjoin (detail_html <$> ds) ++ tmpl "</table></td></tr></table>".

Definition render_html (from_name : str) (c : EmailContent) : str :=
  let headline := email_escape (headline c) in
  let from_name_esc := email_escape from_name in
  page_lines
    [tmpl "<!DOCTYPE html>";
     tmpl "<html lang=`en`>";
     tmpl "<head>";
     tmpl "  <meta charset=`utf-8` />";
     tmpl "  <meta name=`viewport` content=`width=device-width, initial-scale=1` />";
     tmpl "  <meta name=`color-scheme` content=`light` />";
     tmpl "  <title>" ++ headline ++ tmpl "</title>";
     tmpl "</head>";
     tmpl "<body style=`margin:0;padding:0;background:#f4f4f5;font-family:-apple-system,BlinkMacSystemFont,'Segoe UI',Roboto,Helvetica,Arial,sans-serif;`>";
     tmpl "  <table role=`presentation` width=`100%` cellspacing=`0` cellpadding=`0` style=`background:#f4f4f5;padding:32px 16px;`>";
     tmpl "    <tr>";
     tmpl "      <td align=`center`>";
     tmpl "        <table role=`presentation` width=`100%` cellspacing=`0` cellpadding=`0` style=`max-width:560px;`>";
     tmpl "          <tr>";
     tmpl "            <td style=`padding:0 0 20px;text-align:center;`>";
     tmpl "              <p style=`margin:0;font-size:18px;font-weight:700;color:#18181b;letter-spacing:-0.02em;`>" ++ from_name_esc ++ tmpl "</p>";
     tmpl "            </td>";
     tmpl "          </tr>";
     tmpl "          <tr>";
     tmpl "            <td style=`background:#ffffff;border:1px solid #e4e4e7;border-radius:14px;padding:28px 28px 24px;`>";
     tmpl "              <h1 style=`margin:0 0 18px;font-size:22px;line-height:1.3;font-weight:700;color:#18181b;`>" ++ headline ++ tmpl "</h1>";
     tmpl "              " ++ mjoin (paragraph_html <$> paragraphs c);
     tmpl "              " ++ details_html (details c);
     tmpl "            </td>";
     tmpl "          </tr>";
     tmpl "          <tr>";
     tmpl "            <td style=`padding:20px 8px 0;text-align:center;font-size:12px;line-height:1.5;color:#71717a;`>";
     tmpl "              <p style=`margin:0;`>" ++ from_name_esc ++ tmpl "</p>";
     tmpl "            </td>";
     tmpl "          </tr>";
     tmpl "        </table>";
     tmpl "      </td>";
     tmpl "    </tr>";
     tmpl "  </table>";
     tmpl "</body>";
     tmpl "</html>"].

(** ** Sending (email/smtp.rs) *)

Inductive Security : Type := Plaintext | ImplicitTls | StartTls.

(** A message with the transport it is handed to. *)
Record MailJob := mkMailJob {
  mj_host : str;
  mj_port : N;
  mj_security : Security;
  mj_credentials : option (str * str);
  mj_from_name : option str;
  mj_from : str;
  mj_to : str;
  mj_subject : str;
  mj_plain : str;
  mj_html : str;
}.

Inductive Delivery : Type := Delivered | Refused (err : str) | TimedOut.

(** The mail library: the error of an address, of a mailbox, of composing a message,
    of a TLS transport for a host ([None]: there is none), and what becomes of a
    message. *)
Record Mailer := mkMailer {
  ml_address : str -> option str;
  ml_mailbox : str -> option str;
  ml_compose : MailJob -> option str;
  ml_tls : Security -> str -> option str;
  ml_deliver : MailJob -> Delivery;
}.

Definition SMTP_TIMEOUT_SECS : N := 15.

(** [settings.port as u16]. *)
Definition port_u16 (port : Z) : N := Z.to_N (port mod 65536).

Definition no_error {E} (o : option E) : result E unit := match o with None => Ok tt | Some e => Err e end.

(** The security and the credentials of [build_mailer]. *)
Definition build_mailer (m : Mailer) (s : SmtpSettingsRow) (password : option str) : result str (Security * option (str * str)) :=
  let host := trim (sm_host s) in
  let security := if negb (sm_use_tls s) then Plaintext else if port_u16 (sm_port s) =? 465 then ImplicitTls else StartTls in
  _ ← (if sm_use_tls s then no_error (ml_tls m security host) else Ok tt);
  if is_empty (trim (sm_username s)) then Ok (security, None)
  else
    pass ← ok_or password (bs "SMTP password is required when username is configured");
    Ok (security, Some (trim (sm_username s), pass)).

Definition bail {A} (b : bool) (msg : str) (k : result str A) : result str A := if b then Err msg else k.

(** The message of [Message::builder()], for a transport. *)
Definition compose (s : SmtpSettingsRow) (to subject : str) (content : EmailContent) (security : Security)
    (credentials : option (str * str)) : MailJob :=
  let named := negb (is_empty (trim (sm_from_name s))) in
  let from_name := if named then sm_from_name s else bs "Pertisk Proxy" in
  mkMailJob (trim (sm_host s)) (port_u16 (sm_port s)) security credentials
    (if named then Some (sm_from_name s) else None) (sm_from_email s) to subject
    (render_plain from_name content) (render_html from_name content).

(** Everything before the message goes out. *)
Definition prepare_email (m : Mailer) (s : SmtpSettingsRow) (to subject : str) (content : EmailContent) (require_enabled : bool)
    : result str MailJob :=
  bail (require_enabled && negb (sm_enabled s)) "SMTP is disabled" (
  bail (is_empty (trim (sm_host s))) "SMTP host is not configured" (
  bail (is_empty (trim (sm_from_email s))) "From email is not configured" (
  let to := trim to in
  bail (is_empty to) "recipient address is empty" (
  _ ← match ml_address m (sm_from_email s) with None => Ok tt | Some e => Err (bs "invalid from email: " ++ e) end;
  _ ← match ml_mailbox m to with None => Ok tt | Some e => Err (bs "invalid recipient " ++ to ++ bs ": " ++ e) end;
  _ ← no_error (ml_compose m (compose s to subject content Plaintext None));
  let password := let p := trim (sm_password s) in if is_empty p then None else Some p in
  bail (negb (is_empty (trim (sm_username s))) && negb (is_some password)) "SMTP username is set but password is missing" (
  '(security, credentials) ← build_mailer m s password;
  Ok (compose s to subject content security credentials)))))).

(** The result, and the message that was handed over. *)
Definition send_email (m : Mailer) (s : SmtpSettingsRow) (to subject : str) (content : EmailContent) (require_enabled : bool)
    : result str unit * option MailJob :=
  match prepare_email m s to subject content require_enabled with
  | Err e => (Err e, None)
  | Ok job =>
    (match ml_deliver m job with
     | Delivered => Ok tt
     | Refused err => Err (bs "SMTP send to " ++ mj_to job ++ bs " failed: " ++ err)
     | TimedOut => Err (bs "SMTP send to " ++ mj_to job ++ bs " timed out after " ++ show_N SMTP_TIMEOUT_SECS
                        ++ bs "s (check host, port, TLS, and firewall)")
     end, Some job)
  end.

(** ** Alerts (api/notifications.rs) *)

Definition kind_subject (k : AuthEventKind) : str :=
  match k with
  | LoginSuccess => bs "Successful management login"
  | LoginFailure => bs "Failed management login"
  | PasswordChange => bs "Management password changed"
  end.

Definition kind_enabled (k : AuthEventKind) (s : SmtpSettingsRow) : bool :=
  match k with
  | LoginSuccess => sm_notify_login s
  | LoginFailure => sm_notify_login_failure s
  | PasswordChange => sm_notify_password_change s
  end.

Definition kind_content (k : AuthEventKind) (d : AuthEventDetails) : EmailContent :=
  match k with
  | LoginSuccess => login_content d
  | LoginFailure => login_failure_content d
  | PasswordChange => password_change_content d
  end.

(** The spawned task: what it hands to the transport.  [now] is the time of the
    alert as text. *)
Definition notify_auth_event (m : Mailer) (now : str) (ev : AuthEvent) (d : DbState) : option MailJob * DbState :=
  match get_smtp_settings d with
  | (Err _, d') => (None, d')
  | (Ok s, d') =>
    if negb (sm_enabled s) || negb (kind_enabled (ev_kind ev) s) then (None, d')
    else
      let to := trim (sm_alert_to s) in
      if is_empty to then (None, d')
      else
        let content := kind_content (ev_kind ev) (mkAuthEventDetails (ev_user ev) (ev_ip ev) now (ev_agent ev)) in
        ((send_email m s to (kind_subject (ev_kind ev)) content true).2, d')
  end.

(** ** Handlers *)

Record SmtpSettingsResponse := mkSmtpSettingsResponse {
  sr_enabled : bool;
  sr_host : str;
  sr_port : Z;
  sr_username : str;
  sr_has_password : bool;
  sr_from_email : str;
  sr_from_name : str;
  sr_use_tls : bool;
  sr_alert_to : str;
  sr_notify_login_failure : bool;
  sr_notify_login : bool;
  sr_notify_password_change : bool;
  sr_updated_at : str;
}.

Definition row_to_response (r : SmtpSettingsRow) : SmtpSettingsResponse :=
  mkSmtpSettingsResponse (sm_enabled r) (sm_host r) (sm_port r) (sm_username r) (negb (is_empty (trim (sm_password r))))
    (sm_from_email r) (sm_from_name r) (sm_use_tls r) (sm_alert_to r) (sm_notify_login_failure r) (sm_notify_login r)
    (sm_notify_password_change r) (sm_updated_at r).

Section handlers.
Context `{Formats}.
Variable db_text : DbError -> str.
Variable E : AdminEnv.
Variable m : Mailer.

Definition smtp_get : Api SmtpSettingsResponse :=
  _ ← require_db; r ← db_call db_text get_smtp_settings; mret (row_to_response r).

(** The request has the fields of the update, not yet trimmed. *)
Definition smtp_put (body : SmtpSettingsUpdate) : Api SmtpSettingsResponse :=
  _ ← require_db;
  if (su_port body <? 1)%Z || (65535 <? su_port body)%Z then api_fail 400 "port must be between 1 and 65535"
  else
    r ← db_call db_text (update_smtp_settings
          (mkSmtpSettingsUpdate (su_enabled body) (trim (su_host body)) (su_port body) (trim (su_username body)) (su_password body)
             (trim (su_from_email body)) (trim (su_from_name body)) (su_use_tls body) (trim (su_alert_to body))
             (su_notify_login_failure body) (su_notify_login body) (su_notify_password_change body)) (ae_now E));
    mret (row_to_response r).

Definition test_recipient (to : option str) (s : SmtpSettingsRow) : str :=
  default (trim (sm_alert_to s)) (opt_filter (fun t => negb (is_empty t)) (trim <$> to)).

(** The address the test went to. *)
Definition smtp_test (to : option str) : Api str :=
  _ ← require_db;
  s ← db_call db_text get_smtp_settings;
  let to := test_recipient to s in
  if is_empty to then api_fail 400 "set Alert to address or pass { to } in the request body"
  else
    let '(subject, content) := sample_content "test" in
    match (send_email m s to subject content false).1 with
    | Ok _ => mret to
    | Err e => api_fail 400 e
    end.

Definition smtp_preview (template : str) : Api str :=
  _ ← require_db;
  s ← db_call db_text get_smtp_settings;
  let kind := trim template in
  if negb ((kind =s "test") || (kind =s "login") || (kind =s "login_failure") || (kind =s "password_change")) then
    api_fail 400 "template must be test, login, login_failure, or password_change"
  else
    let from_name := if is_empty (trim (sm_from_name s)) then bs "Pertisk Proxy" else trim (sm_from_name s) in
    mret (render_html from_name (sample_content kind).2).

End handlers.
