(* ===== verification/NotifyProps.v ===== *)
(** * What the notifications guarantee

    Theorems about [Notify]: an alert cannot be broken out of by what an attacker
    sends, it goes out exactly when it is configured and only to the configured
    address, every login attempt leaves exactly its event, and settings read back. *)

From S2P Require Import Prelude RustStr Ip GeoIp Waf Bot Captcha Security Edge EdgeAuth ProxyConfig Router Forward Apply.
From S2P Require Import Telemetry CertStore Database Admin AdminProps Notify.

(** ** Escaping *)

(** The bytes that end a text or an attribute in HTML. *)
Definition html_special (c : byte) : Prop := markup c \/ c = "'"%byte.

Lemma email_escape_none c s : html_special c -> c ∉ email_escape s.
Proof.
  intros Hc. unfold email_escape. rewrite list_elem_of_join. intros (l & Hl & Hin).
  apply list_elem_of_fmap in Hin as (b & -> & _). revert Hl. change (c ∉ escape_byte b). apply (bool_decide_eq_false_1 (c ∈ escape_byte b)).
  unfold html_special, markup in Hc. destruct Hc as [[->|[->| ->]]| ->]; destruct b; vm_compute; reflexivity.
Qed.

Lemma count_escape c s : html_special c -> count c (email_escape s) = 0%nat.
Proof. intros Hc. by apply count_not_elem, email_escape_none. Qed.

Lemma count_mjoin c ls : count c (mjoin ls) = sum_list (count c <$> ls).
Proof. induction ls as [|l ls IH]; [done|]. change (mjoin (l :: ls)) with (l ++ mjoin ls). rewrite count_app, IH. done. Qed.

Lemma special_not_lf c : html_special c -> count c [x0a] = 0%nat.
Proof. unfold html_special, markup. by intros [[->|[->| ->]]| ->]. Qed.

Lemma count_lines c ls : html_special c -> count c (page_lines ls) = sum_list (count c <$> ls).
Proof.
  intros Hc. unfold page_lines. induction ls as [|l ls IH]; [done|]. destruct ls as [|l' ls].
  - change (join [x0a] [l]) with l. cbn [fmap list_fmap sum_list_with id]. lia.
  - rewrite join_cons, !count_app, IH, (special_not_lf c Hc). cbn [fmap list_fmap sum_list_with id]. lia.
Qed.

(** The shape of a content: what its markup depends on. *)
Lemma render_count c from content from' content' : html_special c ->
  length (paragraphs content) = length (paragraphs content') -> length (details content) = length (details content') ->
  count c (render_html from content) = count c (render_html from' content').
Proof.
  intros Hc Hp Hd. unfold render_html. cbv zeta. rewrite !(count_lines c _ Hc).
  assert (Hps : count c (mjoin (paragraph_html <$> paragraphs content)) = count c (mjoin (paragraph_html <$> paragraphs content'))).
  { rewrite !count_mjoin. f_equal. revert Hp. generalize (paragraphs content'). induction (paragraphs content) as [|p ps IH]; intros [|p' ps'] Hl;
      [done..|]. cbn [fmap list_fmap]. f_equal; [|apply IH; by injection Hl].
    unfold paragraph_html. by rewrite !count_app, !(count_escape c _ Hc). }
  assert (Hds : count c (details_html (details content)) = count c (details_html (details content'))).
  { unfold details_html. destruct (details content) as [|x ds]; destruct (details content') as [|x' ds']; [done..|]. cbn [is_empty].
    rewrite !count_app. f_equal. f_equal. rewrite !count_mjoin. f_equal.
    revert Hd. generalize (x' :: ds'). generalize (x :: ds). clear -Hc.
    intros l. induction l as [|y l IH]; intros [|y' l'] Hl; [done..|]. cbn [fmap list_fmap]. f_equal; [|apply IH; by injection Hl].
    unfold detail_html. rewrite !(count_lines c _ Hc). cbn [fmap list_fmap sum_list_with id]. by rewrite !count_app, !(count_escape c _ Hc). }
  cbn [fmap list_fmap sum_list_with id]. rewrite !count_app, !(count_escape c _ Hc), Hps, Hds. done.
Qed.

(** An alert cannot be broken out of.  The numbers of angle brackets and quotes in
    the HTML of an alert depend only on the kind of event: not on the user name, the
    client's address or its user agent, nor on the configured sender name, whatever
    bytes they hold. *)
Theorem alert_html_inert k from from' d d' c : html_special c ->
  count c (render_html from (kind_content k d)) = count c (render_html from' (kind_content k d')).
Proof. intros Hc. by apply render_count; [|destruct k..]. Qed.

Lemma alert_html_inert_witness :
  count "<" (render_html "P" (kind_content LoginFailure (mkAuthEventDetails "<script>" "1.2.3.4" "now" "</td>"))) =
  count "<" (render_html [] (kind_content LoginFailure (mkAuthEventDetails [] [] [] []))).
Proof. apply (alert_html_inert LoginFailure "P" []). unfold html_special, markup. auto. Defined.

(** ** Bounds of the user agent *)

Lemma char_count_app s t : char_count (s ++ t) = (char_count s + char_count t)%nat.
Proof. unfold char_count. by rewrite filter_app, length_app. Qed.

Lemma char_take_count n s : (char_count (char_take n s) <= n)%nat.
Proof.
  revert n. induction s as [|b s IH]; intros n; [cbn; lia|]. cbn [char_take]. destruct (is_cont b) eqn:Eb.
  - unfold char_count. rewrite filter_cons_False by congruence. apply IH.
  - destruct n as [|n]; [cbn; lia|]. unfold char_count. rewrite filter_cons_True by done. cbn [length]. specialize (IH n).
    unfold char_count in IH. lia.
Qed.

Lemma char_take_prefix n s : exists t, s = char_take n s ++ t.
Proof.
  revert n. induction s as [|b s IH]; intros n; [by exists []|]. cbn [char_take]. destruct (is_cont b).
  - destruct (IH n) as [t Ht]. exists t. cbn. by rewrite <- Ht.
  - destruct n as [|n]; [by exists (b :: s)|]. destruct (IH n) as [t Ht]. exists t. cbn. by rewrite <- Ht.
Qed.

(** The row of the user agent has at most 160 characters and an ellipsis, is never
    empty, and is the trimmed value when that is short enough. *)
Theorem truncate_ua_bounds ua :
  truncate_ua ua <> [] /\ (char_count (truncate_ua ua) <= MAX_UA + 1)%nat /\
  ((char_count (trim ua) <= MAX_UA)%nat -> trim ua <> [] -> truncate_ua ua = trim ua).
Proof.
  unfold truncate_ua. cbv zeta. destruct (is_empty (trim ua)) eqn:Ee.
  { apply is_empty_nil in Ee. rewrite Ee. split_and!; [done|vm_compute; lia|done]. }
  apply is_empty_false in Ee. destruct (Nat.leb_spec (char_count (trim ua)) MAX_UA) as [Hl|Hl].
  - split_and!; [done|lia|done].
  - split_and!; [by destruct (char_take MAX_UA (trim ua))| |lia]. rewrite char_count_app. pose proof (char_take_count MAX_UA (trim ua)).
    change (char_count ellipsis) with 1%nat. lia.
Qed.

(** ** When an alert goes out *)

Definition tls_mode (s : SmtpSettingsRow) : Security :=
  if negb (sm_use_tls s) then Plaintext else if port_u16 (sm_port s) =? 465 then ImplicitTls else StartTls.

Definition login_pair (s : SmtpSettingsRow) : option (str * str) :=
  if is_empty (trim (sm_username s)) then None else Some (trim (sm_username s), trim (sm_password s)).

(** The settings are complete and the mail library accepts them. *)
Record sendable (m : Mailer) (s : SmtpSettingsRow) (to subject : str) (content : EmailContent) : Prop := {
  sb_host : trim (sm_host s) <> [];
  sb_from : trim (sm_from_email s) <> [];
  sb_to : trim to <> [];
  sb_address : ml_address m (sm_from_email s) = None;
  sb_mailbox : ml_mailbox m (trim to) = None;
  sb_compose : ml_compose m (compose s (trim to) subject content Plaintext None) = None;
  sb_password : trim (sm_username s) <> [] -> trim (sm_password s) <> [];
  sb_tls : sm_use_tls s = true -> ml_tls m (tls_mode s) (trim (sm_host s)) = None;
}.

Lemma bind_ok {E A B} (r : result E A) (f : A -> result E B) b : (x ← r; f x) = Ok b <-> exists a, r = Ok a /\ f a = Ok b.
Proof. destruct r as [a|e]; cbn; split; [intros H; by exists a|intros (x & [= <-] & H); done|done|by intros (x & ? & _)]. Qed.

Lemma bail_ok {A} b msg (k : result str A) x : bail b msg k = Ok x <-> b = false /\ k = Ok x.
Proof. unfold bail. destruct b; [|naive_solver]. split; [done|by intros [? _]]. Qed.

Lemma no_error_ok {E} (o : option E) x : no_error o = Ok x <-> o = None.
Proof. destruct o, x; naive_solver. Qed.

Lemma mapped_error_ok (o : option str) (f : str -> str) x : match o with None => Ok tt | Some e => Err (f e) end = Ok x <-> o = None.
Proof. destruct o, x; naive_solver. Qed.

Lemma build_mailer_ok m s password sec creds :
  build_mailer m s password = Ok (sec, creds) <->
  sec = tls_mode s /\ (sm_use_tls s = true -> ml_tls m (tls_mode s) (trim (sm_host s)) = None) /\
  (if is_empty (trim (sm_username s)) then creds = None else exists p, password = Some p /\ creds = Some (trim (sm_username s), p)).
Proof.
  unfold build_mailer. cbv zeta. fold (tls_mode s). rewrite bind_ok.
  assert (Ht : forall u, (if sm_use_tls s then no_error (ml_tls m (tls_mode s) (trim (sm_host s))) else Ok tt) = Ok u <->
    (sm_use_tls s = true -> ml_tls m (tls_mode s) (trim (sm_host s)) = None)).
  { intros []. destruct (sm_use_tls s); [rewrite no_error_ok; naive_solver|naive_solver]. }
  setoid_rewrite Ht. destruct (is_empty (trim (sm_username s))).
  - naive_solver.
  - setoid_rewrite bind_ok. setoid_rewrite ok_or_Ok. naive_solver.
Qed.

(** A message is ready exactly when nothing is missing, and then it is the composed
    one, with the transport security and the credentials of the settings. *)
Lemma prepare_iff m s to subject content b job :
  prepare_email m s to subject content b = Ok job <->
  (b = true -> sm_enabled s = true) /\ sendable m s to subject content /\
  job = compose s (trim to) subject content (tls_mode s) (login_pair s).
Proof.
  assert (Hb : b && negb (sm_enabled s) = false <-> (b = true -> sm_enabled s = true)).
  { destruct b, (sm_enabled s); cbn; intuition discriminate. }
  assert (Hpw : forall p, (if is_empty (trim (sm_password s)) then None else Some (trim (sm_password s))) = Some p <->
    trim (sm_password s) <> [] /\ p = trim (sm_password s)).
  { intros p. destruct (is_empty (trim (sm_password s))) eqn:Ep; [apply is_empty_nil in Ep|apply is_empty_false in Ep]; naive_solver. }
  unfold prepare_email. cbv zeta. rewrite !bail_ok, Hb, !is_empty_false, bind_ok. setoid_rewrite mapped_error_ok. split.
  - intros (He & Hh & Hf & Ht & _ & Ha & Hm). apply bind_ok in Hm as (_ & Hm%mapped_error_ok & Hc).
    apply bind_ok in Hc as (_ & Hc%no_error_ok & Hp). apply bail_ok in Hp as [Hp Hj].
    apply bind_ok in Hj as ([sec creds] & (-> & Htls & Hcr)%build_mailer_ok & [= <-]). unfold login_pair.
    destruct (is_empty (trim (sm_username s))) eqn:Eu.
    + subst creds. split; [done|]. split; [|done]. apply is_empty_nil in Eu. by constructor.
    + destruct Hcr as (p & [Hne ->]%Hpw & ->). split; [done|]. split; [|done]. by constructor.
  - intros (He & [Hh Hf Ht Ha Hm Hc Hp Htls] & ->). split_and!; [done..|]. exists tt. split; [done|].
    apply bind_ok. exists tt. split; [by apply mapped_error_ok|]. apply bind_ok. exists tt. split; [by apply no_error_ok|].
    apply bail_ok. split.
    { destruct (is_empty (trim (sm_username s))) eqn:Eu; [done|]. apply is_empty_false in Eu.
      by rewrite (proj2 (is_empty_false _) (Hp Eu)). }
    apply bind_ok. exists (tls_mode s, login_pair s). split; [|done]. apply build_mailer_ok. split; [done|]. split; [done|].
    unfold login_pair. destruct (is_empty (trim (sm_username s))) eqn:Eu; [done|]. apply is_empty_false in Eu.
    exists (trim (sm_password s)). by rewrite (proj2 (is_empty_false _) (Hp Eu)).
Qed.

(** The message an event stands for. *)
Definition alert_content (now : str) (ev : AuthEvent) : EmailContent :=
  kind_content (ev_kind ev) (mkAuthEventDetails (ev_user ev) (ev_ip ev) now (ev_agent ev)).

Lemma trimmed_sendable m s subject content :
  sendable m s (trim (sm_alert_to s)) subject content <-> sendable m s (sm_alert_to s) subject content.
Proof. split; intros [H1 H2 H3 H4 H5 H6 H7 H8]; rewrite ?trim_idemp in *; constructor; rewrite ?trim_idemp; done. Qed.

(** When an event leads to a message, and which: [now] is the time as text. *)
Lemma notify_iff m now ev d job :
  (notify_auth_event m now ev d).1 = Some job <->
  exists s d', get_smtp_settings d = (Ok s, d') /\ sm_enabled s = true /\ kind_enabled (ev_kind ev) s = true /\
    sendable m s (sm_alert_to s) (kind_subject (ev_kind ev)) (alert_content now ev) /\
    job = compose s (trim (sm_alert_to s)) (kind_subject (ev_kind ev)) (alert_content now ev) (tls_mode s) (login_pair s).
Proof.
  unfold notify_auth_event, alert_content. destruct (get_smtp_settings d) as [[s|e] d'].
  2: { split; [done|]. intros (s & d1 & [=] & _). }
  assert (Hs : forall content, (send_email m s (trim (sm_alert_to s)) (kind_subject (ev_kind ev)) content true).2 = Some job <->
    sm_enabled s = true /\ sendable m s (sm_alert_to s) (kind_subject (ev_kind ev)) content /\
    job = compose s (trim (sm_alert_to s)) (kind_subject (ev_kind ev)) content (tls_mode s) (login_pair s)).
  { intros content. unfold send_email.
    pose proof (prepare_iff m s (trim (sm_alert_to s)) (kind_subject (ev_kind ev)) content true) as Hp.
    setoid_rewrite trimmed_sendable in Hp. setoid_rewrite trim_idemp in Hp. destruct (prepare_email _ _ _ _ _ _) as [j|e]; cbn [snd].
    - split; [intros [= ->]; destruct (proj1 (Hp job) eq_refl) as (? & ? & ?); auto|].
      intros (He & Hsd & Hj). assert (Hok : Ok j = Ok job :> result str MailJob) by (apply Hp; auto). by injection Hok as ->.
    - split; [done|]. intros (He & Hsd & Hj). assert (Hok : Err e = Ok job) by (apply Hp; auto). done. }
  destruct (sm_enabled s) eqn:Een; cbn [negb orb].
  2: { split; [done|]. intros (s1 & d1 & [= <- _] & Hen & _). congruence. }
  destruct (kind_enabled (ev_kind ev) s) eqn:Ek; cbn [negb].
  2: { split; [done|]. intros (s1 & d1 & [= <- _] & _ & Hk & _). congruence. }
  destruct (is_empty (trim (sm_alert_to s))) eqn:Et.
  { split; [done|]. intros (s1 & d1 & [= <- _] & _ & _ & [_ _ H _ _ _ _ _] & _). by apply is_empty_nil in Et. }
  cbn [fst]. rewrite Hs. split; [intros (_ & ? & ?); by exists s, d'|]. intros (s1 & d1 & [= <- _] & _ & _ & ? & ?). done.
Qed.

Section login.
Context `{Crypto} `{Formats}.
Variable db_text : DbError -> str.
Variable E : AdminEnv.

(** The event of an attempt: the trimmed name, the resolved client address and the
    user agent of the request. *)
Definition attempt_event (k : AuthEventKind) (username : str) (header : str -> option str) (peer : IpAddr) : AuthEvent :=
  mkAuthEvent k (trim username) (client_auth_context header peer).1 (client_auth_context header peer).2.

Definition attempt_events (r : result ApiError (str * str * N)) (username : str) (header : str -> option str) (peer : IpAddr) : list AuthEvent :=
  match r with
  | Ok _ => if ae_auth_required E then [attempt_event LoginSuccess username header peer] else []
  | Err e => if api_status e =? 401 then [attempt_event LoginFailure username header peer] else []
  end.

Lemma notify_adds k username header peer s d : ad_db s = Some d ->
  exists s', notify_auth k (trim username) header peer s = (Ok tt, s') /\
    ad_events s' = ad_events s ++ [attempt_event k username header peer].
Proof.
  intros Hd. unfold notify_auth, api_modify, attempt_event. rewrite Hd. destruct (client_auth_context header peer) as [ip ua].
  eexists. split; [reflexivity|done].
Qed.

Lemma login_events username password header peer s d r s' : ad_db s = Some d ->
  auth_login db_text E username password header peer s = (r, s') ->
  ad_events s' = ad_events s ++ attempt_events r username header peer.
Proof.
  intros Hd. unfold auth_login, attempt_events. destruct (ae_auth_required E); cbn [negb].
  2: { intros [= <- <-]. by rewrite app_nil_r. }
  unfold mbind, api_bind, api_get at 1. destruct (ad_sessions s); [|intros [= <- <-]; cbn; by rewrite app_nil_r].
  destruct (is_empty (trim username)); [intros [= <- <-]; cbn; by rewrite app_nil_r|].
  unfold check_password. rewrite Hd. unfold mbind, api_bind, db_call. rewrite Hd.
  destruct (get_user_password_hash (trim username) d) as [[[h|]|e] d1].
  - destruct (bcrypt_verify password h); cbn [negb mret api_ret].
    + unfold api_modify at 1 2.
      match goal with |- context [notify_auth LoginSuccess _ _ _ ?st] =>
        destruct (notify_adds LoginSuccess username header peer st ((insert_session (new_token E (trim username) (session_ttl_secs E)) (trim username)
          (ae_now E + 1000 * session_ttl_secs E) d1).2) eq_refl) as (s2 & -> & He) end.
      intros [= <- <-]. exact He.
    + destruct (notify_adds LoginFailure username header peer (set_db (Some d1) s) d1 eq_refl) as (s2 & Hn & He).
      unfold mret, api_ret. rewrite Hn. intros [= <- <-]. exact He.
  - destruct (notify_adds LoginFailure username header peer (set_db (Some d1) s) d1 eq_refl) as (s2 & -> & He).
    intros [= <- <-]. exact He.
  - intros [= <- <-]. cbn. by rewrite app_nil_r.
Qed.

(** Every login attempt leaves exactly its event, and an event leads to exactly
    the configured message.  A successful login leaves one success event, a refused
    one one failure event, anything else none; the event names the user as typed
    (trimmed) and the client's resolved address.  The alert of such an event goes out
    exactly when mail and that kind of alert are enabled and the settings are
    complete and accepted, and then it is one message, to the configured address
    only. *)
Theorem login_attempt_alerts username password header peer s d r s' m now :
  ad_db s = Some d -> auth_login db_text E username password header peer s = (r, s') ->
  ad_events s' = ad_events s ++ attempt_events r username header peer /\
  forall ev d1 job, ev ∈ attempt_events r username header peer ->
    ((notify_auth_event m now ev d1).1 = Some job <->
     exists st d2, get_smtp_settings d1 = (Ok st, d2) /\ sm_enabled st = true /\ kind_enabled (ev_kind ev) st = true /\
       sendable m st (sm_alert_to st) (kind_subject (ev_kind ev)) (alert_content now ev) /\
       job = compose st (trim (sm_alert_to st)) (kind_subject (ev_kind ev)) (alert_content now ev) (tls_mode st) (login_pair st)).
Proof.
  intros Hd Hl. split; [by eapply login_events|]. intros ev d1 job _. apply notify_iff.
Qed.

(** ** Settings *)

(** What is saved is what is shown, and the password is replaced only by a request
    that has one. *)
Theorem smtp_settings_roundtrip body s d r s' : ad_db s = Some d -> smtp_put db_text E body s = (Ok r, s') ->
  exists d', ad_db s' = Some d' /\ (db_faults d' = [] -> (smtp_get db_text s').1 = Ok r) /\
    sm_password (t_smtp (db_tables d')) = default (sm_password (t_smtp (db_tables d))) (su_password body) /\
    sr_host r = trim (su_host body) /\ (1 <= sr_port r <= 65535)%Z /\ port_u16 (sr_port r) = Z.to_N (su_port body).
Proof.
  intros Hd. unfold smtp_put, mbind, api_bind, require_db. rewrite Hd.
  destruct ((su_port body <? 1)%Z || (65535 <? su_port body)%Z) eqn:Ep; [done|].
  apply orb_false_iff in Ep as [Hlo%Z.ltb_ge Hhi%Z.ltb_ge].
  unfold db_call. rewrite Hd. unfold update_smtp_settings, db_exec.
  assert (Hport : port_u16 (su_port body) = Z.to_N (su_port body)) by (unfold port_u16; rewrite Z.mod_small by lia; done).
  destruct (db_faults d) as [|[] fs]; [|done|]; intros [= <- <-]; eexists; (split; [reflexivity|]);
    (split; [intros Hf; cbn in Hf; unfold smtp_get, mbind, api_bind, require_db, db_call, get_smtp_settings, db_read, db_exec; cbn; by rewrite ?Hf|]);
    cbn; split_and!; done || lia.
Qed.

End login.

(** ** An instance *)

Definition any_mailer : Mailer := mkMailer (fun _ => None) (fun _ => None) (fun _ => None) (fun _ _ => None) (fun _ => Delivered).
Definition mail_row : SmtpSettingsRow :=
  mkSmtpSettingsRow true "mx.io" 587 "robot" "pw" "proxy@io" [] true " ops@io " true false false [].
Definition failed_login : result ApiError (str * str * N) * Admin :=
  @auth_login toy_crypto (toy []) no_text (sess_env 0) "eve" "guess" (fun _ => None) (V4 10 0 0 1) admin_state.
Definition eve_event : AuthEvent := mkAuthEvent LoginFailure "eve" "10.0.0.1" [].

Lemma login_attempt_alerts_witness :
  ad_events failed_login.2 = [eve_event] /\
  mj_to <$> (notify_auth_event any_mailer "now" eve_event (mkDbState (upd_smtp mail_row empty_tables) [])).1 = Some (bs "ops@io").
Proof.
  destruct (@login_attempt_alerts toy_crypto (toy []) no_text (sess_env 0) "eve" "guess" (fun _ => None) (V4 10 0 0 1) admin_state
    (mkDbState empty_tables []) failed_login.1 failed_login.2 any_mailer "now" eq_refl) as [He Hn].
  - unfold failed_login. by destruct (auth_login _ _ _ _ _ _ _).
  - split; [rewrite He; vm_compute; reflexivity|].
    rewrite (proj2 (Hn eve_event (mkDbState (upd_smtp mail_row empty_tables) [])
      (compose mail_row "ops@io" (kind_subject LoginFailure) (alert_content "now" eve_event) StartTls (Some (bs "robot", bs "pw")))
      ltac:(vm_compute; left))); [reflexivity|].
    exists mail_row, (mkDbState (upd_smtp mail_row empty_tables) []). split_and!; try reflexivity.
    constructor; vm_compute; done.
Defined.
