(* ===== verification/Backup.v ===== *)
(** * Backups: cluster objects, object storage and the handlers (api/backup.rs, storage/s3.rs)

    In ingress mode a backup is a YAML text of the cluster's Ingresses, TLS secrets,
    Gateways and HTTPRoutes, with the Helm values for reference.  The API server is
    the class [ClusterServer]; it keeps a resource version with every object.  A
    backup can be downloaded or put into object storage. *)

From S2P Require Import Prelude RustStr Ip GeoIp Waf Bot Captcha Security Edge EdgeAuth ProxyConfig Router Forward Apply.
From S2P Require Import Telemetry CertStore Database Admin Policies.

(** ** The cluster *)

Inductive BKind : Type := BSecret | BGateway | BRoute | BIngress.
#[export] Instance BKind_eq_dec : EqDecision BKind.
Proof. solve_decision. Defined.

Record Meta := mkMeta { md_namespace : option str; md_name : option str; md_version : option str }.

(** An object: its metadata, what a backup looks at in a Secret, and the rest. *)
Record ClusterObject := mkClusterObject {
  co_meta : Meta;
  co_type : option str;
  co_data : option (gmap str str);
  co_rest : str;
}.

Definition object_key (o : ClusterObject) : str * str :=
  (default (bs "default") (md_namespace (co_meta o)), default (bs "unnamed") (md_name (co_meta o))).

(** Objects by namespace and name.  The documented rules of the API: an object to be
    created must not have a resource version, one that replaces another must have none
    or the stored one.  Calls can fail; a failed write may have been carried out when
    it was allowed. *)
Class ClusterServer (C : Type) := {
  objects : C -> BKind -> gmap (str * str) ClusterObject;
  cl_get : BKind -> str * str -> C -> bool * C;
  cl_list : BKind -> option str -> C -> result str (list ClusterObject) * C;
  cl_create : BKind -> str * str -> ClusterObject -> C -> result str unit * C;
  cl_replace : BKind -> str * str -> ClusterObject -> C -> result str unit * C;
  cl_get_spec kd key c b c' : cl_get kd key c = (b, c') ->
    objects c' = objects c /\ (b = true -> is_Some (objects c kd !! key));
  cl_list_spec kd ns c r c' : cl_list kd ns c = (r, c') ->
    objects c' = objects c /\
    forall l, r = Ok l -> forall o, o ∈ l <->
      exists key, objects c kd !! key = Some o /\ from_option (fun n => key.1 = n) True ns;
  cl_stored_meta c kd key o : objects c kd !! key = Some o ->
    exists v, co_meta o = mkMeta (Some key.1) (Some key.2) (Some v);
  cl_create_spec kd key o c r c' : cl_create kd key o c = (r, c') ->
    (forall kd', kd' <> kd -> objects c' kd' = objects c kd') /\
    (objects c' kd = objects c kd /\ is_ok r = false \/
     objects c kd !! key = None /\ md_version (co_meta o) = None /\
     exists o', objects c' kd = <[key := o']> (objects c kd));
  cl_replace_spec kd key o c r c' : cl_replace kd key o c = (r, c') ->
    (forall kd', kd' <> kd -> objects c' kd' = objects c kd') /\
    (objects c' kd = objects c kd /\ is_ok r = false \/
     exists old o', objects c kd !! key = Some old /\ objects c' kd = <[key := o']> (objects c kd) /\
       (md_version (co_meta o) = None \/ md_version (co_meta o) = md_version (co_meta old)));
}.

(** ** Texts

    A JSON value of an object, the YAML text of a backup, and JSON from a command. *)
Record HelmBackupSnapshot := mkHelm { hb_release : str; hb_namespace : str; hb_values : str; hb_history : option str }.

Record IngressBackup (V : Type) := mkIngressBackup {
  ib_ingresses : list V;
  ib_secrets : list V;
  ib_gateways : list V;
  ib_httproutes : list V;
  ib_helm : option HelmBackupSnapshot;
  ib_created_at : str;
}.
Arguments mkIngressBackup {V} _ _ _ _ _ _.
Arguments ib_ingresses {V} _.
Arguments ib_secrets {V} _.
Arguments ib_gateways {V} _.
Arguments ib_httproutes {V} _.
Arguments ib_helm {V} _.
Arguments ib_created_at {V} _.

Class BackupTexts (V : Type) := {
  to_value : ClusterObject -> V;
  from_value : BKind -> V -> result str ClusterObject;
  value_parse : forall kd o, from_value kd (to_value o) = Ok o;
  backup_yaml : IngressBackup V -> result str str;
  backup_from_yaml : str -> result str (IngressBackup V);
  yaml_parse : forall b t, backup_yaml b = Ok t -> backup_from_yaml t = Ok b;
  proxy_json : ProxyBackup -> str;
  proxy_from_json : str -> result str ProxyBackup;
  history_value : str -> option str;
}.

Record BuiltBackup := mkBuiltBackup { bb_filename : str; bb_content_type : str; bb_body : str }.

(** ** Helm *)

Definition helm_env_value (env : str -> option str) (key : str) : option str :=
  opt_filter (fun v => negb (is_empty v)) (trim <$> env key).

Section backup.
Context `{ClusterServer C} `{BackupTexts V}.

(** [run] runs a program: [None] when it cannot be started, else whether it succeeded,
    and its output. *)
Definition fetch_helm_backup_snapshot (env : str -> option str) (run : list str -> option (bool * str)) : option HelmBackupSnapshot :=
  let enabled := from_option (fun v => (v =s "1") || (v =s "true") || (v =s "TRUE") || (v =s "yes") || (v =s "YES")) false
                   (helm_env_value env "PERTISK_HELM_ENABLED") in
  if negb enabled then None
  else
    release ← helm_env_value env "PERTISK_HELM_RELEASE";
    let namespace := default (bs "default") (or_else (helm_env_value env "PERTISK_HELM_NAMESPACE") (env "POD_NAMESPACE")) in
    let helm_path := default (bs "helm") (helm_env_value env "PERTISK_HELM_PATH") in
    '(ok, values) ← run [helm_path; bs "get"; bs "values"; release; bs "-n"; namespace; bs "--output"; bs "yaml"];
    if negb ok then None
    else
      '(ok, history) ← run ([helm_path; bs "history"; release; bs "-n"; namespace; bs "--output"; bs "json"]
                           ++ from_option (fun m => [bs "--max"; m]) ([] : list str) (helm_env_value env "PERTISK_HELM_HISTORY_MAX"));
      Some (mkHelm release namespace (from_utf8_lossy values) (if (ok : bool) then history_value history else None)).

(** ** Export *)

Definition Cl (A : Type) : Type := C -> result ApiError A * C.
#[local] Instance cl_ret : MRet Cl := fun A a c => (Ok a, c).
#[local] Instance cl_bind : MBind Cl := fun A B f m c =>
  match m c with (Ok a, c') => f a c' | (Err e, c') => (Err e, c') end.

Definition listed (kd : BKind) (ns : option str) (what : str) : Cl (list ClusterObject) := fun c =>
  match cl_list kd ns c with
  | (Ok l, c') => (Ok l, c')
  | (Err e, c') => (Err (mkApiError 500 (bs "Failed to list " ++ what ++ bs ": " ++ e)), c')
  end.

(** A list that is left empty when it cannot be read. *)
Definition listed_or_empty (kd : BKind) (ns : option str) : Cl (list ClusterObject) := fun c =>
  match cl_list kd ns c with (Ok l, c') => (Ok l, c') | (Err _, c') => (Ok [], c') end.

Definition is_tls_secret (o : ClusterObject) : bool :=
  (default [] (co_type o) =s "kubernetes.io/tls") || from_option (fun d => is_some (d !! bs "tls.crt")) false (co_data o).

(** [client]: there is a Kubernetes client.  [helm] is the snapshot, [stamp] and
    [created] the time in its two formats. *)
Definition collect_backup (client gateway_api : bool) (ns : option str) (helm : option HelmBackupSnapshot) (created : str)
    : Cl (IngressBackup V) := fun c =>
  if negb client then (Err (mkApiError 503 "Kubernetes client not available"), c)
  else
    (ingresses ← listed BIngress ns "ingresses";
     secrets ← listed BSecret ns "secrets";
     gateways ← (if gateway_api then listed_or_empty BGateway ns else mret []);
     routes ← (if gateway_api then listed_or_empty BRoute ns else mret []);
     mret (mkIngressBackup (to_value <$> ingresses) (to_value <$> filter (fun o => is_tls_secret o = true) secrets)
             (to_value <$> gateways) (to_value <$> routes) helm created)) c.

Definition build_ingress_backup (client gateway_api : bool) (ns : option str) (helm : option HelmBackupSnapshot) (created stamp : str)
    : Cl BuiltBackup :=
  b ← collect_backup client gateway_api ns helm created;
  match backup_yaml b with
  | Ok yaml => mret (mkBuiltBackup (bs "pertisk-ingress-backup-" ++ stamp ++ bs ".yaml") "application/x-yaml" yaml)
  | Err e => fun c => (Err (mkApiError 500 (bs "Failed to serialize backup: " ++ e)), c)
  end.

(** ** Restore *)

Definition kind_name (kd : BKind) : str :=
  match kd with BSecret => bs "secret" | BGateway => bs "gateway" | BRoute => bs "httproute" | BIngress => bs "ingress" end.

(** [restore_secret], [restore_gateway], [restore_httproute] and [restore_ingress]:
    one function for each kind, all of this shape. *)
Definition restore_object (kd : BKind) (value : V) (merge : bool) (c : C) : result str bool * C :=
  match from_value kd value with
  | Err e => (Err (bs "Failed to parse " ++ kind_name kd ++ bs ": " ++ e), c)
  | Ok o =>
    let key := object_key o in
    let failed e := bs "Failed to restore " ++ kind_name kd ++ bs " " ++ key.1 ++ bs "/" ++ key.2 ++ bs ": " ++ e in
    let '(exists_, c) := cl_get kd key c in
    if exists_ && negb merge then (Ok false, c)
    else
      let '(r, c) := if exists_ then cl_replace kd key o c else cl_create kd key o c in
      (match r with Ok _ => Ok true | Err e => Err (failed e) end, c)
  end.

Definition restore_secret : V -> bool -> C -> result str bool * C := restore_object BSecret.
Definition restore_gateway : V -> bool -> C -> result str bool * C := restore_object BGateway.
Definition restore_httproute : V -> bool -> C -> result str bool * C := restore_object BRoute.
Definition restore_ingress : V -> bool -> C -> result str bool * C := restore_object BIngress.

(** One of the four loops, with its two counters. *)
Fixpoint restore_all (restore : V -> bool -> C -> result str bool * C) (merge : bool) (vs : list V) (acc : nat * list str) (c : C)
    : (nat * list str) * C :=
  match vs with
  | [] => (acc, c)
  | v :: rest =>
    let '(r, c) := restore v merge c in
    let acc := match r with
               | Ok applied => (if applied : bool then S acc.1 else acc.1, acc.2)
               | Err e => (acc.1, acc.2 ++ [e])
               end in
    restore_all restore merge rest acc c
  end.

Definition restore_objects (merge : bool) (b : IngressBackup V) (c : C) : (nat * list str) * C :=
  let '(acc, c) := restore_all restore_secret merge (ib_secrets b) (0%nat, []) c in
  let '(acc, c) := restore_all restore_gateway merge (ib_gateways b) acc c in
  let '(acc, c) := restore_all restore_httproute merge (ib_httproutes b) acc c in
  restore_all restore_ingress merge (ib_ingresses b) acc c.

Record RestoreBackupResponse := mkRestoreResponse {
  rr_status : N;
  rr_message : str;
  rr_restored_count : nat;
  rr_errors : option (list str);
  rr_note : option str;
}.

Definition restore_response (restored : nat) (errors : list str) (note : option str) : RestoreBackupResponse :=
  mkRestoreResponse (if is_empty errors then 200 else 206)
    (if is_empty errors then bs "Successfully restored backup (" ++ show_N (N.of_nat restored) ++ bs " item(s))"
     else bs "Restored " ++ show_N (N.of_nat restored) ++ bs " item(s) with " ++ show_N (N.of_nat (length errors)) ++ bs " error(s)")
    restored (if is_empty errors then None else Some errors) note.

Definition helm_note (h : HelmBackupSnapshot) : str :=
  bs "Helm release " ++ hb_release h ++ bs " in namespace " ++ hb_namespace h
  ++ bs " was included for reference. Re-install with: helm upgrade --install " ++ hb_release h ++ bs " <chart> -n " ++ hb_namespace h
  ++ bs " -f values-from-backup.yaml".

Definition ingress_backup_restore (client : bool) (data : str) (merge : bool) : Cl RestoreBackupResponse := fun c =>
  if negb client then (Err (mkApiError 503 "Kubernetes client not available"), c)
  else
    match backup_from_yaml data with
    | Err e => (Err (mkApiError 400 (bs "Invalid backup format: " ++ e)), c)
    | Ok b =>
      let '((n, errors), c) := restore_objects merge b c in
      (Ok (restore_response n errors (helm_note <$> ib_helm b)), c)
    end.

End backup.

(** ** Object storage (storage/s3.rs) *)

Record S3Client := mkS3Client {
  cl_region : str;
  cl_access_key : str;
  cl_secret : str;
  cl_endpoint : option str;
  cl_path_style : bool;
}.

Inductive S3Request : Type :=
| PutObject (bucket key content_type body : str)
| ListObjects (bucket : str) (prefix : option str) (max_keys : N).

Definition build_client (s : S3SettingsRow) : result str S3Client :=
  let region := if is_empty (trim (s3_region s)) then bs "us-east-1" else trim (s3_region s) in
  let access_key := trim (s3_access_key_id s) in
  let secret := trim (s3_secret_access_key s) in
  if is_empty access_key then Err (bs "S3 access key id is not configured")
  else if is_empty secret then Err (bs "S3 secret access key is not configured")
  else
    let endpoint := trim (s3_endpoint s) in
    Ok (mkS3Client region access_key secret (if is_empty endpoint then None else Some endpoint) (s3_force_path_style s)).

Definition normalize_prefix (prefix : str) : str :=
  let p := trim_start_matches is_slash (trim prefix) in
  if is_empty p then [] else if ends_with "/" p then p else p ++ bs "/".

Definition s3_object_key (prefix filename : str) : str :=
  let prefix := normalize_prefix prefix in if is_empty prefix then filename else prefix ++ filename.

Section storage.
(** What the service answers: [None], or the text of an error. *)
Variable s3_send : S3Client -> S3Request -> option str.

Definition put_object (s : S3SettingsRow) (key body content_type : str) : result str unit :=
  let bucket := trim (s3_bucket s) in
  if is_empty bucket then Err (bs "S3 bucket is not configured")
  else
    client ← build_client s;
    match s3_send client (PutObject bucket key content_type body) with
    | None => Ok tt
    | Some e => Err (bs "S3 PutObject failed: " ++ e)
    end.

Definition test_connection (s : S3SettingsRow) : result str unit :=
  let bucket := trim (s3_bucket s) in
  if is_empty bucket then Err (bs "S3 bucket is not configured")
  else
    client ← build_client s;
    let prefix := normalize_prefix (s3_prefix s) in
    match s3_send client (ListObjects bucket (if is_empty prefix then None else Some prefix) 1) with
    | None => Ok tt
    | Some e => Err (bs "S3 connection test failed: " ++ e)
    end.

End storage.

(** ** Handlers *)

Record S3SettingsResponse := mkS3SettingsResponse {
  s3r_enabled : bool;
  s3r_endpoint : str;
  s3r_region : str;
  s3r_bucket : str;
  s3r_prefix : str;
  s3r_access_key_id : str;
  s3r_has_secret_access_key : bool;
  s3r_force_path_style : bool;
  s3r_updated_at : str;
}.

Definition row_to_s3_response (r : S3SettingsRow) : S3SettingsResponse :=
  mkS3SettingsResponse (s3_enabled r) (s3_endpoint r) (s3_region r) (s3_bucket r) (s3_prefix r) (s3_access_key_id r)
    (negb (is_empty (trim (s3_secret_access_key r)))) (s3_force_path_style r) (s3_updated_at r).

Section handlers.
Context `{Crypto} `{Formats} `{ClusterServer C} `{BackupTexts V}.
Variable scan : list CertRow -> list CertRow.
Variable scan_dns : list DnsRow -> list DnsRow.
Variable to_lowercase : str -> str.
Variable url_parse : str -> option Url.
Variable iter_routes : gmap str (list Route) -> list (str * list Route).
Variable db_text : DbError -> str.
Variable apply_text : ApplyError -> str.
Variable store_text : StoreError -> str.
Variable s3_send : S3Client -> S3Request -> option str.
Variable E : AdminEnv.
(** Whether the build has ingress mode, a client, the Gateway API; the Helm snapshot and
    the time in the format of file names. *)
Variable ingress_build client gateway_api : bool.
Variable helm : option HelmBackupSnapshot.
Variable stamp : str.

(** The management state and the cluster. *)
Definition Bk (A : Type) : Type := Admin * C -> result ApiError A * (Admin * C).
#[local] Instance bk_ret : MRet Bk := fun A a s => (Ok a, s).
#[local] Instance bk_bind : MBind Bk := fun A B f m s =>
  match m s with (Ok a, s') => f a s' | (Err e, s') => (Err e, s') end.

Definition admin_part {A} (m : Api A) : Bk A := fun s => let '(r, a) := m s.1 in (r, (a, s.2)).
Definition cluster_part {A} (m : Cl A) : Bk A := fun s => let '(r, c) := m s.2 in (r, (s.1, c)).
Definition bk_fail {A} (status : N) (msg : str) : Bk A := fun s => (Err (mkApiError status msg), s).

(** The handlers ask for a token themselves, also when authentication is off. *)
Definition authorized (header : str -> option str) : Bk unit := fun s =>
  let '(ok, a) := is_authorized E header s.1 in (if ok then Ok tt else Err (mkApiError 401 []), (a, s.2)).

Definition no_ingress {A} : Bk A := bk_fail 404 "Ingress mode not available".

Definition build_proxy_file : Api BuiltBackup :=
  b ← build_proxy_backup scan scan_dns db_text E;
  mret (mkBuiltBackup (bs "pertisk-proxy-backup-" ++ stamp ++ bs ".json") "application/json" (proxy_json b)).

(** The backup of the mode the process runs in. *)
Definition built_backup (ns : option str) : Bk BuiltBackup :=
  if ae_viewer_mode E then
    if ingress_build then cluster_part (build_ingress_backup client gateway_api ns helm (to_rfc3339 (ae_now E)) stamp) else no_ingress
  else admin_part build_proxy_file.

Definition backup_export (header : str -> option str) (ns : option str) : Bk BuiltBackup :=
  _ ← authorized header; built_backup ns.

(** In proxy mode the report counts the errors; their texts are not kept. *)
Definition backup_restore (header : str -> option str) (data : str) (merge : bool) (ids : list str)
    : Bk (RestoreReport + RestoreBackupResponse) :=
  _ ← authorized header;
  if ae_viewer_mode E then
    if ingress_build then r ← cluster_part (ingress_backup_restore client data merge); mret (inr r) else no_ingress
  else
    _ ← admin_part backup_db;
    match proxy_from_json data with
    | Err e => bk_fail 400 (bs "Invalid backup format: " ++ e)
    | Ok b =>
      r ← admin_part (proxy_backup_restore scan to_lowercase url_parse iter_routes db_text apply_text store_text E merge ids b);
      mret (inl r)
    end.

Definition s3_settings_get (header : str -> option str) : Bk S3SettingsResponse :=
  _ ← authorized header;
  _ ← admin_part require_db;
  r ← admin_part (db_call db_text get_s3_settings);
  mret (row_to_s3_response r).

Definition s3_settings_put (header : str -> option str) (body : S3SettingsUpdate) : Bk S3SettingsResponse :=
  _ ← authorized header;
  _ ← admin_part require_db;
  r ← admin_part (db_call db_text (update_s3_settings
        (mkS3SettingsUpdate (s3u_enabled body) (trim (s3u_endpoint body)) (trim (s3u_region body)) (trim (s3u_bucket body))
           (trim (s3u_prefix body)) (trim (s3u_access_key_id body)) (s3u_secret_access_key body) (s3u_force_path_style body)) (ae_now E)));
  mret (row_to_s3_response r).

Definition s3_settings_test (header : str -> option str) : Bk unit :=
  _ ← authorized header;
  _ ← admin_part require_db;
  s ← admin_part (db_call db_text get_s3_settings);
  match test_connection s3_send s with Ok _ => mret tt | Err e => bk_fail 400 e end.

(** The bucket and the key of the stored backup. *)
Definition backup_export_s3 (header : str -> option str) (ns : option str) : Bk (str * str) :=
  _ ← authorized header;
  _ ← admin_part require_db;
  s ← admin_part (db_call db_text get_s3_settings);
  if negb (s3_enabled s) then bk_fail 400 "S3 backup is disabled"
  else if is_empty (trim (s3_bucket s)) then bk_fail 400 "S3 bucket is not configured"
  else
    b ← built_backup ns;
    let key := s3_object_key (s3_prefix s) (bb_filename b) in
    match put_object s3_send s key (bb_body b) (bb_content_type b) with
    | Ok _ => mret (trim (s3_bucket s), key)
    | Err e => bk_fail 400 e
    end.

End handlers.
