(* ===== verification/BackupProps.v ===== *)
(** * What a backup of the cluster can and cannot restore

    Theorems about [Backup], for every API server: a restore that does not merge leaves
    the objects of the cluster as they are, one that reports success leaves every saved
    object in the cluster, and a backup as it is exported only ever writes over the
    version it was taken from. *)

From S2P Require Import Prelude RustStr Ip GeoIp Waf Bot Captcha Security Edge EdgeAuth ProxyConfig Router Forward Apply.
From S2P Require Import Telemetry CertStore Database Admin Policies Backup.

Section restore.
Context `{ClusterServer C} `{BackupTexts V}.

(** ** One loop over all objects *)

Definition items (b : IngressBackup V) : list (BKind * V) :=
  (pair BSecret <$> ib_secrets b) ++ (pair BGateway <$> ib_gateways b) ++ (pair BRoute <$> ib_httproutes b) ++ (pair BIngress <$> ib_ingresses b).

Definition counted (r : result str bool) (acc : nat * list str) : nat * list str :=
  match r with Ok applied => (if applied : bool then S acc.1 else acc.1, acc.2) | Err e => (acc.1, acc.2 ++ [e]) end.

Fixpoint restore_items (merge : bool) (l : list (BKind * V)) (acc : nat * list str) (c : C) : (nat * list str) * C :=
  match l with
  | [] => (acc, c)
  | (kd, v) :: l => let '(r, c) := restore_object kd v merge c in restore_items merge l (counted r acc) c
  end.

Lemma restore_items_app merge l1 l2 acc c :
  restore_items merge (l1 ++ l2) acc c =
  let '(acc, c) := restore_items merge l1 acc c in restore_items merge l2 acc c.
Proof.
  revert acc c. induction l1 as [|[kd v] l1 IH]; intros acc c; [done|]. cbn [app restore_items].
  destruct (restore_object kd v merge c). apply IH.
Qed.

Lemma restore_all_items kd merge vs acc c :
  restore_all (restore_object kd) merge vs acc c = restore_items merge (pair kd <$> vs) acc c.
Proof.
  revert acc c. induction vs as [|v vs IH]; intros acc c; [done|]. cbn [fmap list_fmap restore_all restore_items].
  destruct (restore_object kd v merge c). apply IH.
Qed.

Lemma restore_objects_items merge b c : restore_objects merge b c = restore_items merge (items b) (0%nat, []) c.
Proof.
  unfold restore_objects, items, restore_secret, restore_gateway, restore_httproute, restore_ingress.
  rewrite !restore_items_app, restore_all_items. destruct (restore_items _ _ _ c) as [acc1 c1].
  rewrite restore_items_app, restore_all_items. destruct (restore_items _ _ acc1 c1) as [acc2 c2].
  rewrite restore_items_app, restore_all_items. destruct (restore_items _ _ acc2 c2) as [acc3 c3].
  apply restore_all_items.
Qed.

(** A property of the cluster that every restored object keeps. *)
Lemma restore_items_inv (P : C -> Prop) merge l acc c acc' c' :
  (forall kd v c r c', (kd, v) ∈ l -> P c -> restore_object kd v merge c = (r, c') -> P c') ->
  P c -> restore_items merge l acc c = (acc', c') -> P c'.
Proof.
  revert acc c. induction l as [|[kd v] l IH]; intros acc c Hstep HP Hr; [by injection Hr as _ <-|].
  cbn [restore_items] in Hr. destruct (restore_object kd v merge c) as [r c1] eqn:E.
  eapply IH; [|by eapply Hstep; [left|exact HP|exact E]|exact Hr].
  intros kd' v' c2 r' c3 Hin. apply Hstep. by right.
Qed.

(** ** One object *)

(** What the attempt can have changed: nothing, or the object's own key, which was
    free and the object without a version, or which a merge wrote over. *)
Lemma restore_object_effect kd v merge c r c' : restore_object kd v merge c = (r, c') ->
  (forall kd', kd' <> kd -> objects c' kd' = objects c kd') /\
  (objects c' kd = objects c kd \/
   exists o o', from_value kd v = Ok o /\ objects c' kd = <[object_key o := o']> (objects c kd) /\
     (objects c kd !! object_key o = None /\ md_version (co_meta o) = None \/
      merge = true /\ exists old, objects c kd !! object_key o = Some old /\
        (md_version (co_meta o) = None \/ md_version (co_meta o) = md_version (co_meta old)))).
Proof.
  unfold restore_object. destruct (from_value kd v) as [o|e]; [|intros [= <- <-]; auto]. cbv zeta.
  destruct (cl_get kd (object_key o) c) as [b c1] eqn:Eg. destruct (cl_get_spec _ _ _ _ _ Eg) as [Hsame _]. rewrite <-Hsame.
  destruct b; [destruct merge|]; cbn [andb negb].
  - destruct (cl_replace _ _ _ _) as [r1 c2] eqn:Er. intros [= _ <-]. destruct (cl_replace_spec _ _ _ _ _ _ Er) as [Ho Hc].
    split; [done|]. destruct Hc as [[? _]|(old & o' & ? & ? & ?)]; [by left|right]. exists o, o'. split_and!; [done..|right; eauto].
  - intros [= _ <-]. auto.
  - destruct (cl_create _ _ _ _) as [r1 c2] eqn:Er. intros [= _ <-]. destruct (cl_create_spec _ _ _ _ _ _ Er) as [Ho Hc].
    split; [done|]. destruct Hc as [[? _]|(? & ? & o' & ?)]; [by left|right]. exists o, o'. split_and!; [done..|by left].
Qed.

Lemma restore_object_lookup kd v merge c r c' kd' key : restore_object kd v merge c = (r, c') ->
  objects c' kd' !! key = objects c kd' !! key \/
  kd' = kd /\ exists o o', from_value kd v = Ok o /\ key = object_key o /\ objects c' kd !! key = Some o' /\
     (objects c kd !! key = None /\ md_version (co_meta o) = None \/
      merge = true /\ exists old, objects c kd !! key = Some old /\
        (md_version (co_meta o) = None \/ md_version (co_meta o) = md_version (co_meta old))).
Proof.
  intros Hr. destruct (restore_object_effect _ _ _ _ _ _ Hr) as [Hother Hown].
  destruct (decide (kd' = kd)) as [->|Hk]; [|left; by rewrite Hother].
  destruct Hown as [->|(o & o' & Ho & Hc & Hw)]; [by left|]. rewrite Hc.
  destruct (decide (key = object_key o)) as [->|Hne]; [|left; by rewrite lookup_insert_ne].
  right. split; [done|]. exists o, o'. by rewrite lookup_insert_eq.
Qed.

Lemma restore_object_present kd v merge c r c' kd' key : restore_object kd v merge c = (r, c') ->
  is_Some (objects c kd' !! key) -> is_Some (objects c' kd' !! key).
Proof.
  intros Hr Hs. destruct (restore_object_lookup _ _ _ _ _ _ kd' key Hr) as [->|(-> & o & o' & _ & _ & -> & _)]; [done|by eexists].
Qed.

(** An object that is not an error is in the cluster. *)
Lemma restore_object_ok kd v merge c b c' : restore_object kd v merge c = (Ok b, c') ->
  exists o, from_value kd v = Ok o /\ is_Some (objects c' kd !! object_key o).
Proof.
  unfold restore_object. destruct (from_value kd v) as [o|e]; [|done]. cbv zeta.
  destruct (cl_get kd (object_key o) c) as [ex c1] eqn:Eg. destruct (cl_get_spec _ _ _ _ _ Eg) as [Hsame Hex].
  intros Hr. exists o. split; [done|]. destruct ex; [destruct merge|]; cbn [andb negb] in Hr.
  - destruct (cl_replace _ _ _ _) as [[u|e] c2] eqn:Er; [|done]. injection Hr as _ <-.
    destruct (cl_replace_spec _ _ _ _ _ _ Er) as [_ [[_ ?]|(old & o' & _ & -> & _)]]; [done|]. by rewrite lookup_insert_eq.
  - injection Hr as _ <-. rewrite Hsame. by apply Hex.
  - destruct (cl_create _ _ _ _) as [[u|e] c2] eqn:Er; [|done]. injection Hr as _ <-.
    destruct (cl_create_spec _ _ _ _ _ _ Er) as [_ [[_ ?]|(_ & _ & o' & ->)]]; [done|]. by rewrite lookup_insert_eq.
Qed.

(** ** The whole restore *)

Lemma restore_items_errors merge l acc c acc' c' : restore_items merge l acc c = (acc', c') ->
  exists errors, acc'.2 = acc.2 ++ errors /\ (acc'.1 <= acc.1 + length l)%nat /\ (acc'.1 + length errors <= acc.1 + length l)%nat.
Proof.
  revert acc c. induction l as [|[kd v] l IH]; intros acc c Hr.
  { injection Hr as <- <-. exists []. rewrite app_nil_r. cbn. split_and!; [done|lia|lia]. }
  cbn [restore_items] in Hr. destruct (restore_object kd v merge c) as [[b|e] c1].
  - destruct (IH _ _ Hr) as (es & He & Hn & Hs). exists es. cbn in *. split_and!; [done|destruct b; cbn in *; lia|destruct b; cbn in *; lia].
  - destruct (IH _ _ Hr) as (es & He & Hn & Hs). exists (e :: es). cbn in *. rewrite He, <-app_assoc. split_and!; [done|lia|lia].
Qed.

Lemma restore_items_ok merge l acc c n c' : acc.2 = [] -> restore_items merge l acc c = ((n, []), c') ->
  forall kd v, (kd, v) ∈ l -> exists o, from_value kd v = Ok o /\ is_Some (objects c' kd !! object_key o).
Proof.
  revert acc c. induction l as [|[kd v] l IH]; intros acc c Ha Hr kd' v' Hin; [by apply elem_of_nil in Hin|].
  cbn [restore_items] in Hr. destruct (restore_object kd v merge c) as [[b|e] c1] eqn:E.
  - apply elem_of_cons in Hin as [[= -> ->]|Hin]; [|by eapply (IH _ _ _ Hr)].
    destruct (restore_object_ok _ _ _ _ _ _ E) as (o & Ho & Hs). exists o. split; [done|].
    eapply (restore_items_inv (fun c => is_Some (objects c kd !! object_key o))); [|exact Hs|exact Hr].
    intros kd' v' c2 r c3 _ Hp Hr'. by eapply restore_object_present.
  - destruct (restore_items_errors _ _ _ _ _ _ Hr) as (es & He & _). cbn in He. rewrite Ha in He. by destruct es.
Unshelve. all: by cbn.
Qed.

Lemma restore_inversion client data merge c resp c' : ingress_backup_restore client data merge c = (Ok resp, c') ->
  exists b n errors, backup_from_yaml data = Ok b /\ restore_items merge (items b) (0%nat, []) c = ((n, errors), c') /\
    resp = restore_response n errors (helm_note <$> ib_helm b).
Proof.
  unfold ingress_backup_restore. destruct client; [|done]. cbn [negb]. destruct (backup_from_yaml data) as [b|e]; [|done].
  rewrite restore_objects_items. destruct (restore_items _ _ _ c) as [[n es] c1] eqn:Er. intros [= <- <-]. by exists b, n, es.
Qed.

Lemma restore_status n errors note : rr_status (restore_response n errors note) = 200 <-> errors = [].
Proof. destruct errors; cbn; split; done. Qed.

(** A restore without "merge" leaves every object that the cluster has as it is.
    Whatever the backup holds and whichever calls fail: an object of any kind that was
    in the cluster before is there afterwards, unchanged. *)
Theorem restore_keeps_existing client data c r c' kd key o :
  ingress_backup_restore client data false c = (r, c') ->
  objects c kd !! key = Some o -> objects c' kd !! key = Some o.
Proof.
  intros Hr Ho. destruct r as [resp|e].
  - destruct (restore_inversion _ _ _ _ _ _ Hr) as (b & n & es & _ & Hi & _).
    eapply (restore_items_inv (fun c => objects c kd !! key = Some o)); [|exact Ho|exact Hi].
    intros kd1 v c1 r1 c2 _ Hc Hr1. destruct (restore_object_lookup _ _ _ _ _ _ kd key Hr1) as [->|(-> & _ & _ & _ & _ & _ & [[Hn _]|[? _]])];
      [done|congruence|done].
  - revert Hr. unfold ingress_backup_restore. destruct client; cbn [negb]; [|by intros [= _ <-]].
    destruct (backup_from_yaml data); [|by intros [= _ <-]]. by destruct (restore_objects _ _ _) as [[? ?] ?].
Qed.

(** A restore answers 200 exactly when there are no errors; then every object of the
    backup parses and is in the cluster. *)
Theorem restore_success client data merge c resp c' b :
  ingress_backup_restore client data merge c = (Ok resp, c') -> backup_from_yaml data = Ok b ->
  (rr_restored_count resp + length (default [] (rr_errors resp)) <= length (items b))%nat /\
  (rr_status resp = 200 \/ rr_status resp = 206 /\ is_Some (rr_errors resp)) /\
  (rr_status resp = 200 -> forall kd v, (kd, v) ∈ items b ->
     exists o, from_value kd v = Ok o /\ is_Some (objects c' kd !! object_key o)).
Proof.
  intros Hr Hb. destruct (restore_inversion _ _ _ _ _ _ Hr) as (b' & n & es & Hb' & Hi & ->).
  rewrite Hb in Hb'. injection Hb' as <-. destruct (restore_items_errors _ _ _ _ _ _ Hi) as (es' & He & _ & Hl). cbn in He, Hl.
  split_and!.
  - subst es'. destruct es; cbn in *; lia.
  - destruct es; cbn; [by left|right; split; [done|by eexists]].
  - intros Hs. apply restore_status in Hs as ->. exact (restore_items_ok _ _ _ _ _ _ (eq_refl : (0%nat, @nil str).2 = []) Hi).
Qed.

(** ** Restoring what was exported *)

Lemma listed_spec kd ns what c l c' : listed kd ns what c = (Ok l, c') ->
  objects c' = objects c /\ forall o, o ∈ l <-> exists key, objects c kd !! key = Some o /\ from_option (fun n => key.1 = n) True ns.
Proof.
  unfold listed. destruct (cl_list kd ns c) as [[l1|e] c1] eqn:E; [|done]. intros [= <- <-].
  destruct (cl_list_spec _ _ _ _ _ E) as [? Hl]. split; [done|]. by apply Hl.
Qed.

Lemma listed_or_empty_spec (b : bool) kd ns c l c' : (if b then listed_or_empty kd ns else cl_ret _ []) c = (Ok l, c') ->
  objects c' = objects c /\ forall o, o ∈ l -> exists key, objects c kd !! key = Some o.
Proof.
  destruct b; [|intros [= <- <-]; split; [done|]; by intros o Ho%elem_of_nil]. unfold listed_or_empty.
  destruct (cl_list kd ns c) as [[l1|e] c1] eqn:E; intros [= <- <-]; destruct (cl_list_spec _ _ _ _ _ E) as [? Hl]; (split; [done|]).
  - intros o Ho. apply (Hl l1 eq_refl) in Ho as (key & ? & _). eauto.
  - by intros o Ho%elem_of_nil.
Qed.

(** A backup holds objects of the cluster, and all its Ingresses. *)
Lemma collect_backup_spec client gw ns helm created c b c' : collect_backup client gw ns helm created c = (Ok b, c') ->
  (forall kd v, (kd, v) ∈ items b -> exists o key, v = to_value o /\ objects c kd !! key = Some o) /\
  (forall key o, objects c BIngress !! key = Some o -> from_option (fun n => key.1 = n) True ns -> (BIngress, to_value o) ∈ items b).
Proof.
  unfold collect_backup. destruct client; [|done]. cbn [negb]. unfold mbind, cl_bind, mret.
  destruct (listed BIngress ns "ingresses" c) as [[ing|?] c1] eqn:E1; [|done].
  destruct (listed BSecret ns "secrets" c1) as [[sec|?] c2] eqn:E2; [|done].
  destruct ((if gw then listed_or_empty BGateway ns else cl_ret _ []) c2) as [[gws|?] c3] eqn:E3; [|done].
  destruct ((if gw then listed_or_empty BRoute ns else cl_ret _ []) c3) as [[rts|?] c4] eqn:E4; [|done].
  intros [= <- <-]. apply listed_spec in E1 as [H1 L1], E2 as [H2 L2]. apply listed_or_empty_spec in E3 as [H3 L3], E4 as [H4 L4].
  rewrite H1 in *. rewrite H2 in *. rewrite H3 in *. unfold items. cbn [ib_secrets ib_gateways ib_httproutes ib_ingresses]. split.
  - intros kd v Hin. rewrite !elem_of_app, !list_elem_of_fmap in Hin.
    destruct Hin as [Hin|[Hin|[Hin|Hin]]]; destruct Hin as (v' & [= -> ->] & Hv); apply list_elem_of_fmap in Hv as (o & -> & Ho).
    + apply list_elem_of_filter in Ho as [_ Ho]. apply L2 in Ho as (key & ? & _). eauto.
    + apply L3 in Ho as (key & ?). eauto.
    + apply L4 in Ho as (key & ?). eauto.
    + apply L1 in Ho as (key & ? & _). eauto.
  - intros key o Ho Hns. rewrite !elem_of_app. do 3 right. apply list_elem_of_fmap_2, list_elem_of_fmap_2, L1. eauto.
Qed.

(** What a stored object looks like in a backup. *)
Lemma saved_item kd o key c : objects c kd !! key = Some o ->
  from_value kd (to_value o) = Ok o /\ object_key o = key /\ exists v, md_version (co_meta o) = Some v.
Proof.
  intros Ho. destruct (cl_stored_meta _ _ _ _ Ho) as [v Hv]. unfold object_key. rewrite Hv, value_parse. cbn. destruct key. eauto.
Qed.

(** C40: A backup is exported with the resource versions of its objects, so restoring it
    writes only over what has not changed since.  Where the restore changes an object,
    with or without "merge", the cluster has that object at the version that was saved;
    what is missing stays missing, and a missing Ingress makes the answer 206. *)
Theorem exported_backup_restores_only_unchanged client gw ns helm created stamp c0 file c1 merge c resp c' :
  build_ingress_backup client gw ns helm created stamp c0 = (Ok file, c1) ->
  ingress_backup_restore true (bb_body file) merge c = (Ok resp, c') ->
  (forall kd key, objects c' kd !! key = objects c kd !! key \/
     exists saved old, objects c0 kd !! key = Some saved /\ objects c kd !! key = Some old /\
       md_version (co_meta old) = md_version (co_meta saved)) /\
  (forall key o, objects c0 BIngress !! key = Some o -> from_option (fun n => key.1 = n) True ns ->
     objects c BIngress !! key = None -> rr_status resp = 206).
Proof.
  intros Hb Hr. revert Hb. unfold build_ingress_backup, mbind, cl_bind.
  destruct (collect_backup client gw ns helm created c0) as [[b|e] c2] eqn:Ec; [|done].
  destruct (backup_yaml b) as [yaml|e] eqn:Ey; [|done]. intros [= <- <-]. cbn [bb_body] in Hr. apply yaml_parse in Ey.
  destruct (collect_backup_spec _ _ _ _ _ _ _ _ Ec) as [Hsaved Hall].
  destruct (restore_inversion _ _ _ _ _ _ Hr) as (b' & n & es & Hb' & Hi & ->). rewrite Ey in Hb'. injection Hb' as <-.
  assert (Hmain : forall kd key, objects c' kd !! key = objects c kd !! key \/
     exists saved old, objects c0 kd !! key = Some saved /\ objects c kd !! key = Some old /\
       md_version (co_meta old) = md_version (co_meta saved)).
  { intros kd key. eapply (restore_items_inv (fun c' => objects c' kd !! key = objects c kd !! key \/ _)); [|by left|exact Hi].
    intros kd1 v c3 r c4 Hin [Hp|Hp] Hr1; [|by right].
    destruct (restore_object_lookup _ _ _ _ _ _ kd key Hr1) as [->|(-> & o & o' & Ho & -> & _ & Hw)]; [by left|].
    destruct (Hsaved _ _ Hin) as (s & key & -> & Hs). destruct (saved_item _ _ _ _ Hs) as (Hv & Hk & ver & Hver).
    rewrite Hv in Ho. injection Ho as <-. rewrite Hk in *. destruct Hw as [[_ ?]|(_ & old & Hold & [?|Heq])]; [congruence..|].
    right. exists s, old. split_and!; [done|congruence|done]. }
  split; [done|]. intros key o Ho Hns Hnone. destruct es as [|e es]; [exfalso|done].
  destruct (saved_item _ _ _ _ Ho) as (Hv & Hk & _).
  destruct (restore_items_ok _ _ _ _ _ _ (eq_refl : (0%nat, @nil str).2 = []) Hi _ _ (Hall _ _ Ho Hns)) as (o1 & Ho1 & [x Hx]).
  rewrite Hv in Ho1. injection Ho1 as <-. rewrite Hk in Hx. destruct (Hmain BIngress key) as [Hm|(? & ? & _ & ? & _)]; congruence.
Qed.

End restore.

(** ** Object storage *)

Lemma trim_start_matches_head q s b r : trim_start_matches q s = b :: r -> q b = false.
Proof. induction s as [|x s IH]; [done|]. cbn. destruct (q x) eqn:Eq; [done|]. by intros [= <- _]. Qed.

(** A stored backup lies under the configured prefix, which is empty or a directory
    name that does not start with a slash. *)
Theorem s3_object_key_shape prefix filename :
  s3_object_key prefix filename = normalize_prefix prefix ++ filename /\
  (normalize_prefix prefix = [] \/
   (exists dir, normalize_prefix prefix = dir ++ bs "/") /\ ~ (exists r, normalize_prefix prefix = bs "/" ++ r)).
Proof.
  split; [unfold s3_object_key; by destruct (normalize_prefix prefix)|].
  unfold normalize_prefix. destruct (trim_start_matches is_slash (trim prefix)) as [|b p] eqn:Ep; [by left|].
  right. apply trim_start_matches_head in Ep. unfold is_slash in Ep. apply bool_decide_eq_false in Ep. cbv zeta. cbn [is_empty].
  destruct (ends_with "/" (b :: p)) eqn:E.
  - split; [by apply ends_with_true|]. intros [r Hr]. by injection Hr as -> _.
  - split; [by exists (b :: p)|]. intros [r Hr]. by injection Hr as -> _.
Qed.

(** Without a valid token nothing is read, stored or restored. *)
Section handlers.
Context `{Crypto} `{Formats} `{ClusterServer C} `{BackupTexts V}.

Lemma unauthorized_stops E (header : str -> option str) {A} (k : unit -> Bk (C := C) A) s a :
  is_authorized E header s.1 = (false, a) -> bk_bind _ _ k (authorized E header) s = (Err (mkApiError 401 []), (a, s.2)).
Proof. intros Ha. unfold bk_bind, authorized. by rewrite Ha. Qed.

Variable scan : list CertRow -> list CertRow.
Variable scan_dns : list DnsRow -> list DnsRow.
Variable to_lowercase : str -> str.
Variable url_parse : str -> option Url.
Variable iter_routes : gmap str (list Route) -> list (str * list Route).
Variable db_text : DbError -> str.
Variable apply_text : ApplyError -> str.
Variable store_text : StoreError -> str.
Variable s3_send : S3Client -> S3Request -> option str.

Theorem backup_handlers_need_token E ingress_build client gw helm stamp header s a ns data merge ids body :
  is_authorized E header s.1 = (false, a) ->
  let denied {A} (r : result ApiError A * (Admin * C)) := r = (Err (mkApiError 401 []), (a, s.2)) in
  denied (backup_export scan scan_dns db_text E ingress_build client gw helm stamp header ns s) /\
  denied (backup_restore scan to_lowercase url_parse iter_routes db_text apply_text store_text E ingress_build client header data merge ids s) /\
  denied (s3_settings_get db_text E header s) /\
  denied (s3_settings_put db_text E header body s) /\
  denied (s3_settings_test db_text s3_send E header s) /\
  denied (backup_export_s3 scan scan_dns db_text s3_send E ingress_build client gw helm stamp header ns s).
Proof. intros Ha. cbv zeta. split_and!; by apply unauthorized_stops. Qed.

End handlers.

(** ** A server and texts for the witnesses

    Objects with a version that each write increments. *)
Definition ToyCluster : Type := BKind -> gmap (str * str) (N * ClusterObject).

Definition toy_object (key : str * str) (vo : N * ClusterObject) : ClusterObject :=
  mkClusterObject (mkMeta (Some key.1) (Some key.2) (Some (show_N vo.1))) (co_type vo.2) (co_data vo.2) (co_rest vo.2).

Definition toy_objects (c : ToyCluster) (kd : BKind) : gmap (str * str) ClusterObject :=
  map_imap (fun key vo => Some (toy_object key vo)) (c kd).

Definition toy_write (kd : BKind) (key : str * str) (vo : N * ClusterObject) (c : ToyCluster) : ToyCluster :=
  fun kd' => if decide (kd' = kd) then <[key := vo]> (c kd) else c kd'.

Definition toy_create (kd : BKind) (key : str * str) (o : ClusterObject) (c : ToyCluster) : result str unit * ToyCluster :=
  match c kd !! key, md_version (co_meta o) with
  | None, None => (Ok tt, toy_write kd key (1, o) c)
  | _, _ => (Err (bs "refused"), c)
  end.

Definition toy_replace (kd : BKind) (key : str * str) (o : ClusterObject) (c : ToyCluster) : result str unit * ToyCluster :=
  match c kd !! key with
  | Some (v, _) =>
    if bool_decide (md_version (co_meta o) = None \/ md_version (co_meta o) = Some (show_N v)) then (Ok tt, toy_write kd key (v + 1, o) c)
    else (Err (bs "conflict"), c)
  | None => (Err (bs "not found"), c)
  end.

Definition toy_in (ns : option str) (o : ClusterObject) : bool :=
  match ns, md_namespace (co_meta o) with Some n, Some m => bool_decide (m = n) | Some _, None => false | None, _ => true end.

Lemma toy_lookup c kd key : toy_objects c kd !! key = toy_object key <$> c kd !! key.
Proof. unfold toy_objects. rewrite map_lookup_imap. by destruct (c kd !! key). Qed.

Lemma toy_write_objects kd key vo c :
  (forall kd', kd' <> kd -> toy_objects (toy_write kd key vo c) kd' = toy_objects c kd') /\
  toy_objects (toy_write kd key vo c) kd = <[key := toy_object key vo]> (toy_objects c kd).
Proof.
  unfold toy_objects, toy_write. split; [intros kd' Hne; by rewrite decide_False|]. rewrite decide_True by done.
  by apply map_imap_insert_Some.
Qed.

#[export] Instance toy_cluster : ClusterServer ToyCluster.
Proof.
  refine {| objects := toy_objects;
            cl_get kd key c := (is_some (c kd !! key), c);
            cl_list kd ns c := (Ok (filter (fun o => toy_in ns o = true) (snd <$> map_to_list (toy_objects c kd))), c);
            cl_create := toy_create; cl_replace := toy_replace |}.
  - intros kd key c b c' [= <- <-]. split; [done|]. intros Hb. rewrite toy_lookup. destruct (c kd !! key); [by eexists|done].
  - intros kd ns c r c' [= <- <-]. split; [done|]. intros l [= <-] o.
    rewrite list_elem_of_filter, list_elem_of_fmap. split.
    + intros [Hi ([key o'] & -> & Ho)]. apply elem_of_map_to_list in Ho. exists key. split; [done|].
      rewrite toy_lookup in Ho. destruct (c kd !! key); [|done]. injection Ho as <-. destruct ns; [|done].
      by apply bool_decide_eq_true in Hi.
    + intros (key & Ho & Hns). split; [|exists (key, o); split; [done|by apply elem_of_map_to_list]].
      rewrite toy_lookup in Ho. destruct (c kd !! key); [|done]. injection Ho as <-. destruct ns; [|done].
      by apply bool_decide_eq_true.
  - intros c kd key o Ho. rewrite toy_lookup in Ho. destruct (c kd !! key); [|done]. injection Ho as <-. by eexists.
  - intros kd key o c r c' Hr. unfold toy_create in Hr. destruct (c kd !! key) as [vo|] eqn:Ek; [injection Hr as <- <-; auto|].
    destruct (md_version (co_meta o)) eqn:Em; injection Hr as <- <-; [auto|].
    destruct (toy_write_objects kd key (1, o) c) as [Hn Ho]. split; [done|]. right. rewrite toy_lookup, Ek. eauto.
  - intros kd key o c r c' Hr. unfold toy_replace in Hr. destruct (c kd !! key) as [[v old]|] eqn:Ek; [|injection Hr as <- <-; auto].
    case_bool_decide as Hv; injection Hr as <- <-; [|auto].
    destruct (toy_write_objects kd key (v + 1, o) c) as [Hn Ho]. split; [done|]. right.
    exists (toy_object key (v, old)), (toy_object key (v + 1, o)). rewrite toy_lookup, Ek. auto.
Defined.

(** One backup [b0] has a text. *)
#[local] Instance meta_eq : EqDecision Meta.
Proof. solve_decision. Defined.
#[local] Instance object_eq : EqDecision ClusterObject.
Proof. solve_decision. Defined.
#[local] Instance helm_eq : EqDecision HelmBackupSnapshot.
Proof. solve_decision. Defined.
#[local] Instance backup_eq : EqDecision (IngressBackup ClusterObject).
Proof. solve_decision. Defined.

Definition toy_texts (b0 : IngressBackup ClusterObject) : BackupTexts ClusterObject.
Proof.
  refine {| to_value := fun o => o; from_value _ := Ok;
            backup_yaml b := if decide (b = b0) then Ok (bs "backup") else Err (bs "too long");
            backup_from_yaml t := if t =s "backup" then Ok b0 else Err (bs "not a backup");
            proxy_json _ := bs "proxy"; proxy_from_json _ := Err (bs "not a backup"); history_value := Some |}.
  - done.
  - intros b t. destruct (decide (b = b0)) as [->|]; [|done]. by intros [= <-].
Defined.

(** A cluster with one Ingress, at version [v] with the rest [rest]. *)
Definition shop_key : str * str := (bs "web", bs "shop").
Definition shop_object (rest : str) : ClusterObject := mkClusterObject (mkMeta None None None) None None rest.
Definition shop_cluster (v : N) (rest : str) : ToyCluster := fun kd =>
  match kd with BIngress => {[ shop_key := (v, shop_object rest) ]} | _ => ∅ end.

Definition shop_backup : IngressBackup ClusterObject :=
  mkIngressBackup [toy_object shop_key (3, shop_object "old")] [] [] [] None (bs "now").

Lemma restore_keeps_existing_witness :
  let run := ingress_backup_restore (H0 := toy_texts shop_backup) true "backup" false (shop_cluster 5 "new") in
  is_ok run.1 = true /\ objects run.2 BIngress !! shop_key = Some (toy_object shop_key (5, shop_object "new")).
Proof.
  intros run. split; [vm_compute; reflexivity|].
  refine (restore_keeps_existing (H0 := toy_texts shop_backup) true "backup" (shop_cluster 5 "new") run.1 run.2 BIngress shop_key
            (toy_object shop_key (5, shop_object "new")) (surjective_pairing run) _).
  vm_compute; reflexivity.
Defined.

(** The cluster lost its Ingress; the backup does not bring it back. *)
Definition shop_lost : ToyCluster := fun _ => ∅.
Definition shop_file : BuiltBackup := mkBuiltBackup "pertisk-ingress-backup-1.yaml" "application/x-yaml" "backup".
Definition shop_answer : RestoreBackupResponse := restore_response 0 [bs "Failed to restore ingress web/shop: refused"] None.

Lemma with_second {A B} (p : A * B) a : p.1 = a -> p = (a, p.2).
Proof. by destruct p; cbn; intros ->. Qed.

Lemma exported_backup_restores_only_unchanged_witness :
  let build := build_ingress_backup (H0 := toy_texts shop_backup) true false None None "now" "1" (shop_cluster 3 "old") in
  let restore := ingress_backup_restore (H0 := toy_texts shop_backup) true (bb_body shop_file) true shop_lost in
  build.1 = Ok shop_file /\ restore.1 = Ok shop_answer /\ rr_status shop_answer = 206.
Proof.
  intros build restore.
  assert (Hb : build.1 = Ok shop_file) by (vm_compute; reflexivity).
  assert (Hr : restore.1 = Ok shop_answer) by (vm_compute; reflexivity).
  split; [exact Hb|]. split; [exact Hr|].
  refine (proj2 (exported_backup_restores_only_unchanged (H0 := toy_texts shop_backup) true false None None "now" "1" (shop_cluster 3 "old")
            shop_file build.2 true shop_lost shop_answer restore.2 (with_second _ _ Hb) (with_second _ _ Hr))
            shop_key (toy_object shop_key (3, shop_object "old")) _ I _);
    vm_compute; reflexivity.
Defined.
