(* ===== verification/AutoSsl.v ===== *)
(** * Automatic certificates (api/acme.rs)

    The sweep that runs after every change of the configuration: it retires expiring
    and stale ACME certificates, reloads valid ones that the store lost, and starts
    an order for what is missing; and the end of an order.  Orders run concurrently
    with later sweeps: a lock per set of identifiers keeps them apart. *)

From S2P Require Import Prelude RustStr Ip GeoIp Waf Bot Captcha Security Edge EdgeAuth ProxyConfig Router Forward Apply.
From S2P Require Import Telemetry CertStore Database Admin.

(** ** What a certificate covers *)

Definition trimmed_hosts (hosts : list str) : list str := filter (fun h => negb (is_empty h)) (trim <$> hosts).

Definition hosts_set (hosts : list str) : gset str := list_to_set (trimmed_hosts hosts).

(** Listed, or covered by a listed wildcard; a wildcard only by itself. *)
Definition host_covered_by_cert_hosts (cert_hosts : list str) (host : str) : bool :=
  let host := trim host in
  if is_empty host then false
  else if starts_with "*" host then bool_decide (host ∈ hosts_set cert_hosts)
  else bool_decide (host ∈ hosts_set cert_hosts) || existsb (fun w => wildcard_covers_host w host) (trimmed_hosts cert_hosts).

Definition cert_row_covers_tls_hosts (cert_hosts tls_hosts : list str) : bool :=
  let want := trimmed_hosts tls_hosts in
  negb (is_empty want) && forallb (host_covered_by_cert_hosts cert_hosts) want.

Definition cert_row_matches_tls_config (row : CertificateRow) (tls_hosts : list str) : bool :=
  cert_row_covers_tls_hosts (row_hosts row) tls_hosts.

Definition hosts_covered_by_row (row : CertificateRow) (tls_hosts : list str) : list str :=
  filter (fun h => host_covered_by_cert_hosts (row_hosts row) h = true) (trimmed_hosts tls_hosts).

(** The identifiers of an order: with DNS-01 the wildcards alone, if there are any;
    with HTTP-01 no wildcards. *)
Definition is_dns01 (challenge : str) : bool :=
  eq_ignore_ascii_case challenge "dns01" || eq_ignore_ascii_case challenge "dns-01".

Definition acme_hosts_for_order (hosts : list str) (challenge : str) : list str :=
  let wild := filter (fun h => starts_with "*" h = true) hosts in
  let eligible :=
    if is_dns01 challenge then (if is_empty wild then hosts else wild)
    else filter (fun h => starts_with "*" h = false) hosts in
  filter (fun h => is_invalid_acme_identifier h = false) eligible.

Definition is_acme_source (src : TlsSource) : bool := match src with Acme _ _ _ _ _ => true | _ => false end.
Definition acme_tls_count (c : Config) : nat := length (filter (fun t => is_acme_source (tls_source t) = true) (cfg_tls c)).

Definition is_source (kind : str) (row : CertificateRow) : bool := eq_ignore_ascii_case (row_source_type row) kind.

(** [lock_key]: the sorted identifiers, joined with commas. *)
Definition order_key (hosts : list str) : str := join "," (sort_by str_leb hosts).

(** ** State *)

Record SslState := mkSslState {
  ss_db : DbState;
  ss_certs : CertStoreInner;
  ss_inflight : gset str;
  ss_orders : list TlsConfig;
}.

Definition ss_set_db (d : DbState) (s : SslState) : SslState := mkSslState d (ss_certs s) (ss_inflight s) (ss_orders s).
Definition ss_set_certs (c : CertStoreInner) (s : SslState) : SslState := mkSslState (ss_db s) c (ss_inflight s) (ss_orders s).

Section autossl.
Context `{Formats}.
Variable scan : list CertRow -> list CertRow.
Variable iter_hosts : gmap str StoredCert -> list (str * StoredCert).
(** An expiry text, in either of the two formats, in milliseconds. *)
Variable parse_expiry : str -> option Z.
Variable io : CertIo.
Variable certs_dir : str.
Variable now : N.

(** [num_days] cuts towards zero; what cannot be read does not expire. *)
Definition cert_expires_within_days (expires_at : option str) (days : Z) : bool :=
  match expires_at with
  | None => false
  | Some t =>
    let t := trim t in
    if is_empty t then false
    else
      match parse_expiry t with
      | None => false
      | Some e => (Z.quot (e - Z.of_N now) 86400000 <=? days)%Z
      end
  end.

Definition acme_cert_is_valid (row : CertificateRow) (tls_hosts : list str) : bool :=
  is_source "acme" row
  && negb (from_option (fun t => is_empty (trim t)) true (row_expires_at row))
  && negb (cert_expires_within_days (row_expires_at row) 0)
  && cert_row_matches_tls_config row tls_hosts.

Definition find_acme_cert_for_hosts (rows : list CertificateRow) (hosts : list str) : option CertificateRow :=
  List.find (fun row => is_source "acme" row && acme_cert_is_valid row hosts) rows.

Definition hosts_missing_from_store (c : CertStoreInner) (hosts : list str) : list str :=
  filter (fun h => let h := trim h in
    negb (is_empty h) && negb (starts_with "*" h) && negb (has_cert_for_host iter_hosts c h) = true) hosts.

(** [if let Ok(true) = db.delete_certificate(..) { cert_store.remove_for_hosts(..) }]. *)
Definition drop_row (row : CertificateRow) (s : SslState) : SslState :=
  let '(r, d) := delete_certificate (row_id row) (ss_db s) in
  let s := ss_set_db d s in
  match r with
  | Ok true => ss_set_certs (remove_for_hosts (row_hosts row) (ss_certs s)) s
  | _ => s
  end.

Definition RENEW_DAYS : Z := 30.

(** The first loop: ACME rows within 30 days of their expiry, for hosts the
    configuration still wants from ACME. *)
Definition is_renewed (c : Config) (row : CertificateRow) : bool :=
  is_source "acme" row
  && cert_expires_within_days (row_expires_at row) RENEW_DAYS
  && existsb (fun t => is_acme_source (tls_source t)
                       && negb (bool_decide (hosts_set (tls_hosts t) ∩ hosts_set (row_hosts row) = ∅))) (cfg_tls c).

Definition renew_row (c : Config) (s : SslState) (row : CertificateRow) : SslState :=
  if is_renewed c row then drop_row row s else s.

(** Whether the row's certificate is in the store for these hosts again. *)
Definition reload_acme_cert_into_store (row : CertificateRow) (hosts : list str) (s : SslState) : bool * SslState :=
  let '(r, d) := get_all_certificates_for_store scan (ss_db s) in
  let s := ss_set_db d s in
  match r with
  | Err _ => (false, s)
  | Ok rows =>
    match List.find (fun p => p.1.1.1 =s row_id row) rows with
    | None => (false, s)
    | Some (id, _, cert, key) =>
      let '(r, c) := insert_pem_for_hosts io hosts cert key certs_dir id (ss_certs s) in
      (is_ok r, ss_set_certs c s)
    end
  end.

(** The source of an order: the entry's, with the configuration's e-mail address
    when it has none. *)
Definition order_source (c : Config) (src : TlsSource) : TlsSource :=
  match src with
  | Acme email ch p t cr =>
    if from_option (fun e => is_empty (trim e)) true email then
      match opt_filter (fun e => negb (is_empty e)) (trim <$> acme_email c) with
      | Some e => Acme (Some e) ch p t cr
      | None => src
      end
    else src
  | _ => src
  end.

Definition drop_stale (order : list str) (s : SslState) (row : CertificateRow) : SslState :=
  if negb (is_source "acme" row) || negb (cert_row_covers_tls_hosts (row_hosts row) order) then s
  else if acme_cert_is_valid row order then s
  else drop_row row s.

(** The second half of an entry: clean up, look again, order. *)
Definition order_entry (c : Config) (src : TlsSource) (order : list str) (rows : list CertificateRow) (s : SslState)
    : list CertificateRow * SslState :=
  let s := foldl (drop_stale order) s rows in
  let '(r, d) := list_certificates scan (ss_db s) in
  let s := ss_set_db d s in
  let rows := match r with Ok l => l | Err _ => rows end in
  if is_some (find_acme_cert_for_hosts rows order) then (rows, s)
  else if bool_decide (order_key order ∈ ss_inflight s) then (rows, s)
  else
    (rows, mkSslState (ss_db s) (ss_certs s) ({[order_key order]} ∪ ss_inflight s)
             (ss_orders s ++ [mkTlsConfig order (order_source c src) None])).

(** One TLS entry; the certificate rows are those of the last listing. *)
Definition sweep_entry (c : Config) (x : list CertificateRow * SslState) (t : TlsConfig) : list CertificateRow * SslState :=
  let '(rows, s) := x in
  match tls_source t with
  | Acme _ challenge _ _ _ =>
    let hosts := trimmed_hosts (tls_hosts t) in
    if is_empty hosts then x
    else
      let s :=
        match List.find (fun row => is_source "uploaded" row && cert_row_covers_tls_hosts (row_hosts row) hosts) rows with
        | Some row => drop_row row s
        | None => s
        end in
      let order := acme_hosts_for_order hosts challenge in
      if is_empty order then (rows, s)
      else
        match find_acme_cert_for_hosts rows order with
        | Some row =>
          let covered := hosts_covered_by_row row hosts in
          if is_empty (hosts_missing_from_store (ss_certs s) covered) then (rows, s)
          else
            let '(ok, s) := reload_acme_cert_into_store row covered s in
            if ok then (rows, s) else order_entry c (tls_source t) order rows s
        | None => order_entry c (tls_source t) order rows s
        end
  | _ => x
  end.

(** [load_db_certs_into_store]. *)
Definition sync_store (s : SslState) : SslState :=
  let '(r, d) := get_all_certificates_for_store scan (ss_db s) in
  let s := ss_set_db d s in
  match r with Ok rows => ss_set_certs (insert_rows io certs_dir rows (ss_certs s)).2 s | Err _ => s end.

Definition spawn_auto_ssl_for_config (c : Config) (s : SslState) : SslState :=
  let '(r, d) := list_certificates scan (ss_db s) in
  let s := ss_set_db d s in
  match r with
  | Err _ => s
  | Ok rows =>
    if (acme_tls_count c =? 0)%nat then s
    else
      let s := foldl (renew_row c) s rows in
      let '(r, d) := list_certificates scan (ss_db s) in
      let s := ss_set_db d s in
      match r with
      | Err _ => s
      | Ok rows => sync_store (foldl (sweep_entry c) (rows, s) (cfg_tls c)).2
      end
  end.

(** The end of an order (the running ones have distinct keys): what the certificate authority gave, or nothing. *)
Definition finish_order (id : str) (got : option (list str * str * str)) (o : TlsConfig) (s : SslState) : SslState :=
  let s :=
    match got with
    | None => s
    | Some (hosts, cert, key) =>
      let '(r, d) := add_certificate id hosts cert key "acme" now (ss_db s) in
      let s := ss_set_db d s in
      match r with
      | Ok id => ss_set_certs (insert_pem_for_hosts io hosts cert key certs_dir id (ss_certs s)).2 s
      | Err _ => s
      end
    end in
  mkSslState (ss_db s) (ss_certs s) (ss_inflight s ∖ {[order_key (tls_hosts o)]}) 
    (filter (fun x => order_key (tls_hosts x) <> order_key (tls_hosts o)) (ss_orders s)).

End autossl.
