(* ===== verification/AutoSslProps.v ===== *)
(** * What automatic certificates guarantee

    Theorems about [AutoSsl]: orders for the same identifiers never run side by side,
    whatever the interleaving of sweeps and finishing orders; an order is only started
    for identifiers without a valid certificate; a settled configuration is left alone. *)

From S2P Require Import Prelude RustStr Ip GeoIp Waf Bot Captcha Security Edge EdgeAuth ProxyConfig Router Forward Apply.
From S2P Require Import Telemetry CertStore Database Admin AdminProps AutoSsl.

Section autossl.
Context `{Formats}.
Variable scan : list CertRow -> list CertRow.
Variable iter_hosts : gmap str StoredCert -> list (str * StoredCert).
Variable parse_expiry : str -> option Z.
Variable io : CertIo.
Variable certs_dir : str.

Abbreviation sweep := (spawn_auto_ssl_for_config scan iter_hosts parse_expiry io certs_dir).
Abbreviation order_entry := (order_entry scan parse_expiry).
Abbreviation sweep_entry := (sweep_entry scan iter_hosts parse_expiry io certs_dir).

Definition keys (s : SslState) : list str := (fun o => order_key (tls_hosts o)) <$> ss_orders s.

(** What the certificate authority can be asked for. *)
Definition order_ok (o : TlsConfig) : Prop :=
  tls_hosts o <> [] /\ Forall (fun h => is_invalid_acme_identifier h = false) (tls_hosts o) /\
  exists email ch p t cr, tls_source o = Acme email ch p t cr /\
    (is_dns01 ch = false -> Forall (fun h => starts_with "*" h = false) (tls_hosts o)).

(** The locks are those of the running orders. *)
Record orders_ok (s : SslState) : Prop := {
  oo_distinct : NoDup (keys s);
  oo_locks : ss_inflight s = list_to_set (keys s);
  oo_eligible : Forall order_ok (ss_orders s);
}.

(** Same orders, same locks. *)
Definition same_orders (s s' : SslState) : Prop := ss_orders s' = ss_orders s /\ ss_inflight s' = ss_inflight s.

Lemma same_orders_ok s s' : same_orders s s' -> orders_ok s -> orders_ok s'.
Proof. intros [Ho Hi] []. unfold keys in *. by split; unfold keys; rewrite ?Ho, ?Hi. Qed.

Lemma set_db_ok d s : orders_ok s -> orders_ok (ss_set_db d s).
Proof. by apply same_orders_ok. Qed.

Lemma same_orders_trans s1 s2 s3 : same_orders s1 s2 -> same_orders s2 s3 -> same_orders s1 s3.
Proof. intros [? ?] [? ?]. split; congruence. Qed.

Lemma same_orders_foldl {A} (f : SslState -> A -> SslState) l s :
  (forall s x, same_orders s (f s x)) -> same_orders s (foldl f s l).
Proof. intros Hf. revert s. induction l as [|x l IH]; intros s; [done|]. eapply same_orders_trans; [apply Hf|apply IH]. Qed.

Lemma drop_row_orders row s : same_orders s (drop_row row s).
Proof. unfold drop_row. by destruct (delete_certificate _ _) as [[[]|] d]. Qed.

Lemma renew_row_orders now c s row : same_orders s (renew_row parse_expiry now c s row).
Proof. unfold renew_row. destruct (is_renewed _ _ _ _); [apply drop_row_orders|done]. Qed.

Lemma drop_stale_orders now order s row : same_orders s (drop_stale parse_expiry now order s row).
Proof. unfold drop_stale. repeat case_match; try done. apply drop_row_orders. Qed.

Lemma reload_orders row hosts s : same_orders s (reload_acme_cert_into_store scan io certs_dir row hosts s).2.
Proof.
  unfold reload_acme_cert_into_store. destruct (get_all_certificates_for_store _ _) as [[rows|] d]; [|done].
  destruct (List.find _ rows) as [[[[id h] cert] key]|]; [|done]. cbn [ss_certs ss_set_db]. by destruct (insert_pem_for_hosts _ _ _ _ _ _ _).
Qed.

Lemma sync_store_orders s : same_orders s (sync_store scan io certs_dir s).
Proof. unfold sync_store. by destruct (get_all_certificates_for_store _ _) as [[rows|] d]. Qed.

Lemma elem_of_order_hosts hosts ch :
  Forall (fun h => is_invalid_acme_identifier h = false) (acme_hosts_for_order hosts ch) /\
  (is_dns01 ch = false -> Forall (fun h => starts_with "*" h = false) (acme_hosts_for_order hosts ch)).
Proof.
  unfold acme_hosts_for_order. split.
  - apply Forall_forall. intros h Hh. by apply list_elem_of_filter in Hh as [? _].
  - intros ->. apply Forall_forall. intros h Hh. apply list_elem_of_filter in Hh as [_ Hh]. by apply list_elem_of_filter in Hh as [? _].
Qed.

Lemma order_source_acme c email ch p t cr : exists email', order_source c (Acme email ch p t cr) = Acme email' ch p t cr.
Proof. cbn. repeat case_match; by eexists. Qed.

(** What an entry may do to the orders: nothing, or start one with a free key. *)
Definition may_start (o : TlsConfig) (s s' : SslState) : Prop :=
  same_orders s s' \/
  ((order_key (tls_hosts o) ∉ ss_inflight s) /\ ss_orders s' = ss_orders s ++ [o] /\
   ss_inflight s' = {[order_key (tls_hosts o)]} ∪ ss_inflight s).

Lemma may_start_ok o s s' : order_ok o -> may_start o s s' -> orders_ok s -> orders_ok s'.
Proof.
  intros Hok [?|(Hfree & Ho & Hi)]; [by apply same_orders_ok|]. intros [Hd Hl Hf]. unfold keys in *.
  assert (Hnew : order_key (tls_hosts o) ∉ (fun o => order_key (tls_hosts o)) <$> ss_orders s).
  { rewrite Hl in Hfree. by rewrite elem_of_list_to_set in Hfree. }
  split; unfold keys; rewrite Ho, ?Hi, ?fmap_app; cbn.
  - apply NoDup_app. split_and!; [done| |apply NoDup_singleton]. intros k Hk ->%list_elem_of_singleton. done.
  - rewrite list_to_set_app_L, Hl. cbn. set_solver.
  - apply Forall_app. by split; [|apply Forall_singleton].
Qed.

Lemma order_entry_start now c src order rows s :
  may_start (mkTlsConfig order (order_source c src) None) s (order_entry now c src order rows s).2.
Proof.
  unfold AutoSsl.order_entry.
  pose proof (same_orders_foldl _ rows s (drop_stale_orders now order)) as Hs.
  set (s1 := foldl _ s rows) in *. destruct (list_certificates scan (ss_db s1)) as [r d].
  destruct (is_some _); [by left|]. case_bool_decide as Hin; [by left|]. right. destruct Hs as [Ho Hi]. cbn in *.
  by rewrite <- Hi, Ho.
Qed.

Lemma sweep_entry_ok now c rows s t : orders_ok s -> orders_ok (sweep_entry now c (rows, s) t).2.
Proof.
  intros Hs. unfold AutoSsl.sweep_entry. destruct (tls_source t) as [email ch p ty cr| |] eqn:Esrc; try done.
  destruct (is_empty (trimmed_hosts (tls_hosts t))); [done|].
  set (s1 := match List.find _ rows with Some row => drop_row row s | None => s end).
  assert (Hs1 : orders_ok s1).
  { subst s1. destruct (List.find _ rows); [|done]. eapply same_orders_ok; [apply drop_row_orders|done]. }
  clearbody s1. destruct (is_empty (acme_hosts_for_order _ ch)) eqn:Ene; [done|].
  destruct (elem_of_order_hosts (trimmed_hosts (tls_hosts t)) ch) as [Hinv Hwild].
  set (order := acme_hosts_for_order _ ch) in *.
  assert (Hord : forall s2, orders_ok s2 -> orders_ok (order_entry now c (Acme email ch p ty cr) order rows s2).2).
  { intros s2 Hs2. eapply may_start_ok; [|apply order_entry_start|done]. split_and!; cbn [tls_hosts tls_source].
    - by destruct order.
    - done.
    - destruct (order_source_acme c email ch p ty cr) as [email' He]. by exists email', ch, p, ty, cr. }
  destruct (find_acme_cert_for_hosts _ _ _ _) as [row|]; [|by apply Hord].
  destruct (is_empty (hosts_missing_from_store _ _ _)); [done|].
  pose proof (reload_orders row (hosts_covered_by_row row (trimmed_hosts (tls_hosts t))) s1) as Hr.
  destruct (reload_acme_cert_into_store _ _ _ _ _ _) as [[] s2]; [by eapply same_orders_ok|].
  apply Hord. by eapply same_orders_ok.
Qed.

Lemma sweep_entries_ok now c ts rows s : orders_ok s -> orders_ok (foldl (sweep_entry now c) (rows, s) ts).2.
Proof.
  revert rows s. induction ts as [|t ts IH]; intros rows s Hs; [done|]. cbn [foldl].
  destruct (sweep_entry now c (rows, s) t) as [rows' s'] eqn:E. apply IH. pose proof (sweep_entry_ok now c rows s t Hs) as Hok.
  by rewrite E in Hok.
Qed.

Lemma sweep_ok now c s : orders_ok s -> orders_ok (sweep now c s).
Proof.
  intros Hs. unfold spawn_auto_ssl_for_config. destruct (list_certificates scan (ss_db s)) as [[rows|] d]; [|by apply set_db_ok].
  destruct (_ =? 0)%nat; [by apply set_db_ok|].
  pose proof (same_orders_foldl _ rows (ss_set_db d s) (renew_row_orders now c)) as Hr.
  set (s1 := foldl _ _ rows) in *. assert (Hs1 : orders_ok s1) by (eapply same_orders_ok, set_db_ok; done). clearbody s1.
  destruct (list_certificates scan (ss_db s1)) as [[rows'|] d']; [|by apply set_db_ok].
  eapply same_orders_ok; [apply sync_store_orders|]. by apply sweep_entries_ok, set_db_ok.
Qed.

Lemma finish_ok now id got o s : o ∈ ss_orders s -> orders_ok s -> orders_ok (finish_order io certs_dir now id got o s).
Proof.
  intros Ho Hs. unfold finish_order.
  set (s1 := match got with None => s | Some _ => _ end). assert (H1 : same_orders s s1).
  { subst s1. destruct got as [[[hosts cert] key]|]; [|done]. by destruct (add_certificate _ _ _ _ _ _ _) as [[]]. }
  pose proof (same_orders_ok _ _ H1 Hs) as [Hd Hl Hf]. clearbody s1. unfold keys in *.
  set (k := order_key (tls_hosts o)). set (key := fun o => order_key (tls_hosts o)) in *.
  assert (Hsub : key <$> filter (fun x => key x <> k) (ss_orders s1) = filter (fun x => x <> k) (key <$> ss_orders s1)).
  { clear. induction (ss_orders s1) as [|x l IH]; [done|]. rewrite fmap_cons, !filter_cons. by case_decide; cbn; rewrite IH. }
  split; unfold keys; cbn [ss_orders ss_inflight].
  - change (NoDup (key <$> filter (fun x => key x <> k) (ss_orders s1))). rewrite Hsub. by apply NoDup_filter.
  - change (ss_inflight s1 ∖ {[k]} = list_to_set (key <$> filter (fun x => key x <> k) (ss_orders s1))). rewrite Hsub, Hl. apply set_eq. intros x. rewrite elem_of_difference, !elem_of_list_to_set, list_elem_of_filter.
    rewrite elem_of_singleton. naive_solver.
  - apply Forall_forall. intros x Hx. apply list_elem_of_filter in Hx as [_ Hx]. rewrite Forall_forall in Hf. by apply Hf.
Qed.

(** *** Interleavings *)

(** Sweeps, ends of orders, and whatever else uses the database and the store. *)
Inductive ssl_step (s : SslState) : SslState -> Prop :=
| ssl_sweep now c : ssl_step s (sweep now c s)
| ssl_finish now id got o : o ∈ ss_orders s -> ssl_step s (finish_order io certs_dir now id got o s)
| ssl_other d certs : ssl_step s (mkSslState d certs (ss_inflight s) (ss_orders s)).

Inductive ssl_run (s0 : SslState) : SslState -> Prop :=
| ssl_start : ssl_run s0 s0
| ssl_more s s' : ssl_run s0 s -> ssl_step s s' -> ssl_run s0 s'.

Lemma ssl_run_ok s0 s : orders_ok s0 -> ssl_run s0 s -> orders_ok s.
Proof.
  intros H0 Hr. induction Hr as [|s s' Hr IH [now c|now id got o Ho|d certs]]; [done|by apply sweep_ok|by apply finish_ok|].
  by apply (same_orders_ok s).
Qed.

Lemma no_orders_ok d certs : orders_ok (mkSslState d certs ∅ []).
Proof. by split; [apply NoDup_nil|..]. Qed.

(** Orders for the same identifiers never run side by side.  From an idle start,
    after any interleaving of sweeps, orders that end (with a certificate or without)
    and other work on the database and the store: the running orders have distinct
    lock keys, the locks held are exactly theirs, so none is left behind; and each asks
    for at least one identifier, all of them acceptable, and no wildcard unless
    over DNS-01. *)
Theorem acme_orders_exclusive d certs s : ssl_run (mkSslState d certs ∅ []) s ->
  NoDup (keys s) /\ ss_inflight s = list_to_set (keys s) /\ Forall order_ok (ss_orders s).
Proof. intros Hr. apply ssl_run_ok in Hr as []; [done|apply no_orders_ok]. Qed.

(** *** When an order is started *)

(** An ACME entry needs nothing: no uploaded certificate is in its way, and what it
    can order is covered by a valid certificate that the store has. *)
Definition entry_settled (now : N) (rows : list CertificateRow) (certs : CertStoreInner) (t : TlsConfig) : Prop :=
  match tls_source t with
  | Acme _ ch _ _ _ =>
    let hosts := trimmed_hosts (tls_hosts t) in
    List.find (fun row => is_source "uploaded" row && cert_row_covers_tls_hosts (row_hosts row) hosts) rows = None /\ (acme_hosts_for_order hosts ch = [] \/
     exists row, find_acme_cert_for_hosts parse_expiry now rows (acme_hosts_for_order hosts ch) = Some row /\ hosts_missing_from_store iter_hosts certs (hosts_covered_by_row row hosts) = [])
  | _ => True
  end.

Lemma sweep_entry_settled now c rows s t : entry_settled now rows (ss_certs s) t -> sweep_entry now c (rows, s) t = (rows, s).
Proof.
  unfold entry_settled, AutoSsl.sweep_entry. destruct (tls_source t) as [email ch p ty cr| |]; [|done..].
  intros [Hup Hor]. rewrite Hup. destruct (is_empty (trimmed_hosts _)); [done|].
  destruct (is_empty (acme_hosts_for_order _ ch)) eqn:Ee; [done|].
  destruct Hor as [Hnil|(row & Hf & Hm)]; [by rewrite Hnil in Ee|]. by rewrite Hf, Hm.
Qed.

Lemma sweep_entries_settled now c ts rows s : Forall (entry_settled now rows (ss_certs s)) ts ->
  foldl (sweep_entry now c) (rows, s) ts = (rows, s).
Proof. induction 1 as [|t ts Ht _ IH]; [done|]. cbn [foldl]. by rewrite sweep_entry_settled. Qed.

Lemma sweep_settled now c s rows :
  list_certificates scan (ss_db s) = (Ok rows, ss_db s) ->
  Forall (fun row => is_renewed parse_expiry now c row = false) rows -> Forall (entry_settled now rows (ss_certs s)) (cfg_tls c) ->
  sweep now c s = if (acme_tls_count c =? 0)%nat then s else sync_store scan io certs_dir s.
Proof.
  intros Hl Hr He. unfold spawn_auto_ssl_for_config. rewrite Hl.
  assert (Hs : ss_set_db (ss_db s) s = s) by by destruct s. rewrite Hs. destruct (_ =? 0)%nat; [done|].
  assert (Hf : foldl (renew_row parse_expiry now c) s rows = s).
  { clear -Hr. induction Hr as [|row rows Hrow _ IH]; [done|]. cbn [foldl]. unfold renew_row at 2. by rewrite Hrow. }
  rewrite Hf, Hl, Hs. by rewrite sweep_entries_settled.
Qed.

Lemma order_entry_guard now c src order rows s rows' s' : order_entry now c src order rows s = (rows', s') ->
  same_orders s s' \/ find_acme_cert_for_hosts parse_expiry now rows' order = None.
Proof.
  unfold AutoSsl.order_entry.
  pose proof (same_orders_foldl _ rows s (drop_stale_orders now order)) as Hs.
  set (s1 := foldl _ s rows) in *. destruct (list_certificates scan (ss_db s1)) as [r d].
  set (rows1 := match r with Ok l => l | Err _ => rows end). destruct (find_acme_cert_for_hosts _ _ rows1 order) eqn:Ef; cbn [is_some].
  - intros [= <- <-]. by left.
  - case_bool_decide; intros [= <- <-]; by right.
Qed.

(** Orders are started for what lacks a valid certificate, and nothing else
    happens to a settled configuration.  An entry that starts an order finds, in
    the certificates listed just before, none that is valid for the identifiers it
    orders.  And when no certificate is due for renewal and every ACME entry is covered
    by a valid certificate that the store has, a sweep starts no order and leaves the
    database as it is. *)
Theorem order_only_when_needed now c s :
  (forall src order rows rows' s', order_entry now c src order rows s = (rows', s') -> ss_orders s' <> ss_orders s ->
     forall row, row ∈ rows' -> acme_cert_is_valid parse_expiry now row order = false) /\
  (forall rows, db_faults (ss_db s) = [] -> list_certificates scan (ss_db s) = (Ok rows, ss_db s) ->
     Forall (fun row => is_renewed parse_expiry now c row = false) rows ->
     Forall (entry_settled now rows (ss_certs s)) (cfg_tls c) ->
     same_orders s (sweep now c s) /\ ss_db (sweep now c s) = ss_db s).
Proof.
  split.
  - intros src order rows rows' s' He Hne row Hrow. apply order_entry_guard in He as [[Ho _]|Hf]; [done|].
    apply list_elem_of_In in Hrow. pose proof (List.find_none _ _ Hf row Hrow) as Hn. cbv beta in Hn.
    unfold acme_cert_is_valid in *. by destruct (is_source "acme" row).
  - intros rows Hfa Hl Hr He. rewrite (sweep_settled now c s rows) by done. destruct (_ =? 0)%nat; [done|].
    split; [apply sync_store_orders|]. unfold sync_store, get_all_certificates_for_store, db_read, db_exec. rewrite Hfa. cbn.
    destruct (ss_db s) as [t f]. cbn in *. by subst f.
Qed.

End autossl.

(** ** Witnesses and a finding *)

(** Expiry texts that count days, and a store and database with one ACME certificate. *)
Definition days_text (n : nat) : str := replicate n x2e.
Definition parse_days (s : str) : option Z := Some (Z.of_nat (length s) * 86400000)%Z.

Definition acme_tls : TlsConfig := mkTlsConfig [bs "app.io"] (Acme None "http01" None None None) None.
Definition acme_state (days : nat) : SslState :=
  mkSslState (mkDbState (upd_certificates (fun _ =>
      [mkCertRow "c1" (@hosts_json (toy []) [bs "app.io"]) "CERT" "KEY" "acme" "t" (Some (days_text days))]) empty_tables) [])
    (insert_pem_for_hosts (file_io true) [bs "app.io"] "CERT" "KEY" "/certs" "c1" store_new).2 ∅ [].

Definition acme_sweep (s : SslState) : SslState :=
  @spawn_auto_ssl_for_config (toy []) id_rows (fun m => map_to_list m) parse_days (file_io true) "/certs" 0 (web_config [acme_tls]) s.

Lemma acme_orders_exclusive_witness : let s := acme_sweep (acme_sweep (mkSslState (mkDbState empty_tables []) store_new ∅ [])) in
  length (ss_orders s) = 1%nat /\ NoDup (keys s).
Proof.
  pose proof (@acme_orders_exclusive (toy []) id_rows (fun m => map_to_list m) parse_days (file_io true) "/certs"
    (mkDbState empty_tables []) store_new (acme_sweep (acme_sweep (mkSslState (mkDbState empty_tables []) store_new ∅ [])))) as Hx.
  split; [vm_compute; reflexivity|]. apply Hx.
  eapply ssl_more; [eapply ssl_more; [apply ssl_start|]|]; apply ssl_sweep.
Defined.

Lemma order_only_when_needed_witness : ss_orders (acme_sweep (acme_state 60)) = [] /\
  ss_db (acme_sweep (acme_state 60)) = ss_db (acme_state 60).
Proof.
  destruct (@order_only_when_needed (toy []) id_rows (fun m => map_to_list m) parse_days (file_io true) "/certs" 0
    (web_config [acme_tls]) (acme_state 60)) as [_ Hs].
  destruct (Hs [mkCertificateRow "c1" [bs "app.io"] "acme" "t" (Some (days_text 60))]) as [[Ho _] Hd].
  - reflexivity.
  - vm_compute. reflexivity.
  - constructor; [vm_compute; reflexivity|constructor].
  - constructor; [|constructor]. split; [vm_compute; reflexivity|]. right.
    exists (mkCertificateRow "c1" [bs "app.io"] "acme" "t" (Some (days_text 60))). split; vm_compute; reflexivity.
  - split; [exact Ho|exact Hd].
Defined.

(** A certificate with 20 days left serves its host; the sweep that renews it removes it
    from the store and the database first, and when the order then fails the host has
    no certificate. *)
Lemma renewal_gap : let s := acme_state 20 in let s1 := acme_sweep s in
  let s2 := foldl (fun s o => @finish_order (toy []) (file_io true) "/certs" 0 "c2" None o s) s1 (ss_orders s1) in
  has_cert_for_host (fun m => map_to_list m) (ss_certs s) "app.io" = true /\
  length (ss_orders s1) = 1%nat /\ ss_orders s2 = [] /\
  has_cert_for_host (fun m => map_to_list m) (ss_certs s2) "app.io" = false /\ t_certificates (db_tables (ss_db s2)) = [].
Proof. vm_compute. done. Qed.
