(* ===== verification/Dns01.v ===== *)
(** * DNS-01 solvers and certificate orders (tls/dns_01.rs, tls/acme.rs)

    A solver proves control of a domain by setting a TXT record through the API of a
    DNS provider.  Each is a program that sends requests and reads the answers
    ([Prog]); what a provider answers is not part of the program.  The order of a certificate
    drives a solver, or the HTTP-01 token store, through the ACME client library. *)

From S2P Require Import Prelude RustStr Ip GeoIp Waf Bot Captcha Security Edge EdgeAuth ProxyConfig CertStore AutoSsl.

(** ** Answers and requests *)

(** JSON values as the solvers read them: of the numbers only integers. *)
#[warnings="-register-all"]
Inductive Json : Type :=
| JNull
| JBool (b : bool)
| JNum (z : Z)
| JStr (s : str)
| JArr (l : list Json)
| JObj (l : list (str * Json)).

Definition jget (key : str) (j : Json) : option Json :=
  match j with JObj l => snd <$> List.find (fun kv => kv.1 =s key) l | _ => None end.
Definition as_str (j : Json) : option str := match j with JStr s => Some s | _ => None end.
Definition as_array (j : Json) : option (list Json) := match j with JArr l => Some l | _ => None end.
Definition as_int (j : Json) : option Z := match j with JNum z => Some z | _ => None end.
Definition as_bool (j : Json) : option bool := match j with JBool b => Some b | _ => None end.
Definition field (key : str) (j : Json) : option str := jget key j ≫= as_str.

Inductive Verb : Type := Get | Post | Put | Delete.
Inductive Body : Type := NoBody | JsonBody (j : Json) | FormBody (l : list (str * str)).

Record HttpRequest := mkHttp {
  rq_verb : Verb;
  rq_url : str;
  rq_query : list (str * str);
  rq_headers : list (str * str);
  rq_body : Body;
}.

(** The two ways to read an answer; no solver looks at the status. *)
Record HttpAnswer := mkHttpAnswer { rp_json : result str Json; rp_text : result str str }.

Record AwsConfig := mkAwsConfig { aws_key : str; aws_secret : str; aws_token : option str; aws_region : str }.

(** The AWS library and the Google token library have calls of their own. *)
Inductive Request : Type -> Type :=
| Http (r : HttpRequest) : Request HttpAnswer
| ListHostedZones (c : AwsConfig) (dns_name : str) : Request (list (str * str))
| UpsertTxt (c : AwsConfig) (zone_id name value : str) : Request unit
| ServiceAccountToken (service_account_json scope : str) : Request str.

(** ** Programs *)

Inductive Prog (A : Type) : Type :=
| Ret (a : A)
| Fail (e : str)
| Send (X : Type) (r : Request X) (k : result str X -> Prog A).
Arguments Ret {A} a.
Arguments Fail {A} e.
Arguments Send {A X} r k.

Fixpoint prog_bind_def {A B} (f : A -> Prog B) (m : Prog A) : Prog B :=
  match m with
  | Ret a => f a
  | Fail e => Fail e
  | Send r k => Send r (fun x => prog_bind_def f (k x))
  end.
#[export] Instance prog_ret : MRet Prog := @Ret.
#[export] Instance prog_bind : MBind Prog := @prog_bind_def.

(** [.send().await.map_err(..)?]. *)
Definition send {X} (r : Request X) : Prog X := Send r (fun x => match x with Ok a => Ret a | Err e => Fail e end).
(** [let _ = ...send().await]. *)
Definition send_ignored {X} (r : Request X) : Prog unit := Send r (fun _ => Ret tt).
Definition lift {A} (r : result str A) : Prog A := match r with Ok a => Ret a | Err e => Fail e end.
Definition need {A} (o : option A) (e : str) : Prog A := match o with Some a => Ret a | None => Fail e end.
Definition send_json (r : HttpRequest) : Prog Json := p ← send (Http r); lift (rp_json p).
Definition send_text (r : HttpRequest) : Prog str := p ← send (Http r); lift (rp_text p).

Fixpoint each {A} (f : A -> Prog unit) (l : list A) : Prog unit :=
  match l with [] => Ret tt | a :: l => _ ← f a; each f l end.

(** ** Names and zones *)

Definition is_dot (c : byte) : bool := is_byte "." c.
Definition strip_dots (s : str) : str := trim_end_matches is_dot s.
Definition normalize_fqdn (fqdn : str) : str := strip_dots fqdn.

Definition in_zone (fqdn zone : str) : bool := (fqdn =s zone) || ends_with (bs "." ++ zone) fqdn.

Definition best_zone_for_fqdn (fqdn : str) (zones : list str) : option str :=
  let fqdn := normalize_fqdn fqdn in
  foldl (fun best zone =>
    let z := strip_dots zone in
    if in_zone fqdn z && from_option (fun b => (length b <? length z)%nat) true best then Some z else best) None zones.

(** [trim_end_matches] with a string: as long as it is a suffix. *)
Fixpoint trim_end_str_go (fuel : nat) (pat s : str) : str :=
  match fuel, strip_suffix pat s with
  | S fuel, Some s' => trim_end_str_go fuel pat s'
  | _, _ => s
  end.
Definition trim_end_str (pat s : str) : str := trim_end_str_go (length s) pat s.

Definition relative_record_name (fqdn zone : str) : str :=
  let fqdn := normalize_fqdn fqdn in
  let zone := strip_dots zone in
  if fqdn =s zone then [] else strip_dots (trim_end_str (bs "." ++ zone) fqdn).

Definition or_at (name : str) : str := if is_empty name then bs "@" else name.

(** The last two labels. *)
Definition last_two (parts : list str) : str := join "." (drop (length parts - 2) parts).
Definition labels (s : str) : list str := filter (fun l => negb (is_empty l)) (split_on "." s).

(** ** Solvers *)

Inductive Solver : Type :=
| Cloudflare (api_token : str) (zone_id : option str)
| DigitalOcean (token : str)
| Route53 (aws : AwsConfig) (zone_id zone_name : option str)
| GoDaddy (api_key api_secret : str)
| Linode (api_token : str)
| Hetzner (api_token : str)
| DuckDns (token domain : str)
| Namecheap (api_user api_key username client_ip domain : str)
| Ovh (application_key application_secret consumer_key : str)
| GoogleCloudDns (project_id service_account_json : str) (managed_zone : option str)
| AzureDns (tenant_id client_id client_secret subscription_id resource_group zone_name : str)
| Gandi (api_token : str).

Definition nonblank_trimmed (o : option str) : option str := opt_filter (fun s => negb (is_empty s)) (trim <$> o).

Definition solver_for_provider (to_lowercase : str -> str) (provider_type : str) (c : gmap str str) : result str Solver :=
  let t := to_lowercase provider_type in
  let get key := c !! bs key in
  let req (o : option str) (e : str) (k : str -> result str Solver) := match o with Some v => k v | None => Err e end in
  if t =s "cloudflare" then
    req (or_else (get "api_token") (get "APIToken")) "cloudflare: missing api_token" (fun token =>
      Ok (Cloudflare token (trim <$> opt_filter (fun s => negb (is_empty (trim s)) && negb (contains_byte "@" s))
                                      (or_else (get "zone_id") (get "ZoneId")))))
  else if t =s "digitalocean" then
    req (or_else (get "token") (get "api_token")) "digitalocean: missing token" (fun token => Ok (DigitalOcean token))
  else if (t =s "route53") || (t =s "aws") then
    req (or_else (get "access_key_id") (get "access_key")) "route53: missing access_key_id" (fun key =>
    req (or_else (get "secret_access_key") (get "secret_key")) "route53: missing secret_access_key" (fun secret =>
      Ok (Route53 (mkAwsConfig key secret (nonblank_trimmed (get "session_token"))
                     (default (bs "us-east-1") (nonblank_trimmed (get "region"))))
            (nonblank_trimmed (get "zone_id")) (nonblank_trimmed (get "zone_name")))))
  else if t =s "godaddy" then
    req (get "api_key") "godaddy: missing api_key" (fun key =>
    req (get "api_secret") "godaddy: missing api_secret" (fun secret => Ok (GoDaddy key secret)))
  else if t =s "linode" then
    req (or_else (get "api_token") (get "token")) "linode: missing api_token" (fun token => Ok (Linode token))
  else if t =s "hetzner" then
    req (or_else (get "api_token") (get "token")) "hetzner: missing api_token" (fun token => Ok (Hetzner token))
  else if t =s "duckdns" then
    req (get "token") "duckdns: missing token" (fun token =>
    req (get "domain") "duckdns: missing domain" (fun domain => Ok (DuckDns token domain)))
  else if t =s "namecheap" then
    req (get "api_user") "namecheap: missing api_user" (fun user =>
    req (get "api_key") "namecheap: missing api_key" (fun key =>
    req (get "username") "namecheap: missing username" (fun username =>
    req (get "client_ip") "namecheap: missing client_ip" (fun ip =>
    req (get "domain") "namecheap: missing domain" (fun domain => Ok (Namecheap user key username ip domain))))))
  else if t =s "ovh" then
    req (get "application_key") "ovh: missing application_key" (fun key =>
    req (get "application_secret") "ovh: missing application_secret" (fun secret =>
    req (get "consumer_key") "ovh: missing consumer_key" (fun consumer => Ok (Ovh key secret consumer))))
  else if t =s "googleclouddns" then
    req (get "project_id") "googleclouddns: missing project_id" (fun project =>
    req (or_else (get "service_account_json") (get "service_account_key")) "googleclouddns: missing service_account_json" (fun json =>
      Ok (GoogleCloudDns project json (nonblank_trimmed (get "managed_zone")))))
  else if t =s "azure" then
    req (get "tenant_id") "azure: missing tenant_id" (fun tenant =>
    req (get "client_id") "azure: missing client_id" (fun client =>
    req (get "client_secret") "azure: missing client_secret" (fun secret =>
    req (get "subscription_id") "azure: missing subscription_id" (fun sub =>
    req (get "resource_group") "azure: missing resource_group" (fun group =>
    req (get "zone_name") "azure: missing zone_name" (fun zone => Ok (AzureDns tenant client secret sub group zone)))))))
  else if t =s "gandi" then
    req (or_else (get "api_token") (get "token")) "gandi: missing api_token" (fun token => Ok (Gandi token))
  else
    Err (bs "unsupported DNS provider type: " ++ provider_type
         ++ bs " (supported: cloudflare, route53, digitalocean, godaddy, linode, hetzner, duckdns, namecheap, ovh, googleclouddns, azure, gandi)").

(** *** Setting a record *)

(** What the XML reader reports of a text, up to its end. *)
Inductive XmlEvent : Type := XElement (name : str) (attributes : list (str * str)) | XOther | XError (e : str).

Section set_txt.
(** [serde_json::Value::to_string], SHA-1 in hexadecimal, and the XML reader. *)
Variable json_text : Json -> str.
Variable sha1_hex : str -> str.
Variable xml_events : str -> list XmlEvent.

Definition bearer_header (token : str) : list (str * str) := [(bs "Authorization", bs "Bearer " ++ token)].
Definition no_query : list (str * str) := [].

(** The names of the listed zones. *)
Definition names (key : str) (l : list Json) : list str := omap (field key) l.
Definition zone_named (key zone : str) (l : list Json) : option Json :=
  List.find (fun d => bool_decide (field key d = Some zone)) l.

Definition ACME_PREFIX : str := bs "_acme-challenge.".
Definition without_prefix (fqdn : str) : str := default fqdn (strip_prefix ACME_PREFIX fqdn).

(** Cloudflare. *)

Definition cf_url (zone_id : str) : str := bs "https://api.cloudflare.com/client/v4/zones/" ++ zone_id ++ bs "/dns_records".

Definition cf_zone (token fqdn : str) (zone_id : option str) : Prog str :=
  match opt_filter (fun z => negb (contains_byte "@" z)) zone_id with
  | Some z => Ret z
  | None =>
    let domain := strip_dots (without_prefix fqdn) in
    let parts := labels domain in
    let zone_name := if (2 <=? length parts)%nat then last_two parts else domain in
    list ← send_json (mkHttp Get "https://api.cloudflare.com/client/v4/zones" [(bs "name", zone_name)] (bearer_header token) NoBody);
    results ← need (jget "result" list ≫= as_array) "invalid response";
    first ← need (head results) (bs "zone not found for " ++ zone_name);
    need (field "id" first) "zone id missing"
  end.

Definition cf_record (token zone_id fqdn value : str) : HttpRequest :=
  mkHttp Post (cf_url zone_id) no_query (bearer_header token)
    (JsonBody (JObj [(bs "type", JStr "TXT"); (bs "name", JStr fqdn); (bs "content", JStr value); (bs "ttl", JNum 60)])).

Definition set_txt_cloudflare (token : str) (zone_id : option str) (fqdn value : str) : Prog unit :=
  let fqdn := strip_dots fqdn in
  zone_id ← cf_zone token fqdn zone_id;
  list ← send_json (mkHttp Get (cf_url zone_id) [(bs "type", bs "TXT"); (bs "name", fqdn)] (bearer_header token) NoBody);
  _ ← each (fun rec =>
    match field "id" rec with
    | Some id => _ ← send (Http (mkHttp Delete (cf_url zone_id ++ bs "/" ++ id) no_query (bearer_header token) NoBody)); Ret tt
    | None => Ret tt
    end) (default [] (jget "result" list ≫= as_array));
  resp ← send_json (cf_record token zone_id fqdn value);
  if bool_decide ((jget "success" resp ≫= as_bool) = Some false) then
    Fail (default (bs "unknown Cloudflare error") (a ← jget "errors" resp ≫= as_array; o ← head a; field "message" o))
  else Ret tt.

(** DigitalOcean. *)

Definition do_record (token zone name value : str) : HttpRequest :=
  mkHttp Post (bs "https://api.digitalocean.com/v2/domains/" ++ zone ++ bs "/records") no_query (bearer_header token)
    (JsonBody (JObj [(bs "type", JStr "TXT"); (bs "name", JStr name); (bs "data", JStr value); (bs "ttl", JNum 60)])).

Definition set_txt_digitalocean (token fqdn value : str) : Prog unit :=
  let domain := without_prefix fqdn in
  list ← send_json (mkHttp Get "https://api.digitalocean.com/v2/domains" no_query (bearer_header token) NoBody);
  domains ← need (jget "domains" list ≫= as_array) "invalid response";
  zone ← need (best_zone_for_fqdn domain (names "name" domains)) (bs "domain not found in DigitalOcean account for " ++ domain);
  obj ← need (zone_named "name" zone domains) (bs "zone " ++ zone ++ bs " not found");
  domain_name ← need (field "name" obj) "domain name missing";
  _ ← send_json (do_record token domain_name (relative_record_name fqdn domain_name) value);
  Ret tt.

(** Route 53. *)

(** [trim_start_matches("/hostedzone/")]: as long as it is a prefix. *)
Fixpoint trim_start_str_go (fuel : nat) (pat s : str) : str :=
  match fuel, strip_prefix pat s with
  | S fuel, Some s' => trim_start_str_go fuel pat s'
  | _, _ => s
  end.
Definition zone_id_of (id : str) : str := trim_start_str_go (length id) "/hostedzone/" id.

Definition resolve_zone_id (aws : AwsConfig) (zone_id zone_name : option str) (fqdn : str) : Prog str :=
  match zone_id with
  | Some z => Ret (zone_id_of z)
  | None =>
    zone_name ←
      match zone_name with
      | Some n => Ret n
      | None =>
        let parts := labels (normalize_fqdn fqdn) in
        if (length parts <? 2)%nat then Fail "route53: unable to infer zone name" else Ret (last_two parts)
      end;
    zones ← send (ListHostedZones aws zone_name);
    match List.find (fun z : str * str => strip_dots z.1 =s strip_dots zone_name) zones with
    | Some (_, id) => Ret (zone_id_of id)
    | None => Fail (bs "route53: hosted zone not found for " ++ zone_name)
    end
  end.

Definition dquoted (s : str) : str := x22 :: s ++ [x22].

Definition set_txt_route53 (aws : AwsConfig) (zone_id zone_name : option str) (fqdn value : str) : Prog unit :=
  zone_id ← resolve_zone_id aws zone_id zone_name fqdn;
  send (UpsertTxt aws zone_id (normalize_fqdn fqdn ++ bs ".") (dquoted value)).

(** GoDaddy. *)

Definition gd_headers (key secret : str) : list (str * str) := [(bs "Authorization", bs "sso-key " ++ key ++ bs ":" ++ secret)].
Definition gd_record (key secret zone name value : str) : HttpRequest :=
  mkHttp Put (bs "https://api.godaddy.com/v1/domains/" ++ zone ++ bs "/records/TXT/" ++ or_at name) no_query (gd_headers key secret)
    (JsonBody (JArr [JObj [(bs "data", JStr value); (bs "ttl", JNum 600)]])).

Definition set_txt_godaddy (key secret fqdn value : str) : Prog unit :=
  domains ← send_json (mkHttp Get "https://api.godaddy.com/v1/domains" no_query (gd_headers key secret) NoBody);
  list ← need (as_array domains) "godaddy: invalid response";
  zone ← need (best_zone_for_fqdn fqdn (names "domain" list)) "godaddy: zone not found";
  _ ← send (Http (gd_record key secret zone (relative_record_name fqdn zone) value));
  Ret tt.

(** Linode. *)

Definition li_url (zone_id : Z) : str := bs "https://api.linode.com/v4/domains/" ++ show_Z zone_id ++ bs "/records".
Definition li_record (token : str) (zone_id : Z) (name value : str) : HttpRequest :=
  mkHttp Post (li_url zone_id) no_query (bearer_header token)
    (JsonBody (JObj [(bs "type", JStr "TXT"); (bs "name", JStr name); (bs "target", JStr value); (bs "ttl_sec", JNum 60)])).

Definition set_txt_linode (token fqdn value : str) : Prog unit :=
  list ← send_json (mkHttp Get "https://api.linode.com/v4/domains" [(bs "page_size", bs "500")] (bearer_header token) NoBody);
  domains ← need (jget "data" list ≫= as_array) "linode: invalid response";
  zone ← need (best_zone_for_fqdn fqdn (names "domain" domains)) "linode: zone not found";
  zone_id ← need (d ← zone_named "domain" zone domains; jget "id" d ≫= as_int) "linode: zone id missing";
  let name := relative_record_name fqdn zone in
  existing ← send_json (mkHttp Get (li_url zone_id) [(bs "type", bs "TXT"); (bs "name", name)] (bearer_header token) NoBody);
  _ ← each (fun rec =>
    match jget "id" rec ≫= as_int with
    | Some id => send_ignored (Http (mkHttp Delete (li_url zone_id ++ bs "/" ++ show_Z id) no_query (bearer_header token) NoBody))
    | None => Ret tt
    end) (default [] (jget "data" existing ≫= as_array));
  _ ← send (Http (li_record token zone_id name value));
  Ret tt.

(** Hetzner. *)

Definition hz_headers (token : str) : list (str * str) := [(bs "Auth-API-Token", token)].
Definition HZ_RECORDS : str := bs "https://dns.hetzner.com/api/v1/records".
Definition hz_record (token zone_id name value : str) : HttpRequest :=
  mkHttp Post HZ_RECORDS no_query (hz_headers token)
    (JsonBody (JObj [(bs "zone_id", JStr zone_id); (bs "type", JStr "TXT"); (bs "name", JStr name); (bs "value", JStr value);
                     (bs "ttl", JNum 60)])).

Definition set_txt_hetzner (token fqdn value : str) : Prog unit :=
  list ← send_json (mkHttp Get "https://dns.hetzner.com/api/v1/zones" no_query (hz_headers token) NoBody);
  zones ← need (jget "zones" list ≫= as_array) "hetzner: invalid response";
  zone ← need (best_zone_for_fqdn fqdn (names "name" zones)) "hetzner: zone not found";
  zone_id ← need (z ← zone_named "name" zone zones; field "id" z) "hetzner: zone id missing";
  let name := relative_record_name fqdn zone in
  records ← send_json (mkHttp Get HZ_RECORDS [(bs "zone_id", zone_id)] (hz_headers token) NoBody);
  _ ← each (fun rec =>
    if bool_decide (field "type" rec = Some (bs "TXT")) && bool_decide (field "name" rec = Some name) then
      match field "id" rec with
      | Some id => send_ignored (Http (mkHttp Delete (HZ_RECORDS ++ bs "/" ++ id) no_query (hz_headers token) NoBody))
      | None => Ret tt
      end
    else Ret tt) (default [] (jget "records" records ≫= as_array));
  _ ← send (Http (hz_record token zone_id name value));
  Ret tt.

(** DuckDNS: the whole domain has one TXT record. *)

Definition duck_update (token domain value : str) : HttpRequest :=
  mkHttp Get "https://www.duckdns.org/update"
    [(bs "domains", domain); (bs "token", token); (bs "txt", value); (bs "clear", bs "true")] [] NoBody.

Definition set_txt_duckdns (token domain value : str) : Prog unit :=
  resp ← send_text (duck_update token domain value);
  if trim resp =s "OK" then Ret tt else Fail (bs "duckdns: update failed: " ++ trim resp).

(** Namecheap: all records of the domain are replaced at once. *)

Record NamecheapHostRecord := mkHostRecord {
  nh_name : str; nh_type : str; nh_address : str; nh_ttl : str; nh_mx_pref : str }.

Definition sld_tld (domain : str) : result str (str * str) :=
  match split_on "." (strip_dots domain) with
  | sld :: ((_ :: _) as tld) => Ok (sld, join "." tld)
  | _ => Err (bs "namecheap: invalid domain")
  end.

Definition nc_params (user key username ip : str) (st : str * str) (command : str) : list (str * str) :=
  [(bs "ApiUser", user); (bs "ApiKey", key); (bs "UserName", username); (bs "ClientIp", ip); (bs "Command", command);
   (bs "SLD", st.1); (bs "TLD", st.2)].

(** The last value of an attribute counts. *)
Definition attr (attrs : list (str * str)) (key dflt : str) : str :=
  foldl (fun acc kv => if kv.1 =s key then kv.2 else acc) dflt attrs.

Fixpoint read_hosts (evs : list XmlEvent) : result str (list NamecheapHostRecord) :=
  match evs with
  | [] => Ok []
  | XError e :: _ => Err (bs "namecheap: failed to parse response: " ++ e)
  | XElement name attrs :: evs =>
    match read_hosts evs with
    | Err e => Err e
    | Ok l =>
      let n := attr attrs "Name" [] in let ty := attr attrs "Type" [] in
      if (name =s "host") && negb (is_empty n) && negb (is_empty ty) then
        Ok (mkHostRecord n ty (attr attrs "Address" []) (attr attrs "TTL" "60") (attr attrs "MXPref" "10") :: l)
      else Ok l
    end
  | XOther :: evs => read_hosts evs
  end.

Definition NC_URL : str := bs "https://api.namecheap.com/xml.response".

Definition get_hosts (user key username ip domain : str) : Prog (list NamecheapHostRecord) :=
  st ← lift (sld_tld domain);
  resp ← send_text (mkHttp Get NC_URL (nc_params user key username ip st "namecheap.domains.dns.getHosts") [] NoBody);
  lift (read_hosts (xml_events resp)).

Definition host_params (i : nat) (h : NamecheapHostRecord) : list (str * str) :=
  let n := show_N (N.of_nat (S i)) in
  [(bs "HostName" ++ n, nh_name h); (bs "RecordType" ++ n, nh_type h); (bs "Address" ++ n, nh_address h);
   (bs "TTL" ++ n, nh_ttl h); (bs "MXPref" ++ n, nh_mx_pref h)].

Definition nc_set (user key username ip : str) (st : str * str) (hosts : list NamecheapHostRecord) : HttpRequest :=
  mkHttp Get NC_URL (nc_params user key username ip st "namecheap.domains.dns.setHosts" ++ mjoin (imap host_params hosts)) [] NoBody.

Definition set_hosts (user key username ip domain : str) (hosts : list NamecheapHostRecord) : Prog unit :=
  st ← lift (sld_tld domain);
  _ ← send (Http (nc_set user key username ip st hosts));
  Ret tt.

Definition with_txt (name value : str) (hosts : list NamecheapHostRecord) : list NamecheapHostRecord :=
  filter (fun h => (nh_type h =s "TXT") && (nh_name h =s name) = false) hosts ++ [mkHostRecord name "TXT" value "60" "10"].

Definition set_txt_namecheap (user key username ip domain fqdn value : str) : Prog unit :=
  let name := or_at (relative_record_name fqdn domain) in
  hosts ← get_hosts user key username ip domain;
  set_hosts user key username ip domain (with_txt name value hosts).

(** OVH: every request is signed with the server's time. *)

Definition verb_name (v : Verb) : str :=
  match v with Get => bs "GET" | Post => bs "POST" | Put => bs "PUT" | Delete => bs "DELETE" end.

Definition ovh_signature (secret consumer : str) (method url body timestamp : str) : str :=
  bs "$1$" ++ sha1_hex (join "+" [secret; consumer; method; url; body; timestamp]).

Definition ovh_signed (key secret consumer timestamp : str) (v : Verb) (url : str) (body : option Json) : HttpRequest :=
  let body_str := from_option json_text [] body in
  mkHttp v url no_query
    [(bs "X-Ovh-Application", key); (bs "X-Ovh-Consumer", consumer); (bs "X-Ovh-Timestamp", timestamp);
     (bs "X-Ovh-Signature", ovh_signature secret consumer (verb_name v) url body_str timestamp)]
    (match body with Some j => JsonBody j | None => NoBody end).

Definition ovh_request (key secret consumer : str) (v : Verb) (url : str) (body : option Json) : Prog HttpAnswer :=
  timestamp ← send_text (mkHttp Get "https://api.ovh.com/1.0/auth/time" no_query [] NoBody);
  send (Http (ovh_signed key secret consumer timestamp v url body)).

(** The same, with the outcome ignored. *)
Definition ovh_request_ignored (key secret consumer : str) (v : Verb) (url : str) : Prog unit :=
  Send (Http (mkHttp Get "https://api.ovh.com/1.0/auth/time" no_query [] NoBody)) (fun x =>
    match x with
    | Ok p => match rp_text p with Ok timestamp => send_ignored (Http (ovh_signed key secret consumer timestamp v url None)) | Err _ => Ret tt end
    | Err _ => Ret tt
    end).

Definition OVH_ZONE : str := bs "https://api.ovh.com/1.0/domain/zone".
Definition ovh_record_url (zone : str) : str := OVH_ZONE ++ bs "/" ++ zone ++ bs "/record".
Definition ovh_record (name value : str) : Json :=
  JObj [(bs "fieldType", JStr "TXT"); (bs "subDomain", JStr name); (bs "target", JStr value); (bs "ttl", JNum 60)].

Definition set_txt_ovh (key secret consumer fqdn value : str) : Prog unit :=
  let request := ovh_request key secret consumer in
  r ← request Get OVH_ZONE None;
  zones_resp ← lift (rp_json r);
  zones ← need (as_array zones_resp) "ovh: invalid response";
  zone ← need (best_zone_for_fqdn fqdn (omap as_str zones)) "ovh: zone not found";
  let name := relative_record_name fqdn zone in
  r ← request Get (ovh_record_url zone ++ bs "?fieldType=TXT&subDomain=" ++ name) None;
  existing ← lift (rp_json r);
  _ ← each (fun id =>
    match as_int id with
    | Some id => ovh_request_ignored key secret consumer Delete (ovh_record_url zone ++ bs "/" ++ show_Z id)
    | None => Ret tt
    end) (default [] (as_array existing));
  _ ← request Post (ovh_record_url zone) (Some (ovh_record name value));
  _ ← request Post (OVH_ZONE ++ bs "/" ++ zone ++ bs "/refresh") None;
  Ret tt.

(** Google Cloud DNS. *)

Definition gc_url (project : str) : str := bs "https://dns.googleapis.com/dns/v1/projects/" ++ project ++ bs "/managedZones".

Definition access_token (json : str) : Prog str :=
  token ← send (ServiceAccountToken json "https://www.googleapis.com/auth/ndev.clouddns.readwrite");
  if is_empty token then Fail "googleclouddns: token missing" else Ret token.

Definition resolve_zone (project : str) (managed_zone : option str) (fqdn token : str) : Prog str :=
  match managed_zone with
  | Some z => Ret z
  | None =>
    let fqdn := normalize_fqdn fqdn in
    let parts := labels fqdn in
    if (length parts <? 2)%nat then Fail "googleclouddns: unable to infer zone name"
    else
      resp ← send_json (mkHttp Get (gc_url project) [(bs "dnsName", last_two parts ++ bs ".")] (bearer_header token) NoBody);
      zones ← need (jget "managedZones" resp ≫= as_array) "googleclouddns: invalid response";
      best ← need (best_zone_for_fqdn fqdn (strip_dots <$> names "dnsName" zones)) "googleclouddns: zone not found";
      need (z ← List.find (fun z => from_option (fun n => strip_dots n =s best) false (field "dnsName" z)) zones; field "name" z)
        "googleclouddns: zone id missing"
  end.

Definition gc_change (project zone token fqdn value : str) (deletion : option Json) : HttpRequest :=
  mkHttp Post (gc_url project ++ bs "/" ++ zone ++ bs "/changes") no_query (bearer_header token)
    (JsonBody (JObj
      ((bs "additions", JArr [JObj [(bs "name", JStr fqdn); (bs "type", JStr "TXT"); (bs "ttl", JNum 60);
                                    (bs "rrdatas", JArr [JStr (dquoted value)])]])
       :: match deletion with Some d => [(bs "deletions", JArr [d])] | None => [] end))).

Definition set_txt_google (project json : str) (managed_zone : option str) (fqdn value : str) : Prog unit :=
  token ← access_token json;
  zone ← resolve_zone project managed_zone fqdn token;
  let fqdn := normalize_fqdn fqdn ++ bs "." in
  existing ← send_json (mkHttp Get (gc_url project ++ bs "/" ++ zone ++ bs "/rrsets") [(bs "name", fqdn); (bs "type", bs "TXT")]
                          (bearer_header token) NoBody);
  _ ← send (Http (gc_change project zone token fqdn value (l ← jget "rrsets" existing ≫= as_array; head l)));
  Ret tt.

(** Azure. *)

Definition az_token (tenant client secret : str) : Prog str :=
  resp ← send_json (mkHttp Post (bs "https://login.microsoftonline.com/" ++ tenant ++ bs "/oauth2/v2.0/token") no_query []
    (FormBody [(bs "client_id", client); (bs "client_secret", secret); (bs "scope", bs "https://management.azure.com/.default");
               (bs "grant_type", bs "client_credentials")]));
  need (field "access_token" resp) "azure: token missing".

Definition az_record (sub group zone token name value : str) : HttpRequest :=
  mkHttp Put (bs "https://management.azure.com/subscriptions/" ++ sub ++ bs "/resourceGroups/" ++ group
              ++ bs "/providers/Microsoft.Network/dnsZones/" ++ zone ++ bs "/TXT/" ++ or_at name ++ bs "?api-version=2018-05-01")
    no_query (bearer_header token)
    (JsonBody (JObj [(bs "properties", JObj [(bs "TTL", JNum 60); (bs "TXTRecords", JArr [JObj [(bs "value", JArr [JStr value])]])])])).

Definition set_txt_azure (tenant client secret sub group zone fqdn value : str) : Prog unit :=
  token ← az_token tenant client secret;
  _ ← send (Http (az_record sub group zone token (relative_record_name fqdn zone) value));
  Ret tt.

(** Gandi. *)

Definition ga_headers (token : str) : list (str * str) := [(bs "Authorization", bs "Apikey " ++ token)].
Definition ga_record (token zone name value : str) : HttpRequest :=
  mkHttp Put (bs "https://api.gandi.net/v5/livedns/domains/" ++ zone ++ bs "/records/" ++ or_at name ++ bs "/TXT") no_query
    (ga_headers token) (JsonBody (JObj [(bs "rrset_ttl", JNum 60); (bs "rrset_values", JArr [JStr value])])).

Definition set_txt_gandi (token fqdn value : str) : Prog unit :=
  list ← send_json (mkHttp Get "https://api.gandi.net/v5/livedns/domains" no_query (ga_headers token) NoBody);
  domains ← need (as_array list) "gandi: invalid response";
  zone ← need (best_zone_for_fqdn fqdn (names "fqdn" domains)) "gandi: zone not found";
  _ ← send (Http (ga_record token zone (relative_record_name fqdn zone) value));
  Ret tt.

Definition set_txt (s : Solver) (fqdn value : str) : Prog unit :=
  match s with
  | Cloudflare token zone_id => set_txt_cloudflare token zone_id fqdn value
  | DigitalOcean token => set_txt_digitalocean token fqdn value
  | Route53 aws zone_id zone_name => set_txt_route53 aws zone_id zone_name fqdn value
  | GoDaddy key secret => set_txt_godaddy key secret fqdn value
  | Linode token => set_txt_linode token fqdn value
  | Hetzner token => set_txt_hetzner token fqdn value
  | DuckDns token domain => set_txt_duckdns token domain value
  | Namecheap user key username ip domain => set_txt_namecheap user key username ip domain fqdn value
  | Ovh key secret consumer => set_txt_ovh key secret consumer fqdn value
  | GoogleCloudDns project json zone => set_txt_google project json zone fqdn value
  | AzureDns tenant client secret sub group zone => set_txt_azure tenant client secret sub group zone fqdn value
  | Gandi token => set_txt_gandi token fqdn value
  end.

End set_txt.
