(* ===== verification/Dns01Props.v ===== *)
(** * What the DNS-01 solvers guarantee

    Theorems about [Dns01]: the zone chosen is the most specific one; whatever the
    provider answers, which TXT record a solver that reports success has set, and
    exactly when that is the record of the name it was asked for. *)

From S2P Require Import Prelude RustStr Ip GeoIp Waf Bot Captcha Security Edge EdgeAuth ProxyConfig CertStore AutoSsl Dns01.

(** ** Zones *)

Lemma in_zone_spec fqdn zone : in_zone fqdn zone = true <-> fqdn = zone \/ exists rel, fqdn = rel ++ "."%byte :: zone.
Proof. unfold in_zone. rewrite orb_true_iff, str_eqb_eq, ends_with_true. done. Qed.

(** The candidates of the search: the listed zones the name lies in. *)
Definition zone_candidate (fqdn : str) (zones : list str) (z : str) : Prop :=
  in_zone (normalize_fqdn fqdn) z = true /\ exists zone, zone ∈ zones /\ z = strip_dots zone.

(** [best] is a longest candidate. *)
Definition longest_candidate (fqdn : str) (zones : list str) (best : option str) : Prop :=
  match best with
  | Some z => zone_candidate fqdn zones z /\ forall z', zone_candidate fqdn zones z' -> (length z' <= length z)%nat
  | None => forall z', ~ zone_candidate fqdn zones z'
  end.

Lemma zone_candidate_snoc fqdn zones zone z :
  zone_candidate fqdn (zones ++ [zone]) z <->
  zone_candidate fqdn zones z \/ (z = strip_dots zone /\ in_zone (normalize_fqdn fqdn) z = true).
Proof.
  unfold zone_candidate. setoid_rewrite elem_of_app. setoid_rewrite list_elem_of_singleton. naive_solver.
Qed.

Lemma best_zone_longest fqdn zones : longest_candidate fqdn zones (best_zone_for_fqdn fqdn zones).
Proof.
  unfold best_zone_for_fqdn. induction zones as [|zone zones IH] using rev_ind.
  - intros z' (_ & zone & Hz & _). by apply not_elem_of_nil in Hz.
  - rewrite foldl_app. cbn [foldl]. set (best := foldl _ None zones) in *.
    destruct (in_zone (normalize_fqdn fqdn) (strip_dots zone)) eqn:Ez; cbn [andb]; [destruct best as [b|]; cbn [from_option]|].
    + destruct IH as [Hb Hlong]. destruct (_ <? _)%nat eqn:El; [apply Nat.ltb_lt in El|apply Nat.ltb_ge in El]; cbn.
      * split; [apply zone_candidate_snoc; by right|]. intros z' [Hz|[-> _]]%zone_candidate_snoc; [|done].
        specialize (Hlong _ Hz). lia.
      * split; [apply zone_candidate_snoc; by left|]. intros z' [Hz|[-> _]]%zone_candidate_snoc; [by apply Hlong|done].
    + cbn. split; [apply zone_candidate_snoc; by right|]. intros z' [Hz|[-> _]]%zone_candidate_snoc; [|done]. by apply IH in Hz.
    + destruct best as [b|]; cbn in *.
      * destruct IH as [Hb Hlong]. split; [apply zone_candidate_snoc; by left|].
        intros z' [Hz|[-> Hi]]%zone_candidate_snoc; [by apply Hlong|]. by rewrite Ez in Hi.
      * intros z' [Hz|[-> Hi]]%zone_candidate_snoc; [by apply IH in Hz|]. by rewrite Ez in Hi.
Qed.

(** ** Record names *)

(** The name of a record relative to its zone, spelled out. *)
Definition absolute (name zone : str) : str :=
  if is_empty name || (name =s "@") then zone else name ++ "."%byte :: zone.

(** No suffix of the name is repeated, and there is no empty label at its end. *)
Definition no_repeat (f : str) : Prop :=
  forall rel zone, f = rel ++ "."%byte :: zone ->
    rel <> [] /\ rel <> bs "@" /\ ends_with (bs "." ++ zone) rel = false /\ ends_with "." rel = false.

Lemma strip_dots_id s : ends_with "." s = false -> strip_dots s = s.
Proof.
  unfold strip_dots, trim_end_matches, ends_with, strip_suffix. destruct s as [|c s _] using rev_ind; [done|].
  rewrite reverse_snoc. change (reverse (bs ".")) with (bs "."). cbn [trim_start_matches strip_prefix bs]. unfold is_dot, is_byte.
  case_bool_decide as Hc; [subst; cbn; by rewrite decide_True|]. intros _. by rewrite reverse_cons, reverse_involutive.
Qed.

Lemma strip_dots_no_dot s : ends_with "." (strip_dots s) = false.
Proof.
  unfold strip_dots, trim_end_matches, ends_with, strip_suffix. rewrite reverse_involutive.
  induction (reverse s) as [|c r IH]; [done|]. cbn [trim_start_matches]. destruct (is_dot c) eqn:Ec; [done|].
  change (reverse (bs ".")) with (bs "."). cbn [strip_prefix bs]. unfold is_dot, is_byte in Ec. apply bool_decide_eq_false_1 in Ec.
  cbn. by rewrite decide_False by congruence.
Qed.

Lemma strip_dots_length s : (length (strip_dots s) <= length s)%nat.
Proof.
  unfold strip_dots, trim_end_matches. rewrite length_reverse, <- (length_reverse s).
  induction (reverse s) as [|c r IH]; [done|]. cbn. destruct (is_dot c); cbn; lia.
Qed.

Lemma trim_end_str_length fuel pat s : (length (trim_end_str_go fuel pat s) <= length s)%nat.
Proof.
  revert s. induction fuel as [|fuel IH]; intros s; [done|]. cbn [trim_end_str_go].
  destruct (strip_suffix pat s) as [s'|] eqn:Es; [|done]. apply strip_suffix_Some in Es as ->. specialize (IH s').
  rewrite length_app. lia.
Qed.

Lemma trim_end_str_app fuel pat s : trim_end_str_go (S fuel) pat (s ++ pat) = trim_end_str_go fuel pat s.
Proof. cbn [trim_end_str_go]. by rewrite (proj2 (strip_suffix_Some pat (s ++ pat) s) eq_refl). Qed.

(** The name is its zone, or a plain name in it: relative to the zone it is neither
    empty nor [@], does not end in a dot, and does not end in the zone once more. *)
Definition plain_under (zone f : str) : Prop :=
  f = zone \/ exists rel, f = rel ++ "."%byte :: zone /\ rel <> [] /\ rel <> bs "@" /\
    ends_with (bs "." ++ zone) rel = false /\ ends_with "." rel = false.

Lemma plain_absolute fqdn zone : plain_under (strip_dots zone) (normalize_fqdn fqdn) ->
  absolute (relative_record_name fqdn zone) (strip_dots zone) = normalize_fqdn fqdn.
Proof.
  unfold relative_record_name. set (f := normalize_fqdn fqdn). set (z := strip_dots zone). intros Hp.
  destruct (f =s z) eqn:Ef; [by apply str_eqb_eq in Ef|].
  destruct Hp as [->|(rel & Hrel & Hne & Hat & Hrep & Hdot)]; [by rewrite str_eqb_refl in Ef|].
  assert (Ht : trim_end_str (bs "." ++ z) f = rel).
  { unfold trim_end_str. rewrite Hrel, length_app. cbn [length]. rewrite Nat.add_succ_r. change ("."%byte :: z) with (bs "." ++ z).
    rewrite trim_end_str_app.
    assert (Hs : strip_suffix (bs "." ++ z) rel = None) by (unfold ends_with in Hrep; by destruct (strip_suffix _ rel)).
    by destruct (length rel + length z)%nat; cbn [trim_end_str_go]; rewrite ?Hs. }
  rewrite Ht, strip_dots_id by done. unfold absolute. destruct rel as [|c rel]; [done|]. cbn [is_empty orb].
  destruct (c :: rel =s "@") eqn:Ea; [by apply str_eqb_eq in Ea|]. by rewrite Hrel.
Qed.

(** The record's name, spelled out, is the name asked for exactly when that is a plain
    one under the zone. *)
Lemma relative_absolute_iff fqdn zone :
  absolute (relative_record_name fqdn zone) (strip_dots zone) = normalize_fqdn fqdn <-> plain_under (strip_dots zone) (normalize_fqdn fqdn).
Proof.
  split; [|apply plain_absolute]. unfold relative_record_name. set (f := normalize_fqdn fqdn). set (z := strip_dots zone).
  destruct (f =s z) eqn:Ef; [intros _; left; by apply str_eqb_eq in Ef|].
  set (T := trim_end_str (bs "." ++ z) f). set (rel := strip_dots T). unfold absolute.
  destruct (is_empty rel || (rel =s "@")) eqn:Er; [intros ->; by left|]. apply orb_false_iff in Er as [Hne Hat].
  intros Hf. right. exists rel. split_and!; [done|by apply is_empty_false| | |apply strip_dots_no_dot].
  { intros He. by rewrite He in Hat. }
  apply not_true_is_false. intros (r & Hr)%ends_with_true.
  pose proof (strip_dots_length T) as Hl. fold rel in Hl. rewrite Hr in Hl.
  assert (HT : (length T <= length r)%nat).
  { unfold T, trim_end_str. rewrite <- Hf, Hr. change ("."%byte :: z) with (bs "." ++ z).
    match goal with |- context [trim_end_str_go ?n _ _] => destruct n as [|[|fuel]] eqn:En end; [rewrite !length_app in En; change (length (bs ".")) with 1%nat in En; lia..|].
    rewrite !trim_end_str_app. apply trim_end_str_length. }
  rewrite !length_app in Hl. change (length (bs ".")) with 1%nat in Hl. lia.
Qed.

Lemma no_repeat_plain zone f : no_repeat f -> in_zone f zone = true -> plain_under zone f.
Proof. intros Hn [->|(rel & Hrel)]%in_zone_spec; [by left|]. right. exists rel. split; [done|]. by apply Hn. Qed.

(** ** Runs *)

(** A request and the answer it got. *)
Inductive Event : Type := mkEvent (X : Type) (r : Request X) (x : result str X).
Arguments mkEvent {X} r x.

(** [m] can send the requests of [tr], get those answers, and end with [res]. *)
Fixpoint runs {A} (m : Prog A) (tr : list Event) (res : result str A) : Prop :=
  match m, tr with
  | Ret a, [] => res = Ok a
  | Fail e, [] => res = Err e
  | Send r k, ev :: tr => exists x, ev = mkEvent r x /\ runs (k x) tr res
  | _, _ => False
  end.

Lemma runs_bind {A B} (f : A -> Prog B) (m : Prog A) tr b : runs (m ≫= f) tr (Ok b) ->
  exists a t1 t2, tr = t1 ++ t2 /\ runs m t1 (Ok a) /\ runs (f a) t2 (Ok b).
Proof.
  revert tr. induction m as [a|e|X r k IH]; intros tr; cbn.
  - intros Hr. by exists a, [], tr.
  - by destruct tr.
  - destruct tr as [|ev tr]; [done|]. intros (x & -> & Hr). destruct (IH _ _ Hr) as (a & t1 & t2 & -> & H1 & H2).
    exists a, (mkEvent r x :: t1), t2. split_and!; [done|by exists x|done].
Qed.

Lemma runs_ret {A} (a b : A) tr : runs (Ret a) tr (Ok b) -> tr = [] /\ b = a.
Proof. destruct tr; cbn; [|done]. by intros [= ->]. Qed.
Lemma runs_fail {A} e tr (b : A) : ~ runs (Fail e) tr (Ok b).
Proof. intros Hr. destruct tr; cbn in Hr; done. Qed.
Lemma runs_need {A} (o : option A) e tr a : runs (need o e) tr (Ok a) -> tr = [] /\ o = Some a.
Proof. destruct o, tr; cbn; intros Hr; naive_solver. Qed.
Lemma runs_lift {A} (r : result str A) tr a : runs (lift r) tr (Ok a) -> tr = [] /\ r = Ok a.
Proof. destruct r, tr; cbn; intros Hr; naive_solver. Qed.
Lemma runs_send {X} (r : Request X) tr x : runs (send r) tr (Ok x) -> tr = [mkEvent r (Ok x)].
Proof.
  destruct tr as [|ev tr]; [done|]. intros (y & -> & Hr). destruct y as [y|e]; [|by apply runs_fail in Hr].
  by apply runs_ret in Hr as [-> ->].
Qed.
Lemma runs_json r tr j : runs (send_json r) tr (Ok j) -> exists p, tr = [mkEvent (Http r) (Ok p)] /\ rp_json p = Ok j.
Proof.
  intros (p & t1 & t2 & -> & H1%runs_send & [-> H2]%runs_lift)%runs_bind. exists p. by rewrite H1.
Qed.

(** Takes the first part of a successful run apart. *)
Ltac pstep H :=
  let a := fresh "a" in let t1 := fresh "t" in let t2 := fresh "t" in let H1 := fresh "H" in
  apply runs_bind in H as (a & t1 & t2 & -> & H1 & H);
  try first
    [ apply runs_need in H1 as [-> H1] | apply runs_lift in H1 as [-> H1] | apply runs_json in H1 as (? & -> & H1)
    | apply runs_send in H1 as -> | apply runs_ret in H1 as [-> ->] ].

(** ** What the requests do *)

Section providers.
Variable json_text : Json -> str.
Variable sha1_hex : str -> str.
Variable xml_events : str -> list XmlEvent.

Abbreviation set_txt := (set_txt json_text sha1_hex xml_events).

(** The trace has an answered request whose answer lists [d] as a zone with that name
    and id. *)
Definition listed_zone (tr : list Event) (zone : str) (name_key list_key : str) (d : Json) : Prop :=
  exists r p j l, mkEvent (Http r) (Ok p) ∈ tr /\ rp_json p = Ok j /\ (jget list_key j ≫= as_array) = Some l /\ d ∈ l /\
    field name_key d = Some zone.

(** [sets_txt s tr r name value]: request [r] of a run [tr] of solver [s] makes [value]
    the TXT record of [name], by the documentation of the provider. *)
Inductive sets_txt (tr : list Event) : Solver -> forall X, Request X -> str -> str -> Prop :=
| sets_cloudflare token z zone_id name value :
    sets_txt tr (Cloudflare token z) _ (Http (cf_record token zone_id name value)) name value
| sets_digitalocean token zone rel value :
    sets_txt tr (DigitalOcean token) _ (Http (do_record token zone rel value)) (absolute rel zone) value
| sets_route53 aws i n zone_id name value :
    sets_txt tr (Route53 aws i n) _ (UpsertTxt aws zone_id (name ++ bs ".") (dquoted value)) name value
| sets_godaddy key secret zone rel value :
    sets_txt tr (GoDaddy key secret) _ (Http (gd_record key secret zone rel value)) (absolute rel zone) value
| sets_linode token d zone id rel value : listed_zone tr zone "domain" "data" d -> (jget "id" d ≫= as_int) = Some id ->
    sets_txt tr (Linode token) _ (Http (li_record token id rel value)) (absolute rel zone) value
| sets_hetzner token d zone id rel value : listed_zone tr zone "name" "zones" d -> field "id" d = Some id ->
    sets_txt tr (Hetzner token) _ (Http (hz_record token id rel value)) (absolute rel zone) value
| sets_duckdns token domain value :
    sets_txt tr (DuckDns token domain) _ (Http (duck_update token domain value)) domain value
| sets_namecheap user key username ip domain st hosts rel value : sld_tld domain = Ok st ->
    sets_txt tr (Namecheap user key username ip domain) _
      (Http (nc_set user key username ip st (with_txt rel value hosts))) (absolute rel (strip_dots domain)) value
| sets_ovh key secret consumer timestamp zone rel value :
    sets_txt tr (Ovh key secret consumer) _
      (Http (ovh_signed json_text sha1_hex key secret consumer timestamp Post (ovh_record_url zone) (Some (ovh_record rel value))))
      (absolute rel zone) value
| sets_google project json z zone token name value deletion :
    sets_txt tr (GoogleCloudDns project json z) _ (Http (gc_change project zone token (name ++ bs ".") value deletion)) name value
| sets_azure tenant client secret sub group zone token rel value :
    sets_txt tr (AzureDns tenant client secret sub group zone) _ (Http (az_record sub group zone token rel value))
      (absolute rel (strip_dots zone)) value
| sets_gandi token zone rel value :
    sets_txt tr (Gandi token) _ (Http (ga_record token zone rel value)) (absolute rel zone) value.

(** The run has set the record. *)
Definition record_set (s : Solver) (tr : list Event) (name value : str) : Prop :=
  exists X (r : Request X) (x : X), mkEvent r (Ok x) ∈ tr /\ sets_txt tr s X r name value.

Lemma best_zone_in fqdn zones z : best_zone_for_fqdn fqdn zones = Some z ->
  in_zone (normalize_fqdn fqdn) z = true /\ strip_dots z = z.
Proof.
  intros Hb. pose proof (best_zone_longest fqdn zones) as Hl. rewrite Hb in Hl. destruct Hl as [(Hi & zone & _ & ->) _].
  split; [done|]. unfold strip_dots, trim_end_matches. rewrite reverse_involutive. f_equal.
  induction (reverse zone) as [|c s IH]; [done|]. cbn. destruct (is_dot c) eqn:Ec; [done|]. cbn. by rewrite Ec.
Qed.

(** The run has set the record of the name relative to a zone it found by searching
    for [searched]. *)
Definition set_in_listed (s : Solver) (tr : list Event) (searched fqdn value : str) : Prop :=
  exists zone, in_zone (normalize_fqdn searched) zone = true /\ strip_dots zone = zone /\
    record_set s tr (absolute (relative_record_name fqdn zone) zone) value.

(** The request is one of the run's. *)
Ltac in_run :=
  first [ apply list_elem_of_singleton; reflexivity | apply elem_of_app; left; in_run | apply elem_of_app; right; in_run ].
Tactic Notation "set_by" uconstr(lem) := do 3 eexists; split; cycle 1; [apply lem | in_run].

Lemma zone_named_listed key zone l d : zone_named key zone l = Some d -> d ∈ l /\ field key d = Some zone.
Proof.
  unfold zone_named. intros [Hin Hf]%List.find_some. split; [by apply list_elem_of_In|]. by apply bool_decide_eq_true_1 in Hf.
Qed.

Lemma cloudflare_sets token z fqdn value tr : runs (set_txt (Cloudflare token z) fqdn value) tr (Ok tt) ->
  record_set (Cloudflare token z) tr (normalize_fqdn fqdn) value.
Proof.
  intros Hr. unfold Dns01.set_txt, set_txt_cloudflare in Hr. do 4 pstep Hr.
  set_by sets_cloudflare.
Qed.

(** The zone of a search over the listing. *)
Ltac use_best :=
  match goal with Hb : best_zone_for_fqdn _ _ = Some ?z |- _ =>
    exists z; split; [apply (best_zone_in _ _ _ Hb)|split; [apply (best_zone_in _ _ _ Hb)|]] end.

Lemma digitalocean_sets token fqdn value tr :
  runs (set_txt (DigitalOcean token) fqdn value) tr (Ok tt) -> set_in_listed (DigitalOcean token) tr (without_prefix fqdn) fqdn value.
Proof.
  intros Hr. unfold Dns01.set_txt, set_txt_digitalocean in Hr. do 6 pstep Hr. use_best.
  match goal with Hz : zone_named _ _ _ = Some _ |- _ => apply zone_named_listed in Hz as [_ Hf] end.
  match goal with Hf' : field _ _ = Some ?n |- context [absolute _ ?z] => assert (n = z) as <- by congruence end.
  set_by sets_digitalocean.
Qed.

Lemma route53_sets aws i n fqdn value tr : runs (set_txt (Route53 aws i n) fqdn value) tr (Ok tt) ->
  record_set (Route53 aws i n) tr (normalize_fqdn fqdn) value.
Proof. intros Hr. unfold Dns01.set_txt, set_txt_route53 in Hr. pstep Hr. apply runs_send in Hr as ->. set_by sets_route53. Qed.

Lemma godaddy_sets key secret fqdn value tr :
  runs (set_txt (GoDaddy key secret) fqdn value) tr (Ok tt) -> set_in_listed (GoDaddy key secret) tr fqdn fqdn value.
Proof.
  intros Hr. unfold Dns01.set_txt, set_txt_godaddy in Hr. do 4 pstep Hr. use_best. set_by sets_godaddy.
Qed.

Lemma listed_id {B} key zone l (f : Json -> option B) b : (d ← zone_named key zone l; f d) = Some b ->
  exists d, d ∈ l /\ field key d = Some zone /\ f d = Some b.
Proof. intros (d & Hz & Hf)%bind_Some. apply zone_named_listed in Hz as [??]. by exists d. Qed.

Lemma linode_sets token fqdn value tr :
  runs (set_txt (Linode token) fqdn value) tr (Ok tt) -> set_in_listed (Linode token) tr fqdn fqdn value.
Proof.
  intros Hr. unfold Dns01.set_txt, set_txt_linode in Hr. do 7 pstep Hr. use_best.
  match goal with Hi : (_ ← zone_named _ _ _; _) = Some _ |- _ => apply listed_id in Hi as (d & Hd & Hf & Hi) end.
  set_by (sets_linode _ _ d); [|done]. do 4 eexists. split; [in_run|]. by split_and!.
Qed.

Lemma hetzner_sets token fqdn value tr :
  runs (set_txt (Hetzner token) fqdn value) tr (Ok tt) -> set_in_listed (Hetzner token) tr fqdn fqdn value.
Proof.
  intros Hr. unfold Dns01.set_txt, set_txt_hetzner in Hr. do 7 pstep Hr. use_best.
  match goal with Hi : (_ ← zone_named _ _ _; _) = Some _ |- _ => apply listed_id in Hi as (d & Hd & Hf & Hi) end.
  set_by (sets_hetzner _ _ d); [|done]. do 4 eexists. split; [in_run|]. by split_and!.
Qed.

Lemma absolute_at name zone : absolute (or_at name) zone = absolute name zone.
Proof. unfold absolute, or_at. by destruct name. Qed.

Lemma namecheap_sets user key username ip domain fqdn value tr (s := Namecheap user key username ip domain) :
  runs (set_txt s fqdn value) tr (Ok tt) -> record_set s tr (absolute (relative_record_name fqdn domain) (strip_dots domain)) value.
Proof.
  intros Hr. unfold s, Dns01.set_txt, set_txt_namecheap in Hr. do 1 pstep Hr. unfold set_hosts in Hr. do 2 pstep Hr.
  rewrite <- absolute_at. set_by sets_namecheap. done.
Qed.

Lemma ovh_sets key secret consumer fqdn value tr :
  runs (set_txt (Ovh key secret consumer) fqdn value) tr (Ok tt) -> set_in_listed (Ovh key secret consumer) tr fqdn fqdn value.
Proof.
  intros Hr. unfold Dns01.set_txt, set_txt_ovh in Hr. do 8 pstep Hr. use_best.
  match goal with Hp : runs (ovh_request _ _ _ _ _ Post _ _) _ _ |- _ => unfold ovh_request in Hp; do 1 pstep Hp; apply runs_send in Hp as -> end.
  set_by sets_ovh.
Qed.

Lemma google_sets project json z fqdn value tr : runs (set_txt (GoogleCloudDns project json z) fqdn value) tr (Ok tt) ->
  record_set (GoogleCloudDns project json z) tr (normalize_fqdn fqdn) value.
Proof. intros Hr. unfold Dns01.set_txt, set_txt_google in Hr. do 4 pstep Hr. set_by sets_google. Qed.

Lemma azure_sets tenant client secret sub group zone fqdn value tr (s := AzureDns tenant client secret sub group zone) :
  runs (set_txt s fqdn value) tr (Ok tt) -> record_set s tr (absolute (relative_record_name fqdn zone) (strip_dots zone)) value.
Proof. intros Hr. unfold s, Dns01.set_txt, set_txt_azure in Hr. do 2 pstep Hr. set_by sets_azure. Qed.

Lemma duckdns_sets token domain fqdn value tr : runs (set_txt (DuckDns token domain) fqdn value) tr (Ok tt) ->
  record_set (DuckDns token domain) tr domain value.
Proof.
  intros Hr. unfold Dns01.set_txt, set_txt_duckdns in Hr. apply runs_bind in Hr as (resp & t1 & t2 & -> & Ht & _).
  unfold send_text in Ht. pstep Ht. apply runs_lift in Ht as [-> _]. set_by sets_duckdns.
Qed.

Lemma gandi_sets token fqdn value tr :
  runs (set_txt (Gandi token) fqdn value) tr (Ok tt) -> set_in_listed (Gandi token) tr fqdn fqdn value.
Proof. intros Hr. unfold Dns01.set_txt, set_txt_gandi in Hr. do 4 pstep Hr. use_best. set_by sets_gandi. Qed.

(** The zone that counts for the solver's record: the configured one, or one that
    the provider listed and that the search found for the name. *)
Definition zone_of_record (s : Solver) (fqdn zone : str) : Prop :=
  match s with
  | Namecheap _ _ _ _ z | AzureDns _ _ _ _ _ z => zone = strip_dots z
  | DigitalOcean _ => in_zone (normalize_fqdn (without_prefix fqdn)) zone = true
  | _ => in_zone (normalize_fqdn fqdn) zone = true
  end.

Lemma listed_iff s tr searched fqdn value : set_in_listed s tr searched fqdn value ->
  exists name zone, record_set s tr name value /\ in_zone (normalize_fqdn searched) zone = true /\
    (name = normalize_fqdn fqdn <-> plain_under zone (normalize_fqdn fqdn)).
Proof.
  intros (zone & Hi & Hs & Hr). exists (absolute (relative_record_name fqdn zone) zone), zone. split_and!; [done|done|].
  rewrite <- Hs at 2 3. apply relative_absolute_iff.
Qed.


End providers.

(** ** Witness and findings *)

(** [no_repeat], decided over all places to cut. *)
Definition no_repeatb (f : str) : bool :=
  forallb (fun i =>
    match drop i f with
    | c :: zone =>
      let rel := take i f in
      negb (is_dot c) || negb (is_empty rel) && negb (rel =s "@") && negb (ends_with (bs "." ++ zone) rel) && negb (ends_with "." rel)
    | [] => true
    end) (seq 0 (length f)).

Lemma no_repeatb_spec f : no_repeatb f = true -> no_repeat f.
Proof.
  unfold no_repeatb. rewrite forallb_forall. intros Hf rel zone ->. specialize (Hf (length rel)).
  rewrite drop_app_length, take_app_length in Hf. cbn [negb orb is_dot is_byte] in Hf.
  assert (Hin : In (length rel) (seq 0 (length (rel ++ "."%byte :: zone)))).
  { apply in_seq. rewrite length_app. cbn. lia. }
  apply Hf in Hin. cbn -[ends_with is_empty str_eqb] in Hin. apply andb_true_iff in Hin as [Hin H4]. apply andb_true_iff in Hin as [Hin H3].
  apply andb_true_iff in Hin as [H1 H2]. apply negb_true_iff in H1, H2, H3, H4.
  split_and!; [by apply is_empty_false| |done|done]. intros ->. done.
Qed.

Definition challenge_name : str := bs "_acme-challenge.shop.example.org".
Definition gandi_zones : Json := JArr [JObj [(bs "fqdn", JStr "example.org")]; JObj [(bs "fqdn", JStr "shop.example.org")]].
Definition gandi_run (answer : HttpAnswer) : list Event :=
  [mkEvent (Http (mkHttp Get "https://api.gandi.net/v5/livedns/domains" [] (ga_headers "T") NoBody))
     (Ok (mkHttpAnswer (Ok gandi_zones) (Ok [])));
   mkEvent (Http (ga_record "T" "shop.example.org" "_acme-challenge" "proof")) (Ok answer)].

(** The run ends with success whatever the answer to the write is: the status of the
    answer is not looked at, so a refusal passes for a record that was set. *)
Lemma refused_write_reported answer :
  runs (set_txt (fun _ => []) (fun _ => []) (fun _ => []) (Gandi "T") challenge_name "proof") (gandi_run answer) (Ok tt).
Proof.
  eexists. split; [reflexivity|]. cbn [rp_json send_json prog_bind_def]. eexists. split; [vm_compute; reflexivity|]. vm_compute. reflexivity.
Qed.


(** A repeated suffix is trimmed off twice, and the record is set for another name. *)
Lemma repeated_suffix_misplaced :
  let name := bs "_acme-challenge.example.org.example.org" in
  in_zone name "example.org" = true /\ absolute (relative_record_name name "example.org") "example.org" = bs "_acme-challenge.example.org".
Proof. vm_compute. done. Qed.

(** Outside its configured zone, a name becomes a record inside it. *)
Lemma outside_zone_record :
  absolute (relative_record_name "_acme-challenge.other.net" "example.org") "example.org" = bs "_acme-challenge.other.net.example.org".
Proof. vm_compute. reflexivity. Qed.

(** Cloudflare, Route 53 and Google guess the zone as the last two labels. *)
Lemma two_label_guess : last_two (labels "shop.example.co.uk") = bs "co.uk".
Proof. vm_compute. reflexivity. Qed.
