(* ===== verification/DnsForm.v ===== *)
(** * The form of DNS providers (api/mod.rs)

    The fields the management interface asks for each DNS provider, and that they are
    the ones its solver needs. *)

From S2P Require Import Prelude RustStr Ip GeoIp Waf Bot Captcha Security Edge EdgeAuth ProxyConfig Router Forward Apply.
From S2P Require Import Telemetry CertStore Database Admin Dns01.

Record DnsField := mkDnsField { df_key : str; df_label : str; df_type : str; df_required : bool }.
Record SupportedDnsProvider := mkSupportedDnsProvider { dp_id : str; dp_name : str; dp_fields : list DnsField }.

Definition supported_dns_providers : list SupportedDnsProvider :=
  [mkSupportedDnsProvider "cloudflare" "Cloudflare"
     [mkDnsField "api_token" "API Token" "password" true; mkDnsField "zone_id" "Zone ID (optional)" "text" false];
   mkSupportedDnsProvider "digitalocean" "DigitalOcean" [mkDnsField "api_token" "API Token" "password" true];
   mkSupportedDnsProvider "route53" "AWS Route 53"
     [mkDnsField "access_key_id" "Access Key ID" "text" true; mkDnsField "secret_access_key" "Secret Access Key" "password" true;
      mkDnsField "session_token" "Session Token (optional)" "password" false;
      mkDnsField "region" "Region (optional, default us-east-1)" "text" false;
      mkDnsField "zone_id" "Hosted Zone ID (optional)" "text" false; mkDnsField "zone_name" "Hosted Zone Name (optional)" "text" false];
   mkSupportedDnsProvider "godaddy" "GoDaddy"
     [mkDnsField "api_key" "API Key" "password" true; mkDnsField "api_secret" "API Secret" "password" true];
   mkSupportedDnsProvider "duckdns" "DuckDNS"
     [mkDnsField "domain" "Subdomain" "text" true; mkDnsField "token" "Token" "password" true];
   mkSupportedDnsProvider "hetzner" "Hetzner DNS" [mkDnsField "api_token" "API Token" "password" true]].

(** ** The form and the solvers *)

Definition form_filled (p : SupportedDnsProvider) (c : gmap str str) : bool :=
  forallb (fun f => negb (df_required f) || is_some (c !! df_key f)) (dp_fields p).

(** Credentials with the fields of the form only. *)
Definition from_form (p : SupportedDnsProvider) (c : gmap str str) : Prop :=
  forall k, k ∉ df_key <$> dp_fields p -> c !! k = None.

(** Evaluates the comparisons of provider names. *)
Ltac pick_provider :=
  repeat match goal with
  | |- context [str_eqb (bs ?a) ?b] =>
    let v := eval vm_compute in (str_eqb (bs a) b) in change (str_eqb (bs a) b) with v; cbn [orb]; cbv iota
  end.

(** The form of the interface asks for what the solvers need.  For each DNS provider
    it offers, credentials with the fields of its form are accepted by
    [solver_for_provider] exactly when every required field is there. *)
Theorem dns_form_matches_solver (to_lowercase : str -> str) p c :
  p ∈ supported_dns_providers -> to_lowercase (dp_id p) = dp_id p -> from_form p c ->
  is_ok (solver_for_provider to_lowercase (dp_id p) c) = form_filled p c.
Proof.
  intros Hp Hl Hf. unfold solver_for_provider. rewrite Hl. cbv zeta.
  assert (Hno : forall k : string, bool_decide (bs k ∉ df_key <$> dp_fields p) = true -> c !! bs k = None)
    by (intros k Hk; apply Hf; by apply bool_decide_eq_true in Hk).
  unfold supported_dns_providers in Hp. rewrite !elem_of_cons, elem_of_nil in Hp.
  destruct Hp as [->|[->|[->|[->|[->|[->|[]]]]]]]; cbn [dp_id]; unfold form_filled; cbn [dp_fields forallb df_required df_key negb orb andb];
    pick_provider; rewrite ?(Hno "APIToken"), ?(Hno "token"), ?(Hno "access_key"), ?(Hno "secret_key") by reflexivity.
  - by destruct (c !! bs "api_token").
  - by destruct (c !! bs "api_token").
  - by destruct (c !! bs "access_key_id"), (c !! bs "secret_access_key").
  - by destruct (c !! bs "api_key"), (c !! bs "api_secret").
  - by destruct (c !! bs "token"), (c !! bs "domain").
  - by destruct (c !! bs "api_token").
Qed.

Lemma dns_form_matches_solver_witness :
  is_ok (solver_for_provider to_ascii_lowercase "duckdns" {[bs "domain" := bs "shop"; bs "token" := bs "t"]}) = true /\
  is_ok (solver_for_provider to_ascii_lowercase "duckdns" {[bs "domain" := bs "shop"]}) = false.
Proof.
  pose (p := mkSupportedDnsProvider "duckdns" "DuckDNS"
     [mkDnsField "domain" "Subdomain" "text" true; mkDnsField "token" "Token" "password" true]).
  assert (Hp : p ∈ supported_dns_providers) by (unfold supported_dns_providers; do 4 right; left).
  split.
  - rewrite (dns_form_matches_solver to_ascii_lowercase p _ Hp eq_refl); [reflexivity|].
    intros k Hk. cbn in Hk. rewrite !not_elem_of_cons in Hk. destruct Hk as (Hd & Ht & _). rewrite ?lookup_insert_ne, ?lookup_singleton_ne by (intros <-; first [by apply Hd|by apply Ht]). done.
  - rewrite (dns_form_matches_solver to_ascii_lowercase p _ Hp eq_refl); [reflexivity|].
    intros k Hk. cbn in Hk. rewrite !not_elem_of_cons in Hk. destruct Hk as (Hd & Ht & _). rewrite ?lookup_insert_ne, ?lookup_singleton_ne by (intros <-; first [by apply Hd|by apply Ht]). done.
Defined.
