(* ===== verification/AcmeOrder.v ===== *)
(** * Obtaining a certificate (tls/acme.rs)

    The blocking order of a certificate: the identifiers it asks for, the challenges it
    answers through the HTTP-01 token store or a DNS-01 solver, and what it returns.
    The ACME client library is a class of calls on its own state, which also holds
    the world a solver acts on.  The polling has no bound: a run is over or polls on. *)

From S2P Require Import Prelude RustStr Ip GeoIp Waf Bot Captcha Security Edge EdgeAuth ProxyConfig CertStore.

(** An authorization of the order, with the texts the library derives for it. *)
Record Auth := mkAuth {
  au_domain : str;
  au_need_challenge : bool;
  au_http_token : str;
  au_http_proof : str;
  au_dns_proof : str;
}.

(** Every call may fail with an error text; [validate] answers for the challenge that
    was prepared, with the tokens published at that time. *)
Class AcmeClient (L : Type) := {
  new_order : bool -> str -> str -> list str -> L -> result str unit * L;
  confirm_validations : L -> bool;
  authorizations : L -> result str (list Auth) * L;
  validate : Auth -> Http01ChallengeStore -> L -> result str unit * L;
  refresh : L -> result str unit * L;
  finalize : L -> result str (str * str) * L;
}.

(** How far a task of the library is: it has ended, or it is still polling. *)
Inductive Run (L A : Type) : Type :=
| Ended (r : result str A) (l : L) (t : Http01ChallengeStore)
| Polling (l : L) (t : Http01ChallengeStore).
Arguments Ended {L A} r l t.
Arguments Polling {L A} l t.

Section obtain.
Context {L : Type} `{!AcmeClient L}.
Variable to_lowercase : str -> str.
(** [set_txt] of the solver, if there is one, run to its end on the runtime handle,
    which the caller always passes. *)
Variable solver : option (str -> str -> L -> result str unit * L).
Variable use_staging : bool.

Definition challenge_is_dns01 (challenge : str) : bool :=
  let c := to_lowercase challenge in (c =s "dns01") || (c =s "dns-01").

Definition order_domains (is_dns01 : bool) (hosts : list str) : list str :=
  filter (fun h => negb (is_empty h) && (is_dns01 || negb (starts_with "*" h)) = true) (trim <$> hosts).

(** The token is published while it is validated, and taken back after success. *)
Definition answer_http01 (a : Auth) (l : L) (t : Http01ChallengeStore) : result str unit * L * Http01ChallengeStore :=
  let t := http01_set (au_http_token a) (au_http_proof a) t in
  match validate a t l with
  | (Ok _, l) => (Ok tt, l, http01_remove (au_http_token a) t)
  | (Err e, l) => (Err e, l, t)
  end.

Definition answer_dns01 (a : Auth) (l : L) (t : Http01ChallengeStore) : result str unit * L * Http01ChallengeStore :=
  match solver with
  | None => (Err (bs "DNS-01 requires DNS provider credentials"), l, t)
  | Some set_txt =>
    match set_txt (bs "_acme-challenge." ++ au_domain a) (au_dns_proof a) l with
    | (Err e, l) => (Err e, l, t)
    | (Ok _, l) => let '(r, l) := validate a t l in (r, l, t)
    end
  end.

Fixpoint answer_all (is_dns01 : bool) (auths : list Auth) (l : L) (t : Http01ChallengeStore) : result str unit * L * Http01ChallengeStore :=
  match auths with
  | [] => (Ok tt, l, t)
  | a :: rest =>
    if negb (au_need_challenge a) then answer_all is_dns01 rest l t
    else
      match (if is_dns01 then answer_dns01 a l t else answer_http01 a l t) with
      | (Err e, l, t) => (Err e, l, t)
      | (Ok _, l, t) => answer_all is_dns01 rest l t
      end
  end.

(** The loop has no bound of its own: this is how far it is after at most [fuel]
    rounds. *)
Fixpoint answer_rounds (fuel : nat) (is_dns01 : bool) (l : L) (t : Http01ChallengeStore) : Run L unit :=
  match fuel with
  | O => Polling l t
  | S fuel =>
    if confirm_validations l then Ended (Ok tt) l t
    else
      match authorizations l with
      | (Err e, l) => Ended (Err e) l t
      | (Ok auths, l) =>
        match answer_all is_dns01 auths l t with
        | (Err e, l, t) => Ended (Err e) l t
        | (Ok _, l, t) =>
          match refresh l with
          | (Err e, l) => Ended (Err e) l t
          | (Ok _, l) => answer_rounds fuel is_dns01 l t
          end
        end
      end
  end.

Definition contact (email : option str) : option str :=
  opt_filter (fun e => negb (is_empty e) && negb (contains "@example.com" e)) email.

Definition obtain_certs_sync (fuel : nat) (c : TlsConfig) (l : L) (t : Http01ChallengeStore) : Run L (list str * str * str) :=
  match tls_source c with
  | Acme email challenge _ _ _ =>
    let is_dns01 := challenge_is_dns01 challenge in
    match order_domains is_dns01 (tls_hosts c) with
    | [] => Ended (Err (if is_dns01 then bs "no domains for ACME order" else bs "no non-wildcard domains for HTTP-01")) l t
    | first :: rest =>
      match contact email with
      | None => Ended (Err (bs "ACME requires a valid contact email")) l t
      | Some email =>
        match new_order use_staging email first rest l with
        | (Err e, l) => Ended (Err e) l t
        | (Ok _, l) =>
          match answer_rounds fuel is_dns01 l t with
          | Polling l t => Polling l t
          | Ended (Err e) l t => Ended (Err e) l t
          | Ended (Ok _) l t =>
            match finalize l with
            | (Err e, l) => Ended (Err e) l t
            | (Ok (cert, key), l) => Ended (Ok (tls_hosts c, cert, key)) l t
            end
          end
        end
      end
    end
  | _ => Ended (Err (bs "not an ACME config")) l t
  end.

(** ** The polling loop *)

(** A round that neither confirms the order nor fails. *)
Inductive round (is_dns01 : bool) : L * Http01ChallengeStore -> L * Http01ChallengeStore -> Prop :=
| round_unconfirmed l t auths l1 l2 t2 l3 :
    confirm_validations l = false -> authorizations l = (Ok auths, l1) -> answer_all is_dns01 auths l1 t = (Ok tt, l2, t2) ->
    refresh l2 = (Ok tt, l3) -> round is_dns01 (l, t) (l3, t2).

(** The loop is still polling after [n] rounds exactly when [n] such rounds have
    happened: it ends as soon as the authority confirms or a call fails. *)
Lemma answer_rounds_polling n is_dns01 l t l' t' :
  answer_rounds n is_dns01 l t = Polling l' t' <-> nsteps (round is_dns01) n (l, t) (l', t').
Proof.
  revert l t. induction n as [|n IH]; intros l t; cbn [answer_rounds].
  - split; [intros [= -> ->]; constructor|]. intros Hn. by inversion Hn.
  - split.
    + destruct (confirm_validations l) eqn:Ec; [done|]. destruct (authorizations l) as [[auths|e] l1] eqn:Ea; [|done].
      destruct (answer_all is_dns01 auths l1 t) as [[[[]|e] l2] t2] eqn:Eall; [|done].
      destruct (refresh l2) as [[[]|e] l3] eqn:Er; [|done]. intros Hn%IH. econstructor; [|done]. by econstructor.
    + intros Hn. inversion Hn as [|? ? [l3 t3] ? Hr Hrest]; subst. inversion Hr; subst.
      repeat match goal with He : ?x = _ |- context [?x] => rewrite He end. by apply IH.
Qed.

(** More rounds change nothing once the loop has ended. *)
Lemma answer_rounds_ended n m is_dns01 l t r l' t' : (n <= m)%nat ->
  answer_rounds n is_dns01 l t = Ended r l' t' -> answer_rounds m is_dns01 l t = Ended r l' t'.
Proof.
  revert m l t. induction n as [|n IH]; intros [|m] l t Hle Hn; cbn [answer_rounds] in *; try done; [lia|].
  destruct (confirm_validations l); [done|]. destruct (authorizations l) as [[auths|e] l1]; [|done].
  destruct (answer_all is_dns01 auths l1 t) as [[[u|e] l2] t2]; [|done]. destruct (refresh l2) as [[u'|e] l3]; [|done].
  apply IH; [lia|done].
Qed.

Lemma obtain_ended n m c l t r l' t' : (n <= m)%nat ->
  obtain_certs_sync n c l t = Ended r l' t' -> obtain_certs_sync m c l t = Ended r l' t'.
Proof.
  intros Hle. unfold obtain_certs_sync. destruct (tls_source c); try done. destruct (order_domains _ _) as [|first rest]; [done|].
  destruct (contact _); [|done]. destruct (new_order _ _ _ _ _) as [[u|e] l1]; [|done].
  destruct (answer_rounds n _ _ _) as [r1 l2 t2|l2 t2] eqn:En; [|done]. by rewrite (answer_rounds_ended _ _ _ _ _ _ _ _ Hle En).
Qed.

Lemma obtain_polling n c l t l' t' : obtain_certs_sync n c l t = Polling l' t' ->
  exists is_dns01 (email first : str) (rest : list str) (l1 : L), new_order use_staging email first rest l = (Ok tt, l1) /\
    nsteps (round is_dns01) n (l1, t) (l', t').
Proof.
  unfold obtain_certs_sync. destruct (tls_source c) as [email ch p pt cr| |]; try done.
  destruct (order_domains _ _) as [|first rest]; [done|]. destruct (contact _) as [mail|]; [|done].
  destruct (new_order _ _ _ _ _) as [[[]|e] l1] eqn:En; [|done].
  destruct (answer_rounds _ _ _ _) as [r1 l2 t2|l2 t2] eqn:Er.
  - destruct r1 as [u|e]; [|done]. by destruct (finalize l2) as [[[cert key]|e] l3].
  - intros [= -> ->]. apply answer_rounds_polling in Er. by eexists _, mail, first, rest, l1.
Qed.

(** ** Http01ChallengeStore *)

(** Nothing new is published, except perhaps one token. *)
Definition tokens_within (left_over : option str) (t t' : Http01ChallengeStore) : Prop :=
  forall k, t' !! k = t !! k \/ t' !! k = None \/ left_over = Some k.

Lemma tokens_within_trans o t1 t2 t3 : tokens_within None t1 t2 -> tokens_within o t2 t3 -> tokens_within o t1 t3.
Proof. intros H1 H2 k. destruct (H1 k) as [E1|[E1|?]], (H2 k) as [E2|[E2|?]]; try done; rewrite ?E2, ?E1; auto. Qed.

(** At most one token is left by a failure, none by success. *)
Definition tokens_after {A} (r : result str A) (t t' : Http01ChallengeStore) : Prop :=
  exists o, tokens_within o t t' /\ (is_ok r = true -> o = None).

Lemma answer_all_tokens is_dns01 auths l t r l' t' : answer_all is_dns01 auths l t = (r, l', t') -> tokens_after r t t'.
Proof.
  revert l t. induction auths as [|a auths IH]; intros l t; cbn [answer_all].
  - intros [= <- <- <-]. exists None. by split; [left|].
  - destruct (au_need_challenge a); [|apply IH]. cbn [negb].
    destruct (if is_dns01 then answer_dns01 a l t else answer_http01 a l t) as [[r1 l1] t1] eqn:Ea.
    assert (H1 : exists o, tokens_within o t t1 /\ (is_ok r1 = true -> o = None)).
    { destruct is_dns01.
      - exists None. split; [|done]. unfold answer_dns01 in Ea. repeat case_match; simplify_eq; by left.
      - unfold answer_http01, http01_set, http01_remove in Ea. destruct (validate _ _ _) as [[u|e] l2]; simplify_eq.
        + exists None. split; [|done]. intros k. destruct (decide (k = au_http_token a)) as [->|Hk].
          * right. left. apply lookup_delete_eq.
          * left. by rewrite lookup_delete_ne, lookup_insert_ne by congruence.
        + exists (Some (au_http_token a)). split; [|done]. intros k. destruct (decide (k = au_http_token a)) as [->|Hk]; [by right; right|].
          left. by rewrite lookup_insert_ne by congruence. }
    destruct H1 as (o & H1 & Ho). destruct r1 as [u|e].
    + rewrite Ho in H1 by done. intros Hr. destruct (IH _ _ Hr) as (o' & H2 & Ho'). exists o'. split; [|done]. by eapply tokens_within_trans.
    + intros [= <- <- <-]. by exists o.
Qed.

Lemma answer_rounds_tokens fuel is_dns01 l t r l' t' : answer_rounds fuel is_dns01 l t = Ended r l' t' -> tokens_after r t t'.
Proof.
  assert (Hid : forall t (r : result str unit), tokens_after r t t) by (intros; exists None; split; [intros k; by left|done]).
  revert l t. induction fuel as [|fuel IH]; intros l t; cbn [answer_rounds]; [done|].
  destruct (confirm_validations l); [intros [= <- <- <-]; apply Hid|].
  destruct (authorizations l) as [[auths|e] l1]; [|intros [= <- <- <-]; apply Hid].
  destruct (answer_all is_dns01 auths l1 t) as [[r2 l2] t2] eqn:Ea. apply answer_all_tokens in Ea. destruct r2 as [u|e].
  - destruct Ea as (o & Hw & Ho). rewrite Ho in Hw by done.
    destruct (refresh l2) as [[u'|e] l3].
    + intros Hr. destruct (IH _ _ Hr) as (o' & H2 & Ho'). exists o'. split; [|done]. by eapply tokens_within_trans.
    + intros [= <- <- <-]. by exists None.
  - by intros [= <- <- <-].
Qed.

(** An order that ends leaves no challenge token behind when it succeeds, and at most
    one, that of the validation that failed, when it fails; and the certificate it
    returns is filed under the hosts of the entry. *)
Theorem obtain_tokens fuel c l t r l' t' : obtain_certs_sync fuel c l t = Ended r l' t' ->
  tokens_after r t t' /\ forall hosts cert key, r = Ok (hosts, cert, key) -> hosts = tls_hosts c.
Proof.
  unfold obtain_certs_sync.
  assert (Hid : forall t (r : result str (list str * str * str)), tokens_after r t t) by (intros; exists None; split; [intros k; by left|done]).
  destruct (tls_source c); try (intros [= <- <- <-]; by split).
  destruct (order_domains _ _) as [|first rest]; [intros [= <- <- <-]; by split|].
  destruct (contact _); [|intros [= <- <- <-]; by split].
  destruct (new_order _ _ _ _ _) as [[u|e] l1]; [|intros [= <- <- <-]; by split].
  destruct (answer_rounds _ _ _ _) as [r2 l2 t2|l2 t2] eqn:Er; [|done]. apply answer_rounds_tokens in Er as (o & Hw & Ho).
  destruct r2 as [u2|e].
  - rewrite Ho in Hw by done. destruct (finalize l2) as [[[cert key]|e] l3]; intros [= <- <- <-]; (split; [by exists None|]); [|done].
    by intros hosts cert' key' [= <- _ _].
  - intros [= <- <- <-]. split; [|done]. by exists o.
Qed.

End obtain.
