(* ===== verification/OrderFlow.v ===== *)
(** * A certificate order from its provider to the store (api/acme.rs, tls/)

    The task that [AutoSsl] starts for an order: the credentials and the solver it uses,
    the order itself ([AcmeOrder]) with the solver's requests ([Dns01]) answered by the
    world the order runs in, and what becomes of the certificate, or of an order
    that the authority keeps pending. *)

From S2P Require Import Prelude RustStr Ip GeoIp Waf Bot Captcha Security Edge EdgeAuth ProxyConfig Router Forward Apply.
From S2P Require Import Telemetry CertStore Database Admin AdminProps AutoSsl Dns01 Dns01Props DnsForm AcmeOrder.

Section solver.
Context `{Formats}.
Variable to_lowercase : str -> str.

Definition nonempty (s : str) : bool := negb (is_empty s).

(** The provider type and the credentials: those of the TLS entry when it has any, else
    those of the stored provider it names. *)
Definition order_credentials (provider pty : option str) (creds : option (gmap str str)) (d : DbState)
    : (option str * gmap str str) * DbState :=
  let creds := default ∅ creds in
  let pty := opt_filter nonempty pty in
  if decide (creds = ∅) then
    match opt_filter nonempty provider with
    | Some id =>
      match get_dns_provider id d with
      | (Ok (Some row), d) => ((Some (dr_provider_type row), default creds (dr_credentials row)), d)
      | (_, d) => ((pty, creds), d)
      end
    | None => ((pty, creds), d)
    end
  else ((pty, creds), d).

(** A solver that cannot be built is only logged. *)
Definition order_solver (src : TlsSource) (d : DbState) : option Solver * DbState :=
  match src with
  | Acme _ challenge provider pty creds =>
    if negb (is_dns01 challenge) then (None, d)
    else
      let '((pty, creds), d) := order_credentials provider pty creds d in
      (match solver_for_provider to_lowercase (default [] pty) creds with Ok s => Some s | Err _ => None end, d)
  | _ => (None, d)
  end.

(** Looking up the credentials changes no table. *)
Lemma order_solver_tables src d : db_tables (order_solver src d).2 = db_tables d.
Proof.
  unfold order_solver. destruct src as [email ch provider pty creds| |]; [|done..]. destruct (negb _); [done|].
  unfold order_credentials. destruct (decide _); [|done]. destruct (opt_filter nonempty provider) as [id|]; [|done].
  unfold get_dns_provider. match goal with |- context [db_read ?f d] => pose proof (db_read_tables f d) as Ht;
    by destruct (db_read f d) as [[[row|]|err] d1] end.
Qed.

End solver.

Section flow.
Context `{Formats} {L : Type} `{!AcmeClient L}.
Variable to_lowercase : str -> str.
Variable json_text : Json -> str.
Variable sha1_hex : str -> str.
Variable xml_events : str -> list XmlEvent.
(** What the provider answers to a request. *)
Variable answer : forall X, Request X -> L -> result str X * L.

(** A program of requests, with the events of its run. *)
Fixpoint run_prog {A} (m : Prog A) (l : L) : result str A * L * list Event :=
  match m with
  | Ret a => (Ok a, l, [])
  | Fail e => (Err e, l, [])
  | Send r k =>
    let '(x, l) := answer _ r l in
    let '(res, l, tr) := run_prog (k x) l in
    (res, l, mkEvent r x :: tr)
  end.

Definition run_solver (s : Solver) (fqdn value : str) (l : L) : result str unit * L :=
  (run_prog (set_txt json_text sha1_hex xml_events s fqdn value) l).1.

Variable io : CertIo.
Variable certs_dir : str.
Variable now : N.
Variable use_staging : bool.

(** Where the task of an order is: it has ended, or the authority keeps it pending. *)
Inductive OrderRun : Type :=
| OrderEnded (r : result str (list str * str * str)) (s : SslState) (l : L) (t : Http01ChallengeStore)
| OrderPolling (s : SslState) (l : L) (t : Http01ChallengeStore).

(** The task of one order, with nothing else between its steps, after at most [fuel]
    rounds of polling. *)
Definition run_order (fuel : nat) (id : str) (o : TlsConfig) (l : L) (t : Http01ChallengeStore) (s : SslState) : OrderRun :=
  let '(sol, d) := order_solver to_lowercase (tls_source o) (ss_db s) in
  let s := ss_set_db d s in
  match obtain_certs_sync to_lowercase (run_solver <$> sol) use_staging fuel o l t with
  | Polling l t => OrderPolling s l t
  | Ended r l t => OrderEnded r (finish_order io certs_dir now id (match r with Ok x => Some x | Err _ => None end) o s) l t
  end.

(** ** The solver of an order *)

Lemma find_snoc_new {A} (f : A -> bool) l a : existsb f l = false -> f a = true -> List.find f (l ++ [a]) = Some a.
Proof.
  intros Hl Ha. induction l as [|b l IH]; cbn in *; [by rewrite Ha|]. apply orb_false_iff in Hl as [-> Hl]. by apply IH.
Qed.

Lemma run_prog_runs {A} (m : Prog A) l res l' tr : run_prog m l = (res, l', tr) -> runs m tr res.
Proof.
  revert l tr. induction m as [a|e|X r k IH]; intros l tr; cbn [run_prog]; [by intros [= <- _ <-]|by intros [= <- _ <-]|].
  destruct (answer X r l) as [x l1]. destruct (run_prog (k x) l1) as [[res1 l2] tr1] eqn:Er. intros [= <- <- <-]. exists x. split; [done|].
  by apply (IH _ _ _ Er).
Qed.

(** A DNS provider that is saved with the fields its form asks for is used for the
    orders that name it.  After a provider of any offered type was stored, an entry for
    DNS-01 that names it and has no credentials of its own gets the solver built from
    the stored credentials exactly when every required field of the form was filled in,
    whatever type the entry itself names. *)
Theorem saved_provider_solves p c id name d d' email challenge pty : p ∈ supported_dns_providers -> to_lowercase (dp_id p) = dp_id p ->
  from_form p c -> id <> [] -> db_faults d = [] -> is_dns01 challenge = true ->
  create_dns_provider id name (dp_id p) (Some c) now d = (Ok id, d') ->
  let r := order_solver to_lowercase (Acme email challenge (Some id) pty None) d' in
  r.2 = d' /\ (form_filled p c = true -> exists s, r.1 = Some s /\ solver_for_provider to_lowercase (dp_id p) c = Ok s) /\
  (form_filled p c = false -> r.1 = None).
Proof.
  intros Hp Hlow Hc Hid Hf Hdns Hcr r.
  unfold create_dns_provider, db_exec in Hcr. rewrite Hf in Hcr. destruct (existsb _ _) eqn:Ex; [done|]. injection Hcr as <-.
  assert (Hg : get_dns_provider id (mkDbState (upd_dns (fun l => l ++ [mkDnsRow id name (dp_id p) (Some (creds_json c)) (to_rfc3339 now)]) (db_tables d)) [])
    = (Ok (Some (mkDnsProviderRow id name (dp_id p) (Some c) (to_rfc3339 now))),
       mkDbState (upd_dns (fun l => l ++ [mkDnsRow id name (dp_id p) (Some (creds_json c)) (to_rfc3339 now)]) (db_tables d)) [])).
  { unfold get_dns_provider, db_read, db_exec. cbn [db_faults db_tables tail]. do 3 f_equal. cbn [t_dns upd_dns].
    rewrite find_snoc_new by (done || apply str_eqb_refl). cbn. by rewrite creds_json_parse. }
  unfold r, order_solver. rewrite Hdns. cbn [negb]. unfold order_credentials. cbn [default from_option]. rewrite decide_True by done.
  assert (Hne : opt_filter nonempty (Some id) = Some id) by (cbn; unfold nonempty; by destruct id). rewrite Hne.
  cbn [tail fmap option_fmap option_map]. rewrite Hg. cbn [dr_provider_type dr_credentials default from_option fst snd]. unfold Datatypes.id.
  pose proof (dns_form_matches_solver to_lowercase p c Hp Hlow Hc) as Hs. split; [done|].
  destruct (solver_for_provider to_lowercase (dp_id p) c) as [s|e]; cbn [is_ok] in Hs.
  - split; [intros _; by exists s|by rewrite <- Hs].
  - split; [by rewrite <- Hs|done].
Qed.

(** ** The challenges of an order *)

(** An answered DNS-01 challenge: the solver ran to success on the name it is for. *)
Definition answered (s : Solver) (a : Auth) : Prop :=
  exists tr, runs (set_txt json_text sha1_hex xml_events s (bs "_acme-challenge." ++ au_domain a) (au_dns_proof a)) tr (Ok tt).

Lemma answer_all_answered s auths l t l' t' :
  answer_all (Some (run_solver s)) true auths l t = (Ok tt, l', t') -> Forall (fun a => au_need_challenge a = true -> answered s a) auths.
Proof.
  revert l t. induction auths as [|a auths IH]; intros l t Ha; [constructor|]. cbn [answer_all] in Ha.
  destruct (au_need_challenge a) eqn:En; cbn [negb] in Ha; [|constructor; [by rewrite En|by eapply IH]].
  unfold answer_dns01 in Ha. destruct (run_solver s _ _ l) as [[[]|e] l1] eqn:Er; [|done].
  destruct (validate a t l1) as [[[]|e] l2]; [|done]. constructor; [|by eapply IH]. intros _. unfold run_solver in Er.
  destruct (run_prog _ l) as [[res l0] tr] eqn:Ep. cbn [fst] in Er. injection Er as -> ->. exists tr. by apply run_prog_runs in Ep.
Qed.

Lemma answer_all_no_solver auths l t l' t' :
  answer_all None true auths l t = (Ok tt, l', t') -> Forall (fun a => au_need_challenge a = false) auths.
Proof.
  revert l t. induction auths as [|a auths IH]; intros l t Ha; [constructor|]. cbn [answer_all] in Ha.
  destruct (au_need_challenge a) eqn:En; cbn [negb] in Ha; [done|]. constructor; [done|by eapply IH].
Qed.

(** The first round of an order that is not confirmed at once. *)
Lemma rounds_first sol fuel dns l t l' t' : answer_rounds sol fuel dns l t = Ended (Ok tt) l' t' -> confirm_validations l = false ->
  exists auths l1 l2 t2, authorizations l = (Ok auths, l1) /\ answer_all sol dns auths l1 t = (Ok tt, l2, t2).
Proof.
  destruct fuel as [|fuel]; [done|]. cbn [answer_rounds]. intros Hr Hc. rewrite Hc in Hr.
  destruct (authorizations l) as [[auths|e] l1] eqn:Ea; [|done]. destruct (answer_all sol dns auths l1 t) as [[[[]|e] l2] t2] eqn:Eb; [|done].
  by exists auths, l1, l2, t2.
Qed.

(** ** The end of an order *)

(** C22: What an order obtains is what its hosts are served with, and what becomes of it
    otherwise.  As long as the task polls, its lock is held and store and tables are as
    they were; it polls on after [fuel] rounds only if the authority was asked that often,
    every call succeeded and none confirmed.  Once it has ended, the lock is free and more
    rounds change nothing.  If it ended in an error, store and tables are as they were.  If
    it ended with a certificate and the database write fails, or the new id is taken, the
    certificate is lost: store and tables are as they were.  If the write succeeds, the
    certificate is stored as an ACME certificate of exactly the entry's hosts, nothing else
    in the database changed, and every host of the entry is presented with it from then on,
    provided the pair is sound, its files can be written and they read back; if one of these
    is not so, the store is as it was. *)
Theorem ordered_certificate_served iter fuel id o l t s :
  let '(sol, d) := order_solver to_lowercase (tls_source o) (ss_db s) in
  let paths := mkCertPaths (path_push certs_dir (id ++ bs ".pem")) (path_push certs_dir (id ++ bs ".key")) in
  let kept s' := db_tables (ss_db s') = db_tables (ss_db s) /\ ss_certs s' = ss_certs s in
  match run_order fuel id o l t s with
  | OrderPolling s' l' t' =>
    kept s' /\ ss_inflight s' = ss_inflight s /\
    exists is_dns01 (email first : str) (rest : list str) (l1 : L), new_order use_staging email first rest l = (Ok tt, l1) /\
      nsteps (round (run_solver <$> sol) is_dns01) fuel (l1, t) (l', t')
  | OrderEnded r s' l' t' =>
    ss_inflight s' = ss_inflight s ∖ {[order_key (tls_hosts o)]} /\
    (forall n, (fuel <= n)%nat -> run_order n id o l t s = OrderEnded r s' l' t') /\
    match r with
    | Err _ => kept s'
    | Ok (hosts, cert, key) =>
      hosts = tls_hosts o /\
      if write_fails d || existsb (fun c => cr_id c =s id) (t_certificates (db_tables (ss_db s))) then kept s'
      else
        db_tables (ss_db s') = upd_certificates (fun rows => rows ++
          [mkCertRow id (hosts_json (tls_hosts o)) cert key "acme" (to_rfc3339 now) (cert_expiry_from_pem cert)]) (db_tables (ss_db s)) /\
        if pem_pair_ok io cert key && (write_ok io (cert_path paths) && write_ok io (key_path paths))
           && pair_ok io (cert_path paths) (key_path paths) && names_readable io (cert_path paths)
        then forall h, h ∈ tls_hosts o -> trim h <> [] -> lookup_sni iter (ss_certs s') (trim h) = Some (CertFile paths)
        else ss_certs s' = ss_certs s
    end
  end.
Proof.
  pose proof (order_solver_tables to_lowercase (tls_source o) (ss_db s)) as Htab. unfold run_order.
  destruct (order_solver to_lowercase (tls_source o) (ss_db s)) as [sol d] eqn:Es. cbn [snd] in Htab. cbv zeta.
  destruct (obtain_certs_sync _ _ _ fuel _ _ _) as [r l0 t0|l0 t0] eqn:Eo.
  2: { split; [done|]. split; [done|]. by eapply obtain_polling. }
  unfold finish_order at 1. cbn [ss_inflight]. split; [by destruct r as [[[? ?] ?]|]; [destruct (add_certificate _ _ _ _ _ _ _) as [[]]|]|].
  split. { intros n Hn. by rewrite (obtain_ended _ _ _ _ _ _ _ _ _ _ _ Hn Eo). }
  apply obtain_tokens in Eo as [_ Hh]. destruct r as [[[hosts cert] key]|e]; [|done]. rewrite (Hh _ _ _ eq_refl) in *. split; [done|].
  unfold finish_order, add_certificate, db_exec, write_fails. cbn [ss_db ss_set_db]. rewrite Htab.
  destruct (db_faults d) as [|[] rest]; cbn [head tail]; try rewrite bool_decide_eq_true_2 by done;
    try rewrite (bool_decide_eq_false_2 (_ = _)) by done; cbn [orb].
  2: { by split. }
  all: destruct (existsb _ _); [done|]; cbn [ss_set_db ss_set_certs ss_db ss_certs db_tables]; (split; [done|]);
    unfold insert_pem_for_hosts; destruct (pem_pair_ok io cert key); [|done]; cbn [negb andb cert_path key_path];
    destruct (write_ok io _ && write_ok io _); [|done]; cbn [negb andb]; destruct (pair_ok io _ _); [|done]; cbn [negb andb];
    destruct (names_readable io _); [|done]; cbn [negb snd ss_certs]; intros h Hin Hne;
    unfold lookup_sni, insert_paths_for_hosts, insert_stored_for_hosts; cbn [by_host]; by rewrite insert_hosts_in.
Qed.

(** A certificate that DNS-01 obtains was proved for: each authorization the authority
    asked to prove had its record set by the solver of the order, under
    [_acme-challenge.] of its own domain; and an order without a usable provider ends
    well only when there was nothing to prove. *)
Theorem dns_order_proves fuel id o l t s x s' l' t' email ch provider pty creds mail first rest l1 auths l2 :
  tls_source o = Acme email ch provider pty creds -> challenge_is_dns01 to_lowercase ch = true -> contact email = Some mail ->
  order_domains true (tls_hosts o) = first :: rest -> new_order use_staging mail first rest l = (Ok tt, l1) ->
  confirm_validations l1 = false -> authorizations l1 = (Ok auths, l2) ->
  run_order fuel id o l t s = OrderEnded (Ok x) s' l' t' ->
  match (order_solver to_lowercase (tls_source o) (ss_db s)).1 with
  | Some sol => Forall (fun a => au_need_challenge a = true -> answered sol a) auths
  | None => Forall (fun a => au_need_challenge a = false) auths
  end.
Proof.
  intros Hsrc Hdns Hmail Hdom Hnew Hconf Hauth. unfold run_order. destruct (order_solver to_lowercase (tls_source o) (ss_db s)) as [sol d]. cbn [fst].
  unfold obtain_certs_sync. rewrite Hsrc. cbv zeta. rewrite Hdns, Hdom, Hmail, Hnew.
  destruct (answer_rounds _ _ _ _ _) as [[[]|e] l3 t3|l3 t3] eqn:Er; [|done..]. intros _.
  destruct (rounds_first _ _ _ _ _ _ _ Er Hconf) as (auths' & l4 & l5 & t5 & Ha & Hall). rewrite Ha in Hauth. injection Hauth as -> ->.
  destruct sol as [sol|]; [by eapply answer_all_answered|by eapply answer_all_no_solver].
Qed.

End flow.

(** ** A concrete order *)

(** An authority that has confirmed everything and hands out one certificate. *)
#[export] Instance toy_authority : AcmeClient unit := {
  new_order := fun _ _ _ _ l => (Ok tt, l);
  confirm_validations := fun _ => true;
  authorizations := fun l => (Ok [], l);
  validate := fun _ _ l => (Ok tt, l);
  refresh := fun l => (Ok tt, l);
  finalize := fun l => (Ok (bs "CERT", bs "KEY"), l);
}.

Definition shop_order : TlsConfig := mkTlsConfig [bs "shop.example"] (Acme (Some (bs "me@shop.example")) "http01" None None None) None.
Definition ordering : SslState := mkSslState (mkDbState empty_tables []) store_new {[order_key [bs "shop.example"]]} [shop_order].
Definition silent X (_ : Request X) (l : unit) : result str X * unit := (Err (bs "no network"), l).

Definition shop_run : OrderRun :=
  @run_order (toy []) unit toy_authority to_ascii_lowercase (fun _ => []) (fun s => s) (fun _ => []) silent (file_io true) "/certs" 0 false 1 "c1"
    shop_order tt ∅ ordering.

Lemma ordered_certificate_served_witness :
  match shop_run with
  | OrderEnded _ s' _ _ =>
    lookup_sni (fun m => map_to_list m) (ss_certs s') "shop.example" = Some (CertFile (mkCertPaths "/certs/c1.pem" "/certs/c1.key"))
  | OrderPolling _ _ _ => False
  end.
Proof.
  pose proof (@ordered_certificate_served (toy []) unit toy_authority to_ascii_lowercase (fun _ => []) (fun s => s) (fun _ => []) silent
    (file_io true) "/certs" 0 false (fun m => map_to_list m) 1 "c1" shop_order tt ∅ ordering) as Hs.
  fold shop_run in Hs. assert (Hc : match shop_run with OrderEnded (Ok (_, c, k)) _ _ _ => Some (c, k) | _ => None end = Some (bs "CERT", bs "KEY"))
    by (vm_compute; reflexivity).
  destruct (order_solver to_ascii_lowercase _ _) as [sol d] eqn:Es in Hs. apply (f_equal (fun x => x.2)) in Es. vm_compute in Es. subst d.
  destruct shop_run as [[[[hosts cert] key]|e] s' l' t'|s' l' t']; [|discriminate Hc..]. injection Hc as -> ->.
  destruct Hs as (_ & _ & _ & _ & Hs). apply (Hs "shop.example"); [left|discriminate].
Defined.

(** DuckDNS with both fields of its form. *)
Definition duck : SupportedDnsProvider := List.nth 4 supported_dns_providers (mkSupportedDnsProvider [] [] []).
Definition duck_fields : gmap str str := {[bs "domain" := bs "shop"; bs "token" := bs "t"]}.

Lemma duck_from_form : from_form duck duck_fields.
Proof.
  intros k Hk. unfold duck_fields. rewrite lookup_insert_ne, lookup_singleton_ne; [done| |]; intros <-; apply Hk; cbn;
    rewrite !elem_of_cons; tauto.
Qed.

Lemma saved_provider_solves_witness :
  let d' := (@create_dns_provider (toy []) "p1" "mine" "duckdns" (Some duck_fields) 0 (mkDbState empty_tables [])).2 in
  exists s, (@order_solver (toy []) to_ascii_lowercase (Acme None "dns-01" (Some (bs "p1")) None None) d').1 = Some s.
Proof.
  intros d'. assert (Hc : @create_dns_provider (toy []) "p1" "mine" "duckdns" (Some duck_fields) 0 (mkDbState empty_tables []) = (Ok (bs "p1"), d'))
    by (vm_compute; reflexivity).
  destruct (@saved_provider_solves (toy []) to_ascii_lowercase 0 duck duck_fields "p1" "mine" (mkDbState empty_tables []) d' None "dns-01" None)
    as (_ & Hs & _); [by right; right; right; right; left|reflexivity|apply duck_from_form|discriminate|reflexivity|reflexivity|exact Hc|].
  destruct Hs as (s & Hs & _); [vm_compute; reflexivity|]. exists s. exact Hs.
Defined.
