(* ===== verification/Running.v ===== *)
(** * The running proxy (main.rs, api/mod.rs)

    What [main] leaves running once [Startup] is through: the management interface, the
    two delayed passes of Auto-SSL, the passes that saved configurations start and the
    orders in flight.  They share router, certificates, configuration and database, and
    interleave; a pass works on the configuration it was started with.  A request, a pass
    and the end of an order are one step each: what the source awaits inside of them
    (the database, the files) is not interleaved with other steps. *)

From S2P Require Import Prelude RustStr Ip GeoIp Waf Bot Captcha Security Edge EdgeAuth ProxyConfig Router Forward Apply.
From S2P Require Import Http Telemetry CertStore Database Admin AdminProps Settings SettingsProps Startup StartupProps Policies AutoSsl AutoSslProps.

(** ** The management listener *)

Inductive BindStage : Type := BindCreate | BindReuse | BindDualStack | BindAddress | BindListen | BindNonblocking | BindConvert.

(** The calls of the system in the order they are made: which of them fail. *)
Definition management_stages (v6 : bool) : list BindStage :=
  if v6 then [BindCreate; BindReuse; BindDualStack; BindAddress; BindListen; BindNonblocking; BindConvert] else [BindAddress].

Record ManagementListener := mkManagementListener { ml_addr : SocketAddr; ml_dual_stack : bool; ml_backlog : option N }.

Definition bind_management_listener (fails : BindStage -> bool) (addr : SocketAddr) : result BindStage ManagementListener :=
  let v6 := match sa_ip addr with V6 _ => true | V4 _ _ _ _ => false end in
  match List.find fails (management_stages v6) with
  | Some stage => Err stage
  | None => Ok (mkManagementListener addr v6 (if v6 then Some 1024 else None))
  end.

(** ** Requests to the management interface *)

Inductive ApiOp : Type :=
| OpLogin (username password : str) (header : str -> option str) (peer : IpAddr)
| OpChangePassword (current new : str) (header : str -> option str) (peer : IpAddr)
| OpPutConfig (body : Config)
| OpReload
| OpUploadCertificate (hosts : list str) (cert_pem key_pem : str)
| OpDeleteCertificate (id : str)
| OpCreateDns (name provider_type : str) (credentials : option (gmap str str))
| OpPutDns (id name provider_type : str) (credentials : option (gmap str str))
| OpDeleteDns (id : str)
| OpCreateAccessList (name : str) (description : option str) (geo : GeoIpPolicy)
| OpPutAccessList (id name : str) (description : option str) (geo : GeoIpPolicy)
| OpDeleteAccessList (id : str)
| OpCreateWafPolicy (name : str) (description : option str) (sec : SecurityPolicy)
| OpPutWafPolicy (id name : str) (description : option str) (sec : SecurityPolicy)
| OpDeleteWafPolicy (id : str)
| OpRestore (merge : bool) (ids : list str) (b : ProxyBackup).

Section running.
Context `{Crypto} `{Formats}.
Variable scan : list CertRow -> list CertRow.
Variable to_lowercase : str -> str.
Variable url_parse : str -> option Url.
Variable iter_routes : gmap str (list Route) -> list (str * list Route).
Variable iter_hosts : gmap str StoredCert -> list (str * StoredCert).
Variable db_text : DbError -> str.
Variable apply_text : ApplyError -> str.
Variable store_text : StoreError -> str.
Variable parse_expiry : str -> option Z.

Definition run_op (E : AdminEnv) (op : ApiOp) : Api unit :=
  match op with
  | OpLogin username password header peer => _ ← auth_login db_text E username password header peer; mret tt
  | OpChangePassword current new header peer => auth_change_password db_text E current new header peer
  | OpPutConfig body => _ ← put_config scan to_lowercase url_parse iter_routes db_text apply_text store_text E body; mret tt
  | OpReload => _ ← reload_config scan to_lowercase url_parse iter_routes db_text apply_text E; mret tt
  | OpUploadCertificate hosts cert key => _ ← certificates_upload db_text store_text E hosts cert key; mret tt
  | OpDeleteCertificate id => certificates_delete scan db_text id
  | OpCreateDns name ty creds => _ ← dns_providers_create db_text E name ty creds; mret tt
  | OpPutDns id name ty creds => dns_providers_put db_text id name ty creds
  | OpDeleteDns id => dns_providers_delete db_text id
  | OpCreateAccessList name d geo => _ ← access_lists_create scan to_lowercase url_parse db_text apply_text store_text E name d geo; mret tt
  | OpPutAccessList id name d geo => access_lists_put scan to_lowercase url_parse db_text apply_text store_text E id name d geo
  | OpDeleteAccessList id => access_lists_delete scan to_lowercase url_parse db_text apply_text store_text E id
  | OpCreateWafPolicy name d sec => _ ← waf_policies_create scan to_lowercase url_parse db_text apply_text store_text E name d sec; mret tt
  | OpPutWafPolicy id name d sec => waf_policies_put scan to_lowercase url_parse db_text apply_text store_text E id name d sec
  | OpDeleteWafPolicy id => waf_policies_delete scan to_lowercase url_parse db_text apply_text store_text E id
  | OpRestore merge ids b => _ ← proxy_backup_restore scan to_lowercase url_parse iter_routes db_text apply_text store_text E merge ids b; mret tt
  end.

(** ** The process *)

(** [rn_passes]: the passes of Auto-SSL that were started and have not run yet, each with
    the configuration it was given. *)
Record Running := mkRunning {
  rn_admin : Admin;
  rn_passes : list Config;
  rn_inflight : gset str;
  rn_orders : list TlsConfig;
}.

(** After [main]: the sessions of the database, and, with ACME, a pass after 3 and one
    after 120 seconds. *)
Definition start_running (E : AdminEnv) (log : ProxyLog) (st : Started) (d : DbState) : Running :=
  let admin := mkAdmin (sd_router st) (sd_certs st) (sd_config st) (Some ∅) (Some d) ∅ log (sd_log_enabled st) [] [] in
  mkRunning (load_sessions_from_db db_text E admin).2 (if ae_acme E then [sd_config st; sd_config st] else []) ∅ [].

(** A request; the passes it starts wait to run. *)
Definition handle_op (E : AdminEnv) (op : ApiOp) (p : Running) : Running :=
  let admin := (run_op E op (rn_admin p)).2 in
  mkRunning admin (rn_passes p ++ drop (length (ad_sweeps (rn_admin p))) (ad_sweeps admin)) (rn_inflight p) (rn_orders p).

Definition ssl_view (p : Running) (d : DbState) : SslState := mkSslState d (ad_certs (rn_admin p)) (rn_inflight p) (rn_orders p).
Definition ssl_put (passes : list Config) (s : SslState) (p : Running) : Running :=
  mkRunning (set_certs (ss_certs s) (set_db (Some (ss_db s)) (rn_admin p))) passes (ss_inflight s) (ss_orders s).

(** A pass that waited runs, for its own configuration, in one step from its listing of
    the certificates to its last order. *)
Definition run_pass (E : AdminEnv) (c : Config) (rest : list Config) (p : Running) : Running :=
  match ad_db (rn_admin p) with
  | None => mkRunning (rn_admin p) rest (rn_inflight p) (rn_orders p)
  | Some d => ssl_put rest (spawn_auto_ssl_for_config scan iter_hosts parse_expiry (ae_io E) (ae_certs_dir E) (ae_now E) c (ssl_view p d)) p
  end.

(** The certificate authority has answered an order. *)
Definition end_order (E : AdminEnv) (id : str) (got : option (list str * str * str)) (o : TlsConfig) (p : Running) : Running :=
  match ad_db (rn_admin p) with
  | None => p
  | Some d => ssl_put (rn_passes p) (finish_order (ae_io E) (ae_certs_dir E) (ae_now E) id got o (ssl_view p d)) p
  end.

Inductive process_step (p : Running) : Running -> Prop :=
| step_request E op : process_step p (handle_op E op p)
| step_pass E before c after : rn_passes p = before ++ c :: after -> process_step p (run_pass E c (before ++ after) p)
| step_order E id got o : o ∈ rn_orders p -> process_step p (end_order E id got o p).

(** ** What every reachable state has *)

(** The configuration can be applied; the router has the routes of one configuration. *)
Definition applies (c : Config) : Prop := exists t, config_to_route_table to_lowercase url_parse c = Ok t.
Definition serves_one (r : Router) : Prop := exists c t, config_to_route_table to_lowercase url_parse c = Ok t /\ r = mkRouter t (cfg_http3 c).

Definition moves (s s' : Admin) : Prop :=
  (exists l, ad_sweeps s' = ad_sweeps s ++ l /\ Forall applies l) /\ (ad_router s' = ad_router s \/ serves_one (ad_router s')).

#[local] Instance moves_preorder : PreOrder moves.
Proof.
  split.
  - intros s. split; [|by left]. exists []. by rewrite app_nil_r.
  - intros s s' s'' [(l & Hl & Hf) Hr] [(l' & Hl' & Hf') Hr']. split.
    + exists (l ++ l'). rewrite Hl', Hl, <- app_assoc. split; [done|]. by apply Forall_app.
    + destruct Hr' as [-> |]; [done|by right].
Qed.

Definition tame {A} (m : Api A) : Prop := forall s, moves s (m s).2.

Lemma moves_still s s' : ad_sweeps s' = ad_sweeps s -> ad_router s' = ad_router s -> moves s s'.
Proof. intros Hs Hr. split; [exists []; by rewrite app_nil_r|by left]. Qed.

Lemma tame_ret {A} (a : A) : tame (mret a : Api A).
Proof. intros s. by apply moves_still. Qed.
Lemma tame_fail {A} status msg : tame (api_fail status msg : Api A).
Proof. intros s. by apply moves_still. Qed.
Lemma tame_get {A} (f : Admin -> A) : tame (api_get f).
Proof. intros s. by apply moves_still. Qed.
Lemma tame_bind {A B} (m : Api A) (k : A -> Api B) : tame m -> (forall a, tame (k a)) -> tame (m ≫= k).
Proof.
  intros Hm Hk s. specialize (Hm s). unfold mbind, api_bind. destruct (m s) as [[a|e] s1]; [|done].
  etransitivity; [exact Hm|]. apply Hk.
Qed.
Lemma tame_db {A} (m : Db A) : tame (db_call db_text m).
Proof. intros s. unfold db_call. destruct (ad_db s); [|by apply moves_still]. destruct (m _). by apply moves_still. Qed.
Lemma tame_require_db : tame require_db.
Proof. intros s. unfold require_db. destruct (ad_db s); by apply moves_still. Qed.
Lemma tame_backup_db : tame backup_db.
Proof. intros s. unfold backup_db. destruct (ad_db s); by apply moves_still. Qed.
Lemma tame_modify f : (forall s, moves s (f s)) -> tame (api_modify f).
Proof. intros Hf s. apply Hf. Qed.

Create HintDb tame.
#[local] Hint Resolve tame_ret tame_fail tame_get tame_db tame_require_db tame_backup_db : tame.
#[local] Hint Extern 3 (tame (api_modify _)) => apply tame_modify; intros ?; repeat case_match; by apply moves_still : tame.

(** Handlers are made of binds, tests and the calls above. *)
Ltac tame_step := first
  [ progress eauto with tame
  | apply tame_bind; [|intros ?]
  | match goal with |- tame (match ?x with _ => _ end) => destruct x end
  | match goal with |- tame (if ?x then _ else _) => destruct x end ].
Ltac tame_solve := repeat tame_step.

Lemma tame_load_db_certs E : tame (load_db_certs_into_store scan db_text E).
Proof.
  intros s. unfold load_db_certs_into_store. pose proof (tame_db (get_all_certificates_for_store scan) s) as Hd.
  destruct (db_call _ _ s) as [[rows|e] s1]; [|done]. destruct (insert_rows _ _ _ _) as [ok c]. cbn in *. etransitivity; [exact Hd|]. by apply moves_still.
Qed.
#[local] Hint Resolve tame_load_db_certs : tame.

Lemma tame_install E c : applies c -> tame (install_config scan db_text E c).
Proof.
  intros Ha. unfold install_config. tame_solve. intros s. cbn. destruct (ae_acme E); [|by apply moves_still].
  split; [|by left]. exists [c]. split; [done|]. by apply Forall_singleton.
Qed.

Lemma moves_apply s c r : apply_config to_lowercase url_parse (ad_router s) c = (Ok tt, r) -> applies c /\ moves s (set_router r s).
Proof.
  unfold apply_config. destruct (config_to_route_table to_lowercase url_parse c) as [t|] eqn:Ht; [|done]. intros [= <-]. split; [by exists t|].
  split; [exists []; by rewrite app_nil_r|]. right. by exists c, t.
Qed.

Lemma tame_activate E c : tame (activate_proxy_config scan to_lowercase url_parse db_text apply_text store_text E c).
Proof.
  intros s. unfold activate_proxy_config. destruct (apply_config to_lowercase url_parse (ad_router s) c) as [[[]|e] r] eqn:Ha; [|by apply moves_still].
  apply moves_apply in Ha as [Hc Hm]. destruct (reload_from_configs _ _ _) as [[[]|e] certs].
  - etransitivity; [exact Hm|]. etransitivity; [|apply (tame_install E c Hc)]. by apply moves_still.
  - etransitivity; [exact Hm|]. by apply moves_still.
Qed.
#[local] Hint Resolve tame_activate : tame.

Lemma tame_persist E c : tame (persist_proxy_config scan to_lowercase url_parse db_text apply_text store_text E c).
Proof. unfold persist_proxy_config. tame_solve. Qed.
#[local] Hint Resolve tame_persist : tame.

Lemma tame_log E msg : tame (log_reload E msg).
Proof. unfold log_reload. tame_solve. Qed.
#[local] Hint Resolve tame_log : tame.

Lemma tame_put_config E c : tame (put_config scan to_lowercase url_parse iter_routes db_text apply_text store_text E c).
Proof. unfold put_config. tame_solve. Qed.

Lemma tame_reload E : tame (reload_config scan to_lowercase url_parse iter_routes db_text apply_text E).
Proof.
  unfold reload_config. apply tame_bind; [tame_solve|intros _]. apply tame_bind; [tame_solve|intros stored]. set (c := default config_default stored).
  intros s. unfold mbind at 1, api_bind at 1. unfold api_apply. destruct (apply_config to_lowercase url_parse (ad_router s) c) as [[[]|e] r] eqn:Ha; [|by apply moves_still].
  apply moves_apply in Ha as [Hc Hm]. etransitivity; [exact Hm|]. pose proof (tame_install E c Hc). revert s r Hm. intros s r _.
  match goal with |- moves _ (?m _).2 => cut (tame m); [intros Ht; apply Ht|] end. tame_solve.
Qed.

Lemma tame_save_and_activate E c : tame (save_and_activate scan to_lowercase url_parse db_text apply_text store_text E c).
Proof.
  unfold save_and_activate. tame_solve. intros s. unfold apply_running.
  destruct (apply_config to_lowercase url_parse (ad_router s) c) as [[[]|e] r] eqn:Ha; [|by apply moves_still].
  apply moves_apply in Ha as [_ Hm]. etransitivity; [exact Hm|]. by apply moves_still.
Qed.
#[local] Hint Resolve tame_put_config tame_reload tame_save_and_activate : tame.

Lemma tame_load_config E : tame (load_config E).
Proof. intros s. unfold load_config. repeat case_match; by apply moves_still. Qed.
#[local] Hint Resolve tame_load_config : tame.

Lemma tame_normalize_name name : tame (normalize_name name).
Proof. unfold normalize_name. tame_solve. Qed.
Lemma tame_or_404 {A} (o : option A) : tame (or_404 o).
Proof. unfold or_404. tame_solve. Qed.
#[local] Hint Resolve tame_normalize_name tame_or_404 : tame.

Lemma tame_notify kind username header peer : tame (notify_auth kind username header peer).
Proof. unfold notify_auth. tame_solve. Qed.
#[local] Hint Resolve tame_notify : tame.

Lemma tame_check_password E username password header peer : tame (check_password db_text E username password header peer).
Proof.
  intros s. unfold check_password. destruct (ad_db s) eqn:Hd; [|by apply moves_still].
  match goal with |- moves _ (?m _).2 => cut (tame m); [intros Ht; apply Ht|] end. tame_solve.
Qed.
#[local] Hint Resolve tame_check_password : tame.

Lemma tame_login E username password header peer : tame (auth_login db_text E username password header peer).
Proof. unfold auth_login. tame_solve. Qed.

Lemma tame_resolve E header : tame (api_resolve E header).
Proof.
  intros s. unfold api_resolve, resolve_username. destruct (extract_bearer header) as [token|]; [|by apply moves_still].
  unfold resolve_username_from_token, session_username. repeat case_match; simplify_eq; by apply moves_still.
Qed.
#[local] Hint Resolve tame_resolve : tame.

Lemma tame_change_password E current new header peer : tame (auth_change_password db_text E current new header peer).
Proof. unfold auth_change_password. tame_solve. Qed.

Lemma tame_restore_certificate E id b rep : tame (restore_certificate db_text E id b rep).
Proof.
  unfold restore_certificate. tame_solve. intros s. unfold api_step. destruct (insert_pem_for_hosts _ _ _ _ _ _ _). by apply moves_still.
Qed.
#[local] Hint Resolve tame_restore_certificate : tame.

Lemma tame_restore_certificates E skip ids l rep : tame (restore_certificates db_text E skip ids l rep).
Proof. revert ids rep. induction l as [|b l IH]; intros ids rep; cbn [restore_certificates]; tame_solve. Qed.
#[local] Hint Resolve tame_restore_certificates : tame.

Lemma tame_restore E merge ids b : tame (proxy_backup_restore scan to_lowercase url_parse iter_routes db_text apply_text store_text E merge ids b).
Proof.
  unfold proxy_backup_restore. tame_solve. intros s. unfold api_step.
  match goal with |- context [persist_proxy_config ?a ?b ?c ?d ?e ?f ?g ?h s] => pose proof (tame_persist g h s) as Hp; destruct (persist_proxy_config a b c d e f g h s) as [[[]|e0] s1] end;
    [|done]. etransitivity; [exact Hp|]. apply tame_log.
Qed.

Lemma tame_upload E hosts cert key : tame (certificates_upload db_text store_text E hosts cert key).
Proof.
  unfold certificates_upload. tame_solve. intros s. unfold api_step. destruct (insert_pem_for_hosts _ _ _ _ _ _ _) as [[] ?]; by apply moves_still.
Qed.

Lemma tame_delete_certificate id : tame (certificates_delete scan db_text id).
Proof. unfold certificates_delete. tame_solve. Qed.

#[local] Hint Resolve tame_login tame_change_password tame_restore tame_upload tame_delete_certificate : tame.

Lemma tame_op E op : tame (run_op E op).
Proof.
  destruct op; cbn [run_op]; unfold dns_providers_create, dns_providers_put, dns_providers_delete, found, access_lists_create, access_lists_put,
    access_lists_delete, waf_policies_create, waf_policies_put, waf_policies_delete; tame_solve.
Qed.

(** ** Orders *)

(** The order is for what an ACME entry of the configuration can be ordered for. *)
Definition order_from (c : Config) (o : TlsConfig) : Prop :=
  exists t email ch p ty cr, t ∈ cfg_tls c /\ tls_source t = Acme email ch p ty cr /\
    tls_hosts o = acme_hosts_for_order (trimmed_hosts (tls_hosts t)) ch /\ tls_source o = order_source c (tls_source t).

Section sweep.
Variable io : CertIo.
Variable certs_dir : str.

Definition adds (c : Config) (s s' : SslState) : Prop := forall o, o ∈ ss_orders s' -> o ∈ ss_orders s \/ order_from c o.

Lemma adds_same c s s' : same_orders s s' -> adds c s s'.
Proof. intros [Ho _] o. rewrite Ho. by left. Qed.

Lemma adds_trans c s1 s2 s3 : adds c s1 s2 -> adds c s2 s3 -> adds c s1 s3.
Proof. intros H1 H2 o Ho. destruct (H2 o Ho); [auto|by right]. Qed.

Lemma sweep_entry_adds now c rows s t : t ∈ cfg_tls c ->
  adds c s (sweep_entry scan iter_hosts parse_expiry io certs_dir now c (rows, s) t).2.
Proof.
  intros Ht. unfold sweep_entry. destruct (tls_source t) as [email ch p ty cr| |] eqn:Esrc; try by apply adds_same.
  destruct (is_empty (trimmed_hosts (tls_hosts t))); [by apply adds_same|].
  set (s1 := match List.find _ rows with Some row => drop_row row s | None => s end).
  assert (Hs1 : adds c s s1) by (subst s1; destruct (List.find _ rows); apply adds_same; [apply drop_row_orders|done]).
  clearbody s1. destruct (is_empty (acme_hosts_for_order _ ch)); [done|].
  assert (Hord : forall s2, adds c s2 (order_entry scan parse_expiry now c (Acme email ch p ty cr) (acme_hosts_for_order (trimmed_hosts (tls_hosts t)) ch) rows s2).2).
  { intros s2 o. destruct (order_entry_start scan parse_expiry now c (Acme email ch p ty cr) (acme_hosts_for_order (trimmed_hosts (tls_hosts t)) ch) rows s2) as [[-> _]|(_ & -> & _)]; [by left|].
    rewrite elem_of_app. intros [?|Ho%list_elem_of_singleton]; [by left|right]. subst o. exists t, email, ch, p, ty, cr. by rewrite Esrc. }
  destruct (find_acme_cert_for_hosts _ _ _ _) as [row|]; [|by eapply adds_trans].
  destruct (is_empty (hosts_missing_from_store _ _ _)); [done|].
  pose proof (reload_orders scan io certs_dir row (hosts_covered_by_row row (trimmed_hosts (tls_hosts t))) s1) as Hr.
  destruct (reload_acme_cert_into_store _ _ _ _ _ _) as [[] s2]; cbn in Hr |- *; (eapply adds_trans; [exact Hs1|]); [by apply adds_same|].
  eapply adds_trans; [by apply adds_same|apply Hord].
Qed.

Lemma sweep_adds now c s : adds c s (spawn_auto_ssl_for_config scan iter_hosts parse_expiry io certs_dir now c s).
Proof.
  unfold spawn_auto_ssl_for_config. destruct (list_certificates scan (ss_db s)) as [[rows|] d]; [|by apply adds_same].
  destruct (_ =? 0)%nat; [by apply adds_same|].
  pose proof (same_orders_foldl _ rows (ss_set_db d s) (renew_row_orders parse_expiry now c)) as Hr.
  set (s1 := foldl _ _ rows) in *. clearbody s1. destruct (list_certificates scan (ss_db s1)) as [[rows'|] d']; [|by apply adds_same].
  eapply (adds_trans _ _ (ss_set_db d' s1)); [by apply adds_same|].
  assert (Hf : forall ts rows s, ts ⊆ cfg_tls c -> adds c s (foldl (sweep_entry scan iter_hosts parse_expiry io certs_dir now c) (rows, s) ts).2).
  { clear. induction ts as [|t ts IH]; intros rows s Hts; [by apply adds_same|]. cbn [foldl].
    pose proof (sweep_entry_adds now c rows s t (Hts t (list_elem_of_here _ _))) as He.
    destruct (sweep_entry scan iter_hosts parse_expiry io certs_dir now c (rows, s) t) as [rows' s']. eapply adds_trans; [exact He|]. apply IH. set_solver. }
  eapply adds_trans; [by apply (Hf (cfg_tls c) rows')|]. apply adds_same, sync_store_orders.
Qed.

Lemma finish_orders_subset now id got o s : ss_orders (finish_order io certs_dir now id got o s) ⊆ ss_orders s.
Proof.
  unfold finish_order. cbn [ss_orders]. intros x Hx. apply list_elem_of_filter in Hx as [_ Hx].
  destruct got as [[[hosts cert] key]|]; [|done]. by destruct (add_certificate _ _ _ _ _ _ _) as [[]].
Qed.

End sweep.

(** ** Every interleaving *)

(** [c0] is the configuration of the start; [ad_sweeps] are those activated since. *)
Record running_ok (c0 : Config) (p : Running) : Prop := {
  ro_router : serves_one (ad_router (rn_admin p));
  ro_sweeps : Forall applies (ad_sweeps (rn_admin p));
  ro_passes : rn_passes p ⊆ c0 :: ad_sweeps (rn_admin p);
  ro_locks : forall d certs, orders_ok (mkSslState d certs (rn_inflight p) (rn_orders p));
  ro_orders : forall o, o ∈ rn_orders p -> exists c, c ∈ c0 :: ad_sweeps (rn_admin p) /\ order_from c o;
}.

Lemma handle_op_ok c0 E op p : running_ok c0 p -> running_ok c0 (handle_op E op p).
Proof.
  intros [Hr Hs Hp Hl Ho]. unfold handle_op. destruct (tame_op E op (rn_admin p)) as [(l & Hl' & Hf) Hr']. split; cbn [rn_admin rn_passes rn_inflight rn_orders].
  - destruct Hr' as [-> |]; done.
  - rewrite Hl'. by apply Forall_app.
  - rewrite Hl', drop_app_length. set_solver.
  - done.
  - intros o Hin. destruct (Ho o Hin) as (c & Hc & Hx). exists c. split; [|done]. rewrite Hl'. set_solver.
Qed.

Lemma run_pass_ok c0 E before c after p : rn_passes p = before ++ c :: after -> running_ok c0 p -> running_ok c0 (run_pass E c (before ++ after) p).
Proof.
  intros Hp0 [Hr Hs Hp Hl Ho]. unfold run_pass. assert (Hp' : before ++ after ⊆ c0 :: ad_sweeps (rn_admin p)) by (rewrite Hp0 in Hp; set_solver).
  assert (Hc : c ∈ c0 :: ad_sweeps (rn_admin p)) by (rewrite Hp0 in Hp; set_solver).
  destruct (ad_db (rn_admin p)) as [d|]; [|by split].
  pose proof (sweep_ok scan iter_hosts parse_expiry (ae_io E) (ae_certs_dir E) (ae_now E) c (ssl_view p d) (Hl _ _)) as Hok.
  pose proof (sweep_adds (ae_io E) (ae_certs_dir E) (ae_now E) c (ssl_view p d)) as Ha.
  set (s := spawn_auto_ssl_for_config _ _ _ _ _ _ _ _) in *. split; cbn [ssl_put rn_admin rn_passes rn_inflight rn_orders]; [done..| |].
  - intros d' certs. eapply same_orders_ok; [|exact Hok]. done.
  - intros o Hin. destruct (Ha o Hin) as [Hold|Hnew]; [by apply Ho|]. by exists c.
Qed.

Lemma end_order_ok c0 E id got o p : o ∈ rn_orders p -> running_ok c0 p -> running_ok c0 (end_order E id got o p).
Proof.
  intros Hin [Hr Hs Hp Hl Ho]. unfold end_order. destruct (ad_db (rn_admin p)) as [d|]; [|by split].
  pose proof (finish_ok parse_expiry (ae_io E) (ae_certs_dir E) (ae_now E) id got o (ssl_view p d) Hin (Hl _ _)) as Hok.
  pose proof (finish_orders_subset (ae_io E) (ae_certs_dir E) (ae_now E) id got o (ssl_view p d)) as Hsub.
  set (s := finish_order _ _ _ _ _ _ _) in *. split; cbn [ssl_put rn_admin rn_passes rn_inflight rn_orders]; [done..| |].
  - intros d' certs. eapply same_orders_ok; [|exact Hok]. done.
  - intros x Hx. apply Ho. by apply Hsub.
Qed.

Lemma running_ok_steps c0 p p' : rtc process_step p p' -> running_ok c0 p -> running_ok c0 p'.
Proof.
  induction 1 as [|p p1 p2 Hs _ IH]; [done|]. intros Hp. apply IH. destruct Hs; [by apply handle_op_ok|by eapply run_pass_ok|by apply end_order_ok].
Qed.

(** ** From the start *)

Lemma start_bind_inv {A B} (m : Start A) (k : A -> Start B) d b d' : (m ≫= k) d = (Ok b, d') ->
  exists a d1, m d = (Ok a, d1) /\ k a d1 = (Ok b, d').
Proof. unfold mbind, start_bind. destruct (m d) as [[a|e] d1]; [|done]. by exists a, d1. Qed.

Section start.
Variable routes_json routes_yaml : str -> option RoutesFile.
Variable iter : gmap str str -> list (str * str).
Variable tls_json : list TlsConfig -> str.
Variable cpus : N.
Variable macos h3_excluded : bool.
Variable tls_ok : TlsChoice -> bool.
Variable default_pool_size : N.
Variable with_prometheus : bool.
Variable E : AdminEnv.

Abbreviation serve_config := (serve_config scan to_lowercase url_parse iter_hosts tls_json cpus macos tls_ok default_pool_size with_prometheus E).
Abbreviation main_start := (main_start scan to_lowercase url_parse routes_json routes_yaml iter iter_routes iter_hosts tls_json cpus macos h3_excluded
  tls_ok default_pool_size with_prometheus E).

Lemma serve_config_router e cfg penv c d st d' : serve_config e cfg penv c d = (Ok st, d') -> serves_one (sd_router st).
Proof.
  unfold Startup.serve_config. intros (t & d1 & Ht & Hk)%start_bind_inv.
  destruct (config_to_route_table to_lowercase url_parse c) as [t'|] eqn:Hc; [|done]. injection Ht as -> _.
  apply start_bind_inv in Hk as (st1 & d2 & _ & Hk). apply start_bind_inv in Hk as ([c' st2] & d3 & _ & Hk).
  apply start_bind_inv in Hk as (st3 & d4 & _ & Hk). apply start_bind_inv in Hk as (plan & d5 & _ & Hk). injection Hk as <- _.
  by exists c, t.
Qed.

Lemma main_router file_exists e0 d st d' : main_start file_exists e0 d = (Ok st, d') -> serves_one (sd_router st).
Proof.
  unfold Startup.main_start. intros (e & d1 & _ & Hk)%start_bind_inv. apply start_bind_inv in Hk as (cfg & d2 & _ & Hk).
  apply start_bind_inv in Hk as (penv & d3 & _ & Hk). apply start_bind_inv in Hk as (u & d4 & _ & Hk).
  apply start_bind_inv in Hk as (c & d5 & _ & Hk). by eapply serve_config_router.
Qed.

Lemma start_running_ok log st d : serves_one (sd_router st) -> running_ok (sd_config st) (start_running E log st d).
Proof.
  intros Hr. unfold start_running. set (admin := mkAdmin _ _ _ _ _ _ _ _ _ _).
  assert (Ht : tame (load_sessions_from_db db_text E)) by (unfold load_sessions_from_db; tame_solve).
  destruct (Ht admin) as [(l & Hl & Hf) Hr']. split; cbn [rn_admin rn_passes rn_inflight rn_orders].
  - destruct Hr' as [-> |]; done.
  - rewrite Hl. by apply Forall_app.
  - destruct (ae_acme E); set_solver.
  - intros d' certs. apply no_orders_ok.
  - intros o Ho. by apply elem_of_nil in Ho.
Qed.

(** C16: Whatever the running proxy does, it serves one configuration and orders for
    configured hosts.  From every successful start, in every interleaving of requests to
    the management interface, passes of Auto-SSL and orders that end: the router has
    exactly the routes of one configuration that could be applied, never a mixture;
    running orders never share their identifiers, and the locks held are theirs; and each
    order asks for what an ACME entry names, in the configuration of the start or in one
    that was activated since. *)
Theorem running_proxy file_exists e0 d st d' log p : main_start file_exists e0 d = (Ok st, d') ->
  rtc process_step (start_running E log st d') p ->
  serves_one (ad_router (rn_admin p)) /\
  NoDup ((fun o => order_key (tls_hosts o)) <$> rn_orders p) /\
  rn_inflight p = list_to_set ((fun o => order_key (tls_hosts o)) <$> rn_orders p) /\
  forall o, o ∈ rn_orders p -> exists c, c ∈ sd_config st :: ad_sweeps (rn_admin p) /\ order_from c o.
Proof.
  intros Hm Hr. apply main_router in Hm. destruct (running_ok_steps _ _ _ Hr (start_running_ok log st d' Hm)) as [Hone _ _ Hl Ho].
  destruct (Hl d' store_new) as [Hd Hi _]. done.
Qed.

End start.
End running.

(** ** A start, a change, a pass *)

Definition acme_env : AdminEnv :=
  mkAdminEnv true (Some (bs "pw")) false "/certs" "/dist" None (fun _ => None) 9 "u1" (file_io true) (fun _ => true) (fun p => Some p) true Info.

Definition acme_start : result StartError Started * DbState :=
  @main_start (toy [acme_tls]) id_rows to_ascii_lowercase no_url no_routes no_routes map_order (fun m => map_to_list m)
    (fun m => map_to_list m) no_json 4 false false any_tls 128 false acme_env true small_env (put_db [acme_tls]).

Definition acme_running (st : Started) (d : DbState) : Running :=
  @start_running (toy [acme_tls]) no_text acme_env (log_new 10) st d.

Definition acme_op (op : ApiOp) (p : Running) : Running :=
  @handle_op toy_crypto (toy [acme_tls]) id_rows to_ascii_lowercase no_url (fun m => map_to_list m) no_text no_text no_text acme_env op p.
Definition acme_pass (c : Config) (rest : list Config) (p : Running) : Running :=
  @run_pass (toy [acme_tls]) id_rows (fun m => map_to_list m) parse_days acme_env c rest p.

(** A site that is removed right after the start is still ordered for: the delayed passes
    have the configuration of the start. *)
Lemma removed_site_ordered :
  match acme_start with
  | (Ok st, d) =>
    let p := acme_op (OpPutConfig (web_config [])) (acme_running st d) in
    cfg_tls (ad_config (rn_admin p)) = [] /\
    match rn_passes p with
    | c :: rest => tls_hosts <$> rn_orders (acme_pass c rest p) = [[bs "app.io"]]
    | [] => False
    end
  | _ => False
  end.
Proof. vm_compute. done. Qed.

Lemma running_proxy_witness :
  match acme_start with
  | (Ok st, d) =>
    let p := acme_op (OpPutConfig (web_config [])) (acme_running st d) in
    match rn_passes p with
    | c :: rest =>
      let p' := acme_pass c rest p in
      length (rn_orders p') = 1%nat /\
      forall o, o ∈ rn_orders p' -> exists c, c ∈ sd_config st :: ad_sweeps (rn_admin p') /\ order_from c o
    | [] => False
    end
  | _ => False
  end.
Proof.
  destruct acme_start as [[st|e] d] eqn:He; [|vm_compute in He; discriminate He]. cbv zeta.
  set (p := acme_op (OpPutConfig (web_config [])) (acme_running st d)). destruct (rn_passes p) as [|c rest] eqn:Hp.
  { exfalso. pose proof (f_equal (fun x => match x with (Ok st, d) => length (rn_passes (acme_op (OpPutConfig (web_config [])) (acme_running st d))) | _ => 1%nat end) He) as Hx.
    cbv beta iota in Hx. fold p in Hx. rewrite Hp in Hx. vm_compute in Hx. discriminate Hx. }
  split.
  { pose proof (f_equal (fun x => match x with (Ok st, d) => let p := acme_op (OpPutConfig (web_config [])) (acme_running st d) in
      match rn_passes p with c :: rest => length (rn_orders (acme_pass c rest p)) | [] => 0%nat end | _ => 0%nat end) He) as Hx.
    cbv beta iota zeta in Hx. fold p in Hx. rewrite Hp in Hx. rewrite <- Hx. vm_compute. reflexivity. }
  apply (@running_proxy toy_crypto (toy [acme_tls]) id_rows to_ascii_lowercase no_url (fun m => map_to_list m) (fun m => map_to_list m) no_text no_text no_text parse_days
    no_routes no_routes map_order no_json 4 false false any_tls 128 false acme_env true small_env (put_db [acme_tls]) st d (log_new 10) (acme_pass c rest p) He).
  eapply rtc_l; [apply (step_request _ _ _ _ _ _ _ _ _ _ acme_env (OpPutConfig (web_config [])))|].
  eapply rtc_l; [apply (step_pass _ _ _ _ _ _ _ _ _ _ acme_env [] c rest); exact Hp|]. apply rtc_refl.
Defined.
