(* ===== verification/KubeSites.v ===== *)
(** * Sites kept in the cluster (api/kubernetes.rs)

    In ingress mode the management API edits sites as Ingress objects, and as
    HTTPRoute objects attached to Gateways.  The handlers read a form, write objects
    through the API server and read them back into a form.  The API server is a class
    ([KubeServer]): its calls, and what they do to the stored objects.  The objects
    are those the controller reads ([Controller]). *)

From S2P Require Import Prelude RustStr Ip GeoIp Waf Bot Captcha Security Edge EdgeAuth ProxyConfig Router Forward Apply.
From S2P Require Import Telemetry CertStore Controller Database Admin.

(** ** The API server *)

Inductive Kind : Type := KindIngress | KindGateway | KindRoute.
#[export] Instance Kind_eq_dec : EqDecision Kind.
Proof. solve_decision. Defined.

Definition object (kd : Kind) : Type :=
  match kd with KindIngress => KIngress | KindGateway => KGateway | KindRoute => KHTTPRoute end.

(** Objects are stored by namespace and name. *)
Definition Key : Type := str * str.

(** A call succeeds or fails with an error text.  A failed write may have been carried
    out (an answer can get lost), a failed read changes nothing. *)
Class KubeServer (K : Type) := {
  stored : K -> forall kd, gmap Key (object kd);
  created_at : K -> Kind -> Key -> option str;
  kube_get : forall kd, Key -> K -> result str (object kd) * K;
  kube_create : forall kd, Key -> object kd -> K -> result str unit * K;
  kube_replace : forall kd, Key -> object kd -> K -> result str unit * K;
  kube_delete : forall kd, Key -> K -> result str unit * K;
  kube_list : forall kd, option str -> K -> result str (list (Key * object kd)) * K;
  kube_get_spec kd key k r k' : kube_get kd key k = (r, k') ->
    stored k' = stored k /\ forall o, r = Ok o -> stored k kd !! key = Some o;
  kube_list_spec kd ns k r k' : kube_list kd ns k = (r, k') ->
    stored k' = stored k /\
    forall l, r = Ok l -> NoDup l.*1 /\
      forall key o, (key, o) ∈ l <-> stored k kd !! key = Some o /\ from_option (fun n => key.1 = n) True ns;
  kube_create_spec kd key o k r k' : kube_create kd key o k = (r, k') ->
    (forall kd', kd' <> kd -> stored k' kd' = stored k kd') /\
    (stored k' kd = stored k kd /\ is_ok r = false \/ stored k kd !! key = None /\ stored k' kd = <[key := o]> (stored k kd));
  kube_replace_spec kd key o k r k' : kube_replace kd key o k = (r, k') ->
    (forall kd', kd' <> kd -> stored k' kd' = stored k kd') /\
    (stored k' kd = stored k kd /\ is_ok r = false \/ is_Some (stored k kd !! key) /\ stored k' kd = <[key := o]> (stored k kd));
  kube_delete_spec kd key k r k' : kube_delete kd key k = (r, k') ->
    (forall kd', kd' <> kd -> stored k' kd' = stored k kd') /\
    (stored k' kd = stored k kd /\ is_ok r = false \/ stored k' kd = delete key (stored k kd));
}.

(** ** Forms *)

Record FormRoute := mkFormRoute {
  fr_path : option str;
  fr_path_type : option str;
  fr_service_name : str;
  fr_service_port : option Z;
  fr_service_port_name : option str;
}.

Record CreateIngressBody := mkCreateIngressBody {
  ci_name : option str;
  ci_host : str;
  ci_routes : option (list FormRoute);
  ci_path : option str;
  ci_path_type : option str;
  ci_tls_secret_namespace : option str;
  ci_tls_secret_name : option str;
  ci_service_namespace : str;
  ci_service_name : str;
  ci_service_port : option Z;
  ci_service_port_name : option str;
  ci_ingress_namespace : option str;
  ci_ingress_class_name : option str;
  ci_gateway_name : option str;
  ci_gateway_namespace : option str;
  ci_geoip : GeoIpPolicy;
  ci_security : SecurityPolicy;
  ci_access_list_id : option str;
  ci_waf_policy_id : option str;
}.

Record CreateGatewayBody := mkCreateGatewayBody {
  cg_name : option str;
  cg_host : str;
  cg_gateway_namespace : option str;
  cg_tls_secret_namespace : option str;
  cg_tls_secret_name : option str;
  cg_gateway_class_name : option str;
}.

Record IngressFormRouteRow := mkFormRow {
  if_path : str;
  if_path_type : str;
  if_service_name : str;
  if_service_port : option Z;
  if_service_port_name : option str;
}.

(** The single-route fields of the row repeat its first route. *)
Record IngressFormRow := mkIngressFormRow {
  iw_namespace : str;
  iw_name : str;
  iw_host : str;
  iw_routes : list IngressFormRouteRow;
  iw_first : IngressFormRouteRow;
  iw_tls_secret_name : option str;
  iw_ingress_class_name : option str;
  iw_gateway_name : option str;
  iw_gateway_namespace : option str;
  iw_geoip : GeoIpPolicy;
  iw_security : SecurityPolicy;
  iw_access_list_id : option str;
  iw_waf_policy_id : option str;
}.

Record GatewayFormRow := mkGatewayFormRow {
  gf_namespace : str;
  gf_name : str;
  gf_host : str;
  gf_class : option str;
  gf_tls_secret_name : option str;
}.

Record K8sIngressRow := mkIngressRow {
  ir_name : str; ir_namespace : str; ir_class : option str; ir_hosts : list str; ir_created_at : option str }.
Record K8sGatewayRow := mkGatewayRow {
  gr_name : str; gr_namespace : str; gr_class : option str; gr_host : option str; gr_tls : option str;
  gr_listeners : list (str * str * Z * option str); gr_created_at : option str }.
Record K8sHttpRouteRow := mkRouteRow {
  rw_name : str; rw_namespace : str; rw_host : option str; rw_gateway_namespace : option str; rw_gateway_name : option str;
  rw_created_at : option str }.

(** [.map(str::trim).filter(|s| !s.is_empty())]. *)
Definition trimmed (o : option str) : option str := opt_filter (fun s => negb (is_empty s)) (trim <$> o).

Definition backend_port (number : option Z) (name : option str) : option (option Z * option str) :=
  match number, name with
  | Some n, _ => Some (Some n, None)
  | None, Some s => Some (None, Some s)
  | None, None => None
  end.

Definition form_path (path : option str) : str :=
  let p := trim (default (bs "/") path) in if is_empty p then bs "/" else p.
Definition form_path_type (t : option str) : str := default (bs "Prefix") (trimmed t).

(** The body's own route, when it lists none. *)
Definition body_route (b : CreateIngressBody) : FormRoute :=
  mkFormRoute (ci_path b) (ci_path_type b) (ci_service_name b) (ci_service_port b) (ci_service_port_name b).

Definition body_routes (b : CreateIngressBody) : option (list FormRoute) :=
  opt_filter (fun l => negb (is_empty l)) (ci_routes b).

(** *** Ingress objects *)

Definition ingress_path (no_name no_port : str) (r : FormRoute) : result str KPath :=
  let name := trim (fr_service_name r) in
  if is_empty name then Err no_name
  else
    match backend_port (fr_service_port r) (trimmed (fr_service_port_name r)) with
    | None => Err no_port
    | Some (number, port_name) =>
      Ok (mkKPath (Some (form_path (fr_path r))) (form_path_type (fr_path_type r))
            (mkKBackend (Some (mkKService name number port_name)) None))
    end.

Fixpoint collect_results {A B} (f : A -> result str B) (l : list A) : result str (list B) :=
  match l with
  | [] => Ok []
  | a :: l => match f a with Err e => Err e | Ok b => match collect_results f l with Err e => Err e | Ok bs => Ok (b :: bs) end end
  end.

Definition ingress_paths_from_body (b : CreateIngressBody) : result str (list KPath) :=
  match body_routes b with
  | Some l => collect_results (ingress_path "each route requires service_name" "each route requires service_port or service_port_name") l
  | None => collect_results (ingress_path "service_name is required" "service_port or service_port_name is required") [body_route b]
  end.

Definition apply_policy_id_annotations (m : gmap str str) (acl waf : option str) : gmap str str :=
  let m := delete WAF_POLICY_ID_ANNOTATION (delete ACCESS_LIST_ID_ANNOTATION m) in
  let m := match trimmed acl with Some id => <[ACCESS_LIST_ID_ANNOTATION := id]> m | None => m end in
  match trimmed waf with Some id => <[WAF_POLICY_ID_ANNOTATION := id]> m | None => m end.

Definition merge_security_annotations (existing : option (gmap str str)) (geo : GeoIpPolicy) (sec : SecurityPolicy)
    (acl waf : option str) : option (gmap str str) :=
  let m := apply_policy_id_annotations (sec_apply_annotations (geo_apply_annotations (default ∅ existing) geo) sec) acl waf in
  if bool_decide (m = ∅) then None else Some m.

Definition body_annotations (existing : option (gmap str str)) (b : CreateIngressBody) : option (gmap str str) :=
  merge_security_annotations existing (ci_geoip b) (ci_security b) (ci_access_list_id b) (ci_waf_policy_id b).

Definition host_to_k8s_name (host : str) : str :=
  mjoin ((fun c => if Byte.eqb c "." then bs "-" else if Byte.eqb c "*" then bs "wildcard" else [c]) <$> host).

(** ** Handlers *)

(** What the handlers know of the process. *)
Record KubeEnv := mkKubeEnv {
  ke_viewer_mode : bool;
  ke_client : bool;
  ke_gateway_api_enabled : bool;
  ke_ingress_class : option str;
  ke_gateway_class : option str;
}.

(** The error texts of [e.to_string()] are inspected. *)
Definition is_not_found (to_lowercase : str -> str) (e : str) : bool :=
  contains "404" e || contains "not found" (to_lowercase e).

Definition KubeM (K A : Type) : Type := K -> result ApiError A * K.

Section handlers.
Context {K : Type} `{KS : !KubeServer K}.
Variable to_lowercase : str -> str.
Variable E : KubeEnv.

#[local] Instance kube_ret : MRet (KubeM K) := fun A a k => (Ok a, k).
#[local] Instance kube_bind : MBind (KubeM K) := fun A B f m k =>
  match m k with (Ok a, k') => f a k' | (Err e, k') => (Err e, k') end.

Definition kube_fail {A} (status : N) (msg : str) : KubeM K A := fun k => (Err (mkApiError status msg), k).

(** A call to the server, with the response a failure gives. *)
Definition kube_call {A} (m : K -> result str A * K) (on_error : str -> ApiError) : KubeM K A := fun k =>
  let '(r, k') := m k in (match r with Ok a => Ok a | Err e => Err (on_error e) end, k').
(** [.ok()]. *)
Definition kube_try {A} (m : K -> result str A * K) : KubeM K (option A) := fun k =>
  let '(r, k') := m k in (Ok (match r with Ok a => Some a | Err _ => None end), k').

Definition server_error (e : str) : ApiError := mkApiError 500 e.
Definition get_error (e : str) : ApiError := mkApiError (if is_not_found to_lowercase e then 404 else 500) e.

Definition not_available {A} : KubeM K A := kube_fail 404 "Kubernetes dashboard is only available in ingress mode".
Definition available : KubeM K unit :=
  if negb (ke_viewer_mode E) || negb (ke_client E) then not_available else mret tt.
Definition gateway_available : KubeM K unit :=
  if negb (ke_viewer_mode E) then not_available
  else if negb (ke_gateway_api_enabled E) then
    kube_fail 404 "Gateway API is disabled (set PERTISK_GATEWAY_API_ENABLED=true or gatewayApi.enabled=true)"
  else if negb (ke_client E) then not_available else mret tt.

Definition or_400 {A} (r : result str A) : KubeM K A := match r with Ok a => mret a | Err e => kube_fail 400 e end.

Definition nonempty_field (v msg : str) : KubeM K str := if is_empty (trim v) then kube_fail 400 msg else mret (trim v).

(** A deletion that finds nothing has succeeded. *)
Definition deletion (kd : Kind) (key : Key) : KubeM K unit := fun k =>
  let '(r, k') := kube_delete kd key k in
  (match r with Ok _ => Ok tt | Err e => if is_not_found to_lowercase e then Ok tt else Err (server_error e) end, k').

(** *** Ingresses *)

(** The TLS entry of the form; the secret has to be in the object's namespace. *)
Definition body_tls (tls_namespace tls_name : option str) (ns msg : str) : result str (option str) :=
  match trimmed tls_namespace, trimmed tls_name with
  | Some n, Some name => if n =s ns then Ok (Some name) else Err msg
  | _, _ => Ok None
  end.

Definition ingress_spec (b : CreateIngressBody) (host : str) (paths : list KPath) (tls : option str) : KIngressSpec :=
  mkKIngressSpec (or_else (ci_ingress_class_name b) (ke_ingress_class E)) (Some [mkKRule (Some host) (Some paths)])
    ((fun name => [mkKTls (Some [host]) (Some name)]) <$> tls).

Definition kubernetes_ingresses_create (b : CreateIngressBody) : KubeM K Key :=
  _ ← available;
  host ← nonempty_field (ci_host b) "host is required";
  service_namespace ← nonempty_field (ci_service_namespace b) "service_namespace is required";
  let ns := default service_namespace (trimmed (ci_ingress_namespace b)) in
  let name := default (host_to_k8s_name host) (trimmed (ci_name b)) in
  paths ← or_400 (ingress_paths_from_body b);
  tls ← or_400 (body_tls (ci_tls_secret_namespace b) (ci_tls_secret_name b) ns
                  "TLS secret must be in the same namespace as the Ingress (service namespace)");
  let ing := mkKIngress (Some ns) name (body_annotations None b) (Some (ingress_spec b host paths tls)) in
  _ ← kube_call (kube_create KindIngress (ns, name) ing) server_error;
  mret (ns, name).

Definition no_route : IngressFormRouteRow := mkFormRow (bs "/") (bs "Prefix") [] None None.

Definition form_route (p : KPath) : IngressFormRouteRow :=
  let svc := kb_service (kp_backend p) in
  mkFormRow (default (bs "/") (kp_path p)) (kp_type p) (from_option svc_name [] svc) (svc ≫= svc_port) (svc ≫= svc_port_name).

Definition or_one {A} (a : A) (l : list A) : list A := if is_empty l then [a] else l.

Definition ingress_form (key : Key) (ing : KIngress) (spec : KIngressSpec) (r : KRule) : IngressFormRow :=
  let routes := or_one no_route (form_route <$> default [] (kr_http r)) in
  let ids := policy_ids_from_annotations (ki_annotations ing) in
  mkIngressFormRow key.1 key.2 (default (bs "*") (kr_host r)) routes (default no_route (head routes))
    (t ← head (default [] (ki_tls spec)); kt_secret t) (ki_class spec) None None
    (geo_policy_from_annotations (ki_annotations ing)) (sec_policy_from_annotations (ki_annotations ing)) ids.1 ids.2.

Definition kubernetes_ingress_get (key : Key) : KubeM K IngressFormRow :=
  _ ← available;
  ing ← kube_call (kube_get KindIngress key) get_error;
  match ki_spec ing with
  | None => kube_fail 400 "Ingress has no spec"
  | Some spec =>
    match default [] (ki_rules spec) with
    | [] => kube_fail 400 "Ingress has no rules"
    | r :: _ => mret (ingress_form key ing spec r)
    end
  end.

Definition kubernetes_ingress_update (key : Key) (b : CreateIngressBody) : KubeM K Key :=
  _ ← available;
  host ← nonempty_field (ci_host b) "host is required";
  _ ← nonempty_field (ci_service_namespace b) "service_namespace is required";
  paths ← or_400 (ingress_paths_from_body b);
  tls ← or_400 (body_tls (ci_tls_secret_namespace b) (ci_tls_secret_name b) key.1
                  "TLS secret must be in the same namespace as the Ingress");
  cur ← kube_call (kube_get KindIngress key) get_error;
  let ing := mkKIngress (ki_namespace cur) (ki_name cur) (body_annotations (ki_annotations cur) b)
               (Some (ingress_spec b host paths tls)) in
  _ ← kube_call (kube_replace KindIngress key ing) server_error;
  mret key.

Definition kubernetes_ingress_delete (key : Key) : KubeM K unit := _ ← available; deletion KindIngress key.

Definition listed {kd} (ns : option str) : KubeM K (list (Key * object kd)) := kube_call (kube_list kd ns) server_error.
Definition created_of (kd : Kind) (key : Key) : KubeM K (option str) := fun k => (Ok (created_at k kd key), k).

(** The rows of a listing; the creation times are those of the server. *)
Fixpoint rows_of {A B} (kd : Kind) (row : Key -> A -> option str -> B) (l : list (Key * A)) : KubeM K (list B) :=
  match l with
  | [] => mret []
  | (key, a) :: l => t ← created_of kd key; rest ← rows_of kd row l; mret (row key a t :: rest)
  end.

Definition ingress_row (_ : Key) (ing : KIngress) (t : option str) : K8sIngressRow :=
  mkIngressRow (ki_name ing) (ingress_ns ing) (ki_spec ing ≫= ki_class) (from_option rule_hosts [] (ki_spec ing)) t.

Definition kubernetes_ingresses (ns : option str) : KubeM K (list K8sIngressRow) :=
  _ ← available; l ← @listed KindIngress ns; rows_of KindIngress ingress_row l.

(** *** Gateways *)

Definition is_https (l : GatewayListener) : bool := eq_ignore_ascii_case (gl_protocol l) "https".

Definition gateway_tls_secret (gw : KGateway) : option str :=
  l ← List.find is_https (gw_listeners gw); tls ← gl_tls l; r ← head (certificate_refs tls); Some (sr_name r).

Definition gateway_host (gw : KGateway) : option str := l ← List.find is_https (gw_listeners gw); gl_hostname l.

Definition gateway_managed_by_app (gw : KGateway) (want : option str) : bool :=
  match want with Some _ => bool_decide (gw_class gw = want) | None => is_some (gw_class gw) end.

Definition managed_gateway_keys (gws : list KGateway) : list Key :=
  (fun gw => (gateway_ns gw, gw_name gw)) <$> filter (fun gw => gateway_managed_by_app gw (ke_gateway_class E) = true) gws.

Definition httproute_attached_to_managed (r : KHTTPRoute) (managed : list Key) : bool :=
  if is_empty (hr_parents r) then bool_decide ((route_ns r, hr_name r) ∈ managed)
  else existsb (fun p => bool_decide ((default (route_ns r) (pa_namespace p), pa_name p) ∈ managed)) (hr_parents r).

Definition ensure_gateway_managed (gw : KGateway) : KubeM K unit :=
  if gateway_managed_by_app gw (ke_gateway_class E) then mret tt
  else kube_fail 404 "Gateway is not managed by this controller (check gateway class / PERTISK_GATEWAY_CLASS)".

Definition load_all_gateways (ns : option str) : KubeM K (list KGateway) := l ← @listed KindGateway ns; mret l.*2.

Definition ensure_httproute_managed (r : KHTTPRoute) : KubeM K unit :=
  gws ← load_all_gateways None;
  if httproute_attached_to_managed r (managed_gateway_keys gws) then mret tt
  else kube_fail 404 "HTTPRoute is not attached to a Gateway managed by this controller".

Definition httproute_row_from (_ : Key) (r : KHTTPRoute) (t : option str) : K8sHttpRouteRow :=
  let parent := head (hr_parents r) in
  mkRouteRow (hr_name r) (route_ns r) (head (hr_hostnames r)) (or_else (parent ≫= pa_namespace) (hr_namespace r))
    (pa_name <$> parent) t.

Definition gateway_row_from (_ : Key) (gw : KGateway) (t : option str) : K8sGatewayRow :=
  mkGatewayRow (gw_name gw) (gateway_ns gw) (gw_class gw) (gateway_host gw) (gateway_tls_secret gw)
    ((fun l => (gl_name l, gl_protocol l, gl_port l, gl_hostname l)) <$> gw_listeners gw) t.

Definition resolve_gateway_namespace (b : CreateGatewayBody) : str :=
  default (bs "default") (or_else (trimmed (cg_gateway_namespace b)) (trimmed (cg_tls_secret_namespace b))).

Definition resolve_gateway_site_namespace (b : CreateIngressBody) : str :=
  default (bs "default") (or_else (trimmed (ci_gateway_namespace b))
    (or_else (trimmed (ci_ingress_namespace b)) (trimmed (Some (ci_service_namespace b))))).

Definition gateway_path_match_type (t : str) : str := if trim t =s "Exact" then bs "Exact" else bs "PathPrefix".

Definition route_rule (service_namespace no_name no_port : str) (r : FormRoute) : result str HTTPRouteRule :=
  let name := trim (fr_service_name r) in
  if is_empty name then Err no_name
  else
    match fr_service_port r with
    | None => Err no_port
    | Some port =>
      Ok (mkRouteRule
            [Some (mkPathMatch (Some (gateway_path_match_type (form_path_type (fr_path_type r)))) (Some (form_path (fr_path r))))]
            [mkBackendRef None (Some (bs "Service")) name (Some service_namespace) (Some port)])
    end.

Definition httproute_rules_from_body (b : CreateIngressBody) (service_namespace : str) : result str (list HTTPRouteRule) :=
  match body_routes b with
  | Some l => collect_results (route_rule service_namespace "each route requires service_name"
                                 "each route requires service_port or service_port_name") l
  | None => collect_results (route_rule service_namespace "service_name is required"
                               "service_port or service_port_name is required") [body_route b]
  end.

Definition same_namespace_routes : AllowedRoutes := mkAllowedRoutes (Some (Some (bs "Same"))).
Definition gateway_listener_tls (mode : option str) (secret : str) : GatewayListenerTls :=
  mkListenerTls mode [mkSecretRef None (Some (bs "Secret")) secret None].

Definition build_https_listener (host : str) (secret : option str) : GatewayListener :=
  mkGatewayListener "https" 443 "HTTPS" (Some host) (Some same_namespace_routes)
    (gateway_listener_tls (Some (bs "Terminate")) <$> secret).

Definition merge_https_listener (old : GatewayListener) (host : str) (secret : option str) : GatewayListener :=
  mkGatewayListener (gl_name old) (gl_port old) (gl_protocol old) (Some host)
    (or_else (gl_allowed_routes old) (Some same_namespace_routes))
    (gateway_listener_tls (or_else (gl_tls old ≫= lt_mode) (Some (bs "Terminate"))) <$> secret).

(** The listener the form stands for. *)
Definition is_form_listener (l : GatewayListener) : bool := (gl_name l =s "https") || is_https l.

Fixpoint edit_listeners (host : str) (secret : option str) (ls : list GatewayListener) : list GatewayListener :=
  match ls with
  | [] => [build_https_listener host secret]
  | l :: rest => if is_form_listener l then merge_https_listener l host secret :: rest else l :: edit_listeners host secret rest
  end.

Definition apply_gateway_form_to_spec (gw : KGateway) (host : str) (class secret : option str) : KGateway :=
  mkKGateway (gw_namespace gw) (gw_name gw) (gw_generation gw) (or_else class (gw_class gw))
    (edit_listeners host secret (gw_listeners gw)) (gw_status gw).

Definition build_httproute_spec (route : KHTTPRoute) (annotations : option (gmap str str)) (host gateway_name ns : str)
    (rules : list HTTPRouteRule) : KHTTPRoute :=
  mkKHTTPRoute (hr_namespace route) (hr_name route) annotations
    [mkParentRef (Some (bs "gateway.networking.k8s.io")) (Some (bs "Gateway")) gateway_name (Some ns) (Some (bs "https"))]
    [host] rules.

Definition ingress_form_routes_from_httproute (r : KHTTPRoute) : list IngressFormRouteRow :=
  or_one no_route ((fun rule =>
    let m := head (rr_matches rule) ≫= id in
    let backend := head (rr_backends rule) in
    mkFormRow (default (bs "/") (m ≫= pm_value))
      (if bool_decide ((m ≫= pm_type) = Some (bs "Exact")) then bs "Exact" else bs "Prefix")
      (from_option br_name [] backend) (backend ≫= br_port) None) <$> hr_rules r).

(** *** Gateway sites *)

Definition quoted (s : str) : str := x22 :: s ++ [x22].

Definition need_gateway (key : Key) : KubeM K KGateway :=
  gw ← kube_call (kube_get KindGateway key)
         (fun _ => mkApiError 400 (bs "Gateway " ++ quoted key.2 ++ bs " not found in namespace " ++ quoted key.1));
  _ ← ensure_gateway_managed gw;
  mret gw.

Definition prefixed (msg e : str) : ApiError := mkApiError 500 (msg ++ e).

Definition kubernetes_gateway_sites_create (b : CreateIngressBody) : KubeM K Key :=
  _ ← gateway_available;
  host ← nonempty_field (ci_host b) "host is required";
  service_namespace ← nonempty_field (ci_service_namespace b) "service_namespace is required";
  gateway_name ← or_400 (match trimmed (ci_gateway_name b) with Some n => Ok n | None => Err (bs "gateway_name is required") end);
  let ns := resolve_gateway_site_namespace b in
  _ ← need_gateway (ns, gateway_name);
  let name := default (host_to_k8s_name host) (trimmed (ci_name b)) in
  rules ← or_400 (httproute_rules_from_body b service_namespace);
  let route := build_httproute_spec (mkKHTTPRoute (Some ns) name None [] [] []) (body_annotations None b) host gateway_name ns rules in
  _ ← kube_call (kube_create KindRoute (ns, name) route) (prefixed "Failed to create HTTPRoute: ");
  mret (ns, name).

Definition route_form (key : Key) (r : KHTTPRoute) (gw_name gw_ns : str) (secret class : option str) : IngressFormRow :=
  let routes := ingress_form_routes_from_httproute r in
  let ids := policy_ids_from_annotations (hr_annotations r) in
  mkIngressFormRow key.1 key.2 (default (bs "*") (head (hr_hostnames r))) routes (default no_route (head routes)) secret class
    (if is_empty gw_name then None else Some gw_name) (Some gw_ns)
    (geo_policy_from_annotations (hr_annotations r)) (sec_policy_from_annotations (hr_annotations r)) ids.1 ids.2.

Definition kubernetes_gateway_site_get (key : Key) : KubeM K IngressFormRow :=
  _ ← gateway_available;
  r ← kube_call (kube_get KindRoute key) get_error;
  _ ← ensure_httproute_managed r;
  let parent := head (hr_parents r) in
  let gw_name := from_option pa_name [] parent in
  let gw_ns := default key.1 (parent ≫= pa_namespace) in
  gw1 ← (if is_empty gw_name then mret None else kube_try (kube_get KindGateway (gw_ns, gw_name)));
  gw2 ← (if is_empty gw_name then mret None else kube_try (kube_get KindGateway (gw_ns, gw_name)));
  mret (route_form key r gw_name gw_ns (gw1 ≫= gateway_tls_secret) (gw2 ≫= gw_class)).

Definition kubernetes_gateway_site_update (key : Key) (b : CreateIngressBody) : KubeM K Key :=
  _ ← gateway_available;
  host ← nonempty_field (ci_host b) "host is required";
  service_namespace ← nonempty_field (ci_service_namespace b) "service_namespace is required";
  rules ← or_400 (httproute_rules_from_body b service_namespace);
  r ← kube_call (kube_get KindRoute key) (prefixed "Failed to load HTTPRoute: ");
  _ ← ensure_httproute_managed r;
  let parent := head (hr_parents r) in
  let gw_name := default [] (or_else (trimmed (ci_gateway_name b)) (pa_name <$> parent)) in
  if is_empty gw_name then kube_fail 400 "gateway_name is required"
  else
    let gw_ns := default key.1 (or_else (trimmed (ci_gateway_namespace b)) (parent ≫= pa_namespace)) in
    _ ← need_gateway (gw_ns, gw_name);
    _ ← kube_call (kube_replace KindRoute key (build_httproute_spec r (body_annotations (hr_annotations r) b) host gw_name gw_ns rules))
          (prefixed "Failed to update HTTPRoute: ");
    mret key.

Definition kubernetes_gateway_site_delete (key : Key) : KubeM K unit :=
  _ ← gateway_available;
  r ← kube_call (kube_get KindRoute key) get_error;
  _ ← ensure_httproute_managed r;
  deletion KindRoute key.

Definition kubernetes_gateways (ns : option str) : KubeM K (list K8sGatewayRow) :=
  _ ← gateway_available;
  l ← @listed KindGateway ns;
  rows_of KindGateway gateway_row_from (filter (fun x : Key * KGateway => gateway_managed_by_app x.2 (ke_gateway_class E) = true) l).

Definition kubernetes_httproutes (ns : option str) : KubeM K (list K8sHttpRouteRow) :=
  _ ← gateway_available;
  gws ← load_all_gateways ns;
  let managed := managed_gateway_keys gws in
  if is_empty managed then mret []
  else
    l ← @listed KindRoute ns;
    rows_of KindRoute httproute_row_from (filter (fun x : Key * KHTTPRoute => httproute_attached_to_managed x.2 managed = true) l).

Definition body_class (b : CreateGatewayBody) : option str :=
  or_else (cg_gateway_class_name b) (or_else (ke_gateway_class E) (ke_ingress_class E)).

Definition gateway_tls (b : CreateGatewayBody) (ns : str) : result str (option str) :=
  body_tls (cg_tls_secret_namespace b) (cg_tls_secret_name b) ns "TLS secret must be in the same namespace as the Gateway".

Definition kubernetes_gateways_create (b : CreateGatewayBody) : KubeM K Key :=
  _ ← gateway_available;
  host ← nonempty_field (cg_host b) "host is required";
  let ns := resolve_gateway_namespace b in
  let name := default (host_to_k8s_name host) (trimmed (cg_name b)) in
  secret ← or_400 (gateway_tls b ns);
  _ ← kube_call (kube_create KindGateway (ns, name)
        (mkKGateway (Some ns) name None (body_class b) [build_https_listener host secret] None))
        (prefixed "Failed to create Gateway: ");
  mret (ns, name).

Definition kubernetes_gateway_get (key : Key) : KubeM K GatewayFormRow :=
  _ ← gateway_available;
  gw ← kube_call (kube_get KindGateway key) get_error;
  _ ← ensure_gateway_managed gw;
  mret (mkGatewayFormRow key.1 key.2 (default [] (gateway_host gw)) (gw_class gw) (gateway_tls_secret gw)).

Definition kubernetes_gateway_update (key : Key) (b : CreateGatewayBody) : KubeM K Key :=
  _ ← gateway_available;
  host ← nonempty_field (cg_host b) "host is required";
  secret ← or_400 (gateway_tls b key.1);
  gw ← kube_call (kube_get KindGateway key) (prefixed "Failed to load Gateway: ");
  _ ← ensure_gateway_managed gw;
  _ ← kube_call (kube_replace KindGateway key (apply_gateway_form_to_spec gw host (body_class b) secret))
        (prefixed "Failed to update Gateway: ");
  mret key.

Definition kubernetes_gateway_delete (key : Key) : KubeM K unit :=
  _ ← gateway_available;
  gw ← kube_call (kube_get KindGateway key) get_error;
  _ ← ensure_gateway_managed gw;
  deletion KindGateway key.

End handlers.
