(* ===== verification/KubeSitesProps.v ===== *)
(** * What editing sites in the cluster guarantees

    Theorems about [KubeSites] over any API server: what a form shows again
    of what it wrote, exactly which policies as they were saved, and that foreign
    annotations survive; where a created Ingress is routed; a Gateway edit touches one listener; only managed
    Gateway API objects are changed. *)

From S2P Require Import Prelude RustStr Ip GeoIp Waf Bot Captcha Security Edge EdgeAuth ProxyConfig Router Forward Apply.
From S2P Require Import Telemetry CertStore Controller ControllerProps Database Admin KubeSites.

(** ** Annotations *)

Definition exempt_keys : list str := [ann_security_exempt; ann_geoip_exempt].
Definition id_keys : list str := [ACCESS_LIST_ID_ANNOTATION; WAF_POLICY_ID_ANNOTATION].
(** The annotations a form owns. *)
Definition form_keys : list str := id_keys ++ geo_annotation_keys ++ ANNOTATION_KEYS.

Lemma geo_policy_ext m m' : (forall k, k ∈ exempt_keys ++ geo_annotation_keys -> m !! k = m' !! k) ->
  geo_policy_from_annotations (Some m) = geo_policy_from_annotations (Some m').
Proof.
  intros Hm. unfold geo_policy_from_annotations, flag_true.
  by rewrite !Hm by (unfold exempt_keys, geo_annotation_keys; set_solver).
Qed.

Lemma sec_policy_ext m m' : (forall k, k ∈ exempt_keys ++ ANNOTATION_KEYS -> m !! k = m' !! k) ->
  sec_policy_from_annotations (Some m) = sec_policy_from_annotations (Some m').
Proof.
  intros Hm. unfold sec_policy_from_annotations, flag_true, ann_u32.
  by rewrite !Hm by (unfold exempt_keys, ANNOTATION_KEYS; set_solver).
Qed.

(** Distinct names, by evaluation. *)
Ltac keys_apart := apply (bool_decide_unpack _); vm_compute; exact I.

Definition disjoint_keys (l1 l2 : list str) : bool := forallb (fun k => bool_decide (k ∉ l2)) l1.

Lemma disjoint_keys_spec l1 l2 k : disjoint_keys l1 l2 = true -> k ∈ l1 -> k ∉ l2.
Proof.
  unfold disjoint_keys. rewrite forallb_forall. intros Hd Hk. apply (bool_decide_eq_true_1 _), Hd. by apply list_elem_of_In.
Qed.

Lemma apply_policy_id_other m acl waf k : k ∉ id_keys -> apply_policy_id_annotations m acl waf !! k = m !! k.
Proof.
  unfold id_keys. rewrite !not_elem_of_cons. intros (H1 & H2 & _). unfold apply_policy_id_annotations.
  destruct (trimmed acl), (trimmed waf); rewrite ?lookup_insert_ne, !lookup_delete_ne by congruence; done.
Qed.

Lemma trimmed_idemp o : opt_filter (fun v => negb (is_empty v)) (trim <$> trimmed o) = trimmed o.
Proof.
  unfold trimmed. destruct o as [s|]; [|done]. cbn. destruct (is_empty (trim s)) eqn:E; cbn; [done|].
  by rewrite trim_idemp, E.
Qed.

Lemma apply_policy_id_read m acl waf :
  policy_ids_from_annotations (Some (apply_policy_id_annotations m acl waf)) = (trimmed acl, trimmed waf).
Proof.
  unfold policy_ids_from_annotations. f_equal.
  - etrans; [|apply trimmed_idemp]. f_equal. f_equal. unfold apply_policy_id_annotations.
    destruct (trimmed waf); rewrite ?lookup_insert_ne by keys_apart;
      (destruct (trimmed acl); [by rewrite lookup_insert_eq|]); rewrite lookup_delete_ne by keys_apart; by rewrite lookup_delete_eq.
  - etrans; [|apply trimmed_idemp]. f_equal. f_equal. unfold apply_policy_id_annotations.
    destruct (trimmed waf); [by rewrite lookup_insert_eq|].
    destruct (trimmed acl); rewrite ?lookup_insert_ne by keys_apart; by rewrite lookup_delete_eq.
Qed.

(** [q'] is what is read of the GeoIP policy [q]: its lists, and the switch exactly when
    the policy is on or has no lists. *)
Record geo_read_of (q q' : GeoIpPolicy) : Prop := {
  read_allow_countries : allow_countries q' = allow_countries q;
  read_deny_countries : deny_countries q' = deny_countries q;
  read_allow_asns : allow_asns q' = allow_asns q;
  read_deny_asns : deny_asns q' = deny_asns q;
  read_geo : q' = q <-> geo_enabled q = true \/ geo_lists_empty q = true;
}.

(** No annotation exempts the object from the policies. *)
Definition not_exempt (a : option (gmap str str)) : Prop :=
  flag_true (default ∅ a) ann_security_exempt = false /\ flag_true (default ∅ a) ann_geoip_exempt = false.

(** All the policies in annotations. *)
Definition policies_of (a : option (gmap str str)) : GeoIpPolicy * SecurityPolicy * (option str * option str) :=
  (geo_policy_from_annotations a, sec_policy_from_annotations a, policy_ids_from_annotations a).

Lemma policies_of_empty : policies_of None = policies_of (Some ∅).
Proof. vm_compute. reflexivity. Qed.

Lemma merged_policies existing geo sec acl waf :
  geo_printable geo -> security_typed sec -> not_exempt existing ->
  let a := merge_security_annotations existing geo sec acl waf in
  geo_read_of (geo_normalized geo) (policies_of a).1.1 /\ sec_read_of (security_normalized sec) (policies_of a).1.2 /\
  (policies_of a).2 = (trimmed acl, trimmed waf) /\
  forall k, k ∉ form_keys -> (a ≫= fun m => m !! k) = (existing ≫= fun m => m !! k).
Proof.
  intros Hg Hs [He1 He2]. unfold merge_security_annotations. set (m0 := default ∅ existing) in *.
  set (m1 := geo_apply_annotations m0 geo). set (m2 := sec_apply_annotations m1 sec).
  set (m3 := apply_policy_id_annotations m2 acl waf). cbn zeta.
  destruct (geo_annotations_roundtrip m0 geo Hg He1 He2) as [Hgeo Hgo]. fold m1 in Hgeo, Hgo.
  assert (He1' : flag_true m1 ann_security_exempt = false).
  { unfold flag_true. rewrite Hgo by keys_apart. done. }
  destruct (sec_annotations_roundtrip m1 sec Hs He1') as [Hsec Hso]. fold m2 in Hsec, Hso.
  assert (Hio : forall k, k ∉ id_keys -> m3 !! k = m2 !! k) by (intros; by apply apply_policy_id_other).
  assert (Hpol : geo_read_of (geo_normalized geo) (policies_of (Some m3)).1.1 /\
    sec_read_of (security_normalized sec) (policies_of (Some m3)).1.2 /\ (policies_of (Some m3)).2 = (trimmed acl, trimmed waf)).
  { unfold policies_of. cbn [fst snd]. split_and!; [| |apply apply_policy_id_read].
    - erewrite geo_policy_ext, Hgeo; [|intros k Hk; rewrite Hio by (eapply disjoint_keys_spec; [|exact Hk]; vm_compute; reflexivity);
        apply Hso; eapply disjoint_keys_spec; [|exact Hk]; vm_compute; reflexivity].
      split; try done. destruct (geo_normalized geo) as [en ac dc aa da]. unfold geo_lists_empty. cbn.
      split; [intros [= He]; revert He; destruct en; [by left|]; intros He; right; by apply negb_false_iff|].
      intros [-> | Hl]; [done|]. f_equal. unfold geo_lists_empty in Hl. cbn in Hl. rewrite Hl. cbn. apply orb_false_r.
    - erewrite sec_policy_ext; [exact Hsec|]. intros k Hk. apply Hio.
      eapply disjoint_keys_spec; [|exact Hk]. vm_compute. reflexivity. }
  assert (Hfor : forall k, k ∉ form_keys -> m3 !! k = m0 !! k).
  { intros k. unfold form_keys. rewrite !elem_of_app. intros Hk. rewrite Hio, Hso, Hgo by tauto. done. }
  assert (H0 : forall k, m0 !! k = (existing ≫= fun m => m !! k)).
  { intros k. unfold m0. destruct existing; [done|]. cbn. apply lookup_empty. }
  case_bool_decide as Hem.
  - rewrite policies_of_empty, <- Hem. destruct Hpol as (? & ? & ?). split_and!; [done..|]. intros k Hk. cbn. rewrite <- H0, <- Hfor, Hem by done. by rewrite lookup_empty.
  - destruct Hpol as (? & ? & ?). split_and!; [done..|]. intros k Hk. cbn. by rewrite <- H0, Hfor.
Qed.

(** ** Forms *)

Section handlers.
Context {K : Type} `{KS : !KubeServer K}.
Variable to_lowercase : str -> str.
Variable E : KubeEnv.
Implicit Types k : K.

Lemma kube_bind_ok {A B} (m : KubeM K A) (f : A -> KubeM K B) k b k' : kube_bind A B f m k = (Ok b, k') ->
  exists a k1, m k = (Ok a, k1) /\ f a k1 = (Ok b, k').
Proof. unfold kube_bind. destruct (m k) as [[a|e] k1] eqn:Em; [|done]. by exists a, k1. Qed.

Lemma available_ok k u k' : available E k = (Ok u, k') -> k' = k.
Proof. unfold available. destruct (_ || _); [done|]. by intros [= _ <-]. Qed.
Lemma gateway_available_ok k u k' : gateway_available E k = (Ok u, k') -> k' = k.
Proof. unfold gateway_available. repeat (case_match; [done|]). by intros [= _ <-]. Qed.
Lemma nonempty_field_ok v msg k s k' : nonempty_field (K := K) v msg k = (Ok s, k') -> s = trim v /\ s <> [] /\ k' = k.
Proof. unfold nonempty_field. destruct (trim v); [done|]. by intros [= <- <-]. Qed.
Lemma or_400_ok {A} (r : result str A) k a k' : or_400 (K := K) r k = (Ok a, k') -> r = Ok a /\ k' = k.
Proof. destruct r; [|done]. by intros [= <- <-]. Qed.
Lemma kube_call_ok {A} (m : K -> result str A * K) f k a k' : kube_call m f k = (Ok a, k') -> m k = (Ok a, k').
Proof. unfold kube_call. destruct (m k) as [[?|?] ?]; [|done]. by intros [= <- <-]. Qed.

(** Takes the first call of a successful handler apart. *)
Ltac kstep H :=
  let a := fresh "a" in let k := fresh "k" in let H1 := fresh "H" in
  apply kube_bind_ok in H as (a & k & H1 & H);
  first
    [ apply available_ok in H1; subst k
    | apply gateway_available_ok in H1; subst k
    | apply nonempty_field_ok in H1; destruct H1 as (-> & ? & ->)
    | apply or_400_ok in H1; destruct H1 as (? & ->)
    | apply kube_call_ok in H1 ].

(** What the form shows of a route it was given. *)
Definition route_shown (r : FormRoute) : IngressFormRouteRow :=
  mkFormRow (form_path (fr_path r)) (form_path_type (fr_path_type r)) (trim (fr_service_name r)) (fr_service_port r)
    (match fr_service_port r with Some _ => None | None => trimmed (fr_service_port_name r) end).

Definition routes_given (b : CreateIngressBody) : list FormRoute := default [body_route b] (body_routes b).

Lemma collect_results_ok {A B} (f : A -> result str B) l l' : collect_results f l = Ok l' -> Forall2 (fun a b => f a = Ok b) l l'.
Proof.
  revert l'. induction l as [|a l IH]; intros l'; cbn; [by intros [= <-]|].
  destruct (f a) as [b|] eqn:Ef; [|done]. destruct (collect_results f l) as [l1|]; [|done]. intros [= <-]. constructor; [done|by apply IH].
Qed.

Lemma Forall2_partner {A B} (P : A -> B -> Prop) l l' x : Forall2 P l l' -> x ∈ l -> exists y, P x y /\ y ∈ l'.
Proof.
  intros Hf Hx. apply list_elem_of_lookup in Hx as [i Hi]. destruct (Forall2_lookup_l _ _ _ _ _ Hf Hi) as (y & Hy & HP).
  exists y. split; [done|]. by eapply list_elem_of_lookup_2.
Qed.

Lemma routes_given_nonempty b : routes_given b <> [].
Proof.
  unfold routes_given, body_routes. destruct (ci_routes b) as [l|]; [|done]. cbn. destruct l; cbn; done.
Qed.

Lemma paths_given b paths : ingress_paths_from_body b = Ok paths ->
  exists n p, Forall2 (fun r x => ingress_path n p r = Ok x) (routes_given b) paths.
Proof.
  unfold ingress_paths_from_body, routes_given.
  destruct (body_routes b); cbn [default]; intros Hc; apply collect_results_ok in Hc; eauto.
Qed.

Lemma paths_shown b paths : ingress_paths_from_body b = Ok paths ->
  or_one no_route (form_route <$> paths) = route_shown <$> routes_given b.
Proof.
  intros (n & p & Hf)%paths_given. pose proof (routes_given_nonempty b) as Hne.
  assert (Heq : form_route <$> paths = route_shown <$> routes_given b).
  { induction Hf as [|r x l l' Hr Hf IH]; [done|]. rewrite !fmap_cons. f_equal.
    - unfold ingress_path in Hr. destruct (is_empty _); [done|]. unfold backend_port in Hr.
      destruct (fr_service_port r) eqn:Ep; [|destruct (trimmed (fr_service_port_name r)) eqn:En; [|done]];
        injection Hr as <-; unfold form_route, route_shown; cbn; by rewrite Ep, ?En.
    - destruct l; [by inversion Hf|]. apply IH. done. }
  rewrite Heq. by destruct (routes_given b).
Qed.

(** The object a form stands for. *)
Definition ingress_made (b : CreateIngressBody) (ns name : str) (existing : option (gmap str str)) (paths : list KPath)
    (tls : option str) : KIngress :=
  mkKIngress (Some ns) name (body_annotations existing b) (Some (ingress_spec E b (trim (ci_host b)) paths tls)).

Definition tls_given (b : CreateIngressBody) : option str :=
  match trimmed (ci_tls_secret_namespace b), trimmed (ci_tls_secret_name b) with Some _, Some name => Some name | _, _ => None end.

Lemma body_tls_given b ns msg tls : body_tls (ci_tls_secret_namespace b) (ci_tls_secret_name b) ns msg = Ok tls -> tls = tls_given b.
Proof. unfold body_tls, tls_given. repeat case_match; congruence. Qed.

(** A successful creation adds one object and changes nothing else. *)
Lemma create_ok b k key k' : kubernetes_ingresses_create E b k = (Ok key, k') ->
  exists paths, ingress_paths_from_body b = Ok paths /\ trim (ci_host b) <> [] /\
    stored k KindIngress !! key = None /\
    stored k' KindIngress = <[key := ingress_made b key.1 key.2 None paths (tls_given b)]> (stored k KindIngress) /\
    key.1 = default (trim (ci_service_namespace b)) (trimmed (ci_ingress_namespace b)) /\
    forall kd, kd <> KindIngress -> stored k' kd = stored k kd.
Proof.
  intros Hc. unfold kubernetes_ingresses_create in Hc. do 6 kstep Hc. injection Hc as <- <-.
  match goal with Hp : ingress_paths_from_body b = Ok ?p |- _ => exists p; rename Hp into Hpaths end.
  match goal with Ht : body_tls _ _ _ _ = Ok _ |- _ => apply body_tls_given in Ht; subst end.
  match goal with Hk : kube_create ?kd _ _ _ = _ |- _ => destruct (kube_create_spec kd _ _ _ _ _ Hk) as [Hoth [[_ ?]|[Hnone Hst]]] end; [done|].
  by split_and!.
Qed.

Lemma update_ok key b k key' k' : kubernetes_ingress_update to_lowercase E key b k = (Ok key', k') ->
  exists paths cur, key' = key /\ ingress_paths_from_body b = Ok paths /\ stored k KindIngress !! key = Some cur /\
    stored k' KindIngress =
      <[key := mkKIngress (ki_namespace cur) (ki_name cur) (body_annotations (ki_annotations cur) b)
                 (Some (ingress_spec E b (trim (ci_host b)) paths (tls_given b)))]> (stored k KindIngress) /\
    forall kd, kd <> KindIngress -> stored k' kd = stored k kd.
Proof.
  intros Hc. unfold kubernetes_ingress_update in Hc. do 7 kstep Hc. injection Hc as <- <-.
  match goal with Hg : kube_get ?kd _ _ = _ |- _ => destruct (kube_get_spec kd _ _ _ _ Hg) as [Hsame Hcur]; specialize (Hcur _ eq_refl) end.
  match goal with Ht : body_tls _ _ _ _ = Ok _ |- _ => apply body_tls_given in Ht; subst end.
  match goal with Hk : kube_replace ?kd _ _ _ = _ |- _ => destruct (kube_replace_spec kd _ _ _ _ _ Hk) as [Hoth [[_ ?]|[_ Hst]]] end; [done|].
  rewrite Hsame in *. eexists _, _. by split_and!.
Qed.

(** The form's answer for an object of a form. *)
Lemma get_shows key b paths tls an ns name k row k' :
  stored k KindIngress !! key = Some (mkKIngress ns name an (Some (ingress_spec E b (trim (ci_host b)) paths tls))) ->
  ingress_paths_from_body b = Ok paths ->
  kubernetes_ingress_get to_lowercase E key k = (Ok row, k') ->
  iw_namespace row = key.1 /\ iw_name row = key.2 /\ iw_host row = trim (ci_host b) /\
  iw_routes row = route_shown <$> routes_given b /\ head (iw_routes row) = Some (iw_first row) /\ iw_tls_secret_name row = tls /\
  iw_ingress_class_name row = or_else (ci_ingress_class_name b) (ke_ingress_class E) /\
  (iw_geoip row, iw_security row, (iw_access_list_id row, iw_waf_policy_id row)) = policies_of an.
Proof.
  intros Hs Hp Hg. unfold kubernetes_ingress_get in Hg. do 2 kstep Hg.
  match goal with Hk : kube_get ?kd _ _ = _ |- _ => destruct (kube_get_spec kd _ _ _ _ Hk) as [_ Hcur]; specialize (Hcur _ eq_refl) end.
  pose proof (eq_trans (eq_sym Hs) Hcur) as Heq. injection Heq as <-. cbn in Hg. injection Hg as <- <-. cbn -[or_one policies_of].
  rewrite (paths_shown _ _ Hp). pose proof (routes_given_nonempty b) as Hne.
  split_and!; try done.
  - by destruct (routes_given b).
  - by destruct tls.
  - unfold policies_of. by destruct (policy_ids_from_annotations an).
Qed.

(** What the form shows is what it was given, in normal form: all of it but for the
    policies, whose switches and lists it shows, and each part of them in full exactly
    when annotations can say it. *)
Record row_shows (b : CreateIngressBody) (key : Key) (row : IngressFormRow) : Prop := {
  rs_key : (iw_namespace row, iw_name row) = key;
  rs_host : iw_host row = trim (ci_host b);
  rs_routes : iw_routes row = route_shown <$> routes_given b;
  rs_first : head (iw_routes row) = Some (iw_first row);
  rs_tls : iw_tls_secret_name row = tls_given b;
  rs_class : iw_ingress_class_name row = or_else (ci_ingress_class_name b) (ke_ingress_class E);
  rs_geoip : geo_read_of (geo_normalized (ci_geoip b)) (iw_geoip row);
  rs_security : sec_read_of (security_normalized (ci_security b)) (iw_security row);
  rs_lists : (iw_access_list_id row, iw_waf_policy_id row) = (trimmed (ci_access_list_id b), trimmed (ci_waf_policy_id b));
}.

Lemma shows_body b key an existing ns name paths k row k' :
  geo_printable (ci_geoip b) -> security_typed (ci_security b) -> not_exempt existing -> an = body_annotations existing b ->
  stored k KindIngress !! key = Some (mkKIngress ns name an (Some (ingress_spec E b (trim (ci_host b)) paths (tls_given b)))) ->
  ingress_paths_from_body b = Ok paths -> kubernetes_ingress_get to_lowercase E key k = (Ok row, k') -> row_shows b key row.
Proof.
  intros Hg Hs He -> Hst Hp Hget.
  destruct (get_shows _ _ _ _ _ _ _ _ _ _ Hst Hp Hget) as (H1 & H2 & H3 & H4 & H5 & H6 & H7 & H8).
  destruct (merged_policies existing _ _ (ci_access_list_id b) (ci_waf_policy_id b) Hg Hs He) as (Hpg & Hps & Hpl & _).
  unfold body_annotations in H8. rewrite <- H8 in Hpg, Hps, Hpl.
  split; try done. rewrite H1, H2. by destruct key.
Qed.

(** C24: What the Ingress form saves and what it shows.  After a creation, and after an
    update of an object that no annotation exempts from the policies, reading the object
    back (when that succeeds) shows the host trimmed, every route with its defaults filled
    in, the TLS secret, the class and the policy ids as saved.  Of the policies, in normal
    form, it shows every switch of the security policy and all GeoIP lists as saved; the
    GeoIP policy is shown as saved exactly when it is on or has no lists, the WAF exactly
    when it has no rules of its own and its built-in rules follow its switch, the bot
    settings exactly when bot checks are on or the settings are the default ones, the
    captcha settings exactly when it is on with a lifetime of 32 bits or they are the
    default ones.  An update leaves all foreign annotations alone.  Country codes hold no
    separators, numbers fit their types. *)
Theorem ingress_form_roundtrip b k row k2 : geo_printable (ci_geoip b) -> security_typed (ci_security b) ->
  (forall key k1, kubernetes_ingresses_create E b k = (Ok key, k1) ->
     kubernetes_ingress_get to_lowercase E key k1 = (Ok row, k2) -> row_shows b key row) /\
  (forall key key' k1 cur, stored k KindIngress !! key = Some cur -> not_exempt (ki_annotations cur) ->
     kubernetes_ingress_update to_lowercase E key b k = (Ok key', k1) ->
     kubernetes_ingress_get to_lowercase E key' k1 = (Ok row, k2) -> row_shows b key row /\
     exists new, stored k1 KindIngress !! key = Some new /\
       forall a, a ∉ form_keys -> (ki_annotations new ≫= fun m => m !! a) = (ki_annotations cur ≫= fun m => m !! a)).
Proof.
  intros Hg Hs. split.
  - intros key k1 Hc Hget. apply create_ok in Hc as (paths & Hp & _ & _ & Hst & _).
    eapply (shows_body b key _ None); [done|done| |reflexivity| |done|done]; [by split|]. rewrite Hst. apply lookup_insert_eq.
  - intros key key' k1 cur Hcur He Hu Hget. apply update_ok in Hu as (paths & cur' & -> & Hp & Hcur' & Hst & _).
    pose proof (eq_trans (eq_sym Hcur) Hcur') as Heq. injection Heq as <-.
    assert (Hnew : stored k1 KindIngress !! key = Some (mkKIngress (ki_namespace cur) (ki_name cur)
      (body_annotations (ki_annotations cur) b) (Some (ingress_spec E b (trim (ci_host b)) paths (tls_given b))))).
    { rewrite Hst. apply lookup_insert_eq. }
    split.
    + eapply (shows_body b key _ (ki_annotations cur)); [done|done|done|reflexivity|exact Hnew|done|done].
    + eexists. split; [exact Hnew|]. cbn [ki_annotations]. intros a Ha.
      destruct (merged_policies (ki_annotations cur) (ci_geoip b) (ci_security b) (ci_access_list_id b) (ci_waf_policy_id b) Hg Hs He)
        as (_ & _ & _ & Hfor). by apply Hfor.
Qed.

(** *** From the form to the router *)

Section routed.
Variable env : str -> option str.
Variable management_port : N.
Variable cfg : IngressControllerConfig.
Variable url_parse : str -> option Url.

(** The upstream of a route given in the form: the Service of that name in the
    Ingress's namespace, on its port number, or on port 80 when the form names the port. *)
Definition given_upstream (ns : str) (r : FormRoute) : str :=
  resolve_upstream_addr env management_port (trim (fr_service_name r)) ns (Z.to_N (default 80%Z (fr_service_port r))).

(** The Service a route of the form names. *)
Definition given_service (r : FormRoute) : KService := mkKService (trim (fr_service_name r)) (fr_service_port r) None.


End routed.

(** *** Gateways *)

Lemma edit_listeners_spec host secret ls :
  (exists pre old post, ls = pre ++ old :: post /\ is_form_listener old = true /\ Forall (fun l => is_form_listener l = false) pre /\
     edit_listeners host secret ls = pre ++ merge_https_listener old host secret :: post) \/
  (Forall (fun l => is_form_listener l = false) ls /\ edit_listeners host secret ls = ls ++ [build_https_listener host secret]).
Proof.
  induction ls as [|l ls [(pre & old & post & -> & Ho & Hp & IH)|[Hp IH]]]; cbn [edit_listeners].
  - by right.
  - destruct (is_form_listener l) eqn:El; [left; exists [], l, (pre ++ old :: post); by split_and!|].
    left. exists (l :: pre), old, post. rewrite IH. split_and!; [done|done|by constructor|done].
  - destruct (is_form_listener l) eqn:El; [left; exists [], l, ls; by split_and!|]. right. rewrite IH. split; [by constructor|done].
Qed.

Lemma find_https_app pre l post : Forall (fun x => is_form_listener x = false) pre -> is_https l = true ->
  List.find is_https (pre ++ l :: post) = Some l.
Proof.
  intros Hp Hl. induction Hp as [|x pre Hx Hp IH]; cbn; [by rewrite Hl|].
  unfold is_form_listener in Hx. apply orb_false_iff in Hx as [_ ->]. exact IH.
Qed.

(** The form's listener is one of protocol HTTPS. *)
Definition form_listener_https (gw : KGateway) : Prop :=
  Forall (fun l => gl_name l = bs "https" -> is_https l = true) (gw_listeners gw).

(** All but one listener, and of that one name, port and protocol, are as before. *)
Definition one_listener_edited (host : str) (secret : option str) (gw new : KGateway) : Prop :=
  exists pre post l, gw_listeners new = pre ++ l :: post /\ gl_hostname l = Some host /\
    (gw_listeners gw = pre ++ post \/
     exists old, gw_listeners gw = pre ++ old :: post /\ (gl_name l, gl_port l, gl_protocol l) = (gl_name old, gl_port old, gl_protocol old)).

Lemma form_applied gw host class secret (new := apply_gateway_form_to_spec gw host class secret) :
  one_listener_edited host secret gw new /\
  (form_listener_https gw -> gateway_host new = Some host /\ gateway_tls_secret new = secret).
Proof.
  unfold new, one_listener_edited, gateway_host, gateway_tls_secret, apply_gateway_form_to_spec. cbn [gw_listeners].
  destruct (edit_listeners_spec host secret (gw_listeners gw)) as [(pre & old & post & Hls & Ho & Hp & ->)|[Hp ->]].
  - split.
    + eexists pre, post, _. split; [reflexivity|]. split; [done|]. right. by exists old.
    + intros Hh. assert (Hold : is_https old = true).
      { unfold is_form_listener in Ho. apply orb_true_iff in Ho as [Hn|]; [|done]. unfold form_listener_https in Hh.
        rewrite Hls, Forall_app, Forall_cons in Hh. apply Hh. by apply str_eqb_eq. }
      rewrite find_https_app by done. split; [done|]. by destruct secret.
  - split.
    + eexists (gw_listeners gw), [], _. split; [reflexivity|]. split; [done|]. left. by rewrite app_nil_r.
    + intros _. rewrite find_https_app by done. split; [done|]. by destruct secret.
Qed.

Definition gateway_secret_given (b : CreateGatewayBody) : option str :=
  match trimmed (cg_tls_secret_namespace b), trimmed (cg_tls_secret_name b) with Some _, Some name => Some name | _, _ => None end.

Lemma gateway_tls_given b ns s : gateway_tls b ns = Ok s -> s = gateway_secret_given b.
Proof. unfold gateway_tls, body_tls, gateway_secret_given. repeat case_match; congruence. Qed.

Lemma ensure_gateway_managed_ok gw k u k' : ensure_gateway_managed E gw k = (Ok u, k') ->
  k' = k /\ gateway_managed_by_app gw (ke_gateway_class E) = true.
Proof. unfold ensure_gateway_managed. destruct (gateway_managed_by_app _ _); [|done]. by intros [= _ <-]. Qed.

(** The Gateway form edits one listener, and shows it.  An update that succeeds
    replaces the stored Gateway by one in which a single listener was edited or added:
    it has the form's host, and of an edited one the name, the port and the protocol stay; every
    other listener is as before.  Reading the form again (when that succeeds) shows the
    host, the class and the secret that were given, provided a listener named https is
    of protocol HTTPS. *)
Theorem gateway_form_roundtrip key b k key' k1 : kubernetes_gateway_update E key b k = (Ok key', k1) ->
  exists gw new, stored k KindGateway !! key = Some gw /\ stored k1 KindGateway = <[key := new]> (stored k KindGateway) /\
    one_listener_edited (trim (cg_host b)) (gateway_secret_given b) gw new /\
    forall row k2, form_listener_https gw -> kubernetes_gateway_get to_lowercase E key k1 = (Ok row, k2) ->
      row = mkGatewayFormRow key.1 key.2 (trim (cg_host b)) (or_else (body_class E b) (gw_class gw)) (gateway_secret_given b).
Proof.
  intros Hu. unfold kubernetes_gateway_update in Hu. do 4 kstep Hu.
  apply kube_bind_ok in Hu as (u & k3 & [-> _]%ensure_gateway_managed_ok & Hu). kstep Hu. injection Hu as <- <-.
  match goal with Hg : kube_get ?kd _ _ = (Ok ?g, _) |- _ => destruct (kube_get_spec kd _ _ _ _ Hg) as [Hsame Hcur];
    specialize (Hcur _ eq_refl); clear Hg; rename g into gw end.
  match goal with Ht : gateway_tls _ _ = Ok _ |- _ => apply gateway_tls_given in Ht; subst end.
  match goal with Hk : kube_replace ?kd _ _ _ = _ |- _ => destruct (kube_replace_spec kd _ _ _ _ _ Hk) as [_ [[_ ?]|[_ Hst]]] end; [done|].
  rewrite Hsame in Hst.
  destruct (form_applied gw (trim (cg_host b)) (body_class E b) (gateway_secret_given b)) as [Hone Hshow].
  eexists gw, _. split; [done|]. split; [exact Hst|]. split; [done|]. intros row kz Hh Hget.
  unfold kubernetes_gateway_get in Hget. do 2 kstep Hget.
  apply kube_bind_ok in Hget as (u' & k4 & [-> _]%ensure_gateway_managed_ok & Hget). injection Hget as <- <-.
  match goal with Hg : kube_get ?kd _ _ = _ |- _ => destruct (kube_get_spec kd _ _ _ _ Hg) as [_ Hnew];
    specialize (Hnew _ eq_refl) end.
  rewrite Hst, lookup_insert_eq in Hnew. injection Hnew as <-. destruct (Hshow Hh) as [-> ->]. reflexivity.
Qed.

(** *** Only managed objects *)

(** The steps that only look. *)
Definition reads {A} (m : KubeM K A) : Prop := forall k, stored (m k).2 = stored k.

Lemma bind_cases {A B} (m : KubeM K A) (f : A -> KubeM K B) k r k' : reads m -> kube_bind A B f m k = (r, k') ->
  stored k' = stored k \/ exists a k1, m k = (Ok a, k1) /\ stored k1 = stored k /\ f a k1 = (r, k').
Proof.
  intros Hm. specialize (Hm k). unfold kube_bind. destruct (m k) as [[a|e] k1]; cbn in Hm.
  - right. by exists a, k1.
  - intros [= <- <-]. by left.
Qed.

Lemma available_reads : reads (gateway_available E).
Proof. intros k. unfold gateway_available. by repeat case_match. Qed.
Lemma nonempty_field_reads v msg : reads (nonempty_field v msg).
Proof. intros k. unfold nonempty_field. by case_match. Qed.
Lemma or_400_reads {A} (r : result str A) : reads (or_400 r).
Proof. intros k. by destruct r. Qed.
Lemma get_reads kd key f : reads (kube_call (kube_get kd key) f).
Proof.
  intros k. unfold kube_call. destruct (kube_get kd key k) as [r k'] eqn:Eg. by apply (kube_get_spec kd) in Eg as [Hs _].
Qed.
Lemma listed_reads {kd} ns : reads (@listed K KS kd ns).
Proof.
  intros k. unfold listed, kube_call. destruct (kube_list kd ns k) as [r k'] eqn:Eg. by apply (kube_list_spec kd) in Eg as [Hs _].
Qed.
Lemma bind_reads {A B} (m : KubeM K A) (f : A -> KubeM K B) : reads m -> (forall a, reads (f a)) -> reads (kube_bind A B f m).
Proof. intros Hm Hf k. specialize (Hm k). unfold kube_bind. destruct (m k) as [[a|e] k1]; cbn in *; [|done]. by rewrite Hf. Qed.
Lemma ensure_gateway_reads gw : reads (ensure_gateway_managed E gw).
Proof. intros k. unfold ensure_gateway_managed. by case_match. Qed.
Lemma ret_reads {A} (a : A) : reads (kube_ret A a).
Proof. done. Qed.
Lemma ensure_route_reads r : reads (ensure_httproute_managed E r).
Proof.
  apply bind_reads; [apply bind_reads; [apply listed_reads|done]|]. intros gws k. by case_match.
Qed.
Lemma need_gateway_reads key : reads (need_gateway E key).
Proof. apply bind_reads; [apply (get_reads KindGateway)|]. intros gw. apply bind_reads; [apply ensure_gateway_reads|done]. Qed.

(** A key under which the cluster has a Gateway of the configured class. *)
Definition managed_key (k : K) (key : Key) : Prop :=
  exists at_key gw, stored k KindGateway !! at_key = Some gw /\ gateway_managed_by_app gw (ke_gateway_class E) = true /\
    key = (gateway_ns gw, gw_name gw).

Definition attached_to_managed (k : K) (r : KHTTPRoute) : Prop :=
  (hr_parents r = [] /\ managed_key k (route_ns r, hr_name r)) \/
  exists p, p ∈ hr_parents r /\ managed_key k (default (route_ns r) (pa_namespace p), pa_name p).

Lemma ensure_httproute_managed_ok r k u k' : ensure_httproute_managed E r k = (Ok u, k') -> attached_to_managed k r.
Proof.
  unfold ensure_httproute_managed, load_all_gateways. intros Hok.
  apply kube_bind_ok in Hok as (gws & k1 & Hl & Hok). apply kube_bind_ok in Hl as (l & k2 & Hl & [= <- <-]).
  apply kube_call_ok in Hl. destruct (kube_list_spec KindGateway _ _ _ _ Hl) as [_ Hspec]. destruct (Hspec _ eq_refl) as [_ Hin].
  assert (Hmk : forall key, key ∈ managed_gateway_keys E l.*2 -> managed_key k key).
  { intros key (gw & -> & Hgw)%list_elem_of_fmap. apply list_elem_of_filter in Hgw as [Hm ((at_key & gw') & -> & Hk)%list_elem_of_fmap].
    apply Hin in Hk as [Hk _]. by exists at_key, gw'. }
  destruct (httproute_attached_to_managed r _) eqn:Ea; [|done]. unfold httproute_attached_to_managed in Ea.
  destruct (is_empty (hr_parents r)) eqn:Ee.
  - left. split; [by apply is_empty_nil|]. apply Hmk. by apply bool_decide_eq_true_1 in Ea.
  - right. apply existsb_exists in Ea as (p & Hp & Ha). exists p. split; [by apply list_elem_of_In|].
    apply Hmk. by apply bool_decide_eq_true_1 in Ha.
Qed.

(** Only the object at [key] may differ. *)
Definition only_at (kd : Kind) (key : Key) (k k' : K) : Prop :=
  (forall kd', kd' <> kd -> stored k' kd' = stored k kd') /\
  forall key', key' <> key -> stored k' kd !! key' = stored k kd !! key'.

Lemma same_only_at kd key k k' : stored k' = stored k -> only_at kd key k k'.
Proof. intros Hs. split; intros; by rewrite Hs. Qed.

Lemma replace_only_at kd key o k r k' : kube_replace kd key o k = (r, k') -> only_at kd key k k'.
Proof.
  intros Hk. apply kube_replace_spec in Hk as [Ho [[Hs _]|[_ Hs]]]; (split; [done|]); intros key' Hne; rewrite Hs; [done|].
  by apply lookup_insert_ne.
Qed.

Lemma delete_only_at kd key k r k' : deletion to_lowercase kd key k = (r, k') -> only_at kd key k k'.
Proof.
  unfold deletion. destruct (kube_delete kd key k) as [r0 k0] eqn:Ed. intros [= _ <-].
  apply kube_delete_spec in Ed as [Ho [[Hs _]|Hs]]; (split; [done|]); intros key' Hne; rewrite Hs; [done|].
  by apply lookup_delete_ne.
Qed.

Lemma only_at_stored kd key k k0 k' : stored k0 = stored k -> only_at kd key k0 k' -> only_at kd key k k'.
Proof. intros Hs [H1 H2]. split; intros; [rewrite H1 by done|rewrite H2 by done]; by rewrite Hs. Qed.

(** What an edit that gets to writing has checked. *)
Definition changes_checked (kd : Kind) (key : Key) (ok : K -> object kd -> Prop) (k k' : K) : Prop :=
  stored k' = stored k \/ only_at kd key k k' /\ exists o, stored k kd !! key = Some o /\ ok k o.

(** Takes a step that only looks off a handler; [Hs] says the objects are still those
    of the start. *)
Ltac kread H Hs lem :=
  let a := fresh "a" in let k := fresh "k" in let H1 := fresh "Hm" in let H2 := fresh "Hst" in let H3 := fresh "Hsame" in
  apply bind_cases in H; [|apply lem];
  destruct H as [H2|(a & k & H1 & H2 & H)]; [left; exact (eq_trans H2 Hs)|];
  rename Hs into H3; pose proof (eq_trans H2 H3) as Hs; clear H2.

Lemma loaded kd key f k o k' : kube_call (kube_get kd key) f k = (Ok o, k') -> stored k kd !! key = Some o.
Proof. intros Hg%kube_call_ok. by destruct (kube_get_spec kd _ _ _ _ Hg) as [_ Hc]; specialize (Hc _ eq_refl). Qed.

Lemma attached_stored k k' r : stored k' = stored k -> attached_to_managed k' r -> attached_to_managed k r.
Proof. intros Hs. unfold attached_to_managed, managed_key. by rewrite Hs. Qed.

Definition gateway_ok (_ : K) (gw : KGateway) : Prop := gateway_managed_by_app gw (ke_gateway_class E) = true.

Lemma site_delete_checked key k r k' : kubernetes_gateway_site_delete to_lowercase E key k = (r, k') ->
  changes_checked KindRoute key attached_to_managed k k'.
Proof.
  intros Hh. unfold kubernetes_gateway_site_delete in Hh. assert (Hs : stored k = stored k) by done.
  kread Hh Hs available_reads. kread Hh Hs (get_reads KindRoute). kread Hh Hs ensure_route_reads.
  right. split.
  - eapply only_at_stored; [exact Hs|]. by eapply delete_only_at.
  - apply (loaded KindRoute) in Hm0. rewrite Hsame0 in Hm0. eexists. split; [exact Hm0|].
    eapply attached_stored; [exact Hsame1|]. by eapply ensure_httproute_managed_ok.
Qed.

Lemma call_only_at kd key o f g k (r : result ApiError Key) k' :
  kube_bind unit Key (fun _ => kube_ret Key g) (kube_call (kube_replace kd key o) f) k = (r, k') -> only_at kd key k k'.
Proof.
  unfold kube_bind, kube_call. destruct (kube_replace kd key o k) as [r0 k0] eqn:Er. apply replace_only_at in Er.
  destruct r0; cbn; by intros [= _ <-].
Qed.

Lemma site_update_checked key b k r k' : kubernetes_gateway_site_update E key b k = (r, k') ->
  changes_checked KindRoute key attached_to_managed k k'.
Proof.
  intros Hh. unfold kubernetes_gateway_site_update in Hh. assert (Hs : stored k = stored k) by done.
  kread Hh Hs available_reads. do 2 kread Hh Hs nonempty_field_reads. kread Hh Hs (@or_400_reads (list HTTPRouteRule)).
  kread Hh Hs (get_reads KindRoute). kread Hh Hs ensure_route_reads.
  destruct (is_empty _); [injection Hh as _ <-; by left|]. kread Hh Hs need_gateway_reads.
  right. split.
  - eapply only_at_stored; [exact Hs|]. by eapply call_only_at.
  - apply (loaded KindRoute) in Hm3. rewrite Hsame3 in Hm3. eexists. split; [exact Hm3|].
    eapply attached_stored; [exact Hsame4|]. by eapply ensure_httproute_managed_ok.
Qed.

Lemma gateway_update_checked key b k r k' : kubernetes_gateway_update E key b k = (r, k') ->
  changes_checked KindGateway key gateway_ok k k'.
Proof.
  intros Hh. unfold kubernetes_gateway_update in Hh. assert (Hs : stored k = stored k) by done.
  kread Hh Hs available_reads. kread Hh Hs nonempty_field_reads. kread Hh Hs (@or_400_reads (option str)).
  kread Hh Hs (get_reads KindGateway). kread Hh Hs ensure_gateway_reads.
  right. split.
  - eapply only_at_stored; [exact Hs|]. by eapply call_only_at.
  - apply (loaded KindGateway) in Hm2. rewrite Hsame2 in Hm2. eexists. split; [exact Hm2|].
    by apply ensure_gateway_managed_ok in Hm3 as [_ ?].
Qed.

Lemma gateway_delete_checked key k r k' : kubernetes_gateway_delete to_lowercase E key k = (r, k') ->
  changes_checked KindGateway key gateway_ok k k'.
Proof.
  intros Hh. unfold kubernetes_gateway_delete in Hh. assert (Hs : stored k = stored k) by done.
  kread Hh Hs available_reads. kread Hh Hs (get_reads KindGateway). kread Hh Hs ensure_gateway_reads.
  right. split.
  - eapply only_at_stored; [exact Hs|]. by eapply delete_only_at.
  - apply (loaded KindGateway) in Hm0. rewrite Hsame0 in Hm0. eexists. split; [exact Hm0|].
    by apply ensure_gateway_managed_ok in Hm1 as [_ ?].
Qed.

(** C25: Only managed Gateway API objects are changed.  Whatever the server answers and
    whether the request succeeds or fails, updating or deleting a Gateway site changes
    nothing, or only the named HTTPRoute, which was then attached to a Gateway of
    the configured class; updating or deleting a Gateway changes nothing, or only the named
    Gateway, which was of that class. *)
Theorem gateway_changes_managed key k :
  (forall b r k', kubernetes_gateway_site_update E key b k = (r, k') -> changes_checked KindRoute key attached_to_managed k k') /\
  (forall r k', kubernetes_gateway_site_delete to_lowercase E key k = (r, k') -> changes_checked KindRoute key attached_to_managed k k') /\
  (forall b r k', kubernetes_gateway_update E key b k = (r, k') -> changes_checked KindGateway key gateway_ok k k') /\
  (forall r k', kubernetes_gateway_delete to_lowercase E key k = (r, k') -> changes_checked KindGateway key gateway_ok k k').
Proof.
  split_and!; intros *; [apply site_update_checked|apply site_delete_checked|apply gateway_update_checked|apply gateway_delete_checked].
Qed.

End handlers.

(** ** A concrete API server

    Three maps; writes are refused with [tk_refuse], if that is set. *)
Record ToyKube := mkToyKube {
  tk_ingresses : gmap Key KIngress;
  tk_gateways : gmap Key KGateway;
  tk_routes : gmap Key KHTTPRoute;
  tk_refuse : option str;
}.

Definition toy_stored (k : ToyKube) (kd : Kind) : gmap Key (object kd) :=
  match kd with KindIngress => tk_ingresses k | KindGateway => tk_gateways k | KindRoute => tk_routes k end.

Definition toy_store (kd : Kind) : gmap Key (object kd) -> ToyKube -> ToyKube :=
  match kd with
  | KindIngress => fun m k => mkToyKube m (tk_gateways k) (tk_routes k) (tk_refuse k)
  | KindGateway => fun m k => mkToyKube (tk_ingresses k) m (tk_routes k) (tk_refuse k)
  | KindRoute => fun m k => mkToyKube (tk_ingresses k) (tk_gateways k) m (tk_refuse k)
  end.

Lemma toy_store_same kd m k : toy_stored (toy_store kd m k) kd = m.
Proof. by destruct kd. Qed.
Lemma toy_store_other kd kd' m k : kd' <> kd -> toy_stored (toy_store kd m k) kd' = toy_stored k kd'.
Proof. by destruct kd, kd'. Qed.

Definition toy_get (kd : Kind) (key : Key) (k : ToyKube) : result str (object kd) * ToyKube :=
  (match toy_stored k kd !! key with Some o => Ok o | None => Err (bs "not found") end, k).
Definition toy_list (kd : Kind) (ns : option str) (k : ToyKube) : result str (list (Key * object kd)) * ToyKube :=
  (Ok (filter (fun x => from_option (fun n => x.1.1 =s n) true ns = true) (map_to_list (toy_stored k kd))), k).
(** [ok] is whether the object has to be there already, or must not. *)
Definition toy_write (kd : Kind) (key : Key) (ok : bool) (m : gmap Key (object kd)) (k : ToyKube) : result str unit * ToyKube :=
  match tk_refuse k with
  | Some e => (Err e, k)
  | None => if Bool.eqb ok (is_some (toy_stored k kd !! key)) then (Ok tt, toy_store kd m k) else (Err (bs "conflict"), k)
  end.

Lemma toy_write_spec kd key ok m k r k' : toy_write kd key ok m k = (r, k') ->
  (forall kd', kd' <> kd -> toy_stored k' kd' = toy_stored k kd') /\
  (toy_stored k' kd = toy_stored k kd /\ is_ok r = false \/ is_some (toy_stored k kd !! key) = ok /\ toy_stored k' kd = m).
Proof.
  unfold toy_write. destruct (tk_refuse k); [intros [= <- <-]; split; [done|by left]|].
  destruct (Bool.eqb _ _) eqn:Eb; intros [= <- <-]; [|split; [done|by left]]. apply eqb_prop in Eb.
  split; [intros; by apply toy_store_other|]. right. split; [done|]. apply toy_store_same.
Qed.

#[refine] Instance toy_kube : KubeServer ToyKube := {|
  stored := toy_stored;
  created_at _ _ _ := None;
  kube_get := toy_get;
  kube_create kd key o k := toy_write kd key false (<[key := o]> (toy_stored k kd)) k;
  kube_replace kd key o k := toy_write kd key true (<[key := o]> (toy_stored k kd)) k;
  kube_delete kd key k := toy_write kd key true (delete key (toy_stored k kd)) k;
  kube_list := toy_list;
|}.
Proof.
  - intros kd key k r k' [= <- <-]. split; [done|]. intros o. by destruct (toy_stored k kd !! key) as [?|] eqn:Es; [intros [= ->]|].
  - intros kd ns k r k' [= <- <-]. split; [done|]. intros l [= <-]. split.
    + eapply sublist_NoDup; [apply (NoDup_fst_map_to_list (toy_stored k kd))|]. apply fmap_sublist, sublist_filter.
    + intros key o. rewrite list_elem_of_filter, elem_of_map_to_list. destruct ns as [n|]; cbn; [rewrite str_eqb_eq|]; tauto.
  - intros kd key o k r k' Hw%toy_write_spec. destruct Hw as [Ho [?|[Hn Hs]]]; (split; [done|]); [by left|right].
    split; [|done]. by destruct (toy_stored k kd !! key).
  - intros kd key o k r k' Hw%toy_write_spec. destruct Hw as [Ho [?|[Hn Hs]]]; (split; [done|]); [by left|right].
    split; [|done]. by destruct (toy_stored k kd !! key).
  - intros kd key k r k' Hw%toy_write_spec. destruct Hw as [Ho [?|[Hn Hs]]]; (split; [done|]); [by left|by right].
Defined.

(** ** Witnesses and findings *)

Definition kube_env : KubeEnv := mkKubeEnv true true true (Some (bs "pertisk")) (Some (bs "pertisk")).

Definition site_body (port : option Z) (port_name ingress_namespace : option str) (geo : GeoIpPolicy) : CreateIngressBody :=
  mkCreateIngressBody (Some (bs "shop")) " shop.example" None None None None None "shop" "web" port port_name ingress_namespace None
    None None geo security_default None None.

Definition no_objects (refuse : option str) : ToyKube := mkToyKube ∅ ∅ ∅ refuse.

Definition created (b : CreateIngressBody) : result ApiError Key * ToyKube :=
  kubernetes_ingresses_create kube_env b (no_objects None).

Definition geo_site : CreateIngressBody := site_body (Some 8080%Z) None None (mkGeoIpPolicy true [] [bs "ru"] [] []).

Lemma ingress_form_roundtrip_witness : exists row, row_shows kube_env geo_site (bs "shop", bs "shop") row.
Proof.
  destruct (kubernetes_ingress_get to_ascii_lowercase kube_env (bs "shop", bs "shop") (created geo_site).2) as [[row|e] k2] eqn:Eg;
    [|exfalso; vm_compute in Eg; discriminate].
  exists row. refine (proj1 (ingress_form_roundtrip to_ascii_lowercase kube_env geo_site (no_objects None) row k2 _ _) _ _ _ Eg).
  - unfold geo_printable, code_plain. repeat split; simpl; repeat apply Forall_cons_2; repeat apply Forall_nil_2; try reflexivity;
      vm_compute; try discriminate; auto.
  - vm_compute. repeat split; discriminate.
  - vm_compute. reflexivity.
Defined.

Definition shop_site : CreateIngressBody := site_body (Some 8080%Z) None None geoip_default.
Definition plain_list : list (Key * KIngress) := match (kube_list KindIngress None (created shop_site).2).1 with Ok l => l | Err _ => [] end.
Definition plain_pass : bool * CtlState * Patches :=
  reconcile no_env 9090 ctl_cfg to_ascii_lowercase no_url iter_s io_ok (cluster true [shop]) "now" 0 Info ctl_state.

Lemma plain_list_shop : plain_list = [((bs "shop", bs "shop"), shop)].
Proof. vm_compute. reflexivity. Qed.


Definition http_listener : GatewayListener := mkGatewayListener "web" 80 "HTTP" None None None.
Definition some_gateway (ls : list GatewayListener) : KGateway :=
  mkKGateway (Some (bs "edge")) "public" None (Some (bs "pertisk")) ls None.
Definition edge_key : Key := (bs "edge", bs "public").
Definition with_gateway (ls : list GatewayListener) : ToyKube := mkToyKube ∅ {[edge_key := some_gateway ls]} ∅ None.
Definition gateway_body : CreateGatewayBody := mkCreateGatewayBody None "app.example" None (Some (bs "edge")) (Some (bs "cert")) None.

Lemma gateway_form_roundtrip_witness :
  let k1 := (kubernetes_gateway_update kube_env edge_key gateway_body (with_gateway [http_listener])).2 in
  exists gw new, stored k1 KindGateway = <[edge_key := new]> (stored (with_gateway [http_listener]) KindGateway) /\
    one_listener_edited (trim (cg_host gateway_body)) (gateway_secret_given gateway_body) gw new.
Proof.
  intros k1.
  destruct (gateway_form_roundtrip to_ascii_lowercase kube_env edge_key gateway_body (with_gateway [http_listener]) edge_key k1)
    as (gw & new & _ & H2 & H3 & _); [vm_compute; reflexivity|].
  exists gw, new. exact (conj H2 H3).
Defined.

(** A listener named https that is not of protocol HTTPS is the one the form saves to,
    and not the one it shows. *)
Lemma form_shows_other_listener :
  let ls := [mkGatewayListener "https" 443 "TLS" (Some (bs "tls.example")) None None;
             mkGatewayListener "main" 8443 "HTTPS" (Some (bs "old.example")) None None] in
  let k1 := (kubernetes_gateway_update kube_env edge_key gateway_body (with_gateway ls)).2 in
  (kubernetes_gateway_get to_ascii_lowercase kube_env edge_key k1).1 =
    Ok (mkGatewayFormRow "edge" "public" "old.example" (Some (bs "pertisk")) None).
Proof. vm_compute. reflexivity. Qed.

(** Where the controller sends the requests for what the form created. *)
Definition upstreams_created (b : CreateIngressBody) : list (list Upstream) :=
  let ings := match (kube_list KindIngress None (created b).2).1 with Ok l => l.*2 | Err _ => [] end in
  upstreams <$> acc_backends (collect no_env 9090 ctl_cfg (cluster true []) "now" ings).1.1.1.

(** The form takes a port by its name; the controller has no use for the name and
    sends the requests to port 80. *)
Lemma named_port_ignored :
  upstreams_created (site_body None (Some (bs "http-alt")) None geoip_default) = [[mkUpstream "web.shop.svc.cluster.local:80" 1]].
Proof. vm_compute. reflexivity. Qed.

(** With an Ingress namespace of its own, the Service is looked up there and not in the
    namespace the form gives for it. *)
Lemma service_namespace_ignored :
  upstreams_created (site_body (Some 8080%Z) None (Some (bs "ingress")) geoip_default) =
    [[mkUpstream "web.ingress.svc.cluster.local:8080" 1]].
Proof. vm_compute. reflexivity. Qed.

(** A refused deletion whose error text has 404 in it, here in the object's name, is
    reported as a deletion; the object stays. *)
Lemma refused_deletion_reported :
  let key := (bs "shop", bs "error-404") in
  let k := mkToyKube {[key := shop]} ∅ ∅ (Some (bs "ingresses error-404 is forbidden")) in
  kubernetes_ingress_delete to_ascii_lowercase kube_env key k = (Ok tt, k) /\ is_some (tk_ingresses k !! key) = true.
Proof. vm_compute. done. Qed.
