(* ===== verification/Readout.v ===== *)
(** * What the process tells about itself (metrics.rs, api/mod.rs)

    The text of the counters for a scraper, and the answers of the management API that
    only read: counters, tuning, routes, configuration, certificates, the system.  What
    is read from the machine is a parameter. *)

From S2P Require Import Prelude RustStr Ip GeoIp Waf Bot Captcha Security Edge EdgeAuth ProxyConfig Router Forward Apply.
From S2P Require Import Http Telemetry CertStore H3 Database Admin AutoSsl Settings.

(** ** Counters as text (metrics.rs) *)

Definition NL : byte := x0a.
Definition BACKSLASH : byte := x5c.

(** [format!] with a newline. *)
Definition text_line (l : str) : str := l ++ [NL].

Definition prometheus_escape_label_value (v : str) : str :=
  replace_byte NL [BACKSLASH; "n"%byte] (replace_byte x22 [BACKSLASH; x22] (replace_byte BACKSLASH [BACKSLASH; BACKSLASH] v)).

(** A quotient of two counters as the code computes it. *)
Inductive Ratio : Type := Quotient (a b : N) | Infinite | Zero.

Definition ratio (h3 h2 : N) : Ratio := if 0 <? h2 then Quotient h3 h2 else if 0 <? h3 then Infinite else Zero.

Definition site_protocol_snapshot (m : ProxyMetrics) : gmap str (N * N) := site_protocol_requests m.

(** The names, HELP texts and types, in the order of the text. *)
Record MetricHeader := mkHeader { mh_name : str; mh_help : str; mh_type : str }.

Definition header_lines (h : MetricHeader) : str :=
  text_line (bs "# HELP " ++ mh_name h ++ bs " " ++ mh_help h) ++ text_line (bs "# TYPE " ++ mh_name h ++ bs " " ++ mh_type h).

Definition counter_header (c : Counter) : MetricHeader :=
  match c with
  | http_requests_total => mkHeader "pertisk_http_requests_total" "Total number of HTTP requests processed" "counter"
  | https_requests_total => mkHeader "pertisk_https_requests_total" "Total number of HTTPS requests processed" "counter"
  | h3_requests_total => mkHeader "pertisk_h3_requests_total" "Total number of HTTP/3 (QUIC) requests processed" "counter"
  | h2_requests_total => mkHeader "pertisk_h2_requests_total" "Total number of HTTP/2 requests processed" "counter"
  | upstream_errors_total => mkHeader "pertisk_upstream_errors_total" "Total number of upstream errors" "counter"
  | geoip_blocked_total => mkHeader "pertisk_geoip_blocked_total" "Total requests blocked by GeoIP policy" "counter"
  | waf_blocked_total => mkHeader "pertisk_waf_blocked_total" "Total requests blocked by WAF" "counter"
  | waf_logged_total => mkHeader "pertisk_waf_logged_total" "Total WAF log-only matches" "counter"
  | bot_challenged_total => mkHeader "pertisk_bot_challenged_total" "Total bot challenges issued" "counter"
  | bot_blocked_total => mkHeader "pertisk_bot_blocked_total" "Total requests blocked by bot score" "counter"
  | captcha_passed_total => mkHeader "pertisk_captcha_passed_total" "Total captcha passes" "counter"
  | captcha_failed_total => mkHeader "pertisk_captcha_failed_total" "Total captcha failures" "counter"
  | grpc_requests_total => mkHeader "pertisk_grpc_requests_total" "Total number of gRPC requests processed" "counter"
  | active_connections => mkHeader "pertisk_active_connections" "Current number of active connections" "gauge"
  | bytes_sent_total => mkHeader "pertisk_bytes_sent_total" "Total number of bytes sent to clients" "counter"
  | bytes_received_total => mkHeader "pertisk_bytes_received_total" "Total number of bytes received from clients" "counter"
  end.

Definition ratio_header : MetricHeader :=
  mkHeader "pertisk_h3_vs_h2_ratio" "Ratio of HTTP/3 requests to HTTP/2 requests" "gauge".
Definition site_h2_header : MetricHeader :=
  mkHeader "pertisk_site_h2_requests_total" "Total number of HTTP/2 requests per host" "counter".
Definition site_h3_header : MetricHeader :=
  mkHeader "pertisk_site_h3_requests_total" "Total number of HTTP/3 requests per host" "counter".
Definition site_ratio_header : MetricHeader :=
  mkHeader "pertisk_site_h3_vs_h2_ratio" "Ratio of HTTP/3 requests to HTTP/2 requests per host" "gauge".

(** The counters before and after those of the sites. *)
Definition first_counters : list Counter := [http_requests_total; https_requests_total; h3_requests_total; h2_requests_total].
Definition last_counters : list Counter :=
  [grpc_requests_total; upstream_errors_total; geoip_blocked_total; waf_blocked_total; waf_logged_total; bot_challenged_total;
   bot_blocked_total; captcha_passed_total; captcha_failed_total; active_connections; bytes_sent_total; bytes_received_total].

Section metrics_text.
(** The quotient of two [u64] as [f64], as text. *)
Variable show_quotient : N -> N -> str.

Definition prometheus_float (r : Ratio) : str :=
  match r with Quotient a b => show_quotient a b | Infinite => bs "+Inf" | Zero => bs "0" end.

Definition counter_text (m : ProxyMetrics) (c : Counter) : str :=
  header_lines (counter_header c) ++ text_line (mh_name (counter_header c) ++ bs " " ++ show_N (counters m c)).

Definition host_label (name host : str) : str := name ++ bs "{host=" ++ [x22] ++ prometheus_escape_label_value host ++ [x22] ++ bs "} ".

Definition site_text (row : str * (N * N)) : str :=
  let '(host, (h2, h3)) := row in
  text_line (host_label (mh_name site_h2_header) host ++ show_N h2)
  ++ text_line (host_label (mh_name site_h3_header) host ++ show_N h3)
  ++ text_line (host_label (mh_name site_ratio_header) host ++ prometheus_float (ratio h3 h2)).

Definition get_metrics_text (m : ProxyMetrics) : str :=
  mjoin (counter_text m <$> first_counters)
  ++ header_lines ratio_header
  ++ text_line (mh_name ratio_header ++ bs " " ++ prometheus_float (ratio (counters m h3_requests_total) (counters m h2_requests_total)))
  ++ header_lines site_h2_header ++ header_lines site_h3_header ++ header_lines site_ratio_header
  ++ mjoin (site_text <$> sort_by (fun a b => str_leb a.1 b.1) (map_to_list (site_protocol_requests m)))
  ++ mjoin (counter_text m <$> last_counters).

End metrics_text.

Definition metrics_addr_from_env (env : str -> option str) : BindAddr :=
  default (SockV4 0 0 0 0 9990) (s ← env "PERTISK_METRICS_ADDR"; parse_bind_addr s).

Definition metrics_enabled_from_env (env : str -> option str) : bool :=
  from_option (fun v => let v := to_ascii_lowercase (trim v) in negb ((v =s "0") || (v =s "false") || (v =s "no") || (v =s "off"))) true
    (env "PERTISK_METRICS_ENABLED").

(** The scrape server: two paths. *)
Inductive ScrapeAnswer : Type := ScrapeText (content_type body : str) | ScrapeNotFound.

Definition start_metrics_server (text : str) (path : str) : ScrapeAnswer :=
  if path =s "/metrics" then ScrapeText "text/plain; version=0.0.4; charset=utf-8" text
  else if path =s "/health" then ScrapeText "text/plain; charset=utf-8" "OK"
  else ScrapeNotFound.

(** ** Loading the GeoIP databases (geoip.rs) *)

Record GeoFiles := mkGeoFiles {
  gf_is_file : str -> bool;
  gf_read : str -> option str;                       (** [read_to_string] *)
  gf_mmdb_country : str -> option (IpAddr -> option str);  (** [maxminddb::Reader::open_readfile] *)
  gf_mmdb_asn : str -> option (IpAddr -> option N);
}.

(** The engine with the paths it was loaded from. *)
Record LoadedEngine := mkLoadedEngine { le_engine : GeoIpEngine; le_country_path : option str; le_asn_path : option str }.

Record GeoIpStatus := mkGeoIpStatus {
  gs_country_db_loaded : bool;
  gs_asn_db_loaded : bool;
  gs_country_db_path : option str;
  gs_asn_db_path : option str;
}.

(** [Path::file_name]: the last component, when it is a name. *)
Definition path_names (p : str) : list str := filter (fun s => negb (is_empty s) && negb (s =s ".")) (split_on "/" p).
Definition file_name (p : str) : option str := opt_filter (fun s => negb (s =s "..")) (last (path_names p)).

Definition geo_env_path (e : ProcEnv) (key : str) : option str := opt_filter (fun v => negb (is_empty v)) (e !! key).

Definition default_country_path (f : GeoFiles) : option str :=
  List.find (gf_is_file f)
    [bs "/var/lib/pertisk-proxy/geoip/GeoLite2-Country.mmdb"; bs "/usr/share/GeoIP/GeoLite2-Country.mmdb";
     bs "/usr/share/GeoIP/GeoIP2-Country.mmdb"].

Definition default_asn_path (f : GeoFiles) : option str :=
  List.find (gf_is_file f)
    [bs "/var/lib/pertisk-proxy/geoip/GeoLite2-ASN.mmdb"; bs "/var/lib/pertisk-proxy/geoip/ip2asn-combined.tsv";
     bs "/var/lib/pertisk-proxy/geoip/ip2asn-v4.tsv"; bs "/usr/share/GeoIP/GeoLite2-ASN.mmdb";
     bs "/usr/share/GeoIP/GeoIP2-ASN.mmdb"; bs "/usr/share/GeoIP/ip2asn-combined.tsv"].

Definition asn_file_is_tsv (name : str) : bool :=
  ends_with ".tsv" name || ends_with ".tsv.gz" name || contains "ip2asn" name || ends_with ".csv" name.

Definition load_asn_db (f : GeoFiles) (path : str) : option AsnDb :=
  let name := to_ascii_lowercase (default [] (file_name path ≫= from_utf8)) in
  if asn_file_is_tsv name then
    if ends_with ".gz" name then None
    else raw ← gf_read f path; match tsv_load raw with Ok db => Some (Tsv db) | Err _ => None end
  else Mmdb <$> gf_mmdb_asn f path.

Definition engine_load (f : GeoFiles) (country_path asn_path : option str) : LoadedEngine :=
  mkLoadedEngine (mkGeoIpEngine (country_path ≫= gf_mmdb_country f) (asn_path ≫= load_asn_db f)) country_path asn_path.

Definition engine_from_env (e : ProcEnv) (f : GeoFiles) : LoadedEngine :=
  engine_load f (or_else (geo_env_path e "PERTISK_GEOIP_COUNTRY_DB") (default_country_path f))
    (or_else (geo_env_path e "PERTISK_GEOIP_ASN_DB") (default_asn_path f)).

Definition engine_status (l : LoadedEngine) : GeoIpStatus :=
  mkGeoIpStatus (country_loaded (le_engine l)) (asn_loaded (le_engine l))
    (from_utf8_lossy <$> le_country_path l) (from_utf8_lossy <$> le_asn_path l).

(** ** The machine *)

Record Disk := mkDisk { dk_mount : str; dk_total : N; dk_available : N }.

(** What the process reads of the machine it runs on; [F] is [f32]. *)
Record Machine (F : Type) := mkMachine {
  mc_supported : bool;
  mc_name : option str;
  mc_long_version : option str;
  mc_os : str;
  mc_hostname : option str;
  mc_cpus : N;
  mc_cpu_usage : F;
  mc_memory_total : N;
  mc_memory_used : N;
  mc_process : option (F * N);
  mc_pid : N;
  mc_disks : list Disk;
  mc_addresses : option (list IpAddr);
  mc_read : str -> option str;       (** [read_to_string] *)
  mc_canonical : str -> option str;  (** [canonicalize] *)
}.
Arguments mkMachine {F} _ _ _ _ _ _ _ _ _ _ _ _ _ _ _.
Arguments mc_supported {F} _.
Arguments mc_name {F} _.
Arguments mc_long_version {F} _.
Arguments mc_os {F} _.
Arguments mc_hostname {F} _.
Arguments mc_cpus {F} _.
Arguments mc_cpu_usage {F} _.
Arguments mc_memory_total {F} _.
Arguments mc_memory_used {F} _.
Arguments mc_process {F} _.
Arguments mc_pid {F} _.
Arguments mc_disks {F} _.
Arguments mc_addresses {F} _.
Arguments mc_read {F} _.
Arguments mc_canonical {F} _.

(** [Path::components]: whether the path is absolute, and the names, with a leading dot
    of a relative path.  [Path::starts_with] compares components. *)
Definition path_components (p : str) : bool * list str :=
  let segments := split_on "/" p in
  if starts_with "/" p then (true, path_names p)
  else (false, if bool_decide (head segments = Some (bs ".")) then bs "." :: path_names p else path_names p).

Fixpoint names_start_with (p base : list str) : bool :=
  match base, p with
  | [], _ => true
  | b :: base, x :: p => (x =s b) && names_start_with p base
  | _ :: _, [] => false
  end.

Definition path_starts_with (p base : str) : bool :=
  let '(pa, ps) := path_components p in
  let '(ba, bs_) := path_components base in
  Bool.eqb pa ba && names_start_with ps bs_.

(** The loop over the disks: the first of those with the longest mount point. *)
Fixpoint best_disk (path : str) (best : option (Disk * nat)) (disks : list Disk) : option (Disk * nat) :=
  match disks with
  | [] => best
  | d :: disks =>
    let len := length (dk_mount d) in
    best_disk path
      (if path_starts_with path (dk_mount d) && from_option (fun b => (b.2 <? len)%nat) true best then Some (d, len) else best) disks
  end.

Definition disk_usage_for_path {F} (m : Machine F) (data_path : str) : option N * option N * option str :=
  if negb (mc_supported m) then (None, None, None)
  else
    let path := default data_path (mc_canonical m data_path) in
    match best_disk path None (mc_disks m) with
    | None => (None, None, None)
    | Some (d, _) => (Some (dk_total d), Some (dk_total d - dk_available d), Some (from_utf8_lossy (dk_mount d)))
    end.

Definition is_private_or_docker_ipv4 (ip : IpAddr) : bool :=
  match ip with
  | V4 a b _ _ => (a =? 127) || ((a =? 172) && (16 <=? b) && (b <=? 31)) || ((a =? 192) && (b =? 168))
  | V6 _ => false
  end.

(** The first group of an address is 2000 to 3fff. *)
Definition is_global_ipv6 (ip : IpAddr) : bool :=
  match ip with V6 (g :: _) => (8192 <=? g) && (g <=? 16383) | _ => false end.

Definition shown_ipv4 (ip : IpAddr) : option str :=
  match ip with V4 _ _ _ _ => if is_private_or_docker_ipv4 ip then None else Some (show_ip ip) | V6 _ => None end.
Definition shown_ipv6 (ip : IpAddr) : option str := if is_global_ipv6 ip then Some (show_ip ip) else None.

Record SystemInfo (F : Type) := mkSystemInfo {
  si_hostname : option str;
  si_os : option str;
  si_cpu_count : option N;
  si_cpu_usage : option F;
  si_memory_total : option N;
  si_memory_used : option N;
  si_process_cpu : option F;
  si_process_memory : option N;
  si_ipv4 : list str;
  si_ipv6 : list str;
}.
Arguments mkSystemInfo {F} _ _ _ _ _ _ _ _ _ _.

Definition gather_system_info {F} (m : Machine F) : SystemInfo F :=
  let on {A} (a : A) : option A := if mc_supported m then Some a else None in
  let addresses := default [] (mc_addresses m) in
  mkSystemInfo (if mc_supported m then mc_hostname m else None)
    (if mc_supported m then or_else (or_else (mc_name m) (mc_long_version m)) (Some (mc_os m)) else Some (mc_os m))
    (on (mc_cpus m mod 4294967296)) (on (mc_cpu_usage m)) (on (mc_memory_total m)) (on (mc_memory_used m))
    (on (mc_process m) ≫= fun p => fst <$> p) (on (mc_process m) ≫= fun p => snd <$> p)
    (sort_dedup_str (omap shown_ipv4 addresses)) (sort_dedup_str (omap shown_ipv6 addresses)).

(** *** The kernel *)

Definition read_trimmed {F} (m : Machine F) (path : str) : option str :=
  opt_filter (fun v => negb (is_empty v)) (trim <$> mc_read m path).
Definition read_u64 {F} (m : Machine F) (path : str) : option N := v ← read_trimmed m path; parse_u64 v.

Fixpoint find_map {A B} (f : A -> option B) (l : list A) : option B :=
  match l with [] => None | x :: l => match f x with Some b => Some b | None => find_map f l end end.

Definition process_cpu_affinity {F} (m : Machine F) : option str :=
  status ← mc_read m "/proc/self/status";
  find_map (fun line => opt_filter (fun v => negb (is_empty v)) (trim <$> strip_prefix "Cpus_allowed_list:" line)) (lines status).

(** [split_whitespace().next()]: up to where white space begins. *)
Fixpoint until_space (s : str) : str :=
  match s with [] => [] | b :: s' => if bool_decide (trim_start s = s) then b :: until_space s' else [] end.
Definition first_word (s : str) : option str := opt_filter (fun w => negb (is_empty w)) (Some (until_space (trim_start s))).

Definition process_open_files_limit {F} (m : Machine F) : option N :=
  limits ← mc_read m "/proc/self/limits";
  find_map (fun line =>
    rest ← trim <$> strip_prefix "Max open files" line;
    soft ← first_word rest;
    if eq_ignore_ascii_case soft "unlimited" then Some u64_max else parse_u64 soft) (lines limits).

Record KernelTuningInfo := mkKernelTuningInfo {
  kt_cpu_affinity : option str;
  kt_open_files_limit : option N;
  kt_rmem_max : option N;
  kt_wmem_max : option N;
  kt_somaxconn : option N;
  kt_netdev_max_backlog : option N;
  kt_tcp_max_syn_backlog : option N;
  kt_tcp_congestion_control : option str;
  kt_default_qdisc : option str;
  kt_ip_local_port_range : option str;
  kt_tcp_tw_reuse : option str;
}.

Definition kernel_tuning_info {F} (m : Machine F) : KernelTuningInfo :=
  mkKernelTuningInfo (process_cpu_affinity m) (process_open_files_limit m)
    (read_u64 m "/proc/sys/net/core/rmem_max") (read_u64 m "/proc/sys/net/core/wmem_max")
    (read_u64 m "/proc/sys/net/core/somaxconn") (read_u64 m "/proc/sys/net/core/netdev_max_backlog")
    (read_u64 m "/proc/sys/net/ipv4/tcp_max_syn_backlog") (read_trimmed m "/proc/sys/net/ipv4/tcp_congestion_control")
    (read_trimmed m "/proc/sys/net/core/default_qdisc") (read_trimmed m "/proc/sys/net/ipv4/ip_local_port_range")
    (read_trimmed m "/proc/sys/net/ipv4/tcp_tw_reuse").

(** ** Tuning *)

Record EffectiveQuicInfo := mkEffectiveQuicInfo {
  eq_source : str;
  eq_idle_timeout_secs : N;
  eq_keepalive_secs : option N;
  eq_max_streams_bidi : N;
  eq_stream_receive_window : N;
  eq_conn_receive_window : N;
  eq_udp_buffer_bytes : option N;
}.

(** Which HTTP/3 server the build has. *)
Inductive H3Stack : Type := StackQuinn | StackQuiche | StackNone.

(** The other fields are [None] with Quinn. *)
Definition effective_quic_info (stack : H3Stack) (e : ProcEnv) : option EffectiveQuicInfo :=
  match stack with
  | StackQuinn =>
    let q := effective_transport_config (var e) in
    Some (mkEffectiveQuicInfo "env (Quinn)" (qt_idle_timeout_secs q) (Some (qt_keepalive_secs q)) (qt_max_streams_bidi q)
            (qt_stream_receive_window q) (qt_conn_receive_window q) (Some (qt_udp_buffer_bytes q)))
  | _ => None
  end.

Record TuningInfo := mkTuningInfo {
  ti_requested_mode : str;
  ti_resolved_mode : str;
  ti_tokio_worker_threads : N;
  ti_max_blocking_threads : N;
  ti_pingora_service_threads : N;
  ti_pingora_listener_tasks_per_fd : N;
  ti_pingora_upstream_keepalive_pool_size : N;
  ti_h3_worker_threads : N;
  ti_tcp_listen_backlog : Z;
  ti_keepalive : DownstreamTcpKeepalive;
  ti_h3_stack : str;
  ti_udp_offload : str;
  ti_h3_upstream_pool : H3UpstreamPoolConfig;
  ti_effective_quic : option EffectiveQuicInfo;
  ti_kernel : KernelTuningInfo;
}.

Definition tuning_info {F} (m : Machine F) (stack : H3Stack) (linux : bool) (e : ProcEnv) (cpus default_pool_size : N) (cfg : RuntimeConfig)
    : TuningInfo :=
  let pingora := pingora_server_conf e cpus default_pool_size cfg in
  let ka := downstream_tcp_keepalive_config e in
  mkTuningInfo (mode_as_str (requested_mode cfg)) (mode_as_str (resolved_mode cfg)) (worker_threads cfg) (max_blocking_threads cfg)
    (sc_threads pingora) (sc_listener_tasks_per_fd pingora) (sc_upstream_keepalive_pool_size pingora)
    (h3_worker_threads cfg) (tcp_listen_backlog e cfg)
    (mkDownstreamTcpKeepalive (ka_enabled ka && (0 <? ka_idle_secs ka) && (0 <? ka_interval_secs ka) && (0 <? ka_count ka))
       (ka_idle_secs ka) (ka_interval_secs ka) (ka_count ka))
    (match stack with StackQuinn => bs "quinn" | StackQuiche => bs "tokio-quiche" | StackNone => bs "disabled" end)
    (if linux then bs "automatic (GSO/GRO when supported)" else bs "platform dependent")
    (upstream_pool_config (var e) (is_performance_mode cfg))
    (effective_quic_info stack e) (kernel_tuning_info m).

(** ** Building the state of the management API *)

Definition admin_password (env : str -> option str) : option str :=
  find_map (fun key => opt_filter (fun s => negb (is_empty s)) (trim <$> env key)) [bs "PERTISK_ADMIN_PASSWORD"; bs "PERTISK_PASSWORD"].

Definition admin_dev_origin (env : str -> option str) : option str :=
  opt_filter (fun s => negb (is_empty s)) (env "PERTISK_ADMIN_UI_DEV_ORIGIN").

Definition resolve_admin_dist (env : str -> option str) (is_file : str -> bool) : str :=
  match env "PERTISK_ADMIN_DIST" with
  | Some path => path
  | None =>
    default (bs "admin/dist")
      (List.find (fun c => is_file (c ++ bs "/index.html")) [bs "admin/dist"; bs "/usr/share/pertisk-proxy/admin/dist"])
  end.

Definition management_addr_env (env : str -> option str) : SocketAddr :=
  default default_management_addr
    (s ← env "PERTISK_MANAGEMENT_ADDR"; a ← parse_bind_addr s; Some (mkSocketAddr (sock_ip a) (sock_port a))).

(** [auth_required] in the two modes. *)
Definition proxy_auth_required (env : str -> option str) (has_db : bool) : bool := has_db || is_some (admin_password env).
Definition ingress_auth_required (env : str -> option str) (has_db : bool) : bool :=
  has_db || is_some (admin_password env) || from_option (fun s => negb (is_empty (trim s))) false (env "PERTISK_API_TOKEN").

(** The settings of [AdminState] that the environment decides. *)
Definition build_state (env : str -> option str) (is_file : str -> bool) (read_file : str -> option str) (has_db : bool) (certs_dir_db : str)
    (now : N) (uuid : str) (io : CertIo) (acme : bool) (level : LogLevel) : AdminEnv :=
  mkAdminEnv (proxy_auth_required env has_db) (admin_password env) false (if has_db then certs_dir_db else bs "./data/certs")
    (resolve_admin_dist env is_file) (admin_dev_origin env) env now uuid io is_file read_file acme level.

Definition build_ingress_state (env : str -> option str) (is_file : str -> bool) (read_file : str -> option str) (has_db : bool) (certs_dir : str)
    (now : N) (uuid : str) (io : CertIo) (level : LogLevel) : AdminEnv :=
  mkAdminEnv (ingress_auth_required env has_db) (admin_password env) true certs_dir
    (resolve_admin_dist env is_file) (admin_dev_origin env) env now uuid io is_file read_file false level.

(** ** Answers of the management API *)

Record LeaderElectionState := mkLeaderElectionState {
  les_enabled : bool;
  les_is_leader : option bool;
  les_namespace : str;
  les_lease_name : str;
}.

Record LeaderElectionInfo := mkLeaderElectionInfo { li_enabled : bool; li_is_leader : bool; li_namespace : str; li_lease_name : str }.

(** The parts of [AdminState] that do not change while it serves. *)
Record Process := mkProcess {
  pr_started_at : N;
  pr_server : ServerConfig;
  pr_auto_https : bool;
  pr_runtime : RuntimeConfig;
  pr_vars : ProcEnv;
  pr_db_file : str;
  pr_gateway_api : bool;
  pr_ingress_class : option str;
  pr_gateway_class : option str;
  pr_leader : option LeaderElectionState;
  pr_cpus : N;
  pr_default_pool_size : N;
  pr_stack : H3Stack;
  pr_linux : bool;
  pr_macos : bool;
  pr_ingress_build : bool;
  pr_version : str;
}.

Record MetricsResponse := mkMetricsResponse {
  mr_uptime_secs : N;
  mr_log_entries : N;
  mr_counters : Counter -> N;
  mr_h3_vs_h2_ratio : Ratio;
  mr_site_h2 : gmap str N;
  mr_site_h3 : gmap str N;
  mr_metrics_addr : str;
}.

Record RouteView := mkRouteView { rv_host : str; rv_path : str; rv_path_type : str; rv_upstream : str; rv_middlewares : nat }.
Record RoutesResponse := mkRoutesResponse { rs_routes : list RouteView; rs_count : nat }.

Record TlsEntryView := mkTlsEntryView { tv_hosts : list str; tv_cert : str; tv_key : str }.
Record TlsResponse := mkTlsResponse { ts_entries : list TlsEntryView; ts_host_count : nat }.

Record AuthConfigResponse := mkAuthConfigResponse {
  ac_mode : str;
  ac_supports_local : bool;
  ac_auth_required : bool;
  ac_can_change_password : bool;
}.

Record ManagementInfo (F : Type) := mkManagementInfo {
  mi_mode : str;
  mi_version : str;
  mi_uptime_secs : N;
  mi_db_path : str;
  mi_management_addr : str;
  mi_route_count : nat;
  mi_site_count : nat;
  mi_backend_count : nat;
  mi_tls_count : nat;
  mi_tls_host_count : nat;
  mi_enable_h3 : bool;
  mi_auto_https : bool;
  mi_runtime_mode : str;
  mi_tuning : TuningInfo;
  mi_listeners : str * str * str;
  mi_http3 : Http3Options;
  mi_system : SystemInfo F;
  mi_disk : option N * option N * option str;
  mi_process_pid : N;
  mi_gateway_api_enabled : option bool;
  mi_helm_enabled : option bool;
  mi_ingress_class : option str;
  mi_gateway_class : option str;
  mi_leader_election : option LeaderElectionInfo;
  mi_geoip : GeoIpStatus;
}.
Arguments mkManagementInfo {F} _ _ _ _ _ _ _ _ _ _ _ _ _ _ _ _ _ _ _ _ _ _ _ _ _.

Section answers.
Context `{Crypto} `{Formats}.
Variable scan : list CertRow -> list CertRow.
Variable iter_routes : gmap str (list Route) -> list (str * list Route).
Variable db_text : DbError -> str.
Variable E : AdminEnv.
Variable P : Process.

Definition uptime_secs : N := ae_now E - pr_started_at P.

Definition build_metrics_response (m : ProxyMetrics) (s : Admin) : MetricsResponse :=
  mkMetricsResponse uptime_secs (N.of_nat (length (log_entries (ad_log s)))) (counters m)
    (ratio (counters m h3_requests_total) (counters m h2_requests_total))
    (fst <$> site_protocol_snapshot m) (snd <$> site_protocol_snapshot m)
    (show_bind_addr (metrics_addr_from_env (var (pr_vars P)))).

(** A handler that asks for a token itself. *)
Definition if_authorized {A} (header : str -> option str) (m : Api A) : Api A := fun s =>
  let '(ok, s) := is_authorized E header s in if ok then m s else (Err (mkApiError 401 "unauthorized"), s).

Definition get_metrics (m : ProxyMetrics) (header : str -> option str) : Api MetricsResponse :=
  if_authorized header (api_get (build_metrics_response m)).

(** [fetch] is the request: it fails, or gives a status and a body that may be JSON. *)
Definition fetch_tunnel_status_value {J} (fetch : str -> result str (N * result str J)) : result str J :=
  let url := default (bs "http://127.0.0.1:7700/status") (var (pr_vars P) "PERTISK_TUNNEL_STATUS_URL") in
  match fetch url with
  | Ok (status, body) =>
    if (200 <=? status) && (status <? 300) then
      match body with Ok j => Ok j | Err e => Err (bs "invalid tunnel status JSON: " ++ e) end
    else Err (bs "tunnel status at " ++ url ++ bs " returned HTTP " ++ show_N status)
  | Err e => Err (bs "tunnel status unreachable (" ++ url ++ bs "): " ++ e ++ bs ". Is pertisk-tunnel-server running?")
  end.

Definition get_tunnel_status {J} (fetch : str -> result str (N * result str J)) (header : str -> option str) : Api J :=
  if_authorized header (fun s =>
    (match fetch_tunnel_status_value fetch with Ok j => Ok j | Err e => Err (mkApiError 502 e) end, s)).

Definition path_type_name (t : PathMatchType) : str :=
  match t with Exact => bs "exact" | Prefix => bs "prefix" | ImplementationSpecific => bs "implementation_specific" end.

Definition route_view (hr : str * Route) : RouteView :=
  let '(host, r) := hr in
  mkRouteView host (route_path r) (path_type_name (path_type r))
    (address (route_backend r) ++ bs ":" ++ show_N (port (route_backend r))) (length (middlewares r)).

Definition build_routes_response (s : Admin) : RoutesResponse :=
  let views := route_view <$> all_routes iter_routes (table (ad_router s)) in mkRoutesResponse views (length views).

Definition get_routes : Api RoutesResponse := api_get build_routes_response.

(** A row that cannot be read leaves the expiries as they are. *)
Definition enrich_tls_expiries (c : Config) (d : DbState) : Config * DbState :=
  match list_certificates scan d with
  | (Ok rows, d') =>
    (with_tls c ((fun t => mkTlsConfig (tls_hosts t) (tls_source t)
        (r ← List.find (fun r => cert_row_matches_tls_config r (tls_hosts t)) rows; row_expires_at r)) <$> cfg_tls c), d')
  | (Err _, d') => (c, d')
  end.

Definition build_config (s : Admin) : Config * Admin :=
  let c := with_tls (ad_config s) (normalize_tls_config (cfg_tls (ad_config s))) in
  match ad_db s with
  | None => (c, s)
  | Some d => let '(c, d) := enrich_tls_expiries c d in (c, set_db (Some d) s)
  end.

Definition get_config : Api Config := fun s => let '(c, s) := build_config s in (Ok c, s).

Definition build_certificates (s : Admin) : result str (list CertificateRow) * Admin :=
  match ad_db s with
  | None => (Ok [], s)
  | Some d => let '(r, d) := list_certificates scan d in (match r with Ok l => Ok l | Err e => Err (db_text e) end, set_db (Some d) s)
  end.

(** [cert_path] and [key_path] are there for a source that is a pair of files. *)
Definition tls_entry_view (t : TlsConfig) : option TlsEntryView :=
  match tls_source t with File cert key => Some (mkTlsEntryView (tls_hosts t) cert key) | _ => None end.

Definition get_tls : Api TlsResponse :=
  api_get (fun s => mkTlsResponse (omap tls_entry_view (cfg_tls (ad_config s))) (host_count (ad_certs s))).

Definition auth_config (s : Admin) : AuthConfigResponse :=
  mkAuthConfigResponse "local" true (ae_auth_required E) (is_some (ad_db s) && negb (ae_viewer_mode E)).

(** *** The overview *)

Definition management_ingress_fields : option bool * option str * option str * option LeaderElectionInfo :=
  (if ae_viewer_mode E then Some (pr_gateway_api P) else None,
   if ae_viewer_mode E then pr_ingress_class P else None,
   if ae_viewer_mode E then pr_gateway_class P else None,
   (fun l => mkLeaderElectionInfo (les_enabled l) (default true (les_is_leader l)) (les_namespace l) (les_lease_name l)) <$> pr_leader P).

Definition helm_shown : bool :=
  from_option (fun v => negb ((v =s "0") || (v =s "false") || (v =s "FALSE") || (v =s "no") || (v =s "NO"))) false
    (var (pr_vars P) "PERTISK_HELM_ENABLED").

Definition build_management_info {F} (m : Machine F) (geo : LoadedEngine) (s : Admin) : ManagementInfo F :=
  let data_path := if is_some (ad_db s) then pr_db_file P else ae_certs_dir E in
  let '(gateway, ic, gc, leader) := if pr_ingress_build P then management_ingress_fields else (None, None, None, None) in
  let c := ad_config s in
  mkManagementInfo (if ae_viewer_mode E then bs "ingress" else bs "proxy") (pr_version P) uptime_secs
    (if is_some (ad_db s) then from_utf8_lossy (pr_db_file P) else bs "(kubernetes)")
    (show_socket_addr (ProxyConfig.management_addr c))
    (route_count iter_routes (table (ad_router s))) (length (cfg_sites c)) (length (cfg_backends c)) (length (cfg_tls c))
    (host_count (ad_certs s)) (enable_h3 (pr_server P)) (pr_auto_https P) (mode_as_str (resolved_mode (pr_runtime P)))
    (tuning_info m (pr_stack P) (pr_linux P) (pr_vars P) (pr_cpus P) (pr_default_pool_size P) (pr_runtime P))
    (effective_listen_display (pr_macos P) (http_listen (pr_server P)), effective_listen_display (pr_macos P) (https_listen (pr_server P)),
     effective_udp_listen_display (pr_macos P) (h3_udp_listen (pr_server P)))
    (cfg_http3 c) (gather_system_info m) (disk_usage_for_path m data_path) (mc_pid m)
    gateway (if ae_viewer_mode E then Some helm_shown else None) ic gc leader (engine_status geo).

End answers.
