(* ===== verification/ReadoutProps.v ===== *)
(** * What the read-outs guarantee

    Theorems about [Readout]: a scraper reads back exactly the counters, whatever hosts
    were requested; the disk shown is that of the deepest mount point. *)

From S2P Require Import Prelude RustStr Ip GeoIp Waf Bot Captcha Security Edge EdgeAuth ProxyConfig Router Forward Apply.
From S2P Require Import Http Telemetry CertStore H3 Database Admin AutoSsl Settings Readout.

(** ** A reader of the exposition format

    Lines that start with a number sign are comments; a sample is a name, perhaps one
    label [host] with an escaped value, a space and the value. *)
Record Sample := mkSample { sp_name : str; sp_host : option str; sp_value : str }.

Definition name_ends (b : byte) : bool := is_byte "{" b || is_byte " " b.

Fixpoint read_name (s : str) : str * str :=
  match s with
  | [] => ([], [])
  | b :: s' => if name_ends b then ([], s) else let '(n, r) := read_name s' in (b :: n, r)
  end.

(** A label value up to its closing quote, and what follows. *)
Fixpoint read_label (s : str) : option (str * str) :=
  match s with
  | [] => None
  | b :: s =>
    if is_byte x22 b then Some ([], s)
    else if is_byte BACKSLASH b then
      match s with
      | [] => None
      | c :: s => '(v, r) ← read_label s; Some ((if is_byte "n" c then NL else c) :: v, r)
      end
    else '(v, r) ← read_label s; Some (b :: v, r)
  end.

Definition read_sample (l : str) : option Sample :=
  let '(name, rest) := read_name l in
  match strip_prefix (bs "{host=" ++ [x22]) rest with
  | Some rest => '(host, rest) ← read_label rest; value ← strip_prefix "} " rest; Some (mkSample name (Some host) value)
  | None => value ← strip_prefix " " rest; Some (mkSample name None value)
  end.

Fixpoint read_lines (ls : list str) : option (list Sample) :=
  match ls with
  | [] => Some []
  | l :: ls =>
    if starts_with "#" l then read_lines ls
    else s ← read_sample l; rest ← read_lines ls; Some (s :: rest)
  end.

Definition scrape (text : str) : option (list Sample) := read_lines (filter (fun l => l <> []) (split_on NL text)).

(** ** What the text holds *)

Section samples.
Variable show_quotient : N -> N -> str.

Definition counter_sample (m : ProxyMetrics) (c : Counter) : Sample := mkSample (mh_name (counter_header c)) None (show_N (counters m c)).

Definition site_samples (row : str * (N * N)) : list Sample :=
  let '(host, (h2, h3)) := row in
  [mkSample (mh_name site_h2_header) (Some host) (show_N h2); mkSample (mh_name site_h3_header) (Some host) (show_N h3);
   mkSample (mh_name site_ratio_header) (Some host) (prometheus_float show_quotient (ratio h3 h2))].

Definition expected_samples (m : ProxyMetrics) : list Sample :=
  (counter_sample m <$> first_counters)
  ++ [mkSample (mh_name ratio_header) None
        (prometheus_float show_quotient (ratio (counters m h3_requests_total) (counters m h2_requests_total)))]
  ++ mjoin (site_samples <$> sort_by (fun a b => str_leb a.1 b.1) (map_to_list (site_protocol_requests m)))
  ++ (counter_sample m <$> last_counters).

(** ** Lines *)

Definition header_ls (h : MetricHeader) : list str :=
  [bs "# HELP " ++ mh_name h ++ bs " " ++ mh_help h; bs "# TYPE " ++ mh_name h ++ bs " " ++ mh_type h].

Definition sample_line (s : Sample) : str :=
  match sp_host s with
  | Some host => host_label (sp_name s) host ++ sp_value s
  | None => sp_name s ++ bs " " ++ sp_value s
  end.

Definition counter_ls (m : ProxyMetrics) (c : Counter) : list str := header_ls (counter_header c) ++ [sample_line (counter_sample m c)].

Definition text_ls (m : ProxyMetrics) : list str :=
  mjoin (counter_ls m <$> first_counters)
  ++ header_ls ratio_header
  ++ [sample_line (mkSample (mh_name ratio_header) None
        (prometheus_float show_quotient (ratio (counters m h3_requests_total) (counters m h2_requests_total))))]
  ++ header_ls site_h2_header ++ header_ls site_h3_header ++ header_ls site_ratio_header
  ++ mjoin ((fun r => sample_line <$> site_samples r) <$> sort_by (fun a b => str_leb a.1 b.1) (map_to_list (site_protocol_requests m)))
  ++ mjoin (counter_ls m <$> last_counters).

Definition unlines (ls : list str) : str := mjoin (text_line <$> ls).

Lemma unlines_app a b : unlines (a ++ b) = unlines a ++ unlines b.
Proof. unfold unlines. by rewrite fmap_app, join_app. Qed.

Lemma unlines_join {A} (f : A -> list str) (g : A -> str) l : (forall x, unlines (f x) = g x) -> unlines (mjoin (f <$> l)) = mjoin (g <$> l).
Proof.
  intros Hf. induction l as [|x l IH]; [done|]. change (unlines (f x ++ mjoin (f <$> l)) = g x ++ mjoin (g <$> l)).
  by rewrite unlines_app, Hf, IH.
Qed.

Lemma unlines_header h : unlines (header_ls h) = header_lines h.
Proof. unfold unlines, header_ls, header_lines. cbn [fmap list_fmap mjoin list_join]. by rewrite app_nil_r. Qed.

Lemma unlines_one l : unlines [l] = text_line l.
Proof. unfold unlines. cbn [fmap list_fmap mjoin list_join]. apply app_nil_r. Qed.

Lemma unlines_counter m c : unlines (counter_ls m c) = counter_text m c.
Proof. unfold counter_ls, counter_text. by rewrite unlines_app, unlines_header, unlines_one. Qed.

Lemma unlines_site r : unlines (sample_line <$> site_samples r) = site_text show_quotient r.
Proof.
  destruct r as [host [h2 h3]]. unfold site_samples, site_text, unlines. cbn [fmap list_fmap mjoin list_join]. by rewrite app_nil_r.
Qed.

Lemma metrics_text_lines m : get_metrics_text show_quotient m = unlines (text_ls m).
Proof.
  unfold get_metrics_text, text_ls. rewrite !unlines_app, !unlines_header, unlines_one.
  rewrite (unlines_join _ (counter_text m)) by apply unlines_counter.
  rewrite (unlines_join _ (site_text show_quotient)) by apply unlines_site.
  by rewrite (unlines_join _ (counter_text m)) by apply unlines_counter.
Qed.

(** *** Reading lines *)

Lemma split_unlines ls : Forall (fun l => NL ∉ l) ls -> split_on NL (unlines ls) = ls ++ [[]].
Proof.
  induction 1 as [|l ls Hl _ IH]; [done|]. change (split_on NL ((l ++ [NL]) ++ unlines ls) = l :: ls ++ [[]]).
  rewrite <- app_assoc. cbn [app]. unfold split_on in *. rewrite split_app_sep; [by rewrite IH|by apply not_elem_is_byte|reflexivity].
Qed.

Lemma read_lines_app a b : read_lines (a ++ b) = xs ← read_lines a; ys ← read_lines b; Some (xs ++ ys).
Proof.
  induction a as [|l a IH]; cbn [app read_lines]; [by destruct (read_lines b)|]. destruct (starts_with "#" l); [done|].
  destruct (read_sample l); [|done]. cbn. rewrite IH. destruct (read_lines a); [|done]. cbn. by destruct (read_lines b).
Qed.

Lemma read_lines_join {A} (f : A -> list str) (g : A -> list Sample) l :
  (forall x, x ∈ l -> read_lines (f x) = Some (g x)) -> read_lines (mjoin (f <$> l)) = Some (mjoin (g <$> l)).
Proof.
  induction l as [|x l IH]; intros Hf; [done|]. change (read_lines (f x ++ mjoin (f <$> l)) = Some (g x ++ mjoin (g <$> l))).
  rewrite read_lines_app, Hf by left. rewrite IH by (intros y Hy; apply Hf; by right). done.
Qed.

Lemma read_header h : read_lines (header_ls h) = Some [].
Proof. done. Qed.

(** *** Labels *)

Definition escaped_byte (b : byte) : str :=
  if is_byte BACKSLASH b then [BACKSLASH; BACKSLASH] else if is_byte x22 b then [BACKSLASH; x22]
  else if is_byte NL b then [BACKSLASH; "n"%byte] else [b].

Lemma replace_byte_app c r s u : replace_byte c r (s ++ u) = replace_byte c r s ++ replace_byte c r u.
Proof. unfold replace_byte. by rewrite fmap_app, join_app. Qed.

Lemma escape_cons b v : prometheus_escape_label_value (b :: v) = escaped_byte b ++ prometheus_escape_label_value v.
Proof.
  unfold prometheus_escape_label_value. change (b :: v) with ([b] ++ v). rewrite !replace_byte_app. f_equal.
  by destruct b.
Qed.

Lemma read_label_escaped v rest : read_label (prometheus_escape_label_value v ++ x22 :: rest) = Some (v, rest).
Proof.
  induction v as [|b v IH]; [done|]. rewrite escape_cons, <- app_assoc. unfold escaped_byte.
  destruct (is_byte BACKSLASH b) eqn:Eb; [|destruct (is_byte x22 b) eqn:Eq; [|destruct (is_byte NL b) eqn:En]].
  - apply is_byte_true in Eb as ->. cbn. by rewrite IH.
  - apply is_byte_true in Eq as ->. cbn. by rewrite IH.
  - apply is_byte_true in En as ->. cbn. by rewrite IH.
  - cbn [app read_label]. by rewrite Eq, Eb, IH.
Qed.

Lemma escape_no_nl v : NL ∉ prometheus_escape_label_value v.
Proof.
  induction v as [|b v IH]; [apply not_elem_of_nil|]. rewrite escape_cons, not_elem_of_app. split; [|done].
  by apply (bool_decide_unpack _); destruct b.
Qed.

(** *** Samples *)

Definition ok_name (n : str) : bool :=
  forallb (fun b => negb (name_ends b) && negb (is_byte NL b)) n && negb (starts_with "#" n) && negb (is_empty n).

Lemma read_name_ok n b rest : ok_name n = true -> name_ends b = true -> read_name (n ++ b :: rest) = (n, b :: rest).
Proof.
  unfold ok_name. rewrite !andb_true_iff. intros [[Hn _] _] Hb. induction n as [|c n IH]; cbn [app read_name]; [by rewrite Hb|].
  cbn in Hn. rewrite !andb_true_iff, negb_true_iff in Hn. destruct Hn as [[Hc _] Hn]. by rewrite Hc, IH.
Qed.

Definition ok_sample (s : Sample) : Prop := ok_name (sp_name s) = true /\ NL ∉ sp_value s.

Lemma read_sample_line s : ok_sample s -> read_sample (sample_line s) = Some s.
Proof.
  destruct s as [name [host|] value]; intros [Hn _]; cbn in Hn; unfold sample_line, read_sample; cbn [sp_host sp_name sp_value].
  - set (tail := prometheus_escape_label_value host ++ x22 :: (bs "} " ++ value)).
    assert (El : host_label name host ++ value = name ++ "{"%byte :: (bs "host=" ++ [x22]) ++ tail)
      by (unfold host_label, tail; by rewrite <- !app_assoc).
    rewrite El, read_name_ok by done.
    change ("{"%byte :: (bs "host=" ++ [x22]) ++ tail) with ((bs "{host=" ++ [x22]) ++ tail).
    rewrite strip_prefix_app. unfold tail. rewrite read_label_escaped. cbn [mbind option_bind]. by rewrite strip_prefix_app.
  - change (name ++ bs " " ++ value) with (name ++ " "%byte :: value). rewrite read_name_ok by done.
    change (strip_prefix (bs "{host=" ++ [x22]) (" "%byte :: value)) with (@None str). cbv iota.
    change (" "%byte :: value) with (bs " " ++ value). by rewrite strip_prefix_app.
Qed.

Lemma sample_not_comment s : ok_name (sp_name s) = true -> starts_with "#" (sample_line s) = false.
Proof.
  unfold ok_name. rewrite !andb_true_iff, !negb_true_iff. intros [[_ Hc] Hn]. destruct s as [[|b name] host value]; [done|].
  unfold sample_line, host_label, starts_with in *. cbn [sp_name sp_host sp_value] in *. cbn in Hc. destruct host; cbn; by destruct (decide _).
Qed.

Lemma read_samples l : Forall ok_sample l -> read_lines (sample_line <$> l) = Some l.
Proof.
  induction 1 as [|s l Hs _ IH]; [done|]. cbn [fmap list_fmap read_lines]. rewrite sample_not_comment by apply Hs.
  rewrite read_sample_line by done. cbn [mbind option_bind]. change (list_fmap _ _ sample_line l) with (sample_line <$> l). by rewrite IH.
Qed.

(** *** The whole text *)

Definition good_line (l : str) : Prop := l <> [] /\ NL ∉ l.

Lemma good_sample s : ok_sample s -> good_line (sample_line s).
Proof.
  destruct s as [name host value]. intros [Hn Hv]. unfold ok_name in Hn. cbn in Hn, Hv. rewrite !andb_true_iff in Hn. destruct Hn as [[Hn _] He].
  assert (Hn' : NL ∉ name).
  { intros Hin. rewrite List.forallb_forall in Hn. specialize (Hn NL (proj1 (list_elem_of_In _ _) Hin)). done. }
  destruct name as [|b name]; [done|]. split; [by destruct host|].
  unfold sample_line. cbn [sp_host sp_name sp_value]. destruct host as [h|].
  - unfold host_label. rewrite !not_elem_of_app. split_and!; try done; try apply escape_no_nl; by apply (bool_decide_unpack _); vm_compute.
  - rewrite !not_elem_of_app. split_and!; try done; by apply (bool_decide_unpack _); vm_compute.
Qed.

Lemma good_header h : NL ∉ mh_name h -> NL ∉ mh_help h -> NL ∉ mh_type h -> Forall good_line (header_ls h).
Proof.
  intros Hn Hh Ht. assert (Hsp : NL ∉ bs " ") by (by apply (bool_decide_unpack _); vm_compute).
  repeat constructor; try done; rewrite !not_elem_of_app; split_and!; try done; by apply (bool_decide_unpack _); vm_compute.
Qed.

Lemma counter_name_ok c : ok_name (mh_name (counter_header c)) = true.
Proof. destruct c; vm_compute; reflexivity. Qed.

Lemma counter_header_good c : Forall good_line (header_ls (counter_header c)).
Proof. apply good_header; destruct c; by apply (bool_decide_unpack _); vm_compute. Qed.

Lemma counter_sample_ok m c : ok_sample (counter_sample m c).
Proof. split; [apply counter_name_ok|by apply show_N_no]. Qed.

Lemma read_counter m c : read_lines (counter_ls m c) = Some [counter_sample m c].
Proof.
  unfold counter_ls. rewrite read_lines_app, read_header. cbn [mbind option_bind].
  change [sample_line (counter_sample m c)] with (sample_line <$> [counter_sample m c]).
  by rewrite read_samples by (repeat constructor; apply counter_sample_ok).
Qed.

Hypothesis quotient_line : forall a b, NL ∉ show_quotient a b.

Lemma float_ok r : NL ∉ prometheus_float show_quotient r.
Proof. destruct r; [apply quotient_line|by apply (bool_decide_unpack _); vm_compute..]. Qed.

Lemma site_samples_ok r : Forall ok_sample (site_samples r).
Proof.
  destruct r as [host [h2 h3]]. repeat constructor; try (vm_compute; reflexivity); cbn [sp_value]; [by apply show_N_no..|apply float_ok].
Qed.

Lemma good_join {A} (f : A -> list str) l : (forall x, Forall good_line (f x)) -> Forall good_line (mjoin (f <$> l)).
Proof. intros Hf. induction l as [|x l IH]; [constructor|]. change (Forall good_line (f x ++ mjoin (f <$> l))). by apply Forall_app. Qed.

Lemma join_singletons {A B} (f : A -> B) l : mjoin ((fun x => [f x]) <$> l) = f <$> l.
Proof. induction l as [|x l IH]; [done|]. cbn. f_equal. apply IH. Qed.

Lemma text_ls_good m : Forall good_line (text_ls m).
Proof.
  assert (Hc : forall c, Forall good_line (counter_ls m c)).
  { intros c. apply Forall_app. split; [apply counter_header_good|]. repeat constructor; apply good_sample, counter_sample_ok. }
  assert (Hh : Forall (fun h => Forall good_line (header_ls h)) [ratio_header; site_h2_header; site_h3_header; site_ratio_header]).
  { repeat constructor; by apply (bool_decide_unpack _); vm_compute. }
  rewrite !Forall_cons in Hh. destruct Hh as (H1 & H2 & H3 & H4 & _).
  unfold text_ls. rewrite !Forall_app. split_and!; try done; try (by apply good_join).
  - constructor; [|constructor]. apply good_sample. split; [vm_compute; reflexivity|apply float_ok].
  - apply good_join. intros r. apply Forall_fmap. eapply Forall_impl; [apply site_samples_ok|]. apply good_sample.
Qed.

Lemma read_text_ls m : read_lines (text_ls m) = Some (expected_samples m).
Proof.
  unfold text_ls, expected_samples. rewrite !read_lines_app, !read_header.
  rewrite (read_lines_join _ (fun c => [counter_sample m c])) by (intros; apply read_counter).
  rewrite (read_lines_join _ site_samples) by (intros; apply read_samples, site_samples_ok).
  rewrite (read_lines_join _ (fun c => [counter_sample m c])) by (intros; apply read_counter).
  rewrite !join_singletons. change ([sample_line ?s]) with (sample_line <$> [s]).
  rewrite read_samples; [done|]. constructor; [|constructor]. split; [vm_compute; reflexivity|apply float_ok].
Qed.

Lemma good_lines_kept ls : Forall good_line ls -> filter (fun l => l <> []) (ls ++ [[]]) = ls.
Proof.
  induction 1 as [|l ls [Hl _] _ IH]; [done|]. cbn [app]. by rewrite filter_cons_True, IH.
Qed.

(** C37: A scraper reads back exactly the counters.  The text of [get_metrics_text],
    read as the exposition format is defined, gives every counter with its value, and
    for every host that was requested, whatever bytes its name has, its three samples
    under that name; there is nothing else in it. *)
Theorem metrics_text_roundtrip m : scrape (get_metrics_text show_quotient m) = Some (expected_samples m).
Proof.
  unfold scrape. rewrite metrics_text_lines, split_unlines by (eapply Forall_impl; [apply text_ls_good|]; by intros l []).
  rewrite good_lines_kept by apply text_ls_good. apply read_text_ls.
Qed.

End samples.

(** A host name that tries to add a line of its own. *)
Definition hostile_host : str := bs "x" ++ [x22] ++ bs "} 1" ++ [NL] ++ bs "pertisk_waf_blocked_total 0" ++ [BACKSLASH].
Definition hostile_metrics : ProxyMetrics := mkProxyMetrics (fun _ => 7) {[ hostile_host := (3, 2) ]}.
Definition toy_quotient (a b : N) : str := bs "0.5".

Lemma metrics_text_roundtrip_witness :
  scrape (get_metrics_text toy_quotient hostile_metrics) = Some (expected_samples toy_quotient hostile_metrics) /\
  (filter (fun s => sp_name s = bs "pertisk_waf_blocked_total") (expected_samples toy_quotient hostile_metrics))
    = [mkSample "pertisk_waf_blocked_total" None "7"].
Proof.
  split; [|vm_compute; reflexivity]. apply (metrics_text_roundtrip toy_quotient). intros a b. by apply (bool_decide_unpack _); vm_compute.
Defined.

(** ** The disk of the data *)

(** What the loop keeps: a disk over the path with the longest mount point so far. *)
Definition deepest (path : str) (seen : list Disk) (best : option (Disk * nat)) : Prop :=
  match best with
  | None => Forall (fun d => path_starts_with path (dk_mount d) = false) seen
  | Some (d, n) =>
    d ∈ seen /\ n = length (dk_mount d) /\ path_starts_with path (dk_mount d) = true /\
    forall d', d' ∈ seen -> path_starts_with path (dk_mount d') = true -> (length (dk_mount d') <= n)%nat
  end.

Lemma deepest_step path seen best d : deepest path seen best ->
  deepest path (seen ++ [d])
    (if path_starts_with path (dk_mount d) && from_option (fun b => (b.2 <? length (dk_mount d))%nat) true best
     then Some (d, length (dk_mount d)) else best).
Proof.
  destruct (path_starts_with path (dk_mount d)) eqn:Ep; cbn [andb].
  - destruct best as [[d0 n]|]; cbn [from_option snd deepest].
    + intros (Hin & -> & Hc & Hmax). destruct (Nat.ltb_spec (length (dk_mount d0)) (length (dk_mount d))) as [Hlt|Hge].
      * split_and!; [set_solver|done|done|]. intros d' Hd' Hc'. apply elem_of_app in Hd' as [Hd'|Hd'%list_elem_of_singleton]; [|by subst].
        specialize (Hmax _ Hd' Hc'). lia.
      * split_and!; [set_solver|done|done|]. intros d' Hd' Hc'. apply elem_of_app in Hd' as [Hd'|Hd'%list_elem_of_singleton]; [by apply Hmax|].
        subst. lia.
    + intros Hno. split_and!; [set_solver|done|done|]. intros d' Hd' Hc'. apply elem_of_app in Hd' as [Hd'|Hd'%list_elem_of_singleton]; [|by subst].
      rewrite Forall_forall in Hno. by rewrite Hno in Hc'.
  - destruct best as [[d0 n]|]; cbn.
    + intros (Hin & -> & Hc & Hmax). split_and!; [set_solver|done|done|].
      intros d' Hd' Hc'. apply elem_of_app in Hd' as [Hd'|Hd'%list_elem_of_singleton]; [by apply Hmax|congruence].
    + intros Hno. apply Forall_app. by split; [|constructor].
Qed.

Lemma best_disk_deepest path disks seen best : deepest path seen best -> deepest path (seen ++ disks) (best_disk path best disks).
Proof.
  revert seen best. induction disks as [|d disks IH]; intros seen best Hb; cbn [best_disk]; [by rewrite app_nil_r|].
  replace (seen ++ d :: disks) with ((seen ++ [d]) ++ disks) by (by rewrite <- app_assoc). apply IH, deepest_step, Hb.
Qed.

(** The usage shown is that of a disk over the data with the longest mount point; there
    is none exactly when no disk is over the data. *)
Theorem disk_usage_deepest {F} (m : Machine F) data_path : mc_supported m = true ->
  let path := default data_path (mc_canonical m data_path) in
  match disk_usage_for_path m data_path with
  | (Some total, Some used, Some mount) =>
    exists d, d ∈ mc_disks m /\ path_starts_with path (dk_mount d) = true /\
      (forall d', d' ∈ mc_disks m -> path_starts_with path (dk_mount d') = true -> (length (dk_mount d') <= length (dk_mount d))%nat) /\
      total = dk_total d /\ used = dk_total d - dk_available d /\ used <= total /\ mount = from_utf8_lossy (dk_mount d)
  | (None, None, None) => Forall (fun d => path_starts_with path (dk_mount d) = false) (mc_disks m)
  | _ => False
  end.
Proof.
  intros Hs path. unfold disk_usage_for_path. rewrite Hs. cbn [negb]. fold path.
  pose proof (best_disk_deepest path (mc_disks m) [] None (Forall_nil_2 _)) as Hd. cbn [app] in Hd.
  destruct (best_disk path None (mc_disks m)) as [[d n]|]; [|exact Hd]. destruct Hd as (Hin & -> & Hc & Hmax).
  exists d. split_and!; try done. lia.
Qed.
