(* ===== verification/Leader.v ===== *)
(** * Leader election over a Kubernetes Lease (ingress/leader_election.rs)

    Replicas compete for one Lease object.  An attempt reads its clock, gets the
    lease, and writes it back under the version it read; the API server refuses
    a write against a stale version (409).  The attempts of several replicas
    interleave: the steps below split an attempt at its two API calls. *)

From S2P Require Import Prelude RustStr.

(** Times are nanoseconds, signed; [i32] values are kept in [Z]. *)
Definition DEFAULT_LEASE_DURATION_SECONDS : Z := 15.
Definition DEFAULT_RENEW_INTERVAL_SECONDS : N := 5.

Record LeaderElectionConfig := mkLeaderElectionConfig {
  lec_namespace : str;
  lec_lease_name : str;
  lec_holder_id : str;
  lec_duration_seconds : Z;
  lec_renew_interval_seconds : N;
}.

(** The fields of [LeaseSpec] the code reads or writes. *)
Record LeaseSpec := mkLeaseSpec {
  holder_identity : option str;
  lease_duration_seconds : option Z;
  acquire_time : option Z;
  renew_time : option Z;
}.

(** ** Settings from the environment *)

Definition nonblank_var (env : str -> option str) (key : str) : option str :=
  opt_filter (fun v => negb (is_empty (trim v))) (env key).

Definition env_flag (env : str -> option str) (key : str) (dflt : bool) : bool :=
  match env key with
  | Some v => bool_decide (v ∈ [bs "1"; bs "true"; bs "TRUE"; bs "yes"; bs "YES"])
  | None => dflt
  end.

(** [file] is the content of the service account's namespace file. *)
Definition resolve_namespace (env : str -> option str) (file : option str) : str :=
  match nonblank_var env "PERTISK_LEADER_ELECTION_NAMESPACE" with
  | Some ns => ns
  | None =>
    match nonblank_var env "POD_NAMESPACE" with
    | Some ns => ns
    | None =>
      match opt_filter (fun v => negb (is_empty v)) (trim <$> file) with
      | Some ns => ns
      | None => bs "default"
      end
    end
  end.

Definition resolve_holder_id (env : str -> option str) (uuid : str) : str :=
  match nonblank_var env "PERTISK_POD_NAME" with
  | Some v => v
  | None =>
    match nonblank_var env "POD_NAME" with
    | Some v => v
    | None =>
      match nonblank_var env "HOSTNAME" with
      | Some v => v
      | None => bs "pertisk-" ++ uuid
      end
    end
  end.

Definition resolve_lease_name (env : str -> option str) (default_name : str) : str :=
  default default_name (nonblank_var env "PERTISK_LEADER_ELECTION_NAME").

(** [str::parse::<i32>]: an optional sign and digits within the range. *)
Definition parse_i32 (s : str) : option Z :=
  match s with
  | [] => None
  | c :: t =>
    if is_byte "-" c then
      match t with
      | [] => None
      | d :: _ =>
        if is_ascii_digit d then n ← parse_uint 2147483648 t; Some (- Z.of_N n)%Z else None
      end
    else n ← parse_uint 2147483647 s; Some (Z.of_N n)
  end.

Definition resolve_lease_duration_seconds (env : str -> option str) : Z :=
  default DEFAULT_LEASE_DURATION_SECONDS
    (v ← env "PERTISK_LEADER_ELECTION_LEASE_DURATION_SECONDS";
     opt_filter (fun n => (0 <? n)%Z) (parse_i32 v)).

Definition resolve_renew_interval_seconds (env : str -> option str) : N :=
  default DEFAULT_RENEW_INTERVAL_SECONDS
    (v ← env "PERTISK_LEADER_ELECTION_RENEW_INTERVAL_SECONDS"; opt_filter (fun n => 0 <? n) (parse_u64 v)).

(** ** One attempt *)

(** [i32 as u64], and seconds in nanoseconds. *)
Definition i32_as_u64 (z : Z) : Z := (z mod 2 ^ 64)%Z.
Definition nanos (s : Z) : Z := (s * 1000000000)%Z.

Section election.
(** The range of the clock type: [checked_add] and [checked_sub] fail outside it. *)
Variables ts_min ts_max : Z.
(** What the API keeps of a time it is sent (its wire format has microseconds). *)
Variable store_time : Z -> Z.

Definition checked (t : Z) : option Z := if ((ts_min <=? t) && (t <=? ts_max))%Z then Some t else None.

Definition is_expired (renew : option Z) (duration now : Z) : bool :=
  let renew := match renew with
               | Some t => t
               | None => default now (checked (now - nanos (i32_as_u64 (i32_as_u64 duration * 2)))%Z)
               end in
  let expiry := default now (checked (renew + nanos (i32_as_u64 duration))%Z) in
  (expiry <? now)%Z.

Definition new_lease (c : LeaderElectionConfig) (now : Z) (acquired : bool) : LeaseSpec :=
  mkLeaseSpec (Some (lec_holder_id c)) (Some (lec_duration_seconds c)) (if acquired then Some now else None) (Some now).

Definition current_lease_state (spec : LeaseSpec) : option str * option Z * Z :=
  (holder_identity spec, renew_time spec, default DEFAULT_LEASE_DURATION_SECONDS (lease_duration_seconds spec)).

(** What [try_acquire_or_renew] does after reading the lease. *)
Inductive Attempt : Type :=
| NotLeader
| Create (spec : LeaseSpec)
| Replace (version : nat) (spec : LeaseSpec).

Definition attempt (c : LeaderElectionConfig) (now : Z) (lease : option (nat * LeaseSpec)) : Attempt :=
  match lease with
  | None => Create (new_lease c now true)
  | Some (version, current) =>
    let '(holder, renew, duration) := current_lease_state current in
    let expired := is_expired renew duration now in
    let is_owner := bool_decide (holder = Some (lec_holder_id c)) in
    if negb expired && negb is_owner then NotLeader
    else Replace version
           (mkLeaseSpec (Some (lec_holder_id c)) (Some (lec_duration_seconds c))
              (if is_owner then renew else Some now) (Some now))
  end.

(** ** The API server *)

Definition stored (s : LeaseSpec) : LeaseSpec :=
  mkLeaseSpec (holder_identity s) (lease_duration_seconds s) (store_time <$> acquire_time s) (store_time <$> renew_time s).

(** A write is applied, or refused with 409; every applied write gets a new version. *)
Definition api_write (a : Attempt) (lease : option (nat * LeaseSpec)) : option (nat * LeaseSpec) :=
  match a, lease with
  | Create s, None => Some (1%nat, stored s)
  | Replace v s, Some (v', _) => if bool_decide (v = v') then Some (S v', stored s) else None
  | _, _ => None
  end.

(** [try_acquire_or_renew] without interference: the result and the lease. *)
Definition try_acquire_or_renew (c : LeaderElectionConfig) (now : Z) (lease : option (nat * LeaseSpec))
    : bool * option (nat * LeaseSpec) :=
  match api_write (attempt c now lease) lease with
  | Some l => (true, Some l)
  | None => (false, lease)
  end.

(** ** Interleaved replicas *)

(** A write that was applied: who wrote it, its clock reading, what was stored. *)
Record Write := mkWrite { w_holder : str; w_now : Z; w_spec : LeaseSpec }.

(** A replica between its two calls, with the clock reading and the lease it got. *)
Record Replica := mkReplica {
  r_config : LeaderElectionConfig;
  r_pending : option (Z * option (nat * LeaseSpec));
  r_leader : bool;
}.

Record Cluster := mkCluster {
  cl_lease : option (nat * LeaseSpec);
  cl_replicas : list Replica;
  cl_writes : list Write;
}.

Definition settle (r : Replica) (leader : bool) : Replica := mkReplica (r_config r) None leader.

(** An attempt may fail at either call, and an applied write may be reported as
    failed ([answered = false]) when its answer is lost. *)
Inductive step : Cluster -> Cluster -> Prop :=
| step_get cl i r now :
    cl_replicas cl !! i = Some r -> r_pending r = None ->
    step cl (mkCluster (cl_lease cl)
               (<[i := mkReplica (r_config r) (Some (now, cl_lease cl)) (r_leader r)]> (cl_replicas cl)) (cl_writes cl))
| step_get_fails cl i r :
    cl_replicas cl !! i = Some r -> r_pending r = None ->
    step cl (mkCluster (cl_lease cl) (<[i := settle r false]> (cl_replicas cl)) (cl_writes cl))
| step_refused cl i r now seen :
    cl_replicas cl !! i = Some r -> r_pending r = Some (now, seen) ->
    api_write (attempt (r_config r) now seen) (cl_lease cl) = None ->
    step cl (mkCluster (cl_lease cl) (<[i := settle r false]> (cl_replicas cl)) (cl_writes cl))
| step_lost cl i r now seen :
    cl_replicas cl !! i = Some r -> r_pending r = Some (now, seen) ->
    step cl (mkCluster (cl_lease cl) (<[i := settle r false]> (cl_replicas cl)) (cl_writes cl))
| step_applied cl i r now seen lease answered :
    cl_replicas cl !! i = Some r -> r_pending r = Some (now, seen) ->
    api_write (attempt (r_config r) now seen) (cl_lease cl) = Some lease ->
    step cl (mkCluster (Some lease) (<[i := settle r answered]> (cl_replicas cl))
               (cl_writes cl ++ [mkWrite (lec_holder_id (r_config r)) now lease.2])).

Inductive reachable (configs : list LeaderElectionConfig) : Cluster -> Prop :=
| reach_start : reachable configs (mkCluster None ((fun c => mkReplica c None false) <$> configs) [])
| reach_step cl cl' : reachable configs cl -> step cl cl' -> reachable configs cl'.

(** ** Lemmas *)

(** Write [w'] may follow write [w]. *)
Definition follows (w w' : Write) : Prop :=
  w_holder w' = w_holder w \/
  exists renew duration,
    renew_time (w_spec w) = Some renew /\ lease_duration_seconds (w_spec w) = Some duration /\
    (renew + nanos (i32_as_u64 duration) < w_now w')%Z.

(** What a version number stands for. *)
Definition recorded (writes : list Write) (l : option (nat * LeaseSpec)) : Prop :=
  match l with
  | None => True
  | Some (v, spec) => exists w, writes !! pred v = Some w /\ (0 < v)%nat /\ w_spec w = spec
  end.

Record cluster_ok (cl : Cluster) : Prop := {
  ok_lease : match cl_lease cl with
             | None => cl_writes cl = []
             | Some (v, spec) => v = length (cl_writes cl) /\ w_spec <$> last (cl_writes cl) = Some spec
             end;
  ok_holder : forall w, w ∈ cl_writes cl ->
    holder_identity (w_spec w) = Some (w_holder w) /\ is_Some (renew_time (w_spec w)) /\
    is_Some (lease_duration_seconds (w_spec w));
  ok_seen : forall r now seen, r ∈ cl_replicas cl -> r_pending r = Some (now, seen) -> recorded (cl_writes cl) seen;
  ok_follows : forall i w w', cl_writes cl !! i = Some w -> cl_writes cl !! S i = Some w' -> follows w w';
}.

Lemma is_expired_after renew duration now :
  is_expired (Some renew) duration now = true -> (renew + nanos (i32_as_u64 duration) < now)%Z.
Proof.
  unfold is_expired, checked. cbn zeta. destruct (_ && _)%Z; cbn; rewrite Z.ltb_lt; [done|lia].
Qed.

Lemma recorded_app writes w l : recorded writes l -> recorded (writes ++ [w]) l.
Proof.
  destruct l as [[v spec]|]; [|done]. intros (w0 & Hw & Hv & Hs). exists w0. split; [|done].
  by apply lookup_app_l_Some.
Qed.

(** A successful attempt follows the write it replaces. *)
Lemma attempt_applied c now seen lease v spec w :
  api_write (attempt c now seen) lease = Some (v, spec) ->
  match lease with
  | None => v = 1%nat
  | Some (v0, spec0) =>
    v = S v0 /\ (exists seen0, seen = Some (v0, seen0)) /\
    forall w0, seen = Some (v0, w_spec w0) -> holder_identity (w_spec w0) = Some (w_holder w0) ->
      is_Some (renew_time (w_spec w0)) -> is_Some (lease_duration_seconds (w_spec w0)) ->
      w_holder w = lec_holder_id c -> w_now w = now -> follows w0 w
  end /\
  holder_identity spec = Some (lec_holder_id c) /\ is_Some (renew_time spec) /\ is_Some (lease_duration_seconds spec).
Proof.
  unfold attempt. destruct seen as [[v1 spec1]|].
  - cbn [current_lease_state]. destruct (negb _ && negb _) eqn:Eb; [by destruct lease as [[]|]|].
    destruct lease as [[v0 spec0]|]; cbn [api_write]; [|done].
    destruct (bool_decide (v1 = v0)) eqn:Ev; [|done]. apply bool_decide_eq_true in Ev as ->. intros [= <- <-]. split; [|by split_and!; eexists]. split_and!; [done|by eexists|].
    intros w0 [= ->] Hh [t Ht] [d Hd] Hw Hn. apply andb_false_iff in Eb as [Eb%negb_false_iff|Eb%negb_false_iff].
    + right. exists t, d. rewrite Ht, Hd in Eb. cbn in Eb. rewrite Hn. split_and!; [done|done|].
      by apply is_expired_after.
    + left. apply bool_decide_eq_true in Eb. congruence.
  - destruct lease as [[v0 spec0]|]; cbn [api_write]; [done|]. intros [= <- <-]. split; [done|].
    by split_and!; eexists.
Qed.

Lemma step_ok cl cl' : cluster_ok cl -> step cl cl' -> cluster_ok cl'.
Proof.
  intros [Hl Hh Hs Hf] Hst.
  assert (Hrep : forall i r r', cl_replicas cl !! i = Some r ->
    (forall now seen, r_pending r' = Some (now, seen) -> recorded (cl_writes cl) seen) ->
    forall q now seen, q ∈ <[i := r']> (cl_replicas cl) -> r_pending q = Some (now, seen) -> recorded (cl_writes cl) seen).
  { intros i r r' Hi Hr q now seen Hq Hp. apply list_elem_of_lookup_1 in Hq as [j Hj].
    apply list_lookup_insert_Some in Hj as [(_ & <- & _)|[_ Hj]]; [by eapply Hr|].
    eapply Hs; [|done]. by eapply list_elem_of_lookup_2. }
  destruct Hst as [cl i r now Hi Hp|cl i r Hi Hp|cl i r now seen Hi Hp Ha|cl i r now seen Hi Hp|
                   cl i r now seen [v spec] answered Hi Hp Ha].
  - split; cbn; [done|done| |done]. eapply Hrep; [done|]. cbn. intros ? ? [= <- <-].
    destruct (cl_lease cl) as [[v spec]|]; [|done]. destruct Hl as [-> Hlast].
    destruct (last (cl_writes cl)) as [w|] eqn:Ew; [|done]. simplify_eq/=. exists w. rewrite last_lookup in Ew.
    split; [done|]. split; [|done]. apply lookup_lt_Some in Ew. lia.
  - split; cbn; [done|done| |done]. by eapply Hrep.
  - split; cbn; [done|done| |done]. by eapply Hrep.
  - split; cbn; [done|done| |done]. by eapply Hrep.
  - set (w := mkWrite (lec_holder_id (r_config r)) now spec).
    pose proof (attempt_applied _ _ _ _ _ _ w Ha) as (Hv & Hw1 & Hw2 & Hw3).
    assert (Hseen : recorded (cl_writes cl) seen).
    { eapply Hs; [by eapply list_elem_of_lookup_2|done]. }
    split; cbn.
    + rewrite last_snoc. split; [|done]. rewrite length_app. cbn.
      destruct (cl_lease cl) as [[v0 spec0]|]; [|by rewrite Hl, Hv].
      destruct Hl as [-> _]. destruct Hv as [-> _]. lia.
    + intros x [Hx| ->%list_elem_of_singleton]%elem_of_app; [by apply Hh|]. by split_and!.
    + intros q now' seen' Hq Hp'. apply recorded_app. eapply Hrep; [done| |done|done]. done.
    + intros j a b Ha' Hb'. destruct (decide (S j < length (cl_writes cl))%nat) as [Hlt|Hge].
      * rewrite lookup_app_l in Ha', Hb' by lia. by eapply Hf.
      * assert (S j = length (cl_writes cl)) as Hj.
        { apply lookup_lt_Some in Hb'. rewrite length_app in Hb'. cbn in Hb'. lia. }
        rewrite lookup_app_r, Hj, Nat.sub_diag in Hb' by lia. cbn in Hb'. simplify_eq.
        rewrite lookup_app_l in Ha' by lia.
        destruct (cl_lease cl) as [[v0 spec0]|].
        -- destruct Hl as [-> Hlast]. destruct Hv as (-> & [seen0 ->] & Hfol).
           destruct Hseen as (w0 & Hw0 & _ & <-). rewrite <- Hj in Hw0. cbn in Hw0.
           assert (w0 = a) as -> by congruence.
           destruct (Hh a) as (Hh1 & Hh2 & Hh3); [by eapply list_elem_of_lookup_2|]. by apply Hfol.
        -- rewrite Hl in Hj. done.
Qed.

Lemma reachable_ok configs cl : reachable configs cl -> cluster_ok cl.
Proof.
  induction 1 as [|cl cl' _ IH Hst]; [|by eapply step_ok].
  split; cbn; [done|by intros w Hw%not_elem_of_nil| |done].
  intros r now seen Hr. apply list_elem_of_fmap in Hr as (c & -> & _). done.
Qed.

(** ** Properties *)

(** C33: Leadership changes hands only after expiry.  In every interleaving of the
    replicas' attempts, with arbitrary clock readings, lost requests and lost
    answers, consecutive writes of the lease are by the same holder, or the later
    writer's clock read more than the stored renewal time plus the stored
    duration of the lease it replaced; and the lease in force is always the last
    write. *)
Theorem takeover_after_expiry configs cl :
  reachable configs cl ->
  (forall i w w', cl_writes cl !! i = Some w -> cl_writes cl !! S i = Some w' -> follows w w') /\
  (snd <$> cl_lease cl) = (w_spec <$> last (cl_writes cl)).
Proof.
  intros Hr. destruct (reachable_ok configs cl Hr) as [Hl _ _ Hf]. split; [done|].
  destruct (cl_lease cl) as [[v spec]|]; [|by rewrite Hl]. by destruct Hl as [_ ->].
Qed.

(** An undisturbed attempt succeeds exactly on a free, own or expired lease. *)
Lemma acquire_iff c now lease :
  (try_acquire_or_renew c now lease).1 = true <->
  match lease with
  | None => True
  | Some (_, spec) =>
    holder_identity spec = Some (lec_holder_id c) \/
    is_expired (renew_time spec) (default DEFAULT_LEASE_DURATION_SECONDS (lease_duration_seconds spec)) now = true
  end.
Proof.
  unfold try_acquire_or_renew, attempt. destruct lease as [[v spec]|]; [|done]. cbn [current_lease_state].
  destruct (is_expired _ _ _); case_bool_decide as Hb; cbn; rewrite ?bool_decide_true by done; cbn;
    split; try done; by try (left; done); try (right; done); intros [|].
Qed.

End election.

Definition replica_a : LeaderElectionConfig := mkLeaderElectionConfig "ns" "lease" "a" 15 5.
Definition replica_b : LeaderElectionConfig := mkLeaderElectionConfig "ns" "lease" "b" 15 5.
Definition day : Z := 86400000000000.

(** Replica a takes the free lease; b finds it expired 16 seconds later. *)
Definition two_terms : Cluster :=
  let w1 := mkWrite "a" 0 (new_lease replica_a 0 true) in
  let w2 := mkWrite "b" 16000000000 (mkLeaseSpec (Some (bs "b")) (Some 15%Z) (Some 16000000000%Z) (Some 16000000000%Z)) in
  mkCluster (Some (2%nat, w_spec w2)) [mkReplica replica_a None true; mkReplica replica_b None true] [w1; w2].

(** Extend a run by the step [st], given as a function of the current cluster. *)
Ltac extend R st :=
  match type of R with
  | reachable ?a ?b ?f ?cs ?c =>
    let S := fresh "S" in
    pose proof (st c) as S; cbn in S; specialize (S eq_refl eq_refl);
    try specialize (S eq_refl); apply (reach_step a b f cs c _ R) in S; clear R; rename S into R; cbn in R
  end.

Lemma two_terms_reachable : reachable (- day) day (fun t => t) [replica_a; replica_b] two_terms.
Proof.
  pose proof (reach_start (- day) day (fun t => t) [replica_a; replica_b]) as R.
  extend R (fun c => step_get (- day) day (fun t => t) c 0 (mkReplica replica_a None false) 0).
  extend R (fun c => step_applied (- day) day (fun t => t) c 0 (mkReplica replica_a (Some (0%Z, None)) false) 0 None
                       (1%nat, new_lease replica_a 0 true) true).
  extend R (fun c => step_get (- day) day (fun t => t) c 1 (mkReplica replica_b None false) 16000000000).
  extend R (fun c => step_applied (- day) day (fun t => t) c 1
       (mkReplica replica_b (Some (16000000000%Z, Some (1%nat, new_lease replica_a 0 true))) false)
       16000000000 (Some (1%nat, new_lease replica_a 0 true))
       (2%nat, mkLeaseSpec (Some (bs "b")) (Some 15%Z) (Some 16000000000%Z) (Some 16000000000%Z)) true).
  exact R.
Qed.

Lemma takeover_after_expiry_witness :
  follows (mkWrite "a" 0 (new_lease replica_a 0 true))
    (mkWrite "b" 16000000000
       (mkLeaseSpec (Some (bs "b")) (Some 15%Z) (Some 16000000000%Z) (Some 16000000000%Z))).
Proof.
  apply (proj1 (takeover_after_expiry (- day) day (fun t => t) [replica_a; replica_b] two_terms two_terms_reachable) 0%nat);
    reflexivity.
Defined.
