(* ===== verification/IngressStart.v ===== *)
(** * Starting in ingress mode (ingress/mod.rs)

    From the environment, an optional database of named policies and the cluster's first
    answers to router, certificates, management interface and listeners; then the passes
    that follow, and the wait for a first certificate before HTTP/3 is started. *)

From S2P Require Import Leader.
From S2P Require Import Prelude RustStr Ip GeoIp Waf Bot Captcha Security Edge EdgeAuth ProxyConfig Router Forward Apply.
From S2P Require Import Http Telemetry CertStore H3 Controller Database Admin Settings Startup AutoSsl Readout.

Record IngressStarted := mkIngressStarted {
  ig_state : CtlState;
  ig_patches : Patches;
  ig_admin : AdminEnv;
  ig_management : SocketAddr;
  ig_leader : LeaderElectionState;
  ig_log_enabled : bool;
  ig_metrics : option BindAddr;
  ig_h3 : option str;
  ig_plan : ServerPlan;
}.

(** What the API server answers in one pass, with the two clocks of it. *)
Record PassInput := mkPassInput { pi_cluster : Controller.Cluster; pi_now : str; pi_instant : N }.

Section ingress.
Context `{Formats}.
Variable e : ProcEnv.
Variable cpus : N.
Variable macos h3_excluded : bool.
Variable to_lowercase : str -> str.
Variable url_parse : str -> option Url.
Variable iter_secrets : gmap (str * str) (list str) -> list ((str * str) * list str).
Variable iter_hosts : gmap str StoredCert -> list (str * StoredCert).
Variable tls_ok : TlsChoice -> bool.
Variable default_pool_size : N.
Variable with_prometheus : bool.
Variable io : CertIo.
Variable is_file : str -> bool.
Variable read_file : str -> option str.
(** The clock, a fresh identifier, the least level the log keeps, the directory for
    temporary files, the namespace file of the service account and the version. *)
Variable now : N.
Variable uuid : str.
Variable level : LogLevel.
Variable temp_dir : str.
Variable namespace_file : option str.
Variable version : str.

Definition certs_dir : str := default (path_push temp_dir "pertisk-proxy-certs") (var e "PERTISK_CERTS_DIR").

(** The database is optional: it is opened only when its path is set, and a failure is
    only logged.  [exists_]: the file is there. *)
Definition policies_db (exists_ : bool) (d : DbState) : bool * DbState :=
  if is_some (e !! bs "PERTISK_DB_PATH") then
    let '(r, d) := database_open now (if exists_ then Some (db_tables d) else None) d in (is_ok r, d)
  else (false, d).

Definition with_policies (stored c : Config) : Config :=
  mkConfig (http_addr c) (https_addr c) (http3_addr c) (ProxyConfig.management_addr c) (cfg_backends c) (cfg_sites c) (access_lists stored)
    (waf_policies stored) (cfg_tls c) (cfg_security_headers c) (proxy_log c) (acme_email c) (cfg_http3 c) (cfg_tls_grade c)
    (cfg_cache_size_mb c) (cfg_cache_ttl_secs c) (cfg_consul c) (cfg_jwt_secret c).

(** The first configuration: the default one with the stored named policies. *)
Definition first_config (has_db : bool) (d : DbState) : Config * DbState :=
  if has_db then
    let '(r, d) := get_proxy_config d in
    (match r with Ok (Some stored) => with_policies stored config_default | _ => config_default end, d)
  else (config_default, d).

Definition ingress_log_enabled : bool :=
  from_option (fun v =>
    let v := to_ascii_lowercase (trim v) in negb ((v =s "0") || (v =s "false") || (v =s "no") || (v =s "off")))
    false (var e "PERTISK_PROXY_LOG").

(** [leading]: the flag of the election when the state is built. *)
Definition leader_state (leading : bool) : LeaderElectionState :=
  let enabled := env_flag (var e) "PERTISK_LEADER_ELECTION_ENABLED" true in
  mkLeaderElectionState enabled (if enabled then Some leading else None) (resolve_namespace (var e) namespace_file)
    (resolve_lease_name (var e) "pertisk-ingress-leader").

Definition first_state (c : Config) : CtlState := mkCtlState router_new c store_new [] (log_new (N.to_nat 10000)).

(** One pass of the controller; its error is only logged. *)
Definition ingress_pass (p : PassInput) (st : CtlState) : CtlState * Patches :=
  let '(_, st, patches) :=
    reconcile (var e) (sa_port (management_addr_env (var e))) (load_controller_config (var e)) to_lowercase url_parse iter_secrets io
      (pi_cluster p) (pi_now p) (pi_instant p) level st in
  (st, patches).

Definition with_log (l : ProxyLog) (st : CtlState) : CtlState :=
  mkCtlState (ct_router st) (ct_config st) (ct_certs st) (last_ingress_tls_hosts st) l.
Definition with_certs (certs : CertStoreInner) (st : CtlState) : CtlState :=
  mkCtlState (ct_router st) (ct_config st) certs (last_ingress_tls_hosts st) (ct_log st).

(** The first pass and the entry of the log that follows it. *)
Definition first_pass (p : PassInput) (c : Config) : CtlState * Patches :=
  let '(st, patches) := ingress_pass p (first_state c) in
  (with_log (push_sync level (log_config_reload (pi_instant p) (bs "started pertisk-proxy-ingress " ++ version)) (ct_log st)) st, patches).

(** A refused pair is passed over. *)
Definition ingress_fallback (server : ServerConfig) (st : CertStoreInner) : CertStoreInner :=
  match config_tls_cert_path server, config_tls_key_path server with
  | Ok cert, Ok key => (set_global_fallback io cert key st).2
  | _, _ => st
  end.

(** [run] up to the listeners; [client]: the Kubernetes client can be set up. *)
Definition ingress_run (client leading exists_ : bool) (first : PassInput) (d : DbState) : result StartError IngressStarted * DbState :=
  match runtime_config_from_env e cpus ingress_runtime_env with
  | Err m => (Err (StartText m), d)
  | Ok runtime_cfg =>
    let server := ie_server (ingress_config_from_env e h3_excluded) in
    if negb client then (Err (StartText "kube client"), d)
    else
      let '(has_db, d) := policies_db exists_ d in
      let '(c, d) := first_config has_db d in
      let '(st, patches) := first_pass first c in
      let admin := build_ingress_state (var e) is_file read_file has_db certs_dir now uuid io level in
      let metrics := if metrics_enabled_from_env (var e) then Some (metrics_addr_from_env (var e)) else None in
      let st := with_certs (ingress_fallback server (ct_certs st)) st in
      (plan ← server_run e cpus macos io iter_hosts tls_ok default_pool_size with_prometheus server (ct_router st) (ct_certs st)
                false true runtime_cfg None;
       Ok (mkIngressStarted st patches admin (management_addr_env (var e)) (leader_state leading) ingress_log_enabled metrics
             (if enable_h3 server then Some (h3_udp_listen server) else None) plan), d)
  end.

(** The passes after the start, every 30 seconds and on every event of a watch. *)
Definition ingress_passes (ps : list PassInput) (st : CtlState) : CtlState := foldl (fun st p => (ingress_pass p st).1) st ps.

(** The task of HTTP/3 looks at the store every two seconds: how many times it has waited
    when it starts the listener, [None] while it waits. *)
Fixpoint h3_wait (polls : list CertStoreInner) : option nat :=
  match polls with
  | [] => None
  | st :: polls => if has_any_cert iter_hosts st then Some 0%nat else S <$> h3_wait polls
  end.

End ingress.
