(* ===== verification/IngressStartProps.v ===== *)
(** * What an ingress start comes to

    Theorems about [IngressStart]: it comes up whatever the cluster and the database
    answer, the stored policies stay in force over all passes, leadership decides
    nothing, and HTTP/3 waits for the first certificate. *)

From S2P Require Import Leader.
From S2P Require Import Prelude RustStr Ip GeoIp Waf Bot Captcha Security Edge EdgeAuth ProxyConfig Router Forward Apply.
From S2P Require Import Http Telemetry CertStore H3 Controller ControllerProps Database Admin AdminProps Settings Startup StartupProps AutoSsl Readout IngressStart.

(** ** Certificates of a pass *)

Section pass_certs.
Variable io : CertIo.

Lemma certs_ok_in_memory hosts cert key st : certs_ok io st -> certs_ok io (insert_pem_in_memory_for_hosts io hosts cert key st).2.
Proof.
  intros Hst. unfold insert_pem_in_memory_for_hosts. destruct (negb _); [done|]. destruct (negb _); [done|]. by apply certs_ok_insert.
Qed.

Lemma certs_ok_load_secret cl l x : certs_ok io (ld_certs l) -> certs_ok io (ld_certs (load_secret io cl l x)).
Proof.
  intros Hl. unfold load_secret. destruct (_ ≫= secret_pair) as [[cert key]|]; [|done].
  pose proof (certs_ok_in_memory (merge_hosts x.2 (cl_cert_hosts cl cert)) cert key _ Hl) as Hi.
  by destruct (insert_pem_in_memory_for_hosts _ _ _ _ _) as [[] certs].
Qed.

Lemma certs_ok_load cl xs l : certs_ok io (ld_certs l) -> certs_ok io (ld_certs (foldl (load_secret io cl) l xs)).
Proof. revert l. induction xs as [|x xs IH]; intros l Hl; [done|]. apply IH. by apply certs_ok_load_secret. Qed.

Lemma certs_ok_remove hosts st : certs_ok io st -> certs_ok io (remove_for_hosts hosts st).
Proof.
  intros [Hm Hd]. split; [|exact Hd]. cbn [remove_for_hosts by_host]. clear Hd. revert Hm. generalize (by_host st).
  induction hosts as [|h hosts IH]; intros m Hm; [done|]. apply IH. intros k c Hc. apply lookup_delete_Some in Hc as [_ Hc]. by apply (Hm k).
Qed.

Lemma certs_ok_retire previous new_hosts st : certs_ok io st -> certs_ok io (retire previous new_hosts st).1.
Proof.
  intros Hst. unfold retire. destruct (is_empty new_hosts); [done|]. cbn [fst]. destruct (is_empty _); [done|]. by apply certs_ok_remove.
Qed.

End pass_certs.

Section ingress_props.
Context `{Formats}.
Variable e : ProcEnv.
Variable cpus : N.
Variable macos h3_excluded : bool.
Variable to_lowercase : str -> str.
Variable url_parse : str -> option Url.
Variable iter_secrets : gmap (str * str) (list str) -> list ((str * str) * list str).
Variable iter_hosts : gmap str StoredCert -> list (str * StoredCert).
Variable tls_ok : TlsChoice -> bool.
Variable default_pool_size : N.
Variable with_prometheus : bool.
Variable io : CertIo.
Variable is_file : str -> bool.
Variable read_file : str -> option str.
Variable now : N.
Variable uuid : str.
Variable level : LogLevel.
Variable temp_dir : str.
Variable namespace_file : option str.
Variable version : str.

Abbreviation ingress_run :=
  (ingress_run e cpus macos h3_excluded to_lowercase url_parse iter_secrets iter_hosts tls_ok default_pool_size with_prometheus io is_file
     read_file now uuid level temp_dir namespace_file version).
Abbreviation ingress_pass := (ingress_pass e to_lowercase url_parse iter_secrets io level).
Abbreviation ingress_passes := (ingress_passes e to_lowercase url_parse iter_secrets io level).

(** ** One pass *)

(** The named policies of a configuration. *)
Definition policies (c : Config) : list AccessList * list NamedWafPolicy := (access_lists c, waf_policies c).

(** What every pass keeps: sound certificate files and the named policies. *)
Lemma pass_keeps p st : certs_ok io (ct_certs st) ->
  certs_ok io (ct_certs (ingress_pass p st).1) /\ policies (ct_config (ingress_pass p st).1) = policies (ct_config st).
Proof.
  intros Hst. unfold IngressStart.ingress_pass, reconcile. destruct (cl_ingresses (pi_cluster p)) as [ings|]; [|done].
  destruct (collect _ _ _ _ _ _) as [[[acc n] m] patches].
  set (l := foldl _ _ _). assert (Hl : certs_ok io (ld_certs l)) by (by apply certs_ok_load).
  pose proof (certs_ok_retire io (last_ingress_tls_hosts st) (ld_hosts l) _ Hl) as Hr.
  destruct (retire _ _ _) as [certs last]. destruct (apply_config _ _ _ _) as [[] router]; cbn [fst ct_certs ct_config]; by split.
Qed.

Lemma passes_keep ps st : certs_ok io (ct_certs st) ->
  certs_ok io (ct_certs (ingress_passes ps st)) /\ policies (ct_config (ingress_passes ps st)) = policies (ct_config st).
Proof.
  revert st. induction ps as [|p ps IH]; intros st Hst; [done|]. destruct (pass_keeps p st Hst) as [Hc Hp].
  destruct (IH _ Hc) as [Hc' Hp']. split; [exact Hc'|]. etransitivity; [exact Hp'|exact Hp].
Qed.

Lemma fallback_keeps server st : certs_ok io st -> certs_ok io (ingress_fallback io server st).
Proof.
  intros Hst. unfold ingress_fallback. destruct (config_tls_cert_path server) as [cert|]; [|done]. destruct (config_tls_key_path server) as [key|]; [|done].
  unfold set_global_fallback. destruct (pair_ok io cert key) eqn:Ep; [|done]. cbn [negb snd]. destruct (default_stored st) eqn:Ed; [done|].
  destruct Hst as [Hm _]. split; [done|]. by intros c [= <-].
Qed.

(** ** The start *)

Hypothesis iter_hosts_perm : forall m, iter_hosts m ≡ₚ map_to_list m.

(** C21: In ingress mode nothing the cluster or the database answers keeps the process from
    starting.  With a client, a valid runtime mode and a working TLS library it comes up,
    listens on every HTTP address and, by SNI, on every HTTPS address before there is any
    certificate; it runs what the first pass made of the cluster's answers, under the
    named policies of the database when that could be read, and it asks for a login
    exactly when there is a database, a password or a token.  The named policies are
    those of every later pass too. *)
Theorem ingress_start_serves leading exists_ first d cfg : tls_ok BySni = true ->
  runtime_config_from_env e cpus ingress_runtime_env = Ok cfg ->
  let server := ie_server (ingress_config_from_env e h3_excluded) in
  let '(has_db, d1) := policies_db e now exists_ d in
  let '(c, d2) := first_config has_db d1 in
  exists s, ingress_run true leading exists_ first d = (Ok s, d2) /\
    (sp_http (ig_plan s)).*1 = tcp_bind_addrs macos (http_listen server) /\
    tl_addr <$> sp_https (ig_plan s) = tcp_bind_addrs macos (https_listen server) /\
    Forall (fun l => tl_choice l = BySni) (sp_https (ig_plan s)) /\
    ct_router (ig_state s) = ct_router (ingress_pass first (first_state c)).1 /\
    (forall ps stored, has_db = true -> (get_proxy_config d1).1 = Ok (Some stored) ->
       policies (ct_config (ingress_passes ps (ig_state s))) = policies stored) /\
    (ae_auth_required (ig_admin s) = true <->
     has_db = true \/ is_Some (admin_password (var e)) \/ exists t, var e "PERTISK_API_TOKEN" = Some t /\ trim t <> []).
Proof.
  intros Ht Hcfg server. destruct (policies_db e now exists_ d) as [has_db d1] eqn:Ed. destruct (first_config has_db d1) as [c d2] eqn:Ec.
  unfold IngressStart.ingress_run. rewrite Hcfg. cbn [negb]. rewrite Ed, Ec. unfold first_pass.
  destruct (pass_keeps first (first_state c) (certs_ok_new io)) as [Hok Hpol]. destruct (ingress_pass first (first_state c)) as [st patches].
  cbn [fst] in Hok, Hpol |- *. fold server. set (st' := with_certs _ _).
  assert (Hok' : certs_ok io (ct_certs st')) by (by apply fallback_keeps).
  set (E := build_ingress_state (var e) is_file read_file has_db (certs_dir e temp_dir) now uuid io level).
  destruct (server_run_ok iter_hosts iter_hosts_perm cpus macos tls_ok default_pool_size with_prometheus E e server (ct_router st') (ct_certs st')
              false cfg None Ht Hok') as (plan & Hplan & Hhttp & Hhttps & Hsni & _).
  change (ae_io E) with io in Hplan. rewrite Hplan. eexists. split; [reflexivity|]. cbn [ig_plan ig_state ig_admin]. split_and!; [done|done|done|done| |].
  - intros ps stored -> Hstored. destruct (passes_keep ps st' Hok') as [_ ->]. etransitivity; [exact Hpol|].
    unfold first_config in Ec. destruct (get_proxy_config d1) as [r d3]. cbn [fst] in Hstored. rewrite Hstored in Ec. by injection Ec as <- _.
  - cbn [E build_ingress_state ae_auth_required]. unfold ingress_auth_required. rewrite !orb_true_iff. split.
    + intros [[->|Hp]|Hp]; [by left|right; left|right; right].
      * by destruct (admin_password (var e)).
      * destruct (var e "PERTISK_API_TOKEN") as [t|]; [|done]. exists t. split; [done|]. cbn in Hp. by destruct (trim t).
    + intros [->|[[p Hp]|(t & Hv & Ht')]]; [by left; left|left; right; by rewrite Hp|right]. rewrite Hv. cbn. by destruct (trim t).
Qed.

(** Being the leader decides nothing: what is served, what is written to the cluster and
    which listeners are opened are the same, only the page that shows it differs. *)
Theorem leader_without_effect client exists_ first d s s' d1 d1' :
  ingress_run client true exists_ first d = (Ok s, d1) -> ingress_run client false exists_ first d = (Ok s', d1') ->
  ig_state s = ig_state s' /\ ig_patches s = ig_patches s' /\ ig_plan s = ig_plan s' /\ ig_h3 s = ig_h3 s' /\ ig_admin s = ig_admin s' /\ d1 = d1'.
Proof.
  unfold IngressStart.ingress_run. destruct (runtime_config_from_env _ _ _) as [cfg|]; [|done]. destruct client; [|done]. cbn [negb].
  destruct (policies_db e now exists_ d) as [has_db d2]. destruct (first_config has_db d2) as [c d3]. destruct (first_pass _ _ _ _ _ _ _ _ _) as [st patches].
  destruct (server_run _ _ _ _ _ _ _ _ _ _ _ _ _ _ _) as [plan|err]; [|done]. cbn [mbind result_bind]. intros [= <- <-] [= <- <-]. done.
Qed.

(** *** Clients without SNI *)

Lemma load_default cl xs l c : default_stored (ld_certs l) = Some c -> default_stored (ld_certs (foldl (load_secret io cl) l xs)) = Some c.
Proof.
  revert l. induction xs as [|x xs IH]; intros l Hl; [done|]. apply IH. unfold load_secret. destruct (_ ≫= secret_pair) as [[cert key]|]; [|done].
  unfold insert_pem_in_memory_for_hosts. destruct (negb _); [done|]. destruct (negb _); [done|]. cbn. by rewrite Hl.
Qed.

Lemma pass_default p st c : default_stored (ct_certs st) = Some c -> default_stored (ct_certs (ingress_pass p st).1) = Some c.
Proof.
  intros Hd. unfold IngressStart.ingress_pass, reconcile. destruct (cl_ingresses (pi_cluster p)) as [ings|]; [|done].
  destruct (collect _ _ _ _ _ _) as [[[acc n] m] patches].
  set (l := foldl _ _ _). assert (Hl : default_stored (ld_certs l) = Some c) by (by apply load_default).
  assert (Hr : default_stored (retire (last_ingress_tls_hosts st) (ld_hosts l) (ld_certs l)).1 = Some c).
  { unfold retire. destruct (is_empty _); [done|]. cbn [fst]. by destruct (is_empty _). }
  destruct (retire _ _ _) as [certs last]. by destruct (apply_config _ _ _ _) as [[] router].
Qed.

(** A client that sends no host name is shown the first certificate that was ever
    loaded: no later pass replaces it, also when its secret was renewed or deleted. *)
Theorem first_certificate_stays_default ps st c : default_stored (ct_certs st) = Some c ->
  certificate_callback iter_hosts (ct_certs (ingress_passes ps st)) None = Some c.
Proof.
  intros Hd. assert (Hp : default_stored (ct_certs (ingress_passes ps st)) = Some c).
  { revert st Hd. induction ps as [|p ps IH]; intros st Hd; [done|]. apply IH. by apply pass_default. }
  unfold certificate_callback, default_cert. by rewrite Hp.
Qed.

(** HTTP/3 is started by the first look at a store that has a certificate, and not before. *)
Theorem h3_starts_with_first_certificate polls n :
  h3_wait iter_hosts polls = Some n <->
  (exists st, polls !! n = Some st /\ has_any_cert iter_hosts st = true) /\
  forall i st, (i < n)%nat -> polls !! i = Some st -> has_any_cert iter_hosts st = false.
Proof.
  revert n. induction polls as [|st polls IH]; intros n; cbn [h3_wait].
  { split; [done|]. intros [(st & Hs & _) _]. by rewrite lookup_nil in Hs. }
  destruct (has_any_cert iter_hosts st) eqn:Eh.
  - split.
    + intros [= <-]. split; [by exists st|]. intros i st0 Hi. lia.
    + intros [_ Hb]. destruct n as [|n]; [done|]. exfalso. rewrite (Hb 0%nat st) in Eh; [done|lia|done].
  - rewrite fmap_Some. split.
    + intros (m & Hm & ->). apply IH in Hm as [(st1 & Hl & Hc) Hb]. split; [by exists st1|].
      intros [|i] st0 Hi Hl0; [by injection Hl0 as <-|]. apply (Hb i st0); [lia|done].
    + intros [(st1 & Hl & Hc) Hb]. destruct n as [|n]; [injection Hl as <-; congruence|]. exists n. split; [|done]. apply IH. split; [by exists st1|].
      intros i st0 Hi Hl0. apply (Hb (S i) st0); [lia|done].
Qed.

End ingress_props.

(** ** A concrete start *)

(** A database is configured, and holds no policies yet; the cluster has two Ingresses. *)
Definition ingress_env : ProcEnv := {[bs "PERTISK_DB_PATH" := bs "/data/proxy.db"; bs "LISTEN_HTTPS" := bs "[::]:443"]}.
Definition first_answers : PassInput := mkPassInput (cluster true [shop; blog]) "now" 0.

Lemma ingress_start_serves_witness :
  exists s d', @ingress_run (toy []) ingress_env 4 false false to_ascii_lowercase no_url iter_s (fun m => map_to_list m) any_tls 128 false io_ok
      (fun _ => false) (fun _ => None) 0 "id" Info "/tmp" None "1.0" true false true first_answers (put_db []) = (Ok s, d') /\
    tl_addr <$> sp_https (ig_plan s) = [bs "[::]:443"] /\ ae_auth_required (ig_admin s) = true.
Proof.
  pose proof (@ingress_start_serves (toy []) ingress_env 4 false false to_ascii_lowercase no_url iter_s (fun m => map_to_list m) any_tls 128 false
    io_ok (fun _ => false) (fun _ => None) 0 "id" Info "/tmp" None "1.0" (fun m => reflexivity _) false true first_answers (put_db [])
    (mkRuntimeConfig ModeAuto ModePerformance 4 512) eq_refl) as Hs.
  destruct (policies_db ingress_env 0 true (put_db [])) as [has_db d1] eqn:Ed.
  assert (Hdb : has_db = true) by (apply (f_equal fst) in Ed; vm_compute in Ed; by subst).
  destruct (first_config has_db d1) as [c d2]. destruct Hs as (s & Hr & _ & Hh & _ & _ & _ & Ha); [vm_compute; reflexivity|].
  exists s, d2. split; [exact Hr|]. split; [rewrite Hh; vm_compute; reflexivity|]. apply Ha. by left.
Defined.
