(* ===== verification/Watch.v ===== *)
(** * The loops of the controller (ingress/controller.rs, ingress/mod.rs)

    Two tasks run passes of the controller: one whenever a watch has seen a change, one
    every 30 seconds.  Their steps interleave with the changes of the cluster; a pass
    lists the cluster first and applies what it has seen later, and nothing keeps two
    passes apart. *)

From S2P Require Import Leader.
From S2P Require Import Prelude RustStr Ip GeoIp Waf Bot Captcha Security Edge EdgeAuth ProxyConfig Router Forward Apply.
From S2P Require Import Http Telemetry CertStore H3 Controller ControllerProps Database Admin AdminProps Settings Startup AutoSsl Readout IngressStart.

(** Where the watching task is: it waits for a notification, lets changes settle for 250
    milliseconds, or has listed the cluster as it was after [v] changes. *)
Inductive WatchPhase : Type := Waiting | Settling | Listed (v : nat).

(** The changes seen by the watches so far; the stored permit of [Notify], of which there
    is at most one; the two tasks; what the controller has applied. *)
Record WatchState := mkWatchState {
  wa_changes : nat;
  wa_permit : bool;
  wa_watch : WatchPhase;
  wa_poll : option nat;
  wa_ctl : CtlState;
}.

Section watch.
Variable e : ProcEnv.
Variable to_lowercase : str -> str.
Variable url_parse : str -> option Url.
Variable iter_secrets : gmap (str * str) (list str) -> list ((str * str) * list str).
Variable io : CertIo.
Variable level : LogLevel.
(** The cluster's answers after so many changes. *)
Variable inputs : nat -> PassInput.

Definition pass_at (v : nat) (st : CtlState) : CtlState := (ingress_pass e to_lowercase url_parse iter_secrets io level (inputs v) st).1.

(** [run_watches] with the watchers.  A change counts from the moment a watch reports
    it, which sets the permit in the same step; the pass of the other task is
    [poll_step], and what the two do together is further down. *)
Inductive watch_step : WatchState -> WatchState -> Prop :=
| watch_event n permit w p c : watch_step (mkWatchState n permit w p c) (mkWatchState (S n) true w p c)
| watch_wake n p c : watch_step (mkWatchState n true Waiting p c) (mkWatchState n false Settling p c)
| watch_list n permit p c : watch_step (mkWatchState n permit Settling p c) (mkWatchState n permit (Listed n) p c)
| watch_apply n permit v p c : watch_step (mkWatchState n permit (Listed v) p c) (mkWatchState n permit Waiting p (pass_at v c)).

(** The task of [run] that passes every 30 seconds. *)
Inductive poll_step : WatchState -> WatchState -> Prop :=
| poll_list n permit w c : poll_step (mkWatchState n permit w None c) (mkWatchState n permit w (Some n) c)
| poll_apply n permit w v c : poll_step (mkWatchState n permit w (Some v) c) (mkWatchState n permit w None (pass_at v c)).

Definition watch_start (c : CtlState) : WatchState := mkWatchState 0 false Waiting None (pass_at 0 c).

(** The last pass that was applied had seen every change. *)
Definition up_to_date (s : WatchState) : Prop := exists c, wa_ctl s = pass_at (wa_changes s) c.

(** ** The watching task alone *)

Definition watch_inv (s : WatchState) : Prop :=
  match wa_watch s with
  | Waiting => wa_permit s = true \/ up_to_date s
  | Settling => True
  | Listed v => wa_permit s = true \/ v = wa_changes s
  end.

Lemma watch_inv_step s s' : watch_step s s' -> watch_inv s -> watch_inv s'.
Proof.
  destruct 1 as [n permit w p c|n p c|n permit p c|n permit v p c]; cbn; intros Hi.
  - destruct w; [by left|done|by left].
  - done.
  - by right.
  - destruct Hi as [->| ->]; [by left|]. right. by exists c.
Qed.

Lemma watch_inv_run s s' : rtc watch_step s s' -> watch_inv s -> watch_inv s'.
Proof. induction 1 as [|a b c Hab _ IH]; intros Hi; [done|]. apply IH. by eapply watch_inv_step. Qed.

(** A step of the task itself. *)
Definition own_step (s s' : WatchState) : Prop := watch_step s s' /\ wa_changes s' = wa_changes s.

Lemma settle_listed n permit v p c : permit = true \/ v = n ->
  exists c', nsteps own_step (if permit then 4 else 1) (mkWatchState n permit (Listed v) p c) (mkWatchState n false Waiting p (pass_at n c')).
Proof.
  intros Hp. destruct permit.
  - exists (pass_at v c). do 3 (eapply nsteps_l; [split; [constructor|done]|]). apply nsteps_once. split; [constructor|done].
  - destruct Hp as [?| ->]; [done|]. exists c. apply nsteps_once. split; [constructor|done].
Qed.

(** C20: No change is missed and none waits for ever.  In every run of the watching task,
    however its steps and the changes interleave, whenever it waits and nothing is
    notified, the configuration that runs is what a pass made of the cluster after the
    last change; and from every state, when no further change comes, at most five steps of the
    task lead there. *)
Theorem watch_settles c s : rtc watch_step (watch_start c) s ->
  (wa_watch s = Waiting -> wa_permit s = false -> up_to_date s) /\
  exists k s', (k <= 5)%nat /\ nsteps own_step k s s' /\ wa_watch s' = Waiting /\ wa_permit s' = false /\ up_to_date s'.
Proof.
  intros Hr. assert (Hi : watch_inv s) by (eapply watch_inv_run; [exact Hr|]; right; by exists c).
  split; [intros Hw Hp; unfold watch_inv in Hi; rewrite Hw in Hi; destruct Hi as [?|?]; [congruence|done]|].
  destruct s as [n permit w p st]. unfold watch_inv in Hi. cbn in Hi. destruct w as [| |v].
  - destruct permit.
    + do 2 eexists. split; [|split; [do 2 (eapply nsteps_l; [split; [constructor|done]|]); apply nsteps_once; split; [constructor|done]|]]; [lia|].
      split_and!; [done|done|by eexists].
    + destruct Hi as [?|Hu]; [done|]. exists 0%nat. eexists. split; [lia|]. split; [constructor|done].
  - destruct (settle_listed n permit n p st (or_intror eq_refl)) as [c' Hs].
    exists (S (if permit then 4 else 1)), (mkWatchState n false Waiting p (pass_at n c')). split; [by destruct permit; lia|].
    split; [|split_and!; [done|done|by exists c']]. eapply nsteps_l; [|exact Hs]. split; [constructor|done].
  - destruct (settle_listed n permit v p st Hi) as [c' Hs]. exists (if permit then 4 else 1)%nat, (mkWatchState n false Waiting p (pass_at n c')).
    split; [by destruct permit; lia|]. split; [done|]. split_and!; [done|done|by exists c'].
Qed.

(** ** Both tasks *)

Definition both_step (s s' : WatchState) : Prop := watch_step s s' \/ poll_step s s'.

(** With both tasks a pass can apply what it listed before another one has applied a
    later change: the older cluster is back, no permit is left, and nothing corrects it
    before the next change or the next 30 seconds. *)
Theorem overlapping_passes_go_back c :
  exists s, rtc both_step (watch_start c) s /\ wa_changes s = 1%nat /\ wa_watch s = Waiting /\ wa_permit s = false /\ wa_poll s = None /\
    wa_ctl s = pass_at 0 (pass_at 1 (pass_at 0 c)).
Proof.
  exists (mkWatchState 1 false Waiting None (pass_at 0 (pass_at 1 (pass_at 0 c)))). split; [|by split_and!]. unfold watch_start.
  eapply rtc_l; [right; apply poll_list|]. eapply rtc_l; [left; apply watch_event|]. eapply rtc_l; [left; apply watch_wake|].
  eapply rtc_l; [left; apply watch_list|]. eapply rtc_l; [left; apply watch_apply|]. eapply rtc_l; [right; apply poll_apply|]. apply rtc_refl.
Qed.

(** A pass of the other task that nothing overlaps brings the cluster as it is. *)
Lemma poll_repairs n permit w c : exists s, rtc poll_step (mkWatchState n permit w None c) s /\ wa_poll s = None /\ up_to_date s.
Proof.
  exists (mkWatchState n permit w None (pass_at n c)). split; [|split; [done|by exists c]].
  eapply rtc_l; [apply poll_list|]. eapply rtc_l; [apply poll_apply|]. apply rtc_refl.
Qed.

End watch.

(** ** A concrete run *)

(** An Ingress is added by the first change. *)
Definition growing (v : nat) : PassInput := mkPassInput (cluster true (match v with O => [] | _ => [shop] end)) "now" 0.
Definition small_pass : nat -> CtlState -> CtlState := pass_at ∅ to_ascii_lowercase no_url iter_s io_ok Info growing.

Lemma watch_settles_witness :
  exists k s, (k <= 5)%nat /\ wa_watch s = Waiting /\ up_to_date ∅ to_ascii_lowercase no_url iter_s io_ok Info growing s /\
    nsteps (own_step ∅ to_ascii_lowercase no_url iter_s io_ok Info growing) k
      (mkWatchState 1 true Waiting None (small_pass 0 ctl_state)) s.
Proof.
  destruct (watch_settles ∅ to_ascii_lowercase no_url iter_s io_ok Info growing ctl_state (mkWatchState 1 true Waiting None (small_pass 0 ctl_state)))
    as [_ (k & s & Hk & Hs & Hw & _ & Hu)].
  - eapply rtc_l; [apply watch_event|]. apply rtc_refl.
  - exists k, s. by split_and!.
Defined.

(** The two passes differ: a request for the host of the new Ingress is served after the
    second and not after the first. *)
Lemma going_back_loses_site :
  cfg_sites (ct_config (small_pass 0 (small_pass 1 (small_pass 0 ctl_state)))) = [] /\
  length (cfg_sites (ct_config (small_pass 1 (small_pass 0 ctl_state)))) = 1%nat.
Proof. split; vm_compute; reflexivity. Qed.
