(* ===== verification/KubeView.v ===== *)
(** * The cluster dashboard (api/kubernetes.rs)

    The lists of the cluster that the management interface shows in ingress mode, and the
    summary of its resources.  Objects have the fields the code reads; what the API server
    answers to a list is a parameter. *)

From S2P Require Import Prelude RustStr Ip GeoIp Waf Bot Captcha Security Edge EdgeAuth ProxyConfig Router Forward Apply.
From S2P Require Import Telemetry CertStore Database Admin.

(** ** Quantities

    [f64] is a parameter: reading a text, and multiplying by a constant, rounding and
    converting to [i64].  The constants are [num / den]. *)
Record Scale := mkScale { sc_num : N; sc_den : N }.

Definition i64_min : Z := - 2 ^ 63.
Definition i64_max : Z := 2 ^ 63 - 1.

Class Float64 (F : Type) := {
  f64_parse : str -> option F;
  f64_scaled : F -> Scale -> Z;
  (** Texts that [f64::from_str] accepts end in a digit, a point, or the last letter of
      "inf", "infinity" or "nan". *)
  f64_grammar s f : f64_parse s = Some f ->
    exists b, last s = Some b /\ (is_ascii_digit b = true \/ b ∈ bs ".fFyYnN");
  (** Whole numbers are exact as long as they have 53 bits. *)
  f64_exact n k : n * k <= 2 ^ 53 -> exists f, f64_parse (show_N n) = Some f /\ f64_scaled f (mkScale k 1) = Z.of_N (n * k);
  f64_range f k : (i64_min <= f64_scaled f k <= i64_max)%Z;
}.

(** [&qty[..qty.len() - n]]. *)
Definition drop_last (n : nat) (s : str) : str := take (length s - n) s.

Section quantities.
Context `{Float64 F}.

Definition scaled (num : str) (k : Scale) : option Z := (fun f => f64_scaled f k) <$> f64_parse num.

Definition parse_cpu_quantity (qty : str) : option Z :=
  let qty := trim qty in
  if is_empty qty then None
  else if ends_with "n" qty then scaled (drop_last 1 qty) (mkScale 1 1000000)
  else if ends_with "u" qty then scaled (drop_last 1 qty) (mkScale 1 1000)
  else if ends_with "m" qty then scaled (drop_last 1 qty) (mkScale 1 1)
  else scaled qty (mkScale 1000 1).

Definition parse_bytes_quantity (qty : str) : option Z :=
  let qty := trim qty in
  if is_empty qty then None
  else if ends_with "Ei" qty then scaled (drop_last 2 qty) (mkScale (1024 ^ 6) 1)
  else if ends_with "Pi" qty then scaled (drop_last 2 qty) (mkScale (1024 ^ 5) 1)
  else if ends_with "Ti" qty then scaled (drop_last 2 qty) (mkScale (1024 ^ 4) 1)
  else if ends_with "Gi" qty then scaled (drop_last 2 qty) (mkScale (1024 ^ 3) 1)
  else if ends_with "Mi" qty then scaled (drop_last 2 qty) (mkScale (1024 ^ 2) 1)
  else if ends_with "Ki" qty then scaled (drop_last 2 qty) (mkScale 1024 1)
  else if ends_with "E" qty then scaled (drop_last 1 qty) (mkScale (1000 ^ 6) 1)
  else if ends_with "P" qty then scaled (drop_last 1 qty) (mkScale (1000 ^ 5) 1)
  else if ends_with "T" qty then scaled (drop_last 1 qty) (mkScale (1000 ^ 4) 1)
  else if ends_with "G" qty then scaled (drop_last 1 qty) (mkScale (1000 ^ 3) 1)
  else if ends_with "M" qty then scaled (drop_last 1 qty) (mkScale (1000 ^ 2) 1)
  else if ends_with "K" qty then scaled (drop_last 1 qty) (mkScale 1000 1)
  else scaled qty (mkScale 1 1).

End quantities.

(** [+=] on [i64] in a release build. *)
Definition i64_add (a b : Z) : Z := ((a + b + 2 ^ 63) mod 2 ^ 64 - 2 ^ 63)%Z.
(** [usize as i32]. *)
Definition as_i32 (n : N) : Z := ((Z.of_N n + 2 ^ 31) mod 2 ^ 32 - 2 ^ 31)%Z.
Definition i32_wrap (z : Z) : Z := ((z + 2 ^ 31) mod 2 ^ 32 - 2 ^ 31)%Z.

(** ** Objects *)

(** A timestamp is its text. *)
Record VMeta := mkVMeta { vm_name : option str; vm_generate_name : option str; vm_namespace : option str; vm_created : option str }.

(** [ResourceExt::name_any] and [namespace()]. *)
Definition name_any (m : VMeta) : str := default [] (or_else (vm_name m) (vm_generate_name m)).
Definition namespace_or_default (m : VMeta) : str := default (bs "default") (vm_namespace m).

Abbreviation Resources := (gmap str str).

Record VContainer := mkVContainer { ct_requests : option Resources; ct_limits : option Resources }.
Record VContainerStatus := mkVContainerStatus { cs_ready : bool; cs_restarts : Z }.
Record VPodSpec := mkVPodSpec { ps_node : option str; ps_containers : list VContainer }.
Record VPodStatus := mkVPodStatus {
  pt_phase : option str;
  pt_host_ip : option str;
  pt_pod_ip : option str;
  pt_containers : option (list VContainerStatus);
}.
Record VPod := mkVPod { pod_meta : VMeta; pod_spec : option VPodSpec; pod_status : option VPodStatus }.

Record VCondition := mkVCondition { cd_type : str; cd_status : str }.
Record VNodeStatus := mkVNodeStatus { nt_conditions : option (list VCondition); nt_capacity : option Resources; nt_allocatable : option Resources }.
Record VNode := mkVNode { node_meta : VMeta; node_status : option VNodeStatus }.

(** A [PodMetrics] object: the usage of each container. *)
Record VUsage := mkVUsage { us_cpu : option str; us_memory : option str }.
Record VPodMetrics := mkVPodMetrics { mt_namespace : option str; mt_name : option str; mt_containers : option (list VUsage) }.

Record VDeployment := mkVDeployment { dep_meta : VMeta; dep_status : option (option Z * option Z) }.  (** replicas, available *)

Record VServicePort := mkVServicePort { vp_port : Z; vp_name : option str; vp_protocol : option str }.
Record VServiceSpec := mkVServiceSpec { vs_type : option str; vs_cluster_ip : option str; vs_ports : option (list VServicePort) }.
Record VService := mkVService { svc_meta : VMeta; svc_spec : option VServiceSpec; svc_ingress : option (list (option str * option str)) }.  (** address, host name *)

Record VSecret := mkVSecret { sec_meta : VMeta; sec_type : option str; sec_data : option (gmap str str) }.
Record VConfigMap := mkVConfigMap { cm_meta : VMeta; cm_data : option (gmap str str) }.

Record VEvent := mkVEvent {
  ev_meta : VMeta;
  ev_type : option str;
  ev_reason : option str;
  ev_message : option str;
  ev_kind : option str;
  ev_object : option str;
  ev_last : option str;
  ev_first : option str;
}.

(** What the API server answers. *)
Record ClusterLists := mkClusterLists {
  li_namespaces : result str (list VMeta);
  li_pods : option str -> result str (list VPod);
  li_nodes : result str (list VNode);
  li_metrics : result str (list VPodMetrics);
  li_deployments : option str -> result str (list VDeployment);
  li_services : option str -> result str (list VService);
  li_secrets : option str -> result str (list VSecret);
  li_configmaps : option str -> result str (list VConfigMap);
  li_events : result str (list VEvent);
}.

(** ** Rows *)

Record K8sNamespaceRow := mkNamespaceRow { nsr_name : str; nsr_created_at : option str }.

Record K8sPodRow := mkPodRow {
  pr_name : str;
  pr_namespace : str;
  pr_phase : str;
  pr_node : option str;
  pr_node_name : option str;
  pr_node_status : option str;
  pr_pod_ip : option str;
  pr_ready : str;
  pr_restarts : Z;
  pr_cpu_request : Z;
  pr_memory_request : Z;
  pr_cpu_usage : option Z;
  pr_memory_usage : option Z;
  pr_created_at : option str;
}.

Record K8sDeploymentRow := mkDeploymentRow {
  der_name : str;
  der_namespace : str;
  der_ready : str;
  der_replicas : Z;
  der_available : Z;
  der_created_at : option str;
}.

Record K8sServicePortDetail := mkPortDetail { pd_port : Z; pd_name : option str; pd_protocol : str }.
Record K8sServiceRow := mkServiceRow {
  sr_name : str;
  sr_namespace : str;
  sr_type : str;
  sr_cluster_ip : option str;
  sr_external_ip : option str;
  sr_ports : list str;
  sr_ports_detail : list K8sServicePortDetail;
  sr_created_at : option str;
}.

Record K8sTlsSecretRow := mkTlsSecretRow { tr_namespace : str; tr_name : str; tr_issued_at : option str; tr_expires_at : option str }.
Record K8sConfigMapRow := mkConfigMapRow { cmr_namespace : str; cmr_name : str; cmr_keys : list str; cmr_created_at : option str }.
Record K8sSecretRow := mkSecretRow {
  ser_namespace : str;
  ser_name : str;
  ser_type : str;
  ser_keys : list str;
  ser_created_at : option str;
  ser_tls_expires_at : option str;
}.
Record K8sNodeRow := mkNodeRow {
  nr_name : str;
  nr_ready : str;
  nr_capacity_cpu : option str;
  nr_capacity_memory : option str;
  nr_created_at : option str;
}.
Record K8sEventRow := mkEventRow {
  er_namespace : str;
  er_name : str;
  er_type : option str;
  er_reason : option str;
  er_message : option str;
  er_kind : option str;
  er_object : option str;
  er_created_at : option str;
}.

(** The "Ready" condition of a node. *)
Definition node_ready (n : VNode) : str :=
  default (bs "Unknown")
    (st ← node_status n; conds ← nt_conditions st; cd_status <$> List.find (fun x => cd_type x =s "Ready") conds).

Definition namespace_row (m : VMeta) : K8sNamespaceRow := mkNamespaceRow (name_any m) (vm_created m).

Section rows.
Context `{Float64 F}.
(** [cert_validity_from_pem]: when a certificate was issued and when it expires. *)
Variable cert_validity_from_pem : str -> option str * option str.

(** A loop that adds the quantities it can read. *)
Definition add_quantity (parse : str -> option Z) (total : Z) (q : option str) : Z :=
  match q ≫= parse with Some v => i64_add total v | None => total end.
Definition total_of {A} (parse : str -> option Z) (get : A -> option str) (l : list A) : Z :=
  foldl (fun t a => add_quantity parse t (get a)) 0%Z l.

Definition request (key : str) (c : VContainer) : option str := r ← ct_requests c; r !! key.
Definition limit (key : str) (c : VContainer) : option str := r ← ct_limits c; r !! key.

Definition pod_usage_map (l : list VPodMetrics) : gmap (str * str) (Z * Z) :=
  foldl (fun m x =>
    let name := default [] (mt_name x) in
    if is_empty name then m
    else
      let cs := default [] (mt_containers x) in
      <[(default (bs "default") (mt_namespace x), name) := (total_of parse_cpu_quantity us_cpu cs, total_of parse_bytes_quantity us_memory cs)]> m)
    ∅ l.

(** [collect] into a map keeps the last of two nodes with one name. *)
Definition node_status_map (l : list VNode) : gmap str str :=
  foldl (fun m n => <[name_any (node_meta n) := node_ready n]> m) ∅ l.

(** [sum::<i32>()] wraps in a release build. *)
Definition sum_i32 (l : list Z) : Z := foldl (fun a b => i32_wrap (a + b)) 0%Z l.

Definition pod_row (nodes : gmap str str) (usage : gmap (str * str) (Z * Z)) (p : VPod) : K8sPodRow :=
  let name := name_any (pod_meta p) in
  let ns := namespace_or_default (pod_meta p) in
  let node_name := sp ← pod_spec p; ps_node sp in
  let statuses := st ← pod_status p; pt_containers st in
  let containers := from_option ps_containers [] (pod_spec p) in
  let used := usage !! (ns, name) in
  mkPodRow name ns (default (bs "Unknown") (st ← pod_status p; pt_phase st))
    (or_else node_name (st ← pod_status p; pt_host_ip st)) node_name (node_name ≫= fun n => nodes !! n)
    (st ← pod_status p; pt_pod_ip st)
    (match statuses with
     | Some l => show_N (N.of_nat (length (filter (fun c => cs_ready c = true) l))) ++ bs "/" ++ show_N (N.of_nat (length l))
     | None => bs "?/0"
     end)
    (match statuses with Some l => Z.max 0 (sum_i32 (cs_restarts <$> l)) | None => 0%Z end)
    (total_of parse_cpu_quantity (request "cpu") containers) (total_of parse_bytes_quantity (request "memory") containers)
    (fst <$> used) (snd <$> used) (vm_created (pod_meta p)).

Definition deployment_row (d : VDeployment) : K8sDeploymentRow :=
  let replicas := default 0%Z (st ← dep_status d; st.1) in
  let available := default 0%Z (st ← dep_status d; st.2) in
  mkDeploymentRow (name_any (dep_meta d)) (namespace_or_default (dep_meta d)) (show_Z available ++ bs "/" ++ show_Z replicas)
    replicas available (vm_created (dep_meta d)).

Definition protocol_of (p : VServicePort) : str := default (bs "TCP") (vp_protocol p).

Definition nonempty_text (s : str) : bool := negb (is_empty s).

Definition service_row (s : VService) : K8sServiceRow :=
  let entries := default [] (svc_ingress s) in
  let external := omap (fun e => or_else (opt_filter nonempty_text e.1) (opt_filter nonempty_text e.2)) entries in
  let ports := default [] (sp ← svc_spec s; vs_ports sp) in
  mkServiceRow (name_any (svc_meta s)) (namespace_or_default (svc_meta s))
    (default (bs "ClusterIP") (sp ← svc_spec s; vs_type sp)) (sp ← svc_spec s; vs_cluster_ip sp)
    (if is_empty external then None else Some (join ", " external))
    ((fun p => show_Z (vp_port p) ++ bs "/" ++ protocol_of p) <$> ports)
    ((fun p => mkPortDetail (vp_port p) (vp_name p) (protocol_of p)) <$> ports) (vm_created (svc_meta s)).

(** The keys of a map, sorted. *)
Definition sorted_keys (d : option (gmap str str)) : list str := sort_by str_leb (from_option (fun m => fst <$> map_to_list m) [] d).

Definition tls_crt (s : VSecret) : option str := d ← sec_data s; d !! bs "tls.crt".

Definition shows_tls (s : VSecret) : bool := (default [] (sec_type s) =s "kubernetes.io/tls") || is_some (tls_crt s).

Definition tls_secret_row (s : VSecret) : K8sTlsSecretRow :=
  let validity := from_option cert_validity_from_pem (None, None) (tls_crt s) in
  mkTlsSecretRow (namespace_or_default (sec_meta s)) (name_any (sec_meta s)) validity.1 validity.2.

Definition secret_row (s : VSecret) : K8sSecretRow :=
  let has_key := is_some (d ← sec_data s; d !! bs "tls.key") in
  mkSecretRow (namespace_or_default (sec_meta s)) (name_any (sec_meta s)) (default (bs "Opaque") (sec_type s)) (sorted_keys (sec_data s))
    (vm_created (sec_meta s)) (if has_key then crt ← tls_crt s; (cert_validity_from_pem crt).2 else None).

Definition configmap_row (c : VConfigMap) : K8sConfigMapRow :=
  mkConfigMapRow (namespace_or_default (cm_meta c)) (name_any (cm_meta c)) (sorted_keys (cm_data c)) (vm_created (cm_meta c)).

Definition node_row (n : VNode) : K8sNodeRow :=
  let capacity key := st ← node_status n; cap ← nt_capacity st; cap !! bs key in
  mkNodeRow (name_any (node_meta n)) (node_ready n) (capacity "cpu") (capacity "memory") (vm_created (node_meta n)).

Definition event_row (e : VEvent) : K8sEventRow :=
  mkEventRow (namespace_or_default (ev_meta e)) (name_any (ev_meta e)) (ev_type e) (ev_reason e) (ev_message e) (ev_kind e) (ev_object e)
    (or_else (or_else (ev_last e) (ev_first e)) (vm_created (ev_meta e))).

(** [Option<String>::cmp]: [None] is below every text. *)
Definition opt_str_leb (a b : option str) : bool :=
  match a, b with None, _ => true | Some _, None => false | Some x, Some y => str_leb x y end.

(** The newest twenty. *)
Definition event_rows (l : list VEvent) : list K8sEventRow :=
  take 20 (sort_by (fun a b => opt_str_leb (er_created_at b) (er_created_at a)) (event_row <$> l)).

(** ** The summary *)

Record K8sClusterSummary := mkClusterSummary {
  cpu_capacity : Z;
  memory_capacity : Z;
  cpu_allocatable : Z;
  memory_allocatable : Z;
  cpu_requests : Z;
  memory_requests : Z;
  cpu_limits : Z;
  memory_limits : Z;
  node_count : Z;
  pod_count : Z;
  pod_capacity : Z;
  pod_allocatable : Z;
  storage_capacity : Z;
  storage_allocatable : Z;
  storage_requests : Z;
}.

Definition capacity_of (key : str) (n : VNode) : option str := st ← node_status n; cap ← nt_capacity st; cap !! key.
Definition allocatable_of (key : str) (n : VNode) : option str := st ← node_status n; cap ← nt_allocatable st; cap !! key.

(** Pods that run or wait. *)
Definition counts_resources (p : VPod) : bool :=
  let phase := default (bs "Unknown") (st ← pod_status p; pt_phase st) in (phase =s "Running") || (phase =s "Pending").

Definition pod_containers (pods : list VPod) : list VContainer :=
  mjoin ((fun p => from_option ps_containers [] (pod_spec p)) <$> filter (fun p => counts_resources p = true) pods).

Definition summary (nodes : list VNode) (pods : list VPod) : K8sClusterSummary :=
  let cs := pod_containers pods in
  mkClusterSummary
    (total_of parse_cpu_quantity (capacity_of "cpu") nodes) (total_of parse_bytes_quantity (capacity_of "memory") nodes)
    (total_of parse_cpu_quantity (allocatable_of "cpu") nodes) (total_of parse_bytes_quantity (allocatable_of "memory") nodes)
    (total_of parse_cpu_quantity (request "cpu") cs) (total_of parse_bytes_quantity (request "memory") cs)
    (total_of parse_cpu_quantity (limit "cpu") cs) (total_of parse_bytes_quantity (limit "memory") cs)
    (as_i32 (N.of_nat (length nodes))) (as_i32 (N.of_nat (length pods)))
    (total_of parse_i64 (capacity_of "pods") nodes) (total_of parse_i64 (allocatable_of "pods") nodes)
    (total_of parse_bytes_quantity (capacity_of "ephemeral-storage") nodes)
    (total_of parse_bytes_quantity (allocatable_of "ephemeral-storage") nodes)
    (total_of parse_bytes_quantity (request "ephemeral-storage") cs).

(** The percentages: a numerator over a positive denominator, or zero. *)
Definition percent (part whole : Z) : option (Z * Z) := if (0 <? whole)%Z then Some (part, whole) else None.

Record SummaryPercents := mkSummaryPercents {
  cpu_requests_percent : option (Z * Z);
  memory_requests_percent : option (Z * Z);
  cpu_limits_percent : option (Z * Z);
  memory_limits_percent : option (Z * Z);
  storage_requests_percent : option (Z * Z);
}.

Definition percents (s : K8sClusterSummary) : SummaryPercents :=
  mkSummaryPercents (percent (cpu_requests s) (cpu_allocatable s)) (percent (memory_requests s) (memory_allocatable s))
    (percent (cpu_limits s) (cpu_allocatable s)) (percent (memory_limits s) (memory_allocatable s))
    (percent (storage_requests s) (storage_allocatable s)).

(** ** Handlers *)

(** [viewer_mode] and the client of the state; the lists of the server. *)
Variable viewer_mode client : bool.
Variable L : ClusterLists.

Definition dashboard_unavailable : ApiError := mkApiError 404 "Kubernetes dashboard is only available in ingress mode".

Definition dashboard {A B} (l : result str A) (f : A -> B) : result ApiError B :=
  if negb viewer_mode || negb client then Err dashboard_unavailable
  else match l with Ok a => Ok (f a) | Err e => Err (mkApiError 500 e) end.

Definition kubernetes_namespaces : result ApiError (list K8sNamespaceRow) := dashboard (li_namespaces L) (fmap namespace_row).

Definition list_pods_rows (ns : option str) : result str (option (list K8sPodRow)) :=
  if negb viewer_mode || negb client then Ok None
  else
    match li_pods L ns with
    | Err e => Err e
    | Ok pods =>
      let nodes := match li_nodes L with Ok l => node_status_map l | Err _ => ∅ end in
      let usage := match li_metrics L with Ok l => pod_usage_map l | Err _ => ∅ end in
      Ok (Some (pod_row nodes usage <$> pods))
    end.

Definition kubernetes_pods (ns : option str) : result ApiError (list K8sPodRow) :=
  match list_pods_rows ns with
  | Ok None => Err dashboard_unavailable
  | Ok (Some rows) => Ok rows
  | Err e => Err (mkApiError 500 e)
  end.

Definition kubernetes_deployments (ns : option str) : result ApiError (list K8sDeploymentRow) := dashboard (li_deployments L ns) (fmap deployment_row).
Definition kubernetes_services (ns : option str) : result ApiError (list K8sServiceRow) := dashboard (li_services L ns) (fmap service_row).
Definition kubernetes_tls_secrets (ns : option str) : result ApiError (list K8sTlsSecretRow) :=
  dashboard (li_secrets L ns) (fun l => tls_secret_row <$> filter (fun s => shows_tls s = true) l).
Definition kubernetes_configmaps (ns : option str) : result ApiError (list K8sConfigMapRow) := dashboard (li_configmaps L ns) (fmap configmap_row).
Definition kubernetes_secrets (ns : option str) : result ApiError (list K8sSecretRow) := dashboard (li_secrets L ns) (fmap secret_row).
Definition kubernetes_nodes : result ApiError (list K8sNodeRow) := dashboard (li_nodes L) (fmap node_row).
Definition kubernetes_events : result ApiError (list K8sEventRow) := dashboard (li_events L) event_rows.

Definition kubernetes_cluster_summary : result ApiError (K8sClusterSummary * SummaryPercents) :=
  if negb viewer_mode || negb client then Err dashboard_unavailable
  else
    match li_nodes L, li_pods L None with
    | Err e, _ => Err (mkApiError 500 e)
    | Ok _, Err e => Err (mkApiError 500 e)
    | Ok nodes, Ok pods => let s := summary nodes pods in Ok (s, percents s)
    end.

End rows.
