(* ===== verification/KubeViewProps.v ===== *)
(** * What the cluster dashboard guarantees

    Theorems about [KubeView]: the values of secrets do not show; whole quantities are
    read exactly; sums and the newest events are what they should be. *)

From S2P Require Import Prelude RustStr Ip GeoIp Waf Bot Captcha Security Edge EdgeAuth ProxyConfig Router Forward Apply.
From S2P Require Import Telemetry CertStore Database Admin KubeView.

(** ** Secrets *)

#[export] Instance str_leb_antisym : AntiSymm (=) (fun s t => str_leb s t = true).
Proof. intros s t. apply str_leb_antisymm. Qed.

Lemma sort_str_unique l l' : l ≡ₚ l' -> sort_by str_leb l = sort_by str_leb l'.
Proof.
  intros Hp. eapply (StronglySorted_unique (fun s t => str_leb s t = true)); [apply sort_by_sorted, _; apply str_leb_total..|].
  by rewrite !sort_by_perm.
Qed.

(** Two values with the same keys. *)
Definition same_keys (a b : option (gmap str str)) : Prop :=
  match a, b with
  | Some m, Some m' => forall k, is_Some (m !! k) <-> is_Some (m' !! k)
  | None, None => True
  | _, _ => False
  end.

Lemma map_keys_perm (m m' : gmap str str) : (forall k, is_Some (m !! k) <-> is_Some (m' !! k)) ->
  fst <$> map_to_list m ≡ₚ fst <$> map_to_list m'.
Proof.
  intros Hk. apply NoDup_Permutation; [apply NoDup_fst_map_to_list..|]. intros k. rewrite !list_elem_of_fmap. split.
  - intros ([k' v] & -> & Hin). apply elem_of_map_to_list in Hin. destruct (proj1 (Hk k')) as [v' Hv']; [by eexists|].
    exists (k', v'). split; [done|by apply elem_of_map_to_list].
  - intros ([k' v] & -> & Hin). apply elem_of_map_to_list in Hin. destruct (proj2 (Hk k')) as [v' Hv']; [by eexists|].
    exists (k', v'). split; [done|by apply elem_of_map_to_list].
Qed.

Lemma sorted_keys_same a b : same_keys a b -> sorted_keys a = sorted_keys b.
Proof.
  unfold sorted_keys. destruct a as [m|], b as [m'|]; try done. intros Hk. apply sort_str_unique. by apply map_keys_perm.
Qed.

(** Secrets that differ at most in values, the public certificate excepted. *)
Record alike (s s' : VSecret) : Prop := {
  alike_meta : sec_meta s = sec_meta s';
  alike_type : sec_type s = sec_type s';
  alike_keys : same_keys (sec_data s) (sec_data s');
  alike_crt : tls_crt s = tls_crt s';
}.

Lemma alike_has_key s s' k : alike s s' -> is_some (d ← sec_data s; d !! k) = is_some (d ← sec_data s'; d !! k).
Proof.
  intros [_ _ Hk _]. destruct (sec_data s) as [m|], (sec_data s') as [m'|]; try done. cbn in Hk |- *. specialize (Hk k).
  destruct (m !! k), (m' !! k); try done; exfalso.
  - destruct (proj1 Hk) as [? ?]; [by eexists|done].
  - destruct (proj2 Hk) as [? ?]; [by eexists|done].
Qed.

Lemma alike_rows cv s s' : alike s s' -> secret_row cv s = secret_row cv s' /\ tls_secret_row cv s = tls_secret_row cv s' /\ shows_tls s = shows_tls s'.
Proof.
  intros Ha. pose proof (alike_has_key _ _ (bs "tls.key") Ha) as Hkey. destruct Ha as [Hm Ht Hk Hc].
  unfold secret_row, tls_secret_row, shows_tls. rewrite Hm, Ht, Hc, Hkey. by rewrite (sorted_keys_same _ _ Hk).
Qed.

Definition with_secrets (f : option str -> result str (list VSecret)) (l : ClusterLists) : ClusterLists :=
  mkClusterLists (li_namespaces l) (li_pods l) (li_nodes l) (li_metrics l) (li_deployments l) (li_services l) f (li_configmaps l) (li_events l).

(** The dashboard does not show what is in secrets.  For two clusters whose secrets
    have the same names, types, keys and public certificates, in the same order, the
    lists of secrets and of TLS secrets are equal, whatever the other values are. *)
Theorem secret_values_not_shown cv viewer client l ns secrets secrets' :
  Forall2 alike secrets secrets' ->
  let shown f := (kubernetes_secrets cv viewer client (with_secrets f l) ns, kubernetes_tls_secrets cv viewer client (with_secrets f l) ns) in
  shown (fun _ => Ok secrets) = shown (fun _ => Ok secrets').
Proof.
  intros Ha. cbv zeta. unfold kubernetes_secrets, kubernetes_tls_secrets, dashboard. cbn [li_secrets with_secrets].
  destruct (negb viewer || negb client); [done|]. f_equal; f_equal.
  - induction Ha as [|s s' l1 l2 Hs _ IH]; [done|]. cbn. f_equal; [by apply alike_rows|apply IH].
  - induction Ha as [|s s' l1 l2 Hs _ IH]; [done|]. destruct (alike_rows cv _ _ Hs) as (_ & Hr & Ht).
    rewrite !filter_cons, Ht. case_decide; [|done]. cbn. f_equal; [done|apply IH].
Qed.

(** ** Quantities *)

Lemma ends_with_app_le p num suf : (length p <= length suf)%nat -> ends_with p (num ++ suf) = ends_with p suf.
Proof.
  intros Hl. apply eq_true_iff_eq. rewrite !ends_with_true. split.
  - intros [r Hr]. apply (f_equal (drop (length num))) in Hr as Hd. rewrite drop_app_length in Hd.
    exists (drop (length num) r). rewrite Hd. apply drop_app_le. apply (f_equal length) in Hr. rewrite !length_app in Hr. lia.
  - intros [r ->]. exists (num ++ r). by rewrite app_assoc.
Qed.

Lemma ends_with_last p s a b : last p = Some a -> last s = Some b -> a <> b -> ends_with p s = false.
Proof.
  intros Hp Hs Hne. apply not_true_is_false. rewrite ends_with_true. intros [r ->].
  destruct p as [|x p]; [done|]. rewrite last_app, Hp in Hs. congruence.
Qed.

Lemma show_N_last n : exists d, last (show_N n) = Some d /\ is_ascii_digit d = true.
Proof.
  destruct (last (show_N n)) as [d|] eqn:E.
  - exists d. split; [done|]. pose proof (show_N_digits n) as Hd. rewrite Forall_forall in Hd. apply Hd. by apply last_Some_elem_of in E.
  - apply last_None in E. by apply show_N_nonempty in E.
Qed.

Lemma number_no_suffix p n a : last p = Some a -> is_ascii_digit a = false -> ends_with p (show_N n) = false.
Proof.
  intros Hp Ha. destruct (show_N_last n) as (d & Hd & Hdig). eapply ends_with_last; [done..|]. intros ->. congruence.
Qed.

Lemma trim_quantity n (suf : str) : Forall (fun b => graphic b = true) suf -> trim (show_N n ++ suf) = show_N n ++ suf.
Proof.
  intros Hs. apply trim_all_graphic, Forall_app. split; [|done]. eapply Forall_impl; [apply show_N_digits|]. intros b. apply digit_graphic.
Qed.

Lemma drop_last_app num suf : drop_last (length suf) (num ++ suf) = num.
Proof. unfold drop_last. rewrite length_app, Nat.add_sub. apply take_app_length. Qed.

Lemma quantity_nonempty n suf : is_empty (show_N n ++ suf) = false.
Proof. pose proof (show_N_nonempty n). by destruct (show_N n). Qed.

Lemma suffix_last p num suf a b : last p = Some a -> last suf = Some b -> a <> b -> ends_with p (num ++ suf) = false.
Proof. intros Hp Hs. apply ends_with_last; [done|]. by rewrite last_app, Hs. Qed.

(** Runs through the suffixes of [parse_cpu_quantity] and [parse_bytes_quantity]. *)
Ltac no_suffix :=
  repeat match goal with
  | |- context [ends_with ?p (show_N ?n ++ ?suf)] =>
    first
      [ rewrite (ends_with_app_le p (show_N n) suf) by (vm_compute; lia);
        let v := eval vm_compute in (ends_with p suf) in change (ends_with p suf) with v; cbv iota
      | rewrite (suffix_last p (show_N n) suf _ _ eq_refl eq_refl) by done; cbv iota ]
  | |- context [ends_with ?p (show_N ?n)] => rewrite (number_no_suffix p n _ eq_refl eq_refl); cbv iota
  end.

Section quantities.
Context `{Float64 F}.

Lemma scaled_exact n k : n * k <= 2 ^ 53 -> scaled (show_N n) (mkScale k 1) = Some (Z.of_N (n * k)).
Proof. intros Hn. destruct (f64_exact n k Hn) as (f & Hf & Hs). unfold scaled. rewrite Hf. cbn. by rewrite Hs. Qed.

Definition byte_suffixes : list (string * N) :=
  [("Ei", 1024 ^ 6); ("Pi", 1024 ^ 5); ("Ti", 1024 ^ 4); ("Gi", 1024 ^ 3); ("Mi", 1024 ^ 2); ("Ki", 1024);
   ("E", 1000 ^ 6); ("P", 1000 ^ 5); ("T", 1000 ^ 4); ("G", 1000 ^ 3); ("M", 1000 ^ 2); ("K", 1000)]%string.

Lemma bytes_plain n : n <= 2 ^ 53 -> parse_bytes_quantity (show_N n) = Some (Z.of_N n).
Proof.
  intros Hn. unfold parse_bytes_quantity. rewrite trim_show_N. cbv zeta.
  rewrite <- (app_nil_r (show_N n)), quantity_nonempty, app_nil_r. no_suffix. rewrite scaled_exact by lia. by rewrite N.mul_1_r.
Qed.

Lemma bytes_suffix (suf : string) k n : (suf, k) ∈ byte_suffixes -> n * k <= 2 ^ 53 ->
  parse_bytes_quantity (show_N n ++ bs suf) = Some (Z.of_N (n * k)).
Proof.
  intros Hin Hn. unfold parse_bytes_quantity.
  assert (Hg : Forall (fun b => graphic b = true) (bs suf)).
  { unfold byte_suffixes in Hin. rewrite !elem_of_cons, elem_of_nil in Hin.
    repeat (destruct Hin as [[= -> ->]|Hin]; [by repeat constructor|]). done. }
  rewrite trim_quantity by done. cbv zeta. rewrite quantity_nonempty.
  unfold byte_suffixes in Hin. rewrite !elem_of_cons, elem_of_nil in Hin.
  repeat (destruct Hin as [[= -> ->]|Hin];
    [no_suffix; match goal with |- scaled (drop_last ?m (_ ++ ?s)) _ = _ => change m with (length s) end;
     rewrite drop_last_app; by apply scaled_exact|]).
  done.
Qed.

(** Whole quantities are read exactly as long as they have 53 bits.  A number of bytes,
    or of one of the twelve units, is that many bytes; a number of cores is that many
    times 1000 millicores, and one with an [m] that many. *)
Theorem quantities_exact n :
  (n <= 2 ^ 53 -> parse_bytes_quantity (show_N n) = Some (Z.of_N n) /\ parse_cpu_quantity (show_N n ++ bs "m") = Some (Z.of_N n)) /\
  (n * 1000 <= 2 ^ 53 -> parse_cpu_quantity (show_N n) = Some (Z.of_N (n * 1000))) /\
  forall suf k, (suf, k) ∈ byte_suffixes -> n * k <= 2 ^ 53 -> parse_bytes_quantity (show_N n ++ bs suf) = Some (Z.of_N (n * k)).
Proof.
  split_and!.
  - intros Hn. split; [by apply bytes_plain|]. unfold parse_cpu_quantity.
    rewrite trim_quantity by (by repeat constructor). cbv zeta. rewrite quantity_nonempty. no_suffix.
    change 1%nat with (length (bs "m")). rewrite drop_last_app, scaled_exact by lia. by rewrite N.mul_1_r.
  - intros Hn. unfold parse_cpu_quantity. rewrite trim_show_N. cbv zeta.
    rewrite <- (app_nil_r (show_N n)), quantity_nonempty, app_nil_r. no_suffix. by apply scaled_exact.
  - intros suf k. apply bytes_suffix.
Qed.

(** The units that Kubernetes has for a thousand and for a thousandth are not read: such
    a quantity counts as nothing. *)
Theorem kilo_and_milli_not_read n :
  parse_bytes_quantity (show_N n ++ bs "k") = None /\ parse_bytes_quantity (show_N n ++ bs "m") = None /\
  parse_cpu_quantity (show_N n ++ bs "k") = None.
Proof.
  assert (Hno : forall s k a, last s = Some a -> is_ascii_digit a = false -> a ∉ bs ".fFyYnN" -> scaled s k = None).
  { intros s k a Hl Hd Hin. unfold scaled. destruct (f64_parse s) as [f|] eqn:Ef; [|done]. exfalso.
    destruct (f64_grammar _ _ Ef) as (b & Hb & [?|?]); congruence. }
  unfold parse_bytes_quantity, parse_cpu_quantity. rewrite !trim_quantity by (by repeat constructor). cbv zeta. rewrite !quantity_nonempty.
  split_and!; no_suffix; (eapply Hno; [exact (last_snoc _ (show_N n))|done|by apply (bool_decide_unpack _); vm_compute]).
Qed.

End quantities.

(** ** Sums *)

Lemma i64_add_exact a b : (i64_min <= a + b <= i64_max)%Z -> i64_add a b = (a + b)%Z.
Proof. unfold i64_min, i64_max, i64_add. intros Hr. rewrite Z.mod_small by lia. lia. Qed.

(** What an element adds: nothing when it has no quantity or one that is not read. *)
Definition amount {A} (parse : str -> option Z) (get : A -> option str) (a : A) : Z := default 0%Z (get a ≫= parse).
Definition sum_Z (l : list Z) : Z := foldr Z.add 0%Z l.

Lemma sum_Z_nonneg l : Forall (fun z => (0 <= z)%Z) l -> (0 <= sum_Z l)%Z.
Proof. unfold sum_Z. induction 1 as [|z l Hz _ IH]; cbn; lia. Qed.

Lemma total_from {A} (parse : str -> option Z) (get : A -> option str) l t : (0 <= t)%Z ->
  Forall (fun a => 0 <= amount parse get a)%Z l -> (t + sum_Z (amount parse get <$> l) <= i64_max)%Z ->
  foldl (fun t a => add_quantity parse t (get a)) t l = (t + sum_Z (amount parse get <$> l))%Z.
Proof.
  intros Ht Hl. revert t Ht. induction Hl as [|a l Ha Hl IH]; intros t Ht Hs; [cbn; lia|].
  assert (Hn : (0 <= sum_Z (amount parse get <$> l))%Z) by (by apply sum_Z_nonneg, Forall_fmap).
  change (sum_Z (amount parse get <$> a :: l)) with (amount parse get a + sum_Z (amount parse get <$> l))%Z in *.
  cbn [foldl]. assert (Hadd : add_quantity parse t (get a) = (t + amount parse get a)%Z).
  { unfold add_quantity, amount in *. destruct (get a ≫= parse) as [v|]; cbn [default from_option id] in *; [|lia].
    apply i64_add_exact. unfold i64_min. lia. }
  rewrite Hadd, IH by lia. lia.
Qed.

(** The totals of the summary are sums over the containers of the pods that run or wait,
    and over the nodes, as long as the quantities are not negative and the sum fits. *)
Theorem summary_totals `{Float64 F} nodes pods :
  let exact {A} (parse : str -> option Z) (get : A -> option str) (l : list A) (total : Z) :=
    Forall (fun a => 0 <= amount parse get a)%Z l -> (sum_Z (amount parse get <$> l) <= i64_max)%Z -> total = sum_Z (amount parse get <$> l) in
  let s := summary nodes pods in
  let cs := pod_containers pods in
  exact parse_cpu_quantity (request "cpu") cs (cpu_requests s) /\ exact parse_bytes_quantity (request "memory") cs (memory_requests s) /\
  exact parse_cpu_quantity (limit "cpu") cs (cpu_limits s) /\ exact parse_bytes_quantity (limit "memory") cs (memory_limits s) /\
  exact parse_cpu_quantity (allocatable_of "cpu") nodes (cpu_allocatable s) /\
  exact parse_bytes_quantity (allocatable_of "memory") nodes (memory_allocatable s) /\
  (forall c, c ∈ cs <-> exists p sp, p ∈ pods /\ counts_resources p = true /\ pod_spec p = Some sp /\ c ∈ ps_containers sp).
Proof.
  cbv zeta. split_and!; try (intros Hl Hs; rewrite <- (Z.add_0_l (sum_Z _)); apply total_from; [done|exact Hl|lia]).
  intros c. unfold pod_containers. rewrite list_elem_of_join. split.
  - intros (l & Hc & Hl). apply list_elem_of_fmap in Hl as (p & -> & Hp). apply list_elem_of_filter in Hp as [Hr Hp].
    destruct (pod_spec p) as [sp|] eqn:Es; [|by apply elem_of_nil in Hc]. by exists p, sp.
  - intros (p & sp & Hp & Hr & Es & Hc). exists (ps_containers sp). split; [done|]. apply list_elem_of_fmap. exists p. rewrite Es.
    split; [done|]. by apply list_elem_of_filter.
Qed.

(** ** Events *)

#[export] Instance opt_str_leb_trans : Transitive (fun a b => opt_str_leb b a = true).
Proof. intros [x|] [y|] [z|]; cbn; try done. intros Hxy Hyz. by apply (str_leb_trans z y x). Qed.

Lemma opt_str_leb_total a b : opt_str_leb a b = true \/ opt_str_leb b a = true.
Proof. destruct a, b; cbn; auto. apply str_leb_total. Qed.

(** At most twenty events show, the newest first, and none that is left out is newer than
    one that shows. *)
Theorem newest_events (l : list VEvent) :
  exists rest, event_row <$> l ≡ₚ event_rows l ++ rest /\ (length (event_rows l) = min 20 (length l))%nat /\
    StronglySorted (fun a b => opt_str_leb (er_created_at b) (er_created_at a) = true) (event_rows l) /\
    forall x y, x ∈ event_rows l -> y ∈ rest -> opt_str_leb (er_created_at y) (er_created_at x) = true.
Proof.
  unfold event_rows. set (leb := fun a b => opt_str_leb (er_created_at b) (er_created_at a)). set (s := sort_by leb (event_row <$> l)).
  assert (Hp : s ≡ₚ event_row <$> l) by apply sort_by_perm.
  assert (Hs : StronglySorted (fun a b => leb a b = true) s).
  { apply sort_by_sorted; [intros a b; unfold leb; apply opt_str_leb_total|]. intros a b c Hab Hbc. by eapply (opt_str_leb_trans _ _ _ Hab). }
  exists (drop 20 s). split_and!.
  - by rewrite take_drop, Hp.
  - rewrite length_take. apply Permutation_length in Hp. by rewrite Hp, length_fmap.
  - rewrite <- (take_drop 20 s) in Hs. by apply StronglySorted_app_1_l in Hs.
  - intros x y Hx Hy. rewrite <- (take_drop 20 s) in Hs. by apply (StronglySorted_app_1_elem_of _ _ _ _ _ Hs).
Qed.

(** ** A model of [f64] for the witnesses: whole numbers *)

Definition toy_scaled (n : N) (k : Scale) : Z := Z.min i64_max (Z.of_N (n * sc_num k / sc_den k)).

#[export] Instance toy_float : Float64 N.
Proof.
  refine {| f64_parse s := if is_empty s then None else parse_digits 0 s; f64_scaled := toy_scaled |}.
  - intros s f Hs. destruct (last s) as [b|] eqn:El; [|apply last_None in El; by subst].
    exists b. split; [done|]. left. destruct (is_empty s); [done|]. apply parse_digits_all in Hs. rewrite Forall_forall in Hs.
    apply Hs. by apply last_Some_elem_of in El.
  - intros n k Hn. exists n. pose proof (show_N_nonempty n) as Hne. split; [destruct (show_N n) eqn:E; [done|cbn [is_empty]; rewrite <- E; apply parse_digits_show]|].
    unfold toy_scaled. cbn [sc_num sc_den]. rewrite N.div_1_r. apply Z.min_r. unfold i64_max. change (2 ^ 53) with 9007199254740992 in Hn. lia.
  - intros f k. unfold toy_scaled, i64_min, i64_max. pose proof (N2Z.is_nonneg (f * sc_num k / sc_den k)) as Hz.
    split; [apply Z.min_glb; lia|apply Z.le_min_l].
Defined.

Lemma quantities_exact_witness : parse_bytes_quantity "64Ki" = Some 65536%Z /\ parse_cpu_quantity "250m" = Some 250%Z.
Proof.
  split.
  - refine (proj2 (proj2 (quantities_exact (F := N) 64)) "Ki"%string 1024 _ _); [by do 5 right; left|vm_compute; discriminate].
  - refine (proj2 (proj1 (quantities_exact (F := N) 250) _)). vm_compute; discriminate.
Defined.

Definition a_secret (value : str) : VSecret :=
  mkVSecret (mkVMeta (Some (bs "db")) None None None) None (Some {[ bs "password" := value ]}).
Definition no_lists : ClusterLists := mkClusterLists (Ok []) (fun _ => Ok []) (Ok []) (Ok []) (fun _ => Ok []) (fun _ => Ok []) (fun _ => Ok []) (fun _ => Ok []) (Ok []).

Lemma secret_values_not_shown_witness :
  kubernetes_secrets (fun _ => (None, None)) true true (with_secrets (fun _ => Ok [a_secret "hunter2"]) no_lists) None =
  kubernetes_secrets (fun _ => (None, None)) true true (with_secrets (fun _ => Ok [a_secret "letmein"]) no_lists) None.
Proof.
  refine (f_equal fst (secret_values_not_shown (fun _ => (None, None)) true true no_lists None [a_secret "hunter2"] [a_secret "letmein"] _)).
  constructor; [|constructor]. split; [done|done| |by vm_compute].
  intros k. destruct (decide (k = bs "password")) as [->|Hne]; [done|]. cbn [a_secret sec_data]. by rewrite !lookup_singleton_ne by congruence.
Defined.
