(* ===== verification/Live.v ===== *)
(** * Live updates of the management interface (api/ws.rs)

    A client subscribes to channels over a web socket, or names them in a request for a
    stream of events.  Each connection takes one of 64 slots.  A channel's snapshot is
    sent when it is due and has changed.  Over a web socket two tasks push: one reads the
    client's messages, one runs a timer; their steps interleave. *)

From S2P Require Import Prelude RustStr Ip GeoIp Waf Bot Captcha Security Edge EdgeAuth ProxyConfig Router Forward Apply.
From S2P Require Import Http Telemetry CertStore H3 Database Admin AutoSsl Settings Readout KubeView.

(** ** Channels *)

Inductive Channel : Type := ChManagement | ChMetrics | ChLogs | ChConfig | ChCertificates | ChRoutes | ChTunnel | ChPods.
#[export] Instance Channel_eq_dec : EqDecision Channel.
Proof. solve_decision. Defined.

Definition channel_parse (name : str) : option Channel :=
  if name =s "management" then Some ChManagement
  else if name =s "metrics" then Some ChMetrics
  else if name =s "logs" then Some ChLogs
  else if name =s "config" then Some ChConfig
  else if name =s "certificates" then Some ChCertificates
  else if name =s "routes" then Some ChRoutes
  else if name =s "tunnel" then Some ChTunnel
  else if name =s "pods" then Some ChPods
  else None.

Definition channel_str (c : Channel) : str :=
  match c with
  | ChManagement => bs "management" | ChMetrics => bs "metrics" | ChLogs => bs "logs" | ChConfig => bs "config"
  | ChCertificates => bs "certificates" | ChRoutes => bs "routes" | ChTunnel => bs "tunnel" | ChPods => bs "pods"
  end.

Lemma channel_str_parse c : channel_parse (channel_str c) = Some c.
Proof. by destruct c. Qed.

#[export] Instance channel_countable : Countable Channel := inj_countable channel_str channel_parse channel_str_parse.

(** In milliseconds. *)
Definition channel_interval (c : Channel) : N :=
  match c with
  | ChManagement | ChMetrics | ChLogs => 3000
  | ChConfig | ChCertificates | ChRoutes => 5000
  | ChTunnel | ChPods => 10000
  end.

(** [collect] into a set; the order of a set of channels is a parameter where it matters. *)
Definition parse_channels (raw : option str) : gset Channel :=
  list_to_set (omap (fun c => channel_parse (trim c)) (split_on "," (default [] raw))).

(** ** Slots *)

Definition MAX_LIVE_CONNECTIONS : N := 64.

(** The first atomic step of [acquire_live_slot]: whether there was room, and the
    counter, which is taken back in a second step when there was none. *)
Definition acquire_add (live : N) : bool * N := (live <? MAX_LIVE_CONNECTIONS, (live + 1) mod u64_size).
Definition fetch_sub (live : N) : N := (live + (u64_size - 1)) mod u64_size.
Definition release_live_slot (live : N) : N := fetch_sub live.

(** Both steps at once. *)
Definition acquire_live_slot (live : N) : bool * N :=
  let '(ok, live) := acquire_add live in (ok, if ok then live else fetch_sub live).

(** *** Many connections

    Each connection under way is being refused or holds its slot; their steps
    interleave.  A connection whose upgrade fails is gone without running the code that
    gives the slot back: [sl_lost] counts such slots. *)
Inductive Place : Type := Refusing | Holding.

Record Slots := mkSlots { sl_live : N; sl_conns : list Place; sl_lost : nat }.

Inductive slot_step : Slots -> Slots -> Prop :=
| slot_admit live live' conns n : acquire_add live = (true, live') ->
    slot_step (mkSlots live conns n) (mkSlots live' (Holding :: conns) n)
| slot_refuse live live' conns n : acquire_add live = (false, live') ->
    slot_step (mkSlots live conns n) (mkSlots live' (Refusing :: conns) n)
| slot_refused live a b n : slot_step (mkSlots live (a ++ Refusing :: b) n) (mkSlots (fetch_sub live) (a ++ b) n)
| slot_release live a b n : slot_step (mkSlots live (a ++ Holding :: b) n) (mkSlots (release_live_slot live) (a ++ b) n)
| slot_upgrade_failed live a b n : slot_step (mkSlots live (a ++ Holding :: b) n) (mkSlots live (a ++ b) (S n)).

Definition slots_new : Slots := mkSlots 0 [] 0.

(** ** Messages *)

Record LogsQuery := mkLogsQuery { lq_type : option str; lq_host : option str }.
Definition logs_query_default : LogsQuery := mkLogsQuery None None.

Inductive ClientMsg : Type :=
| Subscribe (channels : list str)
| Unsubscribe (channels : list str)
| LogsFilter (log_type host : option str).

(** JSON: values of the answers, the texts of messages, and the messages of a client.
    [F] is [f32], [V] a JSON value. *)
Class LiveJson (F V : Type) := {
  js_management : ManagementInfo F -> result str V;
  js_metrics : MetricsResponse -> result str V;
  js_logs : list ProxyLogEntry -> result str V;
  js_config : Config -> result str V;
  js_certificates : list CertificateRow -> result str V;
  js_routes : RoutesResponse -> result str V;
  js_pods : list K8sPodRow -> result str V;
  js_empty : V;
  data_text : str -> V -> str;
  error_text : str -> str -> str;
  plain_error_text : str -> str;
  client_msg : str -> result str ClientMsg;
}.

(** ** Snapshots *)

Section snapshot.
Context `{Crypto} `{Formats} `{LiveJson F V} `{Float64 FL}.
Variable scan : list CertRow -> list CertRow.
Variable to_lowercase : str -> str.
Variable iter_routes : gmap str (list Route) -> list (str * list Route).
Variable db_text : DbError -> str.
Variable E : AdminEnv.
Variable P : Process.
Variable m : Machine F.
Variable geo : LoadedEngine.
Variable metrics : ProxyMetrics.
Variable fetch : str -> result str (N * result str V).
Variable has_client : bool.
Variable L : ClusterLists.

Definition snapshot_channel (c : Channel) (q : LogsQuery) (s : Admin) : result str V * Admin :=
  match c with
  | ChManagement => (js_management (build_management_info iter_routes E P m geo s), s)
  | ChMetrics => (js_metrics (build_metrics_response E P metrics s), s)
  | ChLogs => (js_logs (build_logs_entries to_lowercase E (lq_type q) (lq_host q) s), s)
  | ChConfig => let '(cfg, s) := build_config scan s in (js_config cfg, s)
  | ChCertificates =>
    let '(r, s) := build_certificates scan db_text s in (match r with Ok rows => js_certificates rows | Err e => Err e end, s)
  | ChRoutes => (js_routes (build_routes_response iter_routes s), s)
  | ChTunnel => (fetch_tunnel_status_value P fetch, s)
  | ChPods =>
    (if pr_ingress_build P then
       match list_pods_rows (ae_viewer_mode E) has_client L None with
       | Ok None => Ok js_empty
       | Ok (Some rows) => js_pods rows
       | Err e => Err e
       end
     else Ok js_empty, s)
  end.

End snapshot.

(** ** Pushing over a web socket *)

Record ConnState := mkConnState {
  cs_channels : gset Channel;
  cs_filter : LogsQuery;
  cs_payload : gmap Channel str;
  cs_sent_at : gmap Channel N;
}.

Definition conn_new : ConnState := mkConnState ∅ logs_query_default ∅ ∅.

Definition sent_now (c : Channel) (now : N) (st : ConnState) : ConnState :=
  mkConnState (cs_channels st) (cs_filter st) (cs_payload st) (<[c := now]> (cs_sent_at st)).
Definition payload_now (c : Channel) (text : str) (now : N) (st : ConnState) : ConnState :=
  mkConnState (cs_channels st) (cs_filter st) (<[c := text]> (cs_payload st)) (<[c := now]> (cs_sent_at st)).
(** What was sent on a channel is forgotten. *)
Definition forget (c : Channel) (st : ConnState) : ConnState :=
  mkConnState (cs_channels st) (cs_filter st) (delete c (cs_payload st)) (delete c (cs_sent_at st)).
Definition with_channels (s : gset Channel) (st : ConnState) : ConnState :=
  mkConnState s (cs_filter st) (cs_payload st) (cs_sent_at st).
Definition with_filter (q : LogsQuery) (st : ConnState) : ConnState :=
  mkConnState (cs_channels st) q (cs_payload st) (cs_sent_at st).

Definition is_due (now : N) (sent_at : gmap Channel N) (c : Channel) : bool :=
  from_option (fun t => channel_interval c <=? now - t) true (sent_at !! c).

(** Where a task is in [push_channel]: the lock is not held between these. *)
Inductive Task : Type :=
| Idle
| Checked (c : Channel) (force : bool) (q : LogsQuery)
| Sending (c : Channel) (text : str) (failed : bool).

Section push.
Context `{LiveJson F V}.

(** A message and the channel it is about. *)
Definition Out : Type := Channel * str.

Definition push_check (c : Channel) (force : bool) (st : ConnState) : Task :=
  if decide (c ∈ cs_channels st) then Checked c force (cs_filter st) else Idle.

(** [snap] is [snapshot_channel] at the time of the call. *)
Definition push_snapshot (snap : Channel -> LogsQuery -> result str V) (now : N) (c : Channel) (force : bool) (q : LogsQuery) (st : ConnState)
    : Task * ConnState :=
  match snap c q with
  | Err e => (Sending c (error_text (channel_str c) e) true, st)
  | Ok v =>
    let payload := data_text (channel_str c) v in
    if negb force && bool_decide (cs_payload st !! c = Some payload) then (Idle, sent_now c now st)
    else (Sending c payload false, payload_now c payload now st)
  end.

(** The message is in the channel to the writer. *)
Definition push_sent (now : N) (c : Channel) (failed : bool) (st : ConnState) : ConnState := if failed then sent_now c now st else st.

(** The three in a row; [open]: the writer still receives.  The messages are appended. *)
Definition push_channel (snap : Channel -> LogsQuery -> result str V) (open : bool) (now : N) (c : Channel) (force : bool) (st : ConnState)
    (out : list Out) : result str unit * ConnState * list Out :=
  match push_check c force st with
  | Checked c force q =>
    match push_snapshot snap now c force q st with
    | (Sending c text failed, st) =>
      if open then (Ok tt, push_sent now c failed st, out ++ [(c, text)]) else (Err (bs "websocket closed"), st, out)
    | (_, st) => (Ok tt, st, out)
    end
  | _ => (Ok tt, st, out)
  end.

Fixpoint push_all (snap : Channel -> LogsQuery -> result str V) (open : bool) (now : N) (force : bool) (cs : list Channel) (st : ConnState)
    (out : list Out) : result str unit * ConnState * list Out :=
  match cs with
  | [] => (Ok tt, st, out)
  | c :: cs =>
    match push_channel snap open now c force st out with
    | (Ok _, st, out) => push_all snap open now force cs st out
    | r => r
    end
  end.

(** The channels that are due, in the order [iter] of the set. *)
Definition push_due_channels (snap : Channel -> LogsQuery -> result str V) (iter : gset Channel -> list Channel) (open : bool) (now : N)
    (st : ConnState) (out : list Out) : result str unit * ConnState * list Out :=
  push_all snap open now false (filter (fun c => is_due now (cs_sent_at st) c = true) (iter (cs_channels st))) st out.

Definition named_channels (names : list str) : list Channel := omap (fun c => channel_parse (trim c)) names.

Definition subscribe (cs : list Channel) (st : ConnState) : ConnState :=
  foldl (fun st c => forget c (with_channels ({[c]} ∪ cs_channels st) st)) st cs.
Definition unsubscribe (cs : list Channel) (st : ConnState) : ConnState :=
  foldl (fun st c => forget c (with_channels (cs_channels st ∖ {[c]}) st)) st cs.
Definition set_filter (q : LogsQuery) (st : ConnState) : ConnState := forget ChLogs (with_filter q st).

Definition handle_client_text (snap : Channel -> LogsQuery -> result str V) (open : bool) (now : N) (text : str) (st : ConnState) (out : list Out)
    : result str unit * ConnState * list Out :=
  match client_msg text with
  | Err e => (Err (bs "invalid message: " ++ e), st, out)
  | Ok (Subscribe names) =>
    let cs := named_channels names in push_all snap open now true cs (subscribe cs st) out
  | Ok (Unsubscribe names) => (Ok tt, unsubscribe (named_channels names) st, out)
  | Ok (LogsFilter log_type host) =>
    let st := set_filter (mkLogsQuery log_type host) st in
    if decide (ChLogs ∈ cs_channels st) then push_channel snap open now ChLogs true st out else (Ok tt, st, out)
  end.

(** *** The two tasks *)

Record Socket := mkSocket { so_st : ConnState; so_out : list Out; so_reader : Task; so_ticker : Task }.

Definition socket_new : Socket := mkSocket conn_new [] Idle Idle.

(** The steps of [handle_socket]'s tasks, each under the lock or one message.  The reader
    pushes with force, the timer what is due. *)
Inductive socket_step : Socket -> Socket -> Prop :=
| so_subscribe cs st out t : socket_step (mkSocket st out Idle t) (mkSocket (subscribe cs st) out Idle t)
| so_unsubscribe cs st out t : socket_step (mkSocket st out Idle t) (mkSocket (unsubscribe cs st) out Idle t)
| so_filter q st out t : socket_step (mkSocket st out Idle t) (mkSocket (set_filter q st) out Idle t)
| so_reader_check c st out t : socket_step (mkSocket st out Idle t) (mkSocket st out (push_check c true st) t)
| so_reader_snapshot snap now c force q st st' out r' t : push_snapshot snap now c force q st = (r', st') ->
    socket_step (mkSocket st out (Checked c force q) t) (mkSocket st' out r' t)
| so_reader_send now c text failed st out t :
    socket_step (mkSocket st out (Sending c text failed) t) (mkSocket (push_sent now c failed st) (out ++ [(c, text)]) Idle t)
| so_ticker_check now c st out r : is_due now (cs_sent_at st) c = true ->
    socket_step (mkSocket st out r Idle) (mkSocket st out r (push_check c false st))
| so_ticker_snapshot snap now c force q st st' out r t' : push_snapshot snap now c force q st = (t', st') ->
    socket_step (mkSocket st out r (Checked c force q)) (mkSocket st' out r t')
| so_ticker_send now c text failed st out r :
    socket_step (mkSocket st out r (Sending c text failed)) (mkSocket (push_sent now c failed st) (out ++ [(c, text)]) r Idle).

(** ** The stream of events *)

Record Sse := mkSse { ss_payload : gmap Channel str; ss_sent_at : gmap Channel N; ss_events : list Out }.
Definition sse_new : Sse := mkSse ∅ ∅ [].

Definition channel_payload (snap : Channel -> LogsQuery -> result str V) (c : Channel) (q : LogsQuery) : str :=
  match snap c q with Ok v => data_text (channel_str c) v | Err e => error_text (channel_str c) e end.

(** The event, when there is one, and what is remembered. *)
Definition channel_event (snap : Channel -> LogsQuery -> result str V) (c : Channel) (q : LogsQuery) (force : bool) (last : gmap Channel str)
    : option str * gmap Channel str :=
  let payload := channel_payload snap c q in
  if negb force && bool_decide (last !! c = Some payload) then (None, last) else (Some payload, <[c := payload]> last).

(** One channel of a round; [None] when the receiver is gone, which only a send finds out. *)
Definition sse_channel (snap : Channel -> LogsQuery -> result str V) (q : LogsQuery) (open : bool) (now : N) (force : bool) (c : Channel) (s : Sse)
    : option Sse :=
  let '(event, last) := channel_event snap c q force (ss_payload s) in
  let sent_at := <[c := now]> (ss_sent_at s) in
  match event with
  | Some text => if open then Some (mkSse last sent_at (ss_events s ++ [(c, text)])) else None
  | None => Some (mkSse last sent_at (ss_events s))
  end.

(** [now] is the time of the round, [stamp] the time each channel's snapshot is there. *)
Fixpoint sse_round (snap : Channel -> LogsQuery -> result str V) (q : LogsQuery) (open : bool) (now : N) (stamp : Channel -> N) (force : bool)
    (cs : list Channel) (s : Sse) : option Sse :=
  match cs with
  | [] => Some s
  | c :: cs =>
    if force || is_due now (ss_sent_at s) c
    then s ← sse_channel snap q open (stamp c) force c s; sse_round snap q open now stamp force cs s
    else sse_round snap q open now stamp force cs s
  end.

(** What a round meets: the snapshots, whether the receiver is there, its time, and the
    times at which the snapshots are there. *)
Record Tick := mkTick { tk_snap : Channel -> LogsQuery -> result str V; tk_open : bool; tk_now : N; tk_stamp : Channel -> N }.

(** The first events, then the ticks of the timer; [None] when the task has ended and its
    slot is free. *)
Fixpoint sse_ticks (q : LogsQuery) (cs : list Channel) (ticks : list Tick) (s : Sse) : option Sse :=
  match ticks with
  | [] => Some s
  | t :: ticks => s ← sse_round (tk_snap t) q (tk_open t) (tk_now t) (tk_stamp t) false cs s; sse_ticks q cs ticks s
  end.

Definition sse_stream (q : LogsQuery) (cs : list Channel) (first : Tick) (ticks : list Tick) : option Sse :=
  s ← sse_round (tk_snap first) q (tk_open first) (tk_now first) (tk_stamp first) true cs sse_new; sse_ticks q cs ticks s.

End push.

(** ** Handlers *)

Section handlers.
Context `{Crypto} `{Formats}.
Variable E : AdminEnv.

Definition authorize_live (token : option str) (header : str -> option str) (s : Admin) : bool * Admin :=
  let token := or_else (opt_filter (fun t => negb (is_empty t)) (trim <$> token)) (extract_bearer header) in
  is_token_authorized E token s.

(** What a request for a live connection leads to. *)
Inductive LiveAnswer : Type :=
| LiveRefused (status : N) (text : str)
| LiveSocket
| LiveStream (channels : gset Channel) (q : LogsQuery).

Definition ws_handler (token : option str) (header : str -> option str) (live : N) (s : Admin) : LiveAnswer * N * Admin :=
  let '(ok, s) := authorize_live token header s in
  if negb ok then (LiveRefused 401 "unauthorized", live, s)
  else
    let '(ok, live) := acquire_live_slot live in
    (if ok then LiveSocket else LiveRefused 503 "too many live connections", live, s).

Definition live_sse_handler (token channels : option str) (q : LogsQuery) (header : str -> option str) (live : N) (s : Admin)
    : LiveAnswer * N * Admin :=
  let '(ok, s) := authorize_live token header s in
  if negb ok then (LiveRefused 401 "unauthorized", live, s)
  else
    let '(ok, live) := acquire_live_slot live in
    if negb ok then (LiveRefused 503 "too many live connections", live, s)
    else
      let cs := parse_channels channels in
      if decide (cs = ∅) then (LiveRefused 400 "channels required", release_live_slot live, s)
      else (LiveStream cs q, live, s).

End handlers.
