(* ===== verification/LiveProps.v ===== *)
(** * What live connections guarantee

    Theorems about [Live]: the limit on connections under every interleaving and how it
    is used up; what a client of each kind has last received; when a stream that nobody
    reads ends. *)

From S2P Require Import Prelude RustStr Ip GeoIp Waf Bot Captcha Security Edge EdgeAuth ProxyConfig Router Forward Apply.
From S2P Require Import Http Telemetry CertStore H3 Database Admin AutoSsl Settings Readout KubeView Live.

(** ** Slots *)

(** What the counter should be: the connections under way and the slots that are lost. *)
Definition taken (s : Slots) : nat := (length (sl_conns s) + sl_lost s)%nat.

(** Steps with fewer than 2^64 slots taken. *)
Definition slots_run (a b : Slots) : Prop := slot_step a b /\ N.of_nat (taken b) < u64_size.

#[export] Instance Place_eq_dec : EqDecision Place.
Proof. solve_decision. Defined.

(** The open connections. *)
Definition held (conns : list Place) : nat := length (filter (fun p => p = Holding) conns).

Lemma held_app a b : held (a ++ b) = (held a + held b)%nat.
Proof. unfold held. by rewrite filter_app, length_app. Qed.
Lemma held_cons p l : held (p :: l) = ((if decide (p = Holding) then 1 else 0) + held l)%nat.
Proof. by destruct p. Qed.
Lemma held_le_length conns : (held conns <= length conns)%nat.
Proof. unfold held. apply length_filter. Qed.

(** The counter is exact, and no more than 64 slots are open or lost. *)
Definition slots_ok (s : Slots) : Prop :=
  sl_live s = N.of_nat (taken s) /\ N.of_nat (taken s) < u64_size /\ (held (sl_conns s) + sl_lost s <= 64)%nat.

Lemma add_small n : n + 1 < u64_size -> (n + 1) mod u64_size = n + 1.
Proof. apply N.mod_small. Qed.
Lemma fetch_sub_succ n : n < u64_size -> fetch_sub (n + 1) = n.
Proof.
  intros Hn. unfold fetch_sub. replace (n + 1 + (u64_size - 1)) with (n + 1 * u64_size) by (unfold u64_size in *; lia).
  rewrite N.Div0.mod_add. by apply N.mod_small.
Qed.

Lemma slots_ok_step s s' : slots_ok s -> slots_run s s' -> slots_ok s'.
Proof.
  intros (Hlive & Hb & Hh) [Hs Hb']. unfold slots_ok, taken in *. destruct Hs as [live live' conns n He|live live' conns n He|live a b n|live a b n|live a b n];
    cbn [sl_live sl_conns sl_lost] in *; subst live; (split_and!; [|done|]).
  - injection He as _ <-. cbn [length] in *. rewrite add_small; lia.
  - injection He as Hl _. apply N.ltb_lt in Hl. unfold MAX_LIVE_CONNECTIONS in Hl.
    rewrite held_cons. pose proof (held_le_length conns). rewrite decide_True by done. lia.
  - injection He as _ <-. cbn [length] in *. rewrite add_small; lia.
  - by rewrite held_cons.
  - rewrite !length_app in *. cbn [length] in *. rewrite <- (fetch_sub_succ (N.of_nat (length a + length b + n))) by lia. f_equal. lia.
  - rewrite !held_app, held_cons in *. cbn in Hh. lia.
  - unfold release_live_slot. rewrite !length_app in *. cbn [length] in *.
    rewrite <- (fetch_sub_succ (N.of_nat (length a + length b + n))) by lia. f_equal. lia.
  - rewrite !held_app, held_cons in *. rewrite decide_True in Hh by done. lia.
  - rewrite !length_app in *. cbn [length] in *. lia.
  - rewrite !held_app, held_cons in *. rewrite decide_True in Hh by done. lia.
Qed.

Lemma slots_ok_new : slots_ok slots_new.
Proof. split_and!; cbn; [done|unfold u64_size; lia|lia]. Qed.

Lemma slots_ok_run s s' : slots_ok s -> rtc slots_run s s' -> slots_ok s'.
Proof. intros Hs Hr. induction Hr as [|a b c Hab _ IH]; [done|]. apply IH. by eapply slots_ok_step. Qed.

Lemma lost_run s s' : rtc slots_run s s' -> (sl_lost s <= sl_lost s')%nat.
Proof. induction 1 as [|a b c [Hab _] _ IH]; [done|]. destruct Hab; cbn [sl_lost] in *; lia. Qed.

(** C35: Never more than 64 live connections, however requests interleave.  In every
    state that the two atomic steps of taking a slot, giving one back and failing
    upgrades can reach, the counter is the connections that are open or being refused and,
    besides, the slots that failed upgrades have lost; the open connections and the lost
    slots are at most 64 together; a request is admitted exactly when the counter is below
    64; and a lost slot is lost in every later state. *)
Theorem live_limit s : rtc slots_run slots_new s ->
  sl_live s = N.of_nat (length (sl_conns s) + sl_lost s) /\
  (held (sl_conns s) + sl_lost s <= 64)%nat /\
  ((acquire_add (sl_live s)).1 = true <-> (length (sl_conns s) + sl_lost s < 64)%nat) /\
  forall s', rtc slots_run s s' -> (sl_lost s <= sl_lost s')%nat.
Proof.
  intros Hr. destruct (slots_ok_run _ _ slots_ok_new Hr) as (Hl & _ & Hh). split_and!; [done|done| |apply lost_run]. rewrite Hl.
  cbn [acquire_add fst]. rewrite N.ltb_lt. unfold MAX_LIVE_CONNECTIONS, taken. lia.
Qed.

Lemma live_limit_witness : let s := mkSlots 1 [Holding] 0 in
  sl_live s = 1 /\ (held (sl_conns s) + sl_lost s <= 64)%nat /\
  ((acquire_add (sl_live s)).1 = true <-> (length (sl_conns s) + sl_lost s < 64)%nat).
Proof.
  intros s. destruct (live_limit s) as (H1 & H2 & H3 & _); [|split; [exact H1|split; [exact H2|exact H3]]].
  eapply rtc_l; [|apply rtc_refl]. split; [by apply slot_admit|vm_compute; reflexivity].
Defined.

(** *** Upgrades that fail *)

Definition lost_slots (n : nat) : Slots := mkSlots (N.of_nat n) [] n.

Lemma lose_one n : (n < 64)%nat -> rtc slots_run (lost_slots n) (lost_slots (S n)).
Proof.
  intros Hn. eapply (rtc_l _ _ (mkSlots (N.of_nat (S n)) [Holding] n)).
  - split; [|unfold taken; cbn [sl_conns length sl_lost]; unfold u64_size; lia].
    apply slot_admit. unfold acquire_add, MAX_LIVE_CONNECTIONS. f_equal; [apply N.ltb_lt; lia|]. rewrite add_small; unfold u64_size; lia.
  - eapply rtc_l; [|apply rtc_refl]. split; [|unfold taken; cbn [sl_conns lost_slots sl_lost length]; unfold u64_size; lia].
    apply (slot_upgrade_failed _ [] []).
Qed.

Lemma lose_all n : (n <= 64)%nat -> rtc slots_run slots_new (lost_slots n).
Proof. induction n as [|n IH]; intros Hn; [apply rtc_refl|]. etrans; [apply IH; lia|]. apply lose_one. lia. Qed.

(** Sixty-four upgrades that fail use up the limit for good: a state is reached in which
    no connection is open or under way, and in every later one a request is refused. *)
Theorem failed_upgrades_use_up_slots : exists s,
  rtc slots_run slots_new s /\ sl_conns s = [] /\
  forall s', rtc slots_run s s' -> (acquire_add (sl_live s')).1 = false.
Proof.
  exists (lost_slots 64). split_and!; [by apply lose_all|done|]. intros s' Hr.
  destruct (slots_ok_run _ s' slots_ok_new) as (Hl & _ & _); [etrans; [by apply lose_all|exact Hr]|].
  apply lost_run in Hr. cbn [lost_slots sl_lost] in Hr. cbn. apply N.ltb_ge. unfold MAX_LIVE_CONNECTIONS, taken in *. lia.
Qed.

(** ** What a client has last received *)

(** The last message on a channel. *)
Definition view (out : list Out) (c : Channel) : option str := snd <$> last (filter (fun m => m.1 = c) out).

Lemma view_snoc_same out c text : view (out ++ [(c, text)]) c = Some text.
Proof. unfold view. rewrite filter_app, filter_cons_True by done. by rewrite filter_nil, last_snoc. Qed.
Lemma view_snoc_other out c c' text : c' <> c -> view (out ++ [(c, text)]) c' = view out c'.
Proof. intros Hne. unfold view. rewrite filter_app, filter_cons_False by (intros <-; by apply Hne). by rewrite filter_nil, app_nil_r. Qed.

Section streams.
Context `{LiveJson F V}.
Implicit Types (snap : Channel -> LogsQuery -> result str V) (s : Sse).

(** *** Streams of events *)

(** The client has what the task remembers. *)
Definition sse_in_step s : Prop := forall c, view (ss_events s) c = ss_payload s !! c.

Lemma sse_channel_in_step snap q open now force c s s' : sse_channel snap q open now force c s = Some s' -> sse_in_step s -> sse_in_step s'.
Proof.
  unfold sse_channel, channel_event. destruct (negb force && _); [by intros [= <-]|]. destruct open; [|done]. intros [= <-] Hs c'. cbn [ss_events ss_payload].
  destruct (decide (c' = c)) as [->|Hne]; [by rewrite view_snoc_same, lookup_insert_eq|]. rewrite view_snoc_other, lookup_insert_ne by done. apply Hs.
Qed.

Lemma sse_channel_current snap q open now force c s s' : sse_channel snap q open now force c s = Some s' ->
  ss_payload s' !! c = Some (channel_payload snap c q) /\
  forall c', c' <> c -> ss_payload s' !! c' = ss_payload s !! c' /\ ss_sent_at s' !! c' = ss_sent_at s !! c'.
Proof.
  unfold sse_channel, channel_event. destruct (negb force && bool_decide _) eqn:E.
  - apply andb_true_iff in E as [_ E]. apply bool_decide_eq_true in E. intros [= <-]. split; [done|]. intros c' Hne. cbn. by rewrite lookup_insert_ne.
  - destruct open; [|done]. intros [= <-]. cbn. rewrite lookup_insert_eq. split; [done|]. intros c' Hne. by rewrite !lookup_insert_ne.
Qed.

Lemma sse_round_other snap q open now stamp force cs s s' c : c ∉ cs -> sse_round snap q open now stamp force cs s = Some s' ->
  ss_payload s' !! c = ss_payload s !! c /\ ss_sent_at s' !! c = ss_sent_at s !! c.
Proof.
  revert s. induction cs as [|c1 cs IH]; intros s Hc Hr; [by injection Hr as <-|]. rewrite not_elem_of_cons in Hc. destruct Hc as [Hne Hc].
  cbn [sse_round] in Hr. destruct (force || _); [|by apply IH].
  destruct (sse_channel snap q open (stamp c1) force c1 s) as [s1|] eqn:E; [|done]. cbn in Hr.
  destruct (sse_channel_current _ _ _ _ _ _ _ _ E) as [_ Ho]. destruct (Ho c Hne) as [<- <-]. by apply IH.
Qed.

Lemma sse_round_in_step snap q open now stamp force cs s s' : sse_round snap q open now stamp force cs s = Some s' -> sse_in_step s -> sse_in_step s'.
Proof.
  revert s. induction cs as [|c cs IH]; intros s Hr Hs; [by injection Hr as <-|]. cbn [sse_round] in Hr. destruct (force || _); [|by eapply IH].
  destruct (sse_channel _ _ _ _ _ _ _) as [s1|] eqn:E; [|done]. cbn in Hr. eapply IH; [exact Hr|]. by eapply sse_channel_in_step.
Qed.

Lemma sse_round_current snap q open now stamp force cs s s' c : NoDup cs -> c ∈ cs -> force || is_due now (ss_sent_at s) c = true ->
  sse_round snap q open now stamp force cs s = Some s' -> ss_payload s' !! c = Some (channel_payload snap c q).
Proof.
  intros Hnd. revert s. induction Hnd as [|c1 cs Hc1 Hnd IH]; intros s Hin Hdue Hr; [by apply elem_of_nil in Hin|].
  cbn [sse_round] in Hr. apply elem_of_cons in Hin as [->|Hin].
  - rewrite Hdue in Hr. destruct (sse_channel _ _ _ _ _ _ _) as [s1|] eqn:E; [|done]. cbn in Hr.
    destruct (sse_round_other _ _ _ _ _ _ _ _ _ _ Hc1 Hr) as [-> _]. by apply sse_channel_current in E as [? _].
  - assert (Hne : c <> c1) by (by intros ->). destruct (force || is_due now (ss_sent_at s) c1); [|by eapply IH].
    destruct (sse_channel _ _ _ _ _ _ _) as [s1|] eqn:E; [|done]. cbn in Hr. apply (IH s1); [done| |done].
    destruct (sse_channel_current _ _ _ _ _ _ _ _ E) as [_ Ho]. destruct (Ho c Hne) as [_ Hs]. unfold is_due in *. by rewrite Hs.
Qed.

Lemma sse_ticks_in_step q cs ticks s s' : sse_ticks q cs ticks s = Some s' -> sse_in_step s -> sse_in_step s'.
Proof.
  revert s. induction ticks as [|t ticks IH]; intros s Hr Hs; [by injection Hr as <-|]. cbn [sse_ticks] in Hr.
  destruct (sse_round _ _ _ _ _ _ _ _) as [s1|] eqn:E; [|done]. cbn in Hr. eapply IH; [exact Hr|]. by eapply sse_round_in_step.
Qed.

Lemma sse_stream_in_step q cs first ticks s : sse_stream q cs first ticks = Some s -> sse_in_step s.
Proof.
  unfold sse_stream. destruct (sse_round _ _ _ _ _ _ _ _) as [s1|] eqn:E; [|done]. cbn. intros Hr. eapply sse_ticks_in_step; [exact Hr|].
  eapply sse_round_in_step; [exact E|]. by intros c.
Qed.

Lemma sse_ticks_snoc q cs ticks t s : sse_ticks q cs (ticks ++ [t]) s = s1 ← sse_ticks q cs ticks s; sse_round (tk_snap t) q (tk_open t) (tk_now t) (tk_stamp t) false cs s1.
Proof.
  revert s. induction ticks as [|t1 ticks IH]; intros s; cbn [app sse_ticks]; [cbn [mbind option_bind]; by destruct (sse_round _ _ _ _ _ _ _ _)|].
  destruct (sse_round _ _ _ _ _ _ _ _); [|done]. cbn [mbind option_bind]. apply IH.
Qed.

(** A round with a client that reads goes through. *)
Lemma sse_round_open snap q now stamp force cs s : is_Some (sse_round snap q true now stamp force cs s).
Proof.
  revert s. induction cs as [|c cs IH]; intros s; [by eexists|]. cbn [sse_round]. destruct (force || is_due now (ss_sent_at s) c); [|apply IH].
  unfold sse_channel. destruct (channel_event _ _ _ _ _) as [[text|] last]; cbn [mbind option_bind]; apply IH.
Qed.

(** C36: A stream of events is up to date with its last round.  After any ticks, as long
    as the client reads, one more tick goes through, and then the last event the client
    has of each channel that was due is that channel's snapshot of that round, an error
    included; and of every channel it is what the task remembers, so that nothing but
    repetitions is left out. *)
Theorem stream_up_to_date q cs first ticks t s : NoDup cs -> sse_stream q cs first ticks = Some s -> tk_open t = true ->
  exists s', sse_stream q cs first (ticks ++ [t]) = Some s' /\ sse_in_step s' /\
    forall c, c ∈ cs -> is_due (tk_now t) (ss_sent_at s) c = true -> view (ss_events s') c = Some (channel_payload (tk_snap t) c q).
Proof.
  intros Hnd Hs Ho. assert (Hs' : sse_stream q cs first (ticks ++ [t]) = sse_round (tk_snap t) q true (tk_now t) (tk_stamp t) false cs s).
  { unfold sse_stream in *. destruct (sse_round _ _ _ _ _ _ _ _) as [s0|]; [|done]. cbn [mbind option_bind] in *.
    by rewrite sse_ticks_snoc, Hs, Ho. }
  destruct (sse_round_open (tk_snap t) q (tk_now t) (tk_stamp t) false cs s) as [s' Hr]. rewrite Hr in Hs'. exists s'.
  pose proof (sse_stream_in_step _ _ _ _ _ Hs') as Hv. split_and!; [done|done|]. intros c Hin Hdue. rewrite Hv.
  eapply (sse_round_current _ _ _ _ _ false); [exact Hnd|exact Hin|exact Hdue|exact Hr].
Qed.

(** *** Streams that nobody reads *)

Lemma closed_channel_unchanged snap q now c s : ss_payload s !! c = Some (channel_payload snap c q) ->
  sse_channel snap q false now false c s = Some (mkSse (ss_payload s) (<[c := now]> (ss_sent_at s)) (ss_events s)).
Proof. intros Hp. unfold sse_channel, channel_event. cbn [negb andb]. by rewrite bool_decide_true. Qed.

Lemma closed_round_unchanged snap q now stamp cs s : Forall (fun c => ss_payload s !! c = Some (channel_payload snap c q)) cs ->
  exists s', sse_round snap q false now stamp false cs s = Some s' /\ ss_payload s' = ss_payload s.
Proof.
  intros Hf. revert s Hf. induction cs as [|c cs IH]; intros s Hf; [by eexists|]. apply Forall_cons in Hf as [Hc Hf]. cbn [sse_round orb].
  destruct (is_due _ _ _); [|by apply IH]. rewrite closed_channel_unchanged by done. cbn [mbind option_bind].
  apply (IH (mkSse (ss_payload s) _ _)). exact Hf.
Qed.

(** A stream whose client is gone goes on, and keeps its slot, for as long as the snapshots
    of its channels stay what was last sent. *)
Theorem closed_stream_goes_on q cs ticks s :
  Forall (fun t => tk_open t = false /\ Forall (fun c => ss_payload s !! c = Some (channel_payload (tk_snap t) c q)) cs) ticks ->
  is_Some (sse_ticks q cs ticks s).
Proof.
  intros Hf. revert s Hf. induction ticks as [|t ticks IH]; intros s Hf; [by eexists|]. apply Forall_cons in Hf as [[Ho Hc] Hf].
  cbn [sse_ticks]. rewrite Ho. destruct (closed_round_unchanged _ _ (tk_now t) (tk_stamp t) _ _ Hc) as (s1 & -> & Hp). cbn [mbind option_bind].
  apply IH. by rewrite Hp.
Qed.

(** It ends in the first round in which one of its channels is due and has changed. *)
Theorem closed_stream_ends snap q now stamp cs s c : NoDup cs -> c ∈ cs -> is_due now (ss_sent_at s) c = true ->
  ss_payload s !! c <> Some (channel_payload snap c q) -> sse_round snap q false now stamp false cs s = None.
Proof.
  intros Hnd. revert s. induction Hnd as [|c1 cs Hc1 Hnd IH]; intros s Hin Hdue Hne; [by apply elem_of_nil in Hin|].
  cbn [sse_round orb]. apply elem_of_cons in Hin as [->|Hin].
  - rewrite Hdue. unfold sse_channel, channel_event. cbn [negb andb]. by rewrite bool_decide_false.
  - assert (Hd : c <> c1) by (by intros ->). destruct (is_due now (ss_sent_at s) c1); [|by apply IH].
    destruct (sse_channel snap q false (stamp c1) false c1 s) as [s1|] eqn:E; [|done]. cbn [mbind option_bind].
    destruct (sse_channel_current _ _ _ _ _ _ _ _ E) as [_ Ho]. destruct (Ho c Hd) as [Hp Hs]. apply IH; [done| |by rewrite Hp].
    unfold is_due in *. by rewrite Hs.
Qed.

End streams.

(** *** Web sockets *)

Section sockets.
Context `{LiveJson F V}.
Implicit Types (snap : Channel -> LogsQuery -> result str V) (st : ConnState).

Definition is_error (c : Channel) (text : str) : Prop := exists e, text = error_text (channel_str c) e.

(** The client has the remembered payload, or an error that came after it. *)
Definition has_payload (out : list Out) (c : Channel) (p : str) : Prop := view out c = Some p \/ exists text, view out c = Some text /\ is_error c text.

Definition idle (t : Task) : Prop := t = Idle.
Definition sending (t : Task) (c : Channel) (p : str) : Prop := t = Sending c p false.

(** What a task that sends has done: its payload is remembered, unless the client has
    changed its mind since; an error is an error. *)
Definition task_ok (st : ConnState) (t : Task) : Prop :=
  match t with
  | Sending c text false => cs_payload st !! c = None \/ cs_payload st !! c = Some text
  | Sending c text true => is_error c text
  | _ => True
  end.

Record socket_ok (s : Socket) : Prop := {
  ok_exclusive : idle (so_reader s) \/ idle (so_ticker s);
  ok_reader : task_ok (so_st s) (so_reader s);
  ok_ticker : task_ok (so_st s) (so_ticker s);
  ok_payload c p : cs_payload (so_st s) !! c = Some p ->
    has_payload (so_out s) c p \/ sending (so_reader s) c p \/ sending (so_ticker s) c p;
}.

(** Payloads are only forgotten. *)
Definition forgets (st st' : ConnState) : Prop := forall c, cs_payload st' !! c = None \/ cs_payload st' !! c = cs_payload st !! c.

Lemma forgets_refl st : forgets st st.
Proof. intros c. by right. Qed.
Lemma forgets_trans a b c : forgets a b -> forgets b c -> forgets a c.
Proof. intros Hab Hbc ch. destruct (Hbc ch) as [?|Hb]; [by left|]. rewrite Hb. apply Hab. Qed.
Lemma forgets_forget c st : forgets st (forget c st).
Proof. intros c'. cbn. destruct (decide (c' = c)) as [->|Hne]; [left; apply lookup_delete_eq|right; by apply lookup_delete_ne]. Qed.
Lemma forgets_foldl (f : ConnState -> Channel -> ConnState) cs st : (forall st c, forgets st (f st c)) -> forgets st (foldl f st cs).
Proof. intros Hf. revert st. induction cs as [|c cs IH]; intros st; [apply forgets_refl|]. cbn. by eapply forgets_trans; [apply Hf|]. Qed.
Lemma forgets_subscribe cs st : forgets st (subscribe cs st).
Proof. apply forgets_foldl. intros st' c. exact (forgets_forget c (with_channels ({[c]} ∪ cs_channels st') st')). Qed.
Lemma forgets_unsubscribe cs st : forgets st (unsubscribe cs st).
Proof. apply forgets_foldl. intros st' c. exact (forgets_forget c (with_channels (cs_channels st' ∖ {[c]}) st')). Qed.
Lemma forgets_filter q st : forgets st (set_filter q st).
Proof. apply (forgets_forget ChLogs (with_filter q st)). Qed.

Lemma task_ok_forgets st st' t : forgets st st' -> task_ok st t -> task_ok st' t.
Proof. intros Hf. destruct t as [| |c text []]; cbn; try done. intros Ht. destruct (Hf c) as [?| ->]; [by left|done]. Qed.

Lemma socket_ok_forgets st st' out r t : forgets st st' -> socket_ok (mkSocket st out r t) -> socket_ok (mkSocket st' out r t).
Proof.
  intros Hf [He Hr Ht Hp]. split; [done|by eapply task_ok_forgets|by eapply task_ok_forgets|].
  intros c p Hc. cbn in *. destruct (Hf c) as [?|Heq]; [congruence|]. apply Hp. by rewrite <- Heq.
Qed.

Lemma check_not_sending c force st c' p : ~ sending (push_check c force st) c' p.
Proof. unfold push_check. by case_decide. Qed.
Lemma check_ok c force st : task_ok st (push_check c force st).
Proof. unfold push_check. by case_decide. Qed.

(** What [push_snapshot] does to payloads. *)
Lemma push_snapshot_spec snap now c force q st t st' : push_snapshot snap now c force q st = (t, st') ->
  task_ok st' t /\ (cs_payload st' = cs_payload st /\ (forall c' p, ~ sending t c' p) \/
    exists p, t = Sending c p false /\ cs_payload st' = <[c := p]> (cs_payload st)).
Proof.
  unfold push_snapshot. destruct (snap c q) as [v|e].
  - case_match; intros [= <- <-]; [split; [done|by left]|]. split; [right; apply lookup_insert_eq|]. right. by eexists.
  - intros [= <- <-]. split; [by eexists|]. by left.
Qed.

Lemma push_sent_payload now c failed st : cs_payload (push_sent now c failed st) = cs_payload st.
Proof. by destruct failed. Qed.

Lemma has_payload_other out c text c' p : c' <> c -> has_payload out c' p -> has_payload (out ++ [(c, text)]) c' p.
Proof. intros Hne. unfold has_payload. by rewrite !view_snoc_other. Qed.

(** One task's message is sent while the other is idle. *)
Lemma send_payload now c text failed st out p c' :
  task_ok st (Sending c text failed) ->
  (cs_payload st !! c' = Some p -> has_payload out c' p \/ sending (Sending c text failed) c' p) ->
  cs_payload (push_sent now c failed st) !! c' = Some p -> has_payload (out ++ [(c, text)]) c' p.
Proof.
  intros Hok Hp Hc. rewrite push_sent_payload in Hc. destruct (decide (c' = c)) as [->|Hne].
  - destruct failed; cbn in Hok.
    + right. exists text. split; [apply view_snoc_same|done].
    + left. rewrite view_snoc_same. destruct Hok as [?|Hok]; congruence.
  - apply has_payload_other; [done|]. destruct (Hp Hc) as [?|Hs]; [done|]. injection Hs as -> _. done.
Qed.

(** A task does not start to push while the other one is at it. *)
Definition exclusive_step (a b : Socket) : Prop := socket_step a b /\ (idle (so_reader b) \/ idle (so_ticker b)).

Lemma socket_ok_step a b : exclusive_step a b -> socket_ok a -> socket_ok b.
Proof.
  intros [Hs Hx] Hok. destruct Hs; cbn [so_reader so_ticker] in Hx.
  - by eapply socket_ok_forgets; [apply forgets_subscribe|].
  - by eapply socket_ok_forgets; [apply forgets_unsubscribe|].
  - by eapply socket_ok_forgets; [apply forgets_filter|].
  - destruct Hok as [He Hr Ht Hp]. split; [done|apply check_ok|done|]. intros c' p Hc. destruct (Hp c' p Hc) as [?|[?|?]]; [by left|done|by right; right].
  - destruct Hok as [He Hr Ht Hp]. cbn in *. destruct (push_snapshot_spec _ _ _ _ _ _ _ _ H0) as [Htask Hpay].
    destruct He as [?|He]; [done|]. rewrite He in *. split; cbn; [by right|done|done|]. intros c' p Hc.
    destruct Hpay as [[Hpay Hno]|(p' & -> & Hpay)]; rewrite Hpay in Hc.
    + destruct (Hp _ _ Hc) as [?|[?|?]]; [by left|done|done].
    + destruct (decide (c' = c)) as [->|Hne].
      * rewrite lookup_insert_eq in Hc. injection Hc as ->. right. by left.
      * rewrite lookup_insert_ne in Hc by done. destruct (Hp _ _ Hc) as [?|[?|?]]; [by left|done|done].
  - destruct Hok as [He Hr Ht Hp]. cbn in *. destruct He as [?|He]; [done|]. rewrite He in *.
    split; cbn; [by right|done|done|]. intros c' p Hc. left. eapply send_payload; [exact Hr| |exact Hc].
    intros Hc'. destruct (Hp _ _ Hc') as [?|[?|?]]; [by left|by right|done].
  - destruct Hok as [He Hr Ht Hp]. split; [done|done|apply check_ok|]. intros c' p Hc. destruct (Hp c' p Hc) as [?|[?|?]]; [by left|by right; left|done].
  - destruct Hok as [He Hr Ht Hp]. cbn in *. destruct (push_snapshot_spec _ _ _ _ _ _ _ _ H0) as [Htask Hpay].
    destruct He as [He|?]; [|done]. rewrite He in *. split; cbn; [by left|done|done|]. intros c' p Hc.
    destruct Hpay as [[Hpay Hno]|(p' & -> & Hpay)]; rewrite Hpay in Hc.
    + destruct (Hp _ _ Hc) as [?|[?|?]]; [by left|done|done].
    + destruct (decide (c' = c)) as [->|Hne].
      * rewrite lookup_insert_eq in Hc. injection Hc as ->. right. by right.
      * rewrite lookup_insert_ne in Hc by done. destruct (Hp _ _ Hc) as [?|[?|?]]; [by left|done|done].
  - destruct Hok as [He Hr Ht Hp]. cbn in *. destruct He as [He|?]; [|done]. rewrite He in *.
    split; cbn; [by left|done|done|]. intros c' p Hc. left. eapply send_payload; [exact Ht| |exact Hc].
    intros Hc'. destruct (Hp _ _ Hc') as [?|[?|?]]; [by left|done|by right].
Qed.

(** Over a web socket a client is not left behind by what is held back, as long as
    the pushes of the two tasks do not overlap.  In every state that such steps reach with
    both tasks idle, the client's last message on a channel is the payload the connection
    remembers for it, or an error that came later; so a payload that is not sent again
    is one the client has, or had before an error. *)
Theorem socket_view s c p : rtc exclusive_step socket_new s -> so_reader s = Idle -> so_ticker s = Idle ->
  cs_payload (so_st s) !! c = Some p -> view (so_out s) c = Some p \/ exists text, view (so_out s) c = Some text /\ is_error c text.
Proof.
  intros Hr Hi1 Hi2 Hp. assert (Hok : socket_ok s).
  { assert (H0 : socket_ok socket_new) by (split; [by left|done|done|]; intros c' p' Hc'; change (@None str = Some p') in Hc'; done).
    clear Hi1 Hi2 Hp. revert H0. induction Hr as [|a b d Hab _ IH]; [done|]. intros Ha. apply IH. by eapply socket_ok_step. }
  destruct (ok_payload _ Hok c p Hp) as [?|[Hs|Hs]]; [done|..]; unfold sending in Hs; congruence.
Qed.

(** A push to a client that receives. *)
Lemma push_ok snap now c force st out v : c ∈ cs_channels st -> snap c (cs_filter st) = Ok v ->
  push_channel snap true now c force st out =
  let p := data_text (channel_str c) v in
  if negb force && bool_decide (cs_payload st !! c = Some p) then (Ok tt, sent_now c now st, out)
  else (Ok tt, payload_now c p now st, out ++ [(c, p)]).
Proof.
  intros Hc Hs. unfold push_channel, push_check. rewrite decide_True by done. unfold push_snapshot. rewrite Hs. cbv zeta.
  by destruct (negb force && _).
Qed.

Lemma push_err snap now c force st out e : c ∈ cs_channels st -> snap c (cs_filter st) = Err e ->
  push_channel snap true now c force st out = (Ok tt, sent_now c now st, out ++ [(c, error_text (channel_str c) e)]).
Proof. intros Hc Hs. unfold push_channel, push_check. rewrite decide_True by done. unfold push_snapshot. by rewrite Hs. Qed.

(** A channel that fails and recovers with an unchanged snapshot: the client is left with
    the error, since the payload before it is still remembered. *)
Theorem recovered_channel_not_resent (snap_ok snap_err : Channel -> LogsQuery -> result str V) c v e st out t1 t2 t3 : c ∈ cs_channels st ->
  snap_ok c (cs_filter st) = Ok v -> snap_err c (cs_filter st) = Err e ->
  let '(_, st1, out1) := push_channel snap_ok true t1 c true st out in
  let '(_, st2, out2) := push_channel snap_err true t2 c false st1 out1 in
  let '(r, st3, out3) := push_channel snap_ok true t3 c false st2 out2 in
  r = Ok tt /\ out3 = out2 /\ view out3 c = Some (error_text (channel_str c) e) /\ cs_payload st3 !! c = Some (data_text (channel_str c) v).
Proof.
  intros Hc Hok Herr. rewrite (push_ok _ _ _ _ _ _ v) by done. cbn [negb andb]. cbv zeta beta iota.
  rewrite (push_err _ _ _ _ (payload_now _ _ _ _) _ e) by done. cbv beta iota.
  rewrite (push_ok _ _ _ _ (sent_now _ _ _) _ v) by done. cbn [negb andb]. cbv zeta.
  rewrite bool_decide_true by apply lookup_insert_eq. split_and!; [done|done|apply view_snoc_same|apply lookup_insert_eq].
Qed.

(** Two pushes of one channel that overlap: the timer's older payload goes out after the
    reader's newer one, and the newer one is what is remembered.  With both tasks idle the
    client is left with the older payload, and an unchanged snapshot is not sent again. *)
Theorem overlapping_pushes_stale (snap_old snap_new : Channel -> LogsQuery -> result str V) c old new : snap_old c logs_query_default = Ok old -> snap_new c logs_query_default = Ok new ->
  data_text (channel_str c) old <> data_text (channel_str c) new ->
  exists s, rtc socket_step socket_new s /\ so_reader s = Idle /\ so_ticker s = Idle /\ c ∈ cs_channels (so_st s) /\
    view (so_out s) c = Some (data_text (channel_str c) old) /\ cs_payload (so_st s) !! c = Some (data_text (channel_str c) new) /\
    forall now, exists st', push_channel snap_new true now c false (so_st s) (so_out s) = (Ok tt, st', so_out s).
Proof.
  intros Hold Hnew Hne. set (po := data_text (channel_str c) old). set (pn := data_text (channel_str c) new).
  set (st0 := subscribe [c] conn_new).
  assert (Hin : forall st, cs_channels st = cs_channels st0 -> cs_filter st = logs_query_default ->
    forall force, push_check c force st = Checked c force logs_query_default).
  { intros st Hs Hq force. unfold push_check. rewrite Hs, Hq. rewrite decide_True; [done|]. cbn. set_solver. }
  set (st1 := payload_now c po 0 st0). set (st2 := payload_now c pn 0 st1).
  assert (H1 : push_snapshot snap_old 0 c false logs_query_default st0 = (Sending c po false, st1)).
  { unfold push_snapshot. rewrite Hold. cbn [negb andb]. rewrite bool_decide_false; [done|]. cbn. by rewrite lookup_delete_eq. }
  assert (H2 : push_snapshot snap_new 0 c true logs_query_default st1 = (Sending c pn false, st2)).
  { unfold push_snapshot. by rewrite Hnew. }
  assert (Hdue : is_due 0 (cs_sent_at st0) c = true).
  { unfold is_due. assert (cs_sent_at st0 !! c = None) as -> by apply lookup_delete_eq. done. }
  exists (mkSocket st2 [(c, pn); (c, po)] Idle Idle). split_and!; cbn [so_reader so_ticker so_st so_out]; try done.
  - eapply rtc_l; [apply (so_subscribe [c])|]. fold st0.
    eapply rtc_l; [apply (so_ticker_check 0 c), Hdue|]. rewrite Hin by done.
    eapply rtc_l; [by eapply so_ticker_snapshot|].
    eapply rtc_l; [apply (so_reader_check c)|]. rewrite Hin by done.
    eapply rtc_l; [by eapply so_reader_snapshot|].
    eapply rtc_l; [apply (so_reader_send 0)|].
    eapply rtc_l; [apply (so_ticker_send 0)|]. apply rtc_refl.
  - cbn. set_solver.
  - apply (view_snoc_same [(c, pn)]).
  - apply lookup_insert_eq.
  - intros now. unfold push_channel. rewrite Hin by done. unfold push_snapshot. rewrite Hnew. fold pn. cbn [negb andb].
    rewrite bool_decide_true by apply lookup_insert_eq. by eexists.
Qed.

End sockets.

(** ** Handlers *)

Section handlers.
Context `{Crypto} `{Formats}.

Lemma acquire_spec live : live < u64_size - 1 ->
  acquire_live_slot live = if live <? MAX_LIVE_CONNECTIONS then (true, live + 1) else (false, live).
Proof.
  intros Hl. unfold acquire_live_slot, acquire_add. rewrite add_small by (unfold u64_size in *; lia).
  destruct (live <? MAX_LIVE_CONNECTIONS); [done|]. by rewrite fetch_sub_succ by (unfold u64_size in *; lia).
Qed.

(** A request takes a slot exactly when a connection or a stream comes of it; without a
    valid token it does not get that far. *)
Theorem live_handlers_account E token channels q header live s : live < u64_size - 1 ->
  (let '(a, live', s') := ws_handler E token header live s in
   live' = match a with LiveSocket => live + 1 | _ => live end /\ s' = (authorize_live E token header s).2 /\
   ((authorize_live E token header s).1 = false -> a = LiveRefused 401 "unauthorized")) /\
  (let '(a, live', s') := live_sse_handler E token channels q header live s in
   live' = match a with LiveStream cs _ => live + 1 | _ => live end /\ s' = (authorize_live E token header s).2 /\
   ((authorize_live E token header s).1 = false -> a = LiveRefused 401 "unauthorized") /\
   forall cs q', a = LiveStream cs q' -> cs <> ∅ /\ q' = q).
Proof.
  intros Hl. unfold ws_handler, live_sse_handler. destruct (authorize_live E token header s) as [[] s1]; cbn [negb fst snd].
  - rewrite acquire_spec by done. destruct (live <? MAX_LIVE_CONNECTIONS); cbn [negb]; (split; [by split_and!|]).
    + cbv zeta. case_decide; [|split_and!; [done|done|done|]; by intros cs q' [= <- <-]].
      split_and!; try done. unfold release_live_slot. apply fetch_sub_succ. unfold u64_size in *; lia.
    + by split_and!.
  - by split_and!.
Qed.

End handlers.

(** ** Texts for the witnesses *)

#[export] Instance toy_live : LiveJson unit str := {|
  js_management _ := Ok (bs "m"); js_metrics _ := Ok (bs "x"); js_logs _ := Ok (bs "l"); js_config _ := Ok (bs "c");
  js_certificates _ := Ok (bs "k"); js_routes _ := Ok (bs "r"); js_pods _ := Ok (bs "p"); js_empty := bs "[]";
  data_text c v := c ++ bs " data " ++ v; error_text c e := c ++ bs " error " ++ e; plain_error_text e := e;
  client_msg _ := Err (bs "not a message") |}.

Definition saying (v : str) : Channel -> LogsQuery -> result str str := fun _ _ => Ok v.

Lemma stream_up_to_date_witness :
  exists s', sse_stream logs_query_default [ChConfig] (mkTick (saying "1") true 0 (fun _ => 1)) [mkTick (saying "2") true 5500 (fun _ => 5501)] = Some s' /\
    view (ss_events s') ChConfig = Some (bs "config data 2").
Proof.
  pose (first := mkTick (saying "1") true 0 (fun _ => 1)). pose (t := mkTick (saying "2") true 5500 (fun _ => 5501)).
  pose (s := default sse_new (sse_stream logs_query_default [ChConfig] first [])).
  destruct (stream_up_to_date logs_query_default [ChConfig] first [] t s) as (s' & Hs' & _ & Hv).
  - apply NoDup_singleton.
  - vm_compute; reflexivity.
  - reflexivity.
  - exists s'. split; [exact Hs'|]. apply (Hv ChConfig); [left|vm_compute; reflexivity].
Defined.

Definition pushed : Socket :=
  mkSocket (payload_now ChConfig "config data 1" 0 (subscribe [ChConfig] conn_new)) [(ChConfig, bs "config data 1")] Idle Idle.

Lemma pushed_reachable : rtc exclusive_step socket_new pushed.
Proof.
  eapply rtc_l; [split; [apply (so_subscribe [ChConfig])|by left]|].
  eapply rtc_l; [split; [apply (so_reader_check ChConfig)|by right]|].
  eapply rtc_l; [split; [eapply (so_reader_snapshot (saying "1") 0); reflexivity|by right]|].
  eapply rtc_l; [split; [apply (so_reader_send 0)|by right]|]. apply rtc_refl.
Qed.

Lemma socket_view_witness : view (so_out pushed) ChConfig = Some (bs "config data 1") \/
  exists text, view (so_out pushed) ChConfig = Some text /\ is_error ChConfig text.
Proof.
  apply (socket_view pushed ChConfig "config data 1" pushed_reachable eq_refl eq_refl). vm_compute; reflexivity.
Defined.
