(* ===== verification/Tunnel.v ===== *)
(** * The reverse tunnel (tunnel/proto, tunnel/server, tunnel/client)

    Length-prefixed frames, the server's single active client and what it relays,
    the client's target addresses.  QUIC, TLS and the byte pumps are not
    modelled: a connection is a number and an address. *)

From S2P Require Import Prelude RustStr.

(** ** Frames (tunnel/proto) *)

Definition DEFAULT_CONTROL_PORT : N := 7000.
Definition MAX_FRAME : N := 64 * 1024.

Inductive ClientControl : Type := Hello (token : str) (tunnels : list str) | Ping.
Record TunnelGranted := mkTunnelGranted { tg_name : str; tg_remote_port : N }.
Inductive ServerControl : Type := HelloOk (tunnels : list TunnelGranted) | HelloErr (message : str) | Pong.
Record OpenConn := mkOpenConn { oc_tunnel : str }.

Inductive ProtoError : Type := Io | FrameTooLarge (n : N) | Json | UnexpectedEof.

(** serde_json on one message type. *)
Class JsonCodec (T : Type) := {
  to_vec : T -> str;
  from_slice : str -> option T;
  from_to_vec : forall v, from_slice (to_vec v) = Some v;
}.

(** [BufMut::put_u32] and [Buf::get_u32]: big-endian. *)
Definition put_u32 (n : N) : str :=
  [n2b (N.shiftr n 24); n2b (N.shiftr n 16); n2b (N.shiftr n 8); n2b n].
Definition get_u32 (a b c d : byte) : N := ((b2n a * 256 + b2n b) * 256 + b2n c) * 256 + b2n d.

(** The bytes [write_frame] writes, header first. *)
Definition write_frame `{JsonCodec T} (v : T) : result ProtoError str :=
  let body := to_vec v in
  let len := N.of_nat (length body) in
  if MAX_FRAME <? len then Err (FrameTooLarge len) else Ok (put_u32 len ++ body).

(** [read_frame] on the bytes of a stream that then ends: the message and the rest. *)
Definition read_frame `{JsonCodec T} (s : str) : result ProtoError (T * str) :=
  match s with
  | a :: b :: c :: d :: rest =>
    let len := get_u32 a b c d in
    if MAX_FRAME <? len then Err (FrameTooLarge len)
    else if N.of_nat (length rest) <? len then Err Io
    else
      match from_slice (take (N.to_nat len) rest) with
      | None => Err Json
      | Some v => Ok (v, drop (N.to_nat len) rest)
      end
  | _ => Err UnexpectedEof
  end.

(** [n] frames read one after the other. *)
Fixpoint read_frames `{JsonCodec T} (n : nat) (s : str) : result ProtoError (list T * str) :=
  match n with
  | O => Ok ([], s)
  | S n => '(v, s) ← read_frame s; '(vs, s) ← read_frames n s; Ok (v :: vs, s)
  end.

(** ** The server (tunnel/server) *)

Record TunnelDef := mkTunnelDef { td_name : str; td_remote_port : N }.

Inductive ConfigError : Type :=
| NoTunnels | EmptyName | ZeroPort (name : str) | DuplicatePort (port : N) | DuplicateName (name : str).

(** The loop of [main] over the configured tunnels. *)
Fixpoint load_defs (defs : list TunnelDef) (m : gmap str N) (seen_ports : gset N) : result ConfigError (gmap str N) :=
  match defs with
  | [] => Ok m
  | t :: rest =>
    if is_empty (trim (td_name t)) then Err EmptyName
    else if td_remote_port t =? 0 then Err (ZeroPort (td_name t))
    else if bool_decide (td_remote_port t ∈ seen_ports) then Err (DuplicatePort (td_remote_port t))
    else if is_some (m !! td_name t) then Err (DuplicateName (td_name t))
    else load_defs rest (<[td_name t := td_remote_port t]> m) ({[td_remote_port t]} ∪ seen_ports)
  end.

Definition load_tunnels (defs : list TunnelDef) : result ConfigError (gmap str N) :=
  if is_empty defs then Err NoTunnels else load_defs defs ∅ ∅.

Record ClientSession := mkClientSession { cs_conn : nat; cs_tunnels : gset str; cs_addr : str }.

Record TunnelCounters := mkTunnelCounters { to_client : N; from_client : N; tc_streams : N }.

Record AppState := mkAppState {
  as_token : str;
  as_tunnels : gmap str N;
  as_counters : gmap str TunnelCounters;
  as_session : option ClientSession;
}.

Definition app_start (token : str) (tunnels : gmap str N) : AppState :=
  mkAppState token tunnels ((fun _ => mkTunnelCounters 0 0 0) <$> tunnels) None.

Definition set_session (st : AppState) (s : option ClientSession) : AppState :=
  mkAppState (as_token st) (as_tunnels st) (as_counters st) s.

Fixpoint xor_diff (a b : str) (diff : N) : N :=
  match a, b with
  | x :: a', y :: b' => xor_diff a' b' (N.lor diff (N.lxor (b2n x) (b2n y)))
  | _, _ => diff
  end.

Definition constant_time_eq (a b : str) : bool :=
  if negb (length a =? length b)%nat then false else xor_diff a b 0 =? 0.

Inductive HelloError : Type := InvalidToken | UnknownTunnel (name : str) | NoTunnelsRequested.

Fixpoint grant (tunnels : gmap str N) (wanted : list str) : result HelloError (list TunnelGranted) :=
  match wanted with
  | [] => Ok []
  | name :: rest =>
    match tunnels !! name with
    | None => Err (UnknownTunnel name)
    | Some port => gs ← grant tunnels rest; Ok (mkTunnelGranted name port :: gs)
    end
  end.

(** [handle_connection] up to the reply: the new session replaces the old one. *)
Definition handle_hello (conn : nat) (remote token : str) (wanted : list str) (st : AppState)
    : result HelloError (list TunnelGranted) * AppState :=
  if negb (constant_time_eq token (as_token st)) then (Err InvalidToken, st)
  else
    match grant (as_tunnels st) wanted with
    | Err e => (Err e, st)
    | Ok granted =>
      if is_empty granted then (Err NoTunnelsRequested, st)
      else (Ok granted, set_session st (Some (mkClientSession conn (list_to_set wanted) remote)))
    end.

(** The end of [handle_connection]: the session is cleared if it has this address. *)
Definition handle_closed (remote : str) (st : AppState) : AppState :=
  match as_session st with
  | Some s => if cs_addr s =s remote then set_session st None else st
  | None => st
  end.

(** [forward_accepted]: the connection a TCP client of the tunnel is relayed over. *)
Definition forward_accepted (name : str) (st : AppState) : option nat :=
  s ← as_session st; if bool_decide (name ∈ cs_tunnels s) then Some (cs_conn s) else None.

(** The accounting after a relayed stream. *)
Definition count_stream (name : str) (n_to n_from : N) (st : AppState) : AppState :=
  mkAppState (as_token st) (as_tunnels st)
    (alter (fun c => mkTunnelCounters ((to_client c + n_to) mod 2 ^ 64) ((from_client c + n_from) mod 2 ^ 64)
                       ((tc_streams c + 1) mod 2 ^ 64)) name (as_counters st)) (as_session st).

(** ** The client (tunnel/client) *)

Definition target_end (c : byte) : bool := is_byte "/" c || is_byte "?" c || is_byte "#" c.

(** The part after the first [']']. *)
Definition after_bracket (s : str) : option str := snd <$> split_once "]" s.

Definition host_has_port (hostport : str) : bool :=
  if starts_with "[" hostport then
    match after_bracket hostport with
    | Some (c :: p) => is_byte ":" c && is_some (parse_u16 p)
    | _ => false
    end
  else
    match rsplit_once ":" hostport with
    | Some (h, p) => negb (is_empty h) && negb (contains_byte ":" h) && is_some (parse_u16 p)
    | None => false
    end.

Inductive TargetError : Type := EmptyTarget | MissingHost | NeedsPort.

Definition dial_target (raw : str) : result TargetError str :=
  let trimmed := trim raw in
  if is_empty trimmed then Err EmptyTarget
  else
    let '(default_port, rest) :=
      match strip_prefix "https://" trimmed with
      | Some r => (Some (bs "443"), r)
      | None =>
        match strip_prefix "http://" trimmed with
        | Some r => (Some (bs "80"), r)
        | None =>
          match strip_prefix "tcp://" trimmed with
          | Some r => (None, r)
          | None => (None, trimmed)
          end
        end
      end in
    let hostport := trim (default rest (head (split target_end rest))) in
    if is_empty hostport then Err MissingHost
    else if host_has_port hostport then Ok hostport
    else
      match default_port with
      | Some p => Ok (hostport ++ bs ":" ++ p)
      | None => Err NeedsPort
      end.

(** [resolve_server] before the name lookup. *)
Definition server_with_port (server : str) : str :=
  if contains_byte "]" server then server
  else
    match rsplit_once ":" server with
    | Some (_, p) =>
      if is_some (parse_u16 p) then server else server ++ bs ":" ++ show_N DEFAULT_CONTROL_PORT
    | None => server ++ bs ":" ++ show_N DEFAULT_CONTROL_PORT
    end.

Definition host_name (server : str) : str :=
  match strip_prefix "[" server with
  | Some h => split_first "]" h
  | None =>
    match rsplit_once ":" server with
    | Some (h, port) => if is_some (parse_u16 port) then h else server
    | None => server
    end
  end.

(** ** Runs of the server *)

(** What changes the server's state: a hello that is handled, the cleanup at the end of
    the handler of a connection whose hello was granted and answered, a relay that is over.
    A connection whose hello is refused, or whose answer cannot be written, ends without
    the cleanup: there is no event for it. *)
Inductive Event : Type :=
| EHello (conn : nat) (remote token : str) (wanted : list str)
| EClosed (remote : str)
| EStream (name : str) (n_to n_from : N).

Definition app_step (st : AppState) (e : Event) : AppState :=
  match e with
  | EHello conn remote token wanted => (handle_hello conn remote token wanted st).2
  | EClosed remote => handle_closed remote st
  | EStream name a b => count_stream name a b st
  end.

Definition app_run (st : AppState) (es : list Event) : AppState := foldl app_step st es.

(** ** Lemmas *)

Lemma b2n_n2b_mod n : b2n (n2b n) = n mod 256.
Proof.
  rewrite <- (b2n_n2b (n mod 256)) by (by apply N.mod_lt). unfold n2b. by rewrite N.Div0.mod_mod.
Qed.

Lemma get_put_u32 n : n < 2 ^ 32 ->
  get_u32 (n2b (N.shiftr n 24)) (n2b (N.shiftr n 16)) (n2b (N.shiftr n 8)) (n2b n) = n.
Proof.
  intros Hn. unfold get_u32. rewrite !b2n_n2b_mod, !N.shiftr_div_pow2.
  change (2 ^ 24) with (256 * 256 * 256). change (2 ^ 16) with (256 * 256). change (2 ^ 8) with 256.
  change (2 ^ 32) with (256 * 256 * 256 * 256) in Hn. rewrite <- !N.Div0.div_div.
  set (q1 := n / 256). set (q2 := q1 / 256). set (q3 := q2 / 256).
  assert (Hq3 : q3 < 256).
  { unfold q3, q2, q1. rewrite !N.Div0.div_div. apply N.Div0.div_lt_upper_bound. lia. }
  rewrite (N.mod_small q3) by done.
  pose proof (N.div_mod' n 256) as H1. pose proof (N.div_mod' q1 256) as H2. pose proof (N.div_mod' q2 256) as H3.
  fold q1 in H1. fold q2 in H2. fold q3 in H3. lia.
Qed.

Lemma read_write_frame `{JsonCodec T} (v : T) bytes rest :
  write_frame v = Ok bytes -> read_frame (bytes ++ rest) = Ok (v, rest).
Proof.
  unfold write_frame. cbn zeta. case_if; [done|]. intros [= <-]. unfold put_u32, read_frame. cbn [app].
  bsimp. assert (Hb : N.of_nat (length (to_vec v)) < 2 ^ 32) by (unfold MAX_FRAME in *; lia).
  rewrite get_put_u32 by done.
  rewrite (proj2 (N.ltb_ge _ _)) by done. rewrite (proj2 (N.ltb_ge _ _)) by (rewrite length_app; lia).
  rewrite Nat2N.id, take_app_length, from_to_vec, drop_app_length. done.
Qed.

Lemma xor_diff_zero a b diff : length a = length b -> xor_diff a b diff = 0 <-> diff = 0 /\ a = b.
Proof.
  revert b diff. induction a as [|x a IH]; intros [|y b] diff; cbn; try done; [by split; [|intros []]|].
  intros [= Hl]. rewrite IH by done. rewrite N.lor_eq_0_iff, N.lxor_eq_0_iff. split.
  - intros [[-> Hxy] ->]. apply (inj b2n) in Hxy as ->. done.
  - intros [-> [= -> ->]]. done.
Qed.

Lemma constant_time_eq_spec a b : constant_time_eq a b = true <-> a = b.
Proof.
  unfold constant_time_eq. destruct (length a =? length b)%nat eqn:E; cbn.
  - apply Nat.eqb_eq in E. rewrite N.eqb_eq, xor_diff_zero by done. by split; [intros []|].
  - apply Nat.eqb_neq in E. split; [done|]. by intros ->.
Qed.

Lemma grant_spec tunnels wanted gs :
  grant tunnels wanted = Ok gs ->
  gs = (fun n => mkTunnelGranted n (default 0 (tunnels !! n))) <$> wanted /\
  Forall (fun n => is_Some (tunnels !! n)) wanted.
Proof.
  revert gs. induction wanted as [|n l IH]; intros gs; cbn; [by intros [= <-]|].
  destruct (tunnels !! n) as [p|] eqn:E; [|done]. destruct (grant tunnels l) as [gs'|]; [|done].
  intros [= <-]. destruct (IH gs' eq_refl) as [-> HF]. cbn. split; [done|]. constructor; [by eexists|done].
Qed.

(** When a hello is accepted. *)
Definition accepts (st : AppState) (token : str) (wanted : list str) : Prop :=
  token = as_token st /\ wanted <> [] /\ Forall (fun n => is_Some (as_tunnels st !! n)) wanted.

Lemma grant_complete tunnels wanted :
  Forall (fun n => is_Some (tunnels !! n)) wanted -> exists gs, grant tunnels wanted = Ok gs.
Proof.
  induction 1 as [|n l [p Hp] _ [gs IH]]; [by eexists|]. cbn. rewrite Hp, IH. by eexists.
Qed.

Lemma handle_hello_spec conn remote token wanted st :
  (accepts st token wanted /\
   (handle_hello conn remote token wanted st).2 = set_session st (Some (mkClientSession conn (list_to_set wanted) remote))) \/
  (~ accepts st token wanted /\ (handle_hello conn remote token wanted st).2 = st).
Proof.
  unfold handle_hello, accepts. destruct (constant_time_eq token (as_token st)) eqn:Et; cbn [negb].
  - apply constant_time_eq_spec in Et. destruct (grant (as_tunnels st) wanted) as [gs|e] eqn:Eg.
    + apply grant_spec in Eg as [-> HF]. destruct wanted as [|n l]; cbn [fmap list_fmap is_empty].
      * right. by split; [intros (_ & ? & _)|].
      * left. by split.
    + right. split; [|done]. intros (_ & _ & HF). apply grant_complete in HF as [gs Hg]. congruence.
  - right. split; [|done]. intros (-> & _). rewrite (proj2 (constant_time_eq_spec _ _) eq_refl) in Et. done.
Qed.

Lemma app_step_static st e : as_token (app_step st e) = as_token st /\ as_tunnels (app_step st e) = as_tunnels st.
Proof.
  destruct e as [conn remote token wanted|remote|name a b]; cbn; [| |done].
  - destruct (handle_hello_spec conn remote token wanted st) as [[_ ->]|[_ ->]]; done.
  - unfold handle_closed. destruct (as_session st); [|done]. by case_if.
Qed.

Lemma app_run_static st es : as_token (app_run st es) = as_token st /\ as_tunnels (app_run st es) = as_tunnels st.
Proof.
  unfold app_run. revert st. induction es as [|e es IH]; intros st; [done|]. cbn. destruct (IH (app_step st e)) as [-> ->].
  apply app_step_static.
Qed.

(** An event that leaves a session with address [a] in place. *)
Definition keeps (st : AppState) (a : str) (e : Event) : Prop :=
  match e with
  | EHello _ _ token wanted => ~ accepts st token wanted
  | EClosed remote => remote <> a
  | EStream _ _ _ => True
  end.

Lemma accepts_static st st' token wanted :
  as_token st' = as_token st -> as_tunnels st' = as_tunnels st -> accepts st' token wanted <-> accepts st token wanted.
Proof. unfold accepts. by intros -> ->. Qed.

Lemma app_step_session st e s :
  as_session (app_step st e) = Some s <->
  (exists token wanted, e = EHello (cs_conn s) (cs_addr s) token wanted /\ accepts st token wanted /\
                        cs_tunnels s = list_to_set wanted) \/
  (as_session st = Some s /\ keeps st (cs_addr s) e).
Proof.
  destruct e as [conn remote token wanted|remote|name a b]; cbn.
  - destruct (handle_hello_spec conn remote token wanted st) as [[Ha ->]|[Ha ->]]; cbn; split.
    + intros [= <-]. left. by exists token, wanted.
    + intros [(t & w & [= -> -> -> ->] & _ & Hw)|[_ Hn]]; [|done]. destruct s; cbn in *. by subst.
    + intros Hs. right. done.
    + intros [(t & w & [= -> -> -> ->] & Hx & _)|[Hs _]]; done.
  - unfold handle_closed. destruct (as_session st) as [s0|] eqn:Es; [|].
    + unfold str_eqb. case_bool_decide as Ea; cbn; rewrite ?Es; split.
      * done.
      * intros [(t & w & ? & _)|[[= ->] Hn]]; [done|]. by destruct Hn.
      * intros [= ->]. right. split; [done|]. intros ->. done.
      * intros [(t & w & ? & _)|[[= ->] Hn]]; done.
    + rewrite Es. split; [done|]. intros [(t & w & ? & _)|[? _]]; done.
  - split; [by right|]. intros [(t & w & ? & _)|[? _]]; done.
Qed.

Lemma run_session token tunnels es s :
  let st := app_start token tunnels in
  as_session (app_run st es) = Some s <->
  exists pre post wanted,
    es = pre ++ EHello (cs_conn s) (cs_addr s) token wanted :: post /\ cs_tunnels s = list_to_set wanted /\
    accepts st token wanted /\ Forall (keeps st (cs_addr s)) post.
Proof.
  intros st. induction es as [|e es IH] using rev_ind.
  { split; [done|]. intros (pre & ? & ? & E & _). by destruct pre. }
  unfold app_run in *. rewrite foldl_app. cbn [foldl].
  destruct (app_run_static st es) as [Htok Htun]. unfold app_run in Htok, Htun. set (st1 := foldl app_step st es) in *.
  assert (Hkeep : forall a, keeps st1 a e <-> keeps st a e).
  { intros a. destruct e; cbn; [|done|done]. by rewrite (accepts_static st st1). }
  rewrite app_step_session, IH, Hkeep. split.
  - intros [(t & w & -> & Ha & Hw)|[(pre & post & wanted & -> & Hw & Ha & HF) Hk]].
    + rewrite (accepts_static st st1) in Ha by done. assert (t = token) as -> by (by destruct Ha).
      by exists es, [], w.
    + exists pre, (post ++ [e]), wanted. rewrite <- app_assoc. split_and!; [done|done|done|].
      apply Forall_app. by split; [|constructor].
  - intros (pre & post & wanted & E & Hw & Ha & HF). destruct post as [|p post] using rev_ind.
    + apply app_inj_tail in E as [-> ->]. left. exists token, wanted. split_and!; [done| |done].
      by apply (accepts_static st st1).
    + clear IHpost. rewrite app_comm_cons, app_assoc in E. apply app_inj_tail in E as [-> ->].
      apply Forall_app in HF as [HF HFp]. right. split; [by exists pre, post, wanted|]. by inversion HFp.
Qed.

(** ** Properties *)

(** Frames are self-delimiting.  Whatever sequence of messages is written to
    a stream, each of them within the frame limit, reading it back yields the
    messages one by one and leaves exactly the bytes that follow; a message over
    the limit is refused by the writer with its size. *)
Theorem frames_roundtrip `{JsonCodec T} (vs : list T) (rest : str) :
  Forall (fun v => N.of_nat (length (to_vec v)) <= MAX_FRAME) vs ->
  exists chunks, Forall2 (fun v c => write_frame v = Ok c) vs chunks /\
    read_frames (length vs) (concat chunks ++ rest) = Ok (vs, rest).
Proof.
  induction 1 as [|v vs Hv _ (chunks & HF & IH)]; [by exists []|].
  assert (Hw : exists c, write_frame v = Ok c).
  { unfold write_frame. cbn zeta. rewrite (proj2 (N.ltb_ge _ _)) by done. by eexists. }
  destruct Hw as [c Hc]. exists (c :: chunks). split; [by constructor|].
  cbn [length concat read_frames]. rewrite <- app_assoc, (read_write_frame v c) by done. cbn [mbind result_bind].
  rewrite IH. done.
Qed.

(** C34: The server relays only to the authorised client.  After any run, a TCP
    connection on a tunnel is relayed over connection [c] exactly when some hello
    of [c] presented the server's token and asked for that tunnel among known
    ones, and since then no other hello was accepted and no connection from
    [c]'s address ended. *)
Theorem relay_authorised token tunnels es name c :
  let st := app_start token tunnels in
  forward_accepted name (app_run st es) = Some c <->
  exists pre post remote wanted,
    es = pre ++ EHello c remote token wanted :: post /\ name ∈ wanted /\ accepts st token wanted /\
    Forall (keeps st remote) post.
Proof.
  intros st. unfold forward_accepted. split.
  - destruct (as_session (app_run st es)) as [s|] eqn:Es; [|done]. cbn. case_bool_decide as Hn; [|done]. intros [= <-].
    apply run_session in Es as (pre & post & wanted & -> & Hw & Ha & HF). rewrite Hw in Hn.
    exists pre, post, (cs_addr s), wanted. split_and!; [done| |done|done]. by apply elem_of_list_to_set in Hn.
  - intros (pre & post & remote & wanted & -> & Hin & Ha & HF).
    set (s := mkClientSession c (list_to_set wanted) remote).
    assert (Es : as_session (app_run st (pre ++ EHello c remote token wanted :: post)) = Some s).
    { apply (run_session token tunnels). by exists pre, post, wanted. }
    rewrite Es. cbn. rewrite bool_decide_true; [done|]. by apply elem_of_list_to_set.
Qed.

(** Finding: the session is identified by its address.  When a client reconnects
    from the same address and port, the end of its old connection's handler
    clears the new session, and the tunnels stay closed although the new client
    is connected. *)
Lemma reconnect_same_address_cleared token name port c1 c2 remote :
  let st := app_start token {[name := port]} in
  forward_accepted name (app_run st [EHello c1 remote token [name]; EHello c2 remote token [name]]) = Some c2 /\
  forward_accepted name (app_run st [EHello c1 remote token [name]; EHello c2 remote token [name]; EClosed remote]) = None.
Proof.
  intros st.
  assert (Ha : accepts st token [name]).
  { split_and!; [done|done|]. constructor; [|done]. cbn. rewrite lookup_singleton_eq. by eexists. }
  split.
  - unfold forward_accepted.
    assert (Es : as_session (app_run st [EHello c1 remote token [name]; EHello c2 remote token [name]]) =
                 Some (mkClientSession c2 (list_to_set [name]) remote)).
    { apply (run_session token {[name := port]}). by exists [EHello c1 remote token [name]], [], [name]. }
    rewrite Es. cbn. rewrite bool_decide_true by set_solver. done.
  - unfold forward_accepted.
    destruct (as_session (app_run st _)) as [s|] eqn:Es; [|done]. exfalso.
    apply (run_session token {[name := port]}) in Es as (pre & post & wanted & E & _ & _ & HF).
    destruct pre as [|e1 [|e2 [|e3 [|e4 pre]]]]; simplify_eq/=.
    + rewrite !Forall_cons in HF. destruct HF as [Hk _]. by apply Hk.
    + rewrite Forall_singleton in HF. by destruct HF.
Qed.

Definition toy_codec : JsonCodec str := Build_JsonCodec str (fun v => v) Some (fun _ => eq_refl).

Lemma frames_roundtrip_witness :
  exists chunks, Forall2 (fun v c => @write_frame str toy_codec v = Ok c) [bs "ab"; []] chunks /\
    @read_frames str toy_codec 2 (concat chunks ++ bs "tail") = Ok ([bs "ab"; []], bs "tail").
Proof.
  apply (@frames_roundtrip str toy_codec [bs "ab"; []] "tail").
  repeat constructor; vm_compute; discriminate.
Defined.
