(* ===== verification/TunnelRelay.v ===== *)
(** * Relaying through the tunnel (tunnel/server, tunnel/client)

    What happens after a hello: the control streams of both sides, the relay of one TCP
    connection through the two byte pumps, the status page, and the client's session and
    reconnects.  QUIC and TLS are not modelled: a stream is the bytes written to it. *)

From S2P Require Import Prelude RustStr Tunnel.

(** ** Byte pumps

    One turn of a pump: what the read gives (at most 64 KiB, an end, an error), how
    [write_all] ends, and whether the chunk is flushed. *)
Inductive ReadOutcome : Type := RData (chunk : str) | REof | RErr.
(** The chunk is out, or the write fails after that many bytes of it. *)
Inductive WriteOutcome : Type := WAll | WFailed (sent : nat).
Record Turn := mkTurn { tn_read : ReadOutcome; tn_write : WriteOutcome; tn_flush : bool }.

Definition BUF : N := 64 * 1024.

(** The bytes written, how many were counted, and whether the loop has ended.  A chunk
    whose write fails is not counted, whatever part of it went out. *)
Fixpoint pump (turns : list Turn) (out : str) (count : N) : str * N * bool :=
  match turns with
  | [] => (out, count, false)
  | t :: turns =>
    match tn_read t with
    | RData chunk =>
      match tn_write t with
      | WFailed sent => (out ++ take sent chunk, count, true)
      | WAll =>
        let out := out ++ chunk in
        let count := (count + N.of_nat (length chunk)) mod 2 ^ 64 in
        if negb (tn_flush t) then (out, count, true) else pump turns out count
      end
    | REof | RErr => (out, count, true)
    end
  end.

Record Relay := mkRelay {
  rl_to_client : str;
  rl_from_client : str;
  rl_counts : N * N;
  rl_done : bool;
}.

(** [join!] of the two directions: the relay is over when both loops are. *)
Definition pipe_tcp_quic (c2s s2c : list Turn) : Relay :=
  let '(a, na, da) := pump c2s [] 0 in
  let '(b, nb, db) := pump s2c [] 0 in
  mkRelay a b (na, nb) (da && db).

(** ** The server *)

(** [forward_accepted]: the bytes put on a stream of the session's connection, header
    frame first, and the accounting when the relay is over. *)
Definition relay_accepted `{JsonCodec OpenConn} (name : str) (c2s s2c : list Turn) (st : AppState)
    : option (nat * result ProtoError (str * Relay)) * AppState :=
  match forward_accepted name st with
  | None => (None, st)
  | Some conn =>
    match write_frame (mkOpenConn name) with
    | Err e => (Some (conn, Err e), st)
    | Ok frame =>
      let r := pipe_tcp_quic c2s s2c in
      (Some (conn, Ok (frame ++ rl_to_client r, r)),
       if rl_done r then count_stream name (rl_counts r).1 (rl_counts r).2 st else st)
    end
  end.

(** The frames of a client after its hello: a ping is answered, all else ends the loop.
    [sent]: whether the answer can be written. *)
Fixpoint control_loop (frames : list (result ProtoError ClientControl * bool)) (pongs : nat) : nat * bool :=
  match frames with
  | [] => (pongs, false)
  | (Ok Ping, sent) :: frames => if sent : bool then control_loop frames (S pongs) else (pongs, true)
  | (Ok (Hello _ _), _) :: _ => (pongs, true)
  | (Err _, _) :: _ => (pongs, true)
  end.

(** [keys] is the order in which the map lists the tunnels. *)
Definition reject_message (keys : list str) (e : HelloError) : str :=
  match e with
  | InvalidToken => bs "invalid token"
  | UnknownTunnel name =>
    bs "unknown tunnel `" ++ name ++ bs "` (server has: " ++ (if is_empty keys then bs "(none)" else join ", " keys) ++ bs ")"
  | NoTunnelsRequested => bs "no tunnels requested"
  end.

(** The reply to the first frame, which must be a hello. *)
Definition hello_reply `{JsonCodec ClientControl} (iter : gmap str N -> list str) (conn : nat) (remote : str)
    (control : str) (st : AppState) : option ServerControl * AppState :=
  match read_frame control with
  | Ok (Hello token wanted, _) =>
    match handle_hello conn remote token wanted st with
    | (Ok granted, st) => (Some (HelloOk granted), st)
    | (Err e, st) => (Some (HelloErr (reject_message (iter (as_tunnels st)) e)), st)
    end
  | _ => (None, st)
  end.

(** The life of a connection with nothing between: the reply is written, or not, which
    ends the handler; else the session is cleared when the connection is over. *)
Definition handle_connection `{JsonCodec ClientControl} (iter : gmap str N -> list str) (conn : nat) (remote control : str) (written : bool)
    (st : AppState) : option ServerControl * AppState :=
  match hello_reply iter conn remote control st with
  | (Some (HelloOk granted), st) => (Some (HelloOk granted), if written then handle_closed remote st else st)
  | r => r
  end.

Record TunnelStatusEntry := mkStatusEntry {
  se_name : str;
  se_remote_port : N;
  se_connected : bool;
  se_client_addr : option str;
  se_bytes_to_client : N;
  se_bytes_from_client : N;
  se_streams : N;
}.
Record TunnelStatus := mkTunnelStatus { st_online : bool; st_bytes_to_client : N; st_bytes_from_client : N; st_tunnels : list TunnelStatusEntry }.

Definition status_entry (st : AppState) (np : str * N) : TunnelStatusEntry :=
  let '(name, port) := np in
  let active := bool_decide (name ∈ from_option cs_tunnels ∅ (as_session st)) in
  let c := default (mkTunnelCounters 0 0 0) (as_counters st !! name) in
  mkStatusEntry name port (is_some (as_session st) && active) (if active then cs_addr <$> as_session st else None)
    (to_client c) (from_client c) (tc_streams c).

Definition wrapping_sum (l : list N) : N := foldl (fun a b => (a + b) mod 2 ^ 64) 0 l.

(** [iter] is the order in which the map lists the tunnels. *)
Definition status_handler (iter : gmap str N -> list (str * N)) (st : AppState) : TunnelStatus :=
  let entries := status_entry st <$> iter (as_tunnels st) in
  mkTunnelStatus (is_some (as_session st)) (wrapping_sum (se_bytes_to_client <$> entries)) (wrapping_sum (se_bytes_from_client <$> entries)) entries.

(** *** Start of the server *)

Record TunnelServerConfig := mkTunnelServerConfig { tsc_bind : str; tsc_token : str; tsc_status_bind : str; tsc_tunnels : list TunnelDef }.

Inductive ServerStartError : Type :=
| BadTunnels (e : ConfigError)
| PortUnavailable (name : str) (port : N)
| BadStatusBind (addr : str)
| BadBind (addr : str)
| NoEndpoint.

(** The listeners of the tunnels, in the order the map lists them; [free]: a loopback
    port can be bound. *)
Fixpoint bind_tunnels (free : N -> bool) (tunnels : list (str * N)) : result ServerStartError (list (str * N)) :=
  match tunnels with
  | [] => Ok []
  | (name, port) :: rest =>
    if negb (free port) then Err (PortUnavailable name port)
    else bound ← bind_tunnels free rest; Ok ((name, port) :: bound)
  end.

Section server_main.
Context {Addr : Type}.
(** [SocketAddr::from_str], and whether the QUIC endpoint can be set up. *)
Variable parse_addr : str -> option Addr.
Variable endpoint : Addr -> bool.

(** [main] up to its accept loop: the state, the ports that are listened on, the address
    of the status page and that of the control connections. *)
Definition server_main (iter : gmap str N -> list (str * N)) (free : N -> bool) (cfg : TunnelServerConfig)
    : result ServerStartError (AppState * list (str * N) * option Addr * Addr) :=
  tunnels ← (match load_tunnels (tsc_tunnels cfg) with Ok m => Ok m | Err e => Err (BadTunnels e) end);
  let st := app_start (tsc_token cfg) tunnels in
  bound ← bind_tunnels free (iter tunnels);
  status ← (if is_empty (trim (tsc_status_bind cfg)) then Ok None
            else match parse_addr (tsc_status_bind cfg) with Some a => Ok (Some a) | None => Err (BadStatusBind (tsc_status_bind cfg)) end);
  bind ← ok_or (parse_addr (tsc_bind cfg)) (BadBind (tsc_bind cfg));
  if endpoint bind then Ok (st, bound, status, bind) else Err NoEndpoint.

End server_main.

(** ** The client *)

Record ClientTunnel := mkClientTunnel { ct_name : str; ct_local : str }.
Record ClientConfig := mkClientConfig { cc_server : str; cc_token : str; cc_reconnect_secs : N; cc_tunnels : list ClientTunnel }.

(** The hello of a session. *)
Definition client_hello (cfg : ClientConfig) : ClientControl := Hello (cc_token cfg) (ct_name <$> cc_tunnels cfg).

(** [collect] into a map keeps the last of two tunnels with one name. *)
Definition local_map (cfg : ClientConfig) : gmap str str :=
  foldl (fun m t => <[ct_name t := ct_local t]> m) ∅ (cc_tunnels cfg).

Inductive SessionError : Type := NoReply | ServerRejected (message : str) | UnexpectedReply.

Definition session_start (reply : result ProtoError ServerControl) : result SessionError (list TunnelGranted) :=
  match reply with
  | Err _ => Err NoReply
  | Ok (HelloOk granted) => Ok granted
  | Ok (HelloErr message) => Err (ServerRejected message)
  | Ok Pong => Err UnexpectedReply
  end.

Inductive OpenError : Type := BadOpenFrame (e : ProtoError) | NoLocal (tunnel : str) | BadTarget (e : TargetError).

(** [handle_open_conn] on the bytes of a stream: where it dials, and the bytes for it. *)
Definition handle_open_conn `{JsonCodec OpenConn} (locals : gmap str str) (stream : str) : result OpenError (str * str) :=
  match read_frame stream with
  | Err e => Err (BadOpenFrame e)
  | Ok (open, rest) =>
    match locals !! oc_tunnel open with
    | None => Err (NoLocal (oc_tunnel open))
    | Some local => match dial_target local with Ok dial => Ok (dial, rest) | Err e => Err (BadTarget e) end
    end
  end.

(** The client's pump does not count. *)
Fixpoint client_pump (turns : list Turn) (out : str) : str * bool :=
  match turns with
  | [] => (out, false)
  | t :: turns =>
    match tn_read t with
    | RData chunk =>
      match tn_write t with
      | WFailed sent => (out ++ take sent chunk, true)
      | WAll => if negb (tn_flush t) then (out ++ chunk, true) else client_pump turns (out ++ chunk)
      end
    | REof | RErr => (out, true)
    end
  end.

(** What went to the server and to the target, and whether both loops have ended. *)
Definition client_pipe_tcp_quic (c2s s2c : list Turn) : str * str * bool :=
  let '(a, da) := client_pump c2s [] in
  let '(b, db) := client_pump s2c [] in
  (a, b, da && db).

(** The keepalive: a ping every 20 seconds until one is not answered with a pong. *)
Fixpoint keepalive (answers : list (bool * result ProtoError ServerControl)) (pings : nat) : nat * bool :=
  match answers with
  | [] => (pings, false)
  | (false, _) :: _ => (pings, true)
  | (true, Ok Pong) :: answers => keepalive answers (S pings)
  | (true, _) :: _ => (S pings, true)
  end.

(** [main]: a session after the other, with at least one second between them. *)
Definition reconnect_delay (cfg : ClientConfig) : N := N.max 1 (cc_reconnect_secs cfg).
Definition client_starts (cfg : ClientConfig) : bool := negb (is_empty (cc_tunnels cfg)).

(** ** The pumps *)

(** A turn that ends the loop. *)
Definition ends_pump (t : Turn) : bool :=
  match tn_read t, tn_write t with RData _, WAll => negb (tn_flush t) | _, _ => true end.

(** What a turn reads, what of it is out and counted, and what is out uncounted. *)
Definition chunk_of (t : Turn) : str := match tn_read t with RData chunk => chunk | _ => [] end.
Definition counted (t : Turn) : str := match tn_write t with WAll => chunk_of t | WFailed _ => [] end.
Definition uncounted (t : Turn) : str := match tn_write t with WAll => [] | WFailed sent => take sent (chunk_of t) end.
Definition written (t : Turn) : str := counted t ++ uncounted t.

(** The turns up to the first one that ends the loop. *)
Fixpoint turns_run (turns : list Turn) : list Turn :=
  match turns with [] => [] | t :: turns => t :: (if ends_pump t then [] else turns_run turns) end.

Lemma pump_spec turns out count : count < 2 ^ 64 ->
  pump turns out count =
  (out ++ concat (written <$> turns_run turns), (count + N.of_nat (length (concat (counted <$> turns_run turns)))) mod 2 ^ 64,
   existsb ends_pump turns).
Proof.
  revert out count. induction turns as [|[rd w f] turns IH]; intros out count Hc.
  { cbn. by rewrite app_nil_r, N.add_0_r, N.mod_small. }
  cbn [pump turns_run existsb].
  destruct rd as [chunk| |], w as [|sent]; cbn [ends_pump tn_read tn_write tn_flush orb];
    try (cbn; rewrite ?take_nil; cbn; by rewrite ?app_nil_r, N.add_0_r, N.mod_small).
  destruct f; cbn [negb orb fmap list_fmap concat].
  - change (written (mkTurn (RData chunk) WAll true)) with (chunk ++ []). change (counted (mkTurn (RData chunk) WAll true)) with chunk.
    rewrite IH by (apply N.mod_lt; done). rewrite app_nil_r, <- app_assoc, length_app, Nat2N.inj_add, N.Div0.add_mod_idemp_l, N.add_assoc. done.
  - cbn. by rewrite !app_nil_r.
Qed.

(** All but the last turn of a run are written in full. *)
Lemma run_written turns : concat (written <$> turns_run turns) =
  concat (counted <$> turns_run turns) ++ from_option uncounted [] (last (turns_run turns)).
Proof.
  induction turns as [|t turns IH]; [done|]. cbn [turns_run fmap list_fmap concat].
  destruct (ends_pump t) eqn:He; [cbn; by rewrite !app_nil_r|].
  assert (Hu : uncounted t = []).
  { unfold uncounted, ends_pump in *. destruct (tn_read t), (tn_write t); done. }
  unfold written at 1. rewrite Hu, app_nil_r.
  change (list_fmap _ _ written ?l) with (written <$> l). change (list_fmap _ _ counted ?l) with (counted <$> l). rewrite IH, app_assoc.
  f_equal. destruct turns as [|t' turns]; [cbn; by rewrite Hu|]. done.
Qed.

(** What is written is the start of what is read. *)
Lemma run_reads turns : exists rest, concat (chunk_of <$> turns) = concat (written <$> turns_run turns) ++ rest.
Proof.
  induction turns as [|t turns [rest IH]]; [by exists []|]. cbn [turns_run fmap list_fmap concat].
  change (list_fmap _ _ chunk_of turns) with (chunk_of <$> turns).
  assert (Hw : exists more, chunk_of t = written t ++ more /\ (ends_pump t = false -> more = [])).
  { unfold written, counted, uncounted, ends_pump, chunk_of. destruct (tn_read t) as [chunk| |], (tn_write t) as [|sent];
      rewrite ?take_nil; [by exists []; rewrite !app_nil_r| |by exists []..].
    exists (drop sent chunk). cbn. by rewrite take_drop. }
  destruct Hw as (more & Hw & Hmore). rewrite Hw. destruct (ends_pump t) eqn:He; cbn [fmap list_fmap concat].
  - exists (more ++ concat (chunk_of <$> turns)). by rewrite app_nil_r, app_assoc.
  - rewrite (Hmore eq_refl), app_nil_r, IH. exists rest. by rewrite app_assoc.
Qed.

Lemma run_prefix turns : exists rest, concat (written <$> turns) = concat (written <$> turns_run turns) ++ rest.
Proof.
  induction turns as [|t turns [rest IH]]; [by exists []|]. cbn [turns_run fmap list_fmap concat].
  change (list_fmap _ _ written turns) with (written <$> turns).
  destruct (ends_pump t); cbn [fmap list_fmap concat].
  - exists (concat (written <$> turns)). by rewrite app_nil_r.
  - exists rest. change (list_fmap _ _ written (turns_run turns)) with (written <$> turns_run turns). by rewrite IH, app_assoc.
Qed.

Lemma pump_ended turns more out count : existsb ends_pump turns = true -> count < 2 ^ 64 -> pump (turns ++ more) out count = pump turns out count.
Proof.
  intros He Hc. rewrite !pump_spec by done. rewrite existsb_app, He.
  assert (Hr : turns_run (turns ++ more) = turns_run turns).
  { clear -He. induction turns as [|t turns IH]; [done|]. cbn in *. destruct (ends_pump t); [done|]. by rewrite IH. }
  by rewrite Hr.
Qed.

(** Both sides of the tunnel move bytes in the same way. *)
Lemma client_pump_pump turns out count : client_pump turns out = ((pump turns out count).1.1, (pump turns out count).2).
Proof.
  revert out count. induction turns as [|[rd w f] turns IH]; intros out count; [done|]. cbn [client_pump pump tn_read tn_write tn_flush].
  destruct rd as [chunk| |]; [|done..]. destruct w as [|sent]; [|done]. destruct f; cbn [negb]; [|done]. apply IH.
Qed.

(** The client ends its relay under the same conditions as the server, and has written by
    then what the server would have. *)
Theorem client_relay_ends c2s s2c : let r := pipe_tcp_quic c2s s2c in
  client_pipe_tcp_quic c2s s2c = (rl_to_client r, rl_from_client r, rl_done r).
Proof.
  cbv zeta. unfold client_pipe_tcp_quic, pipe_tcp_quic. rewrite !(client_pump_pump _ _ 0).
  destruct (pump c2s [] 0) as [[a na] da], (pump s2c [] 0) as [[b nb] db]. done.
Qed.

(** C38: A relay ends exactly when both of its directions have met an end of data, an
    error, or a write or flush that fails; as long as one direction has met none of these,
    it goes on.  What it has moved by then is final.  In each direction the bytes that went
    out are the chunks that were written in full, followed by what a failed write of the
    last chunk had put out, a part of that chunk; the count is the bytes of the full chunks,
    modulo 2^64: what a failed write put out is not counted, and without a failed write the
    count is all that went out. *)
Theorem relay_ends c2s s2c : let r := pipe_tcp_quic c2s s2c in
  (rl_done r = true <-> existsb ends_pump c2s = true /\ existsb ends_pump s2c = true) /\
  (rl_done r = true -> forall more more', pipe_tcp_quic (c2s ++ more) (s2c ++ more') = r) /\
  let full turns := concat (counted <$> turns_run turns) in
  let partial turns := from_option uncounted [] (last (turns_run turns)) in
  rl_to_client r = full c2s ++ partial c2s /\ rl_from_client r = full s2c ++ partial s2c /\
  rl_counts r = (N.of_nat (length (full c2s)) mod 2 ^ 64, N.of_nat (length (full s2c)) mod 2 ^ 64).
Proof.
  cbv zeta. split_and!.
  - unfold pipe_tcp_quic. rewrite !pump_spec by done. cbn [rl_done]. apply andb_true_iff.
  - intros Hd more more'. unfold pipe_tcp_quic in Hd |- *. rewrite !pump_spec in Hd by done. cbn [rl_done] in Hd.
    apply andb_true_iff in Hd as [Ha Hb]. by rewrite !pump_ended by done.
  - rewrite <- run_written. unfold pipe_tcp_quic. by rewrite !pump_spec by done.
  - rewrite <- run_written. unfold pipe_tcp_quic. by rewrite !pump_spec by done.
  - unfold pipe_tcp_quic. by rewrite !pump_spec by done.
Qed.

(** ** The client behind the tunnel *)

Section end_to_end.
Context {codec_open : JsonCodec OpenConn} {codec_client : JsonCodec ClientControl}.

Lemma local_map_lookup cfg name : name ∈ ct_name <$> cc_tunnels cfg -> exists local, local_map cfg !! name = Some local /\
  mkClientTunnel name local ∈ cc_tunnels cfg.
Proof.
  unfold local_map. generalize (∅ : gmap str str). induction (cc_tunnels cfg) as [|[n l] ts IH] using rev_ind; intros m Hin.
  { by apply elem_of_nil in Hin. }
  rewrite foldl_app. cbn [foldl ct_name ct_local]. rewrite fmap_app in Hin. destruct (decide (name = n)) as [->|Hne].
  - exists l. rewrite lookup_insert_eq. split; [done|]. apply elem_of_app. right. left.
  - apply elem_of_app in Hin as [Hin|Hin%list_elem_of_singleton]; [|done]. destruct (IH m Hin) as (local & Hl & Hi).
    exists local. rewrite lookup_insert_ne by done. split; [done|]. apply elem_of_app. by left.
Qed.

Lemma hello_reply_ok iter conn remote cfg frame rest st granted st1 : write_frame (client_hello cfg) = Ok frame ->
  hello_reply iter conn remote (frame ++ rest) st = (Some (HelloOk granted), st1) ->
  accepts st (cc_token cfg) (ct_name <$> cc_tunnels cfg) /\
  granted = (fun n => mkTunnelGranted n (default 0 (as_tunnels st !! n))) <$> (ct_name <$> cc_tunnels cfg) /\
  st1 = set_session st (Some (mkClientSession conn (list_to_set (ct_name <$> cc_tunnels cfg)) remote)).
Proof.
  intros Hw. unfold hello_reply. rewrite (read_write_frame _ _ _ Hw). cbn [client_hello].
  set (names := ct_name <$> cc_tunnels cfg). unfold handle_hello, accepts.
  destruct (constant_time_eq (cc_token cfg) (as_token st)) eqn:Et; cbn [negb]; [|done]. apply constant_time_eq_spec in Et.
  destruct (grant (as_tunnels st) names) as [gs|e] eqn:Eg; [|done]. destruct (is_empty gs) eqn:Ee; [done|].
  intros [= <- <-]. destruct (grant_spec _ _ _ Eg) as [-> Hf]. split_and!; try done. intros Hn. by rewrite Hn in Ee.
Qed.

(** C39: What arrives on a tunnel's port reaches the target its client configured.  When a
    client's hello is granted and nothing else happens, a TCP connection to any of its
    tunnels is relayed over its connection; the client reads the tunnel's name off the
    stream, dials the target it has for it, and what follows is a prefix of the bytes read
    off the TCP connection, and of those that its writes put out. *)
Theorem tunnel_end_to_end iter conn remote cfg frame rest st granted st1 name c2s s2c :
  write_frame (client_hello cfg) = Ok frame ->
  hello_reply iter conn remote (frame ++ rest) st = (Some (HelloOk granted), st1) ->
  name ∈ ct_name <$> cc_tunnels cfg -> N.of_nat (length (to_vec (mkOpenConn name))) <= MAX_FRAME ->
  cc_token cfg = as_token st /\
  exists local stream r,
    mkClientTunnel name local ∈ cc_tunnels cfg /\ (relay_accepted name c2s s2c st1).1 = Some (conn, Ok (stream, r)) /\
    handle_open_conn (local_map cfg) stream =
      (match dial_target local with Ok dial => Ok (dial, rl_to_client r) | Err e => Err (BadTarget e) end) /\
    (exists more, concat (chunk_of <$> c2s) = rl_to_client r ++ more) /\
    exists more, concat (written <$> c2s) = rl_to_client r ++ more.
Proof.
  intros Hw Hr Hin Hlen. destruct (hello_reply_ok _ _ _ _ _ _ _ _ _ Hw Hr) as ((Htok & _ & _) & _ & ->). split; [done|].
  destruct (local_map_lookup cfg name Hin) as (local & Hl & Hi).
  destruct (write_frame (mkOpenConn name)) as [open|e] eqn:Eo.
  2: { exfalso. unfold write_frame in Eo. cbn zeta in Eo. by rewrite (proj2 (N.ltb_ge _ _)) in Eo. }
  set (r := pipe_tcp_quic c2s s2c). exists local, (open ++ rl_to_client r), r. split_and!; [done| | | |].
  - unfold relay_accepted, forward_accepted. cbn [as_session set_session mbind option_bind cs_tunnels cs_conn].
    rewrite bool_decide_true by (by apply elem_of_list_to_set). by rewrite Eo.
  - unfold handle_open_conn. rewrite (read_write_frame _ _ _ Eo). cbn [oc_tunnel]. by rewrite Hl.
  - destruct (run_reads c2s) as [more Hm]. exists more. unfold r, pipe_tcp_quic. rewrite !pump_spec by done. exact Hm.
  - destruct (run_prefix c2s) as [more Hm]. exists more. unfold r, pipe_tcp_quic. rewrite !pump_spec by done. exact Hm.
Qed.

(** The reply to a hello that cannot be written ends the handler with the session in
    place: the server goes on as if a client were connected. *)
Theorem unwritten_reply_keeps_session iter conn remote cfg frame rest st granted st1 name :
  write_frame (client_hello cfg) = Ok frame ->
  handle_connection iter conn remote (frame ++ rest) false st = (Some (HelloOk granted), st1) ->
  name ∈ ct_name <$> cc_tunnels cfg ->
  forward_accepted name st1 = Some conn /\ st_online (status_handler map_to_list st1) = true.
Proof.
  intros Hw Hr Hin. unfold handle_connection in Hr. destruct (hello_reply iter conn remote (frame ++ rest) st) as [[[gs|m|]|] st'] eqn:Eh; try done.
  injection Hr as <- <-. destruct (hello_reply_ok _ _ _ _ _ _ _ _ _ Hw Eh) as (_ & _ & ->). split; [|done].
  unfold forward_accepted. cbn. by rewrite bool_decide_true by (by apply elem_of_list_to_set).
Qed.

End end_to_end.

Lemma bind_tunnels_ok free l bound : bind_tunnels free l = Ok bound -> bound = l /\ Forall (fun np => free np.2 = true) l.
Proof.
  revert bound. induction l as [|[n p] l IH]; intros bound; cbn [bind_tunnels]; [by intros [= <-]|].
  destruct (free p) eqn:Ep; cbn [negb]; [|done]. destruct (bind_tunnels free l) as [b|]; [|done]. intros [= <-].
  destruct (IH b eq_refl) as [-> Hf]. split; [done|]. by constructor.
Qed.

(** A server that starts listens on the port of every tunnel of its configuration, and on
    each of them once, with no client yet and all counters at zero; a connection before a
    client is there is closed at once. *)
Theorem server_start_listens {Addr} (parse_addr : str -> option Addr) endpoint iter free cfg st bound status bind :
  (forall m, iter m ≡ₚ map_to_list m) -> server_main parse_addr endpoint iter free cfg = Ok (st, bound, status, bind) ->
  load_tunnels (tsc_tunnels cfg) = Ok (as_tunnels st) /\ bound ≡ₚ map_to_list (as_tunnels st) /\ NoDup bound.*1 /\
  Forall (fun np => free np.2 = true) bound /\
  (forall name, forward_accepted name st = None) /\
  forall name, as_counters st !! name = (fun _ => mkTunnelCounters 0 0 0) <$> as_tunnels st !! name.
Proof.
  intros Hi. unfold server_main. destruct (load_tunnels (tsc_tunnels cfg)) as [m|e]; [|done]. cbn [mbind result_bind].
  destruct (bind_tunnels free (iter m)) as [b|e] eqn:Eb; [|done]. cbn [mbind result_bind]. apply bind_tunnels_ok in Eb as [-> Hf].
  destruct (if is_empty (trim (tsc_status_bind cfg)) then _ else _) as [o|]; [|done]. cbn [mbind result_bind].
  destruct (parse_addr (tsc_bind cfg)) as [a|]; [|done]. cbn [ok_or mbind result_bind]. destruct (endpoint a); [|done]. intros [= <- <- <- <-].
  cbn [as_tunnels app_start as_counters]. split_and!; [done|apply Hi| |done|done|intros name; apply lookup_fmap].
  rewrite (Hi m). apply NoDup_fst_map_to_list.
Qed.

(** The status page says what the server does: it lists each tunnel once, and one as
    connected exactly when a connection to it would be relayed. *)
Theorem status_tells_relay iter st : (forall m, iter m ≡ₚ map_to_list m) ->
  st_tunnels (status_handler iter st) ≡ₚ status_entry st <$> map_to_list (as_tunnels st) /\
  forall e, e ∈ st_tunnels (status_handler iter st) ->
    as_tunnels st !! se_name e = Some (se_remote_port e) /\
    (se_connected e = true <-> is_Some (forward_accepted (se_name e) st)) /\
    (is_Some (se_client_addr e) <-> se_connected e = true).
Proof.
  intros Hi. cbn [status_handler st_tunnels]. split; [by rewrite Hi|]. intros e He. apply list_elem_of_fmap in He as ([name port] & -> & Hin).
  rewrite Hi, elem_of_map_to_list in Hin. cbn [status_entry se_name se_remote_port se_connected se_client_addr]. split; [done|].
  unfold forward_accepted. destruct (as_session st) as [s|]; cbn [is_some from_option mbind option_bind andb fmap option_fmap option_map].
  - case_bool_decide.
    + split; split; intros _; by try eexists.
    + split; split; try done; by intros [].
  - rewrite bool_decide_false by set_solver. split; split; try done; by intros [].
Qed.

(** ** Codecs for the witness: the bits of an encoding *)

Fixpoint bits (p : positive) : str :=
  match p with xH => [] | xO p => x00 :: bits p | xI p => x01 :: bits p end.
Fixpoint unbits (s : str) : positive :=
  match s with [] => xH | b :: s => if is_byte x00 b then xO (unbits s) else xI (unbits s) end.
Lemma unbits_bits p : unbits (bits p) = p.
Proof. induction p as [p IH|p IH|]; cbn; by rewrite ?IH. Qed.

Definition open_codec : JsonCodec OpenConn := Build_JsonCodec OpenConn oc_tunnel (fun s => Some (mkOpenConn s)) ltac:(by intros []).

Definition control_codec : JsonCodec ClientControl.
Proof.
  refine (Build_JsonCodec ClientControl
    (fun c => bits (encode (match c with Ping => None | Hello t names => Some (t, names) end)))
    (fun s => from_option (fun t => Hello t.1 t.2) Ping <$> decode (unbits s)) _).
  intros c. rewrite unbits_bits, decode_encode. by destruct c.
Defined.

Definition home_config : ClientConfig := mkClientConfig "vps:7000" "s" 3 [mkClientTunnel "w" "127.0.0.1:3000"].
Definition home_server : AppState := app_start "s" {[bs "w" := 8080]}.
Definition home_frame : str := match @write_frame _ control_codec (client_hello home_config) with Ok f => f | Err _ => [] end.
Definition home_reply := @hello_reply control_codec (fun m => (map_to_list m).*1) 1 "1.2.3.4:5" (home_frame ++ []) home_server.

Lemma tunnel_end_to_end_witness :
  exists stream r, (@relay_accepted open_codec "w" [mkTurn (RData (bs "GET /")) WAll true; mkTurn REof WAll true] [] home_reply.2).1 = Some (1%nat, Ok (stream, r)) /\
    @handle_open_conn open_codec (local_map home_config) stream = Ok (bs "127.0.0.1:3000", rl_to_client r).
Proof.
  assert (Hw : @write_frame _ control_codec (client_hello home_config) = Ok home_frame) by (vm_compute; reflexivity).
  assert (Hr : home_reply = (Some (HelloOk [mkTunnelGranted "w" 8080]), home_reply.2)) by (vm_compute; reflexivity).
  destruct (@tunnel_end_to_end open_codec control_codec _ _ _ _ _ _ _ _ _ (bs "w")
    [mkTurn (RData (bs "GET /")) WAll true; mkTurn REof WAll true] [] Hw Hr) as (_ & local & stream & r & Hl & Ha & Ho & _).
  - left.
  - vm_compute; discriminate.
  - exists stream, r. split; [exact Ha|]. rewrite Ho. apply list_elem_of_singleton in Hl. injection Hl as ->. reflexivity.
Defined.
