(* ===== verification/TunnelSession.v ===== *)
(** * Sessions of the tunnel (tunnel/client, tunnel/server)

    Around [TunnelRelay]: the two QUIC endpoints, a client's session from the lookup of
    its server to its end, the streams it accepts, and the server's listeners.  QUIC is a
    library; whether it vouches for a certificate is a parameter. *)

From S2P Require Import Prelude RustStr Tunnel TunnelRelay.

(** ** The endpoints *)

Definition ALPN : str := bs "pertisk-tunnel".

(** [tuned_transport], the same text on both sides; times in milliseconds. *)
Record TunnelTransport := mkTunnelTransport {
  tt_idle_ms : N;
  tt_keep_alive_ms : N;
  tt_receive_window : N;
  tt_stream_window : N;
  tt_send_window : N;
  tt_max_streams : N;
  tt_initial_rtt_ms : N;
}.

Definition server_transport : TunnelTransport :=
  mkTunnelTransport (120 * 1000) (10 * 1000) (8 * 1024 * 1024) (2 * 1024 * 1024) (8 * 1024 * 1024) 1024 80.
Definition client_transport : TunnelTransport :=
  mkTunnelTransport (120 * 1000) (10 * 1000) (8 * 1024 * 1024) (2 * 1024 * 1024) (8 * 1024 * 1024) 1024 80.

Section session.
(** Certificates; [self_signed] makes one for the given names; [vouched cert name]: the
    public roots vouch for it under that name. *)
Context {C : Type}.
Variable self_signed : list str -> C.
Variable vouched : C -> str -> bool.

Record ServerEndpoint := mkServerEndpoint { se_cert : C; se_alpn : list str; se_early_data : N; se_transport : TunnelTransport }.

Definition make_endpoint : ServerEndpoint :=
  mkServerEndpoint (self_signed [bs "pertisk-tunnel"]) [ALPN] 0 server_transport.

(** [SkipServerVerification], or the public roots. *)
Inductive Verifier : Type := SkipServerVerification | PublicRoots.

Definition verify_server_cert (v : Verifier) (cert : C) (name : str) : bool :=
  match v with SkipServerVerification => true | PublicRoots => vouched cert name end.

Record ClientEndpoint := mkClientEndpoint { ce_verifier : Verifier; ce_alpn : list str; ce_early_data : bool; ce_transport : TunnelTransport }.

Definition make_client_endpoint (insecure : bool) : ClientEndpoint :=
  mkClientEndpoint (if insecure then SkipServerVerification else PublicRoots) [ALPN] false client_transport.

(** The handshake: a common protocol, and a certificate the client takes. *)
Definition handshake (c : ClientEndpoint) (s : ServerEndpoint) (name : str) : bool :=
  existsb (fun p => bool_decide (p ∈ se_alpn s)) (ce_alpn c) && verify_server_cert (ce_verifier c) (se_cert s) name.

(** ** A session of the client *)

(** The lines that tell which tunnels are ready; a target that cannot be dialled is shown
    as it is. *)
Definition ready_line (locals : gmap str str) (g : TunnelGranted) : str * N * str * str :=
  let local := default (bs "?") (locals !! tg_name g) in
  (tg_name g, tg_remote_port g, local, match dial_target local with Ok dial => dial | Err _ => local end).

(** The streams the server opens, up to the error that ends the loop; a stream that fails
    does not end it. *)
Fixpoint accept_streams `{JsonCodec OpenConn} (locals : gmap str str) (streams : list (option str)) : list (result OpenError (str * str)) :=
  match streams with
  | [] | None :: _ => []
  | Some stream :: streams => handle_open_conn locals stream :: accept_streams locals streams
  end.

Inductive SessionFailure : Type :=
| Unresolved (server : str) | NotConnected | NoControlStream | HelloNotWritten (e : ProtoError) | BadStart (e : SessionError).

Record Session := mkSession { sn_ready : list (str * N * str * str); sn_streams : list (result OpenError (str * str)) }.

(** What the client's side of the world does in a session. *)
Record SessionWorld := mkSessionWorld {
  sw_lookup : str -> option (list str);
  sw_server : str -> option ServerEndpoint;
  sw_control : bool;
  sw_written : bool;
  sw_reply : str -> result ProtoError ServerControl;
  sw_streams : list (option str);
}.

Definition resolve_server (lookup : str -> option (list str)) (server : str) : option str :=
  addrs ← lookup (server_with_port server); head addrs.

(** The outcome, and the bytes written to the control stream before the reply. *)
Definition run_session `{JsonCodec ClientControl, JsonCodec OpenConn} (insecure : bool) (cfg : ClientConfig) (w : SessionWorld)
    : result SessionFailure Session * str :=
  match resolve_server (sw_lookup w) (cc_server cfg) with
  | None => (Err (Unresolved (cc_server cfg)), [])
  | Some addr =>
    let endpoint := make_client_endpoint insecure in
    match sw_server w addr with
    | None => (Err NotConnected, [])
    | Some server =>
      if negb (handshake endpoint server (host_name (cc_server cfg))) then (Err NotConnected, [])
      else if negb (sw_control w) then (Err NoControlStream, [])
      else
        match write_frame (client_hello cfg) with
        | Err e => (Err (HelloNotWritten e), [])
        | Ok frame =>
          if negb (sw_written w) then (Err (HelloNotWritten Io), [])
          else
            match session_start (sw_reply w frame) with
            | Err e => (Err (BadStart e), frame)
            | Ok granted => (Ok (mkSession (ready_line (local_map cfg) <$> granted) (accept_streams (local_map cfg) (sw_streams w))), frame)
            end
        end
    end
  end.

(** ** The server's listeners *)

Inductive SocketStage : Type := StCreate | StReuseAddress | StNonblocking | StBind | StListen | StConvert.

(** The calls whose failure counts, in their order. *)
Definition bind_loopback (fails : SocketStage -> bool) (port : N) : result SocketStage (str * N) :=
  match List.find fails [StCreate; StReuseAddress; StNonblocking; StBind; StListen; StConvert] with
  | Some stage => Err stage
  | None => Ok (bs "127.0.0.1", port)
  end.

(** Connections of a tunnel's listener; one that cannot be accepted is logged only. *)
Fixpoint accept_loop {T} (accepts : list (option T)) : list T :=
  match accepts with
  | [] => []
  | Some tcp :: accepts => tcp :: accept_loop accepts
  | None :: accepts => accept_loop accepts
  end.

(** What a refused client is sent, and the reason the connection is closed with. *)
Definition reject_hello `{JsonCodec ServerControl} (message : str) : str * str :=
  (match write_frame (HelloErr message) with Ok frame => frame | Err _ => [] end, message).

(** ** Who gets the token *)

(** Without verification the hello, and with it the token, is written to whatever answers
    at the address and speaks the protocol, whatever its certificate says. *)
Theorem token_to_any_server `{JsonCodec ClientControl, JsonCodec OpenConn} cfg w addr server frame :
  resolve_server (sw_lookup w) (cc_server cfg) = Some addr -> sw_server w addr = Some server -> ALPN ∈ se_alpn server ->
  sw_control w = true -> sw_written w = true -> write_frame (client_hello cfg) = Ok frame ->
  (run_session true cfg w).2 = frame.
Proof.
  intros Hr Hs Ha Hc Hw Hf. unfold run_session. rewrite Hr, Hs. unfold handshake. cbn [make_client_endpoint ce_alpn ce_verifier existsb verify_server_cert].
  rewrite bool_decide_true by done. cbn [orb andb negb]. rewrite Hc. cbn [negb]. rewrite Hf, Hw. cbn [negb]. by destruct (session_start _).
Qed.

(** With verification the client never gets as far as its hello against a server of this
    program: its certificate is one it made itself when it started. *)
Theorem verifying_client_never_connects `{JsonCodec ClientControl, JsonCodec OpenConn} cfg w :
  (forall names name, vouched (self_signed names) name = false) ->
  (forall addr server, sw_server w addr = Some server -> server = make_endpoint) ->
  is_ok (run_session false cfg w).1 = false /\ (run_session false cfg w).2 = [].
Proof.
  intros Hv Hs. unfold run_session. destruct (resolve_server _ _) as [addr|]; [|done]. destruct (sw_server w addr) as [server|] eqn:He; [|done].
  rewrite (Hs _ _ He). unfold handshake. cbn [make_client_endpoint ce_verifier verify_server_cert make_endpoint se_cert]. rewrite Hv, andb_false_r. done.
Qed.

(** Every stream the server opens before the connection fails is handled on its own: one
    that is refused does not end the others. *)
Lemma accept_streams_each `{JsonCodec OpenConn} locals before after :
  accept_streams locals ((Some <$> before) ++ None :: after) = handle_open_conn locals <$> before.
Proof. induction before as [|s before IH]; [done|]. cbn. by rewrite IH. Qed.

Lemma accept_loop_all {T} (accepts : list (option T)) : accept_loop accepts = omap id accepts.
Proof. induction accepts as [|[tcp|] accepts IH]; cbn; [done|by rewrite IH|done]. Qed.

End session.

(** Both sides ask for the same transport, and a side that has nothing to say is heard
    twelve times before the other takes it for gone. *)
Lemma transports_agree : server_transport = client_transport /\ tt_keep_alive_ms client_transport * 12 = tt_idle_ms server_transport.
Proof. done. Qed.
