(* ===== verification/Background.v ===== *)
(** * Loops beside the requests (edge/mod.rs, controller.rs)

    The thread that asks Consul for the endpoints of the services in the table, with what
    a request then gets from it; and the loop of controller.rs, a file that no module of
    the library includes, which keeps a router up to date from the events of one watch. *)

From S2P Require Import Prelude RustStr Ip GeoIp Waf Bot Captcha Security Edge EdgeAuth ProxyConfig Router Forward.

(** ** Polling Consul *)

Section poller.
Variable iter_routes : gmap str (list Route) -> list (str * list Route).
Variable iter_edge : gmap str (gmap str EdgePolicy) -> list (str * gmap str EdgePolicy).
Variable iter_headers : gmap str str -> list (str * str).
(** The answers of Consul in one round. *)
Variable fetch : str -> option str -> option (list ConsulItem).
Hypothesis iter_routes_perm : forall m, iter_routes m ≡ₚ map_to_list m.

(** One round of the loop of [spawn_consul_poller]. *)
Definition consul_poll (r : Router) (st : ConsulState) : ConsulState :=
  match consul (globals (table r)) with
  | Some cfg => consul_refresh fetch cfg (consul_services iter_routes (table r)) st
  | None => st
  end.

Definition consul_answered (cfg : ConsulConfig) (service : str) : list (str * N) :=
  from_option (omap item_endpoint) [] (fetch (consul_url cfg service) (nonempty_opt (consul_token cfg))).

(** A service that is asked for has what was answered, if there is any endpoint in it,
    and otherwise what it had; services that are not asked for keep what they had. *)
Lemma consul_refresh_lookup cfg services st service :
  endpoints (consul_refresh fetch cfg services st) !! service =
    if bool_decide (service ∈ services) && negb (is_empty (consul_answered cfg service)) then Some (consul_answered cfg service)
    else endpoints st !! service.
Proof.
  unfold consul_refresh, consul_answered. revert st. induction services as [|s services IH]; intros st; [done|]. cbn [foldl]. rewrite IH. clear IH.
  destruct (decide (service = s)) as [->|Hne].
  - rewrite (bool_decide_true (s ∈ s :: services)) by left. cbn [andb].
    destruct (fetch (consul_url cfg s) _) as [items|]; cbn [from_option]; [|by rewrite andb_false_r].
    destruct (omap item_endpoint items) as [|e eps] eqn:Ee; cbn [is_empty negb]; [by rewrite andb_false_r|].
    case_bool_decide; cbn [andb]; [done|]. cbn [consul_set endpoints]. by rewrite lookup_insert_eq.
  - replace (bool_decide (service ∈ s :: services)) with (bool_decide (service ∈ services)) by (apply bool_decide_ext; set_solver).
    destruct (_ && _); [done|]. destruct (fetch (consul_url cfg s) _) as [items|]; [|done].
    destruct (is_empty _); [done|]. cbn [consul_set endpoints]. by rewrite lookup_insert_ne.
Qed.

Lemma push_all_elem l name out r : r ∈ l -> strip_prefix "consul:" (address (route_backend r)) = Some name -> name <> [] ->
  name ∈ foldl (fun out r => match strip_prefix "consul:" (address (route_backend r)) with Some n => push_new out n | None => out end) out l.
Proof.
  intros Hr Hs Hn.
  assert (Hkeep : forall l out, name ∈ out -> name ∈ foldl (fun out r => match strip_prefix "consul:" (address (route_backend r)) with Some n => push_new out n | None => out end) out l).
  { clear. induction l as [|x l IH]; intros out Ho; [done|]. cbn [foldl]. apply IH. destruct (strip_prefix _ _); [|done].
    unfold push_new. destruct (_ && _); set_solver. }
  revert out. induction l as [|x l IH]; intros out; [by apply elem_of_nil in Hr|]. cbn [foldl].
  apply elem_of_cons in Hr as [<-|Hr]; [|by apply IH]. apply Hkeep. rewrite Hs. unfold push_new.
  destruct name as [|b name]; [done|]. cbn [is_empty negb andb]. destruct (existsb _ out) eqn:Ex; cbn [negb]; [|set_solver].
  apply existsb_exists in Ex as (y & Hy & Ey). apply str_eqb_eq in Ey as ->. by apply list_elem_of_In.
Qed.

Lemma match_route_entry_listed t host path r : match_route_entry iter_routes t host path = Some r -> r ∈ mjoin (snd <$> iter_routes (routes t)).
Proof.
  intros Hm. unfold match_route_entry in Hm. apply bind_Some in Hm as (rs & Hrs & Hf).
  assert (Hr : r ∈ rs).
  { clear Hrs. induction rs as [|x rs IH]; [done|]. cbn [find_route] in Hf. destruct (path_matches _ _ _); [simplify_eq; left|right; by apply IH]. }
  assert (exists k, (k, rs) ∈ iter_routes (routes t)) as [k Hk].
  { assert (Hl : forall k, routes t !! k = Some rs -> exists k, (k, rs) ∈ iter_routes (routes t)).
    { intros k Hk. exists k. rewrite (iter_routes_perm (routes t)). by apply elem_of_map_to_list. }
    unfold routes_for_host in Hrs. destruct (is_empty _); [done|]. destruct (routes t !! normalize_host host) eqn:E; [simplify_eq; by eapply Hl|].
    destruct (best_of _) as [[n rs']|] eqn:Eb; [|by eapply Hl]. simplify_eq. apply best_of_elem in Eb as [Eb _].
    apply list_elem_of_fmap in Eb as ([k rs'] & [= -> ->] & Hin). exists k. by apply list_elem_of_filter in Hin as [_ Hin]. }
  apply list_elem_of_join. exists rs. split; [done|]. apply list_elem_of_fmap. by exists (k, rs).
Qed.

(** Endpoints follow Consul: in the round after a route to a service is in the table, a
    request for it is sent to one of the instances Consul just reported healthy. *)
Theorem polled_service_reached r cfg host pq route service st probes now io :
  consul (globals (table r)) = Some cfg ->
  match_route_entry iter_routes (table r) host (split_first "?" pq) = Some route ->
  address (route_backend route) = bs "consul:" ++ service -> service <> [] -> consul_answered cfg service <> [] ->
  exists plan st', resolve_forward iter_routes iter_edge iter_headers now io (table r) host pq (mkPlanState (consul_poll r st) probes) = (Ok plan, st') /\
    (peer_host plan, peer_port plan) ∈ consul_answered cfg service.
Proof.
  intros Hc Hm Ha Hn Hans. unfold resolve_forward. rewrite Hm, Ha.
  replace (strip_prefix "file:" (bs "consul:" ++ service)) with (None (A := str)) by done.
  assert (Hs : strip_prefix "consul:" (bs "consul:" ++ service) = Some service) by done. rewrite Hs.
  unfold consul_poll. rewrite Hc. cbn [ps_consul]. unfold consul_pick. rewrite consul_refresh_lookup.
  rewrite bool_decide_true; [|apply (push_all_elem _ _ _ route); [by eapply match_route_entry_listed|by rewrite Ha|done]]. cbn [andb].
  destruct (consul_answered cfg service) as [|e l] eqn:El; [done|]. cbn [is_empty negb].
  set (idx := N.to_nat _). assert (Hi : (idx < length (e :: l))%nat) by (subst idx; cbn [length]; pose proof (N.mod_upper_bound (rr (consul_refresh fetch cfg (consul_services iter_routes (table r)) st)) (N.of_nat (S (length l)))); lia).
  apply lookup_lt_is_Some_2 in Hi as [[h p] Hx]. rewrite Hx. eexists _, _. split; [reflexivity|]. cbn [peer_host peer_port].
  by eapply list_elem_of_lookup_2.
Qed.

(** Finding: endpoints are only ever replaced by a list that is not empty.  When the last
    instance of a service fails its checks, or the service is gone, its last endpoints
    keep getting requests. *)
Theorem unhealthy_endpoints_kept r cfg service st : consul (globals (table r)) = Some cfg -> consul_answered cfg service = [] ->
  endpoints (consul_poll r st) !! service = endpoints st !! service.
Proof. intros Hc Ha. unfold consul_poll. by rewrite Hc, consul_refresh_lookup, Ha, andb_false_r. Qed.

End poller.

(** ** Following one watch (controller.rs) *)

(** An event of [kube]'s watcher; the model of an Ingress in [Router] has no name. *)
Inductive WatchEvent : Type :=
| WInit
| WApply (name : str) (ingress : Ingress)
| WInitDone
| WDelete (name : str) (ingress : Ingress)
| WError.

(** [InitApply] and [Apply] have the same arm. *)
Definition ingress_key (name : str) (ingress : Ingress) : str := default (bs "default") (ing_namespace ingress) ++ bs "/" ++ name.

Record LocalCache := mkLocalCache { wt_ingresses : gmap str Ingress; wt_router : Router }.

Section watch.
Variable values : gmap str Ingress -> list Ingress.
Variable class : option str.

Definition rebuild_router (ingresses : gmap str Ingress) (r : Router) : Router :=
  router_replace r (build_route_table_from_ingresses (values ingresses)).

Definition rebuilt (ingresses : gmap str Ingress) (s : LocalCache) : LocalCache :=
  mkLocalCache ingresses (rebuild_router ingresses (wt_router s)).

Definition watch_event (s : LocalCache) (e : WatchEvent) : LocalCache :=
  let m := wt_ingresses s in
  match e with
  | WInit => mkLocalCache ∅ (wt_router s)
  | WApply name ingress =>
    let key := ingress_key name ingress in
    if negb (ingress_matches_class ingress class) then
      match m !! key with Some _ => rebuilt (delete key m) s | None => s end
    else rebuilt (<[key := ingress]> m) s
  | WInitDone => rebuilt m s
  | WDelete name ingress => rebuilt (delete (ingress_key name ingress) m) s
  | WError => s
  end.

Definition controller_run (s : LocalCache) (events : list WatchEvent) : LocalCache := foldl watch_event s events.

Definition bootstrap_from_list (items : list (str * Ingress)) (r : Router) : Router :=
  rebuild_router (foldl (fun m x => if negb (ingress_matches_class x.2 class) then m else <[ingress_key x.1 x.2 := x.2]> m) ∅ items) r.

(** What the events say of a key: the last one decides, and a restart forgets. *)
Definition event_says (key : str) (known : option Ingress) (e : WatchEvent) : option Ingress :=
  match e with
  | WInit => None
  | WApply name i => if bool_decide (ingress_key name i = key) then opt_filter (fun i => ingress_matches_class i class) (Some i) else known
  | WDelete name i => if bool_decide (ingress_key name i = key) then None else known
  | WInitDone | WError => known
  end.

Lemma watch_event_lookup s e key : wt_ingresses (watch_event s e) !! key = event_says key (wt_ingresses s !! key) e.
Proof.
  destruct e as [|name i| |name i|]; cbn; try done.
  - destruct (ingress_matches_class i class) eqn:Em; cbn [negb]; cbn [rebuilt wt_ingresses].
    + case_bool_decide as Hk; subst; [by rewrite lookup_insert_eq|by rewrite lookup_insert_ne].
    + case_bool_decide as Hk; [rewrite <- Hk|]; destruct (wt_ingresses s !! ingress_key name i) eqn:El; cbn [rebuilt wt_ingresses];
        rewrite ?lookup_delete_eq, ?El; try done. by rewrite lookup_delete_ne.
  - case_bool_decide as Hk; subst; [by rewrite lookup_delete_eq|by rewrite lookup_delete_ne].
Qed.

(** The objects that are routed are those that the events since the last restart of the
    watch leave: of each key the last event, if it is one with the class.  The router has
    the table of exactly these objects, except right after a restart of the watch. *)
Theorem watched_router_current s events : let s' := controller_run s events in
  (forall key, wt_ingresses s' !! key = foldl (event_says key) (wt_ingresses s !! key) events) /\
  (table (wt_router s) = build_route_table_from_ingresses (values (wt_ingresses s)) ->
   table (wt_router s') = build_route_table_from_ingresses (values (wt_ingresses s')) \/ wt_ingresses s' = ∅).
Proof.
  unfold controller_run. cbn zeta. split.
  - intros key. revert s. induction events as [|e events IH]; intros s; [done|]. cbn [foldl]. by rewrite IH, watch_event_lookup.
  - intros Ht. assert (Hgen : forall s, table (wt_router s) = build_route_table_from_ingresses (values (wt_ingresses s)) \/ wt_ingresses s = ∅ ->
      table (wt_router (foldl watch_event s events)) = build_route_table_from_ingresses (values (wt_ingresses (foldl watch_event s events)))
        \/ wt_ingresses (foldl watch_event s events) = ∅); [|by apply Hgen; left].
    clear. induction events as [|e events IH]; intros s Hs; [done|]. cbn [foldl]. apply IH.
    destruct e as [|name i| |name i|]; cbn [watch_event]; try (by left); try (by right); try done.
    destruct (negb _); [|by left]. destruct (_ !! _); [by left|done].
Qed.

(** When the first listing is complete, the router has exactly the objects listed. *)
Corollary synced_router_current s events : let s' := controller_run s (events ++ [WInitDone]) in
  table (wt_router s') = build_route_table_from_ingresses (values (wt_ingresses s')).
Proof. unfold controller_run. by rewrite foldl_app. Qed.

(** The list and the watch agree on what they route. *)
Theorem bootstrap_as_watched items r :
  NoDup ((fun x => ingress_key x.1 x.2) <$> items) ->
  bootstrap_from_list items r = wt_router (controller_run (mkLocalCache ∅ r) (WInit :: ((fun x => WApply x.1 x.2) <$> items) ++ [WInitDone])).
Proof.
  intros Hnd. unfold bootstrap_from_list, controller_run. cbn [foldl watch_event wt_router]. rewrite foldl_app. cbn [foldl].
  set (f := fun m x => _).
  assert (Hgen : forall s m, wt_ingresses s = m -> (forall x, x ∈ items -> m !! ingress_key x.1 x.2 = None) ->
    wt_ingresses (foldl watch_event s ((fun x => WApply x.1 x.2) <$> items)) = foldl f m items /\
    http3 (wt_router (foldl watch_event s ((fun x => WApply x.1 x.2) <$> items))) = http3 (wt_router s)).
  { induction items as [|[name i] items IH]; intros s m Hm Hf; [done|]. cbn [fmap list_fmap] in Hnd. apply NoDup_cons in Hnd as [Hni Hnd].
    cbn [fmap list_fmap foldl fst snd]. pose proof (Hf _ (list_elem_of_here _ _)) as H0. cbn [fst snd] in H0.
    cbn [watch_event]. rewrite Hm, H0. subst f. cbn beta. cbn [fst snd]. destruct (negb (ingress_matches_class i class)).
    - apply IH; [done|done|]. intros x Hx. apply Hf. by right.
    - destruct (IH Hnd (rebuilt (<[ingress_key name i := i]> m) s) (<[ingress_key name i := i]> m)) as [-> ->]; [done| |done].
      intros x Hx. rewrite lookup_insert_ne; [apply Hf; by right|]. intros E. apply Hni. apply list_elem_of_fmap. by exists x. }
  destruct (Hgen (mkLocalCache ∅ r) ∅ eq_refl) as [Hw Hh]; [intros x _; reflexivity|].
  cbn [watch_event rebuilt wt_router]. unfold rebuild_router, router_replace. rewrite Hw. cbn [wt_router] in Hh. by rewrite Hh.
Qed.

End watch.

(** Finding: after a restart of the watch the router is rebuilt from the part of the list
    that has arrived: routes of objects that still exist are gone until the list is through. *)
Definition small_ingress (host : str) : Ingress :=
  mkIngress None (Some (mkIngressSpec None None (Some [mkIngressRule (Some host) (Some [mkIngressPath None "Prefix" (Some (mkIngressServiceBackend "web" (Some (Some 80%Z))))])]))).
Definition list_values (m : gmap str Ingress) : list Ingress := snd <$> map_to_list m.

Theorem restart_drops_routes :
  let a := WApply "a" (small_ingress "a.io") in let b := WApply "b" (small_ingress "b.io") in
  let run := controller_run list_values None (mkLocalCache ∅ router_new) in
  let routed events host := is_some (match_route iter_r (table (wt_router (run events))) host "/") in
  routed [WInit; a; b; WInitDone] "b.io" = true /\ routed [WInit; a; b; WInitDone; WError; WInit; a] "b.io" = false /\
  routed [WInit; a; b; WInitDone; WError; WInit; a; b; WInitDone] "b.io" = true.
Proof. vm_compute. done. Qed.
