(* ===== verification/TestsRouting.v ===== *)
(** * The unit tests of routing, on the model

    The repository's own tests of router.rs, proxy/forward.rs, proxy/apply.rs,
    routes_config.rs and proxy_config.rs, each as a boolean of the same name (with
    [test_] before it) that the model must make true.  They tie the definitions to
    behaviour that the authors of the program wrote down; the theorems do not use them.
    Texts that serde reads are given as the value they stand for. *)

From S2P Require Import Prelude RustStr Ip GeoIp Waf Bot Captcha Security Edge EdgeAuth ProxyConfig Router Forward Apply.
From S2P Require Import Http Telemetry CertStore Database Admin Policies Settings Startup.

(** ** What the tests need of the outside *)

Definition t_iter (m : gmap str (list Route)) : list (str * list Route) := map_to_list m.
Definition t_edge (m : gmap str (gmap str EdgePolicy)) : list (str * gmap str EdgePolicy) := map_to_list m.
Definition t_headers (m : gmap str str) : list (str * str) := map_to_list m.

(** [Url::parse] on the URLs of the tests: scheme, host, port and path. *)
Definition known_port (scheme : str) : option N := if scheme =s "http" then Some 80 else if scheme =s "https" then Some 443 else None.

Definition url_rest (scheme rest : str) : option Url :=
  let authority := split_first "/" rest in
  let path := drop (length authority) rest in
  let '(host, p) := match rsplit_once ":" authority with
                    | Some (h, p) => match parse_u16 p with Some n => (h, Some n) | None => (authority, None) end
                    | None => (authority, None)
                    end in
  let special := is_some (known_port scheme) in
  if special && is_empty host then None
  else
    let p := opt_filter (fun n => negb (bool_decide (Some n = known_port scheme))) p in
    Some (mkUrl scheme (if is_empty host then None else Some host) (if special && is_empty path then bs "/" else path) p (or_else p (known_port scheme))).

Definition t_url (s : str) : option Url :=
  foldr (fun scheme acc => match strip_prefix (scheme ++ bs "://") s with Some rest => url_rest scheme rest | None => acc end) None
    [bs "http"; bs "https"; bs "file"; bs "consul"; bs "auto"].

Definition t_probe (_ : str) (_ : N) : ProbeIo := mkProbeIo true true true None.

Definition same (a : option str) (b : str) : bool := match a with Some a => a =s b | None => false end.

(** ** router.rs *)

Definition t_route (path : str) (t : PathMatchType) (addr : str) (p : N) (tls : bool) : Route :=
  mkRoute path t (mkBackend addr p tls) [] false geoip_default security_default.
Definition t_match (t : RouteTable) (host path : str) : option Backend := match_route t_iter t host path.
Definition t_table (l : list (str * list Route)) : RouteTable := from_routes (list_to_map l).
Definition t_upstream (s : str) : option Backend := parse_upstream t_url s.
Definition t_addr (s : str) : option str := address <$> t_upstream s.

Definition test_parse_upstream_localhost_uses_ipv4 : bool :=
  match t_upstream "http://localhost:9080" with Some b => (address b =s "127.0.0.1:9080") && (port b =? 9080) | None => false end.

Definition test_prefix_matching : bool :=
  let table := mkRouteTable {[bs "app.example.com" := [t_route "/api" Prefix "api.default.svc.cluster.local:8080" 8080 false]]} ∅ edge_globals_default in
  is_some (t_match table "app.example.com" "/api/v1") && negb (is_some (t_match table "app.example.com" "/health")).

Definition test_has_host_matches_configured_and_wildcard : bool :=
  let table := mkRouteTable (list_to_map [(bs "app.example.com", [t_route "/" Prefix "upstream:8080" 8080 false]); (bs "*", [t_route "/" Prefix "catchall:8080" 8080 false])]) ∅ edge_globals_default in
  has_host t_iter table "app.example.com" && has_host t_iter table "APP.EXAMPLE.COM:443" && has_host t_iter table "other.example.com"
  && negb (has_host t_iter table []).

Definition test_exact_path_matching : bool :=
  let table := t_table [(bs "app.example.com", [t_route "/api" Exact "api:8080" 8080 false])] in
  is_some (t_match table "app.example.com" "/api") && negb (is_some (t_match table "app.example.com" "/api/v1")).

Definition test_catch_all_wildcard_host : bool :=
  is_some (t_match (t_table [(bs "*", [t_route "/" Prefix "catch:80" 80 false])]) "unknown.host" "/any").

Definition test_subdomain_wildcard_host_routes : bool :=
  let table := t_table [(bs "*.orion.example.com", [t_route "/" Prefix "10.1.1.183:443" 443 true])] in
  is_some (t_match table "app.orion.example.com" "/") && has_host t_iter table "app.orion.example.com"
  && negb (is_some (t_match table "orion.example.com" "/")) && negb (is_some (t_match table "a.b.orion.example.com" "/")).

Definition test_exact_host_beats_wildcard : bool :=
  let table := t_table [(bs "*.example.com", [t_route "/" Prefix "wildcard:80" 80 false]); (bs "app.example.com", [t_route "/" Prefix "exact:80" 80 false])] in
  same (address <$> t_match table "app.example.com" "/") "exact:80".

Definition test_longest_prefix_wins : bool :=
  let table := t_table [(bs "app.example.com", [t_route "/api" Prefix "short:8080" 8080 false; t_route "/api/v2" Prefix "long:8080" 8080 false])] in
  same (address <$> t_match table "app.example.com" "/api/v2/x") "long:8080".

Definition test_parse_upstream_variants : bool :=
  negb (is_some (t_upstream [])) && negb (is_some (t_upstream "  "))
  && bool_decide (port <$> t_upstream "backend:9090;" = Some 9090)
  && bool_decide ((fun b => (port b, backend_use_tls b)) <$> t_upstream "https://example.com" = Some (443, true))
  && bool_decide ((fun b => (address b, backend_use_tls b)) <$> t_upstream "https://10.1.1.65:8006" = Some (bs "10.1.1.65:8006", true))
  && bool_decide (backend_use_tls <$> t_upstream "http://backend:8080" = Some false)
  && same (t_addr "example.com") "example.com:80" && bool_decide (port <$> t_upstream "10.0.0.1:8080" = Some 8080)
  && same (t_addr "file:///var/www") "file:/var/www" && same (t_addr "consul://web") "consul:web"
  && same (t_addr "auto://10.0.0.8:8443") "auto:10.0.0.8:8443".

Definition test_route_table_counts_and_iter : bool :=
  let table := t_table [(bs "a.example.com", [t_route "/" Prefix "a:80" 80 false])] in
  (route_count t_iter table =? 1)%nat && (length (all_routes t_iter table) =? 1)%nat.

Definition test_router_replace_and_snapshot : bool :=
  let r := router_replace router_new (t_table [(bs "x.example.com", [t_route "/" Prefix "x:80" 80 false])]) in
  (route_count t_iter (table router_new) =? 0)%nat && (route_count t_iter (table r) =? 1)%nat && has_host t_iter (table r) "x.example.com"
  && bool_decide (max_streams_bidi (http3 (router_replace_http3 r (mkHttp3Options None None (Some 100) None None None None None))) = Some 100).

Definition t_ingress (ns : option str) (class : option str) (backend : option (option IngressServiceBackend)) (rules : option (list IngressRule)) : Ingress :=
  mkIngress ns (Some (mkIngressSpec class backend rules)).
Definition t_service (name : str) (p : Z) : option IngressServiceBackend := Some (mkIngressServiceBackend name (Some (Some p))).
Definition t_rule (host : str) (paths : list IngressPath) : option (list IngressRule) := Some [mkIngressRule (Some host) (Some paths)].

Definition test_ingress_matches_class_filter : bool :=
  let ingress := t_ingress None (Some (bs "nginx")) None None in
  ingress_matches_class ingress None && ingress_matches_class ingress (Some (bs "nginx")) && negb (ingress_matches_class ingress (Some (bs "traefik"))).

Definition test_build_route_table_from_ingress : bool :=
  let table := build_route_table_from_ingresses [t_ingress (Some (bs "prod")) None None (t_rule "app.example.com" [mkIngressPath (Some (bs "/api")) "Prefix" (t_service "api" 8080)])] in
  match t_match table "app.example.com" "/api/v1" with
  | Some b => (address b =s "api.prod.svc.cluster.local:8080") && (port b =? 8080)
  | None => false
  end.

Definition test_prefix_with_trailing_slash : bool :=
  is_some (t_match (t_table [(bs "app.example.com", [t_route "/api/" Prefix "api:8080" 8080 false])]) "app.example.com" "/api/v1").

Definition test_router_default_and_replace_all : bool :=
  let r := router_replace_all router_new (t_table [(bs "all.example.com", [t_route "/" Prefix "all:80" 80 false])])
             (mkHttp3Options None None None None None (Some true) None None) in
  (route_count t_iter (table router_new) =? 0)%nat && (route_count t_iter (table r) =? 1)%nat && bool_decide (enable_0rtt (http3 r) = Some true).

Definition test_ingress_default_backend_catchall : bool :=
  is_some (t_match (build_route_table_from_ingresses [t_ingress (Some (bs "ns")) None (Some (t_service "default" 80)) None]) "any.host" "/").

Definition test_ingress_without_http_paths_skipped : bool :=
  (route_count t_iter (build_route_table_from_ingresses [t_ingress None None None (Some [mkIngressRule (Some (bs "bare.example.com")) None])]) =? 0)%nat.

Definition test_implementation_specific_path_type : bool :=
  is_some (t_match (t_table [(bs "app.example.com", [t_route "/custom" ImplementationSpecific "custom:80" 80 false])]) "app.example.com" "/custom/path").

Definition test_ingress_exact_path_type : bool :=
  let table := build_route_table_from_ingresses [t_ingress (Some (bs "dev")) None None (t_rule "exact.example.com" [mkIngressPath (Some (bs "/exact")) "Exact" (t_service "svc" 9000)])] in
  is_some (t_match table "exact.example.com" "/exact") && negb (is_some (t_match table "exact.example.com" "/exact/more")).

Definition test_ingress_without_spec_is_noop : bool :=
  (route_count t_iter (build_route_table_from_ingresses [mkIngress None None]) =? 0)%nat.

Definition test_ingress_skips_paths_without_service_backend : bool :=
  (route_count t_iter (build_route_table_from_ingresses [t_ingress None None None (t_rule "skip.example.com" [mkIngressPath (Some (bs "/")) "Prefix" None])]) =? 0)%nat.

Definition test_ingress_implementation_specific_path_type : bool :=
  is_some (t_match (build_route_table_from_ingresses [t_ingress (Some (bs "dev")) None None (t_rule "impl.example.com" [mkIngressPath None "ImplementationSpecific" (t_service "svc" 80)])])
    "impl.example.com" "/anything").

Lemma router_tests_pass : forallb id
  [test_parse_upstream_localhost_uses_ipv4; test_prefix_matching; test_has_host_matches_configured_and_wildcard; test_exact_path_matching;
   test_catch_all_wildcard_host; test_subdomain_wildcard_host_routes; test_exact_host_beats_wildcard; test_longest_prefix_wins;
   test_parse_upstream_variants; test_route_table_counts_and_iter; test_router_replace_and_snapshot; test_ingress_matches_class_filter;
   test_build_route_table_from_ingress; test_prefix_with_trailing_slash; test_router_default_and_replace_all; test_ingress_default_backend_catchall;
   test_ingress_without_http_paths_skipped; test_implementation_specific_path_type; test_ingress_exact_path_type; test_ingress_without_spec_is_noop;
   test_ingress_skips_paths_without_service_backend; test_ingress_implementation_specific_path_type] = true.
Proof. vm_compute. reflexivity. Qed.

(** ** proxy/forward.rs *)

Definition t_forward (t : RouteTable) (host path : str) : result ForwardError ForwardPlan :=
  (resolve_forward t_iter t_edge t_headers 0 t_probe t host path no_state).1.

Definition test_strip_prefix_keeps_query : bool := strip_path_prefix "/api/v1/health?x=1" "/api" =s "/v1/health?x=1".

Definition test_resolve_forward_applies_strip_prefix : bool :=
  let table := t_table [(bs "app.example.com", [mkRoute "/api" Prefix (mkBackend "127.0.0.1:8080" 8080 false) [StripPrefix "/api"] false geoip_default security_default])] in
  match t_forward table "app.example.com" "/api/health?x=1" with Ok p => upstream_url p =s "http://127.0.0.1:8080/health?x=1" | Err _ => false end.

Definition test_resolve_forward_without_middleware_keeps_path : bool :=
  let table := t_table [(bs "app.example.com", [t_route "/api" Prefix "127.0.0.1:8080" 8080 false])] in
  match t_forward table "app.example.com" "/api/status" with Ok p => upstream_url p =s "http://127.0.0.1:8080/api/status" | Err _ => false end.

Definition test_apply_middlewares_collects_headers : bool :=
  let headers := {[bs "X-Test" := bs "1"]} in
  let action := apply_middlewares t_headers [StripPrefix "/api"; RequestHeaders headers; ResponseHeaders headers] in
  same (strip_prefix_action action) "/api" && (length (request_headers action) =? 1)%nat && (length (response_headers action) =? 1)%nat.

Definition test_build_upstream_url_adds_scheme : bool :=
  (build_upstream_url (mkBackend "127.0.0.1:8080" 8080 false) "/health" =s "http://127.0.0.1:8080/health")
  && (build_upstream_url (mkBackend "upstream:443" 443 true) "/v1" =s "https://upstream:443/v1").

Definition test_parse_backend_peer_splits_host_port : bool :=
  match parse_backend_peer "10.0.0.1:9090" 8080, parse_backend_peer "upstream.local" 8080, parse_backend_peer "bad:port" 80 with
  | Ok (h, p), Ok (h', p'), Err _ => (h =s "10.0.0.1") && (p =? 9090) && (h' =s "upstream.local") && (p' =? 8080)
  | _, _, _ => false
  end.

Definition test_strip_prefix_empty_becomes_root : bool :=
  (strip_path_prefix "/api" "/api" =s "/") && (strip_path_prefix "/api?x=1" "/api" =s "/?x=1").

Definition test_resolve_client_ip_prefers_public_socket : bool :=
  same (resolve_client_ip (Some (bs "203.0.113.9")) (Some (bs "198.51.100.1")) None) "203.0.113.9".

Definition test_resolve_client_ip_skips_private_socket_for_xff : bool :=
  same (resolve_client_ip (Some (bs "10.244.1.5")) (Some (bs "203.0.113.9, 10.0.0.1")) None) "203.0.113.9".

Definition test_resolve_client_ip_unwraps_ipv4_mapped : bool :=
  same (resolve_client_ip (Some (bs "::ffff:203.0.113.9")) None None) "203.0.113.9".

Definition test_normalize_ip_strips_zone_id : bool := same (normalize_ip_str "2405:9800::1%eth0") "2405:9800::1".

Definition test_resolve_client_ip_falls_back_to_xff : bool :=
  same (resolve_client_ip None (Some (bs "203.0.113.9, 10.0.0.1")) None) "203.0.113.9".

Definition test_ipv4_mapped_private_is_not_public : bool :=
  negb (is_public_routable_ip "::ffff:10.1.1.5") && is_public_routable_ip "::ffff:203.0.113.9"
  && is_public_routable_ip "2405:9800:b901:194c:be24:11ff:feed:f72".

Definition test_forwarded_client_ip_header_pairs_appends_existing_xff : bool :=
  bool_decide (forwarded_client_ip_header_pairs "203.0.113.5" (Some (bs "198.51.100.1"))
    = [(bs "X-Real-IP", bs "203.0.113.5"); (bs "X-Forwarded-For", bs "198.51.100.1, 203.0.113.5")]).

Definition test_resolve_forward_https_upstream : bool :=
  let table := t_table [(bs "proxmox.example.com", [t_route "/" Prefix "10.1.1.65:8006" 8006 true])] in
  match t_forward table "proxmox.example.com" "/" with Ok p => (upstream_url p =s "https://10.1.1.65:8006/") && plan_use_tls p | Err _ => false end.

Definition test_resolve_forward_forwards_client_ip_flag : bool :=
  let table := t_table [(bs "git.example.com", [mkRoute "/" Prefix (mkBackend "127.0.0.1:8080" 8080 false) [] true geoip_default security_default])] in
  match t_forward table "git.example.com" "/" with Ok p => ma_forward_client_ip (plan_middleware p) | Err _ => false end.

Definition test_resolve_forward_missing_route_errors : bool :=
  match t_forward (from_routes ∅) "missing.example" "/" with Ok _ => false | Err _ => true end.

Lemma forward_tests_pass : forallb id
  [test_strip_prefix_keeps_query; test_resolve_forward_applies_strip_prefix; test_resolve_forward_without_middleware_keeps_path;
   test_apply_middlewares_collects_headers; test_build_upstream_url_adds_scheme; test_parse_backend_peer_splits_host_port;
   test_strip_prefix_empty_becomes_root; test_resolve_client_ip_prefers_public_socket; test_resolve_client_ip_skips_private_socket_for_xff;
   test_resolve_client_ip_unwraps_ipv4_mapped; test_normalize_ip_strips_zone_id; test_resolve_client_ip_falls_back_to_xff;
   test_ipv4_mapped_private_is_not_public; test_forwarded_client_ip_header_pairs_appends_existing_xff; test_resolve_forward_https_upstream;
   test_resolve_forward_forwards_client_ip_flag; test_resolve_forward_missing_route_errors] = true.
Proof. vm_compute. reflexivity. Qed.

(** ** proxy/apply.rs *)

Definition t_backend (name addr : str) (weight : N) : CfgBackend := mkCfgBackend name [mkUpstream addr weight] RoundRobin None 0.
Definition t_site (host backend : str) (routes : list PathRewrite) (fwd : bool) : Site :=
  mkSite host routes backend None None None None true fwd None None geoip_default security_default.
Definition t_rewrite (path : str) (rewrite upstream : option str) : PathRewrite :=
  mkPathRewrite CfgPrefix path rewrite upstream None 0 0 None.
Definition t_config (backends : list CfgBackend) (sites : list Site) : Config :=
  with_sites config_default sites backends.
Definition t_apply (c : Config) : RouteTable :=
  match config_to_route_table to_ascii_lowercase t_url c with Ok t => t | Err _ => from_routes ∅ end.

Definition two_backends : list CfgBackend := [t_backend "web" "http://127.0.0.1:6681" 1; t_backend "api" "http://127.0.0.1:7780" 1].
Definition t_sample_config_with (api : PathRewrite) : Config :=
  t_config two_backends [t_site "driver.erp.astrosystem.co" "web" [t_rewrite "/" (Some (bs "/")) None; api] true].
Definition t_sample_config : Config := t_sample_config_with (t_rewrite "/api" None (Some (bs "http://127.0.0.1:7780"))).

Definition test_per_route_upstream_overrides_site_backend : bool :=
  let table := t_apply t_sample_config in
  bool_decide (t_match table "driver.erp.astrosystem.co" "/api/v1/x" = Some (mkBackend "127.0.0.1:7780" 7780 false))
  && bool_decide (t_match table "driver.erp.astrosystem.co" "/app" = Some (mkBackend "127.0.0.1:6681" 6681 false)).

Definition test_rewrite_url_compat_used_as_upstream : bool :=
  bool_decide (port <$> t_match (t_apply (t_sample_config_with (t_rewrite "/api" (Some (bs "http://localhost:7780")) None)))
                          "driver.erp.astrosystem.co" "/api/health" = Some 7780).

Definition test_two_sites_same_host_merge_routes : bool :=
  let table := t_apply (t_config two_backends
    [t_site "driver.erp.astrosystem.co" "web" [t_rewrite "/" None None] true; t_site "driver.erp.astrosystem.co" "api" [t_rewrite "/api" None None] true]) in
  bool_decide (port <$> t_match table "driver.erp.astrosystem.co" "/api/x" = Some 7780)
  && bool_decide (port <$> t_match table "driver.erp.astrosystem.co" "/" = Some 6681).

Lemma apply_tests_pass : forallb id
  [test_per_route_upstream_overrides_site_backend; test_rewrite_url_compat_used_as_upstream; test_two_sites_same_host_merge_routes] = true.
Proof. vm_compute. reflexivity. Qed.

(** ** routes_config.rs *)

(** A text whose parsed value is the file given. *)
Definition t_file (routes : list RouteSpec) : RoutesFile := mkRoutesFile routes [] http3_options_default.
Definition t_spec (host : option str) (path type upstream : str) : RouteSpec := mkRouteSpec host [] path type upstream [].
Definition t_load (text : str) (f : RoutesFile) : result LoadError LoadedRoutes :=
  load_from_str t_url (fun s => if s =s text then Some f else None) (fun s => if s =s text then Some f else None) text.
Definition t_loaded (text : str) (f : RoutesFile) (host path : str) : bool :=
  match t_load text f with Ok l => is_some (t_match (lr_table l) host path) | Err _ => false end.

Definition test_parses_yaml_routes : bool :=
  match build_table t_url [t_spec (Some (bs "app.example.com")) "/api" "prefix" "http://backend:8080"] with
  | Ok t => is_some (t_match t "app.example.com" "/api/v1")
  | Err _ => false
  end.

Definition test_load_from_str_json : bool :=
  t_loaded "{...}" (t_file [t_spec (Some (bs "app.example.com")) "/" "prefix" "http://backend:8080"]) "app.example.com" "/".

Definition test_validate_yaml_rejects_bad_upstream : bool :=
  match validate_yaml t_url (fun _ => Some (t_file [t_spec (Some (bs "app.example.com")) "/" "prefix" ":"])) "routes:" with Ok _ => false | Err _ => true end.

Definition test_validate_yaml_accepts_good_routes : bool :=
  match validate_yaml t_url (fun _ => Some (t_file [t_spec (Some (bs "app.example.com")) "/" "prefix" "http://backend:8080"])) "routes:" with Ok _ => true | Err _ => false end.

Definition test_multiple_hosts_and_wildcard_default : bool :=
  let f := t_file [mkRouteSpec None [bs "a.example.com"; bs "b.example.com"] "/v1" "exact" "backend:9000" []; t_spec None "/" "prefix" "http://catchall:80"] in
  t_loaded "routes:" f "a.example.com" "/v1" && t_loaded "routes:" f "b.example.com" "/v1" && t_loaded "routes:" f "other.example.com" "/".

Definition test_routes_implementation_specific_path_type : bool :=
  t_loaded "routes:" (t_file [t_spec (Some (bs "app.example.com")) "/api" "implementation_specific" "http://backend:8080"]) "app.example.com" "/api/extra".

Definition test_load_from_file_roundtrip : bool :=
  let f := t_file [t_spec (Some (bs "file.example.com")) "/" "prefix" "http://backend:8080"] in
  match routes_load t_url (fun _ => None) (fun s => if s =s "routes:" then Some f else None)
          (fun p => if p =s "/tmp/d/routes.yaml" then Some (bs "routes:") else None) "/tmp/d/routes.yaml" with
  | Ok l => is_some (t_match (lr_table l) "file.example.com" "/")
  | Err _ => false
  end.

Lemma routes_config_tests_pass : forallb id
  [test_parses_yaml_routes; test_load_from_str_json; test_validate_yaml_rejects_bad_upstream; test_validate_yaml_accepts_good_routes;
   test_multiple_hosts_and_wildcard_default; test_routes_implementation_specific_path_type; test_load_from_file_roundtrip] = true.
Proof. vm_compute. reflexivity. Qed.

(** ** proxy_config.rs *)

Definition t_endpoint (addr scheme host : str) (p : N) : bool :=
  let e := parse_upstream_endpoint addr in (pue_scheme e =s scheme) && (pue_host e =s host) && (pue_port e =? p).

Definition test_parse_host_port_ipv4 : bool := t_endpoint "10.1.1.187:443" "http" "10.1.1.187" 443.
Definition test_parse_https_url : bool := t_endpoint "https://10.1.1.99:443" "https" "10.1.1.99" 443.

Definition test_summary_includes_backends : bool :=
  match ups_upstreams (upstream_ports_summary (t_config [t_backend "api" "127.0.0.1:8080" 1] [t_site "example.com" "api" [] false])) with
  | [e] => (upe_port e =? 8080) && bool_decide (upe_sites e = [bs "example.com"])
  | _ => false
  end.

Definition test_parse_ipv6_bracket_host : bool := t_endpoint "https://[2001:db8::1]:8443" "https" "[2001:db8::1]" 8443.

Definition test_parse_host_without_port_uses_defaults : bool :=
  (pue_port (parse_upstream_endpoint "backend.local") =? 80) && (pue_port (parse_upstream_endpoint "https://secure.local") =? 443).

Definition test_default_config_has_security_headers : bool :=
  is_some (cfg_security_headers config_default !! bs "Strict-Transport-Security") && proxy_log config_default.

Definition t_listens (name : str) (c : Config) : bool := existsb (fun e => lpe_name e =s name) (listen_ports (upstream_ports_summary c)).

Definition test_listen_ports_include_http3_when_set : bool := t_listens "http3" (set_addrs default_http_addr default_https_addr (Some (any_v6 443)) default_management_addr config_default).
Definition test_config_upstream_ports_summary_method : bool := t_listens "http" config_default.
Definition test_parse_http_scheme_url : bool := t_endpoint "http://backend:8080" "http" "backend" 8080.
Definition test_parse_empty_host_uses_default_port : bool := t_endpoint "https://" "https" "" 443.

Definition test_upstream_entries_sorted_by_backend_port_host : bool :=
  match ups_upstreams (upstream_ports_summary (t_config [t_backend "z-backend" "10.0.0.2:80" 0; t_backend "a-backend" "10.0.0.1:443" 1] [])) with
  | [a; z] => (upe_backend a =s "a-backend") && (upe_backend z =s "z-backend") && (upe_weight a =? 1)
  | _ => false
  end.

Definition test_config_default_trait_impl : bool := is_empty (cfg_sites config_default) && proxy_log config_default.

Definition test_upstream_summary_orphan_backend_has_no_sites : bool :=
  match ups_upstreams (upstream_ports_summary (t_config [t_backend "orphan" "127.0.0.1:9999" 1] [])) with
  | [e] => is_empty (upe_sites e)
  | _ => false
  end.

Definition acme_source : TlsSource := Acme (Some (bs "admin@example.com")) "http01" None None None.
Definition t_acme (hosts : list str) (expires : option str) : TlsConfig := mkTlsConfig hosts acme_source expires.
Definition t_pem (hosts : list str) (cert key : str) : TlsConfig := mkTlsConfig hosts (File cert key) None.
Definition t_normal (l : list TlsConfig) : list TlsConfig := normalize_tls_config l.

Definition test_wildcard_covers_single_label : bool :=
  wildcard_covers_host "*.example.com" "app.example.com" && negb (wildcard_covers_host "*.example.com" "a.b.example.com")
  && negb (wildcard_covers_host "*.example.com" "example.com") && wildcard_covers_host "example.com" "example.com"
  && negb (wildcard_covers_host "" "example.com").

Definition test_normalize_tls_merges_overlapping_acme_hosts : bool :=
  match t_normal [t_acme [bs "a.example.com"] (Some (bs "2026-01-01")); t_acme [bs "a.example.com"] None] with
  | [e] => (length (tls_hosts e) =? 1)%nat && negb (is_some (expires_at e))
  | _ => false
  end.

Definition test_normalize_tls_merges_wildcard_acme_entries : bool :=
  (length (t_normal [t_acme [bs "*.example.com"] None; t_acme [bs "*.example.com"] None]) =? 1)%nat.

Definition test_normalize_tls_dedupes_hosts_case_insensitively : bool :=
  match t_normal [t_acme [bs "A.example.com"] None; t_acme [bs "a.example.com"] None] with
  | [e] => (length (tls_hosts e) =? 1)%nat
  | _ => false
  end.

Definition test_normalize_tls_merges_file_entries_with_different_paths : bool :=
  (length (t_normal [t_pem [bs "a.example.com"] "/a.pem" "/a.key"; t_pem [bs "b.example.com"] "/b.pem" "/b.key"]) =? 2)%nat.

Definition test_normalize_tls_merges_same_file_cert_hosts : bool :=
  match t_normal [t_pem [bs "a.example.com"] "/shared.pem" "/shared.key"; t_pem [bs "b.example.com"] "/shared.pem" "/shared.key"] with
  | [e] => (length (tls_hosts e) =? 2)%nat
  | _ => false
  end.

Definition test_normalize_tls_skips_disjoint_acme : bool :=
  (length (t_normal [t_acme [bs "a.example.com"] None;
                     mkTlsConfig [bs "a.example.com"] (Acme (Some (bs "admin@example.com")) "dns01" None None None) None]) =? 2)%nat.

Definition test_normalize_tls_skips_empty_host_names : bool :=
  match t_normal [t_acme [bs "ok.example.com"] None; t_acme [bs ""; bs "   "; bs "ok.example.com"] None] with
  | [e] => bool_decide (tls_hosts e = [bs "ok.example.com"])
  | _ => false
  end.

Definition test_normalize_tls_drops_invalid_acme_tld_wildcards : bool :=
  match t_normal [t_acme [bs "*.com"; bs "pertisk.com"; bs "*.pertisk.com"] None] with
  | [e] => negb (bool_decide (bs "*.com" ∈ tls_hosts e)) && bool_decide (bs "pertisk.com" ∈ tls_hosts e) && bool_decide (bs "*.pertisk.com" ∈ tls_hosts e)
  | _ => false
  end.

Definition test_normalize_tls_removes_entry_that_only_had_invalid_hosts : bool := is_empty (t_normal [t_acme [bs "*.com"] None]).

Definition test_is_invalid_acme_identifier_detects_tld_wildcards : bool :=
  is_invalid_acme_identifier "*.com" && is_invalid_acme_identifier "com" && negb (is_invalid_acme_identifier "*.pertisk.com")
  && negb (is_invalid_acme_identifier "pertisk.com") && negb (is_invalid_acme_identifier "admin.pertisk.com").

Definition test_tls_has_acme_config_detects_acme_entries : bool :=
  negb (tls_has_acme_config []) && tls_has_acme_config [t_acme [bs "*.example.com"] None]
  && negb (tls_has_acme_config [t_pem [bs "example.com"] "/a.pem" "/a.key"]).

Definition test_normalize_tls_disjoint_file_paths_do_not_merge : bool :=
  (length (t_normal [t_pem [bs "a.example.com"] "/a.pem" "/a.key"; t_pem [bs "b.example.com"] "/b.pem" "/b.key"]) =? 2)%nat.

Definition test_acme_sources_equivalent_rejects_mixed_types : bool :=
  (length (t_normal [t_pem [bs "x.example.com"] "/a.pem" "/a.key"; t_acme [bs "x.example.com"] None]) =? 2)%nat.

Lemma proxy_config_tests_pass : forallb id
  [test_parse_host_port_ipv4; test_parse_https_url; test_summary_includes_backends; test_parse_ipv6_bracket_host;
   test_parse_host_without_port_uses_defaults; test_default_config_has_security_headers; test_listen_ports_include_http3_when_set;
   test_config_upstream_ports_summary_method; test_parse_http_scheme_url; test_parse_empty_host_uses_default_port;
   test_upstream_entries_sorted_by_backend_port_host; test_config_default_trait_impl; test_upstream_summary_orphan_backend_has_no_sites;
   test_wildcard_covers_single_label; test_normalize_tls_merges_overlapping_acme_hosts; test_normalize_tls_merges_wildcard_acme_entries;
   test_normalize_tls_dedupes_hosts_case_insensitively; test_normalize_tls_merges_file_entries_with_different_paths;
   test_normalize_tls_merges_same_file_cert_hosts; test_normalize_tls_skips_disjoint_acme; test_normalize_tls_skips_empty_host_names;
   test_normalize_tls_drops_invalid_acme_tld_wildcards; test_normalize_tls_removes_entry_that_only_had_invalid_hosts;
   test_is_invalid_acme_identifier_detects_tld_wildcards; test_tls_has_acme_config_detects_acme_entries;
   test_normalize_tls_disjoint_file_paths_do_not_merge; test_acme_sources_equivalent_rejects_mixed_types] = true.
Proof. vm_compute. reflexivity. Qed.
