(* ===== verification/TestsTraffic.v ===== *)
(** * The unit tests of traffic handling, on the model

    The repository's tests of proxy/grpc.rs, proxy/registry.rs, proxy/mod.rs, health.rs,
    deny.rs, metrics.rs, log.rs, logging.rs, h3/headers.rs, h3/bind.rs, server.rs and
    edge/mod.rs, each as a boolean of the same name with [test_] before it.  Header maps
    are the association lists of [Http], the MAC is the toy one of [EdgeAuth]. *)

From S2P Require Import Prelude RustStr Ip GeoIp Waf Bot Captcha Security Edge EdgeAuth ProxyConfig Router Forward Apply.
From S2P Require Import Http Respond Telemetry Logging CertStore Grpc Registry Gateway H3 H3Props H3Quiche Database Admin Settings Startup Readout.

Definition hs (l : list (str * str)) : header_list := l.
Definition t_no_env (_ : str) : option str := None.
Definition env_of (key value : str) (k : str) : option str := if k =s key then Some value else None.
Definition t_request (method path : str) (h : header_list) : RequestHeader header_list := mkRequestHeader method (mkUri None None (Some path)) h.
Definition t_same (a : option str) (b : str) : bool := match a with Some a => a =s b | None => false end.

(** ** proxy/grpc.rs *)

#[local] Existing Instance plain_uri.
Definition t_rpc : str := "/api/omni.resources.ResourceService/Get".
Definition t_rewritten (method path want : str) : bool :=
  match rewrite_upstream_grpc_path (t_request method path (hs [])) with Ok r => uri_path (rq_uri r) =s want | Err _ => false end.
Definition t_classified (content_type path host : str) (grpc grpc_web h2c : bool) : bool :=
  let '(a, b) := classify_grpc_request (hs [(bs "content-type", content_type)]) "POST" path host in
  bool_decide (a = grpc) && bool_decide (b = grpc_web) && bool_decide (uses_h2c_upstream a b = h2c).

Definition test_grpc_web_content_type_is_not_native_grpc : bool :=
  let h := hs [(bs "content-type", bs "application/grpc-web+proto")] in
  negb (is_grpc_request h) && is_grpc_web_request h "POST" t_rpc.

Definition test_detects_grpc_web_by_metadata_on_rpc_path_only : bool :=
  let h := hs [(bs "grpc-metadata-foo", bs "bar")] in
  negb (is_grpc_web_request h "GET" "/assets/config.json") && is_grpc_web_request h "POST" t_rpc.

Definition test_connect_json_watch_is_not_grpc_but_long_lived : bool :=
  let h := hs [(bs "content-type", bs "application/json"); (bs "connect-protocol-version", bs "1")] in
  bool_decide (classify_grpc_request h "POST" "/api/omni.resources.ResourceService/Watch" "omni.pertisk.com" = (false, false))
  && is_long_lived_api_stream "POST" "/api/omni.resources.ResourceService/Watch" h.

Definition test_api_rpc_paths_force_grpc_web_even_with_native_content_type : bool :=
  t_classified "application/grpc" t_rpc "omni.pertisk.com" true true false.

Definition test_machine_api_keeps_native_grpc_on_api_paths : bool :=
  t_classified "application/grpc" "/api/cosi.resource.State/Get" "api.omni.pertisk.com" true false true
  && is_h2c_only_upstream "api.omni.pertisk.com" 8090.

Definition test_native_grpc_without_api_prefix_uses_h2c : bool :=
  t_classified "application/grpc" "/omni.resources.ResourceService/Watch" "api.omni.pertisk.com" true false true.

Definition test_rewrites_api_prefix_for_native_grpc : bool :=
  t_rewritten "POST" "/api/omni.resources.ResourceService/Watch" "/omni.resources.ResourceService/Watch".

Definition test_omni_rpc_path_detection : bool :=
  is_grpc_rpc_path "/api/omni.resources.ResourceService/Watch" && negb (is_grpc_rpc_path "/api/health").

Definition test_grpc_rpc_method_extraction : bool :=
  t_same (grpc_rpc_method "/api/foo.Bar/Baz") "Baz" && negb (is_some (grpc_rpc_method "/")).

Definition test_server_streaming_methods : bool := is_grpc_server_streaming "/api/svc/Watch" && negb (is_grpc_server_streaming "/api/svc/Get").

Definition test_connect_and_native_grpc_detection : bool :=
  let h := hs [(bs "content-type", bs "application/grpc+proto")] in
  is_connect_request (hs [(bs "connect-protocol-version", bs "1")]) && is_grpc_request h && is_grpc_like_request h "POST" "/api/x.Y/Z".

Definition test_h3_incompatible_for_grpc_paths : bool :=
  is_h3_incompatible_request (hs [(bs "content-type", bs "application/json")]) "POST" "/api/foo.Bar/Get".

Definition test_sse_is_long_lived_and_h3_incompatible : bool :=
  let h := hs [(bs "accept", bs "text/event-stream")] in
  is_sse_request "GET" "/api/events" h && is_long_lived_api_stream "GET" "/api/events" h && is_h3_incompatible_request h "GET" "/api/events"
  && is_sse_request "GET" "/api/events" (hs []) && negb (is_sse_request "POST" "/api/events" h).

Definition test_rewrite_api_only_path : bool := t_rewritten "GET" "/api" "/".
Definition test_rewrite_non_api_path_unchanged : bool := t_rewritten "GET" "/health" "/health".

Definition test_prepare_upstream_and_response_headers : bool :=
  let resp := prepare_streaming_response_headers (hs [(bs "transfer-encoding", bs "chunked")]) in
  contains_key (prepare_upstream_request (hs [(bs "connection", bs "keep-alive")]) false) "te"
  && negb (contains_key resp "content-length") && contains_key resp "x-accel-buffering".

Definition test_merge_cookie_headers_joins_values : bool :=
  t_same (hget (merge_cookie_headers (hs [(bs "cookie", bs "a=1"); (bs "cookie", bs "b=2")])) "cookie") "a=1; b=2".

Definition test_grpc_timeouts_from_env_defaults : bool :=
  bool_decide (grpc_upstream_timeout t_no_env = Some 3600) && (grpc_h2_ping_interval t_no_env =? 20).

Definition test_machine_api_host_detection : bool :=
  is_machine_api_host "api.omni.pertisk.com" && is_machine_api_host "api.omni.pertisk.com:443"
  && negb (is_machine_api_host "omni.pertisk.com") && is_h2c_only_upstream "other.com" 8090.

Definition test_x_grpc_web_header_detection : bool := is_grpc_web_request (hs [(bs "x-grpc-web", bs "1")]) "POST" "/api/foo.Bar/Get".

Definition test_prepare_upstream_streaming_sets_identity_encoding : bool :=
  t_same (hget (prepare_upstream_streaming_request (hs [])) "accept-encoding") "identity".

Definition test_connect_content_type_detection : bool := is_connect_request (hs [(bs "content-type", bs "application/connect+json")]).

Definition test_strip_hop_by_hop_on_response : bool :=
  negb (contains_key (strip_hop_by_hop_response_headers (hs [(bs "connection", bs "close")])) "connection").

Definition test_rewrite_empty_api_suffix : bool := t_rewritten "POST" "/api/" "/".

Definition test_grpc_upstream_timeout_zero_is_max : bool :=
  negb (is_some (grpc_upstream_timeout (env_of "PERTISK_GRPC_UPSTREAM_REQUEST_TIMEOUT_SECS" "0"))).

Definition test_merge_cookie_single_value_noop : bool :=
  t_same (hget (merge_cookie_headers (hs [(bs "cookie", bs "only=1")])) "cookie") "only=1".

Definition test_prepare_streaming_response_sets_alt_svc_clear : bool :=
  t_same (hget (prepare_streaming_response_headers (hs [])) "Alt-Svc") "clear".

Definition test_is_benign_h2_cancel_and_reset : bool :=
  let benign s := is_benign_downstream_disconnect (mkPError H2Error SrcDownstream s) in
  benign "stream no longer needed" && benign "Client closed H2 CANCEL" && benign "connection reset by peer" && negb (benign "protocol error").

Definition test_is_benign_downstream_disconnect_detects_closed : bool :=
  is_benign_downstream_disconnect (mkPError ConnectionClosed SrcDownstream []) && negb (is_benign_downstream_disconnect (mkPError InternalError SrcUpstream [])).

Lemma grpc_tests_pass : forallb id
  [test_grpc_web_content_type_is_not_native_grpc; test_detects_grpc_web_by_metadata_on_rpc_path_only;
   test_connect_json_watch_is_not_grpc_but_long_lived; test_api_rpc_paths_force_grpc_web_even_with_native_content_type;
   test_machine_api_keeps_native_grpc_on_api_paths; test_native_grpc_without_api_prefix_uses_h2c; test_rewrites_api_prefix_for_native_grpc;
   test_omni_rpc_path_detection; test_grpc_rpc_method_extraction; test_server_streaming_methods; test_connect_and_native_grpc_detection;
   test_h3_incompatible_for_grpc_paths; test_sse_is_long_lived_and_h3_incompatible; test_rewrite_api_only_path;
   test_rewrite_non_api_path_unchanged; test_prepare_upstream_and_response_headers; test_merge_cookie_headers_joins_values;
   test_grpc_timeouts_from_env_defaults; test_machine_api_host_detection; test_x_grpc_web_header_detection;
   test_prepare_upstream_streaming_sets_identity_encoding; test_connect_content_type_detection; test_strip_hop_by_hop_on_response;
   test_rewrite_empty_api_suffix; test_grpc_upstream_timeout_zero_is_max; test_merge_cookie_single_value_noop;
   test_prepare_streaming_response_sets_alt_svc_clear; test_is_benign_h2_cancel_and_reset;
   test_is_benign_downstream_disconnect_detects_closed] = true.
Proof. vm_compute. reflexivity. Qed.

(** ** proxy/registry.rs *)

Definition test_oci_paths : bool :=
  forallb is_oci_registry_path [bs "/v2"; bs "/v2/"; bs "/v2/pertisksoft/hello-cicd/blobs/uploads/"; bs "/service/token"; bs "/service/token?service=harbor-registry"]
  && negb (is_oci_registry_path "/api/v2/x") && negb (is_oci_registry_path "/harbor/v2/").

Definition test_post_token_with_query_becomes_get : bool :=
  rq_method (normalize_registry_token_request (t_request "POST" "/service/token?service=harbor-registry" (hs []))) =s "GET".

Definition test_strips_cookie_and_sets_forward_headers : bool :=
  let h := prepare_registry_upstream_request (hs [(bs "cookie", bs "sid=abc"); (bs "x-forwarded-proto", bs "http")])
             "GET" "/v2/" "registry.example.com" (Some (bs "203.0.113.1")) true in
  negb (contains_key h "cookie") && t_same (hget h "X-Forwarded-Proto") "https" && t_same (hget h "X-Forwarded-Port") "443"
  && t_same (hget h "X-Forwarded-Ssl") "on" && t_same (hget h "X-Forwarded-Host") "registry.example.com"
  && t_same (hget h "Accept-Encoding") "identity".

Definition test_blob_upload_sets_connection_close : bool :=
  t_same (hget (prepare_registry_upstream_request (hs []) "PUT" "/v2/x/blobs/uploads/u?digest=sha256:abc" "registry.example.com"
                  (Some (bs "203.0.113.1")) true) "connection") "close".

Definition test_blob_upload_paths : bool :=
  is_registry_blob_upload "PUT" "/v2/pertisksoft/hello-cicd/blobs/uploads/uuid?digest=sha256:abc"
  && negb (is_registry_blob_upload "HEAD" "/v2/pertisksoft/hello-cicd/blobs/sha256:abc").

Definition test_registry_timeout_defaults : bool := bool_decide (registry_upstream_timeout t_no_env = Some 3600).

Definition test_strips_set_cookie_on_response : bool :=
  let h := prepare_registry_response_headers (hs [(bs "set-cookie", bs "sid=abc; Path=/; HttpOnly")]) true in
  negb (contains_key h "set-cookie") && t_same (hget h "Alt-Svc") "clear".

Definition upload_location : str := "http://harbor.example.com/v2/foo/blobs/uploads/uuid".

Definition test_rewrites_http_location_to_https : bool :=
  t_same (hget (prepare_registry_response_headers (hs [(bs "location", upload_location)]) true) "location")
    "https://harbor.example.com/v2/foo/blobs/uploads/uuid".

Definition test_leaves_http_location_when_downstream_plain_http : bool :=
  t_same (hget (prepare_registry_response_headers (hs [(bs "location", upload_location)]) false) "location") upload_location.

Lemma registry_tests_pass : forallb id
  [test_oci_paths; test_post_token_with_query_becomes_get; test_strips_cookie_and_sets_forward_headers; test_blob_upload_sets_connection_close;
   test_blob_upload_paths; test_registry_timeout_defaults; test_strips_set_cookie_on_response; test_rewrites_http_location_to_https;
   test_leaves_http_location_when_downstream_plain_http] = true.
Proof. vm_compute. reflexivity. Qed.

(** ** health.rs, deny.rs, proxy/mod.rs and server.rs *)

Definition test_health_paths_match_probes : bool :=
  is_health_path "/api/health" && is_health_path "/healthz" && negb (is_health_path "/api/config").
Definition test_json_health_paths : bool := is_json_health_path "/api/health" && negb (is_json_health_path "/healthz").

Definition test_installer_hosts_from_splits_and_normalizes : bool :=
  bool_decide (installer_hosts_from " get.proxy.pertisk.com, GET.pertisk.com. " = [bs "get.proxy.pertisk.com"; bs "get.pertisk.com"])
  && is_empty (installer_hosts_from "") && is_empty (installer_hosts_from "https://evil.example/x").

Definition test_unknown_host_status_codes : bool := (unknown_host_status false =? 404) && (unknown_host_status true =? 421).

Definition test_h3_response_builds_body : bool :=
  let '(rs, body) := h3_response (H := header_list) false false in
  (rs_status rs =? 404) && (body =s "not found") && (rs_status (h3_response (H := header_list) false true).1 =? 421).

Definition test_enabled_defaults_to_true : bool := deny_enabled t_no_env.

Definition t_quoted (before inside after : str) : str := before ++ [x22] ++ inside ++ [x22] ++ after.

Definition test_alt_svc_advertises_h3_when_enabled : bool :=
  match alt_svc_header_value true 443 "example.com" new_ctx with
  | Some v => contains (t_quoted "h3=" ":443" "") v && contains (t_quoted "h3-29=" ":443" "") v
  | None => false
  end.

Definition test_alt_svc_clear_for_grpc : bool :=
  t_same (alt_svc_header_value true 443 "example.com" (set_flags new_ctx (mkStreamFlags true false false false false))) "clear".

Definition test_alt_svc_clear_for_long_lived_sse : bool :=
  t_same (alt_svc_header_value true 443 "ptkos.apps.example.com" (set_flags new_ctx (mkStreamFlags false false true false false))) "clear".

Definition test_alt_svc_omitted_when_h3_disabled : bool := negb (is_some (alt_svc_header_value false 443 "example.com" new_ctx)).

Definition empty_server_config (cert key : option str) : ServerConfig := mkServerConfig "0.0.0.0:8080" "0.0.0.0:8443" "[::]:8443" false true cert key.
Definition t_https (cert key : option str) (pending always : bool) : bool :=
  https_should_listen map_to_list (empty_server_config cert key) store_new pending always.

Definition test_https_stays_off_without_certs_unless_sni_always : bool := negb (t_https None None false false) && t_https None None false true.

Definition test_https_listens_when_acme_pending_or_file_paths_set : bool :=
  t_https None None true false && t_https (Some (bs "/tmp/cert.pem")) (Some (bs "/tmp/key.pem")) false false.

Lemma gateway_tests_pass : forallb id
  [test_health_paths_match_probes; test_json_health_paths; test_installer_hosts_from_splits_and_normalizes; test_unknown_host_status_codes;
   test_h3_response_builds_body; test_enabled_defaults_to_true; test_alt_svc_advertises_h3_when_enabled; test_alt_svc_clear_for_grpc;
   test_alt_svc_clear_for_long_lived_sse; test_alt_svc_omitted_when_h3_disabled; test_https_stays_off_without_certs_unless_sni_always;
   test_https_listens_when_acme_pending_or_file_paths_set] = true.
Proof. vm_compute. reflexivity. Qed.

(** ** metrics.rs, log.rs and logging.rs *)

Definition t_quotient (a b : N) : str := show_N a ++ bs "/" ++ show_N b.
Definition t_metrics (m : ProxyMetrics) (line : str) : bool := contains line (get_metrics_text t_quotient m).
Definition t_site_hit (host : str) (v : HttpVersion) : ProxyMetrics -> ProxyMetrics := inc_site_protocol_requests to_ascii_lowercase host v.

Definition t_counted : ProxyMetrics :=
  foldl (fun m f => f m) metrics_new
    [inc http_requests_total; inc https_requests_total; inc h2_requests_total; inc h3_requests_total; inc grpc_requests_total;
     inc upstream_errors_total; inc active_connections; dec_active_connections; add_bytes bytes_sent_total 100; add_bytes bytes_sent_total 0;
     add_bytes bytes_received_total 50; t_site_hit "Example.COM" HTTP_2; t_site_hit "example.com" HTTP_3; t_site_hit "" HTTP_2;
     t_site_hit "other.com" HTTP_11].

Definition test_counters_increment_and_export : bool :=
  bool_decide (site_protocol_snapshot t_counted !! bs "example.com" = Some (1, 1))
  && t_metrics t_counted "pertisk_http_requests_total 1" && t_metrics t_counted (t_quoted "pertisk_site_h2_requests_total{host=" "example.com" "} 1")
  && t_metrics t_counted "pertisk_bytes_sent_total 100" && t_metrics t_counted "pertisk_bytes_received_total 50"
  && t_metrics t_counted "pertisk_h3_vs_h2_ratio".

Definition test_h3_vs_h2_ratio_infinity_when_only_h3 : bool := t_metrics (inc h3_requests_total metrics_new) "pertisk_h3_vs_h2_ratio +Inf".

Definition test_metrics_env_defaults : bool :=
  (sock_port (metrics_addr_from_env t_no_env) =? 9990) && metrics_enabled_from_env t_no_env.
Definition test_metrics_env_can_disable : bool := negb (metrics_enabled_from_env (env_of "PERTISK_METRICS_ENABLED" "off")).
Definition test_site_ratio_zero_when_no_requests : bool := t_metrics metrics_new "pertisk_h3_vs_h2_ratio 0".
Definition test_default_metrics_impl : bool := t_metrics metrics_new "pertisk_http_requests_total" && t_metrics metrics_new "pertisk_active_connections".

Definition test_ui_log_level_filters_by_severity : bool :=
  negb (ui_log_enabled Warn Info) && negb (ui_log_enabled Warn Debug) && ui_log_enabled Warn Warn && ui_log_enabled Warn Error.

Definition test_push_sync_respects_min_level : bool :=
  (length (log_entries (push_sync Warn (log_error 0 "boom") (push_sync Warn (log_config_reload 0 "reload") (log_new 10)))) =? 1)%nat.

Definition test_parse_log_level_values : bool :=
  match parse_log_level "debug", parse_log_level "WARN", parse_log_level "invalid" with DEBUG, WARN, INFO => true | _, _, _ => false end.

Definition test_build_filter_spec_quiets_pingora_at_info : bool :=
  (build_filter_spec t_no_env INFO =s "info,pingora_core::services::listening=off,pingora_core::apps=off,pingora_proxy=warn")
  && (build_filter_spec t_no_env WARN =s "warn,pingora_core::services::listening=off,pingora_core::apps=off,pingora_proxy=warn")
  && (build_filter_spec t_no_env DEBUG =s "debug").

Definition test_short_target_strips_crate_prefix : bool := short_target "pertisk_proxy::tls::sni" =s "tls::sni".

Lemma telemetry_tests_pass : forallb id
  [test_counters_increment_and_export; test_h3_vs_h2_ratio_infinity_when_only_h3; test_metrics_env_defaults; test_metrics_env_can_disable;
   test_site_ratio_zero_when_no_requests; test_default_metrics_impl; test_ui_log_level_filters_by_severity; test_push_sync_respects_min_level;
   test_parse_log_level_values; test_build_filter_spec_quiets_pingora_at_info; test_short_target_strips_crate_prefix] = true.
Proof. vm_compute. reflexivity. Qed.

(** ** h3/headers.rs, h3/bind.rs (on Linux) and edge/mod.rs *)

Definition test_pseudo_authority_strips_port : bool := t_same (pseudo_authority [(bs ":authority", bs "api.example.com:443")]) "api.example.com".

Definition test_pseudo_method_path_extracts_path_without_query : bool :=
  bool_decide (pseudo_method_path [(bs ":method", bs "GET"); (bs ":path", bs "/api/health?verbose=1")] = Some (bs "GET", bs "/api/health")).

Definition test_dual_stack_from_ipv4_unspecified : bool :=
  bool_decide (h3_bind_addrs false "0.0.0.0:443" = [bs "[::]:443"])
  && bool_decide (show_bind_addr <$> h3_bind_candidates false "0.0.0.0:443" = [bs "[::]:443"; bs "0.0.0.0:443"])
  && bool_decide (tcp_bind_addrs false "[::]:80" = [bs "[::]:80"]) && bool_decide (tcp_bind_addrs false "127.0.0.1:8080" = [bs "127.0.0.1:8080"])
  && bool_decide (h3_bind_addrs true "0.0.0.0:443" = [bs "0.0.0.0:443"; bs "[::]:443"]).

Definition test_effective_listen_display_unspecified : bool :=
  (effective_listen_display false "0.0.0.0:443" =s "[::]:443, 0.0.0.0:443") && (effective_udp_listen_display false "0.0.0.0:443" =s "[::]:443, 0.0.0.0:443")
  && (effective_listen_display false "[::]:80" =s "[::]:80") && (effective_listen_display true "0.0.0.0:443" =s "0.0.0.0:443, [::]:443").

Definition test_invalid_listen_passthrough : bool :=
  bool_decide (tcp_bind_addrs false "not-an-addr" = [bs "not-an-addr"]) && bool_decide (h3_bind_addrs false "not-an-addr" = [bs "not-an-addr"])
  && bool_decide (h3_bind_addrs false "127.0.0.1:443" = [bs "127.0.0.1:443"]) && is_empty (h3_bind_candidates false "not-an-addr")
  && (length (h3_bind_candidates false "127.0.0.1:8443") =? 1)%nat && (effective_listen_display false "not-an-addr" =s "not-an-addr")
  && (effective_udp_listen_display false "not-an-addr" =s "not-an-addr").

Definition test_rate_limit_trips : bool :=
  let '(a, ws) := rate_limited 7 "test-7" 2 ∅ in
  let '(b, ws) := rate_limited 7 "test-7" 2 ws in
  negb a && negb b && (rate_limited 7 "test-7" 2 ws).1.

Definition test_file_rejects_traversal : bool :=
  negb (is_some (safe_file "/var/www" "/../etc/passwd")) && t_same (safe_file "/var/www" "/css/app.css") "/var/www/css/app.css".

#[local] Existing Instance toy_crypto.
#[local] Existing Instance toy_mac.

Definition test_jwt_roundtrip : bool :=
  let token := issue_jwt 1000 "secret" "valod" 10 in verify_jwt 1000 "secret" token && negb (verify_jwt 1000 "other" token).

Definition test_api_key_header : bool :=
  let get v k := if k =s "x-api-key" then Some v else None in
  auth_header_ok 0 (ApiKey "abc") (get (bs "abc")) "" && negb (auth_header_ok 0 (ApiKey "abc") (get (bs "nope")) "").

Lemma listener_tests_pass : forallb id
  [test_pseudo_authority_strips_port; test_pseudo_method_path_extracts_path_without_query; test_dual_stack_from_ipv4_unspecified;
   test_effective_listen_display_unspecified; test_invalid_listen_passthrough; test_rate_limit_trips; test_file_rejects_traversal;
   test_jwt_roundtrip; test_api_key_header] = true.
Proof. vm_compute. reflexivity. Qed.
