(* ===== verification/TestsSecurity.v ===== *)
(** * The unit tests of protection and certificates, on the model

    The repository's tests of geoip.rs, security/, tls/store.rs, tls/validate.rs (the
    names), api/acme.rs, email/templates.rs and tunnel/client, each as a boolean of the
    same name with [test_] before it.  PEM texts are any texts the parser accepts; the
    MAC is the toy one of [Captcha]. *)

From S2P Require Import Prelude RustStr Ip GeoIp Waf Bot Captcha Security Edge EdgeAuth ProxyConfig Router Forward Apply.
From S2P Require Import Http Telemetry CertStore Database Admin Settings AutoSsl CertValidate Handshake Notify Tunnel.

Definition same_text (a : option str) (b : str) : bool := match a with Some a => a =s b | None => false end.

(** ** geoip.rs *)

Definition t_geo (allow deny : list str) (deny_as : list N) : GeoIpPolicy := mkGeoIpPolicy true allow deny [] deny_as.
Definition t_decides (p : GeoIpPolicy) (info : option GeoInfo) (want : Decision) : bool :=
  match geo_evaluate (mkGeoIpEngine None None) p info, want with
  | Allow, Allow | BlockCountry, BlockCountry | BlockAsn, BlockAsn => true
  | _, _ => false
  end.
Definition t_country (c : str) : option GeoInfo := Some (mkGeoInfo (Some c) None).

Definition test_deny_country_blocks : bool :=
  t_decides (t_geo [] [bs "CN"] []) (t_country "CN") BlockCountry && t_decides (t_geo [] [bs "CN"] []) (t_country "TH") Allow.

Definition test_allowlist_country : bool :=
  let p := t_geo [bs "TH"; bs "US"] [] [] in t_decides p (t_country "US") Allow && t_decides p (t_country "RU") BlockCountry.

Definition test_deny_asn_blocks : bool := t_decides (t_geo [] [] [13335]) (Some (mkGeoInfo None (Some 13335))) BlockAsn.

Definition test_inactive_without_lists : bool := negb (geo_is_active (t_geo [] [] [])) && t_decides (t_geo [] [] []) None Allow.

Definition test_parse_helpers : bool :=
  bool_decide (parse_countries "th, US;vn" = [bs "TH"; bs "US"; bs "VN"]) && bool_decide (parse_asns "AS13335, 15169" = [13335; 15169]).

Definition tab_line (fields : list str) : str := join [x09] fields ++ [x0a].
Definition t_tsv : str :=
  tab_line [bs "1.0.0.0"; bs "1.0.0.255"; bs "13335"; bs "US"; bs "CLOUDFLARENET"]
  ++ tab_line [bs "8.8.8.0"; bs "8.8.8.255"; bs "15169"; bs "US"; bs "GOOGLE"].

Definition test_tsv_asn_lookup : bool :=
  match tsv_load t_tsv with
  | Ok db =>
    bool_decide (tsv_lookup db (V4 1 0 0 10) = Some 13335) && bool_decide (tsv_lookup db (V4 8 8 8 8) = Some 15169)
    && negb (is_some (tsv_lookup db (V4 9 9 9 9)))
    && (let e := mkGeoIpEngine None (Some (Tsv db)) in asn_loaded e && bool_decide ((engine_lookup e "1.0.0.1" ≫= asn) = Some 13335))
  | Err _ => false
  end.

Lemma geoip_tests_pass : forallb id
  [test_deny_country_blocks; test_allowlist_country; test_deny_asn_blocks; test_inactive_without_lists; test_parse_helpers; test_tsv_asn_lookup] = true.
Proof. vm_compute. reflexivity. Qed.

(** ** security/ *)

Definition builtin_policy : WafPolicy := mkWafPolicy true true [].
Definition t_view (path query : str) (ua : option str) : RequestView := mkRequestView "GET" path query ua None None None None.
Definition t_hit (p : WafPolicy) (path query : str) (ua : option str) : option str := hit_rule_id <$> evaluate_waf p (t_view path query ua).

Definition test_detects_sqli_in_query : bool :=
  same_text (t_hit builtin_policy "/search" "q=1' or 1=1--" (Some (bs "Mozilla"))) "builtin-sqli-or".

Definition test_detects_sqli_in_percent_encoded_query : bool :=
  same_text (t_hit builtin_policy "/" "id=1%27%20or%201%3D1--" (Some (bs "Mozilla"))) "builtin-sqli-or".

Definition test_detects_xss_and_union_when_encoded : bool :=
  same_text (t_hit builtin_policy "/" "q=%3Cscript%3Ealert(1)%3C/script%3E" None) "builtin-xss-script"
  && same_text (t_hit builtin_policy "/" "q=UNION%20SELECT" None) "builtin-sqli-union".

Definition test_custom_ua_rule : bool :=
  is_some (t_hit (mkWafPolicy true false [mkWafRule "block-curl" true WafBlock [] None None (Some (bs "curl"))]) "/" "" (Some (bs "curl/8.0"))).

Definition test_missing_ua_challenges : bool :=
  let s := (score_bot 0 ∅ (mkBotPolicy true 40 80 10000)
             (mkRequestView "GET" "/" "" None (Some (bs "*/*")) (Some (bs "en")) None (Some (bs "9.9.9.9")))).1 in
  (40 <=? score s) && match verdict s with BotChallenge => true | _ => false end.

Definition t_browser (method path query : str) (ua : option str) : RequestView :=
  mkRequestView method path query ua (Some (bs "text/html")) (Some (bs "en")) None (Some (bs "1.2.3.4")).

#[local] Existing Instance toy_crypto.

Definition test_builtin_waf_blocks_traversal : bool :=
  let d := (evaluate "k" 0 0 ∅ (mkSecurityPolicy builtin_policy bot_default captcha_default)
             (t_browser "GET" "/static/../../../etc/passwd" "" (Some (bs "Mozilla/5.0")))).1 in
  match sec_action d with SecBlock => sec_reason d =s "waf-block" | _ => false end.

Definition test_bot_challenges_empty_ua_when_captcha_on : bool :=
  let d := (evaluate "k" 0 0 ∅ (mkSecurityPolicy waf_default (mkBotPolicy true 30 90 10000) (mkCaptchaPolicy true 3600)) (t_browser "GET" "/" "" None)).1 in
  match sec_action d with SecChallenge => true | _ => false end.

Definition test_challenge_roundtrip : bool :=
  let c := mint_challenge "k" 7 5 1000 in
  verify_challenge_token "k" 1000 (ch_token c) (show_N (ch_a c + ch_b c)) && negb (verify_challenge_token "k" 1000 (ch_token c) "0").

Definition test_pass_cookie_valid : bool :=
  let line := mint_pass_cookie "k" 1000 (Some (bs "1.2.3.4")) 3600 in
  let value := default [] (strip_prefix "pertisk_captcha=" (split_first ";" line)) in
  let header := bs "pertisk_captcha=" ++ value in
  has_valid_pass_cookie "k" 1000 (Some header) (Some (bs "1.2.3.4")) && negb (has_valid_pass_cookie "k" 1000 (Some header) (Some (bs "8.8.8.8"))).

Lemma security_tests_pass : forallb id
  [test_detects_sqli_in_query; test_detects_sqli_in_percent_encoded_query; test_detects_xss_and_union_when_encoded; test_custom_ua_rule;
   test_missing_ua_challenges; test_builtin_waf_blocks_traversal; test_bot_challenges_empty_ua_when_captcha_on; test_challenge_roundtrip;
   test_pass_cookie_valid] = true.
Proof. vm_compute. reflexivity. Qed.

(** ** tls/store.rs, tls/validate.rs and api/acme.rs *)

(** Every file and PEM text is good, except the empty text. *)
Definition t_certs : CertIo := mkCertIo (fun _ _ => true) (fun _ => true) (fun c k => negb (is_empty c) && negb (is_empty k)) (fun c => negb (is_empty c)) (fun _ => true).
Definition t_files (cert key : str) : Files :=
  mkFiles (fun _ => true) (fun p => if p =s "/t/cert.pem" then Some cert else if p =s "/t/key.pem" then Some key else None).
Definition t_paths (hosts : list str) (cert key : str) : CertStoreInner -> CertStoreInner := insert_paths_for_hosts hosts (mkCertPaths cert key).
Definition stored_path (c : option StoredCert) : option str := match c with Some (CertFile p) => Some (cert_path p) | _ => None end.
Definition t_reads (c : option StoredCert) (fs : Files) (cert key : str) : bool :=
  match c with
  | Some c => match read_pem fs c with Ok (c', k') => (c' =s cert) && (k' =s key) | Err _ => false end
  | None => false
  end.

Definition test_lookup_sni_does_not_use_unrelated_default : bool :=
  let st := t_paths [bs "*.apps.pertisk.com"] "/apps.pem" "/apps.key" (t_paths [bs "*.amd.example.com"] "/amd.pem" "/amd.key" store_new) in
  same_text (stored_path (lookup_sni iter_c st "gitlab.apps.pertisk.com")) "/apps.pem"
  && negb (is_some (lookup_sni iter_c st "unknown.example.com")) && is_some (store_get iter_c st "unknown.example.com").

Definition test_store_basic_operations : bool :=
  let st := t_paths [bs "app.example.com"] "/c.pem" "/k.key" store_new in
  store_is_empty store_new && (host_count store_new =? 0)%nat && negb (store_is_empty st) && (host_count st =? 1)%nat
  && has_cert_for_host iter_c st "app.example.com" && same_text (cert_path <$> default_paths iter_c st) "/c.pem"
  && store_is_empty (remove_for_hosts [bs "app.example.com"] st).

Definition test_has_any_cert_reflects_loaded_material : bool :=
  negb (has_any_cert iter_c store_new) && has_any_cert iter_c (t_paths [bs "any.example.com"] "/c.pem" "/k.key" store_new).

Definition test_insert_pem_in_memory : bool :=
  let '(r, st) := insert_pem_in_memory_for_hosts t_certs [bs "mem.example.com"] "CERT" "KEY" store_new in
  is_ok r && t_reads (lookup_sni iter_c st "mem.example.com") (t_files [] []) "CERT" "KEY" && is_some (default_cert iter_c st).

Definition test_insert_pem_to_disk : bool :=
  let '(r, st) := insert_pem_for_hosts t_certs [bs "disk.example.com"] "CERT" "KEY" "/t" "site-1" store_new in
  is_ok r && is_some (lookup_sni iter_c st "disk.example.com").

Definition t_file_tls (hosts : list str) : TlsConfig := mkTlsConfig hosts (File "/t/cert.pem" "/t/key.pem") None.

Definition test_reload_from_configs_logs_file_tls : bool :=
  let '(r, st) := reload_from_configs t_certs [t_file_tls [bs "logged.example.com"]] store_new in
  is_ok r && has_cert_for_host iter_c st "logged.example.com".

Definition test_reload_from_configs_skips_empty_hosts : bool :=
  let '(r, st) := reload_from_configs t_certs
    [t_file_tls []; t_file_tls [bs "tls.example.com"]; mkTlsConfig [bs "acme.example.com"] (Acme None "http01" None None None) None;
     mkTlsConfig [bs "k8s.example.com"] Kubernetes None] store_new in
  is_ok r && has_cert_for_host iter_c st "tls.example.com" && negb (has_cert_for_host iter_c st "acme.example.com").

Definition test_set_global_fallback_and_read_file_pem : bool :=
  let '(r, st) := set_global_fallback t_certs "/t/cert.pem" "/t/key.pem" store_new in
  is_ok r && t_reads (default_cert iter_c st) (t_files "CERT" "KEY") "CERT" "KEY".

Definition test_default_paths_none_for_in_memory_pem : bool :=
  let '(r, st) := insert_pem_in_memory_for_hosts t_certs [bs "pem.example.com"] "CERT" "KEY" store_new in
  is_ok r && negb (is_some (default_paths iter_c st)) && is_some (default_cert iter_c st).

Definition test_expects_host_matches_configured_sites_and_wildcards : bool :=
  let st := set_expected_hosts [bs "admin.apps.example.com"; bs "*.apps.example.com"] store_new in
  expects_host st "admin.apps.example.com" && expects_host st "minio.apps.example.com"
  && negb (expects_host st "minio.apps.socket9.com") && negb (expects_host st "proxy.arm.example.com").

Definition test_wildcard_matching : bool :=
  host_matches_cert_name "admin.amd.pertisk.com" "*.amd.pertisk.com" && negb (host_matches_cert_name "admin.amd.example.com" "*.amd.pertisk.com")
  && host_matches_cert_name "example.com" "example.com".

Definition t_row (hosts : list str) : CertificateRow := mkCertificateRow "test" hosts "acme" "now" (Some (bs "2026-10-29T02:25:59Z")).

Definition test_wildcard_cert_covers_new_names_under_same_wildcard : bool :=
  let tls := [bs "*.apps.example.com"; bs "admin.apps.example.com"; bs "new.apps.example.com"] in
  cert_row_covers_tls_hosts [bs "*.apps.example.com"] tls && cert_row_matches_tls_config (t_row [bs "*.apps.example.com"]) tls.

Definition test_mismatched_label_not_covered_by_apps_wildcard : bool :=
  let tls := [bs "*.apps.example.com"; bs "gtt.app.example.com"] in
  negb (cert_row_covers_tls_hosts [bs "*.apps.example.com"] tls) && negb (cert_row_matches_tls_config (t_row [bs "*.apps.example.com"]) tls).

Definition test_expanded_db_host_list_still_covers_new_tls_names : bool :=
  cert_row_matches_tls_config (t_row [bs "*.apps.example.com"; bs "admin.apps.example.com"; bs "omni.apps.example.com"])
    [bs "*.apps.example.com"; bs "admin.apps.example.com"; bs "omni.apps.example.com"; bs "la.apps.example.com"].

Lemma certificate_tests_pass : forallb id
  [test_lookup_sni_does_not_use_unrelated_default; test_store_basic_operations; test_has_any_cert_reflects_loaded_material;
   test_insert_pem_in_memory; test_insert_pem_to_disk; test_reload_from_configs_logs_file_tls; test_reload_from_configs_skips_empty_hosts;
   test_set_global_fallback_and_read_file_pem; test_default_paths_none_for_in_memory_pem; test_expects_host_matches_configured_sites_and_wildcards;
   test_wildcard_matching; test_wildcard_cert_covers_new_names_under_same_wildcard; test_mismatched_label_not_covered_by_apps_wildcard;
   test_expanded_db_host_list_still_covers_new_tls_names] = true.
Proof. vm_compute. reflexivity. Qed.

(** ** email/templates.rs and tunnel/client *)

Definition test_login_failure_html_includes_username : bool :=
  let html := render_html "Pertisk Proxy" (login_failure_content (mkAuthEventDetails "alice" "1.2.3.4" "now" "curl/8")) in
  contains "alice" html && contains "1.2.3.4" html && contains "Failed management login" html.

Definition t_dials (raw want : str) : bool := match dial_target raw with Ok t => t =s want | Err _ => false end.
Definition test_dial_proxmox_https_url : bool := t_dials "https://10.1.1.195:8006" "10.1.1.195:8006".
Definition test_dial_bare_host_port : bool := t_dials "10.1.1.195:8006" "10.1.1.195:8006".
Definition test_dial_https_default_port : bool := t_dials "https://10.1.1.195" "10.1.1.195:443".

Lemma edge_tests_pass : forallb id
  [test_login_failure_html_includes_username; test_dial_proxmox_https_url; test_dial_bare_host_port; test_dial_https_default_port] = true.
Proof. vm_compute. reflexivity. Qed.
